(* ===== verification/_CoqProject ===== *)
-Q . S2P
Prelude.v
ByteOrder.v
IpCsum.v
IpCsumHdr.v
Bitmap.v
Popcount.v
Pool.v
TwTimer.v
TwTimerSpec.v
Ip4Mtrie.v
Ip4MtrieInv.v
Ip4MtrieOps.v
Ip4Fib.v
SvmFifo.v
SvmFifoSpec.v
SvmFifoStream.v
TcpOptions.v
TcpConn.v
TcpAck.v
TcpRcv.v
Esp.v
Policer.v
Bfd.v
BfdFrame.v
BfdSpec.v
BfdTimers.v
BfdDetect.v
BfdAuth.v
BfdKeys.v
BfdUdp.v
BfdSystem.v
BfdApi.v
Ptclosure.v
FeatureOrder.v
Graph.v
HeapAlloc.v
Config.v
ConfigHeap.v
ConfigWire.v
ConfigSpec.v
ConfigOps.v
Feature.v
FeatureSpec.v
FeatureSystem.v
FeatureInit.v
Heap.v
HeapChain.v
HeapBins.v
HeapSegs.v
HeapTake.v
HeapCombine.v
HeapDealloc.v
HeapAllocElt.v
HeapSpec.v
HeapValidate.v
HeapSystem.v
FeatureToy.v
Bihash.v
BihashSlots.v
BihashBlocks.v
BihashSpec.v
