(* ===== verification/Prelude.v ===== *)
(** * Verification of the core of VPP: the development

    VPP is a packet processor: [vlib] runs a graph of nodes over vectors of packets, [vnet]
    holds the network stacks, [vppinfra] the data structures they are built on, and [svm] the
    memory shared with applications.  This library models data structures of [vppinfra] and
    the parts of [vnet] and [svm] that carry logic of their own above them, and proves what their users
    rely on.  Paths are below src/vpp/src/.

    ** Parts and how they interact

    - Prelude: machine words, the automation, and lemmas on lists, vectors and words.
    - ByteOrder (vppinfra/byte_order.h): byte swaps, and words in buffers of bytes, [load] and [store].
    - IpCsum, IpCsumHdr (vnet/ip/ip_packet.h, ip_checksum.c, ip4_packet.h, ip4_input.c, ip4_forward.c): the ones'
      complement sums and their incremental update.  A packet is a list of bytes, and a sum the residue modulo 65535 of the number that they make.
    - Bitmap, Popcount, Pool (vppinfra/bitmap.h, clib.h, bitops.h, pool.h): bitmaps as vectors
      of 64-bit words with the specification [bit], the population count, and object pools.
      The pool is verified against the class [FreeSet]; [clib_bitmap_t] is its instance.
      [valid] is the invariant of a pool and [pool_elt_at_index] its meaning, a partial map.
    - TwTimer, TwTimerSpec (vppinfra/tw_timer_template.c): the timer wheels.  The geometry is
      a class with an instance per instantiation of the template.  TwTimer has the operations
      on the circular lists in the pool, TwTimerSpec the map of live timers that they implement.
    - Ip4Mtrie, Ip4MtrieInv, Ip4MtrieOps, Ip4Fib (vnet/ip/ip4_mtrie.c, ip4_forward.c,
      vnet/fib/ip4_fib.c, fib_table.c, fib_entry.c, fib_entry_src.c): the multibit trie over
      a pool of plies, its invariant [mok], its operations address by address, and the tables of
      routes that it must agree with.
    - SvmFifo, SvmFifoSpec, SvmFifoStream (svm/svm_fifo.c): the ring with its pool of
      out-of-order segments; [fifo_rel] relates it to a byte queue; and the stream that a
      reader gets from it.
    - TcpOptions, TcpConn, TcpAck, TcpRcv (vnet/tcp/tcp_packet.h, tcp.h, tcp_input.c,
      tcp_output.c, tcp_newreno.c, vnet/session/session.c): options, headers and windows; the acceptance of
      segments, the estimate of the round-trip time, the scoreboard, recovery and
      timeouts; and the receive path, which is composed with the FIFO of SvmFifo.
    - Esp (vnet/ipsec/esp.h, esp_decrypt.c): sequence numbers and the anti-replay window.
    - Policer (vnet/policer/police.h, xlate.c): token buckets and their configuration.
    - Bfd, BfdFrame, BfdSpec, BfdTimers, BfdDetect (vnet/bfd/bfd_main.c, bfd_main.h, bfd_protocol.c, bfd_protocol.h):
      the sessions of bidirectional forwarding detection.  A session and the main structure are the state [st] of
      the functions, with the frames sent, the packets queued and the events signalled as a log.  Bfd has the functions, BfdFrame
      what each of them leaves as it is; BfdSpec the state machine of RFC 5880 and the handshake, BfdTimers the
      step relation [bfd_step] of everything that happens to the component and the deadlines,
      BfdDetect the detection of failures.
    - BfdAuth, BfdKeys (vnet/bfd/bfd_main.c): the authentication of frames, and the keys with the counts of their uses.
    - BfdUdp, BfdSystem, BfdApi (vnet/bfd/bfd_udp.c, bfd_udp.h): the calls of the API, the reception over UDP and the table of sessions by
      addresses; the invariant [sys_ok] of the whole component; its refinement of a table ([spec_op]), and
      who may change a session.
    - Ptclosure, FeatureOrder (vppinfra/ptclosure.c, vnet/feature/registration.c): the transitive closure, and the order of the
      features of an arc that is computed with it.
    - Graph (vlib/node.c): the next nodes of the nodes of the graph, shared by siblings; the class [NodeGraph] is what its
      users rely on.
    - HeapAlloc: the class of a heap of words with its laws, which Config is verified against.
    - Heap, HeapChain, HeapBins, HeapSegs, HeapTake, HeapCombine, HeapDealloc, HeapAllocElt, HeapSpec, HeapValidate, HeapSystem (vppinfra/heap.c, heap.h):
      the heap of blocks in a vector.  Heap has the functions; HeapChain the linked list of elements by relative indices, HeapBins the
      lists of free blocks by sizes, and HeapSegs the blocks in the order of their offsets with the relation [seg_inv] to the state.
      HeapTake has the search, HeapCombine and HeapDealloc the combination of free neighbours and freeing, HeapAllocElt the block of an allocation and its
      alignment; HeapSpec has the invariant [heap_inv] and the interface, HeapValidate heap_validate, and HeapSystem the refinement of a map of
      blocks and the instance [vppinfra_heap] of [HeapAlloc].
    - Config, ConfigHeap, ConfigWire, ConfigSpec, ConfigOps (vnet/config.c, config.h): configurations as strings of words in a heap,
      counted and shared by equal strings.  ConfigHeap has the blocks of the heap, ConfigWire how a string leads
      from node to node, ConfigSpec the invariant [inv], ConfigOps addition and deletion of features.
    - Feature, FeatureSpec, FeatureSystem, FeatureInit, FeatureToy (vnet/feature/feature.c, feature.h): the arcs and the features
      that interfaces have on them; the specification [arc_spec] and the relation [represents]; the reachable states; the
      initialisation; and an example.
    - Bihash, BihashSlots, BihashBlocks, BihashSpec (vppinfra/bihash_template.c, bihash_8_8.h, xxhash.h):
      the hash table; the pairs of one bucket as lists; the ownership of the blocks
      of its heap; the map that it implements and the states that a reader can see.

    ** Conventions

    A C integer of [w] bits is a [Z]; [u8], [u16], [u32] and [u64] reduce a result to its width
    wherever the C type can wrap.  A vector is a list, a pool is the record [pool] with its free
    bitmap, a structure is a record with the fields that the modelled functions use, and a
    function that writes through a pointer returns the new value.  [None] is a failed
    assertion, an access out of bounds or through a dangling index, a division by zero, a value
    that C leaves undefined, or a loop that does not end, so that a theorem that gives [Some] excludes these.  Where a
    function of the source returns an error code, [None] or a result value stands for it, as the
    file says.

    Loops whose end is not visible run on fuel, and running out of it is [None], so that a theorem that
    gives [Some] proves the end.  The fuel is 256 for the parser of TCP options (its length is a
    byte and every turn consumes one), the length of the pool for the lists of the wheel, of the
    out-of-order segments and of the scoreboard (a list visits an element once), 4 for the levels
    of the trie, 34 for the exponents of a burst (5 bits), the number of elements for the list of a heap, 3 for the free blocks
    that are combined (the code has an array of 3), and 2 for the linear split of a bihash bucket, which is
    tried again at most once.

    ** What the theorems show

    - Timer wheels: start and stop return distinct handles and implement the map;
      a run of the wheel expires each timer at its tick, once, whatever the callback stops, and
      never a stopped one; an interval past 16 bits of ticks is shown to pass the check and to fire
      at the next tick.
    - IPv4: after every sequence of route changes, the trie forwards every address as the
      longest matching route does, and the validation that the code has for it succeeds; adding
      and deleting a route gives back the forwarding of before.
    - FIFO and TCP input: for every order of writes or segments of a stream that do not overlap
      what is pending, the reader gets the stream; overlapping writes are shown to break an assertion.
    - TCP: the parser never reads past the options and ends on all input; the options of a SYN
      are parsed back as they were sent; the acceptance test on 32-bit sequence numbers decides the window
      on stream positions; the advertised window fits its field and the room, and the SACK list its length; what an
      acknowledgement of new data moves; and the cases are exhibited in which the code
      refuses every acknowledgement after a timeout, wraps the congestion window, drives the timeout to
      its maximum or reads through a null pointer.
    - ESP: without extended numbers no packet is accepted twice; the inferred high part is right
      within the window; the reset of the window when the low part wraps lets a replay in.
    - Policer: the two rates hold over every sequence of packets; accepted configurations
      give well-formed policers; bursts are rounded within 1/64; the single-rate policer
      is shown to refill its excess bucket by wrapping it.
    - Bihash: every sequence of updates implements a map and each update is atomic for a
      reader that runs between its stores; iteration visits the pairs once; the two exceptions
      (the key of all ones, and a reader overtaken by two updates) are shown.
    - BFD: a packet moves a session as RFC 5880 says; two ends that hear each other come up; no deadline of a session
      is missed, a peer that is silent for the detection time is found out at the next turn, and one that is not is not;
      a stream of signed frames with losses is accepted, and a frame not twice; the calls implement a
      table, keys in use are protected, a session changes only on packets of its peer.  Shown to fail:
      the detection time when the peer changes its interval, the check of an IPv6 source, the sleep of the process when the peer wants no
      packets, the count of a key that is scheduled and replaced, the last of the sequence numbers.
    - Feature arcs: the order of the features keeps the constraints; every operation on a reachable arc succeeds and follows the
      specification; packets visit the features of their interface in order, each with its data.  Shown to fail: the number of
      features when one that is absent is disabled or one without a node is enabled.
    - Heap: in every reachable state the used blocks are those of a map, disjoint and in the vector; a request gets an aligned block and the other
      blocks keep their words; free neighbours are combined and the assertions of heap_validate hold.  Shown to fail: the search of a list of large blocks
      of which none fits.
    - Checksums: the routines sum bytes as RFC 1071 says, whatever the alignment at even addresses; a header stays valid when its time to live is
      decremented.  Shown to fail: odd addresses, and an assertion on a sum of zero.
    - Bitmaps and pools: iteration, population count, allocation and release.

    ** Parameters

    Code outside of the repository, and code that computes in floating point, is a parameter: the ticks that
    [tw_timer_expire_timers] makes of the clock, the callbacks of the wheel and of the hash iteration, the
    verdict of the HMAC, [compute_policer_params], the hash function of the bihash, and the
    allocator of its heap, whose contract is that a block that it returns is free and whose
    instance is an allocator that counts up.

    For BFD the parameters are the class [BfdEnv] (the conversions of time and the jitter, which compute in floating point,
    SHA1, the checksum of an echo packet) with the laws that the theorems use, and the state of the stack that the calls look up.  The timing
    wheel is the list of its entries, and [advanced] is what timing_wheel_advance promises: it gives every entry that is due
    and none that is more than the inaccuracy of the wheel ahead.  [toy_env] is an instance.
    The theorems on the whole component bound the number of steps by 2^32, so that the count of the uses of a key does not wrap;
    the search for a discriminator has 1001 turns as in the code.

    For the feature arcs the heap of vppinfra is the class [HeapAlloc] and [qsort] of the C library the class [Qsort], with laws; the table of
    nodes by name is a function.  FeatureToy has instances, of which that of the heap is [vppinfra_heap].  The laws of the heap are about blocks of at most 32 words:
    every block in the bin of such a size or in a later one fits, while the search for a larger block can read past a list.  The theorems bound the number of operations on an arc by the room of
    the heap and the slots of the nodes, which do not wrap.

    ** Not modelled

    The dispatch of the graph, the threads and the buffers of [vlib]; drivers and operating system glue; the
    formatting, the API and its clients; the cryptography; the FIB graph of path lists and
    recursive resolution; IPv6, multicast, MPLS, LISP, segment routing, layer 2 and the tunnels;
    the plugins; the memory of the allocator itself.  The connection state machine of TCP is modelled in the
    functions named in TcpConn, TcpAck and TcpRcv and not in the nodes that dispatch to them.
    Planned next, in this order: the normalisation of load balances, the Fibonacci heap, the skip list, the integers of serialize.c, fragmentation, the
    tag rewriting of layer 2, MAP, the load balancer and the rule matching of the ACL plugin. *)

From Stdlib Require Export ZArith Lia.
From stdpp Require Export base tactics list option numbers relations.

#[export] Set Default Goal Selector "!".

Declare Scope vpp_scope.
Delimit Scope vpp_scope with vpp.

(** ** Machine words

    A [w]-bit unsigned C integer is a [Z] in [0, 2^w); an arithmetic result is
    reduced with one of the functions below. *)

Definition u8 (z : Z) : Z := (z `mod` 2 ^ 8)%Z.
Definition u16 (z : Z) : Z := (z `mod` 2 ^ 16)%Z.
Definition u32 (z : Z) : Z := (z `mod` 2 ^ 32)%Z.
Definition u64 (z : Z) : Z := (z `mod` 2 ^ 64)%Z.

(** Reinterpretation of a word as a two's complement [i32]. *)
Definition i32 (z : Z) : Z :=
  (let r := z `mod` 2 ^ 32 in if r <? 2 ^ 31 then r else r - 2 ^ 32)%Z.

Definition in_u8 (z : Z) : Prop := (0 ≤ z < 2 ^ 8)%Z.
Definition in_u16 (z : Z) : Prop := (0 ≤ z < 2 ^ 16)%Z.
Definition in_u32 (z : Z) : Prop := (0 ≤ z < 2 ^ 32)%Z.
Definition in_u64 (z : Z) : Prop := (0 ≤ z < 2 ^ 64)%Z.

(** [~0] of a 32-bit and of a 64-bit word. *)
Definition u32_max : Z := (2 ^ 32 - 1)%Z.
Definition u64_max : Z := (2 ^ 64 - 1)%Z.

Notation "a +₃₂ b" := (u32 (a + b)%Z) (at level 50, left associativity) : vpp_scope.
Notation "a -₃₂ b" := (u32 (a - b)%Z) (at level 50, left associativity) : vpp_scope.
Notation "a *₃₂ b" := (u32 (a * b)%Z) (at level 40, left associativity) : vpp_scope.
Notation "a +₆₄ b" := (u64 (a + b)%Z) (at level 50, left associativity) : vpp_scope.
Notation "a -₆₄ b" := (u64 (a - b)%Z) (at level 50, left associativity) : vpp_scope.
Notation "a *₆₄ b" := (u64 (a * b)%Z) (at level 40, left associativity) : vpp_scope.

Open Scope Z_scope.

Create HintDb vpp.
Create Rewrite HintDb vpp.

Lemma u8_range z : in_u8 (u8 z).
Proof. unfold in_u8, u8. apply Z.mod_pos_bound. lia. Qed.
Lemma u16_range z : in_u16 (u16 z).
Proof. unfold in_u16, u16. apply Z.mod_pos_bound. lia. Qed.
Lemma u32_range z : in_u32 (u32 z).
Proof. unfold in_u32, u32. apply Z.mod_pos_bound. lia. Qed.
Lemma u64_range z : in_u64 (u64 z).
Proof. unfold in_u64, u64. apply Z.mod_pos_bound. lia. Qed.
#[export] Hint Resolve u8_range u16_range u32_range u64_range : vpp.

Lemma u8_small z : in_u8 z → u8 z = z.
Proof. unfold in_u8, u8. apply Z.mod_small. Qed.
Lemma u16_small z : in_u16 z → u16 z = z.
Proof. unfold in_u16, u16. apply Z.mod_small. Qed.
Lemma u32_small z : in_u32 z → u32 z = z.
Proof. unfold in_u32, u32. apply Z.mod_small. Qed.
Lemma u64_small z : in_u64 z → u64 z = z.
Proof. unfold in_u64, u64. apply Z.mod_small. Qed.

Lemma u32_u32 z : u32 (u32 z) = u32 z.
Proof. apply u32_small, u32_range. Qed.
Lemma u64_u64 z : u64 (u64 z) = u64 z.
Proof. apply u64_small, u64_range. Qed.

Lemma u32_add_l a b : u32 (u32 a + b) = u32 (a + b).
Proof. unfold u32. by rewrite Zplus_mod_idemp_l. Qed.
Lemma u32_add_r a b : u32 (a + u32 b) = u32 (a + b).
Proof. unfold u32. by rewrite Zplus_mod_idemp_r. Qed.
Lemma u32_sub_l a b : u32 (u32 a - b) = u32 (a - b).
Proof. unfold u32. by rewrite Zminus_mod_idemp_l. Qed.
Lemma u32_sub_r a b : u32 (a - u32 b) = u32 (a - b).
Proof. unfold u32. by rewrite Zminus_mod_idemp_r. Qed.
Lemma u64_add_l a b : u64 (u64 a + b) = u64 (a + b).
Proof. unfold u64. by rewrite Zplus_mod_idemp_l. Qed.
#[export] Hint Rewrite u32_u32 u64_u64 u32_add_l u32_add_r u32_sub_l u32_sub_r
  u64_add_l : vpp.

(** [word] rewrites the wrap-around away wherever [lia] can show that the
    wrapped value is in range, and finishes with [lia]. *)
Ltac unfold_ranges := unfold in_u8, in_u16, in_u32, in_u64, u32_max, u64_max in *.
Ltac word_simpl :=
  repeat first
    [ progress autorewrite with vpp in *
    | rewrite u32_small by (unfold_ranges; lia)
    | rewrite u64_small by (unfold_ranges; lia)
    | rewrite u16_small by (unfold_ranges; lia)
    | rewrite u8_small by (unfold_ranges; lia) ].
Ltac word := unfold_ranges; word_simpl; lia.

(** ** Booleans of C conditions

    [destruct_bool] splits on the comparisons of the goal and of the context,
    as Z (in)equations. *)
Ltac bool_to_prop :=
  repeat match goal with
  | H : _ && _ = true |- _ => apply andb_prop in H as [??]
  | H : (_ || _)%bool = false |- _ => apply orb_false_elim in H as [??]
  | H : negb _ = true |- _ => apply negb_true_iff in H
  | H : negb _ = false |- _ => apply negb_false_iff in H
  | H : (_ <? _) = true |- _ => apply Z.ltb_lt in H
  | H : (_ <? _) = false |- _ => apply Z.ltb_ge in H
  | H : (_ <=? _) = true |- _ => apply Z.leb_le in H
  | H : (_ <=? _) = false |- _ => apply Z.leb_gt in H
  | H : (_ =? _) = true |- _ => apply Z.eqb_eq in H
  | H : (_ =? _) = false |- _ => apply Z.eqb_neq in H
  end.

Ltac case_cond :=
  match goal with
  | |- context [if ?b then _ else _] => destruct b eqn:?; bool_to_prop
  end.

(** ** Bits *)

Lemma testbit_high (x w i : Z) : 0 ≤ x < 2 ^ w → w ≤ i → Z.testbit x i = false.
Proof.
  intros Hx Hi. destruct (decide (0 ≤ w)) as [Hw|Hw].
  - rewrite <-(Z.mod_small x (2 ^ w)) by done. by apply Z.mod_pow2_bits_high.
  - rewrite Z.pow_neg_r in Hx by lia. lia.
Qed.

Lemma testbit_mod_pow2 (x w i : Z) :
  0 ≤ w → Z.testbit (x `mod` 2 ^ w) i = (i <? w) && Z.testbit x i.
Proof.
  intros Hw. destruct (i <? w) eqn:E; bool_to_prop.
  - by apply Z.mod_pow2_bits_low.
  - by apply Z.mod_pow2_bits_high.
Qed.

Lemma testbit_pow2 (n i : Z) : 0 ≤ n → Z.testbit (2 ^ n) i = (i =? n).
Proof.
  intros Hn. rewrite Z.pow2_bits_eqb by done. apply Z.eqb_sym.
Qed.

Lemma testbit_shiftl1 (n i : Z) : 0 ≤ n → Z.testbit (Z.shiftl 1 n) i = (i =? n).
Proof. intros Hn. rewrite Z.shiftl_1_l. by apply testbit_pow2. Qed.

Lemma testbit_u64 (x i : Z) : Z.testbit (u64 x) i = (i <? 64) && Z.testbit x i.
Proof. apply testbit_mod_pow2. lia. Qed.
Lemma testbit_u32 (x i : Z) : Z.testbit (u32 x) i = (i <? 32) && Z.testbit x i.
Proof. apply testbit_mod_pow2. lia. Qed.

Lemma bits_inj_w (w x y : Z) :
  0 ≤ x < 2 ^ w → 0 ≤ y < 2 ^ w →
  (∀ i, 0 ≤ i < w → Z.testbit x i = Z.testbit y i) → x = y.
Proof.
  intros Hx Hy H. apply Z.bits_inj'. intros i Hi.
  destruct (decide (i < w)); [by apply H; lia|].
  rewrite !(testbit_high _ w) by (done || lia). done.
Qed.

(** A word whose bits at and above [w] vanish is in range. *)
Lemma range_of_bits (w x : Z) :
  0 ≤ w → 0 ≤ x → (∀ i, w ≤ i → Z.testbit x i = false) → 0 ≤ x < 2 ^ w.
Proof.
  intros Hw Hx H. split; [done|].
  assert (x = x `mod` 2 ^ w) as ->.
  { apply Z.bits_inj'. intros i Hi. rewrite testbit_mod_pow2 by done.
    destruct (i <? w) eqn:E; bool_to_prop; [done|]. simpl. apply H. lia. }
  apply Z.mod_pos_bound. lia.
Qed.

Lemma land_range w x y : 0 ≤ w → 0 ≤ x < 2 ^ w → 0 ≤ y → 0 ≤ Z.land x y < 2 ^ w.
Proof.
  intros Hw Hx Hy. apply range_of_bits; [done|by apply Z.land_nonneg; left; lia|].
  intros i Hi. rewrite Z.land_spec, (testbit_high x w); [done|lia|done].
Qed.

Lemma lor_range w x y :
  0 ≤ w → 0 ≤ x < 2 ^ w → 0 ≤ y < 2 ^ w → 0 ≤ Z.lor x y < 2 ^ w.
Proof.
  intros Hw Hx Hy. apply range_of_bits; [done|by apply Z.lor_nonneg; lia|].
  intros i Hi. by rewrite Z.lor_spec, (testbit_high x w), (testbit_high y w) by lia.
Qed.

Lemma lxor_range w x y :
  0 ≤ w → 0 ≤ x < 2 ^ w → 0 ≤ y < 2 ^ w → 0 ≤ Z.lxor x y < 2 ^ w.
Proof.
  intros Hw Hx Hy. apply range_of_bits; [done|by apply Z.lxor_nonneg; lia|].
  intros i Hi. by rewrite Z.lxor_spec, (testbit_high x w), (testbit_high y w) by lia.
Qed.

Create Rewrite HintDb bits.
#[export] Hint Rewrite Z.land_spec Z.lor_spec Z.lxor_spec Z.ldiff_spec
  Z.bits_0 testbit_u64 testbit_u32 : bits.
#[export] Hint Rewrite Z.shiftl_spec Z.shiftr_spec Z.lnot_spec testbit_shiftl1
  testbit_pow2 using lia : bits.

Lemma shiftr_range w x s : 0 ≤ s → 0 ≤ x < 2 ^ w → 0 ≤ Z.shiftr x s < 2 ^ w.
Proof.
  intros Hs Hx. rewrite Z.shiftr_div_pow2 by done.
  assert (0 < 2 ^ s) by (apply Z.pow_pos_nonneg; lia).
  split; [apply Z.div_pos; lia|].
  apply Z.le_lt_trans with x; [|lia]. apply Z.div_le_upper_bound; nia.
Qed.

(** A word is zero exactly when it has no bit set. *)
Lemma nonzero_has_bit (x : Z) : 0 < x → ∃ i, 0 ≤ i ≤ Z.log2 x ∧ Z.testbit x i = true.
Proof.
  intros Hx. exists (Z.log2 x). split; [pose proof (Z.log2_nonneg x); lia|].
  by apply Z.bit_log2.
Qed.

(** ** Vectors indexed by machine integers

    A C array or a vppinfra vector is a [list]; [vget] reads it at a [Z] index
    ([None] out of range, where the C access is undefined), [velt] reads it with
    a default, [vset] writes it (nothing out of range), [zlen] is its length. *)

Section vectors.
Context {A : Type}.
Implicit Types (l : list A) (i j : Z) (x d : A).

Definition zlen l : Z := Z.of_nat (length l).
Definition vget l i : option A := if 0 <=? i then l !! Z.to_nat i else None.
Definition velt d l i : A := default d (vget l i).
Definition vset l i x : list A := if 0 <=? i then <[Z.to_nat i := x]> l else l.

(** [vec_validate]: make index [i] valid, new elements being [d]. *)
Definition vec_validate d l i : list A :=
  l ++ replicate (Z.to_nat (i + 1 - zlen l)) d.

Lemma zlen_nonneg l : 0 ≤ zlen l.
Proof. unfold zlen. lia. Qed.

Lemma zlen_nil : zlen [] = 0.
Proof. done. Qed.

Lemma zlen_cons x l : zlen (x :: l) = zlen l + 1.
Proof. unfold zlen. cbn [length]. lia. Qed.

Lemma zlen_app l l' : zlen (l ++ l') = zlen l + zlen l'.
Proof. unfold zlen. rewrite length_app. lia. Qed.

Lemma zlen_vset l i x : zlen (vset l i x) = zlen l.
Proof. unfold zlen, vset. case_cond; [by rewrite length_insert|done]. Qed.

Lemma zlen_validate d l i : 0 ≤ i → zlen (vec_validate d l i) = Z.max (zlen l) (i + 1).
Proof.
  intros Hi. unfold vec_validate. rewrite zlen_app.
  unfold zlen at 2. rewrite length_replicate. pose proof (zlen_nonneg l). lia.
Qed.

Lemma vget_Some_range l i x : vget l i = Some x → 0 ≤ i < zlen l.
Proof.
  unfold vget, zlen. case_cond; [|done]. intros H%lookup_lt_Some. lia.
Qed.

Lemma vget_in_range l i : 0 ≤ i < zlen l → is_Some (vget l i).
Proof.
  unfold vget, zlen. intros H. case_cond; [|lia].
  apply lookup_lt_is_Some. lia.
Qed.

Lemma vget_out l i : i < 0 ∨ zlen l ≤ i → vget l i = None.
Proof.
  intros H. unfold vget. case_cond; [|done].
  apply lookup_ge_None. unfold zlen in H. lia.
Qed.

Lemma vget_velt d l i : 0 ≤ i < zlen l → vget l i = Some (velt d l i).
Proof. intros [x Hx]%vget_in_range. unfold velt. by rewrite Hx. Qed.

Lemma vget_vset_eq l i x : 0 ≤ i < zlen l → vget (vset l i x) i = Some x.
Proof.
  intros H. unfold vget, vset. case_cond; [|lia].
  apply list_lookup_insert_eq. unfold zlen in H. lia.
Qed.

Lemma vget_vset_ne l i j x : i ≠ j → vget (vset l i x) j = vget l j.
Proof.
  intros H. unfold vget, vset. case_cond; [|done]. case_cond; [|done].
  apply list_lookup_insert_ne. lia.
Qed.

Lemma vget_vset l i j x :
  vget (vset l i x) j = if decide (i = j ∧ 0 ≤ i < zlen l) then Some x else vget l j.
Proof.
  case_decide as Hd.
  - destruct Hd as [-> ?]. by apply vget_vset_eq.
  - destruct (decide (i = j)) as [->|]; [|by apply vget_vset_ne].
    rewrite vget_out by (rewrite zlen_vset; lia). by rewrite vget_out by lia.
Qed.

Lemma velt_vset_eq d l i x : 0 ≤ i < zlen l → velt d (vset l i x) i = x.
Proof. intros H. unfold velt. by rewrite vget_vset_eq. Qed.

Lemma velt_vset_ne d l i j x : i ≠ j → velt d (vset l i x) j = velt d l j.
Proof. intros H. unfold velt. by rewrite vget_vset_ne. Qed.

Lemma velt_out d l i : i < 0 ∨ zlen l ≤ i → velt d l i = d.
Proof. intros H. unfold velt. by rewrite vget_out. Qed.

Lemma vget_app_l l l' i : i < zlen l → vget (l ++ l') i = vget l i.
Proof.
  intros H. unfold vget. case_cond; [|done].
  apply lookup_app_l. unfold zlen in H. lia.
Qed.

Lemma vget_app_r l l' i : zlen l ≤ i → vget (l ++ l') i = vget l' (i - zlen l).
Proof.
  intros H. pose proof (zlen_nonneg l). unfold vget. do 2 (case_cond; [|lia]).
  rewrite lookup_app_r by (unfold zlen in H; lia). f_equal. unfold zlen. lia.
Qed.

Lemma velt_validate d l i j : velt d (vec_validate d l i) j = velt d l j.
Proof.
  unfold velt, vec_validate.
  destruct (decide (j < zlen l)); [by rewrite vget_app_l|].
  rewrite vget_app_r, (vget_out l) by lia. simpl.
  destruct (vget _ (j - zlen l)) as [y|] eqn:E; [|done]. simpl.
  unfold vget in E. destruct (0 <=? _); [|done].
  by apply lookup_replicate in E as [-> _].
Qed.

Lemma vget_of_nat l (k : nat) : vget l (Z.of_nat k) = l !! k.
Proof. unfold vget. rewrite Nat2Z.id. by destruct (Z.leb_spec 0 (Z.of_nat k)); [|lia]. Qed.

Lemma vget_elem l i x : vget l i = Some x → x ∈ l.
Proof. unfold vget. case_cond; [|done]. apply list_elem_of_lookup_2. Qed.

Lemma elem_vget l x : x ∈ l → ∃ i, vget l i = Some x.
Proof.
  intros [n Hn]%list_elem_of_lookup_1. exists (Z.of_nat n).
  unfold vget. case_cond; [|lia]. by rewrite Nat2Z.id.
Qed.

Lemma vec_ext d l l' :
  zlen l = zlen l' → (∀ i, 0 ≤ i < zlen l → velt d l i = velt d l' i) → l = l'.
Proof.
  intros Hl H. apply list_eq. intros n.
  destruct (decide (n < length l)%nat) as [Hn|Hn].
  - specialize (H (Z.of_nat n)). unfold zlen in *.
    specialize (H ltac:(lia)). unfold velt, vget in H.
    revert H. case_cond; [|lia]. rewrite !Nat2Z.id.
    destruct (lookup_lt_is_Some_2 l n) as [? ->]; [lia|].
    destruct (lookup_lt_is_Some_2 l' n) as [? ->]; [lia|]. simpl. congruence.
  - unfold zlen in Hl. rewrite !lookup_ge_None_2 by lia. done.
Qed.
End vectors.

Lemma zlen_map {A B} (f : A → B) (l : list A) : zlen (map f l) = zlen l.
Proof. unfold zlen. by rewrite length_map. Qed.
Lemma zlen_replicate {A} n (x : A) : zlen (replicate n x) = Z.of_nat n.
Proof. unfold zlen. by rewrite length_replicate. Qed.

#[export] Hint Rewrite @zlen_nil @zlen_cons @zlen_app @zlen_vset @zlen_map
  @zlen_replicate : vpp.

(** ** Runs of consecutive indices, the loops [for (i = lo; i < hi; i++)] *)

Definition zrange (lo hi : Z) : list Z := seqZ lo (hi - lo).

Lemma elem_of_zrange lo hi i : i ∈ zrange lo hi ↔ lo ≤ i < hi.
Proof. unfold zrange. rewrite elem_of_seqZ. lia. Qed.

Lemma zrange_nil lo hi : hi ≤ lo → zrange lo hi = [].
Proof. intros H. unfold zrange. apply seqZ_nil. lia. Qed.

Lemma zrange_cons lo hi : lo < hi → zrange lo hi = lo :: zrange (lo + 1) hi.
Proof.
  intros H. unfold zrange. rewrite seqZ_cons by lia. f_equal. f_equal; lia.
Qed.

Lemma filter_ext_in {A} (P Q : A → Prop) `{!∀ k, Decision (P k), !∀ k, Decision (Q k)} (l : list A) :
  (∀ k, k ∈ l → P k ↔ Q k) → filter P l = filter Q l.
Proof.
  induction l as [|x l IH]; intros Heq; [done|].
  rewrite !filter_cons. rewrite IH by (intros; apply Heq; by right).
  pose proof (Heq x ltac:(by left)) as Hx. do 2 case_decide; tauto.
Qed.

Lemma filter_zrange_skip (P : Z → Prop) `{!∀ k, Decision (P k)} lo c hi :
  (∀ k, lo ≤ k < c → ¬ P k) → lo ≤ c → filter P (zrange lo hi) = filter P (zrange c hi).
Proof.
  intros Hno Hle. remember (Z.to_nat (c - lo)) as d eqn:Hd. revert lo Hno Hle Hd.
  induction d as [|d IH]; intros lo Hno Hle Hd; [by replace c with lo by lia|].
  destruct (decide (lo < hi)); [|by rewrite !zrange_nil by lia].
  rewrite zrange_cons, filter_cons_False by (lia || (apply Hno; lia)).
  apply IH; [intros; apply Hno|..]; lia.
Qed.

Lemma filter_zrange_ext (P Q : Z → Prop) `{!∀ k, Decision (P k), !∀ k, Decision (Q k)} lo hi :
  (∀ k, lo ≤ k < hi → P k ↔ Q k) → filter P (zrange lo hi) = filter Q (zrange lo hi).
Proof.
  intros Heq. apply filter_ext_in. intros k Hk%elem_of_zrange. by apply Heq.
Qed.

Lemma zrange_app lo mid hi : lo ≤ mid ≤ hi → zrange lo hi = zrange lo mid ++ zrange mid hi.
Proof.
  intros H. unfold zrange. replace (hi - lo) with ((mid - lo) + (hi - mid)) by lia.
  rewrite seqZ_app by lia. do 2 f_equal; lia.
Qed.

Lemma zrange_snoc lo hi : lo ≤ hi → zrange lo (hi + 1) = zrange lo hi ++ [hi].
Proof. intros H. rewrite (zrange_app lo hi) by lia. rewrite (zrange_cons hi) by lia. by rewrite (zrange_nil (hi + 1)) by lia. Qed.

Lemma zrange_shift base lo hi : (λ k, base + k) <$> zrange lo hi = zrange (base + lo) (base + hi).
Proof.
  unfold zrange. replace (base + hi - (base + lo)) with (hi - lo) by lia.
  by rewrite <-fmap_add_seqZ.
Qed.

Lemma filter_shift (P Q : Z → Prop) `{!∀ k, Decision (P k), !∀ k, Decision (Q k)} base lo hi :
  (∀ k, lo ≤ k < hi → P (base + k) ↔ Q k) →
  filter P (zrange (base + lo) (base + hi)) = (λ k, base + k) <$> filter Q (zrange lo hi).
Proof.
  intros Heq. rewrite <-zrange_shift.
  assert (∀ l : list Z, (∀ k, k ∈ l → lo ≤ k < hi) →
    filter P ((λ k, base + k) <$> l) = (λ k, base + k) <$> filter Q l) as Hl.
  { induction l as [|x l IH]; intros Hin; [done|].
    rewrite fmap_cons, !filter_cons, IH by (intros; apply Hin; by right).
    pose proof (Heq x (Hin x ltac:(by left))). do 2 case_decide; [done|tauto|tauto|done]. }
  apply Hl. intros k. apply elem_of_zrange.
Qed.

Lemma elem_of_concat {A} (ls : list (list A)) x : x ∈ concat ls ↔ ∃ l, x ∈ l ∧ l ∈ ls.
Proof.
  rewrite list_elem_of_In, in_concat. setoid_rewrite list_elem_of_In. naive_solver.
Qed.

(** A monadic left fold, for loops whose body can fault. *)
Fixpoint mfoldl {S A} (f : S → A → option S) (s : S) (l : list A) : option S :=
  match l with
  | [] => Some s
  | x :: l => s' ← f s x; mfoldl f s' l
  end.

Lemma mfoldl_snoc {S A} (f : S → A → option S) (s : S) (l : list A) (x : A) :
  mfoldl f s (l ++ [x]) = s' ← mfoldl f s l; f s' x.
Proof. revert s. induction l as [|y l IH]; intros s; cbn; [by destruct (f s x)|]. destruct (f s y); cbn; [apply IH|done]. Qed.

(** The loop rule: an invariant indexed by the elements already processed. *)
Lemma mfoldl_inv {S A} (f : S → A → option S) (I : list A → S → Prop) l :
  ∀ s, I [] s →
  (∀ s done x, x ∈ l → I done s → ∃ s', f s x = Some s' ∧ I (done ++ [x]) s') →
  ∃ s', mfoldl f s l = Some s' ∧ I l s'.
Proof.
  intros s Hs Hstep.
  assert (∀ done todo s, (∀ x, x ∈ todo → x ∈ l) → I done s →
    ∃ s', mfoldl f s todo = Some s' ∧ I (done ++ todo) s') as Hgen.
  { intros done todo. revert done.
    induction todo as [|x todo IH]; intros done s0 Hin HI; simpl.
    - exists s0. by rewrite app_nil_r.
    - destruct (Hstep s0 done x) as (s1 & -> & H1); [apply Hin; by left|done|].
      destruct (IH (done ++ [x]) s1) as (s2 & ? & ?); [intros; apply Hin; by right|done|].
      exists s2. simpl. rewrite <-app_assoc in *. done. }
  destruct (Hgen [] l s) as (s' & ? & ?); eauto.
Qed.
