(* ===== verification/ByteOrder.v ===== *)
(** * Bytes and words (vppinfra/byte_order.h)

    The byte swaps of a little-endian machine, and words in a buffer: a buffer is a list of bytes,
    [load n off] reads the [n] bytes at offset [off] as a C access through a pointer does, and [store] writes
    them.  [None] is an access outside of the buffer. *)

From S2P Require Import Prelude.

(** [clib_net_to_host_u32] and its inverse on a little-endian machine, and their 16-bit variants. *)
Definition clib_net_to_host_u32 (x : Z) : Z :=
  Z.lor (Z.shiftl (Z.land x 255) 24)
    (Z.lor (Z.shiftl (Z.land (Z.shiftr x 8) 255) 16)
       (Z.lor (Z.shiftl (Z.land (Z.shiftr x 16) 255) 8) (Z.land (Z.shiftr x 24) 255))).
Definition clib_host_to_net_u32 : Z → Z := clib_net_to_host_u32.

Definition clib_net_to_host_u16 (x : Z) : Z :=
  Z.lor (Z.shiftl (Z.land x 255) 8) (Z.land (Z.shiftr x 8) 255).
Definition clib_host_to_net_u16 : Z → Z := clib_net_to_host_u16.

(** The word that bytes make on a little-endian machine, and the bytes of a word. *)
Definition le (l : list Z) : Z := foldr (λ b r, b + 256 * r) 0 l.

Fixpoint split_le (n : nat) (x : Z) : list Z :=
  match n with
  | O => []
  | S n => x `mod` 256 :: split_le n (x / 256)
  end.

Definition load (n : nat) (off : Z) (p : list Z) : option Z :=
  if (0 <=? off) && (off + Z.of_nat n <=? zlen p)
  then Some (le (take n (drop (Z.to_nat off) p))) else None.

Definition store (n : nat) (off x : Z) (p : list Z) : option (list Z) :=
  if (0 <=? off) && (off + Z.of_nat n <=? zlen p)
  then Some (take (Z.to_nat off) p ++ split_le n x ++ drop (Z.to_nat off + n) p) else None.

(** A buffer holds bytes. *)
Definition bytes (p : list Z) : Prop := Forall in_u8 p.

(** ** Byte swaps *)

Lemma lor_shiftl k a b : 0 ≤ k → 0 ≤ b < 2 ^ k → Z.lor (Z.shiftl a k) b = a * 2 ^ k + b.
Proof.
  intros Hk Hb. assert (Z.land (Z.shiftl a k) b = 0) as H0.
  { apply Z.bits_inj'. intros i Hi. autorewrite with bits. destruct (Z_lt_le_dec i k).
    - by rewrite Z.testbit_neg_r by lia.
    - rewrite (testbit_high b k i) by lia. apply andb_false_r. }
  by rewrite <-Z.shiftl_mul_pow2, Z.add_nocarry_lor.
Qed.

Lemma net_to_host_bytes x : clib_net_to_host_u32 x =
  (x `mod` 2 ^ 8) * 2 ^ 24 + ((x / 2 ^ 8) `mod` 2 ^ 8) * 2 ^ 16 + ((x / 2 ^ 16) `mod` 2 ^ 8) * 2 ^ 8 + (x / 2 ^ 24) `mod` 2 ^ 8.
Proof.
  unfold clib_net_to_host_u32. rewrite !Z.shiftr_div_pow2 by lia. change 255 with (Z.ones 8). rewrite !Z.land_ones by lia.
  pose proof (Z.mod_pos_bound (x / 2 ^ 8) (2 ^ 8)). pose proof (Z.mod_pos_bound (x / 2 ^ 16) (2 ^ 8)).
  pose proof (Z.mod_pos_bound (x / 2 ^ 24) (2 ^ 8)). rewrite (lor_shiftl 8), (lor_shiftl 16), (lor_shiftl 24) by lia. lia.
Qed.

Lemma net_to_host_word a b c d : in_u8 a → in_u8 b → in_u8 c → in_u8 d →
  clib_net_to_host_u32 (a * 2 ^ 24 + b * 2 ^ 16 + c * 2 ^ 8 + d) = d * 2 ^ 24 + c * 2 ^ 16 + b * 2 ^ 8 + a.
Proof.
  unfold_ranges. intros. rewrite net_to_host_bytes. set (x := a * 2 ^ 24 + b * 2 ^ 16 + c * 2 ^ 8 + d).
  assert (x `mod` 2 ^ 8 = d) as -> by (symmetry; apply (Z.mod_unique x _ (a * 2 ^ 16 + b * 2 ^ 8 + c)); lia).
  assert (x / 2 ^ 8 = a * 2 ^ 16 + b * 2 ^ 8 + c) as -> by (symmetry; apply (Z.div_unique x _ _ d); lia).
  assert (x / 2 ^ 16 = a * 2 ^ 8 + b) as -> by (symmetry; apply (Z.div_unique x _ _ (c * 2 ^ 8 + d)); lia).
  assert (x / 2 ^ 24 = a) as -> by (symmetry; apply (Z.div_unique x _ _ (b * 2 ^ 16 + c * 2 ^ 8 + d)); lia).
  assert ((a * 2 ^ 16 + b * 2 ^ 8 + c) `mod` 2 ^ 8 = c) as -> by (symmetry; apply (Z.mod_unique _ _ (a * 2 ^ 8 + b)); lia).
  assert ((a * 2 ^ 8 + b) `mod` 2 ^ 8 = b) as -> by (symmetry; apply (Z.mod_unique _ _ a); lia).
  rewrite Z.mod_small by lia. lia.
Qed.

Lemma net_to_host_to_net x : in_u32 x → clib_net_to_host_u32 (clib_host_to_net_u32 x) = x.
Proof.
  intros Hx. assert (∃ a b c d, in_u8 a ∧ in_u8 b ∧ in_u8 c ∧ in_u8 d ∧ x = a * 2 ^ 24 + b * 2 ^ 16 + c * 2 ^ 8 + d)
    as (a & b & c & d & Ha & Hb & Hc & Hd & ->).
  { unfold_ranges. exists (x / 2 ^ 24), (x / 2 ^ 16 - x / 2 ^ 24 * 2 ^ 8), (x / 2 ^ 8 - x / 2 ^ 16 * 2 ^ 8), (x - x / 2 ^ 8 * 2 ^ 8).
    Z.to_euclidean_division_equations. lia. }
  unfold clib_host_to_net_u32. by rewrite !net_to_host_word.
Qed.


Lemma net_to_host_range x : in_u32 (clib_net_to_host_u32 x).
Proof.
  rewrite net_to_host_bytes. pose proof (Z.mod_pos_bound x (2 ^ 8)). pose proof (Z.mod_pos_bound (x / 2 ^ 8) (2 ^ 8)).
  pose proof (Z.mod_pos_bound (x / 2 ^ 16) (2 ^ 8)). pose proof (Z.mod_pos_bound (x / 2 ^ 24) (2 ^ 8)). unfold_ranges. lia.
Qed.

Lemma net_to_host_inj x y : in_u32 x → in_u32 y → clib_net_to_host_u32 x = clib_net_to_host_u32 y → x = y.
Proof. intros Hx Hy E. rewrite <-(net_to_host_to_net x), <-(net_to_host_to_net y) by done. unfold clib_host_to_net_u32. by rewrite E. Qed.

Lemma net_to_host_u16_bytes x : clib_net_to_host_u16 x = (x `mod` 2 ^ 8) * 2 ^ 8 + (x / 2 ^ 8) `mod` 2 ^ 8.
Proof.
  unfold clib_net_to_host_u16. rewrite !Z.shiftr_div_pow2 by lia. change 255 with (Z.ones 8). rewrite !Z.land_ones by lia.
  pose proof (Z.mod_pos_bound (x / 2 ^ 8) (2 ^ 8)). by rewrite lor_shiftl by lia.
Qed.

Lemma net_to_host_u16_range x : in_u16 (clib_net_to_host_u16 x).
Proof.
  rewrite net_to_host_u16_bytes. pose proof (Z.mod_pos_bound x (2 ^ 8)). pose proof (Z.mod_pos_bound (x / 2 ^ 8) (2 ^ 8)).
  unfold_ranges. lia.
Qed.

Lemma net_to_host_to_net_u16 x : in_u16 x → clib_net_to_host_u16 (clib_host_to_net_u16 x) = x.
Proof.
  unfold clib_host_to_net_u16. intros Hx. rewrite !net_to_host_u16_bytes. unfold_ranges. Z.to_euclidean_division_equations. lia.
Qed.

Lemma net_to_host_u16_inj x y : in_u16 x → in_u16 y → clib_net_to_host_u16 x = clib_net_to_host_u16 y → x = y.
Proof. intros Hx Hy E. rewrite <-(net_to_host_to_net_u16 x), <-(net_to_host_to_net_u16 y) by done. unfold clib_host_to_net_u16. by rewrite E. Qed.

#[export] Hint Resolve net_to_host_range net_to_host_u16_range : vpp.

(** ** Words in buffers *)

Lemma le_app l l' : le (l ++ l') = le l + 256 ^ zlen l * le l'.
Proof.
  induction l as [|b l IH]; cbn [app]; [change (zlen []) with 0; cbn; lia|].
  rewrite zlen_cons, Z.pow_add_r by (pose proof (zlen_nonneg l); lia). cbn [le foldr] in *. fold (le (l ++ l')). fold (le l). rewrite IH. lia.
Qed.

Lemma le_nonneg l : bytes l → 0 ≤ le l.
Proof. induction 1 as [|b l Hb Hl IH]; [done|]. cbn. fold (le l). unfold_ranges. lia. Qed.

Lemma le_range l : bytes l → 0 ≤ le l < 256 ^ zlen l.
Proof.
  induction 1 as [|b l Hb Hl IH]; [by cbn|]. rewrite zlen_cons, Z.pow_add_r by (pose proof (zlen_nonneg l); lia).
  cbn. fold (le l). unfold_ranges. lia.
Qed.

(** A word of bytes is zero exactly when they all are. *)
Lemma le_zero l : bytes l → le l = 0 ↔ Forall (λ b, b = 0) l.
Proof.
  induction 1 as [|b l Hb Hl IH]; [by split|]. cbn. fold (le l). rewrite Forall_cons, <-IH.
  pose proof (le_nonneg l Hl). unfold_ranges. lia.
Qed.

Lemma length_split_le n x : length (split_le n x) = n.
Proof. revert x. induction n as [|n IH]; intros x; cbn; [done|]. by rewrite IH. Qed.

Lemma split_le_bytes n x : bytes (split_le n x).
Proof. revert x. induction n as [|n IH]; intros x; cbn; constructor; [apply (u8_range x)|apply IH]. Qed.

Lemma le_split_le n x : le (split_le n x) = x `mod` 256 ^ Z.of_nat n.
Proof.
  revert x. induction n as [|n IH]; intros x; cbn [split_le]; [by rewrite Z.mod_1_r|].
  cbn [le foldr]. fold (le (split_le n (x / 256))). rewrite IH, Nat2Z.inj_succ, Z.pow_succ_r by lia.
  rewrite Z.rem_mul_r by lia. lia.
Qed.

Section words.
Context (n : nat) (off : Z).

Lemma load_Some p : 0 ≤ off → off + Z.of_nat n ≤ zlen p → is_Some (load n off p).
Proof. intros. unfold load. case_cond; [done|]. apply andb_false_iff in Heqb as [?|?]; bool_to_prop; lia. Qed.

Lemma load_range p x : bytes p → load n off p = Some x → 0 ≤ x < 256 ^ Z.of_nat n.
Proof.
  unfold load. intros Hp. case_cond; [|done]. intros [= <-]. pose proof (le_range (take n (drop (Z.to_nat off) p))) as Hr.
  replace (Z.of_nat n) with (zlen (take n (drop (Z.to_nat off) p))); [apply Hr; by apply Forall_take, Forall_drop|].
  unfold zlen in *. rewrite length_take, length_drop. lia.
Qed.

Lemma store_Some x p : 0 ≤ off → off + Z.of_nat n ≤ zlen p → is_Some (store n off x p).
Proof. intros. unfold store. case_cond; [done|]. apply andb_false_iff in Heqb as [?|?]; bool_to_prop; lia. Qed.

Lemma store_inv x p p' : store n off x p = Some p' →
  ∃ a o b, p = a ++ o ++ b ∧ p' = a ++ split_le n x ++ b ∧ zlen a = off ∧ length o = n ∧ load n off p = Some (le o).
Proof.
  unfold store. case_cond; [|done]. intros [= <-]. exists (take (Z.to_nat off) p), (take n (drop (Z.to_nat off) p)), (drop (Z.to_nat off + n) p).
  split; [by rewrite <-drop_drop, !take_drop|]. split; [done|].
  unfold zlen in *. rewrite !length_take, length_drop. repeat split; [lia..|].
  unfold load. case_cond; [done|]. apply andb_false_iff in Heqb as [?|?]; bool_to_prop; unfold zlen in *; lia.
Qed.

Lemma load_app a o b : zlen a = off → length o = n → load n off (a ++ o ++ b) = Some (le o).
Proof.
  intros Ha Ho. unfold load. pose proof (zlen_nonneg a). pose proof (zlen_nonneg b). rewrite !zlen_app.
  case_cond; [|apply andb_false_iff in Heqb0 as [?|?]; bool_to_prop; unfold zlen in *; lia].
  unfold zlen in Ha. rewrite drop_app_length', take_app_length' by lia. done.
Qed.

Lemma zlen_store x p p' : store n off x p = Some p' → zlen p' = zlen p.
Proof.
  intros (a & o & b & -> & -> & _ & Ho & _)%store_inv. rewrite !zlen_app. unfold zlen. rewrite length_split_le. lia.
Qed.

Lemma store_bytes x p p' : bytes p → store n off x p = Some p' → bytes p'.
Proof.
  intros Hp (a & o & b & -> & -> & _)%store_inv. apply Forall_app in Hp as [Ha [Ho Hb]%Forall_app].
  apply Forall_app; split; [done|]. apply Forall_app; split; [apply split_le_bytes|done].
Qed.

Lemma load_store_eq x p p' : store n off x p = Some p' → 0 ≤ x < 256 ^ Z.of_nat n → load n off p' = Some x.
Proof.
  intros (a & o & b & -> & -> & Ha & Ho & _)%store_inv Hx. rewrite load_app by (done || apply length_split_le).
  by rewrite le_split_le, Z.mod_small.
Qed.
End words.

(** Words apart from the one that is written. *)
Lemma load_store_ne n off m o x p p' : store n off x p = Some p' → o + Z.of_nat m ≤ off ∨ off + Z.of_nat n ≤ o →
  load m o p' = load m o p.
Proof.
  intros Hs Hd. pose proof (zlen_store _ _ _ _ _ Hs) as Hl. apply store_inv in Hs as (a & q & b & -> & -> & Ha & Hq & _).
  unfold load. rewrite Hl. case_cond; [|done]. do 2 f_equal.
  assert (length (split_le n x) = length q) as Hsl by (by rewrite length_split_le).
  apply list_eq. intros i. destruct (decide (i < m)%nat); [|rewrite !lookup_take_ge by lia; done].
  rewrite !lookup_take_lt, !lookup_drop by lia. unfold zlen in *.
  destruct (decide (Z.to_nat o + i < length a)%nat); [by rewrite !lookup_app_l by lia|].
  rewrite !(lookup_app_r a) by lia. rewrite !(lookup_app_r _ b) by lia. by rewrite Hsl.
Qed.
