(* ===== verification/IpCsum.v ===== *)
(** * Internet checksums (vnet/ip/ip_packet.h, ip_checksum.c, ip4_packet.h, ip4_input.c, ip4_forward.c)

    The ones' complement sums of 64-bit words, their incremental update, the checksum of an IPv4
    header and of a TCP or UDP segment, and the decrement of the time to live.  A packet is the list of
    the bytes of its buffer from the IP header on.  [data] is the address of the first byte, whose alignment decides how the
    sum runs.  [ones] is the number in 1 ... m that stands for a sum, or 0 for nothing but zeros; [rfc_sum] is the sum of
    RFC 1071, word by word. *)

From S2P Require Import Prelude ByteOrder.

Module IpCsum.

(** ** Sums *)

Definition ip_csum_with_carry (sum x : Z) : Z :=
  let t := u64 (sum + x) in u64 (t + Z.b2z (t <? x)).

(** [None] is the failed assertion. *)
Definition ip_csum_add_even (c x : Z) : option Z :=
  let d := u64 (c - x) in
  let d := u64 (d - Z.b2z (c <? d)) in
  if ip_csum_with_carry d x =? c then Some d else None.

Definition ip_csum_sub_even (c x : Z) : Z := ip_csum_with_carry c x.

Definition ip_csum_update_inline (sum old new field_byte_offset field_n_bytes : Z) : option Z :=
  let swap := negb (field_n_bytes `mod` 2 =? 0) && (field_byte_offset `mod` 2 =? 1) in
  let old := if swap then u64 (Z.shiftl old 8) else old in
  let new := if swap then u64 (Z.shiftl new 8) else new in
  ip_csum_add_even (ip_csum_sub_even sum old) new.

Definition ip_csum_fold (c : Z) : Z :=
  let c := u64 (Z.land c 4294967295 + Z.shiftr c 32) in
  let c := u64 (Z.land c 65535 + Z.shiftr c 16) in
  let c := u64 (Z.land c 65535 + Z.shiftr c 16) in
  let c := u64 (Z.land c 65535 + Z.shiftr c 16) in
  u16 c.

(** The turns of the macros that align the address and that take what the loop leaves. *)
Definition align (t : nat) (s : Z * Z * list Z) : Z * Z * list Z :=
  let '(sum0, data, p) := s in
  if (Z.of_nat t <=? zlen p) && negb (data `mod` (2 * Z.of_nat t) =? 0)
  then (u64 (sum0 + le (take t p)), data + Z.of_nat t, drop t p) else s.

Definition rest (t : nat) (s : Z * list Z) : Z * list Z :=
  let '(sum0, p) := s in
  if Z.of_nat t <=? zlen p then (ip_csum_with_carry sum0 (le (take t p)), drop t p) else s.

(** The loop on pairs of 64-bit words; every turn takes 16 bytes. *)
Fixpoint pairs (fuel : nat) (sum0 sum1 : Z) (p : list Z) : Z * Z * list Z :=
  match fuel with
  | O => (sum0, sum1, p)
  | S fuel =>
      if 16 <=? zlen p
      then pairs fuel (ip_csum_with_carry sum0 (le (take 8 p))) (ip_csum_with_carry sum1 (le (take 8 (drop 8 p)))) (drop 16 p)
      else (sum0, sum1, p)
  end.

Definition ip_incremental_checksum (sum data : Z) (p : list Z) : Z :=
  let '(sum0, _, p) := align 4 (align 2 (align 1 (0, data, p))) in
  let '(sum0, sum1, p) := pairs (length p) sum0 sum p in
  let '(sum0, _) := rest 1 (rest 2 (rest 4 (rest 8 (sum0, p)))) in
  ip_csum_with_carry sum0 sum1.

(** [while (n_left >= t)], with a further condition [go] on the address. *)
Fixpoint rest_while (t : nat) (go : Z → bool) (fuel : nat) (s : Z * Z * list Z) : Z * Z * list Z :=
  match fuel with
  | O => s
  | S fuel =>
      let '(sum0, dst, p) := s in
      if (Z.of_nat t <=? zlen p) && go dst
      then rest_while t go fuel (ip_csum_with_carry sum0 (le (take t p)), dst + Z.of_nat t, drop t p) else s
  end.

(** The sum; the bytes at [dst] become those at [src]. *)
Definition ip_csum_and_memcpy (sum dst : Z) (src : list Z) : Z * list Z :=
  let n := length src in
  let '(sum0, dst0, p) :=
    match src with
    | val :: p => if Z.land dst 1 =? 0 then (sum, dst, src)
                  else (ip_csum_with_carry sum (Z.shiftl val 8), dst + 1, p)
    | [] => (sum, dst, src)
    end in
  let '(sum0, dst0, p) := rest_while 2 (λ d, negb (Z.land d 6 =? 0)) n (sum0, dst0, p) in
  let '(sum0, sum1, p) := pairs n sum0 0 p in
  let sum0 := ip_csum_with_carry sum0 sum1 in
  let '(sum0, dst0, p) := rest_while 8 (λ _, true) n (sum0, dst0, p) in
  let '(sum0, dst0, p) := rest_while 2 (λ _, true) n (sum0, dst0, p) in
  let sum0 := match p with [val] => ip_csum_with_carry sum0 val | _ => sum0 end in
  (sum0, src).

(** ** IPv4 headers *)

Definition ip4_header_bytes (p : list Z) : option Z := v ← load 1 0 p; Some (4 * Z.land v 15).

Definition ip4_header_checksum (data : Z) (p : list Z) : option Z :=
  save ← load 2 10 p;
  p0 ← store 2 10 0 p;
  n ← ip4_header_bytes p;
  if n <=? zlen p
  then let sum := ip_incremental_checksum 0 data (take (Z.to_nat n) p0) in
       let csum := u16 (Z.lnot (ip_csum_fold sum)) in
       Some (if (csum =? 0) && (save =? 65535) then save else csum)
  else None.

Definition ip4_header_checksum_is_valid (data : Z) (p : list Z) : option bool :=
  c ← load 2 10 p; c' ← ip4_header_checksum data p; Some (c =? c').

Definition ip4_partial_header_checksum_x1 (p : list Z) : option Z :=
  w0 ← load 8 0 p; w1 ← load 8 8 p; w2 ← load 4 16 p;
  Some (ip_csum_with_carry (ip_csum_with_carry w0 w1) w2).

(** The test of ip4-input. *)
Definition ip4_input_checksum_ok (p : list Z) : option bool :=
  sum0 ← ip4_partial_header_checksum_x1 p; Some (65535 =? ip_csum_fold sum0).

Inductive rewrite_next := REWRITE_FORWARD | REWRITE_ICMP_ERROR.

(** What ip4-rewrite does to the header of a packet that was not originated locally; [None] is a failed assertion. *)
Definition ip4_rewrite_ttl (data : Z) (p : list Z) : option (rewrite_next * list Z) :=
  ttl0 ← load 1 8 p;
  if ttl0 <=? 0 then None
  else
    c ← load 2 10 p;
    let checksum0 := u32 (c + clib_host_to_net_u16 256) in
    let checksum0 := u32 (checksum0 + Z.b2z (65535 <=? checksum0)) in
    p ← store 2 10 (u16 checksum0) p;
    p ← store 1 8 (ttl0 - 1) p;
    ok ← ip4_header_checksum_is_valid data p;
    if ok : bool then Some (if ttl0 - 1 <=? 0 then REWRITE_ICMP_ERROR else REWRITE_FORWARD, p) else None.

(** ** TCP and UDP *)

(** The loop over the buffers of a packet, each an address and its bytes; the length of the first is cut before. *)
Fixpoint sum_chain (sum0 n_bytes_left : Z) (chain : list (Z * list Z)) : option Z :=
  match chain with
  | [] => None
  | (data, p) :: chain =>
      let sum0 := ip_incremental_checksum sum0 data p in
      let left := u32 (n_bytes_left - zlen p) in
      if left =? 0 then Some sum0 else sum_chain sum0 left chain
  end.

Definition ip4_tcp_udp_compute_checksum (data : Z) (p : list Z) (next : list (Z * list Z)) : option Z :=
  ip_header_length ← ip4_header_bytes p;
  len ← load 2 2 p;
  protocol ← load 1 9 p;
  addrs ← load 8 12 p;
  let payload := u32 (clib_net_to_host_u16 len - ip_header_length) in
  let sum0 := clib_host_to_net_u32 (u32 (payload + Z.shiftl protocol 16)) in
  let sum0 := ip_csum_with_carry sum0 addrs in
  let n_this_buffer :=
    if zlen p <? u32 (payload + ip_header_length)
    then (if ip_header_length <? zlen p then zlen p - ip_header_length else 0) else payload in
  sum0 ← sum_chain sum0 payload ((data + ip_header_length, take (Z.to_nat n_this_buffer) (drop (Z.to_nat ip_header_length) p)) :: next);
  Some (u16 (Z.lnot (ip_csum_fold sum0))).

Definition IP_PROTOCOL_TCP : Z := 6.
Definition IP_PROTOCOL_UDP : Z := 17.
Definition IP_PROTOCOL_ICMP : Z := 1.

(** The flag IP_BUFFER_L4_CHECKSUM_CORRECT. *)
Definition ip4_tcp_udp_validate_checksum (data : Z) (p : list Z) (next : list (Z * list Z)) : option bool :=
  protocol ← load 1 9 p;
  if negb ((protocol =? IP_PROTOCOL_TCP) || (protocol =? IP_PROTOCOL_UDP)) then None
  else
    csum ← load 2 26 p;
    if (protocol =? IP_PROTOCOL_UDP) && (csum =? 0) then Some true
    else sum16 ← ip4_tcp_udp_compute_checksum data p next; Some (sum16 =? 0).

(** ** The sum of RFC 1071 *)

Definition oc_add16 (a b : Z) : Z := let s := a + b in if s <? 65536 then s else s - 65535.

Fixpoint rfc_sum (p : list Z) : Z :=
  match p with
  | b0 :: b1 :: p => oc_add16 (b0 + 256 * b1) (rfc_sum p)
  | [b0] => b0
  | [] => 0
  end.

Definition ones (m n : Z) : Z := if n =? 0 then 0 else 1 + (n - 1) `mod` m.

(** ** Ones' complement numbers *)

Definition M64 : Z := u64_max.

Lemma ones_range m n : 0 < m → 0 ≤ ones m n ≤ m.
Proof. intros Hm. unfold ones. case_cond; [lia|]. pose proof (Z.mod_pos_bound (n - 1) m). lia. Qed.

Lemma ones_mod m n : 0 < m → ones m n `mod` m = n `mod` m.
Proof.
  intros Hm. unfold ones. case_cond; [by subst|]. rewrite Zplus_mod_idemp_r. f_equal. lia.
Qed.

Lemma ones_zero m n : 0 < m → ones m n = 0 ↔ n = 0.
Proof. intros Hm. unfold ones. case_cond; [done|]. pose proof (Z.mod_pos_bound (n - 1) m). lia. Qed.

(** A number is determined by its range, its residue and whether it is zero. *)
Lemma ones_unique m r n : 0 < m → 0 ≤ r ≤ m → r `mod` m = n `mod` m → (r = 0 ↔ n = 0) → r = ones m n.
Proof.
  intros Hm Hr Hmod Hz. unfold ones. case_cond; [tauto|].
  rewrite <-Zminus_mod_idemp_l, <-Hmod, Zminus_mod_idemp_l, Z.mod_small by lia. lia.
Qed.

Lemma ones_congr m a b : 0 < m → a `mod` m = b `mod` m → (a = 0 ↔ b = 0) → ones m a = ones m b.
Proof.
  intros Hm Hmod Hz. apply ones_unique; [done|by apply ones_range|by rewrite ones_mod|by rewrite ones_zero].
Qed.

Lemma mod_mul_sub a b k m : a = b + k * m → a `mod` m = b `mod` m.
Proof. intros ->. apply Z_mod_plus_full. Qed.

(** The residues that the proofs need are those modulo 65535, which divides 2^64 - 1. *)
Abbreviation ones16 := (ones 65535).

Definition word64 (x : Z) : Prop := 0 ≤ x ≤ M64.

Lemma carry_cases a b : word64 a → word64 b →
  ip_csum_with_carry a b = (if a + b <=? M64 then a + b else a + b - M64) ∧ word64 (ip_csum_with_carry a b).
Proof.
  unfold word64, M64, u64_max, ip_csum_with_carry. intros Ha Hb. case_cond.
  - rewrite (u64_small (a + b)) by (unfold_ranges; lia). destruct (Z.ltb_spec (a + b) b); [lia|]. cbn. rewrite u64_small by (unfold_ranges; lia). lia.
  - assert (u64 (a + b) = a + b - 2 ^ 64) as -> by (symmetry; apply (Z.mod_unique _ _ 1); lia).
    destruct (Z.ltb_spec (a + b - 2 ^ 64) b); [|lia]. cbn [Z.b2z]. rewrite u64_small by (unfold_ranges; lia). lia.
Qed.

Lemma carry_word a b : word64 a → word64 b → word64 (ip_csum_with_carry a b).
Proof. intros. by apply carry_cases. Qed.

Lemma carry_zero a b : word64 a → word64 b → ip_csum_with_carry a b = 0 ↔ a + b = 0.
Proof. intros Ha Hb. destruct (carry_cases a b Ha Hb) as [-> _]. unfold word64, M64, u64_max in *. case_cond; lia. Qed.

Lemma carry_mod a b z : word64 a → word64 b →
  (ip_csum_with_carry a b + z) `mod` 65535 = (a + b + z) `mod` 65535.
Proof.
  intros Ha Hb. destruct (carry_cases a b Ha Hb) as [-> _]. case_cond; [done|].
  apply (mod_mul_sub _ _ (- 281479271743489)). unfold M64, u64_max. lia.
Qed.

Lemma ones_carry a b z : word64 a → word64 b → 0 ≤ z → ones16 (ip_csum_with_carry a b + z) = ones16 (a + b + z).
Proof.
  intros Ha Hb Hz. apply ones_congr; [lia|by apply carry_mod|].
  pose proof (carry_zero a b Ha Hb). pose proof (carry_word a b Ha Hb). unfold word64 in *. lia.
Qed.

(** The subtraction: the assertion of the code holds for a sum that is not zero. *)
Lemma add_even_ok c x : word64 c → word64 x → 0 < c ∨ x = 0 →
  ∃ d, ip_csum_add_even c x = Some d ∧ word64 d ∧ d `mod` 65535 = (c - x) `mod` 65535.
Proof.
  intros Hc Hx Hne. unfold ip_csum_add_even.
  set (d := u64 (u64 (c - x) - Z.b2z (c <? u64 (c - x)))).
  assert (d = (if x <=? c then c - x else c - x + M64)) as Hd.
  { subst d. unfold word64, M64, u64_max in *. case_cond.
    - rewrite (u64_small (c - x)) by (unfold_ranges; lia). destruct (Z.ltb_spec c (c - x)); [lia|]. cbn. rewrite u64_small by (unfold_ranges; lia). lia.
    - assert (u64 (c - x) = c - x + 2 ^ 64) as -> by (symmetry; apply (Z.mod_unique _ _ (-1)); lia).
      destruct (Z.ltb_spec c (c - x + 2 ^ 64)); [|lia]. cbn [Z.b2z]. rewrite u64_small by (unfold_ranges; lia). lia. }
  assert (word64 d) as Hw by (rewrite Hd; unfold word64, M64, u64_max in *; case_cond; lia).
  exists d. assert (ip_csum_with_carry d x = c) as ->.
  { destruct (carry_cases d x Hw Hx) as [-> _]. rewrite Hd. unfold word64, M64, u64_max in *. repeat case_cond; lia. }
  rewrite Z.eqb_refl. split; [done|]. split; [done|]. rewrite Hd. case_cond; [done|].
  apply (mod_mul_sub _ _ 281479271743489). unfold M64, u64_max. lia.
Qed.

Lemma fold_step k m c : 0 ≤ k → 2 ^ k = 1 + 65535 * m → 0 < m → 0 ≤ c → c < 2 ^ 64 → 
  let c' := c `mod` 2 ^ k + c / 2 ^ k in c' `mod` 65535 = c `mod` 65535 ∧ (c' = 0 ↔ c = 0) ∧ 0 ≤ c' ≤ c.
Proof.
  intros Hk Hm Hpos Hc Hc64. cbn zeta. pose proof (Z.mod_pos_bound c (2 ^ k) ltac:(lia)) as Hr.
  pose proof (Z.div_mod c (2 ^ k) ltac:(lia)) as Hdm. rewrite Hm in *.
  assert (0 ≤ c / (1 + 65535 * m)) as Hq by (apply Z.div_pos; lia).
  set (q := c / _) in *. set (r := c `mod` _) in *.
  split; [apply (mod_mul_sub _ _ (- (m * q))); nia|]. split; [|nia]. split; [intros; nia|]. intros ->. nia.
Qed.

Lemma fold_eq c : ip_csum_fold c =
  u16 (let f k c := u64 (c `mod` 2 ^ k + c / 2 ^ k) in f 16 (f 16 (f 16 (f 32 c)))).
Proof.
  unfold ip_csum_fold. change 4294967295 with (Z.ones 32). change 65535 with (Z.ones 16).
  by rewrite !Z.land_ones, !Z.shiftr_div_pow2 by lia.
Qed.

(** Folding gives the number of 16 bits that stands for the sum. *)
Lemma fold_ok c : word64 c → ip_csum_fold c = ones16 c.
Proof.
  unfold word64, M64, u64_max. intros Hc. rewrite fold_eq. cbn zeta.
  destruct (fold_step 32 65537 c) as (M1 & Z1 & R1); [lia..|]. cbn zeta in *.
  assert (c `mod` 2 ^ 32 + c / 2 ^ 32 ≤ 2 ^ 33) as B1 by (Z.to_euclidean_division_equations; lia).
  rewrite (u64_small (c `mod` _ + _)) by (unfold_ranges; lia). set (c1 := c `mod` _ + _) in *.
  destruct (fold_step 16 1 c1) as (M2 & Z2 & R2); [lia..|]. cbn zeta in *.
  assert (c1 `mod` 2 ^ 16 + c1 / 2 ^ 16 ≤ 65535 + 131072) as B2 by (Z.to_euclidean_division_equations; lia).
  rewrite (u64_small (c1 `mod` _ + _)) by (unfold_ranges; lia). set (c2 := c1 `mod` _ + _) in *.
  destruct (fold_step 16 1 c2) as (M3 & Z3 & R3); [lia..|]. cbn zeta in *.
  assert (c2 `mod` 2 ^ 16 + c2 / 2 ^ 16 ≤ 65538) as B3 by (Z.to_euclidean_division_equations; lia).
  rewrite (u64_small (c2 `mod` _ + _)) by (unfold_ranges; lia). set (c3 := c2 `mod` _ + _) in *.
  destruct (fold_step 16 1 c3) as (M4 & Z4 & R4); [lia..|]. cbn zeta in *.
  assert (c3 `mod` 2 ^ 16 + c3 / 2 ^ 16 ≤ 65535) as B4 by (Z.to_euclidean_division_equations; lia).
  rewrite (u64_small (c3 `mod` _ + _)) by (unfold_ranges; lia). set (c4 := c3 `mod` _ + _) in *.
  rewrite u16_small by (unfold_ranges; lia). apply ones_unique; [lia..|congruence|tauto].
Qed.

(** ** Sums of bytes *)

Lemma pow256_even k : 0 ≤ k → 256 ^ (2 * k) `mod` 65535 = 1.
Proof.
  intros Hk. rewrite Z.pow_mul_r by lia. change (256 ^ 2) with 65536. revert k Hk. apply natlike_ind; [done|]. intros k Hk IH.
  rewrite Z.pow_succ_r by done. by rewrite <-Zmult_mod_idemp_r, IH.
Qed.

Lemma le_app_mod a b z : zlen a `mod` 2 = 0 → (z + le (a ++ b)) `mod` 65535 = (z + le a + le b) `mod` 65535.
Proof.
  intros Ha. rewrite le_app. pose proof (Z.div_mod (zlen a) 2 ltac:(lia)) as Hd. rewrite Ha, Z.add_0_r in Hd.
  pose proof (pow256_even (zlen a / 2)) as H1. rewrite Hd. specialize (H1 ltac:(pose proof (zlen_nonneg a); apply Z.div_pos; lia)).
  pose proof (Z.div_mod (256 ^ (2 * (zlen a / 2))) 65535 ltac:(lia)) as H2. rewrite H1 in H2. rewrite H2.
  apply (mod_mul_sub _ _ (256 ^ (2 * (zlen a / 2)) / 65535 * le b)). lia.
Qed.

Lemma ones_le_app a b z : bytes a → bytes b → 0 ≤ z → zlen a `mod` 2 = 0 →
  ones16 (z + le (a ++ b)) = ones16 (z + le a + le b).
Proof.
  intros Ha Hb Hz Heven. apply ones_congr; [lia|by apply le_app_mod|].
  rewrite le_app. pose proof (le_nonneg a Ha). pose proof (le_nonneg b Hb).
  assert (0 < 256 ^ zlen a) by (apply Z.pow_pos_nonneg; [lia|apply zlen_nonneg]). nia.
Qed.

Lemma le_word64 l : bytes l → zlen l ≤ 8 → word64 (le l).
Proof.
  intros Hl Hn. pose proof (le_range l Hl). assert (256 ^ zlen l ≤ 256 ^ 8) by (apply Z.pow_le_mono_r; [lia|done]).
  unfold word64, M64, u64_max. lia.
Qed.

Lemma zlen_take_le {A} n (l : list A) : Z.of_nat n ≤ zlen l → zlen (take n l) = Z.of_nat n.
Proof. unfold zlen. rewrite length_take. lia. Qed.
Lemma zlen_drop_le {A} n (l : list A) : Z.of_nat n ≤ zlen l → zlen (drop n l) = zlen l - Z.of_nat n.
Proof. unfold zlen. rewrite length_drop. lia. Qed.

(** A step that adds the first bytes of the rest to a sum keeps the total. *)
Lemma take_word t p sum z : bytes p → Z.of_nat t ≤ zlen p → Z.of_nat t ≤ 8 → Z.of_nat t `mod` 2 = 0 → word64 sum → 0 ≤ z →
  word64 (ip_csum_with_carry sum (le (take t p))) ∧
  ones16 (ip_csum_with_carry sum (le (take t p)) + z + le (drop t p)) = ones16 (sum + z + le p).
Proof.
  intros Hp Ht H8 Heven Hs Hz. assert (bytes (take t p)) as Hb by (by apply Forall_take). assert (bytes (drop t p)) as Hd by (by apply Forall_drop).
  assert (word64 (le (take t p))) as Hw by (apply le_word64; [done|]; rewrite zlen_take_le by done; lia).
  split; [by apply carry_word|]. pose proof (le_nonneg _ Hd). rewrite <-Z.add_assoc, ones_carry by (done || lia).
  rewrite <-(take_drop t p) at 3. rewrite ones_le_app; [f_equal; lia|done..|unfold word64 in Hs; lia|by rewrite zlen_take_le].
Qed.

(** The state of a sum in progress: two partial sums and the bytes to come stand for [T]. *)
Definition sums (s0 s1 : Z) (p : list Z) (T : Z) : Prop :=
  word64 s0 ∧ word64 s1 ∧ bytes p ∧ ones16 (s0 + s1 + le p) = T.

Lemma sums_take t s0 s1 p T : sums s0 s1 p T → Z.of_nat t ≤ zlen p → Z.of_nat t ≤ 8 → Z.of_nat t `mod` 2 = 0 →
  sums (ip_csum_with_carry s0 (le (take t p))) s1 (drop t p) T.
Proof.
  intros (H0 & H1 & Hp & HT) Ht H8 Heven.
  destruct (take_word t p s0 s1) as [Hw HE]; try done; [unfold word64 in H1; lia|].
  unfold sums. split_and!; [done|done|by apply Forall_drop|by rewrite HE].
Qed.

Lemma sums_swap s0 s1 p T : sums s0 s1 p T → sums s1 s0 p T.
Proof. intros (? & ? & ? & <-). unfold sums. split_and!; [done..|]. f_equal. lia. Qed.

Lemma pairs_ok fuel s0 s1 p T : sums s0 s1 p T →
  let '(s0', s1', p') := pairs fuel s0 s1 p in
  sums s0' s1' p' T ∧ ((length p ≤ fuel)%nat → zlen p' < 16) ∧ (length p' ≤ length p)%nat.
Proof.
  revert s0 s1 p. induction fuel as [|fuel IH]; intros s0 s1 p Hs; cbn [pairs].
  - split; [done|]. unfold zlen. lia.
  - case_cond; [|split; [done|]; split; lia].
    pose proof (sums_take 8 _ _ _ _ Hs ltac:(lia) ltac:(done) ltac:(done)) as H1%sums_swap.
    assert (zlen (drop 8 p) = zlen p - 8) as Hl by (rewrite zlen_drop_le by lia; lia).
    pose proof (sums_take 8 _ _ _ _ H1 ltac:(lia) ltac:(done) ltac:(done)) as H2%sums_swap.
    rewrite drop_drop in H2. specialize (IH _ _ _ H2). destruct (pairs fuel _ _ _) as [[a b] q]. destruct IH as (IH1 & IH2 & IH3).
    split; [done|]. split.
    + intros Hf. apply IH2. rewrite length_drop. unfold zlen in *. lia.
    + rewrite length_drop in IH3. lia.
Qed.

Lemma rest_ok t s0 s1 p T : (t = 2 ∨ t = 4 ∨ t = 8)%nat → sums s0 s1 p T → zlen p < 2 * Z.of_nat t →
  let '(s0', p') := rest t (s0, p) in sums s0' s1 p' T ∧ zlen p' < Z.of_nat t.
Proof.
  intros Ht Hs Hl. unfold rest. case_cond; [|done]. split; [|rewrite zlen_drop_le by done; lia].
  apply sums_take; try done; destruct Ht as [-> |[-> | ->] ]; done.
Qed.

Lemma rest_1_ok s0 s1 p T : sums s0 s1 p T → zlen p < 2 → let '(s0', p') := rest 1 (s0, p) in sums s0' s1 [] T.
Proof.
  intros (H0 & H1 & Hp & HT) Hl. destruct p as [|b [|] ]; [done| |rewrite !zlen_cons in Hl; pose proof (zlen_nonneg l); lia].
  cbn. apply Forall_cons in Hp as [Hb _]. unfold in_u8 in Hb. rewrite Z.add_0_r.
  assert (word64 b) by (unfold word64, M64, u64_max; lia).
  unfold sums. split_and!; [by apply carry_word|done|constructor|]. rewrite <-HT. cbn [le foldr].
  rewrite Z.add_0_r, ones_carry; [f_equal; cbn; lia|done..|unfold word64 in H1; lia].
Qed.

Lemma align_even data p : bytes p → data `mod` 2 = 0 →
  let '(s0, _, p') := align 4 (align 2 (align 1 (0, data, p))) in
  (∀ s1, word64 s1 → sums s0 s1 p' (ones16 (s1 + le p))) ∧ (length p' ≤ length p)%nat.
Proof.
  intros Hp Hd. assert (align 1 (0, data, p) = (0, data, p)) as ->.
  { unfold align. replace (data `mod` (2 * Z.of_nat 1)) with 0 by done. by rewrite andb_false_r. }
  assert (∀ t s0 d q, (t = 2 ∨ t = 4)%nat → bytes q → 0 ≤ s0 < 2 ^ 32 →
    let '(s0', d', q') := align t (s0, d, q) in
    bytes q' ∧ (length q' ≤ length q)%nat ∧ 0 ≤ s0' < s0 + 256 ^ Z.of_nat t ∧
    ∀ s1, word64 s1 → ones16 (s0' + s1 + le q') = ones16 (s0 + s1 + le q)) as Hstep.
  { intros t s0 d q Ht Hq Hs. unfold align. case_cond; [|split_and!; [done|lia|lia|assert (0 < 256 ^ Z.of_nat t) by (apply Z.pow_pos_nonneg; lia); lia|done] ].
    assert (bytes (take t q)) as Hb by (by apply Forall_take). assert (bytes (drop t q)) as Hb' by (by apply Forall_drop).
    pose proof (le_range _ Hb) as Hr. rewrite zlen_take_le in Hr by done.
    assert (256 ^ Z.of_nat t ≤ 2 ^ 32) by (destruct Ht as [-> | ->]; done).
    rewrite u64_small by (unfold_ranges; lia). split; [done|]. split; [rewrite length_drop; lia|]. split; [lia|].
    intros s1 Hs1. rewrite <-(take_drop t q) at 3. rewrite ones_le_app; [f_equal; lia|done..|unfold word64 in Hs1; lia|].
    rewrite zlen_take_le by done. destruct Ht as [-> | ->]; done. }
  pose proof (Hstep 2%nat 0 data p ltac:(tauto) Hp ltac:(lia)) as H2. destruct (align 2 _) as [[s d] q]. destruct H2 as (B2 & L2 & R2 & E2).
  change (256 ^ Z.of_nat 2) with 65536 in R2.
  pose proof (Hstep 4%nat s d q ltac:(tauto) B2 ltac:(lia)) as H4. destruct (align 4 _) as [[s' d'] q']. destruct H4 as (B4 & L4 & R4 & E4).
  change (256 ^ Z.of_nat 4) with (2 ^ 32) in R4. split; [|lia]. intros s1 Hs1.
  unfold sums. split_and!; [unfold word64, M64, u64_max; lia|done..|]. rewrite E4, E2 by done. f_equal; lia.
Qed.

(** The sum of bytes at an even address stands for their number. *)
Lemma ip_incremental_checksum_ok sum data p : word64 sum → bytes p → data `mod` 2 = 0 →
  word64 (ip_incremental_checksum sum data p) ∧ ones16 (ip_incremental_checksum sum data p) = ones16 (sum + le p).
Proof.
  intros Hs Hp Hd. unfold ip_incremental_checksum.
  pose proof (align_even data p Hp Hd) as Ha. destruct (align 4 _) as [[s0 d] q]. destruct Ha as [Ha Hl]. specialize (Ha sum Hs).
  pose proof (pairs_ok (length q) _ _ _ _ Ha) as Hpairs. destruct (pairs _ _ _ _) as [[a b] q']. destruct Hpairs as (H1 & H2 & _). specialize (H2 ltac:(lia)).
  pose proof (rest_ok 8 _ _ _ _ ltac:(tauto) H1 H2) as H8. destruct (rest 8 _) as [c8 q8]. destruct H8 as [H8 L8].
  pose proof (rest_ok 4 _ _ _ _ ltac:(tauto) H8 L8) as H4. destruct (rest 4 _) as [c4 q4]. destruct H4 as [H4 L4].
  pose proof (rest_ok 2 _ _ _ _ ltac:(tauto) H4 L4) as H2'. destruct (rest 2 _) as [c2 q2]. destruct H2' as [H2' L2].
  pose proof (rest_1_ok _ _ _ _ H2' L2) as H1'. destruct (rest 1 _) as [c1 q1]. destruct H1' as (W0 & W1 & _ & E). cbn [le foldr] in E.
  split; [by apply carry_word|]. rewrite <-E, <-(Z.add_0_r (ip_csum_with_carry _ _)). by apply ones_carry.
Qed.

Lemma rest_while_ok t go fuel s0 dst s1 p T : (t = 2 ∨ t = 8)%nat → sums s0 s1 p T →
  let '(s0', _, p') := rest_while t go fuel (s0, dst, p) in
  sums s0' s1 p' T ∧ (length p' ≤ length p)%nat ∧
  ((∀ d, go d = true) → (length p ≤ fuel)%nat → zlen p' < Z.of_nat t).
Proof.
  intros Ht. revert s0 dst p. induction fuel as [|fuel IH]; intros s0 dst p Hs; cbn [rest_while].
  - split; [done|]. split; [lia|]. unfold zlen. destruct Ht as [-> | ->]; lia.
  - destruct (Z.leb_spec (Z.of_nat t) (zlen p)) as [Hl|Hl]; cbn [andb]; [|split; [done|]; split; [lia|done] ].
    destruct (go dst) eqn:Hgo; [|split; [done|]; split; [lia|]; intros Hall; by rewrite Hall in Hgo].
    pose proof (sums_take t _ _ _ _ Hs Hl) as H1. specialize (IH _ (dst + Z.of_nat t) _ (H1 ltac:(destruct Ht as [-> | ->]; done) ltac:(destruct Ht as [-> | ->]; done))).
    destruct (rest_while _ _ _ _) as [[a d] q]. destruct IH as (IH1 & IH2 & IH3). rewrite length_drop in *.
    split; [done|]. split; [lia|]. intros Hall Hf. apply IH3; [done|]. destruct Ht as [-> | ->]; lia.
Qed.

Lemma ip_csum_and_memcpy_ok sum dst p : word64 sum → bytes p → dst `mod` 2 = 0 →
  ∃ r, ip_csum_and_memcpy sum dst p = (r, p) ∧ word64 r ∧ ones16 r = ones16 (sum + le p).
Proof.
  intros Hs Hp Hd. unfold ip_csum_and_memcpy.
  assert (Z.land dst 1 = 0) as Hl by (change 1 with (Z.ones 1); by rewrite Z.land_ones).
  assert (sums sum 0 p (ones16 (sum + le p))) as H0.
  { unfold sums. split_and!; [done|unfold word64, M64, u64_max; lia|done|f_equal; lia]. }
  replace (match p with | [] => (sum, dst, p) | val :: q => if Z.land dst 1 =? 0 then (sum, dst, p)
    else (ip_csum_with_carry sum (Z.shiftl val 8), dst + 1, q) end) with (sum, dst, p) by (rewrite Hl; by destruct p).
  pose proof (rest_while_ok 2 (λ d, negb (Z.land d 6 =? 0)) (length p) _ dst _ _ _ ltac:(tauto) H0) as H1.
  destruct (rest_while 2 _ _ _) as [[s1 d1] p1]. destruct H1 as (H1 & L1 & _).
  pose proof (pairs_ok (length p) _ _ _ _ H1) as H2. destruct (pairs _ _ _ _) as [[a b] p2]. destruct H2 as (H2 & L2 & L2').
  specialize (L2 ltac:(lia)).
  assert (sums (ip_csum_with_carry a b) 0 p2 (ones16 (sum + le p))) as H3.
  { destruct H2 as (Wa & Wb & B & <-). pose proof (le_nonneg _ B). unfold sums. split_and!; [by apply carry_word|unfold word64, M64, u64_max; lia|done|].
    rewrite Z.add_0_r. by apply ones_carry. }
  pose proof (rest_while_ok 8 (λ _, true) (length p) _ d1 _ _ _ ltac:(tauto) H3) as H4.
  destruct (rest_while 8 _ _ _) as [[s4 d4] p4]. destruct H4 as (H4 & L4 & _).
  pose proof (rest_while_ok 2 (λ _, true) (length p) _ d4 _ _ _ ltac:(tauto) H4) as H5.
  destruct (rest_while 2 _ _ _) as [[s5 d5] p5]. destruct H5 as (H5 & L5 & F5). specialize (F5 ltac:(done) ltac:(lia)).
  eexists. split; [done|].
  destruct H5 as (W & _ & B & E). destruct p5 as [|v [|] ]; [|  |rewrite !zlen_cons in F5; pose proof (zlen_nonneg l); lia].
  - split; [done|]. rewrite <-E. f_equal. cbn. lia.
  - apply Forall_cons in B as [Hv _]. assert (word64 v) by (unfold word64, M64, u64_max, in_u8 in *; lia).
    split; [by apply carry_word|]. rewrite <-E, <-(Z.add_0_r (ip_csum_with_carry _ _)), ones_carry by done. f_equal. cbn. lia.
Qed.

(** ** The sum of RFC 1071 *)

Lemma oc_add16_ones a n : 0 ≤ a ≤ 65535 → 0 ≤ n → oc_add16 a (ones16 n) = ones16 (a + n).
Proof.
  intros Ha Hn. pose proof (ones_range 65535 n ltac:(lia)) as Hr. pose proof (ones_zero 65535 n ltac:(lia)) as Hz.
  pose proof (ones_mod 65535 n ltac:(lia)) as Hm. unfold oc_add16. cbn zeta.
  apply ones_unique; [lia|case_cond; lia| |case_cond; lia].
  rewrite <-(Zplus_mod_idemp_r n), <-Hm, Zplus_mod_idemp_r. case_cond; [done|]. apply (mod_mul_sub _ _ (-1)). lia.
Qed.

Lemma rfc_sum_ones p : bytes p → rfc_sum p = ones16 (le p).
Proof.
  intros Hp. assert (∀ n, (length p ≤ n)%nat → rfc_sum p = ones16 (le p)) as H; [|by apply (H (length p))].
  intros n. revert p Hp. induction n as [|n IH]; intros p Hp Hn; [by destruct p; [|cbn in Hn; lia]|].
  destruct p as [|b0 [|b1 p] ]; [done| |].
  - apply Forall_cons in Hp as [Hb _]. unfold in_u8 in Hb. cbn. rewrite Z.add_0_r.
    apply ones_unique; [lia|lia|done|done].
  - apply Forall_cons in Hp as [Hb0 [Hb1 Hp]%Forall_cons]. unfold in_u8 in *. cbn [rfc_sum]. cbn in Hn. rewrite IH by (done || lia).
    pose proof (le_nonneg p Hp). rewrite oc_add16_ones by lia. apply ones_congr; [lia| |cbn; fold (le p); lia].
    cbn. fold (le p). apply (mod_mul_sub _ _ (- le p)). lia.
Qed.

(** C39: The checksum routine sums the bytes at an even address as RFC 1071 says, 16 bits at a time with the last byte padded
    by zero, on top of the sum that it is given; so does the routine that copies them. *)
Theorem ip_checksum_rfc1071 sum data p
    (Hsum : in_u64 sum) (Hp : bytes p) (Heven : data `mod` 2 = 0) :
  ip_csum_fold (ip_incremental_checksum sum data p) = oc_add16 (ip_csum_fold sum) (rfc_sum p) ∧
  ip_csum_fold (ip_csum_and_memcpy sum data p).1 = oc_add16 (ip_csum_fold sum) (rfc_sum p) ∧
  (ip_csum_and_memcpy sum data p).2 = p.
Proof.
  assert (word64 sum) as Hw by (unfold word64, M64, u64_max; unfold_ranges; lia).
  destruct (ip_incremental_checksum_ok sum data p Hw Hp Heven) as [W E].
  destruct (ip_csum_and_memcpy_ok sum data p Hw Hp Heven) as (r & -> & W' & E'). pose proof (le_nonneg p Hp) as Hle.
  assert (oc_add16 (ip_csum_fold sum) (rfc_sum p) = ones16 (sum + le p)) as ->.
  { rewrite rfc_sum_ones, fold_ok by done. pose proof (ones_range 65535 sum ltac:(lia)). rewrite oc_add16_ones by done.
    apply ones_congr; [lia| |unfold word64 in Hw; pose proof (ones_zero 65535 sum ltac:(lia)); lia].
    by rewrite <-Zplus_mod_idemp_l, ones_mod, Zplus_mod_idemp_l. }
  rewrite !fold_ok by done. done.
Qed.

Lemma ip_checksum_rfc1071_witness :
  ip_csum_fold (ip_incremental_checksum 7 2 [69; 0; 0; 29; 1; 2; 3; 4; 64; 6; 255]) = 10895 ∧
  ip_csum_fold (ip_incremental_checksum 7 2 [69; 0; 0; 29; 1; 2; 3; 4; 64; 6; 255]) =
    oc_add16 (ip_csum_fold 7) (rfc_sum [69; 0; 0; 29; 1; 2; 3; 4; 64; 6; 255]).
Proof. split; [vm_compute; reflexivity|].
  assert (bytes [69; 0; 0; 29; 1; 2; 3; 4; 64; 6; 255]) as Hp by (repeat constructor; done).
  exact (proj1 (ip_checksum_rfc1071 7 2 _ ltac:(done) Hp ltac:(done))).
Defined.

(** At an odd address the sum is another one: the bytes after the first change their places in the words. *)
Lemma odd_address_checksum :
  let p := [69; 0; 0; 29] in
  ip_csum_fold (ip_incremental_checksum 0 0 p) = rfc_sum p ∧ ip_csum_fold (ip_incremental_checksum 0 1 p) ≠ rfc_sum p.
Proof. by vm_compute. Qed.

(** The assertion of the subtraction fails for a sum of zero. *)
Lemma add_even_zero_asserts : ip_csum_add_even 0 5 = None.
Proof. by vm_compute. Qed.

End IpCsum.
