(* ===== verification/IpCsumHdr.v ===== *)
(** * Checksums of headers and segments

    What a store into a packet does to the number that its bytes make, the tests of the header checksum and of the
    checksum of a TCP segment as congruences, and the decrement of the time to live. *)

From S2P Require Import Prelude ByteOrder IpCsum.

Module IpCsumHdr.
Import IpCsum.

(** ** Stores *)

Lemma le_store n off x p p' : bytes p → store n off x p = Some p' →
  ∃ o, load n off p = Some o ∧ le p' = le p + 256 ^ off * (x `mod` 256 ^ Z.of_nat n - o).
Proof.
  intros Hp (a & o & b & -> & -> & Ha & Ho & Hl)%store_inv. exists (le o). split; [done|].
  assert (zlen (split_le n x) = Z.of_nat n) as Hz by (unfold zlen; by rewrite length_split_le).
  assert (zlen o = Z.of_nat n) as Hz' by (unfold zlen; by rewrite Ho). rewrite !le_app, le_split_le, Hz, Hz', Ha. ring.
Qed.

Lemma le_store_mod n off x o p p' : bytes p → store n off x p = Some p' → load n off p = Some o →
  0 ≤ off → off `mod` 2 = 0 → 0 ≤ x < 256 ^ Z.of_nat n → le p' `mod` 65535 = (le p + x - o) `mod` 65535.
Proof.
  intros Hp Hs Hl H0 Heven Hx. destruct (le_store _ _ _ _ _ Hp Hs) as (o' & Hl' & ->). assert (o' = o) as -> by congruence.
  rewrite (Z.mod_small x) by done. pose proof (pow256_even (off / 2)) as H1.
  replace (2 * (off / 2)) with off in H1 by (pose proof (Z.div_mod off 2); lia). specialize (H1 ltac:(apply Z.div_pos; lia)).
  pose proof (Z.div_mod (256 ^ off) 65535 ltac:(lia)) as H2. rewrite H1 in H2. rewrite H2.
  apply (mod_mul_sub _ _ (256 ^ off / 65535 * (x - o))). ring.
Qed.

(** A part of the buffer that contains the word. *)
Lemma store_sub n off x p p' s m : store n off x p = Some p' → 0 ≤ s ≤ off → off + Z.of_nat n ≤ s + m → s + m ≤ zlen p →
  store n (off - s) x (take (Z.to_nat m) (drop (Z.to_nat s) p)) = Some (take (Z.to_nat m) (drop (Z.to_nat s) p')).
Proof.
  intros (a & o & b & -> & -> & Ha & Ho & _)%store_inv Hs Hm Hl.
  assert (s = Z.of_nat (Z.to_nat s)) as Hsn by lia. remember (Z.to_nat s) as k eqn:Hk. clear Hk. subst s.
  unfold zlen in *. rewrite !length_app in Hl. pose proof (length_split_le n x).
  rewrite !(drop_app_le _ _ k) by lia.
  assert (∀ q : list Z, length q = n → take (Z.to_nat m) (drop k a ++ q ++ b) = drop k a ++ q ++ take (Z.to_nat (m - (off - Z.of_nat k) - Z.of_nat n)) b) as Htake.
  { intros q Hq. rewrite take_app_ge by (rewrite length_drop; lia). rewrite take_app_ge by (rewrite length_drop; lia). rewrite length_drop. do 3 f_equal. lia. }
  rewrite !Htake by done. set (b' := take _ b).
  unfold store. rewrite !zlen_app. unfold zlen. rewrite length_drop.
  case_cond; [|apply andb_false_iff in Heqb0 as [?|?]; bool_to_prop; lia].
  rewrite take_app_length' by (rewrite length_drop; lia). do 3 f_equal.
  rewrite drop_app_ge by (rewrite length_drop; lia). rewrite length_drop. rewrite drop_app_length'; [done|lia].
Qed.

Lemma load_sub n off p s m : 0 ≤ s ≤ off → off + Z.of_nat n ≤ s + m → s + m ≤ zlen p →
  load n (off - s) (take (Z.to_nat m) (drop (Z.to_nat s) p)) = load n off p.
Proof.
  intros Hs Hm Hl. unfold load.
  assert (zlen (take (Z.to_nat m) (drop (Z.to_nat s) p)) = m) as -> by (unfold zlen in *; rewrite length_take, length_drop; lia).
  do 2 (case_cond; [|apply andb_false_iff in Heqb as [?|?]; bool_to_prop; lia]). do 2 f_equal.
  apply list_eq. intros i. destruct (decide (i < n)%nat); [|by rewrite !lookup_take_ge by lia].
  rewrite !lookup_take_lt, !lookup_drop by lia. rewrite lookup_take_lt, lookup_drop by lia. f_equal. lia.
Qed.

(** A store outside of a part of the buffer. *)
Lemma store_apart n off x p p' s m : store n off x p = Some p' → 0 ≤ s → 0 ≤ m → s + m ≤ off ∨ off + Z.of_nat n ≤ s →
  take (Z.to_nat m) (drop (Z.to_nat s) p') = take (Z.to_nat m) (drop (Z.to_nat s) p).
Proof.
  intros (a & o & b & -> & -> & Ha & Ho & _)%store_inv Hs Hm0 Hd. unfold zlen in *. pose proof (length_split_le n x).
  apply list_eq. intros i. destruct (decide (i < Z.to_nat m)%nat); [|by rewrite !lookup_take_ge by lia].
  rewrite !lookup_take_lt, !lookup_drop by lia. destruct (decide (Z.to_nat s + i < length a)%nat); [by rewrite !lookup_app_l by lia|].
  rewrite !(lookup_app_r a) by lia. rewrite !(lookup_app_r _ b) by lia. f_equal. lia.
Qed.

(** The number that the bytes of a part make. *)
Definition part (s m : Z) (p : list Z) : Z := le (take (Z.to_nat m) (drop (Z.to_nat s) p)).

Lemma part_store n off x p p' s m o : store n off x p = Some p' → bytes p → load n off p = Some o →
  0 ≤ s ≤ off → off + Z.of_nat n ≤ s + m → s + m ≤ zlen p → (off - s) `mod` 2 = 0 → 0 ≤ x < 256 ^ Z.of_nat n →
  part s m p' `mod` 65535 = (part s m p + x - o) `mod` 65535.
Proof.
  intros Hs Hp Hl H0 Hk Hm Heven Hx. apply (le_store_mod n (off - s)); [by apply Forall_take, Forall_drop|by apply store_sub|by rewrite load_sub|lia|done..].
Qed.

Lemma part_apart n off x p p' s m : store n off x p = Some p' → 0 ≤ s → 0 ≤ m → s + m ≤ off ∨ off + Z.of_nat n ≤ s →
  part s m p' = part s m p.
Proof. intros. unfold part. by erewrite store_apart. Qed.

(** ** Headers *)

(** A packet whose header has [n] bytes, and the number that they make. *)
Definition header_ok (n : Z) (p : list Z) : Prop := bytes p ∧ ip4_header_bytes p = Some n ∧ 20 ≤ n ≤ zlen p.
Definition hsum (n : Z) (p : list Z) : Z := part 0 n p.

Lemma load1_0 b p : bytes (b :: p) → load 1 0 (b :: p) = Some b.
Proof.
  intros _. unfold load. rewrite zlen_cons. pose proof (zlen_nonneg p). case_cond; [f_equal; change (b + 256 * 0 = b); lia|].
  apply andb_false_iff in Heqb0 as [?|?]; bool_to_prop; lia.
Qed.

Lemma hsum_pos n p : header_ok n p → 0 < hsum n p.
Proof.
  intros (Hp & Hn & Hr). destruct p as [|b p]; [unfold zlen in Hr; cbn in Hr; lia|].
  unfold ip4_header_bytes in Hn. rewrite load1_0 in Hn by done. cbn [mbind option_bind] in Hn. injection Hn as Hn.
  apply Forall_cons in Hp as [Hb Hp]. assert (b ≠ 0) by (intros ->; rewrite Z.land_0_l in Hn; lia).
  unfold hsum, part. change (drop (Z.to_nat 0) (b :: p)) with (b :: p). destruct (Z.to_nat n) as [|k] eqn:Hk; [lia|]. cbn. fold (le (take k p)).
  pose proof (le_nonneg (take k p) ltac:(by apply Forall_take)). unfold_ranges. lia.
Qed.

Section store_header.
Context (n : Z) (p : list Z) (Hok : header_ok n p) (k : nat) (off x : Z) (p' : list Z) (Hs : store k off x p = Some p').

Lemma header_ok_store : 1 ≤ off → header_ok n p'.
Proof.
  destruct Hok as (Hp & Hn & Hr). intros H1. split_and!; [by eapply store_bytes| |lia|rewrite (zlen_store _ _ _ _ _ Hs); lia].
  unfold ip4_header_bytes. rewrite (load_store_ne _ _ 1 0 _ _ _ Hs) by lia. done.
Qed.

Lemma hsum_store o : load k off p = Some o → 0 ≤ off → off `mod` 2 = 0 → off + Z.of_nat k ≤ n → 0 ≤ x < 256 ^ Z.of_nat k →
  hsum n p' `mod` 65535 = (hsum n p + x - o) `mod` 65535.
Proof.
  destruct Hok as (Hp & Hn & Hr). intros Hl H0 Heven Hk Hx.
  apply (part_store k off x p p' 0 n o Hs); try done; rewrite ?Z.sub_0_r; try done; lia.
Qed.

Lemma hsum_store_apart : n ≤ off → hsum n p' = hsum n p.
Proof. destruct Hok as (Hp & Hn & Hr). intros Hoff. apply (part_apart k off x p p' 0 n Hs); lia. Qed.
End store_header.

(** The check of a sum with its complement. *)
Lemma complement_zero s : 0 < s → u16 (Z.lnot (ones16 s)) = 65535 - ones16 s.
Proof.
  intros Hs. pose proof (ones_range 65535 s ltac:(lia)). unfold Z.lnot, u16. symmetry. apply (Z.mod_unique _ _ (-1)); lia.
Qed.

Lemma ones16_full s : 0 < s → ones16 s = 65535 ↔ s `mod` 65535 = 0.
Proof.
  intros Hs. pose proof (ones_range 65535 s ltac:(lia)). pose proof (ones_mod 65535 s ltac:(lia)) as Hm. pose proof (ones_zero 65535 s ltac:(lia)).
  split; [intros E; by rewrite <-Hm, E|]. intros E. rewrite E in Hm. destruct (decide (ones16 s = 65535)); [done|]. rewrite Z.mod_small in Hm by lia. lia.
Qed.

Lemma ip4_header_checksum_is_valid_iff n data p : header_ok n p → data `mod` 2 = 0 →
  ip4_header_checksum_is_valid data p = Some (bool_decide (hsum n p `mod` 65535 = 0)).
Proof.
  intros Hok Hd. pose proof Hok as (Hp & Hn & Hr). unfold ip4_header_checksum_is_valid, ip4_header_checksum.
  destruct (load_Some 2 10 p) as [c Hc]; [lia..|]. destruct (store_Some 2 10 0 p) as [p0 Hp0]; [lia..|].
  rewrite Hc, Hp0, Hn. cbn [mbind option_bind]. destruct (Z.leb_spec n (zlen p)); [|lia]. cbn [mbind option_bind]. f_equal.
  pose proof (header_ok_store _ _ Hok _ _ _ _ Hp0 ltac:(lia)) as Hok0. pose proof (hsum_pos _ _ Hok0) as Hpos.
  pose proof (hsum_store _ _ Hok _ _ _ _ Hp0 c Hc ltac:(lia) ltac:(done) ltac:(lia) ltac:(lia)) as Hmod.
  destruct (ip_incremental_checksum_ok 0 data (take (Z.to_nat n) p0)) as [Hw E]; [unfold word64, M64, u64_max; lia|by apply Forall_take, Hok0|done|].
  rewrite fold_ok, E by done. change (le (take (Z.to_nat n) p0)) with (hsum n p0). rewrite Z.add_0_l, complement_zero by done.
  pose proof (load_range _ _ _ _ Hp Hc) as Hcr. change (256 ^ Z.of_nat 2) with 65536 in Hcr.
  pose proof (ones_range 65535 (hsum n p0) ltac:(lia)) as Hor. pose proof (ones_mod 65535 (hsum n p0) ltac:(lia)) as Hom. pose proof (ones_zero 65535 (hsum n p0) ltac:(lia)) as Hoz.
  assert (hsum n p `mod` 65535 = (ones16 (hsum n p0) + c) `mod` 65535) as ->.
  { rewrite <-Zplus_mod_idemp_l, Hom, Hmod, Zplus_mod_idemp_l. f_equal. lia. }
  set (s := ones16 (hsum n p0)) in *. assert (s ≠ 0) as Hs0 by lia. clear - Hcr Hor Hs0.
  apply eq_true_iff_eq. rewrite Z.eqb_eq, bool_decide_eq_true.
  case_cond; [|split].
  - split; intros _; [|lia]. subst. assert (s = 65535) as -> by lia. done.
  - intros ->. by replace (s + (65535 - s)) with 65535 by lia.
  - intros Hz. apply andb_false_iff in Heqb. Z.to_euclidean_division_equations.
    assert (q = 1 ∨ q = 2) as [-> | ->] by lia; [lia|]. destruct Heqb; bool_to_prop; lia.
Qed.

Lemma load_Some_iff n off p x : load n off p = Some x ↔
  le (take n (drop (Z.to_nat off) p)) = x ∧ 0 ≤ off ∧ off + Z.of_nat n ≤ zlen p.
Proof.
  unfold load. case_cond; [split; [by intros [= ->]|by intros (-> & _)]|]. split; [done|]. intros (_ & ? & ?).
  apply andb_false_iff in Heqb as [?|?]; bool_to_prop; lia.
Qed.

Lemma loads_hsum p w0 w1 w2 : bytes p → load 8 0 p = Some w0 → load 8 8 p = Some w1 → load 4 16 p = Some w2 →
  hsum 20 p = w0 + 2 ^ 64 * (w1 + 2 ^ 64 * w2) ∧ word64 w0 ∧ word64 w1 ∧ word64 w2.
Proof.
  intros Hp H0 H1 H2. pose proof (load_range _ _ _ _ Hp H0) as R0. pose proof (load_range _ _ _ _ Hp H1) as R1. pose proof (load_range _ _ _ _ Hp H2) as R2.
  change (256 ^ Z.of_nat 8) with (2 ^ 64) in *. change (256 ^ Z.of_nat 4) with (2 ^ 32) in *.
  split; [|unfold word64, M64, u64_max; lia].
  destruct (proj1 (load_Some_iff _ _ _ _) H0) as [E0 L0]. destruct (proj1 (load_Some_iff _ _ _ _) H1) as [E1 L1]. destruct (proj1 (load_Some_iff _ _ _ _) H2) as [E2 L2].
  unfold hsum, part. change (drop (Z.to_nat 0) p) with p. change (Z.to_nat 20) with 20%nat. change (Z.of_nat 4) with 4 in L2.
  assert (take 20 p = take 8 p ++ take 8 (drop 8 p) ++ take 4 (drop 16 p)) as ->.
  { rewrite <-(take_drop 8 p) at 1. rewrite take_app_ge by (rewrite length_take; lia). f_equal. rewrite length_take, Nat.min_l by (unfold zlen in L2; lia).
    rewrite <-(take_drop 8 (drop 8 p)) at 1. rewrite take_app_ge by (rewrite length_take; lia). f_equal.
    rewrite length_take, length_drop, drop_drop, Nat.min_l by (unfold zlen in L2; lia). done. }
  rewrite !le_app, !zlen_take_le by (unfold zlen in *; rewrite ?length_drop; lia). change (drop (Z.to_nat 0) p) with p in E0. change (Z.to_nat 8) with 8%nat in E1. change (Z.to_nat 16) with 16%nat in E2. rewrite E0, E1, E2. done.
Qed.

Lemma ip4_input_checksum_ok_iff p : header_ok 20 p → ip4_input_checksum_ok p = Some (bool_decide (hsum 20 p `mod` 65535 = 0)).
Proof.
  intros Hok. pose proof Hok as (Hp & _ & Hr). unfold ip4_input_checksum_ok, ip4_partial_header_checksum_x1.
  destruct (load_Some 8 0 p) as [w0 H0]; [lia..|]. destruct (load_Some 8 8 p) as [w1 H1]; [lia..|]. destruct (load_Some 4 16 p) as [w2 H2]; [lia..|].
  rewrite H0, H1, H2. cbn [mbind option_bind]. f_equal. destruct (loads_hsum _ _ _ _ Hp H0 H1 H2) as (E & W0 & W1 & W2).
  pose proof (hsum_pos _ _ Hok) as Hpos. pose proof (carry_word _ _ W0 W1) as W01. rewrite fold_ok by (by apply carry_word).
  assert (ones16 (ip_csum_with_carry (ip_csum_with_carry w0 w1) w2) = ones16 (hsum 20 p)) as ->.
  { rewrite <-(Z.add_0_r (ip_csum_with_carry _ w2)), ones_carry by done. rewrite Z.add_0_r.
    rewrite ones_carry by (done || (unfold word64 in W2; lia)). rewrite E. unfold word64 in *. apply ones_congr; [lia| |lia].
    symmetry. apply (mod_mul_sub _ _ (281479271743489 * w1 + (2 ^ 64 + 1) * 281479271743489 * w2)). lia. }
  apply eq_true_iff_eq. rewrite Z.eqb_eq, bool_decide_eq_true, <-ones16_full by done. done.
Qed.

(** ** The time to live *)

(** C40: A packet with a valid header that ip4-rewrite forwards or answers keeps a valid header: the assertion of the
    code on the checksum holds and the next hop accepts it; only the time to live and the checksum change. *)
Theorem ip4_rewrite_ttl_ok n data p ttl
    (Hok : header_ok n p) (Hd : data `mod` 2 = 0) (Hv : ip4_header_checksum_is_valid data p = Some true)
    (Httl : load 1 8 p = Some ttl) (Hpos : 0 < ttl) :
  ∃ p', ip4_rewrite_ttl data p = Some (if ttl =? 1 then REWRITE_ICMP_ERROR else REWRITE_FORWARD, p') ∧
    header_ok n p' ∧ ip4_header_checksum_is_valid data p' = Some true ∧ load 1 8 p' = Some (ttl - 1) ∧
    (n = 20 → ip4_input_checksum_ok p' = Some true) ∧ zlen p' = zlen p ∧
    ∀ m o, o + Z.of_nat m ≤ 8 ∨ o = 9 ∧ m = 1%nat ∨ 12 ≤ o → load m o p' = load m o p.
Proof.
  pose proof Hok as (Hp & Hn & Hr). rewrite (ip4_header_checksum_is_valid_iff n) in Hv by done. injection Hv as Hv%bool_decide_eq_true.
  unfold ip4_rewrite_ttl. rewrite Httl. cbn [mbind option_bind]. destruct (Z.leb_spec ttl 0); [lia|].
  destruct (load_Some 2 10 p) as [c Hc]; [lia..|]. rewrite Hc. cbn [mbind option_bind]. change (clib_host_to_net_u16 256) with 1.
  pose proof (load_range _ _ _ _ Hp Hc) as Hcr. change (256 ^ Z.of_nat 2) with 65536 in Hcr.
  pose proof (load_range _ _ _ _ Hp Httl) as Htr. change (256 ^ Z.of_nat 1) with 256 in Htr.
  rewrite (u32_small (c + 1)) by (unfold_ranges; lia). rewrite u32_small by (unfold_ranges; destruct (65535 <=? c + 1); cbn; lia).
  set (c' := u16 (c + 1 + Z.b2z (65535 <=? c + 1))).
  assert (c' `mod` 65535 = (c + 1) `mod` 65535 ∧ in_u16 c') as [Hcm Hc'].
  { split; [|apply u16_range]. subst c'. destruct (Z.leb_spec 65535 (c + 1)); cbn [Z.b2z].
    - assert (c = 65534 ∨ c = 65535) as [-> | ->] by lia; done.
    - rewrite u16_small by (unfold_ranges; lia). f_equal. lia. }
  destruct (store_Some 2 10 c' p) as [p1 H1]; [lia..|]. rewrite H1. cbn [mbind option_bind].
  pose proof (header_ok_store _ _ Hok _ _ _ _ H1 ltac:(lia)) as Hok1. pose proof (zlen_store _ _ _ _ _ H1) as Z1.
  assert (load 1 8 p1 = Some ttl) as Httl1 by (by rewrite (load_store_ne _ _ _ _ _ _ _ H1) by lia).
  destruct (store_Some 1 8 (ttl - 1) p1) as [p2 H2]; [lia..|]. rewrite H2. cbn [mbind option_bind].
  pose proof (header_ok_store _ _ Hok1 _ _ _ _ H2 ltac:(lia)) as Hok2. pose proof (zlen_store _ _ _ _ _ H2) as Z2.
  assert (hsum n p2 `mod` 65535 = 0) as Hv2.
  { rewrite (hsum_store _ _ Hok1 _ _ _ _ H2 ttl Httl1) by (change (256 ^ Z.of_nat 1) with 256; done || lia).
    rewrite <-Zminus_mod_idemp_l, <-Zplus_mod_idemp_l, (hsum_store _ _ Hok _ _ _ _ H1 c Hc) by (unfold_ranges; change (256 ^ Z.of_nat 2) with 65536; done || lia).
    rewrite Zplus_mod_idemp_l, Zminus_mod_idemp_l.
    replace (hsum n p + c' - c + (ttl - 1) - ttl) with (hsum n p + (c' - (c + 1))) by lia. rewrite <-Zplus_mod_idemp_l, Hv, Z.add_0_l.
    by rewrite <-Zminus_mod_idemp_l, Hcm, Zminus_mod_idemp_l, Z.sub_diag. }
  rewrite (ip4_header_checksum_is_valid_iff n), bool_decide_eq_true_2 by done. cbn [mbind option_bind].
  exists p2. split; [destruct (Z.leb_spec (ttl - 1) 0), (Z.eqb_spec ttl 1); done || lia|]. split; [done|].
  split; [by rewrite (ip4_header_checksum_is_valid_iff n), bool_decide_eq_true_2|]. split; [apply (load_store_eq _ _ _ _ _ H2); change (256 ^ Z.of_nat 1) with 256; lia|].
  split; [intros ->; by rewrite ip4_input_checksum_ok_iff, bool_decide_eq_true_2|]. split; [lia|].
  intros m o Ho. rewrite (load_store_ne _ _ _ _ _ _ _ H2), (load_store_ne _ _ _ _ _ _ _ H1) by lia. done.
Qed.

Lemma ip4_rewrite_ttl_ok_witness :
  let p := [69; 0; 0; 20; 0; 0; 0; 0; 64; 6; 102; 226; 10; 0; 0; 1; 10; 0; 0; 2] in
  (ip4_rewrite_ttl 14 p = Some (REWRITE_FORWARD, [69; 0; 0; 20; 0; 0; 0; 0; 63; 6; 103; 226; 10; 0; 0; 1; 10; 0; 0; 2])) ∧
  ∃ p', ip4_rewrite_ttl 14 p = Some (REWRITE_FORWARD, p') ∧ ip4_header_checksum_is_valid 14 p' = Some true.
Proof.
  split; [vm_compute; reflexivity|]. set (p := [69; 0; 0; 20; 0; 0; 0; 0; 64; 6; 102; 226; 10; 0; 0; 1; 10; 0; 0; 2]).
  assert (header_ok 20 p) as Hok by (split_and!; [repeat constructor; done|done|done|done]).
  destruct (ip4_rewrite_ttl_ok 20 14 p 64 Hok) as (p' & H & _ & Hv & _); [done|vm_compute; reflexivity|done|done|].
  exists p'. split; [exact H|exact Hv].
Defined.

End IpCsumHdr.
