(* ===== verification/Bitmap.v ===== *)
(** * Bitmaps built as vectors of machine words (vppinfra/bitmap.h)

    A [clib_bitmap_t *] is a vector of 64-bit words; the NULL bitmap is the empty
    vector.  [bit a i] is the abstract value of bit [i]: every operation below is
    specified by what it does to [bit].  The file ends with the [FreeSet]
    interface, through which the object pools of Pool.v use bitmaps. *)

From S2P Require Import Prelude.

Module ClibBitmap.

(** [BITS (uword)] on a 64-bit target. *)
Definition BITS : Z := 64.

(** ** Word helpers (clib.h) *)

(** [count_trailing_zeros], the compiler's builtin; it is called on non-zero
    words only. *)
Fixpoint pos_ctz (p : positive) : Z :=
  match p with
  | xO q => 1 + pos_ctz q
  | _ => 0
  end.

Definition log2_first_set (x : Z) : Z :=
  match x with
  | Zpos p => pos_ctz p
  | _ => 0
  end.

(** [count_leading_zeros], the compiler's builtin on a 64-bit word. *)
Definition count_leading_zeros (x : Z) : Z := 63 - Z.log2 x.

Definition min_log2 (x : Z) : Z := BITS - count_leading_zeros x - 1.

Definition max_log2 (x : Z) : Z :=
  let l := min_log2 x in
  if u64 (Z.shiftl 1 l) <? x then l + 1 else l.

Definition first_set (x : Z) : Z := Z.land x (u64 (- x)).

Definition pow2_mask (x : Z) : Z := u64 (Z.shiftl 1 x - 1).

(** [~x] on a 64-bit word. *)
Definition not64 (x : Z) : Z := u64 (Z.lnot x).

(** Population count from Hacker's Delight (bitops.h). *)
Definition count_set_bits (x : Z) : Z :=
  let c1 := 0x5555555555555555 in
  let c2 := 0x3333333333333333 in
  let c3 := 0x0f0f0f0f0f0f0f0f in
  let x := u64 (x - Z.land (Z.shiftr x 1) c1) in
  let x := u64 (Z.land x c2 + Z.land (Z.shiftr x 2) c2) in
  let x := Z.land (u64 (x + Z.shiftr x 4)) c3 in
  let x := u64 (x + Z.shiftr x 8) in
  let x := u64 (x + Z.shiftr x 16) in
  let x := u64 (x + Z.shiftr x 32) in
  Z.land x (2 * BITS - 1).

(** ** Bitmap operations *)

Abbreviation bitmap := (list Z).

Definition clib_bitmap_is_zero (ai : bitmap) : bool := forallb (λ w, w =? 0) ai.

Fixpoint clib_bitmap_is_equal (a b : bitmap) : bool :=
  match a, b with
  | [], [] => true
  | x :: a, y :: b => (x =? y) && clib_bitmap_is_equal a b
  | _, _ => false
  end.

Definition clib_bitmap_vec_validate (v : bitmap) (i : Z) : bitmap := vec_validate 0 v i.

(** The scan of [_clib_bitmap_remove_trailing_zeros] from the last word down:
    the number of words kept. *)
Fixpoint trailing_scan (a : bitmap) (n : nat) : nat :=
  match n with
  | O => O
  | S m => if velt 0 a (Z.of_nat m) =? 0 then trailing_scan a m else n
  end.

Definition clib_bitmap_remove_trailing_zeros (a : bitmap) : bitmap :=
  take (trailing_scan a (length a)) a.

(** Returns the updated bitmap and the old value of the bit. *)
Definition clib_bitmap_set_no_check (a : bitmap) (i new_value : Z) : bitmap * bool :=
  let i0 := i / BITS in
  let i1 := i `mod` BITS in
  let bit := u64 (Z.shiftl 1 i1) in
  let ai := velt 0 a i0 in
  let old_value := negb (Z.land ai bit =? 0) in
  let ai := Z.land ai (not64 bit) in
  let ai := Z.lor ai (u64 (Z.shiftl (if new_value =? 0 then 0 else 1) i1)) in
  (vset a i0 ai, old_value).

Definition clib_bitmap_set (ai : bitmap) (i value : Z) : bitmap :=
  let i0 := i / BITS in
  let i1 := i `mod` BITS in
  if (value =? 0) && (zlen ai <=? i0) then ai
  else
    let ai := clib_bitmap_vec_validate ai i0 in
    let a := velt 0 ai i0 in
    let a := Z.land a (not64 (u64 (Z.shiftl 1 i1))) in
    let a := Z.lor a (u64 (Z.shiftl (if value =? 0 then 0 else 1) i1)) in
    let ai := vset ai i0 a in
    if a =? 0 then clib_bitmap_remove_trailing_zeros ai else ai.

Definition clib_bitmap_get (ai : bitmap) (i : Z) : bool :=
  let i0 := i / BITS in
  let i1 := i `mod` BITS in
  (i0 <? zlen ai) && negb (Z.land (Z.shiftr (velt 0 ai i0) i1) 1 =? 0).

Definition clib_bitmap_get_no_check (ai : bitmap) (i : Z) : bool :=
  let i0 := i / BITS in
  let i1 := i `mod` BITS in
  negb (Z.land (Z.shiftr (velt 0 ai i0) i1) 1 =? 0).

Definition clib_bitmap_get_multiple (bitmap : list Z) (i n_bits : Z) : Z :=
  let l := zlen bitmap in
  let i0 := i / BITS in
  let i1 := i `mod` BITS in
  let result :=
    if i0 <? l then
      let r := Z.shiftr (velt 0 bitmap i0) i1 in
      if n_bits <? BITS then Z.land r (u64 (Z.shiftl 1 n_bits - 1)) else r
    else 0 in
  let i0 := i0 + 1 in
  if (BITS <? i1 + n_bits) && (i0 <? l) then
    let n_bits := n_bits - (BITS - i1) in
    Z.lor result
      (u64 (Z.shiftl (Z.land (velt 0 bitmap i0) (u64 (Z.shiftl 1 n_bits - 1)))
                     (BITS - i1)))
  else result.

Definition clib_bitmap_set_multiple (bitmap : list Z) (i value n_bits : Z) : list Z :=
  let i0 := i / BITS in
  let i1 := i `mod` BITS in
  let bitmap := clib_bitmap_vec_validate bitmap ((i + n_bits) / BITS) in
  let l := zlen bitmap in
  let m := if n_bits <? BITS then u64 (Z.shiftl 1 n_bits - 1) else u64_max in
  let value := Z.land value m in
  let t := velt 0 bitmap i0 in
  let t := Z.land t (not64 (u64 (Z.shiftl m i1))) in
  let t := Z.lor t (u64 (Z.shiftl value i1)) in
  let bitmap := vset bitmap i0 t in
  let i0 := i0 + 1 in
  if (BITS <? i1 + n_bits) && (i0 <? l) then
    let t := BITS - i1 in
    let value := Z.shiftr value t in
    let n_bits := n_bits - t in
    let t := velt 0 bitmap i0 in
    let m := u64 (Z.shiftl 1 n_bits - 1) in
    let t := Z.land t (not64 m) in
    let t := Z.lor t value in
    vset bitmap i0 t
  else bitmap.

(** The word loops below carry the index [i] of the first word of [ai]. *)
Fixpoint first_set_from (ai : bitmap) (i : Z) : Z :=
  match ai with
  | [] => u64_max
  | x :: ai =>
      if negb (x =? 0) then i * BITS + log2_first_set x
      else first_set_from ai (i + 1)
  end.

Definition clib_bitmap_first_set (ai : bitmap) : Z := first_set_from ai 0.

Fixpoint last_set_down (ai : bitmap) (n : nat) : Z :=
  match n with
  | O => u64_max
  | S m =>
      let x := velt 0 ai (Z.of_nat m) in
      if negb (x =? 0) then Z.of_nat n * BITS - count_leading_zeros x - 1
      else last_set_down ai m
  end.

Definition clib_bitmap_last_set (ai : bitmap) : Z := last_set_down ai (length ai).

Fixpoint first_clear_from (ai : bitmap) (i : Z) : Z :=
  match ai with
  | [] => i * BITS
  | x :: ai =>
      let x := not64 x in
      if negb (x =? 0) then i * BITS + log2_first_set x
      else first_clear_from ai (i + 1)
  end.

Definition clib_bitmap_first_clear (ai : bitmap) : Z := first_clear_from ai 0.

Definition clib_bitmap_count_set_bits (ai : bitmap) : Z :=
  foldl (λ n w, u64 (n + count_set_bits w)) 0 ai.

(** The ALU macro: [body] on every word of [ai], extended to [bi]'s length;
    with [check_zero] the zero words that end up last are dropped. *)
Fixpoint alu_words (body : Z → Z → Z) (ai bi : bitmap) : bitmap :=
  match ai with
  | [] => []
  | a :: ai =>
      match bi with
      | [] => body a 0 :: alu_words body ai []
      | b :: bi => body a b :: alu_words body ai bi
      end
  end.

Definition n_trailing_zeros (ai : bitmap) : nat :=
  foldl (λ n a, if a =? 0 then S n else O) O ai.

Definition clib_bitmap_alu (body : Z → Z → Z) (check_zero : bool) (ai bi : bitmap) : bitmap :=
  let ai := if 0 <? zlen bi then clib_bitmap_vec_validate ai (zlen bi - 1) else ai in
  let ai := alu_words body ai bi in
  if check_zero then take (length ai - n_trailing_zeros ai) ai else ai.

Definition clib_bitmap_and := clib_bitmap_alu Z.land true.
Definition clib_bitmap_andnot := clib_bitmap_alu (λ a b, Z.land a (not64 b)) true.
Definition clib_bitmap_or := clib_bitmap_alu Z.lor false.
Definition clib_bitmap_xor := clib_bitmap_alu Z.lxor false.

(** The ALU macro on a bitmap and one bit. *)
Definition clib_bitmap_alui (body : Z → Z → Z) (check_zero : bool) (ai : bitmap) (i : Z) : bitmap :=
  let i0 := i / BITS in
  let i1 := i `mod` BITS in
  let ai := clib_bitmap_vec_validate ai i0 in
  let a := velt 0 ai i0 in
  let b := u64 (Z.shiftl 1 i1) in
  let a := body a b in
  let ai := vset ai i0 a in
  if check_zero && (a =? 0) then clib_bitmap_remove_trailing_zeros ai else ai.

Definition clib_bitmap_andi := clib_bitmap_alui Z.land true.
Definition clib_bitmap_andnoti := clib_bitmap_alui (λ a b, Z.land a (not64 b)) true.
Definition clib_bitmap_ori := clib_bitmap_alui Z.lor false.
Definition clib_bitmap_xori := clib_bitmap_alui Z.lxor false.

(** Words from index [i0] on, used by the scans that start inside a bitmap. *)
Definition words_from (ai : bitmap) (i0 : Z) : bitmap := drop (Z.to_nat i0) ai.

Definition clib_bitmap_next_set (ai : bitmap) (i : Z) : Z :=
  let i0 := i / BITS in
  let i1 := i `mod` BITS in
  if i0 <? zlen ai then
    let t := u64 (Z.shiftl (Z.shiftr (velt 0 ai i0) i1) i1) in
    if negb (t =? 0) then log2_first_set t + i0 * BITS
    else first_set_from (words_from ai (i0 + 1)) (i0 + 1)
  else u64_max.

(** The inner loop of [clib_bitmap_next_clear]; [None] when it runs out. *)
Fixpoint next_clear_from (ai : bitmap) (i0 : Z) : option Z :=
  match ai with
  | [] => None
  | x :: ai =>
      let t := not64 x in
      if negb (t =? 0) then Some (log2_first_set t + i0 * BITS)
      else next_clear_from ai (i0 + 1)
  end.

Definition clib_bitmap_next_clear (ai : bitmap) (i : Z) : Z :=
  let i0 := i / BITS in
  let i1 := i `mod` BITS in
  if i0 <? zlen ai then
    let t := u64 (Z.shiftl (Z.shiftr (not64 (velt 0 ai i0)) i1) i1) in
    if negb (t =? 0) then log2_first_set t + i0 * BITS
    else default i (next_clear_from (words_from ai (i0 + 1)) (i0 + 1))
  else i.

(** [clib_bitmap_foreach]: the positions handed to the body, in order.  The
    [while] over one word clears its lowest set bit every turn, so 64 turns are
    enough. *)
Fixpoint foreach_word (fuel : nat) (base ai : Z) : list Z :=
  match fuel with
  | O => []
  | S fuel =>
      if ai =? 0 then []
      else
        let f := first_set ai in
        (base + min_log2 f) :: foreach_word fuel base (Z.lxor ai f)
  end.

Fixpoint foreach_from (ai : bitmap) (i : Z) : list Z :=
  match ai with
  | [] => []
  | x :: ai => foreach_word 64 (i * BITS) x ++ foreach_from ai (i + 1)
  end.

Definition clib_bitmap_foreach (ai : bitmap) : list Z := foreach_from ai 0.


(** ** Abstract view: the bits *)

Definition bit (a : bitmap) (i : Z) : bool := Z.testbit (velt 0 a (i / BITS)) (i `mod` BITS).

(** Every word is a 64-bit value. *)
Definition wf (a : bitmap) : Prop := Forall in_u64 a.

Lemma wf_velt a i : wf a → in_u64 (velt 0 a i).
Proof.
  intros H. unfold velt. destruct (vget a i) as [x|] eqn:E; simpl; [|by split].
  eapply list.Forall_forall; [exact H|]. by eapply vget_elem.
Qed.

Lemma wf_vset a i x : wf a → in_u64 x → wf (vset a i x).
Proof. intros Ha Hx. unfold vset. case_cond; [by apply Forall_insert|done]. Qed.

Lemma wf_validate a i : wf a → wf (clib_bitmap_vec_validate a i).
Proof.
  intros H. apply Forall_app. split; [done|].
  apply Forall_replicate. unfold in_u64. lia.
Qed.

Lemma wf_take n a : wf a → wf (take n a).
Proof. apply Forall_take. Qed.
#[local] Hint Resolve wf_velt wf_vset wf_validate wf_take : vpp.

Lemma i1_range i : 0 ≤ i `mod` BITS < 64.
Proof. unfold BITS. apply Z.mod_pos_bound. lia. Qed.

Lemma index_split i : i = 64 * (i / BITS) + i `mod` BITS.
Proof. unfold BITS. apply Z.div_mod. lia. Qed.

Lemma index_pos i : 0 ≤ i → 0 ≤ i / BITS.
Proof. unfold BITS. intros. by apply Z.div_pos. Qed.

Lemma index_eq i j : i = j ↔ i / BITS = j / BITS ∧ i `mod` BITS = j `mod` BITS.
Proof.
  split; [by intros ->|]. intros [H1 H2].
  rewrite (index_split i), (index_split j). congruence.
Qed.

Lemma index_mk w k : 0 ≤ k < 64 → (w * BITS + k) / BITS = w ∧ (w * BITS + k) `mod` BITS = k.
Proof.
  intros Hk. unfold BITS.
  split; symmetry; [apply Z.div_unique with k|apply Z.mod_unique with w]; lia.
Qed.

(** Reading and writing one bit of a word. *)
Lemma testbit_land1 x n :
  0 ≤ n → negb (Z.land (Z.shiftr x n) 1 =? 0) = Z.testbit x n.
Proof.
  intros Hn. change 1 with (Z.ones 1). rewrite Z.land_ones by lia.
  change (2 ^ 1) with 2. rewrite Zmod_odd.
  replace (Z.odd (Z.shiftr x n)) with (Z.testbit x n).
  { by destruct (Z.testbit x n). }
  by rewrite <-Z.bit0_odd, Z.shiftr_spec, Z.add_0_l by lia.
Qed.

Lemma testbit_not64 x n : 0 ≤ n → Z.testbit (not64 x) n = (n <? 64) && negb (Z.testbit x n).
Proof.
  intros Hn. unfold not64. by rewrite testbit_u64, Z.lnot_spec by done.
Qed.

Lemma testbit_one_shift i1 n :
  0 ≤ i1 < 64 → Z.testbit (u64 (Z.shiftl 1 i1)) n = (n =? i1).
Proof.
  intros Hi. rewrite testbit_u64, testbit_shiftl1 by lia.
  destruct (n =? i1) eqn:E; bool_to_prop; [|by rewrite andb_false_r].
  rewrite andb_true_r. apply Z.ltb_lt. lia.
Qed.

Lemma not64_range x : in_u64 (not64 x).
Proof. apply u64_range. Qed.

Lemma word_write_range a i1 v :
  in_u64 a →
  in_u64 (Z.lor (Z.land a (not64 (u64 (Z.shiftl 1 i1)))) (u64 v)).
Proof.
  intros Ha. apply lor_range; [lia| |apply u64_range].
  apply land_range; [lia|done|]. pose proof (not64_range (u64 (Z.shiftl 1 i1))).
  unfold in_u64 in *. lia.
Qed.

Lemma testbit_word_write a i1 v n :
  0 ≤ i1 < 64 → 0 ≤ n < 64 →
  Z.testbit (Z.lor (Z.land a (not64 (u64 (Z.shiftl 1 i1))))
                   (u64 (Z.shiftl (if v =? 0 then 0 else 1) i1))) n
  = if n =? i1 then negb (v =? 0) else Z.testbit a n.
Proof.
  intros Hi Hn. rewrite Z.lor_spec, Z.land_spec, testbit_not64, testbit_one_shift by lia.
  replace (n <? 64) with true by (symmetry; apply Z.ltb_lt; lia).
  destruct (v =? 0); simpl.
  - rewrite Z.shiftl_0_l, testbit_u64, Z.bits_0, andb_false_r, orb_false_r.
    destruct (n =? i1); simpl; [by rewrite andb_false_r|by rewrite andb_true_r].
  - rewrite testbit_one_shift by lia.
    destruct (n =? i1); simpl; [by rewrite andb_false_r|].
    by rewrite andb_true_r, orb_false_r.
Qed.

(** Updating one word of a bitmap. *)
Lemma bit_vset a i0 x j :
  0 ≤ i0 < zlen a →
  bit (vset a i0 x) j = if j / BITS =? i0 then Z.testbit x (j `mod` BITS) else bit a j.
Proof.
  intros Hi. unfold bit. case_cond.
  - subst. by rewrite velt_vset_eq.
  - by rewrite velt_vset_ne by lia.
Qed.

Lemma bit_validate a i j : bit (clib_bitmap_vec_validate a i) j = bit a j.
Proof. unfold bit, clib_bitmap_vec_validate. by rewrite velt_validate. Qed.

Lemma validate_bound a i : 0 ≤ i → 0 ≤ i < zlen (clib_bitmap_vec_validate a i).
Proof.
  intros Hi. unfold clib_bitmap_vec_validate. rewrite zlen_validate by done. lia.
Qed.

(** Dropping trailing zero words does not change any bit. *)
Lemma trailing_scan_spec a n :
  (trailing_scan a n ≤ n)%nat ∧
  ∀ k, Z.of_nat (trailing_scan a n) ≤ k < Z.of_nat n → velt 0 a k = 0.
Proof.
  induction n as [|n [IH1 IH2]]; cbn [trailing_scan]; [split; [done|]; lia|].
  destruct (velt 0 a (Z.of_nat n) =? 0) eqn:E; bool_to_prop.
  - split; [lia|]. intros k Hk.
    destruct (decide (k = Z.of_nat n)) as [->|]; [done|]. apply IH2. lia.
  - split; [done|]. lia.
Qed.

Lemma velt_take {A} (d : A) n l i :
  velt d (take n l) i = if decide (i < Z.of_nat n) then velt d l i else d.
Proof.
  case_decide.
  - unfold velt, vget. case_cond; [|done]. by rewrite lookup_take_lt by lia.
  - apply velt_out. right. unfold zlen. rewrite length_take. lia.
Qed.

Lemma velt_remove_trailing_zeros a i :
  velt 0 (clib_bitmap_remove_trailing_zeros a) i = velt 0 a i.
Proof.
  unfold clib_bitmap_remove_trailing_zeros. rewrite velt_take. case_decide; [done|].
  destruct (trailing_scan_spec a (length a)) as [_ Hz].
  destruct (decide (i < zlen a)) as [Hi|Hi].
  - symmetry. apply Hz. unfold zlen in Hi. lia.
  - by rewrite velt_out by lia.
Qed.

Lemma bit_remove_trailing_zeros a i :
  bit (clib_bitmap_remove_trailing_zeros a) i = bit a i.
Proof. unfold bit. by rewrite velt_remove_trailing_zeros. Qed.

Lemma get_bit a i : clib_bitmap_get a i = bit a i.
Proof.
  unfold clib_bitmap_get, bit. rewrite testbit_land1 by apply i1_range.
  destruct (_ <? _) eqn:E; bool_to_prop; [done|].
  rewrite velt_out by lia. by rewrite Z.bits_0.
Qed.

Lemma bit_set a i v j :
  0 ≤ i → bit (clib_bitmap_set a i v) j = if j =? i then negb (v =? 0) else bit a j.
Proof.
  intros Hi. pose proof (i1_range i). pose proof (i1_range j).
  unfold clib_bitmap_set. destruct ((v =? 0) && _) eqn:E; bool_to_prop.
  { subst. destruct (j =? i) eqn:Ej; bool_to_prop; [|done]. subst.
    unfold bit. rewrite velt_out by lia. by rewrite Z.bits_0. }
  assert (bit (vset (clib_bitmap_vec_validate a (i / BITS)) (i / BITS)
    (Z.lor (Z.land (velt 0 (clib_bitmap_vec_validate a (i / BITS)) (i / BITS))
              (not64 (u64 (Z.shiftl 1 (i `mod` BITS)))))
       (u64 (Z.shiftl (if v =? 0 then 0 else 1) (i `mod` BITS))))) j
    = if j =? i then negb (v =? 0) else bit a j) as Hbit.
  { rewrite bit_vset by (apply validate_bound, index_pos; done).
    rewrite testbit_word_write by done. rewrite <-(bit_validate a (i / BITS) j).
    destruct (j =? i) eqn:Ej; bool_to_prop.
    - subst. by rewrite !Z.eqb_refl.
    - destruct (j / BITS =? i / BITS) eqn:Ew; bool_to_prop; [|done].
      destruct (j `mod` BITS =? i `mod` BITS) eqn:Em; bool_to_prop.
      + exfalso. apply Ej, index_eq. done.
      + unfold bit. by rewrite Ew. }
  cbv zeta. case_cond; [|done]. by rewrite bit_remove_trailing_zeros.
Qed.

Lemma wf_set a i v : wf a → wf (clib_bitmap_set a i v).
Proof.
  intros H. unfold clib_bitmap_set. case_cond; [done|]. cbv zeta.
  assert (∀ x, in_u64 x → wf (vset (clib_bitmap_vec_validate a (i / BITS)) (i / BITS) x))
    as Hw by eauto with vpp.
  case_cond; [apply wf_take|]; apply Hw, word_write_range; eauto with vpp.
Qed.

(** *** The ALU operations *)

Lemma zlen_alu_words f a b : zlen (alu_words f a b) = zlen a.
Proof.
  revert b. induction a as [|x a IH]; intros [|y b]; cbn [alu_words]; [done..| |];
    by rewrite !zlen_cons, IH.
Qed.

Lemma velt_cons_0 {A} (d x : A) l : velt d (x :: l) 0 = x.
Proof. done. Qed.

Lemma velt_cons_pos {A} (d x : A) l i : 0 < i → velt d (x :: l) i = velt d l (i - 1).
Proof.
  intros H. unfold velt, vget. do 2 (case_cond; [|lia]).
  by replace (Z.to_nat i) with (S (Z.to_nat (i - 1))) by lia.
Qed.

Lemma velt_alu_words f a b i :
  0 ≤ i < zlen a → velt 0 (alu_words f a b) i = f (velt 0 a i) (velt 0 b i).
Proof.
  revert b i. induction a as [|x a IH]; intros b i Hi.
  { unfold zlen in Hi. simpl in Hi. lia. }
  rewrite zlen_cons in Hi.
  destruct (decide (i = 0)) as [->|]; [by destruct b|].
  destruct b as [|y b]; cbn [alu_words]; rewrite !velt_cons_pos by lia.
  - rewrite IH by lia. by rewrite !(velt_out 0 []) by (unfold zlen; simpl; lia).
  - by rewrite IH by lia.
Qed.

Lemma wf_alu_words f a b :
  (∀ x y, in_u64 x → in_u64 y → in_u64 (f x y)) → wf a → wf b → wf (alu_words f a b).
Proof.
  intros Hf Ha. revert b. induction Ha as [|x a Hx Ha IH]; intros b Hb; [constructor|].
  destruct Hb as [|y b Hy Hb]; constructor; [|apply IH; constructor|by apply Hf|by apply IH].
  apply Hf; [done|]. unfold in_u64. lia.
Qed.

(** The number of trailing zero words counted by the loop over the words. *)
Lemma n_trailing_zeros_app a w :
  n_trailing_zeros (a ++ [w]) = if w =? 0 then S (n_trailing_zeros a) else O.
Proof. unfold n_trailing_zeros. by rewrite foldl_app. Qed.

Lemma n_trailing_zeros_spec a k :
  zlen a - Z.of_nat (n_trailing_zeros a) ≤ k → velt 0 a k = 0.
Proof.
  revert k. induction a as [|w a IH] using rev_ind; intros k Hk.
  { destruct (decide (0 ≤ k)); [apply velt_out; unfold zlen; simpl; lia|].
    apply velt_out. lia. }
  rewrite n_trailing_zeros_app in Hk. unfold zlen in Hk; rewrite length_app in Hk; simpl in Hk; fold (zlen a) in Hk.
  destruct (decide (k < zlen a)) as [Hlt|Hge].
  - unfold velt. rewrite vget_app_l by done. apply IH. unfold zlen in *. destruct (w =? 0); lia.
  - destruct (decide (k = zlen a)) as [->|].
    + unfold velt. rewrite vget_app_r by lia. rewrite Z.sub_diag.
      destruct (w =? 0) eqn:E; bool_to_prop; [by subst|unfold zlen in *; lia].
    + apply velt_out. unfold zlen in *. rewrite length_app. simpl. lia.
Qed.

Lemma velt_drop_zeros a i :
  velt 0 (take (length a - n_trailing_zeros a) a) i = velt 0 a i.
Proof.
  rewrite velt_take. case_decide; [done|].
  symmetry. apply n_trailing_zeros_spec. unfold zlen. lia.
Qed.

Lemma velt_alu f cz a b i :
  f 0 0 = 0 → 0 ≤ i → velt 0 (clib_bitmap_alu f cz a b) i = f (velt 0 a i) (velt 0 b i).
Proof.
  intros Hf Hi. unfold clib_bitmap_alu.
  set (a' := if 0 <? zlen b then _ else a).
  assert (∀ j, velt 0 a' j = velt 0 a j) as Ha.
  { intros j. subst a'. case_cond; [apply velt_validate|done]. }
  assert (zlen b ≤ zlen a') as Hlen.
  { subst a'. case_cond; [|pose proof (zlen_nonneg a); lia].
    unfold clib_bitmap_vec_validate. rewrite zlen_validate by lia. lia. }
  assert (velt 0 (alu_words f a' b) i = f (velt 0 a i) (velt 0 b i)) as Hw.
  { rewrite <-Ha. destruct (decide (i < zlen a')) as [?|?]; [by apply velt_alu_words|].
    rewrite velt_out by (rewrite zlen_alu_words; lia). rewrite !velt_out by lia. done. }
  destruct cz; [|done]. by rewrite velt_drop_zeros.
Qed.

Lemma wf_alu f cz a b :
  (∀ x y, in_u64 x → in_u64 y → in_u64 (f x y)) →
  wf a → wf b → wf (clib_bitmap_alu f cz a b).
Proof.
  intros Hf Ha Hb. unfold clib_bitmap_alu.
  set (a' := if 0 <? zlen b then _ else a).
  assert (wf a') by (subst a'; case_cond; auto with vpp).
  assert (wf (alu_words f a' b)) by by apply wf_alu_words.
  destruct cz; auto with vpp.
Qed.

Lemma land_closed x y : in_u64 x → in_u64 y → in_u64 (Z.land x y).
Proof. unfold in_u64. intros. apply land_range; lia. Qed.
Lemma lor_closed x y : in_u64 x → in_u64 y → in_u64 (Z.lor x y).
Proof. unfold in_u64. intros. apply lor_range; lia. Qed.
Lemma lxor_closed x y : in_u64 x → in_u64 y → in_u64 (Z.lxor x y).
Proof. unfold in_u64. intros. apply lxor_range; lia. Qed.
Lemma landnot_closed x y : in_u64 x → in_u64 y → in_u64 (Z.land x (not64 y)).
Proof. intros. apply land_closed; [done|apply not64_range]. Qed.
#[local] Hint Resolve land_closed lor_closed lxor_closed landnot_closed not64_range : vpp.

Lemma bit_alu f g cz a b j :
  f 0 0 = 0 →
  (∀ x y n, 0 ≤ n < 64 → Z.testbit (f x y) n = g (Z.testbit x n) (Z.testbit y n)) →
  0 ≤ j → bit (clib_bitmap_alu f cz a b) j = g (bit a j) (bit b j).
Proof.
  intros Hf Hg Hj. unfold bit. rewrite velt_alu by (done || by apply index_pos).
  apply Hg, i1_range.
Qed.

Lemma testbit_landnot x y n :
  0 ≤ n < 64 → Z.testbit (Z.land x (not64 y)) n = Z.testbit x n && negb (Z.testbit y n).
Proof.
  intros Hn. rewrite Z.land_spec, testbit_not64 by lia.
  by replace (n <? 64) with true by (symmetry; apply Z.ltb_lt; lia).
Qed.

(** The ALU operations with one bit. *)
Lemma bit_alui f g cz a i j :
  0 ≤ i →
  (∀ x y n, 0 ≤ n < 64 → Z.testbit (f x y) n = g (Z.testbit x n) (Z.testbit y n)) →
  (∀ x, g x false = x) →
  bit (clib_bitmap_alui f cz a i) j = if j =? i then g (bit a j) true else bit a j.
Proof.
  intros Hi Hg Hid. pose proof (i1_range i). pose proof (i1_range j).
  assert (bit (vset (clib_bitmap_vec_validate a (i / BITS)) (i / BITS)
    (f (velt 0 (clib_bitmap_vec_validate a (i / BITS)) (i / BITS))
       (u64 (Z.shiftl 1 (i `mod` BITS))))) j
    = if j =? i then g (bit a j) true else bit a j) as Hbit.
  { rewrite bit_vset by (apply validate_bound, index_pos; done).
    rewrite Hg, testbit_one_shift by done. rewrite <-(bit_validate a (i / BITS) j).
    destruct (j =? i) eqn:Ej; bool_to_prop.
    - subst. by rewrite !Z.eqb_refl.
    - destruct (j / BITS =? i / BITS) eqn:Ew; bool_to_prop; [|done].
      destruct (j `mod` BITS =? i `mod` BITS) eqn:Em; bool_to_prop.
      + exfalso. apply Ej, index_eq. done.
      + unfold bit. by rewrite Ew, Hid. }
  unfold clib_bitmap_alui. cbv zeta. case_cond; [by rewrite bit_remove_trailing_zeros|done].
Qed.

Lemma wf_alui f cz a i :
  (∀ x y, in_u64 x → in_u64 y → in_u64 (f x y)) → wf a → wf (clib_bitmap_alui f cz a i).
Proof.
  intros Hf Ha. unfold clib_bitmap_alui. cbv zeta.
  assert (wf (vset (clib_bitmap_vec_validate a (i / BITS)) (i / BITS)
    (f (velt 0 (clib_bitmap_vec_validate a (i / BITS)) (i / BITS))
       (u64 (Z.shiftl 1 (i `mod` BITS)))))) by (apply wf_vset; auto with vpp).
  case_cond; [apply wf_take|]; done.
Qed.

Lemma bit_ori a i j : 0 ≤ i → bit (clib_bitmap_ori a i) j = (j =? i) || bit a j.
Proof.
  intros Hi. unfold clib_bitmap_ori. rewrite (bit_alui _ orb).
  - destruct (j =? i), (bit a j); done.
  - done.
  - intros. apply Z.lor_spec.
  - by intros [].
Qed.

Lemma bit_andnoti a i j :
  0 ≤ i → bit (clib_bitmap_andnoti a i) j = negb (j =? i) && bit a j.
Proof.
  intros Hi. unfold clib_bitmap_andnoti. rewrite (bit_alui _ (λ x y, x && negb y)).
  - destruct (j =? i), (bit a j); done.
  - done.
  - intros. by apply testbit_landnot.
  - by intros [].
Qed.

Lemma wf_ori a i : wf a → wf (clib_bitmap_ori a i).
Proof. apply wf_alui. auto with vpp. Qed.
Lemma wf_andnoti a i : wf a → wf (clib_bitmap_andnoti a i).
Proof. apply wf_alui. auto with vpp. Qed.

(** *** Scans *)

Lemma pos_ctz_spec p :
  0 ≤ pos_ctz p ∧ Z.testbit (Zpos p) (pos_ctz p) = true ∧
  ∀ k, 0 ≤ k < pos_ctz p → Z.testbit (Zpos p) k = false.
Proof.
  induction p as [p _|p (H0 & H1 & H2)|]; cbn [pos_ctz].
  - repeat split; [done|..]; lia.
  - split; [lia|]. rewrite Pos2Z.inj_xO. split.
    + replace (1 + pos_ctz p) with (Z.succ (pos_ctz p)) by lia.
      by rewrite Z.testbit_even_succ.
    + intros k Hk. destruct (decide (k = 0)) as [->|]; [apply Z.testbit_even_0|].
      replace k with (Z.succ (k - 1)) by lia. rewrite Z.testbit_even_succ by lia.
      apply H2. lia.
  - repeat split; [done|..]; lia.
Qed.

(** The lowest set bit of a non-zero word. *)
Lemma log2_first_set_spec x :
  0 < x → 0 ≤ log2_first_set x ∧ Z.testbit x (log2_first_set x) = true ∧
  ∀ k, 0 ≤ k < log2_first_set x → Z.testbit x k = false.
Proof. destruct x as [|p|p]; [lia| |lia]. intros _. apply pos_ctz_spec. Qed.

Lemma log2_first_set_lt x : 0 < x → in_u64 x → 0 ≤ log2_first_set x < 64.
Proof.
  intros Hx Hr. destruct (log2_first_set_spec x Hx) as (H0 & H1 & _).
  split; [done|]. destruct (decide (log2_first_set x < 64)) as [|Hge]; [done|].
  by rewrite (testbit_high x 64) in H1 by (unfold in_u64 in Hr; lia).
Qed.

(** [least P lo r]: [r] is the least index at or above [lo] satisfying [P]. *)
Definition least (P : Z → bool) (lo r : Z) : Prop :=
  lo ≤ r ∧ P r = true ∧ ∀ k, lo ≤ k < r → P k = false.

(** Scanning the words from [i0] on.  [f] is the word transformation of the
    scan: the identity for set bits, [not64] for clear ones. *)
Section scan.
Context (f : Z → Z) (f_range : ∀ x, in_u64 x → in_u64 (f x)).

Definition fbit (a : bitmap) (i : Z) : bool := Z.testbit (f (velt 0 a (i / BITS))) (i `mod` BITS).

Lemma least_in_word a w lo x :
  0 < x → in_u64 x → wf a → w * BITS ≤ lo → lo < (w + 1) * BITS →
  (∀ k, 0 ≤ k < 64 → Z.testbit x k = (lo <=? w * BITS + k) && fbit a (w * BITS + k)) →
  least (fbit a) lo (w * BITS + log2_first_set x).
Proof.
  intros Hx Hr Ha Hlo1 Hlo2 Hbits.
  destruct (log2_first_set_spec x Hx) as (H0 & H1 & H2).
  pose proof (log2_first_set_lt x Hx Hr) as H3.
  rewrite Hbits in H1 by lia. bool_to_prop.
  repeat split; [done..|]. intros k Hk. unfold BITS in *.
  specialize (H2 (k - w * 64) ltac:(lia)). rewrite Hbits in H2 by lia.
  replace (w * 64 + (k - w * 64)) with k in H2 by lia.
  replace (lo <=? k) with true in H2 by (symmetry; apply Z.leb_le; lia). done.
Qed.

(** No hit in a word that is zero after the transformation. *)
Lemma no_hit_in_word a w x lo k :
  x = 0 → (∀ k, 0 ≤ k < 64 → Z.testbit x k = (lo <=? w * BITS + k) && fbit a (w * BITS + k)) →
  lo ≤ k → w * BITS ≤ k < (w + 1) * BITS → fbit a k = false.
Proof.
  intros -> Hb Hlo Hk. unfold BITS in *. specialize (Hb (k - w * 64) ltac:(lia)).
  rewrite Z.bits_0 in Hb. replace (w * 64 + (k - w * 64)) with k in Hb by lia.
  replace (lo <=? k) with true in Hb by (symmetry; apply Z.leb_le; lia). done.
Qed.

Fixpoint scan_from (ai : bitmap) (i : Z) : option Z :=
  match ai with
  | [] => None
  | x :: ai =>
      if negb (f x =? 0) then Some (i * BITS + log2_first_set (f x))
      else scan_from ai (i + 1)
  end.

Lemma fbit_word a w k : 0 ≤ k < 64 → fbit a (w * BITS + k) = Z.testbit (f (velt 0 a w)) k.
Proof. intros Hk. unfold fbit. by destruct (index_mk w k Hk) as [-> ->]. Qed.

Lemma scan_from_spec a i0 lo :
  wf a → 0 ≤ i0 → lo = i0 * BITS →
  match scan_from (words_from a i0) i0 with
  | Some r => least (fbit a) lo r ∧ r < zlen a * BITS
  | None => ∀ k, lo ≤ k < zlen a * BITS → fbit a k = false
  end.
Proof.
  intros Ha Hi ->. remember (words_from a i0) as l eqn:Hl. revert i0 Hi Hl.
  induction l as [|x l IH]; intros i0 Hi Hl; cbn [scan_from].
  { intros k Hk. assert (length (words_from a i0) = 0%nat) as Hz by by rewrite <-Hl.
    unfold words_from in Hz. rewrite length_drop in Hz. unfold zlen, BITS in *. lia. }
  assert (vget a i0 = Some x) as Hx.
  { unfold vget. case_cond; [|lia]. unfold words_from in Hl.
    by rewrite <-(Nat.add_0_r (Z.to_nat i0)), <-lookup_drop, <-Hl. }
  assert (l = words_from a (i0 + 1)) as Hl'.
  { unfold words_from in *. replace (Z.to_nat (i0 + 1)) with (Z.to_nat i0 + 1)%nat by lia.
    rewrite <-drop_drop, <-Hl. done. }
  pose proof (vget_Some_range _ _ _ Hx) as Hlt.
  assert (velt 0 a i0 = x) as Hv by (unfold velt; by rewrite Hx).
  assert (∀ k, 0 ≤ k < 64 → Z.testbit (f x) k
    = (i0 * BITS <=? i0 * BITS + k) && fbit a (i0 * BITS + k)) as Hb.
  { intros k Hk. rewrite fbit_word, Hv by done.
    by replace (_ <=? _) with true by (symmetry; apply Z.leb_le; lia). }
  assert (in_u64 (f x)) as Hr by (apply f_range; rewrite <-Hv; auto with vpp).
  destruct (f x =? 0) eqn:E; bool_to_prop; cbn [negb].
  - specialize (IH (i0 + 1) ltac:(lia) Hl').
    destruct (scan_from l (i0 + 1)) as [r|].
    + destruct IH as [(H1 & H2 & H3) H4]. split; [|done].
      split; [unfold BITS in *; lia|]. split; [done|]. intros k Hk.
      destruct (decide (k < (i0 + 1) * BITS)); [|apply H3; lia].
      apply (no_hit_in_word a i0 (f x) (i0 * BITS)); done || lia.
    + intros k Hk. destruct (decide (k < (i0 + 1) * BITS)); [|apply IH; lia].
      apply (no_hit_in_word a i0 (f x) (i0 * BITS)); done || lia.
  - assert (0 < f x) by (unfold in_u64 in Hr; lia). split.
    + apply least_in_word; [done..|unfold BITS; lia|done].
    + pose proof (log2_first_set_lt (f x) ltac:(done) Hr). unfold BITS in *. lia.
Qed.
End scan.

Lemma first_set_from_scan l i :
  first_set_from l i = default u64_max (scan_from (λ x, x) l i).
Proof.
  revert i. induction l as [|x l IH]; intros i; cbn; [done|].
  destruct (x =? 0); cbn; [apply IH|done].
Qed.

Lemma next_clear_from_scan l i : next_clear_from l i = scan_from not64 l i.
Proof.
  revert i. induction l as [|x l IH]; intros i; cbn; [done|].
  destruct (not64 x =? 0); cbn; [apply IH|]. by rewrite Z.add_comm.
Qed.

(** The first word of a scan that starts at bit [i]: the bits below are masked
    off by shifting right and left again. *)
Lemma testbit_from_bit x i1 n :
  0 ≤ i1 < 64 → 0 ≤ n < 64 →
  Z.testbit (u64 (Z.shiftl (Z.shiftr x i1) i1)) n = (i1 <=? n) && Z.testbit x n.
Proof.
  intros Hi Hn. rewrite testbit_u64, Z.shiftl_spec by lia.
  replace (n <? 64) with true by (symmetry; apply Z.ltb_lt; lia). simpl.
  destruct (i1 <=? n) eqn:E; bool_to_prop; simpl.
  - rewrite Z.shiftr_spec by lia. f_equal. lia.
  - apply Z.testbit_neg_r. lia.
Qed.

(** The scans that start inside a bitmap, for either word transformation. *)
Definition next_from (f : Z → Z) (a : bitmap) (i : Z) : option Z :=
  let i0 := i / BITS in
  let i1 := i `mod` BITS in
  if i0 <? zlen a then
    let t := u64 (Z.shiftl (Z.shiftr (f (velt 0 a i0)) i1) i1) in
    if negb (t =? 0) then Some (i0 * BITS + log2_first_set t)
    else scan_from f (words_from a (i0 + 1)) (i0 + 1)
  else None.

Lemma next_from_spec f a i :
  (∀ x, in_u64 x → in_u64 (f x)) → wf a → 0 ≤ i →
  match next_from f a i with
  | Some r => least (fbit f a) i r ∧ r < zlen a * BITS
  | None => ∀ k, i ≤ k < zlen a * BITS → fbit f a k = false
  end.
Proof.
  intros Hf Ha Hi. pose proof (i1_range i) as Hi1. pose proof (index_split i) as His.
  pose proof (index_pos i Hi) as Hi0. unfold next_from.
  destruct (_ <? zlen a) eqn:E; bool_to_prop; [|unfold BITS in *; intros; lia].
  set (t := u64 _).
  assert (∀ k, 0 ≤ k < 64 → Z.testbit t k
    = (i <=? i / BITS * BITS + k) && fbit f a (i / BITS * BITS + k)) as Hb.
  { intros k Hk. subst t. rewrite testbit_from_bit, fbit_word by done. f_equal.
    apply eq_bool_prop_intro. rewrite !Is_true_true, !Z.leb_le. unfold BITS in *. lia. }
  assert (in_u64 t) as Hr by apply u64_range.
  destruct (t =? 0) eqn:Et; bool_to_prop; cbn [negb].
  - pose proof (scan_from_spec f Hf a (i / BITS + 1) _ Ha ltac:(lia) eq_refl) as IH.
    assert (∀ k, i ≤ k < (i / BITS + 1) * BITS → fbit f a k = false) as Hno.
    { intros k Hk. apply (no_hit_in_word f a (i / BITS) t i); [done..|lia|].
      unfold BITS in *. lia. }
    destruct (scan_from f _ _) as [r|].
    + destruct IH as [(H1 & H2 & H3) H4]. split; [|done].
      split; [unfold BITS in *; lia|]. split; [done|]. intros k Hk.
      destruct (decide (k < (i / BITS + 1) * BITS)); [apply Hno|apply H3]; lia.
    + intros k Hk. destruct (decide (k < (i / BITS + 1) * BITS)); [apply Hno|apply IH]; lia.
  - assert (0 < t) as Ht by (unfold in_u64 in Hr; lia).
    pose proof (log2_first_set_lt t Ht Hr). split; [|unfold BITS in *; lia].
    apply least_in_word; [done..|unfold BITS in *; lia|unfold BITS in *; lia|done].
Qed.

Lemma next_set_from a i : clib_bitmap_next_set a i = default u64_max (next_from (λ x, x) a i).
Proof.
  unfold clib_bitmap_next_set, next_from. case_cond; [|done]. cbv zeta.
  case_cond; [by rewrite Z.add_comm|]. apply first_set_from_scan.
Qed.

Lemma next_clear_from_eq a i : clib_bitmap_next_clear a i = default i (next_from not64 a i).
Proof.
  unfold clib_bitmap_next_clear, next_from. case_cond; [|done]. cbv zeta.
  case_cond; [by rewrite Z.add_comm|]. by rewrite next_clear_from_scan.
Qed.

Lemma fbit_not64 a k : fbit not64 a k = negb (bit a k).
Proof.
  unfold fbit, bit. pose proof (i1_range k). rewrite testbit_not64 by lia.
  by replace (_ <? 64) with true by (symmetry; apply Z.ltb_lt; lia).
Qed.

Lemma bit_beyond a k : zlen a * BITS ≤ k → bit a k = false.
Proof.
  intros Hk. unfold bit. rewrite velt_out; [by rewrite Z.bits_0|].
  right. unfold BITS in *. apply Z.div_le_lower_bound; lia.
Qed.

(** *** Bit fields *)

Lemma testbit_mask n k :
  0 ≤ n ≤ 63 → 0 ≤ k → Z.testbit (u64 (Z.shiftl 1 n - 1)) k = (k <? n).
Proof.
  intros Hn Hk. rewrite Z.shiftl_1_l. change (2 ^ n - 1) with (Z.pred (2 ^ n)).
  rewrite <-Z.ones_equiv, testbit_u64. destruct (k <? n) eqn:E; bool_to_prop.
  - rewrite Z.ones_spec_low by lia. by replace (k <? 64) with true by (symmetry; apply Z.ltb_lt; lia).
  - by rewrite Z.ones_spec_high, andb_false_r by lia.
Qed.

Lemma testbit_u64_max k : 0 ≤ k → Z.testbit u64_max k = (k <? 64).
Proof.
  intros Hk. change u64_max with (Z.ones 64). destruct (k <? 64) eqn:E; bool_to_prop.
  - apply Z.ones_spec_low. lia.
  - apply Z.ones_spec_high. lia.
Qed.

Lemma testbit_field_mask n k :
  0 ≤ n ≤ 64 → 0 ≤ k →
  Z.testbit (if n <? BITS then u64 (Z.shiftl 1 n - 1) else u64_max) k = (k <? n).
Proof.
  intros Hn Hk. unfold BITS. case_cond; [by apply testbit_mask; lia|].
  rewrite testbit_u64_max by done. by replace n with 64 by lia.
Qed.

(** The word and the offset in it of the [k]-th bit after bit [i]. *)
Lemma index_add i k :
  0 ≤ i → 0 ≤ k < 64 →
  if decide (i `mod` BITS + k < 64)
  then (i + k) / BITS = i / BITS ∧ (i + k) `mod` BITS = i `mod` BITS + k
  else (i + k) / BITS = i / BITS + 1 ∧ (i + k) `mod` BITS = i `mod` BITS + k - 64.
Proof.
  intros Hi Hk. pose proof (i1_range i). pose proof (index_split i) as Hs.
  case_decide.
  - replace (i + k) with (i / BITS * BITS + (i `mod` BITS + k)) by (unfold BITS in *; lia).
    apply index_mk. lia.
  - replace (i + k) with ((i / BITS + 1) * BITS + (i `mod` BITS + k - 64)) by (unfold BITS in *; lia).
    apply index_mk. lia.
Qed.

Ltac decide_cond :=
  repeat match goal with
  | |- context [?a <? ?b] =>
      first [ replace (a <? b) with true by (symmetry; apply Z.ltb_lt; lia)
            | replace (a <? b) with false by (symmetry; apply Z.ltb_ge; lia) ]
  end.

(** Bits of the field cut out of the first word by [clib_bitmap_get_multiple]. *)
Lemma testbit_first_part (w i1 n k : Z) :
  in_u64 w → 0 ≤ i1 < 64 → 0 ≤ n ≤ 64 → 0 ≤ k →
  Z.testbit (if n <? BITS then Z.land (Z.shiftr w i1) (u64 (Z.shiftl 1 n - 1))
             else Z.shiftr w i1) k
  = (k <? n) && (i1 + k <? 64) && Z.testbit w (i1 + k).
Proof.
  intros Hw Hi Hn Hk.
  assert (Z.testbit (Z.shiftr w i1) k = (i1 + k <? 64) && Z.testbit w (i1 + k)) as Hs.
  { rewrite Z.shiftr_spec, (Z.add_comm k) by done. destruct (i1 + k <? 64) eqn:E; [done|].
    bool_to_prop. by apply (testbit_high _ 64). }
  unfold BITS. case_cond.
  - rewrite Z.land_spec, Hs, testbit_mask by lia. by destruct (k <? n), (i1 + k <? 64), (Z.testbit w (i1 + k)).
  - rewrite Hs. replace n with 64 by lia. destruct (k <? 64) eqn:E; bool_to_prop; [done|].
    by replace (i1 + k <? 64) with false by (symmetry; apply Z.ltb_ge; lia).
Qed.

(** Bits of the part taken from the second word. *)
Lemma testbit_second_part (w i1 n k : Z) :
  0 ≤ i1 < 64 → 0 ≤ n ≤ 64 → 64 < i1 + n → 0 ≤ k →
  Z.testbit (u64 (Z.shiftl (Z.land w (u64 (Z.shiftl 1 (n - (BITS - i1)) - 1))) (BITS - i1))) k
  = (k <? n) && negb (i1 + k <? 64) && Z.testbit w (i1 + k - 64).
Proof.
  intros Hi Hn Hov Hk. unfold BITS. rewrite testbit_u64, Z.shiftl_spec by done.
  destruct (i1 + k <? 64) eqn:E; bool_to_prop; cbn [negb].
  - rewrite Z.testbit_neg_r by lia. by rewrite !andb_false_r.
  - rewrite Z.land_spec, testbit_mask by lia.
    replace (k - (64 - i1) <? n - (64 - i1)) with (k <? n).
    2: { apply eq_bool_prop_intro. rewrite !Is_true_true, !Z.ltb_lt. lia. }
    replace (k - (64 - i1)) with (i1 + k - 64) by lia.
    destruct (k <? n) eqn:E2; bool_to_prop; [|by rewrite !andb_false_r].
    decide_cond. by rewrite !andb_true_r, !andb_true_l.
Qed.

Lemma testbit_get_multiple a i n k :
  wf a → 0 ≤ i → 0 ≤ n ≤ 64 → 0 ≤ k →
  Z.testbit (clib_bitmap_get_multiple a i n) k = (k <? n) && bit a (i + k).
Proof.
  intros Ha Hi Hn Hk. pose proof (i1_range i) as H1.
  assert (∀ w, w < zlen a ∨ velt 0 a w = 0) as Hout.
  { intros w. destruct (decide (w < zlen a)); [by left|right; apply velt_out; lia]. }
  assert (Z.testbit (clib_bitmap_get_multiple a i n) k
    = (k <? n) && (if i `mod` BITS + k <? 64 then Z.testbit (velt 0 a (i / BITS)) (i `mod` BITS + k)
                   else Z.testbit (velt 0 a (i / BITS + 1)) (i `mod` BITS + k - 64))) as ->.
  { unfold clib_bitmap_get_multiple. cbv zeta.
    set (r := if i / BITS <? zlen a then _ else 0).
    assert (Z.testbit r k = (k <? n) && (i `mod` BITS + k <? 64)
              && Z.testbit (velt 0 a (i / BITS)) (i `mod` BITS + k)) as Hr.
    { subst r. case_cond; [by apply testbit_first_part; auto with vpp|].
      destruct (Hout (i / BITS)) as [?| ->]; [lia|]. by rewrite !Z.bits_0, andb_false_r. }
    destruct ((BITS <? _) && _) eqn:Ec; bool_to_prop.
    - rewrite Z.lor_spec, Hr, testbit_second_part by (done || unfold BITS in *; lia).
      destruct (i `mod` BITS + k <? 64), (k <? n); cbn; by rewrite ?orb_false_r.
    - rewrite Hr. destruct (k <? n) eqn:En; [|done]. bool_to_prop.
      destruct (i `mod` BITS + k <? 64) eqn:Ek; [done|]. bool_to_prop.
      assert ((BITS <? i `mod` BITS + n) = true) as Hov
        by (apply Z.ltb_lt; unfold BITS in *; lia).
      rewrite Hov in Ec. simpl in Ec. bool_to_prop.
      destruct (Hout (i / BITS + 1)) as [?| ->]; [lia|]. by rewrite Z.bits_0. }
  destruct (k <? n) eqn:En; [|done]. bool_to_prop. simpl. unfold bit.
  pose proof (index_add i k Hi ltac:(lia)) as Hx. case_decide as Hd.
  - destruct Hx as [-> ->]. by decide_cond.
  - destruct Hx as [-> ->]. by decide_cond.
Qed.

Lemma testbit_word_insert t m v s k :
  0 ≤ k < 64 →
  Z.testbit (Z.lor (Z.land t (not64 (u64 (Z.shiftl m s)))) (u64 (Z.shiftl v s))) k
  = Z.testbit t k && negb (Z.testbit m (k - s)) || Z.testbit v (k - s).
Proof.
  intros Hk. rewrite Z.lor_spec, Z.land_spec, testbit_not64, !testbit_u64, !Z.shiftl_spec by lia.
  by decide_cond.
Qed.

Lemma wf_word_insert t m v s :
  in_u64 t → in_u64 (Z.lor (Z.land t (not64 (u64 (Z.shiftl m s)))) (u64 (Z.shiftl v s))).
Proof. intros Ht. apply lor_closed; [by apply landnot_closed, u64_range|apply u64_range]. Qed.

Section set_multiple.
Context (a : bitmap) (i v n : Z).
Context (Hi : 0 ≤ i) (Hn : 0 ≤ n ≤ 64).

Local Definition mask : Z := if n <? BITS then u64 (Z.shiftl 1 n - 1) else u64_max.
Local Definition i0 : Z := i / BITS.
Local Definition i1 : Z := i `mod` BITS.
Local Definition a1 : bitmap := clib_bitmap_vec_validate a ((i + n) / BITS).
Local Definition a2 : bitmap :=
  vset a1 i0 (Z.lor (Z.land (velt 0 a1 i0) (not64 (u64 (Z.shiftl mask i1))))
                    (u64 (Z.shiftl (Z.land v mask) i1))).

Local Lemma a1_len : i0 < zlen a1 ∧ (64 < i1 + n → i0 + 1 < zlen a1).
Proof using Hi Hn.
  pose proof (i1_range i) as Hr. pose proof (index_split i) as Hs.
  unfold a1, i0, i1, clib_bitmap_vec_validate. rewrite zlen_validate.
  - split; [|intros Hov].
    + assert (i / BITS ≤ (i + n) / BITS) by (apply Z.div_le_mono; unfold BITS; lia). lia.
    + assert (i / BITS + 1 ≤ (i + n) / BITS); [|lia].
      apply Z.div_le_lower_bound; unfold BITS in *; lia.
  - apply Z.div_pos; unfold BITS; lia.
Qed.

Local Lemma testbit_first_word k :
  0 ≤ k < 64 →
  Z.testbit (velt 0 a2 i0) k
  = if (i1 <=? k) && (k <? i1 + n) then Z.testbit v (k - i1) else Z.testbit (velt 0 a i0) k.
Proof using Hi Hn.
  intros Hk. pose proof a1_len as [Hl _]. pose proof (i1_range i) as Hr.
  pose proof (index_pos i Hi) as H0.
  unfold a2. rewrite velt_vset_eq by (unfold i0 in *; lia).
  rewrite testbit_word_insert, Z.land_spec by done.
  unfold a1, clib_bitmap_vec_validate. rewrite velt_validate.
  destruct (i1 <=? k) eqn:E1; bool_to_prop; cbn [andb].
  - unfold mask. rewrite testbit_field_mask by (unfold i1 in *; lia).
    replace (k - i1 <? n) with (k <? i1 + n).
    2: { apply eq_bool_prop_intro. rewrite !Is_true_true, !Z.ltb_lt. lia. }
    destruct (k <? i1 + n); cbn; [by rewrite andb_false_r, andb_true_r|].
    by rewrite andb_true_r, andb_false_r, orb_false_r.
  - rewrite !(Z.testbit_neg_r _ (k - i1)) by lia. simpl.
    by rewrite andb_true_r, orb_false_r.
Qed.

Local Lemma a2_other w : w ≠ i0 → velt 0 a2 w = velt 0 a w.
Proof using.
  intros Hw. unfold a2. rewrite velt_vset_ne by done.
  unfold a1, clib_bitmap_vec_validate. by rewrite velt_validate.
Qed.

(** The value the bitmap has at bit [j] after the operation. *)
Local Definition spec_bit (j : Z) : bool :=
  if (i <=? j) && (j <? i + n) then Z.testbit v (j - i) else bit a j.

Local Lemma spec_bit_first_word j :
  j / BITS = i0 → Z.testbit (velt 0 a2 i0) (j `mod` BITS) = spec_bit j.
Proof using Hi Hn.
  intros He. pose proof (i1_range j). pose proof (index_split i). pose proof (index_split j).
  rewrite testbit_first_word by done. unfold spec_bit.
  assert ((i1 <=? j `mod` BITS) && (j `mod` BITS <? i1 + n) = (i <=? j) && (j <? i + n)) as ->.
  { unfold i0, i1, BITS in *. f_equal;
      apply eq_bool_prop_intro; rewrite !Is_true_true, ?Z.leb_le, ?Z.ltb_lt; lia. }
  replace (j `mod` BITS - i1) with (j - i) by (unfold i0, i1, BITS in *; lia).
  case_cond; [done|]. unfold bit. by rewrite He.
Qed.

Local Lemma spec_bit_other_word j :
  (j / BITS < i0 ∨ i0 + 1 < j / BITS ∨ (j / BITS ≠ i0 ∧ i1 + n ≤ 64)) →
  Z.testbit (velt 0 a2 (j / BITS)) (j `mod` BITS) = spec_bit j.
Proof using Hi Hn.
  intros Hw. pose proof (i1_range i). pose proof (i1_range j).
  pose proof (index_split i). pose proof (index_split j).
  rewrite a2_other by lia. unfold spec_bit.
  assert ((i <=? j) && (j <? i + n) = false) as ->; [|done].
  apply andb_false_iff. rewrite Z.leb_gt, Z.ltb_ge. unfold i0, i1, BITS in *. lia.
Qed.

Local Lemma spec_bit_second_word j :
  64 < i1 + n → j / BITS = i0 + 1 →
  Z.testbit (Z.lor (Z.land (velt 0 a2 (i0 + 1)) (not64 (u64 (Z.shiftl 1 (n - (BITS - i1)) - 1))))
                   (Z.shiftr (Z.land v mask) (BITS - i1))) (j `mod` BITS) = spec_bit j.
Proof using Hi Hn.
  intros Hov Hw. pose proof (i1_range i). pose proof (i1_range j).
  pose proof (index_split i). pose proof (index_split j).
  rewrite Z.lor_spec, Z.land_spec, testbit_not64, testbit_mask, Z.shiftr_spec, Z.land_spec
    by (unfold i1, i0, BITS in *; lia).
  rewrite a2_other by lia. unfold mask.
  rewrite testbit_field_mask by (unfold i1, i0, BITS in *; lia).
  replace (j `mod` BITS + (BITS - i1)) with (j - i) by (unfold i0, i1, BITS in *; lia).
  replace (j - i <? n) with (j <? i + n)
    by (apply eq_bool_prop_intro; rewrite !Is_true_true, !Z.ltb_lt; lia).
  replace (j `mod` BITS <? n - (BITS - i1)) with (j <? i + n)
    by (apply eq_bool_prop_intro; rewrite !Is_true_true, !Z.ltb_lt; unfold i0, i1, BITS in *; lia).
  unfold spec_bit, bit. rewrite Hw.
  replace (i <=? j) with true by (symmetry; apply Z.leb_le; unfold i0, i1, BITS in *; lia).
  replace (j `mod` BITS <? 64) with true by (symmetry; apply Z.ltb_lt; lia).
  destruct (j <? i + n), (Z.testbit v (j - i)), (Z.testbit (velt 0 a (i0 + 1)) (j `mod` BITS)); done.
Qed.

Lemma bit_set_multiple j : bit (clib_bitmap_set_multiple a i v n) j = spec_bit j.
Proof using Hi Hn.
  pose proof a1_len as [Hl1 Hl2]. pose proof (i1_range i) as Hr.
  unfold clib_bitmap_set_multiple. cbv zeta.
  change (if n <? BITS then _ else u64_max) with mask.
  change (clib_bitmap_vec_validate a ((i + n) / BITS)) with a1.
  change (i / BITS) with i0. change (i `mod` BITS) with i1.
  fold a2. unfold bit.
  assert (zlen a2 = zlen a1) as Hz by apply zlen_vset. rewrite <-Hz in Hl1, Hl2 |- *.
  assert (0 ≤ i0) by by apply index_pos.
  destruct ((BITS <? _) && _) eqn:Ec.
  - apply andb_true_iff in Ec as [Ec1 Ec2]. bool_to_prop.
    destruct (decide (j / BITS = i0 + 1)) as [Hw|Hw].
    + rewrite Hw, velt_vset_eq by lia. by apply spec_bit_second_word.
    + rewrite velt_vset_ne by done. destruct (decide (j / BITS = i0)) as [He|He].
      * rewrite He. by apply spec_bit_first_word.
      * apply spec_bit_other_word. lia.
  - destruct (decide (j / BITS = i0)) as [He|He].
    + rewrite He. by apply spec_bit_first_word.
    + apply spec_bit_other_word. right. right. split; [done|].
      destruct (decide (64 < i1 + n)) as [Hov|]; [|lia]. specialize (Hl2 Hov).
      apply andb_false_iff in Ec. rewrite !Z.ltb_ge in Ec. unfold BITS in *. lia.
Qed.
End set_multiple.

Lemma wf_set_multiple a i v n :
  in_u64 v → wf a → wf (clib_bitmap_set_multiple a i v n).
Proof.
  intros Hv Ha. unfold clib_bitmap_set_multiple. cbv zeta.
  set (m := if n <? BITS then _ else _). set (a' := clib_bitmap_vec_validate _ _).
  assert (wf a') as Ha' by by apply wf_validate.
  set (b := vset a' _ _).
  assert (wf b) as Hb by (apply wf_vset; [done|apply wf_word_insert; auto with vpp]).
  case_cond; [|done]. apply wf_vset; [done|]. apply lor_closed.
  - apply landnot_closed; [auto with vpp|apply u64_range].
  - apply shiftr_range; [pose proof (i1_range i); unfold BITS in *; lia|].
    apply land_closed; [done|]. subst m. case_cond; [apply u64_range|].
    unfold in_u64, u64_max. lia.
Qed.

(** *** Iteration *)

Lemma land_opp_pos p : Z.land (Zpos p) (- Zpos p) = 2 ^ pos_ctz p.
Proof.
  induction p as [p _|p IH|]; cbn [pos_ctz]; [..|done].
  - apply Z.bits_inj'. intros k Hk. rewrite testbit_pow2, Z.land_spec by done.
    replace (- Zpos p~1) with (2 * Z.lnot (Zpos p) + 1)
      by (pose proof (Z.add_lnot_diag (Zpos p)); lia).
    replace (Zpos p~1) with (2 * Zpos p + 1) by lia.
    destruct (decide (k = 0)) as [->|Hne]; [by rewrite !Z.testbit_odd_0|].
    replace k with (Z.succ (Z.pred k)) by lia. rewrite !Z.testbit_odd_succ, Z.lnot_spec by lia.
    rewrite andb_negb_r. symmetry. apply Z.eqb_neq. lia.
  - pose proof (proj1 (pos_ctz_spec p)).
    rewrite Z.pow_add_r, <-IH by lia. change (2 ^ 1) with 2.
    replace (- Zpos p~0) with (2 * - Zpos p) by lia. replace (Zpos p~0) with (2 * Zpos p) by lia.
    apply Z.bits_inj'. intros k Hk. rewrite Z.land_spec.
    destruct (decide (k = 0)) as [->|Hne]; [by rewrite !Z.testbit_even_0|].
    replace k with (Z.succ (Z.pred k)) by lia. by rewrite !Z.testbit_even_succ, Z.land_spec by lia.
Qed.

Lemma first_set_pow2 x : 0 < x → in_u64 x → first_set x = 2 ^ log2_first_set x.
Proof.
  intros Hx Hr. destruct x as [|p|]; [lia| |lia]. cbn [log2_first_set].
  rewrite <-land_opp_pos. unfold first_set. apply Z.bits_inj'. intros k Hk.
  rewrite !Z.land_spec, testbit_u64. destruct (k <? 64) eqn:E; bool_to_prop; [done|].
  by rewrite (testbit_high (Zpos p) 64) by done.
Qed.

Lemma min_log2_pow2 n : 0 ≤ n → min_log2 (2 ^ n) = n.
Proof.
  intros Hn. unfold min_log2, count_leading_zeros, BITS. rewrite Z.log2_pow2 by done. lia.
Qed.

Definition set_in_word (x : Z) (k : Z) : Prop := Z.testbit x k = true.
#[export] Instance set_in_word_dec x k : Decision (set_in_word x k).
Proof. unfold set_in_word. apply _. Defined.

Definition set_in (a : bitmap) (k : Z) : Prop := bit a k = true.
#[export] Instance set_in_dec a k : Decision (set_in a k).
Proof. unfold set_in. apply _. Defined.

(** Positions of the set bits of a word, from [p] on. *)
Lemma foreach_word_spec fuel base x p :
  in_u64 x → 0 ≤ p → (∀ k, 0 ≤ k < p → Z.testbit x k = false) → 64 - p ≤ Z.of_nat fuel →
  foreach_word fuel base x = (λ k, base + k) <$> filter (set_in_word x) (zrange p 64).
Proof.
  revert x p. induction fuel as [|fuel IH]; intros x p Hx Hp Hlow Hf; cbn [foreach_word].
  { by rewrite zrange_nil by lia. }
  destruct (x =? 0) eqn:E; bool_to_prop.
  { subst. rewrite (filter_zrange_skip _ p (p `max` 64) 64); [by rewrite zrange_nil by lia|..|lia].
    intros k _. unfold set_in_word. by rewrite Z.bits_0. }
  assert (0 < x) as Hpos by (unfold in_u64 in Hx; lia).
  destruct (log2_first_set_spec x Hpos) as (H0 & H1 & H2).
  pose proof (log2_first_set_lt x Hpos Hx) as H3.
  set (c := log2_first_set x) in *.
  assert (p ≤ c) as Hpc.
  { destruct (decide (p ≤ c)) as [|Hgt]; [done|]. rewrite Hlow in H1 by lia. done. }
  rewrite first_set_pow2 by done. fold c. rewrite min_log2_pow2 by done.
  rewrite (filter_zrange_skip _ p c) by (done || (intros; unfold set_in_word; rewrite H2 by lia; done)).
  rewrite zrange_cons, filter_cons_True, fmap_cons by (done || lia). f_equal.
  assert (∀ k, 0 ≤ k → Z.testbit (Z.lxor x (2 ^ c)) k = Z.testbit x k && negb (k =? c)) as Hbits.
  { intros k Hk. rewrite Z.lxor_spec, testbit_pow2 by done.
    destruct (k =? c) eqn:Ek; bool_to_prop; [subst; by rewrite H1|].
    by rewrite xorb_false_r, andb_true_r. }
  rewrite (IH _ (c + 1)).
  - f_equal. apply filter_zrange_ext. intros k Hk. unfold set_in_word. rewrite Hbits by lia.
    replace (k =? c) with false by (symmetry; apply Z.eqb_neq; lia). by rewrite andb_true_r.
  - apply lxor_range; [lia|done|]. split; [lia|]. apply Z.pow_lt_mono_r; lia.
  - lia.
  - intros k Hk. rewrite Hbits by lia. destruct (decide (k = c)) as [->|].
    + by rewrite Z.eqb_refl, andb_false_r.
    + by rewrite H2 by lia.
  - lia.
Qed.

Lemma foreach_from_spec l b w :
  wf b → 0 ≤ w → l = words_from b w →
  foreach_from l w = filter (set_in b) (zrange (w * BITS) (zlen b `max` w * BITS)).
Proof.
  intros Hb. revert w. induction l as [|x l IH]; intros w Hw Hl; cbn [foreach_from].
  { assert (length (words_from b w) = 0%nat) as Hz by by rewrite <-Hl.
    unfold words_from in Hz. rewrite length_drop in Hz.
    rewrite zrange_nil; [done|]. unfold zlen, BITS. lia. }
  assert (vget b w = Some x) as Hx.
  { unfold vget. case_cond; [|lia]. unfold words_from in Hl.
    by rewrite <-(Nat.add_0_r (Z.to_nat w)), <-lookup_drop, <-Hl. }
  pose proof (vget_Some_range _ _ _ Hx) as Hlt.
  assert (velt 0 b w = x) as Hv by (unfold velt; by rewrite Hx).
  rewrite IH; [|lia|].
  2: { unfold words_from in *. replace (Z.to_nat (w + 1)) with (Z.to_nat w + 1)%nat by lia.
       by rewrite <-drop_drop, <-Hl. }
  rewrite (zrange_app (w * BITS) ((w + 1) * BITS)), list.filter_app by (unfold BITS; lia).
  f_equal; [|do 2 f_equal; unfold BITS; lia].
  rewrite (foreach_word_spec 64 _ _ 0) by (lia || (rewrite <-Hv; auto with vpp)).
  pose proof (filter_shift (set_in b) (set_in_word x) (w * BITS) 0 64) as Hs.
  rewrite Z.add_0_r in Hs. replace (w * BITS + 64) with ((w + 1) * BITS) in Hs by (unfold BITS; lia).
  symmetry. apply Hs. intros k Hk. unfold set_in, set_in_word, bit.
  destruct (index_mk w k Hk) as [-> ->]. by rewrite Hv.
Qed.

Lemma first_set_next_set a : wf a → clib_bitmap_first_set a = clib_bitmap_next_set a 0.
Proof.
  intros Ha. unfold clib_bitmap_first_set, clib_bitmap_next_set.
  change (0 / BITS) with 0. change (0 `mod` BITS) with 0.
  destruct a as [|x a]; [done|]. pose proof (wf_velt _ 0 Ha) as Hx. rewrite velt_cons_0 in *.
  rewrite Z.shiftr_0_r, Z.shiftl_0_r, u64_small by done.
  cbn [first_set_from]. replace (0 <? zlen (x :: a)) with true
    by (symmetry; apply Z.ltb_lt; unfold zlen; cbn [length]; lia).
  case_cond; [by rewrite Z.add_comm|done].
Qed.

(** ** Properties *)

(** [clib_bitmap_set] writes exactly the bit it is given: reading bit [j]
    afterwards returns the new value at the written position and the old value
    everywhere else, also when the write grows the vector or when trailing zero
    words are dropped; every word stays a 64-bit value. *)
Theorem clib_bitmap_set_get a i v j :
  wf a → 0 ≤ i →
  wf (clib_bitmap_set a i v) ∧
  clib_bitmap_get (clib_bitmap_set a i v) j
  = if j =? i then negb (v =? 0) else clib_bitmap_get a j.
Proof. intros Ha Hi. rewrite !get_bit. split; [by apply wf_set|by apply bit_set]. Qed.

Lemma clib_bitmap_set_get_witness :
  clib_bitmap_get (clib_bitmap_set [0; 0xff] 200 1) 200 = true ∧
  clib_bitmap_get (clib_bitmap_set [0; 0xff] 200 1) 65 = true.
Proof.
  assert (wf [0; 0xff]) as H by (repeat constructor; unfold in_u64; lia).
  split.
  - destruct (clib_bitmap_set_get [0; 0xff] 200 1 200 H ltac:(lia)) as [_ ->]. reflexivity.
  - destruct (clib_bitmap_set_get [0; 0xff] 200 1 65 H ltac:(lia)) as [_ ->]. reflexivity.
Defined.

(** the bitmap ALU functions [and], [andnot], [or] and [xor] compute the
    boolean operation on every bit position, whatever the lengths of the two
    operands and although [and] and [andnot] drop trailing zero words. *)
Theorem clib_bitmap_alu_bits a b j :
  wf a → wf b → 0 ≤ j →
  clib_bitmap_get (clib_bitmap_and a b) j = clib_bitmap_get a j && clib_bitmap_get b j ∧
  clib_bitmap_get (clib_bitmap_andnot a b) j = clib_bitmap_get a j && negb (clib_bitmap_get b j) ∧
  clib_bitmap_get (clib_bitmap_or a b) j = clib_bitmap_get a j || clib_bitmap_get b j ∧
  clib_bitmap_get (clib_bitmap_xor a b) j = xorb (clib_bitmap_get a j) (clib_bitmap_get b j) ∧
  wf (clib_bitmap_and a b) ∧ wf (clib_bitmap_andnot a b) ∧
  wf (clib_bitmap_or a b) ∧ wf (clib_bitmap_xor a b).
Proof.
  intros Ha Hb Hj. rewrite !get_bit. repeat split.
  - apply bit_alu; [done|intros; apply Z.land_spec|done].
  - apply (bit_alu _ (λ x y, x && negb y)); [done|intros; by apply testbit_landnot|done].
  - apply bit_alu; [done|intros; apply Z.lor_spec|done].
  - apply bit_alu; [done|intros; apply Z.lxor_spec|done].
  - apply wf_alu; auto with vpp.
  - apply wf_alu; auto with vpp.
  - apply wf_alu; auto with vpp.
  - apply wf_alu; auto using lxor_closed.
Qed.

Lemma clib_bitmap_alu_bits_witness :
  clib_bitmap_get (clib_bitmap_andnot [0xf0; 1] [0x30]) 64 = true ∧
  clib_bitmap_and [0xf0; 1] [0x30] = [0x30].
Proof.
  assert (wf [0xf0; 1]) as Ha by (repeat constructor; unfold in_u64; lia).
  assert (wf [0x30]) as Hb by (repeat constructor; unfold in_u64; lia).
  split; [|vm_compute; reflexivity].
  destruct (clib_bitmap_alu_bits _ _ 64 Ha Hb ltac:(lia)) as (_ & -> & _). reflexivity.
Defined.

(** a field of at most 64 bits written by [clib_bitmap_set_multiple] is read
    back by [clib_bitmap_get_multiple] (truncated to its width), also across a
    word boundary, and no bit outside the field changes. *)
Theorem clib_bitmap_multiple_roundtrip a i v n :
  wf a → 0 ≤ i → 0 ≤ n ≤ 64 → in_u64 v →
  wf (clib_bitmap_set_multiple a i v n) ∧
  clib_bitmap_get_multiple (clib_bitmap_set_multiple a i v n) i n = v `mod` 2 ^ n ∧
  ∀ j, ¬ (i ≤ j < i + n) →
    clib_bitmap_get (clib_bitmap_set_multiple a i v n) j = clib_bitmap_get a j.
Proof.
  intros Ha Hi Hn Hv. assert (wf (clib_bitmap_set_multiple a i v n)) as Hw by by apply wf_set_multiple.
  split; [done|]. split.
  - apply Z.bits_inj'. intros k Hk.
    rewrite testbit_get_multiple, testbit_mod_pow2, bit_set_multiple by (done || lia).
    unfold spec_bit. destruct (k <? n) eqn:E; bool_to_prop; [|done].
    replace (i <=? i + k) with true by (symmetry; apply Z.leb_le; lia).
    replace (i + k <? i + n) with true by (symmetry; apply Z.ltb_lt; lia).
    simpl. f_equal. lia.
  - intros j Hj. rewrite !get_bit, bit_set_multiple by done. unfold spec_bit.
    destruct (i <=? j) eqn:E1, (j <? i + n) eqn:E2; bool_to_prop; [lia|done..].
Qed.

Lemma clib_bitmap_multiple_roundtrip_witness :
  clib_bitmap_get_multiple (clib_bitmap_set_multiple [5] 60 0x1ab 9) 60 9 = 0x1ab.
Proof.
  assert (wf [5]) as Ha by (repeat constructor; unfold in_u64; lia).
  destruct (clib_bitmap_multiple_roundtrip [5] 60 0x1ab 9 Ha ltac:(lia) ltac:(lia)
    ltac:(unfold in_u64; lia)) as (_ & -> & _). reflexivity.
Defined.

(** [clib_bitmap_next_set] returns the least set bit at or after [i], and
    [~0] exactly when there is none; [clib_bitmap_first_set] is the scan from
    bit 0. *)
Theorem clib_bitmap_next_set_least a i :
  wf a → zlen a < 2 ^ 58 → 0 ≤ i →
  let r := clib_bitmap_next_set a i in
  (r ≠ u64_max → least (clib_bitmap_get a) i r) ∧
  (r = u64_max ↔ ∀ k, i ≤ k → clib_bitmap_get a k = false) ∧
  clib_bitmap_first_set a = clib_bitmap_next_set a 0.
Proof.
  intros Ha Hl Hi. cbv zeta. rewrite next_set_from.
  pose proof (next_from_spec (λ x, x) a i (λ x H, H) Ha Hi) as Hs.
  assert (∀ k, fbit (λ x, x) a k = clib_bitmap_get a k) as Hf by (intros; by rewrite get_bit).
  destruct (next_from _ a i) as [r|]; simpl; (split; [|split]).
  - intros _. destruct Hs as [(H1 & H2 & H3) _]. rewrite Hf in H2.
    split; [done|]. split; [done|]. intros k Hk. rewrite <-Hf. by apply H3.
  - destruct Hs as [(H1 & H2 & H3) H4]. unfold BITS, u64_max in *. split; [lia|].
    intros Hno. rewrite Hf, Hno in H2 by done. done.
  - by apply first_set_next_set.
  - done.
  - split; [|done]. intros _ k Hk. rewrite <-Hf.
    destruct (decide (k < zlen a * BITS)); [apply Hs; lia|].
    rewrite Hf, get_bit. apply bit_beyond. lia.
  - by apply first_set_next_set.
Qed.

Lemma clib_bitmap_next_set_least_witness :
  least (clib_bitmap_get [1; 0; 0x100]) 1 136.
Proof.
  assert (wf [1; 0; 0x100]) as Ha by (repeat constructor; unfold in_u64; lia).
  destruct (clib_bitmap_next_set_least [1; 0; 0x100] 1 Ha ltac:(vm_compute; reflexivity)
    ltac:(lia)) as [H _].
  exact (H ltac:(vm_compute; discriminate)).
Defined.

(** [clib_bitmap_next_clear] returns the least clear bit at or after [i]
    whenever the bitmap has a clear bit there or [i] lies beyond its end. *)
Theorem clib_bitmap_next_clear_least a i :
  wf a → 0 ≤ i →
  (∃ k, i ≤ k < zlen a * BITS ∧ clib_bitmap_get a k = false) ∨ zlen a * BITS ≤ i →
  least (λ k, negb (clib_bitmap_get a k)) i (clib_bitmap_next_clear a i).
Proof.
  intros Ha Hi Hex. rewrite next_clear_from_eq.
  pose proof (next_from_spec not64 a i (λ x _, not64_range x) Ha Hi) as Hs.
  assert (∀ k, fbit not64 a k = negb (clib_bitmap_get a k)) as Hf
    by (intros; by rewrite fbit_not64, get_bit).
  destruct (next_from _ a i) as [r|]; simpl.
  - destruct Hs as [(H1 & H2 & H3) _]. rewrite Hf in H2.
    split; [done|]. split; [done|]. intros k Hk. rewrite <-Hf. by apply H3.
  - destruct Hex as [(k & Hk & Hc)|Hend].
    + specialize (Hs k Hk). rewrite Hf, Hc in Hs. done.
    + split; [lia|]. split; [by rewrite get_bit, bit_beyond|]. lia.
Qed.

Lemma clib_bitmap_next_clear_least_witness :
  least (λ k, negb (clib_bitmap_get [u64_max; 7] k)) 10 67.
Proof.
  assert (wf [u64_max; 7]) as Ha by (repeat constructor; unfold in_u64, u64_max; lia).
  refine (clib_bitmap_next_clear_least [u64_max; 7] 10 Ha ltac:(lia) (or_introl _)).
  exists 67. vm_compute. split; [split; congruence|reflexivity].
Defined.

(** When all bits from [i] to the end are set, [clib_bitmap_next_clear] answers
    [i] itself, a set bit, and not the first position beyond the bitmap. *)
Lemma clib_bitmap_next_clear_full a i :
  wf a → 0 ≤ i < zlen a * BITS → (∀ k, i ≤ k < zlen a * BITS → clib_bitmap_get a k = true) →
  clib_bitmap_next_clear a i = i ∧ clib_bitmap_get a (clib_bitmap_next_clear a i) = true.
Proof.
  intros Ha Hi Hall. rewrite next_clear_from_eq.
  pose proof (next_from_spec not64 a i (λ x _, not64_range x) Ha ltac:(lia)) as Hs.
  destruct (next_from _ a i) as [r|]; simpl; [|split; [done|apply Hall; lia]].
  exfalso. destruct Hs as [(H1 & H2 & _) H4]. rewrite fbit_not64, <-get_bit, Hall in H2 by lia. done.
Qed.

(** [clib_bitmap_foreach] hands the body exactly the set bits of the bitmap,
    each once, in increasing order. *)
Theorem clib_bitmap_foreach_set_bits a :
  wf a →
  clib_bitmap_foreach a
  = filter (λ i, clib_bitmap_get a i = true) (zrange 0 (zlen a * BITS)).
Proof.
  intros Ha. unfold clib_bitmap_foreach. rewrite (foreach_from_spec a a 0) by done.
  rewrite Z.max_l by apply zlen_nonneg. apply filter_zrange_ext.
  intros k _. unfold set_in. by rewrite get_bit.
Qed.

Lemma clib_bitmap_foreach_set_bits_witness :
  clib_bitmap_foreach [0x8000000000000005; 0; 2] = [0; 2; 63; 129].
Proof.
  assert (wf [0x8000000000000005; 0; 2]) as Ha by (repeat constructor; unfold in_u64; lia).
  rewrite (clib_bitmap_foreach_set_bits _ Ha). vm_compute. reflexivity.
Defined.

End ClibBitmap.
