(* ===== verification/Popcount.v ===== *)
(** * The population count of vppinfra/bitops.h

    [count_set_bits] adds bits in parallel inside one 64-bit word.  The file
    proves that it returns the number of set bits of the word: each masking
    stage works on the bytes of the word independently, and the last three
    additions sum the eight byte counts. *)

From S2P Require Import Prelude Bitmap.

Module Popcount.
Import ClibBitmap.

(** Number of set bits among the low [n] bits of [x]. *)
Definition n_bits_set (x n : Z) : Z := Z.of_nat (length (filter (set_in_word x) (zrange 0 n))).

(** The three masking stages on one byte. *)
Definition stage1 (m x : Z) : Z := x - Z.land (Z.shiftr x 1) m.
Definition stage2 (m x : Z) : Z := Z.land x m + Z.land (Z.shiftr x 2) m.
Definition stage3 (m x : Z) : Z := Z.land (x + Z.shiftr x 4) m.

(** The byte [c] repeated [n] times. *)
Fixpoint rep (n : nat) (c : Z) : Z :=
  match n with
  | O => 0
  | S n => c + 256 * rep n c
  end.

(** The number with the byte counts of the [n] low bytes of [x] as digits, and
    their sum. *)
Fixpoint byte_counts (n : nat) (x : Z) : Z :=
  match n with
  | O => 0
  | S n => n_bits_set (x `mod` 256) 8 + 256 * byte_counts n (x / 256)
  end.

Fixpoint byte_sum (n : nat) (x : Z) : Z :=
  match n with
  | O => 0
  | S n => n_bits_set (x `mod` 256) 8 + byte_sum n (x / 256)
  end.

(** Checking a property of all bytes by computation. *)
Lemma byte_forall (P : Z → bool) :
  forallb P (zrange 0 256) = true → ∀ b, 0 ≤ b < 256 → P b = true.
Proof.
  intros H b Hb. rewrite forallb_forall in H. apply H.
  apply list_elem_of_In, elem_of_zrange. done.
Qed.

Lemma land_split lo hi m M :
  0 ≤ lo < 256 → 0 ≤ m < 256 →
  Z.land (lo + 256 * hi) (m + 256 * M) = Z.land lo m + 256 * Z.land hi M.
Proof.
  intros Hlo Hm. rewrite (Z.div_mod (Z.land (lo + 256 * hi) (m + 256 * M)) 256) by lia.
  rewrite Z.add_comm. change 256 with (2 ^ 8) at 1 4.
  rewrite <-(Z.land_ones _ 8), <-(Z.shiftr_div_pow2 _ 8), Z.shiftr_land by lia.
  assert (∀ a b, 0 ≤ a < 256 → Z.land (a + 256 * b) (Z.ones 8) = a) as Hmod.
  { intros a b Ha. rewrite Z.land_ones by lia. change (2 ^ 8) with 256.
    symmetry. apply Z.mod_unique with b; lia. }
  assert (∀ a b, 0 ≤ a < 256 → Z.shiftr (a + 256 * b) 8 = b) as Hdiv.
  { intros a b Ha. rewrite Z.shiftr_div_pow2 by lia. change (2 ^ 8) with 256.
    symmetry. apply Z.div_unique with a; lia. }
  rewrite !Hdiv by done. change (2 ^ 8) with 256. f_equal.
  rewrite <-(Z.land_diag (Z.ones 8)), Z.land_assoc.
  rewrite <-(Z.land_assoc (lo + 256 * hi)), (Z.land_comm (m + 256 * M)), Z.land_assoc.
  rewrite <-Z.land_assoc, !Hmod by done. done.
Qed.

Lemma land_byte_range a m : 0 ≤ a → 0 ≤ m < 256 → 0 ≤ Z.land a m < 256.
Proof.
  intros Ha Hm. rewrite Z.land_comm. change 256 with (2 ^ 8). by apply land_range.
Qed.

Lemma shiftr_split k lo hi :
  0 ≤ k ≤ 8 → 0 ≤ lo < 256 → 0 ≤ hi →
  Z.shiftr (lo + 256 * hi) k
  = (lo / 2 ^ k + 2 ^ (8 - k) * (hi `mod` 2 ^ k)) + 256 * (hi / 2 ^ k).
Proof.
  intros Hk Hlo Hhi. rewrite Z.shiftr_div_pow2 by lia.
  assert (0 < 2 ^ k) by (apply Z.pow_pos_nonneg; lia).
  assert (256 = 2 ^ (8 - k) * 2 ^ k) as H256.
  { rewrite <-Z.pow_add_r by lia. by replace (8 - k + k) with 8 by lia. }
  set (P := 2 ^ (8 - k)) in *. set (Q := 2 ^ k) in *.
  replace (lo + 256 * hi) with (lo + (P * hi) * Q) by nia.
  rewrite Z.div_add by lia. rewrite (Z.div_mod hi Q) at 1 by lia. rewrite H256. ring.
Qed.

Lemma stage1_split lo hi m M :
  0 ≤ lo < 256 → 0 ≤ hi → m = 0x55 →
  stage1 (m + 256 * M) (lo + 256 * hi) = stage1 m lo + 256 * stage1 M hi.
Proof.
  intros Hlo Hhi ->. unfold stage1. rewrite shiftr_split by lia.
  assert (0 ≤ hi `mod` 2 ^ 1 < 2 ^ 1) as Hm by (apply Z.mod_pos_bound; lia).
  assert (0 ≤ lo / 2 ^ 1 < 128) by (split; [apply Z.div_pos|apply Z.div_lt_upper_bound]; lia).
  rewrite land_split by lia. rewrite <-!Z.shiftr_div_pow2 by lia.
  assert (Z.land (Z.shiftr lo 1 + 2 ^ (8 - 1) * hi `mod` 2 ^ 1) 0x55 = Z.land (Z.shiftr lo 1) 0x55)
    as ->; [|lia].
  pose proof (byte_forall (λ b, (Z.land (Z.shiftr b 1 + 128) 0x55 =? Z.land (Z.shiftr b 1) 0x55))
    ltac:(vm_compute; reflexivity) lo Hlo) as Hb. apply Z.eqb_eq in Hb.
  change (2 ^ (8 - 1)) with 128. destruct (decide (hi `mod` 2 ^ 1 = 0)) as [->|].
  - by rewrite Z.mul_0_r, Z.add_0_r.
  - replace (hi `mod` 2 ^ 1) with 1 by lia. by rewrite Z.mul_1_r.
Qed.

Lemma stage2_split lo hi m M :
  0 ≤ lo < 256 → 0 ≤ hi → m = 0x33 →
  stage2 (m + 256 * M) (lo + 256 * hi) = stage2 m lo + 256 * stage2 M hi.
Proof.
  intros Hlo Hhi ->. unfold stage2. rewrite shiftr_split by lia.
  assert (0 ≤ hi `mod` 2 ^ 2 < 2 ^ 2) as Hm by (apply Z.mod_pos_bound; lia).
  assert (0 ≤ lo / 2 ^ 2 < 64) by (split; [apply Z.div_pos|apply Z.div_lt_upper_bound]; lia).
  rewrite !land_split by lia. rewrite <-!Z.shiftr_div_pow2 by lia.
  assert (Z.land (Z.shiftr lo 2 + 2 ^ (8 - 2) * hi `mod` 2 ^ 2) 0x33 = Z.land (Z.shiftr lo 2) 0x33)
    as ->; [|lia].
  pose proof (byte_forall (λ b, forallb (λ c, Z.land (Z.shiftr b 2 + 64 * c) 0x33
    =? Z.land (Z.shiftr b 2) 0x33) (zrange 0 4)) ltac:(vm_compute; reflexivity) lo Hlo) as Hb.
  rewrite forallb_forall in Hb. apply Z.eqb_eq, Hb.
  apply list_elem_of_In, elem_of_zrange. done.
Qed.

(** The byte values stage 2 produces: both nibbles at most 4. *)
Definition nibbles4 (a : Z) : bool := (a `mod` 16 <=? 4) && (a / 16 <=? 4) && (0 <=? a).

Lemma stage3_split a h m M :
  nibbles4 a = true → 0 ≤ h → h `mod` 16 ≤ 4 → m = 0x0f →
  stage3 (m + 256 * M) (a + 256 * h) = stage3 m a + 256 * stage3 M h.
Proof.
  intros Ha Hh Hh4 ->. unfold stage3. unfold nibbles4 in Ha. bool_to_prop.
  pose proof (Z.div_mod a 16 ltac:(lia)) as Hd.
  pose proof (Z.mod_pos_bound a 16 ltac:(lia)). pose proof (Z.mod_pos_bound h 16 ltac:(lia)).
  rewrite shiftr_split by lia. change (2 ^ 4) with 16. change (2 ^ (8 - 4)) with 16.
  replace (a + 256 * h + (a / 16 + 16 * (h `mod` 16) + 256 * (h / 16)))
    with ((a + a / 16 + 16 * (h `mod` 16)) + 256 * (h + h / 16)) by lia.
  rewrite land_split by lia. rewrite !Z.shiftr_div_pow2 by lia. change (2 ^ 4) with 16. f_equal.
  change 0x0f with (Z.ones 4). rewrite !Z.land_ones by lia. change (2 ^ 4) with 16.
  by rewrite Z.mul_comm, Z_mod_plus_full.
Qed.

Lemma stage12_byte b :
  0 ≤ b < 256 →
  0 ≤ stage1 0x55 b < 256 ∧ nibbles4 (stage2 0x33 (stage1 0x55 b)) = true ∧
  stage3 0x0f (stage2 0x33 (stage1 0x55 b)) = n_bits_set b 8.
Proof.
  intros Hb.
  pose proof (byte_forall (λ b, (0 <=? stage1 0x55 b) && (stage1 0x55 b <? 256)
    && nibbles4 (stage2 0x33 (stage1 0x55 b))
    && (stage3 0x0f (stage2 0x33 (stage1 0x55 b)) =? n_bits_set b 8))
    ltac:(vm_compute; reflexivity) b Hb) as H. cbv beta in H. bool_to_prop. done.
Qed.

Lemma div_256_range n x : 0 ≤ x < 256 ^ Z.of_nat (S n) → 0 ≤ x / 256 < 256 ^ Z.of_nat n.
Proof.
  intros Hx. rewrite Nat2Z.inj_succ, Z.pow_succ_r in Hx by lia.
  split; [apply Z.div_pos|apply Z.div_lt_upper_bound]; lia.
Qed.

(** The stages on an [n]-byte word, byte by byte. *)
Lemma stages_bytes n x :
  0 ≤ x < 256 ^ Z.of_nat n →
  let y1 := stage1 (rep n 0x55) x in
  let y2 := stage2 (rep n 0x33) y1 in
  0 ≤ y1 < 256 ^ Z.of_nat n ∧ 0 ≤ y2 < 256 ^ Z.of_nat n ∧ y2 `mod` 16 ≤ 4 ∧
  0 ≤ y2 + Z.shiftr y2 4 < 256 ^ Z.of_nat n ∧
  stage3 (rep n 0x0f) y2 = byte_counts n x.
Proof.
  revert x. induction n as [|n IH]; intros x Hx.
  { change (256 ^ Z.of_nat 0) with 1 in *. replace x with 0 by lia. repeat split; vm_compute; congruence. }
  pose proof (div_256_range n x Hx) as Hh.
  pose proof (Z.mod_pos_bound x 256 ltac:(lia)) as Hl.
  specialize (IH _ Hh). cbv zeta in IH |- *.
  set (hi := x / 256) in *. set (lo := x `mod` 256) in *.
  assert (x = lo + 256 * hi) as Hxe by (unfold lo, hi; pose proof (Z.div_mod x 256); lia).
  cbn [rep byte_counts]. fold hi lo. rewrite Hxe.
  destruct (stage12_byte lo Hl) as (H1 & H2 & H3).
  rewrite stage1_split by lia.
  set (h1 := stage1 (rep n 0x55) hi) in *. set (l1 := stage1 0x55 lo) in *.
  destruct IH as (I1 & I2 & I3 & I4 & I5).
  rewrite stage2_split by lia.
  set (h2 := stage2 (rep n 0x33) h1) in *. set (l2 := stage2 0x33 l1) in *.
  rewrite stage3_split, I5, H3 by (done || lia).
  unfold nibbles4 in H2. bool_to_prop.
  rewrite Nat2Z.inj_succ, Z.pow_succ_r by lia.
  set (p := 256 ^ Z.of_nat n) in *.
  pose proof (Z.div_mod l2 16 ltac:(lia)). pose proof (Z.mod_pos_bound l2 16 ltac:(lia)).
  pose proof (Z.mod_pos_bound h2 16 ltac:(lia)).
  rewrite Z.shiftr_div_pow2 in I4 |- * by lia. change (2 ^ 4) with 16 in *.
  assert ((l2 + 256 * h2) / 16 = l2 / 16 + 16 * h2) as ->.
  { replace (l2 + 256 * h2) with (l2 + (16 * h2) * 16) by lia. by rewrite Z.div_add by lia. }
  assert ((l2 + 256 * h2) `mod` 16 = l2 `mod` 16) as ->.
  { replace (l2 + 256 * h2) with (l2 + (16 * h2) * 16) by lia. apply Z_mod_plus_full. }
  pose proof (Z.div_mod h2 16 ltac:(lia)). repeat split; lia.
Qed.

Lemma n_bits_set_range x n : 0 ≤ n → 0 ≤ n_bits_set x n ≤ n.
Proof.
  intros Hn. unfold n_bits_set. split; [lia|].
  pose proof (length_filter (set_in_word x) (zrange 0 n)) as Hf.
  unfold zrange in Hf at 2. rewrite length_seqZ in Hf. lia.
Qed.

(** The number of set bits is the sum of the byte counts. *)
Lemma n_bits_set_bytes n x :
  0 ≤ x → n_bits_set x (8 * Z.of_nat n) = byte_sum n x.
Proof.
  revert x. induction n as [|n IH]; intros x Hx; [done|]. cbn [byte_sum].
  rewrite <-IH by (apply Z.div_pos; lia). unfold n_bits_set.
  rewrite (zrange_app 0 8) by lia. rewrite list.filter_app, length_app, Nat2Z.inj_add. f_equal.
  - do 2 f_equal. apply filter_zrange_ext. intros k Hk. unfold set_in_word.
    change 256 with (2 ^ 8). by rewrite Z.mod_pow2_bits_low by lia.
  - pose proof (filter_shift (set_in_word x) (set_in_word (x / 256)) 8 0 (8 * Z.of_nat n)) as Hs.
    rewrite Z.add_0_r in Hs. replace (8 * Z.of_nat (S n)) with (8 + 8 * Z.of_nat n) by lia.
    rewrite Hs; [by rewrite length_fmap|]. intros k Hk. unfold set_in_word.
    change 256 with (2 ^ 8). by rewrite Z.div_pow2_bits, Z.add_comm by lia.
Qed.

(** The final additions: eight digits below 9 are summed into the low byte. *)
Definition fold_sum (x : Z) : Z :=
  let x := u64 (x + Z.shiftr x 8) in
  let x := u64 (x + Z.shiftr x 16) in
  let x := u64 (x + Z.shiftr x 32) in
  Z.land x 127.

Lemma add_shift k p d q r :
  0 ≤ k → p = 2 ^ k → d = q * p + r → 0 ≤ r < p → in_u64 (d + q) →
  u64 (d + Z.shiftr d k) = d + q.
Proof.
  intros Hk -> Hd Hr Hu. rewrite Z.shiftr_div_pow2 by done.
  rewrite <-(Z.div_unique d (2 ^ k) q r) by lia. by apply u64_small.
Qed.

Lemma fold_sum_digits b0 b1 b2 b3 b4 b5 b6 b7 :
  0 ≤ b0 ≤ 8 → 0 ≤ b1 ≤ 8 → 0 ≤ b2 ≤ 8 → 0 ≤ b3 ≤ 8 →
  0 ≤ b4 ≤ 8 → 0 ≤ b5 ≤ 8 → 0 ≤ b6 ≤ 8 → 0 ≤ b7 ≤ 8 →
  fold_sum (b0 + 256 * (b1 + 256 * (b2 + 256 * (b3 + 256 * (b4 + 256 * (b5 + 256 * (b6 + 256 * b7)))))))
  = b0 + (b1 + (b2 + (b3 + (b4 + (b5 + (b6 + b7)))))).
Proof.
  intros. unfold fold_sum.
  match goal with |- context [u64 (?d + Z.shiftr ?d 8)] =>
    rewrite (add_shift 8 256 d
      (b1 + 256 * (b2 + 256 * (b3 + 256 * (b4 + 256 * (b5 + 256 * (b6 + 256 * b7)))))) b0)
      by (done || unfold in_u64; lia) end.
  match goal with |- context [u64 (?d + Z.shiftr ?d 16)] =>
    rewrite (add_shift 16 65536 d
      (b2 + b3 + 256 * (b3 + b4 + 256 * (b4 + b5 + 256 * (b5 + b6 + 256 * (b6 + b7 + 256 * b7)))))
      (b0 + b1 + 256 * (b1 + b2))) by (done || unfold in_u64; lia) end.
  match goal with |- context [u64 (?d + Z.shiftr ?d 32)] =>
    rewrite (add_shift 32 4294967296 d
      (b4 + b5 + b6 + b7 + 256 * (b5 + b6 + b7 + 256 * (b6 + b7 + 256 * b7)))
      (b0 + b1 + b2 + b3 + 256 * (b1 + b2 + b3 + b4
         + 256 * (b2 + b3 + b4 + b5 + 256 * (b3 + b4 + b5 + b6)))))
      by (done || unfold in_u64; lia) end.
  change 127 with (Z.ones 7). rewrite Z.land_ones by lia. change (2 ^ 7) with 128.
  symmetry. apply Z.mod_unique with (2 *
    ((b1 + 256 * (b2 + 256 * (b3 + 256 * (b4 + 256 * (b5 + 256 * (b6 + 256 * b7))))))
     + (b2 + 256 * (b3 + 256 * (b4 + 256 * (b5 + 256 * (b6 + 256 * b7)))))
     + (b3 + b4 + 256 * (b4 + b5 + 256 * (b5 + b6 + 256 * (b6 + b7 + 256 * b7))))
     + (b5 + b6 + b7 + 256 * (b6 + b7 + 256 * b7)))); lia.
Qed.

Lemma count_set_bits_correct x : in_u64 x → count_set_bits x = n_bits_set x 64.
Proof.
  intros Hx.
  unfold count_set_bits. cbv zeta.
  replace 0x5555555555555555 with (rep 8 0x55) by reflexivity.
  replace 0x3333333333333333 with (rep 8 0x33) by reflexivity.
  replace 0x0f0f0f0f0f0f0f0f with (rep 8 0x0f) by reflexivity.
  replace (2 * BITS - 1) with 127 by reflexivity.
  fold (stage1 (rep 8 0x55) x).
  destruct (stages_bytes 8 x Hx) as (H1 & H2 & _ & H4 & H5). cbv zeta in *.
  change (256 ^ Z.of_nat 8) with (2 ^ 64) in *.
  rewrite (u64_small (stage1 _ x)) by done.
  set (y1 := stage1 (rep 8 0x55) x) in *.
  fold (stage2 (rep 8 0x33) y1). set (y2 := stage2 (rep 8 0x33) y1) in *.
  rewrite (u64_small y2) by done. rewrite (u64_small (y2 + _)) by done.
  fold (stage3 (rep 8 0x0f) y2).
  match goal with |- Z.land (u64 (u64 (u64 (?z + _) + _) + _)) 127 = _ => fold (fold_sum z) end.
  change 64 with (8 * Z.of_nat 8). rewrite H5, (n_bits_set_bytes 8 x) by (unfold in_u64 in Hx; lia).
  cbn [byte_counts byte_sum]. rewrite !Z.mul_0_r, !Z.add_0_r.
  apply fold_sum_digits; apply n_bits_set_range; lia.
Qed.

Lemma count_set_bits_sum a :
  ClibBitmap.wf a → zlen a < 2 ^ 57 →
  clib_bitmap_count_set_bits a = Z.of_nat (length (clib_bitmap_foreach a)).
Proof.
  intros Ha Hlen. unfold clib_bitmap_count_set_bits, clib_bitmap_foreach.
  assert (∀ l i n, Forall in_u64 l → 0 ≤ n → n + 64 * zlen l < 2 ^ 64 →
    foldl (λ n w, u64 (n + count_set_bits w)) n l = n + Z.of_nat (length (foreach_from l i)))
    as Hgen.
  { induction l as [|x l IH]; intros i n Hl Hn Hb; cbn [foldl foreach_from length]; [lia|].
    apply list.Forall_cons in Hl as [Hx Hl]. unfold zlen in *. cbn [length] in Hb.
    rewrite count_set_bits_correct by done.
    pose proof (n_bits_set_range x 64 ltac:(lia)).
    rewrite u64_small by (unfold in_u64; lia). rewrite (IH (i + 1)) by (done || lia).
    rewrite length_app, (foreach_word_spec 64 _ x 0) by (done || lia).
    rewrite length_fmap. unfold n_bits_set. lia. }
  rewrite (Hgen a 0 0) by (done || lia). lia.
Qed.

(** The parallel population count of bitops.h returns the number of set bits
    of every 64-bit word, and the count over a bitmap (of fewer than 2^57 words, so
    that the 64-bit sum does not wrap) is the number of indices the iteration
    macro visits. *)
Theorem count_set_bits_popcount x a :
  in_u64 x → ClibBitmap.wf a → zlen a < 2 ^ 57 →
  count_set_bits x = n_bits_set x 64 ∧
  clib_bitmap_count_set_bits a = zlen (clib_bitmap_foreach a).
Proof.
  intros Hx Ha Hl. split; [by apply count_set_bits_correct|by apply count_set_bits_sum].
Qed.

Lemma count_set_bits_popcount_witness :
  count_set_bits 0xf0f1 = 9 ∧ clib_bitmap_count_set_bits [5; 3] = 4.
Proof.
  destruct (count_set_bits_popcount 0xf0f1 [5; 3]) as [H1 H2].
  - unfold in_u64; lia.
  - repeat constructor; lia.
  - vm_compute. reflexivity.
  - split; [rewrite H1; vm_compute; reflexivity|rewrite H2; vm_compute; reflexivity].
Defined.
End Popcount.
