(* ===== verification/Pool.v ===== *)
(** * Object pools with stable indices (vppinfra/pool.h)

    A pool is a vector of elements with, in its header, a bitmap of the free
    indices and the vector of the free indices, used as a stack.  The operations
    need little of the bitmap: the [FreeSet] interface says what, the pool is
    verified against it, and [clib_bitmap_t] implements it.

    Clients see a pool through [pool_elt_at_index], a partial map from indices to
    live elements, and the [pool_get_*], [pool_put_*] and [pool_set_*] lemmas. *)

From S2P Require Import Prelude Bitmap Popcount.

(** ** What a pool asks of its bitmap of free indices *)

Class FreeSet (B : Type) := {
  fs_empty : B;
  fs_mem : B → Z → bool;
  fs_add : B → Z → B;
  fs_del : B → Z → B;
}.

Class FreeSetLaws (B : Type) `{!FreeSet B} := {
  fs_wf : B → Prop;
  fs_empty_wf : fs_wf fs_empty;
  fs_empty_mem i : fs_mem fs_empty i = false;
  fs_add_wf b i : fs_wf b → fs_wf (fs_add b i);
  fs_add_mem b i j : 0 ≤ i → fs_mem (fs_add b i) j = (j =? i) || fs_mem b j;
  fs_del_wf b i : fs_wf b → fs_wf (fs_del b i);
  fs_del_mem b i j : 0 ≤ i → fs_mem (fs_del b i) j = negb (j =? i) && fs_mem b j;
}.

#[export] Instance clib_bitmap_free_set : FreeSet (list Z) := {
  fs_empty := [];
  fs_mem := ClibBitmap.clib_bitmap_get;
  fs_add := ClibBitmap.clib_bitmap_ori;
  fs_del := ClibBitmap.clib_bitmap_andnoti;
}.

#[export] Program Instance clib_bitmap_free_set_laws : FreeSetLaws (list Z) := {
  fs_wf := ClibBitmap.wf;
}.
Next Obligation. constructor. Qed.
Next Obligation.
  intros i. simpl. rewrite ClibBitmap.get_bit. unfold ClibBitmap.bit, velt, vget.
  rewrite lookup_nil. by destruct (0 <=? _); rewrite Z.bits_0.
Qed.
Next Obligation. intros. by apply ClibBitmap.wf_ori. Qed.
Next Obligation. intros. simpl. rewrite !ClibBitmap.get_bit. by apply ClibBitmap.bit_ori. Qed.
Next Obligation. intros. by apply ClibBitmap.wf_andnoti. Qed.
Next Obligation. intros. simpl. rewrite !ClibBitmap.get_bit. by apply ClibBitmap.bit_andnoti. Qed.

Module ClibPool.

(** ** The pool and its operations *)

Record gpool (B A : Type) := Pool {
  elts : list A;
  free_bitmap : B;
  free_indices : list Z;
}.
Arguments Pool {B A} _ _ _.
Arguments elts {B A} _.
Arguments free_bitmap {B A} _.
Arguments free_indices {B A} _.

(** The pools of the other components. *)
Abbreviation pool A := (gpool (list Z) A).

Section ops.
Context {B A : Type} `{!FreeSet B}.
Implicit Types (p : gpool B A) (i : Z) (x zero : A).

(** The NULL pool. *)
Definition pool_null : gpool B A := Pool [] fs_empty [].

Definition pool_len p : Z := zlen (elts p).

Definition pool_elts p : Z := pool_len p - zlen (free_indices p).

(** Returns the new pool and the index of the element.  A new element at the
    end of the vector is zeroed memory, [zero]; one from the free list keeps
    its old contents. *)
Definition pool_get zero p : gpool B A * Z :=
  let l := zlen (free_indices p) in
  if 0 <? l then
    let i := velt 0 (free_indices p) (l - 1) in
    (Pool (elts p) (fs_del (free_bitmap p) i) (take (Z.to_nat (l - 1)) (free_indices p)), i)
  else
    (Pool (elts p ++ [zero]) (free_bitmap p) (free_indices p), pool_len p).

Definition pool_is_free_index p i : bool :=
  if (0 <=? i) && (i <? pool_len p) then fs_mem (free_bitmap p) i else true.

Definition pool_put_index p i : gpool B A :=
  Pool (elts p) (fs_add (free_bitmap p) i) (free_indices p ++ [u32 i]).

(** The pointer to a live element; [None] where the assertion that the element
    is not free fails. *)
Definition pool_elt_at_index p i : option A :=
  if pool_is_free_index p i then None else vget (elts p) i.

(** A store through the pointer to element [i]. *)
Definition pool_set p i x : gpool B A :=
  Pool (vset (elts p) i x) (free_bitmap p) (free_indices p).
End ops.

(** [pool_validate]: the two assertions on the header. *)
Definition pool_validate {A} (p : pool A) : bool :=
  (ClibBitmap.clib_bitmap_count_set_bits (free_bitmap p) =? zlen (free_indices p))
  && forallb (λ i, ClibBitmap.clib_bitmap_get (free_bitmap p) i) (free_indices p).

(** ** Invariant *)

Section laws.
Context {B A : Type} `{!FreeSet B, !FreeSetLaws B}.
Implicit Types (p : gpool B A) (i : Z) (x zero : A).

Record pool_ok p : Prop := {
  ok_bitmap : fs_wf (free_bitmap p);
  ok_len : pool_len p ≤ 2 ^ 32;
  ok_nodup : NoDup (free_indices p);
  ok_range i : i ∈ free_indices p → 0 ≤ i < pool_len p;
  ok_free i : 0 ≤ i → fs_mem (free_bitmap p) i = true ↔ i ∈ free_indices p;
}.

Lemma pool_null_ok : pool_ok pool_null.
Proof.
  split; simpl.
  - apply fs_empty_wf.
  - unfold pool_len, zlen. simpl. lia.
  - constructor.
  - intros i Hi. by apply elem_of_nil in Hi.
  - intros i _. rewrite fs_empty_mem, elem_of_nil. done.
Qed.

(** Live indices, through the free list. *)
Lemma is_free_false p i :
  pool_ok p → pool_is_free_index p i = false ↔ 0 ≤ i < pool_len p ∧ i ∉ free_indices p.
Proof.
  intros Hok. unfold pool_is_free_index.
  destruct ((0 <=? i) && (i <? pool_len p)) eqn:E.
  - bool_to_prop. rewrite <-(ok_free p Hok i) by done. rewrite not_true_iff_false. tauto.
  - apply andb_false_iff in E. rewrite Z.leb_gt, Z.ltb_ge in E. split; [done|lia].
Qed.

Lemma elt_Some p i :
  pool_ok p → is_Some (pool_elt_at_index p i) ↔ 0 ≤ i < pool_len p ∧ i ∉ free_indices p.
Proof.
  intros Hok. rewrite <-is_free_false by done. unfold pool_elt_at_index.
  destruct (pool_is_free_index p i) eqn:E.
  - split; [by intros [? ?]|done].
  - split; [done|]. intros _. apply is_free_false in E as [Hi _]; [|done]. exact (vget_in_range _ _ Hi).
Qed.

Lemma elt_None p i :
  pool_ok p → ¬ (0 ≤ i < pool_len p ∧ i ∉ free_indices p) → pool_elt_at_index p i = None.
Proof. intros Hok Hn. apply eq_None_not_Some. by rewrite elt_Some. Qed.

Lemma elt_vget p i :
  pool_ok p → 0 ≤ i < pool_len p → i ∉ free_indices p → pool_elt_at_index p i = vget (elts p) i.
Proof.
  intros Hok Hi Hn. unfold pool_elt_at_index.
  by rewrite (proj2 (is_free_false p i Hok)).
Qed.

(** Two pools over the same elements agree on every index that is live in
    both or in neither. *)
Lemma elt_agree p p' i :
  pool_ok p → pool_ok p' → vget (elts p) i = vget (elts p') i →
  (0 ≤ i < pool_len p ∧ i ∉ free_indices p ↔ 0 ≤ i < pool_len p' ∧ i ∉ free_indices p') →
  pool_elt_at_index p i = pool_elt_at_index p' i.
Proof.
  intros Hok Hok' Hv Hiff. destruct (decide (0 ≤ i < pool_len p ∧ i ∉ free_indices p)) as [Hl|Hn].
  - pose proof (proj1 Hiff Hl) as Hl'. rewrite !elt_vget by tauto. done.
  - rewrite !elt_None by tauto. done.
Qed.

(** *** pool_get *)

Lemma last_split (l : list Z) :
  0 < zlen l → l = take (Z.to_nat (zlen l - 1)) l ++ [velt 0 l (zlen l - 1)].
Proof.
  destruct l as [|x l _] using rev_ind; [unfold zlen; simpl; lia|]. intros _.
  assert (zlen (l ++ [x]) - 1 = zlen l) as -> by (unfold zlen; rewrite length_app; simpl; lia).
  replace (Z.to_nat (zlen l)) with (length l) by (unfold zlen; lia).
  rewrite take_app_length. f_equal. unfold velt.
  rewrite vget_app_r, Z.sub_diag by lia. done.
Qed.

Lemma pool_get_ok zero p p' i :
  pool_ok p → pool_len p < 2 ^ 32 → pool_get zero p = (p', i) →
  pool_ok p' ∧ pool_elt_at_index p i = None ∧ is_Some (pool_elt_at_index p' i) ∧
  (∀ j, j ≠ i → pool_elt_at_index p' j = pool_elt_at_index p j) ∧
  0 ≤ i < 2 ^ 32 ∧ pool_len p' ≤ pool_len p + 1 ∧
  zlen (free_indices p') ≤ zlen (free_indices p).
Proof.
  intros Hok Hlen. unfold pool_get. destruct (0 <? _) eqn:E; bool_to_prop.
  - set (i0 := velt 0 _ _). set (fi := take _ _). intros [= <- <-].
    assert (free_indices p = fi ++ [i0]) as Hfi by by apply last_split.
    pose proof (ok_nodup p Hok) as Hnd. rewrite Hfi in Hnd. apply list.NoDup_app in Hnd as (Hnd & Hni & _).
    assert (i0 ∉ fi) as Hi0 by (intros Hin; apply (Hni i0 Hin); by left).
    assert (0 ≤ i0 < pool_len p) as Hr.
    { apply (ok_range p Hok). rewrite Hfi. apply elem_of_app. right. by left. }
    assert (∀ j, j ∈ free_indices p ↔ j ∈ fi ∨ j = i0) as Hin.
    { intros j. rewrite Hfi, elem_of_app, list_elem_of_singleton. done. }
    assert (pool_ok (Pool (elts p) (fs_del (free_bitmap p) i0) fi)) as Hok'.
    { split; simpl.
      - apply fs_del_wf, ok_bitmap, Hok.
      - apply Hok.
      - done.
      - intros j Hj. apply (ok_range p Hok). apply Hin. by left.
      - intros j Hj. rewrite fs_del_mem, andb_true_iff, (ok_free p Hok), Hin, negb_true_iff, Z.eqb_neq
          by lia.
        split; [intros [? [?|?]]; [done|congruence]|intros Hj'; split; [by intros ->|by left]]. }
    split; [done|]. split; [apply elt_None; [done|]; rewrite Hin; tauto|].
    split; [by apply elt_Some|].
    split. { intros j Hj. apply elt_agree; [done..|]. simpl. rewrite Hin. unfold pool_len. simpl. tauto. }
    split; [lia|]. split; [unfold pool_len; simpl; lia|]. simpl. rewrite Hfi.
    unfold zlen. rewrite length_app. lia.
  - assert (free_indices p = []) as Hnil.
    { apply length_zero_iff_nil. unfold zlen in E. lia. }
    intros [= <- <-]. pose proof (zlen_nonneg (elts p)) as H0.
    assert (pool_len (Pool (elts p ++ [zero]) (free_bitmap p) (free_indices p)) = pool_len p + 1) as Hl.
    { unfold pool_len. simpl. unfold zlen. rewrite length_app. simpl. lia. }
    assert (pool_ok (Pool (elts p ++ [zero]) (free_bitmap p) (free_indices p))) as Hok'.
    { split; simpl; try apply Hok.
      - rewrite Hl. lia.
      - rewrite Hnil. intros i Hi. by apply elem_of_nil in Hi. }
    split; [done|]. split; [apply elt_None; [done|lia]|].
    split. { apply elt_Some; [done|]. rewrite Hl. simpl. rewrite Hnil, elem_of_nil. unfold pool_len. naive_solver lia. }
    split.
    { intros j Hj. destruct (decide (j < pool_len p)).
      - apply elt_agree; [done..| |].
        + simpl. by rewrite vget_app_l.
        + rewrite Hl. simpl. intuition lia.
      - rewrite !elt_None by (done || rewrite ?Hl; intuition lia). done. }
    rewrite Hl. simpl. unfold pool_len in *. lia.
Qed.

Lemma pool_get_len zero p p' i :
  pool_get zero p = (p', i) →
  pool_len p' = pool_len p ∨ (pool_elts p = pool_len p ∧ pool_len p' = pool_len p + 1).
Proof.
  unfold pool_get. destruct (0 <? _) eqn:E; intros [= <- <-]; bool_to_prop.
  - by left.
  - right. unfold pool_elts, pool_len. simpl. rewrite zlen_app. change (zlen [zero]) with 1.
    pose proof (zlen_nonneg (free_indices p)). lia.
Qed.

(** *** pool_put *)

Lemma pool_put_ok p i :
  pool_ok p → is_Some (pool_elt_at_index p i) →
  pool_ok (pool_put_index p i) ∧ pool_elt_at_index (pool_put_index p i) i = None ∧
  (∀ j, j ≠ i → pool_elt_at_index (pool_put_index p i) j = pool_elt_at_index p j) ∧
  pool_len (pool_put_index p i) = pool_len p.
Proof.
  intros Hok [Hi Hnf]%elt_Some; [|done].
  pose proof (ok_len p Hok) as Hlen. assert (u32 i = i) as Hu by (apply u32_small; unfold in_u32; lia).
  assert (∀ j, j ∈ free_indices (pool_put_index p i) ↔ j ∈ free_indices p ∨ j = i) as Hin.
  { intros j. simpl. by rewrite Hu, elem_of_app, list_elem_of_singleton. }
  assert (pool_ok (pool_put_index p i)) as Hok'.
  { split.
    - apply fs_add_wf, ok_bitmap, Hok.
    - done.
    - simpl. rewrite Hu. apply list.NoDup_app. split; [apply Hok|].
      split; [|apply NoDup_singleton]. intros j Hj ->%list_elem_of_singleton. done.
    - intros j [Hj|Hj]%Hin; [by apply (ok_range p Hok)|by subst].
    - intros j Hj. rewrite Hin. simpl.
      rewrite fs_add_mem, orb_true_iff, (ok_free p Hok), Z.eqb_eq by lia. tauto. }
  split; [done|]. split; [|split; [|done]].
  - apply elt_None; [done|]. rewrite Hin. tauto.
  - intros j Hj. apply elt_agree; [done..|]. rewrite Hin. unfold pool_len. simpl. tauto.
Qed.

(** *** Stores *)

Lemma pool_set_ok p i x : pool_ok p → pool_ok (pool_set p i x).
Proof.
  intros Hok. assert (pool_len (pool_set p i x) = pool_len p) as Hl
    by (unfold pool_len, pool_set; simpl; apply zlen_vset).
  split; simpl; try rewrite Hl; apply Hok.
Qed.

Lemma pool_set_len p i x : pool_len (pool_set p i x) = pool_len p.
Proof. unfold pool_len, pool_set. simpl. apply zlen_vset. Qed.

Lemma pool_elt_set p i x j :
  is_Some (pool_elt_at_index p i) →
  pool_elt_at_index (pool_set p i x) j = if decide (j = i) then Some x else pool_elt_at_index p j.
Proof.
  intros [y Hy]. unfold pool_elt_at_index in *.
  replace (pool_is_free_index (pool_set p i x) j) with (pool_is_free_index p j)
    by (unfold pool_is_free_index; by rewrite pool_set_len).
  destruct (pool_is_free_index p i) eqn:Ei; [done|].
  apply vget_Some_range in Hy. simpl. rewrite vget_vset.
  destruct (decide (j = i)) as [->|]; [rewrite Ei, decide_True by done; done|].
  case_match; [done|]. by rewrite decide_False by (intros [??]; congruence).
Qed.

Lemma pool_elt_set_eq p i x :
  is_Some (pool_elt_at_index p i) → pool_elt_at_index (pool_set p i x) i = Some x.
Proof. intros H. rewrite pool_elt_set by done. by rewrite decide_True. Qed.

Lemma pool_elt_set_ne p i x j :
  is_Some (pool_elt_at_index p i) → j ≠ i →
  pool_elt_at_index (pool_set p i x) j = pool_elt_at_index p j.
Proof. intros H Hj. rewrite pool_elt_set by done. by rewrite decide_False. Qed.

(** The number of live elements. *)
Lemma free_indices_perm p :
  pool_ok p →
  filter (λ i, pool_is_free_index p i = true) (zrange 0 (pool_len p)) ≡ₚ free_indices p.
Proof.
  intros Hok. apply list.NoDup_Permutation.
  - apply list.NoDup_filter, NoDup_seqZ.
  - apply Hok.
  - intros i. rewrite list_elem_of_filter, elem_of_zrange.
    rewrite <-not_false_iff_true, is_free_false by done.
    pose proof (ok_range p Hok i). destruct (decide (i ∈ free_indices p)); intuition.
Qed.

Lemma pool_elts_live p :
  pool_ok p →
  pool_elts p = Z.of_nat (length (filter (λ i, pool_is_free_index p i = false) (zrange 0 (pool_len p)))).
Proof.
  intros Hok. unfold pool_elts.
  assert (∀ l : list Z, length l
    = (length (filter (λ i, pool_is_free_index p i = true) l)
       + length (filter (λ i, pool_is_free_index p i = false) l))%nat) as Hc.
  { induction l as [|x l IH]; [done|]. rewrite !filter_cons.
    destruct (pool_is_free_index p x) eqn:E; repeat case_decide; simpl; congruence || lia. }
  specialize (Hc (zrange 0 (pool_len p))). rewrite (Permutation_length (free_indices_perm p Hok)) in Hc.
  unfold zrange in Hc at 1. rewrite length_seqZ in Hc. unfold zlen.
  pose proof (zlen_nonneg (elts p)). unfold pool_len in *. lia.
Qed.

(** A list that covers the live elements bounds their number. *)
Lemma pool_elts_le p (l : list Z) :
  pool_ok p → (∀ i, is_Some (pool_elt_at_index p i) → i ∈ l) → pool_elts p ≤ zlen l.
Proof.
  intros Hok Hl. rewrite pool_elts_live by done. unfold zlen.
  enough (filter (λ i, pool_is_free_index p i = false) (zrange 0 (pool_len p)) ⊆+ l) as Hs
    by (apply submseteq_length in Hs; lia).
  apply NoDup_submseteq; [apply list.NoDup_filter, NoDup_seqZ|].
  intros i [Hi%is_free_false _]%list_elem_of_filter; [|done]. by apply Hl, elt_Some.
Qed.
End laws.


(** ** The pools a program can build *)

Section reachable.
Context {A : Type}.
Implicit Types (p : pool A).

Inductive pool_step : pool A → pool A → Prop :=
| step_get zero p p' i :
    pool_len p < 2 ^ 32 → pool_get zero p = (p', i) → pool_step p p'
| step_put p i :
    is_Some (pool_elt_at_index p i) → pool_step p (pool_put_index p i)
| step_set p i x :
    is_Some (pool_elt_at_index p i) → pool_step p (pool_set p i x).

Definition pool_reachable p : Prop := rtc pool_step pool_null p.

(** The words of the free bitmap never outnumber those of a full one. *)
Definition bitmap_bound p : Prop := zlen (free_bitmap p) ≤ 2 ^ 26.

Lemma zlen_alui f cz a i :
  0 ≤ i → zlen (ClibBitmap.clib_bitmap_alui f cz a i) ≤ Z.max (zlen a) (i / 64 + 1).
Proof.
  intros Hi. unfold ClibBitmap.clib_bitmap_alui, ClibBitmap.clib_bitmap_remove_trailing_zeros. cbv zeta.
  set (b := vset _ _ _).
  assert (zlen b = Z.max (zlen a) (i / 64 + 1)) as Hb.
  { subst b. rewrite zlen_vset. apply zlen_validate. unfold ClibBitmap.BITS. by apply Z.div_pos. }
  case_cond; [|lia]. unfold zlen in *. rewrite length_take. lia.
Qed.

Lemma pool_reachable_inv p : pool_reachable p → pool_ok p ∧ bitmap_bound p.
Proof.
  assert (∀ p p', pool_step p p' → pool_ok p ∧ bitmap_bound p → pool_ok p' ∧ bitmap_bound p') as Hs.
  { intros q q' Hstep [Hok Hb]. destruct Hstep as [zero q q' i Hl Hg|q i Hi|q i x Hi].
    - destruct (pool_get_ok zero q q' i Hok Hl Hg) as (Hok' & _ & _ & _ & Hi & _).
      split; [done|]. unfold pool_get in Hg. case_match; simplify_eq; [|done].
      unfold bitmap_bound in *. simpl. etrans; [apply zlen_alui; lia|].
      apply Z.max_lub; [done|]. assert (velt 0 (free_indices q) (zlen (free_indices q) - 1) / 64 < 2 ^ 26);
        [apply Z.div_lt_upper_bound|]; lia.
    - destruct (pool_put_ok q i Hok Hi) as (Hok' & _). split; [done|].
      apply elt_Some in Hi as [Hi _]; [|done]. pose proof (ok_len q Hok).
      unfold bitmap_bound in *. simpl. etrans; [apply zlen_alui; lia|].
      apply Z.max_lub; [done|]. assert (i / 64 < 2 ^ 26); [apply Z.div_lt_upper_bound|]; lia.
    - split; [by apply pool_set_ok|done]. }
  intros Hr. unfold pool_reachable in Hr. remember pool_null as p0 eqn:Hp0.
  assert (pool_ok p0 ∧ bitmap_bound p0) as H0.
  { subst. split; [apply pool_null_ok|]. unfold bitmap_bound, zlen. simpl. lia. }
  clear Hp0. induction Hr as [|p1 p2 p3 H12 _ IH]; [done|]. apply IH. by apply (Hs p1).
Qed.

Lemma pool_validate_ok p : pool_ok p → bitmap_bound p → pool_validate p = true.
Proof.
  intros Hok Hb. unfold pool_validate. apply andb_true_iff. split.
  - rewrite Popcount.count_set_bits_sum by (apply Hok || unfold bitmap_bound in Hb; lia).
    unfold ClibBitmap.clib_bitmap_foreach.
    rewrite (ClibBitmap.foreach_from_spec _ (free_bitmap p) 0) by (done || apply Hok).
    rewrite Z.max_l by apply zlen_nonneg. apply Z.eqb_eq. unfold zlen. f_equal.
    apply Permutation_length, list.NoDup_Permutation.
    + apply list.NoDup_filter, NoDup_seqZ.
    + apply Hok.
    + intros i. rewrite list_elem_of_filter, elem_of_zrange. unfold ClibBitmap.set_in.
      rewrite <-ClibBitmap.get_bit. split.
      * intros [H1 H2]. apply (ok_free p Hok); [lia|done].
      * intros Hi. pose proof (ok_range p Hok i Hi).
        assert (ClibBitmap.clib_bitmap_get (free_bitmap p) i = true) as Hg by by apply (ok_free p Hok); [lia|].
        split; [done|]. split; [lia|]. unfold ClibBitmap.clib_bitmap_get in Hg. bool_to_prop.
        unfold zlen, ClibBitmap.BITS in *. pose proof (Z.div_mod i 64 ltac:(lia)).
        pose proof (Z.mod_pos_bound i 64 ltac:(lia)). lia.
  - apply forallb_forall. intros i Hi%list_elem_of_In.
    pose proof (ok_range p Hok i Hi). apply (ok_free p Hok); [lia|done].
Qed.
End reachable.

(** ** Properties *)

(** [pool_get] returns an index that was not live (below 2^32, so it fits the
    32-bit free list), makes exactly that index live and leaves every other element
    alone; [pool_put] makes exactly the returned index free again; both keep the
    header consistent. *)
Theorem pool_get_put_spec {A} (zero : A) (p p' : pool A) i :
  pool_ok p → pool_len p < 2 ^ 32 → pool_get zero p = (p', i) →
  pool_ok p' ∧ 0 ≤ i < 2 ^ 32 ∧
  pool_elt_at_index p i = None ∧ is_Some (pool_elt_at_index p' i) ∧
  (∀ j, j ≠ i → pool_elt_at_index p' j = pool_elt_at_index p j) ∧
  pool_ok (pool_put_index p' i) ∧
  (∀ j, pool_elt_at_index (pool_put_index p' i) j = pool_elt_at_index p j).
Proof.
  intros Hok Hl Hg. destruct (pool_get_ok zero p p' i Hok Hl Hg) as (Hok' & Hn & Hs & Ho & Hr & _).
  destruct (pool_put_ok p' i Hok' Hs) as (Hok2 & Hn2 & Ho2 & _).
  do 6 (split; [done|]). intros j. destruct (decide (j = i)) as [->|Hj].
  - by rewrite Hn, Hn2.
  - rewrite Ho2 by done. by apply Ho.
Qed.

Lemma pool_get_put_spec_witness :
  let p : pool Z := Pool [7; 8; 9] [5] [0; 2] in
  pool_ok p ∧ pool_elt_at_index (fst (pool_get 0 p)) 1 = Some 8.
Proof.
  assert (pool_ok (Pool [7; 8; 9] [5] [0; 2] : pool Z)) as Hok.
  { assert (pool_reachable (Pool [7; 8; 9] [5] [0; 2] : pool Z)) as Hr.
    { eapply rtc_l; [eapply (step_get 7); [done|reflexivity]|].
      eapply rtc_l; [eapply (step_get 8); [done|reflexivity]|].
      eapply rtc_l; [eapply (step_get 9); [done|reflexivity]|].
      eapply rtc_l; [apply (step_put _ 0); vm_compute; by eexists|].
      eapply rtc_l; [apply (step_put _ 2); vm_compute; by eexists|]. apply rtc_refl. }
    exact (proj1 (pool_reachable_inv _ Hr)). }
  split; [exact Hok|].
  destruct (pool_get_put_spec 0 _ _ 2 Hok ltac:(vm_compute; reflexivity) eq_refl)
    as (_ & _ & _ & _ & H & _).
  etransitivity; [exact (H 1 ltac:(lia))|]. reflexivity.
Defined.

(** in every pool a program can build with [pool_get], [pool_put] and stores
    to live elements, the assertions of [pool_validate] hold (the population count
    of the free bitmap is the length of the free list, and every index of the list
    is set in the bitmap), and [pool_elts] is the number of live elements. *)
Theorem pool_reachable_valid {A} (p : pool A) :
  pool_reachable p →
  pool_validate p = true ∧
  pool_elts p = Z.of_nat (length (filter (λ i, pool_is_free_index p i = false)
                                         (zrange 0 (pool_len p)))).
Proof.
  intros [Hok Hb]%pool_reachable_inv.
  split; [by apply pool_validate_ok|by apply pool_elts_live].
Qed.

Lemma pool_reachable_valid_witness :
  pool_validate (pool_put_index (fst (pool_get 5 (pool_null : pool Z))) 0) = true.
Proof.
  refine (proj1 (pool_reachable_valid _ _)).
  eapply rtc_l; [eapply (step_get 5); [done|reflexivity]|].
  eapply rtc_l; [apply (step_put _ 0); vm_compute; by eexists|]. apply rtc_refl.
Defined.

End ClibPool.
