(* ===== verification/TwTimer.v ===== *)
(** * Timer wheels (vppinfra/tw_timer_template.c)

    One or two rings of slots over a pool of timers.  Every slot is a circular
    doubly linked list, through pool indices, whose head is a pool element of its
    own.  The geometry (number of rings, slots per ring, bits of the timer id) is a
    class with one instance for each instantiation of the template.

    The specification keeps the live timers in a finite map from handles to user
    handle and expiry tick; [rel] relates a wheel to it, and start, stop and expire
    are shown to implement its operations.  The clock readings are f64: the number
    of ticks that [tw_timer_expire_timers] computes from them is a parameter, and
    the ticks it adds to [last_run_time] are part of its result. *)

From stdpp Require Import gmap functions.
From S2P Require Import Prelude Bitmap Popcount Pool.

Module TwTimer.
Import ClibPool.

(** ** Geometry *)

Class TwGeometry := {
  TW_TIMER_WHEELS : Z;
  TW_RING_SHIFT : Z;
  TW_TIMERS_PER_OBJECT : Z;
  LOG2_TW_TIMERS_PER_OBJECT : Z;
}.

Class TwGeometryOk (G : TwGeometry) : Prop := {
  geo_wheels : TW_TIMER_WHEELS = 1 ∨ TW_TIMER_WHEELS = 2;
  geo_shift : 1 ≤ TW_RING_SHIFT ≤ 14;
  geo_log2 : 1 ≤ LOG2_TW_TIMERS_PER_OBJECT ≤ 31;
  geo_timers : TW_TIMERS_PER_OBJECT ≤ 2 ^ LOG2_TW_TIMERS_PER_OBJECT;
}.

Definition geo_2t_1w_2048sl : TwGeometry :=
  {| TW_TIMER_WHEELS := 1; TW_RING_SHIFT := 11; TW_TIMERS_PER_OBJECT := 2; LOG2_TW_TIMERS_PER_OBJECT := 1 |}.
Definition geo_16t_1w_2048sl : TwGeometry :=
  {| TW_TIMER_WHEELS := 1; TW_RING_SHIFT := 11; TW_TIMERS_PER_OBJECT := 16; LOG2_TW_TIMERS_PER_OBJECT := 4 |}.
Definition geo_16t_2w_512sl : TwGeometry :=
  {| TW_TIMER_WHEELS := 2; TW_RING_SHIFT := 9; TW_TIMERS_PER_OBJECT := 16; LOG2_TW_TIMERS_PER_OBJECT := 4 |}.

#[export] Instance geo_2t_1w_2048sl_ok : TwGeometryOk geo_2t_1w_2048sl.
Proof. split; simpl; lia. Qed.
#[export] Instance geo_16t_1w_2048sl_ok : TwGeometryOk geo_16t_1w_2048sl.
Proof. split; simpl; lia. Qed.
#[export] Instance geo_16t_2w_512sl_ok : TwGeometryOk geo_16t_2w_512sl.
Proof. split; simpl; lia. Qed.

(** ** Data *)

Record tw_timer := Timer {
  next : Z;
  prev : Z;
  fast_ring_offset : Z;
  user_handle : Z;
}.

Definition with_next (x : Z) (t : tw_timer) := Timer x (prev t) (fast_ring_offset t) (user_handle t).
Definition with_prev (x : Z) (t : tw_timer) := Timer (next t) x (fast_ring_offset t) (user_handle t).
Definition with_offset (x : Z) (t : tw_timer) := Timer (next t) (prev t) x (user_handle t).
Definition with_handle (x : Z) (t : tw_timer) := Timer (next t) (prev t) (fast_ring_offset t) x.

Definition zero_timer : tw_timer := Timer 0 0 0 0.

(** [current_index] has one entry per ring, [w] one row of list heads per ring. *)
Record tw_timer_wheel := Wheel {
  timers : pool tw_timer;
  current_tick : Z;
  current_index : list Z;
  w : list (list Z);
  expired_timer_handles : list Z;
  max_expirations : Z;
}.

Definition with_timers (p : pool tw_timer) (tw : tw_timer_wheel) :=
  Wheel p (current_tick tw) (current_index tw) (w tw) (expired_timer_handles tw) (max_expirations tw).
Definition with_index (ci : list Z) (tw : tw_timer_wheel) :=
  Wheel (timers tw) (current_tick tw) ci (w tw) (expired_timer_handles tw) (max_expirations tw).
Definition with_tick (x : Z) (tw : tw_timer_wheel) :=
  Wheel (timers tw) x (current_index tw) (w tw) (expired_timer_handles tw) (max_expirations tw).
Definition with_expired (l : list Z) (tw : tw_timer_wheel) :=
  Wheel (timers tw) (current_tick tw) (current_index tw) (w tw) l (max_expirations tw).

Definition TW_TIMER_RING_FAST : Z := 0.
Definition TW_TIMER_RING_SLOW : Z := 1.

(** ** Operations

    [None] stands for a failed assertion or an access to a free pool element. *)

Definition assert (b : bool) : option () := if b then Some () else None.

(** A store to fields of a live timer. *)
Definition upd (p : pool tw_timer) (i : Z) (f : tw_timer → tw_timer) : option (pool tw_timer) :=
  t ← pool_elt_at_index p i; Some (pool_set p i (f t)).

Definition timer_addhead (p : pool tw_timer) (head_index new_index : Z) : option (pool tw_timer) :=
  head ← pool_elt_at_index p head_index;
  _ ← pool_elt_at_index p new_index;
  if next head =? head_index then
    p ← upd p head_index (λ t, with_next new_index (with_prev new_index t));
    upd p new_index (λ t, with_next head_index (with_prev head_index t))
  else
    let old_first_index := next head in
    _ ← pool_elt_at_index p old_first_index;
    p ← upd p new_index (with_next old_first_index);
    old_first ← pool_elt_at_index p old_first_index;
    p ← upd p new_index (with_prev (prev old_first));
    p ← upd p old_first_index (with_prev new_index);
    upd p head_index (with_next new_index).

Definition timer_remove (p : pool tw_timer) (index : Z) : option (pool tw_timer) :=
  elt ← pool_elt_at_index p index;
  _ ← assert (negb (user_handle elt =? u32_max));
  let next_index := next elt in
  let prev_index := prev elt in
  _ ← pool_elt_at_index p next_index;
  _ ← pool_elt_at_index p prev_index;
  p ← upd p next_index (with_prev (prev elt));
  elt ← pool_elt_at_index p index;
  p ← upd p prev_index (with_next (next elt));
  upd p index (λ t, with_prev u32_max (with_next u32_max t)).

Section wheel.
Context `{G : TwGeometry}.

Definition TW_SLOTS_PER_RING : Z := 2 ^ TW_RING_SHIFT.
Definition TW_RING_MASK : Z := TW_SLOTS_PER_RING - 1.

Definition make_internal_timer_handle (pool_index timer_id : Z) : option Z :=
  _ ← assert (timer_id <? TW_TIMERS_PER_OBJECT);
  _ ← assert (pool_index <? 2 ^ (32 - LOG2_TW_TIMERS_PER_OBJECT));
  Some (Z.lor (u32 (Z.shiftl timer_id (32 - LOG2_TW_TIMERS_PER_OBJECT))) pool_index).

(** [tw->w[ring][slot].head_index] *)
Definition slot_head (tw : tw_timer_wheel) (ring slot : Z) : option Z :=
  row ← vget (w tw) ring; vget row slot.

Definition tw_timer_start (tw : tw_timer_wheel) (pool_index timer_id interval : Z)
    : option (tw_timer_wheel * Z) :=
  _ ← assert (negb (interval =? 0));
  let '(p, t) := pool_get zero_timer (timers tw) in
  p ← upd p t (λ e, with_next u32_max (with_prev u32_max e));
  p ← (if 1 <? TW_TIMER_WHEELS then upd p t (with_offset 65535) else Some p);
  handle ← make_internal_timer_handle pool_index timer_id;
  p ← upd p t (with_handle handle);
  fast_index ← vget (current_index tw) TW_TIMER_RING_FAST;
  let fast := u16 (Z.land interval TW_RING_MASK) in
  let fast := u16 (fast + fast_index) in
  if 1 <? TW_TIMER_WHEELS then
    let carry := if TW_SLOTS_PER_RING <=? fast then 1 else 0 in
    let fast := fast `mod` TW_SLOTS_PER_RING in
    let slow := u16 (Z.shiftr interval TW_RING_SHIFT + carry) in
    _ ← assert (slow <? TW_SLOTS_PER_RING);
    if negb (slow =? 0) then
      slow_index ← vget (current_index tw) TW_TIMER_RING_SLOW;
      let slow := u16 (slow + slow_index) in
      let slow := slow `mod` TW_SLOTS_PER_RING in
      p ← upd p t (with_offset fast);
      _ ← assert (fast <? TW_SLOTS_PER_RING);
      head ← slot_head tw TW_TIMER_RING_SLOW slow;
      p ← timer_addhead p head t;
      Some (with_timers p tw, t)
    else
      head ← slot_head tw TW_TIMER_RING_FAST fast;
      p ← timer_addhead p head t;
      Some (with_timers p tw, t)
  else
    let fast := fast `mod` TW_SLOTS_PER_RING in
    _ ← assert (interval <? TW_SLOTS_PER_RING);
    head ← slot_head tw TW_TIMER_RING_FAST fast;
    p ← timer_addhead p head t;
    Some (with_timers p tw, t).

Definition tw_timer_stop (tw : tw_timer_wheel) (handle : Z) : option tw_timer_wheel :=
  t ← pool_elt_at_index (timers tw) handle;
  _ ← assert (negb (user_handle t =? u32_max));
  p ← timer_remove (timers tw) handle;
  _ ← pool_elt_at_index p handle;
  Some (with_timers (pool_put_index p handle) tw).

(** The body of the inner initialisation loop: a pool element whose fields are
    all ones, linked to itself. *)
Definition init_slot (s : pool tw_timer * list Z) (_ : Z) : option (pool tw_timer * list Z) :=
  let '(p, t) := pool_get zero_timer (fst s) in
  p ← upd p t (λ _, Timer u32_max u32_max 65535 u32_max);
  p ← upd p t (λ e, with_next t (with_prev t e));
  Some (p, snd s ++ [t]).

Definition init_ring (s : pool tw_timer * list (list Z)) (_ : Z) : option (pool tw_timer * list (list Z)) :=
  r ← mfoldl init_slot (fst s, []) (zrange 0 TW_SLOTS_PER_RING);
  Some (fst r, snd s ++ [snd r]).

Definition tw_timer_wheel_init (max_expirations : Z) : option tw_timer_wheel :=
  r ← mfoldl init_ring (pool_null, []) (zrange 0 TW_TIMER_WHEELS);
  Some (Wheel (fst r) 0 (replicate (Z.to_nat TW_TIMER_WHEELS) 0) (snd r) [] max_expirations).

(** The loop that frees the timers of a slot.  The C loops over a slot have no
    bound of their own: the fuel is the length of the pool. *)
Fixpoint free_list (fuel : nat) (p : pool tw_timer) (head_index next_index : Z) : option (pool tw_timer) :=
  if next_index =? head_index then Some p
  else match fuel with
       | O => None
       | S fuel =>
           t ← pool_elt_at_index p next_index;
           free_list fuel (pool_put_index p next_index) head_index (next t)
       end.

Definition free_slot (tw : tw_timer_wheel) (p : pool tw_timer) (rs : Z * Z) : option (pool tw_timer) :=
  head_index ← slot_head tw (fst rs) (snd rs);
  head ← pool_elt_at_index p head_index;
  p ← free_list (length (elts p)) p head_index (next head);
  _ ← pool_elt_at_index p head_index;
  Some (pool_put_index p head_index).

(** Returns the timer pool as it is when the wheel structure is cleared. *)
Definition tw_timer_wheel_free (tw : tw_timer_wheel) : option (pool tw_timer) :=
  mfoldl (free_slot tw) (timers tw)
    (concat ((λ i, (λ j, (i, j)) <$> zrange 0 TW_SLOTS_PER_RING) <$> zrange 0 TW_TIMER_WHEELS)).

(** Deal the timers of a slow slot into the fast ring. *)
Fixpoint deal_list (fuel : nat) (tw : tw_timer_wheel) (p : pool tw_timer) (head_index next_index : Z)
    : option (pool tw_timer) :=
  if next_index =? head_index then Some p
  else match fuel with
       | O => None
       | S fuel =>
           let t_index := next_index in
           t ← pool_elt_at_index p t_index;
           p ← upd p t_index (λ e, with_next u32_max (with_prev u32_max e));
           _ ← assert (fast_ring_offset t <? TW_SLOTS_PER_RING);
           fast_head ← slot_head tw TW_TIMER_RING_FAST (fast_ring_offset t);
           p ← timer_addhead p fast_head t_index;
           deal_list fuel tw p head_index (next t)
       end.

(** Collect the user handles of a slot and free its timers. *)
Fixpoint expire_list (fuel : nat) (p : pool tw_timer) (head_index next_index : Z) (expired : list Z)
    : option (pool tw_timer * list Z) :=
  if next_index =? head_index then Some (p, expired)
  else match fuel with
       | O => None
       | S fuel =>
           t ← pool_elt_at_index p next_index;
           expire_list fuel (pool_put_index p next_index) head_index (next t) (expired ++ [user_handle t])
       end.

(** Empty a slot, and return what its head pointed to. *)
Definition empty_slot (p : pool tw_timer) (head_index : Z) : option (pool tw_timer * Z) :=
  head ← pool_elt_at_index p head_index;
  p ← upd p head_index (λ t, with_next head_index (with_prev head_index t));
  Some (p, next head).

(** The fast ring has been around once: advance the slow ring by a slot. *)
Definition wrap_fast_ring (tw : tw_timer_wheel) : option tw_timer_wheel :=
  let tw := with_index (vset (current_index tw) TW_TIMER_RING_FAST 0) tw in
  if 1 <? TW_TIMER_WHEELS then
    si ← vget (current_index tw) TW_TIMER_RING_SLOW;
    let slow_wheel_index := u32 (si + 1) `mod` TW_SLOTS_PER_RING in
    let tw := with_index (vset (current_index tw) TW_TIMER_RING_SLOW slow_wheel_index) tw in
    head_index ← slot_head tw TW_TIMER_RING_SLOW slow_wheel_index;
    '(p, next_index) ← empty_slot (timers tw) head_index;
    p ← deal_list (length (elts p)) tw p head_index next_index;
    Some (with_timers p tw)
  else Some tw.

(** One tick, up to the callback. *)
Definition tick_begin (tw : tw_timer_wheel) : option tw_timer_wheel :=
  fi ← vget (current_index tw) TW_TIMER_RING_FAST;
  tw ← (if fi =? TW_SLOTS_PER_RING then wrap_fast_ring tw else Some tw);
  let fast_wheel_index := if fi =? TW_SLOTS_PER_RING then 0 else fi in
  let tw := with_expired [] tw in
  head_index ← slot_head tw TW_TIMER_RING_FAST fast_wheel_index;
  '(p, next_index) ← empty_slot (timers tw) head_index;
  '(p, expired) ← expire_list (length (elts p)) p head_index next_index (expired_timer_handles tw);
  Some (with_expired expired (with_timers p tw)).

(** One tick, from the return of the callback. *)
Definition tick_end (tw : tw_timer_wheel) : option tw_timer_wheel :=
  fi ← vget (current_index tw) TW_TIMER_RING_FAST;
  Some (with_tick (u32 (current_tick tw + 1))
          (with_index (vset (current_index tw) TW_TIMER_RING_FAST (u32 (fi + 1))) tw)).

(** The expiry loop, [n] iterations from [i].  [callback] is the user's
    [expired_timer_callback], which has a state of its own and may start and stop
    timers. *)
Fixpoint expire_loop {X} (callback : X → list Z → tw_timer_wheel → option (X * tw_timer_wheel))
    (n : nat) (i total_nexpirations : Z) (x : X) (tw : tw_timer_wheel)
    : option (X * tw_timer_wheel * Z * Z) :=
  match n with
  | O => Some (x, tw, total_nexpirations, i)
  | S n =>
      tw ← tick_begin tw;
      let nexpirations := zlen (expired_timer_handles tw) in
      '(x, tw) ← (if negb (nexpirations =? 0) then callback x (expired_timer_handles tw) tw
                  else Some (x, tw));
      let total := if negb (nexpirations =? 0) then u32 (total_nexpirations + nexpirations)
                   else total_nexpirations in
      tw ← tick_end tw;
      if max_expirations tw <=? total then Some (x, tw, total, i)
      else expire_loop callback n (i + 1) total x tw
  end.

(** Returns the callback's state, the wheel, the number of expirations, and the
    number of intervals added to [last_run_time]. *)
Definition tw_timer_expire_timers {X} (callback : X → list Z → tw_timer_wheel → option (X * tw_timer_wheel))
    (nticks : Z) (x : X) (tw : tw_timer_wheel) : option (X * tw_timer_wheel * Z * Z) :=
  if nticks =? 0 then Some (x, tw, 0, 0)
  else expire_loop callback (Z.to_nat nticks) 0 0 x tw.
End wheel.

(** ** The lists of a pool of timers

    [nx] and [pv] are the two link functions; a slot with head [k] holds the timers
    [l] when [nx] runs through [k :: l] and back to [k], and [pv] the other way. *)

Definition nx (p : pool tw_timer) (i : Z) : option Z := next <$> pool_elt_at_index p i.
Definition pv (p : pool tw_timer) (i : Z) : option Z := prev <$> pool_elt_at_index p i.

(** What the lists do not touch. *)
Definition meta (p : pool tw_timer) (i : Z) : option (Z * Z) :=
  (λ t, (fast_ring_offset t, user_handle t)) <$> pool_elt_at_index p i.

Fixpoint npath (f : Z → option Z) (l : list Z) : Prop :=
  match l with
  | a :: (b :: _) as l' => f a = Some b ∧ npath f l'
  | _ => True
  end.

Fixpoint ppath (f : Z → option Z) (l : list Z) : Prop :=
  match l with
  | a :: (b :: _) as l' => f b = Some a ∧ ppath f l'
  | _ => True
  end.

Lemma npath_app f l a l' : npath f (l ++ a :: l') ↔ npath f (l ++ [a]) ∧ npath f (a :: l').
Proof.
  induction l as [|x l IH]; [simpl; tauto|].
  destruct l as [|y l]; simpl in *; tauto.
Qed.

Lemma ppath_app f l a l' : ppath f (l ++ a :: l') ↔ ppath f (l ++ [a]) ∧ ppath f (a :: l').
Proof.
  induction l as [|x l IH]; [simpl; tauto|].
  destruct l as [|y l]; simpl in *; tauto.
Qed.

Lemma npath_ext f g l a :
  (∀ x, x ∈ l → f x = g x) → npath f (l ++ [a]) → npath g (l ++ [a]).
Proof.
  induction l as [|x l IH]; intros Heq; [done|].
  specialize (IH (λ y Hy, Heq y ltac:(by right))).
  pose proof (Heq x ltac:(by left)) as Hx.
  destruct l as [|y l]; simpl in *; rewrite <-Hx; tauto.
Qed.

Lemma ppath_ext f g a l :
  (∀ x, x ∈ l → f x = g x) → ppath f (a :: l) → ppath g (a :: l).
Proof.
  revert a. induction l as [|x l IH]; intros a Heq; [done|].
  specialize (IH x (λ y Hy, Heq y ltac:(by right))).
  pose proof (Heq x ltac:(by left)) as Hx.
  simpl in *. rewrite <-Hx. tauto.
Qed.

(** *** Stores *)

Lemma upd_spec p i f :
  is_Some (pool_elt_at_index p i) →
  ∃ p', upd p i f = Some p' ∧ (pool_ok p → pool_ok p') ∧ pool_len p' = pool_len p ∧
    ∀ j, pool_elt_at_index p' j = if decide (j = i) then f <$> pool_elt_at_index p i else pool_elt_at_index p j.
Proof.
  intros [t Ht]. unfold upd. rewrite Ht. simpl. eexists. split; [done|].
  split; [apply pool_set_ok|]. split; [apply pool_set_len|].
  intros j. apply pool_elt_set. by exists t.
Qed.

(** Two pools that differ in links only. *)
Record same_but_links (p p' : pool tw_timer) : Prop := {
  sbl_ok : pool_ok p → pool_ok p';
  sbl_len : pool_len p' = pool_len p;
  sbl_meta i : meta p' i = meta p i;
}.

Lemma same_but_links_refl p : same_but_links p p.
Proof. by split. Qed.
Lemma same_but_links_trans p p' p'' :
  same_but_links p p' → same_but_links p' p'' → same_but_links p p''.
Proof. intros [H1 H2 H3] [H4 H5 H6]. split; [tauto|congruence|congruence]. Qed.

Lemma meta_live p i : is_Some (meta p i) ↔ is_Some (pool_elt_at_index p i).
Proof. unfold meta. by rewrite fmap_is_Some. Qed.
Lemma sbl_live p p' i :
  same_but_links p p' → is_Some (pool_elt_at_index p' i) ↔ is_Some (pool_elt_at_index p i).
Proof. intros H. by rewrite <-!meta_live, (sbl_meta _ _ H). Qed.
Lemma nx_live p i : is_Some (nx p i) ↔ is_Some (pool_elt_at_index p i).
Proof. unfold nx. by rewrite fmap_is_Some. Qed.

(** The effect of a store to [next] or to [prev]. *)
Lemma upd_next_spec p i x :
  is_Some (pool_elt_at_index p i) →
  ∃ p', upd p i (with_next x) = Some p' ∧ same_but_links p p' ∧
    (∀ j, nx p' j = if decide (j = i) then Some x else nx p j) ∧ (∀ j, pv p' j = pv p j).
Proof.
  intros Hi. destruct (upd_spec p i (with_next x) Hi) as (p' & -> & Hok & Hlen & Helt).
  exists p'. split; [done|]. destruct Hi as [t Ht].
  split; [split; [done..|]|split]; intros j; unfold meta, nx, pv; rewrite Helt;
    case_decide; subst; rewrite ?Ht; done.
Qed.

Lemma upd_prev_spec p i x :
  is_Some (pool_elt_at_index p i) →
  ∃ p', upd p i (with_prev x) = Some p' ∧ same_but_links p p' ∧
    (∀ j, nx p' j = nx p j) ∧ (∀ j, pv p' j = if decide (j = i) then Some x else pv p j).
Proof.
  intros Hi. destruct (upd_spec p i (with_prev x) Hi) as (p' & -> & Hok & Hlen & Helt).
  exists p'. split; [done|]. destruct Hi as [t Ht].
  split; [split; [done..|]|split]; intros j; unfold meta, nx, pv; rewrite Helt;
    case_decide; subst; rewrite ?Ht; done.
Qed.

Lemma upd_links_spec p i x y :
  is_Some (pool_elt_at_index p i) →
  ∃ p', upd p i (λ t, with_next x (with_prev y t)) = Some p' ∧ same_but_links p p' ∧
    (∀ j, nx p' j = if decide (j = i) then Some x else nx p j) ∧
    (∀ j, pv p' j = if decide (j = i) then Some y else pv p j).
Proof.
  intros Hi. destruct (upd_spec p i (λ t, with_next x (with_prev y t)) Hi) as (p' & -> & Hok & Hlen & Helt).
  exists p'. split; [done|]. destruct Hi as [t Ht].
  split; [split; [done..|]|split]; intros j; unfold meta, nx, pv; rewrite Helt;
    case_decide; subst; rewrite ?Ht; done.
Qed.

(** *** Insertion at the head and removal, on one list *)

Lemma timer_addhead_list p k l i :
  is_Some (pool_elt_at_index p i) →
  i ≠ k → i ∉ l → k ∉ l → NoDup l →
  npath (nx p) (k :: l ++ [k]) → ppath (pv p) (k :: l ++ [k]) →
  ∃ p', timer_addhead p k i = Some p' ∧ same_but_links p p' ∧
    npath (nx p') (k :: (i :: l) ++ [k]) ∧ ppath (pv p') (k :: (i :: l) ++ [k]) ∧
    (∀ j, j ≠ k → j ≠ i → nx p' j = nx p j) ∧
    (∀ j, j ≠ k → j ≠ i → j ∉ l → pv p' j = pv p j).
Proof.
  intros Hi Hik Hil Hkl Hnd Hn Hp. unfold timer_addhead.
  destruct l as [|f l]; simpl in Hn, Hp.
  - destruct Hn as [Hn _], Hp as [Hp _].
    unfold nx in Hn. apply fmap_Some in Hn as (hd & Hhd & Hnext). rewrite Hhd. simpl.
    destruct Hi as [t Ht]. rewrite Ht. simpl. rewrite <-Hnext, Z.eqb_refl.
    destruct (upd_links_spec p k i i) as (p1 & -> & Hs1 & Hn1 & Hp1); [by eexists|]. simpl.
    destruct (upd_links_spec p1 i k k) as (p2 & -> & Hs2 & Hn2 & Hp2).
    { apply (sbl_live _ _ _ Hs1). by eexists. }
    exists p2. split; [done|]. split; [by eapply same_but_links_trans|].
    split_and!; simpl; try intros j **; rewrite ?Hn2, ?Hp2, ?Hn1, ?Hp1; repeat case_decide; done.
  - apply not_elem_of_cons in Hil as [Hif Hil]. apply not_elem_of_cons in Hkl as [Hkf Hkl].
    destruct Hn as [Hnk Hn], Hp as [Hpk Hp].
    unfold nx in Hnk. apply fmap_Some in Hnk as (hd & Hhd & ->). rewrite Hhd. simpl.
    destruct Hi as [t Ht]. rewrite Ht. simpl.
    replace (next hd =? k) with false by (symmetry; apply Z.eqb_neq; done).
    set (f := next hd) in *.
    assert (is_Some (pool_elt_at_index p f)) as Hf.
    { unfold pv in Hpk. apply fmap_Some in Hpk as (? & -> & _). by eexists. }
    destruct Hf as [tf Htf]. rewrite Htf. simpl.
    destruct (upd_next_spec p i f) as (p1 & -> & Hs1 & Hn1 & Hp1); [by eexists|]. simpl.
    assert (is_Some (pool_elt_at_index p1 f)) as [tf1 Htf1] by (apply (sbl_live _ _ _ Hs1); by eexists).
    rewrite Htf1. simpl.
    assert (prev tf1 = k) as ->.
    { pose proof (Hp1 f) as He. rewrite Hpk in He. unfold pv in He. rewrite Htf1 in He. simpl in He. congruence. }
    destruct (upd_prev_spec p1 i k) as (p2 & -> & Hs2 & Hn2 & Hp2).
    { apply (sbl_live _ _ _ Hs1). by eexists. }
    simpl. pose proof (same_but_links_trans _ _ _ Hs1 Hs2) as Hs12.
    destruct (upd_prev_spec p2 f i) as (p3 & -> & Hs3 & Hn3 & Hp3).
    { apply (sbl_live _ _ _ Hs12). by eexists. }
    simpl. pose proof (same_but_links_trans _ _ _ Hs12 Hs3) as Hs13.
    destruct (upd_next_spec p3 k i) as (p4 & -> & Hs4 & Hn4 & Hp4).
    { apply (sbl_live _ _ _ Hs13). by eexists. }
    exists p4. split; [done|]. split; [by eapply same_but_links_trans|].
    apply NoDup_cons in Hnd as [Hfl Hnd].
    assert (∀ j, nx p4 j = if decide (j = k) then Some i else if decide (j = i) then Some f else nx p j) as HN.
    { intros j. by rewrite Hn4, Hn3, Hn2, Hn1. }
    assert (∀ j, pv p4 j = if decide (j = f) then Some i else if decide (j = i) then Some k else pv p j) as HP.
    { intros j. by rewrite Hp4, Hp3, Hp2, Hp1. }
    split; [|split; [|split]].
    + split; [by rewrite HN, decide_True|]. split; [by rewrite HN, decide_False, decide_True|].
      apply (npath_ext (nx p) _ (f :: l)); [|done].
      intros x Hx. rewrite HN, !decide_False; [done|set_solver..].
    + split; [by rewrite HP, decide_False, decide_True|]. split; [by rewrite HP, decide_True|].
      apply (ppath_ext (pv p) _ f (l ++ [k])); [|done].
      intros x Hx. rewrite HP, !decide_False; [done| |]; intros ->; set_solver.
    + intros j ??. by rewrite HN, !decide_False.
    + intros j ?? Hj. rewrite HP, !decide_False; [done..|]. intros ->. apply Hj. by left.
Qed.

(** The neighbours of [i] in a circular list, and what they differ from. *)
Lemma neighbours (k : Z) l1 i l2 :
  NoDup (k :: l1 ++ i :: l2) →
  ∃ a b la lb, k :: l1 = la ++ [a] ∧ l2 ++ [k] = b :: lb ∧ a ≠ i ∧ b ≠ i ∧
    (∀ x, x ∈ la → x ≠ a ∧ x ≠ i) ∧ (∀ x, x ∈ l2 → x ≠ a ∧ x ≠ i) ∧
    (∀ x, x ∈ l1 → x ≠ b ∧ x ≠ i) ∧ (∀ x, x ∈ lb → x ≠ b ∧ x ≠ i) ∧
    a ∈ k :: l1 ∧ b ∈ l2 ++ [k].
Proof.
  intros Hnd. change (NoDup ((k :: l1) ++ i :: l2)) in Hnd.
  apply list.NoDup_app in Hnd as (H1 & Hd & H2). apply NoDup_cons in H2 as [Hi2 H2].
  destruct (exists_last (l := k :: l1)) as (la & a & Hla); [done|].
  destruct (l2 ++ [k]) as [|b lb] eqn:Hlb; [by destruct l2|].
  assert (a ∈ k :: l1) as Ha by (rewrite Hla; set_solver).
  assert (∀ x, x ∈ b :: lb ↔ x ∈ l2 ∨ x = k) as Hb.
  { intros x. rewrite <-Hlb, elem_of_app, list_elem_of_singleton. done. }
  assert (NoDup (b :: lb)) as Hndb.
  { rewrite <-Hlb. apply list.NoDup_app. split; [done|]. split; [|apply NoDup_singleton].
    intros x Hx Hxk%list_elem_of_singleton. rewrite Hxk in Hx. apply (Hd k); [by left|by right]. }
  apply NoDup_cons in Hndb as [Hblb _].
  assert (∀ x, x ∈ k :: l1 → x ≠ i) as Hk by (intros x Hx ->; apply (Hd i Hx); by left).
  assert (∀ x, x ∈ b :: lb → x ≠ i) as Hbi.
  { intros x Hx Hxi. rewrite Hxi in Hx. apply Hb in Hx as [Hx|Hx]; [done|].
    apply (Hk i); [rewrite Hx; by left|done]. }
  exists a, b, la, lb. split; [done|]. split; [done|]. split; [by apply Hk|]. split; [apply Hbi; by left|].
  split; [|split; [|split; [|split; [|split]]]].
  - intros x Hx. split; [|apply Hk; rewrite Hla; set_solver].
    intros ->. rewrite Hla in H1. apply list.NoDup_app in H1 as (_ & H1 & _). apply (H1 a Hx). by left.
  - intros x Hx. split; [|by intros ->]. intros ->. apply (Hd a Ha). by right.
  - intros x Hx. split; [|apply Hk; by right].
    intros ->. destruct (proj1 (Hb b) ltac:(by left)) as [Hb2|Hb2].
    + apply (Hd b); by right.
    + rewrite Hb2 in Hx. by apply NoDup_cons in H1 as [H1 _].
  - intros x Hx. split; [by intros ->|]. apply Hbi. by right.
  - done.
  - by left.
Qed.

Lemma timer_remove_list p k l1 i l2 h :
  NoDup (k :: l1 ++ i :: l2) →
  snd <$> meta p i = Some h → h ≠ u32_max →
  npath (nx p) (k :: (l1 ++ i :: l2) ++ [k]) → ppath (pv p) (k :: (l1 ++ i :: l2) ++ [k]) →
  ∃ p', timer_remove p i = Some p' ∧ same_but_links p p' ∧
    npath (nx p') (k :: (l1 ++ l2) ++ [k]) ∧ ppath (pv p') (k :: (l1 ++ l2) ++ [k]) ∧
    (∀ j, j ∉ k :: l1 ++ i :: l2 → nx p' j = nx p j ∧ pv p' j = pv p j).
Proof.
  intros Hnd Hh Hh' Hn Hp. unfold timer_remove.
  destruct (neighbours k l1 i l2 Hnd) as (a & b & la & lb & Hla & Hlb & Hai & Hbi & F1 & F2 & F3 & F4 & Ha & Hb).
  assert (∀ m, k :: (l1 ++ m) ++ [k] = la ++ a :: m ++ [k]) as Heq.
  { intros m. rewrite <-app_assoc. change (k :: l1 ++ m ++ [k]) with ((k :: l1) ++ m ++ [k]).
    rewrite Hla, <-app_assoc. done. }
  rewrite Heq in Hn, Hp. rewrite Heq. simpl in Hn, Hp. rewrite Hlb in Hn, Hp.
  apply npath_app in Hn as [Hn1 (Hna & Hni & Hn2)]. apply ppath_app in Hp as [Hp1 (Hpi & Hpb & Hp2)].
  unfold nx in Hni. apply fmap_Some in Hni as (ti & Hti & Htib).
  unfold pv in Hpi. rewrite Hti in Hpi. simpl in Hpi. injection Hpi as Htia.
  rewrite Hti. simpl. unfold meta in Hh. rewrite Hti in Hh. simpl in Hh. injection Hh as Hh.
  replace (user_handle ti =? u32_max) with false by (symmetry; apply Z.eqb_neq; congruence). simpl.
  rewrite <-Htib, Htia.
  assert (is_Some (pool_elt_at_index p b)) as [tb Htb].
  { unfold pv in Hpb. apply fmap_Some in Hpb as (? & -> & _). by eexists. }
  assert (is_Some (pool_elt_at_index p a)) as [ta Hta].
  { unfold nx in Hna. apply fmap_Some in Hna as (? & -> & _). by eexists. }
  rewrite Htb, Hta. simpl.
  destruct (upd_prev_spec p b a) as (p1 & -> & Hs1 & HN1 & HP1); [by eexists|]. simpl.
  assert (is_Some (pool_elt_at_index p1 i)) as [ti1 Hti1] by (apply (sbl_live _ _ _ Hs1); by eexists).
  rewrite Hti1. simpl.
  assert (next ti1 = b) as ->.
  { pose proof (HN1 i) as He. unfold nx in He. rewrite Hti1, Hti in He. simpl in He. congruence. }
  destruct (upd_next_spec p1 a b) as (p2 & -> & Hs2 & HN2 & HP2).
  { apply (sbl_live _ _ _ Hs1). by eexists. }
  simpl. pose proof (same_but_links_trans _ _ _ Hs1 Hs2) as Hs12.
  destruct (upd_links_spec p2 i u32_max u32_max) as (p3 & Hp3 & Hs3 & HN3 & HP3).
  { apply (sbl_live _ _ _ Hs12). by eexists. }
  exists p3. split; [exact Hp3|]. split; [by eapply same_but_links_trans|].
  assert (∀ j, j ≠ i → j ≠ a → nx p j = nx p3 j) as HN by (intros; by rewrite HN3, HN2, HN1, !decide_False).
  assert (∀ j, j ≠ i → j ≠ b → pv p j = pv p3 j) as HP by (intros; by rewrite HP3, HP2, HP1, !decide_False).
  assert (nx p3 a = Some b) as HNa by by rewrite HN3, HN2, decide_False, decide_True.
  assert (pv p3 b = Some a) as HPb by by rewrite HP3, HP2, HP1, decide_False, decide_True.
  rewrite npath_app, ppath_app, Hlb. split; [|split].
  - split; [|split; [done|]].
    + apply (npath_ext (nx p)); [|done]. intros x Hx. apply HN; by apply F1.
    + rewrite <-Hlb in Hn2 |- *. apply (npath_ext (nx p)); [|done]. intros x Hx. apply HN; by apply F2.
  - split; [|split; [done|]].
    + rewrite <-Hla in Hp1 |- *. apply (ppath_ext (pv p)); [|done]. intros x Hx. apply HP; by apply F3.
    + apply (ppath_ext (pv p)); [|done]. intros x Hx. apply HP; by apply F4.
  - intros j Hj. assert (j ≠ i ∧ j ≠ a ∧ j ≠ b) as (?&?&?).
    { change (k :: l1 ++ i :: l2) with ((k :: l1) ++ i :: l2) in Hj. set_solver. }
    split; symmetry; [by apply HN|by apply HP].
Qed.
(** ** All the lists of a wheel

    [rings H p L D]: the elements of [p] are the heads [0..H-1], the timers of the
    lists [L k] of these heads, and the detached timers [D]. *)

Definition linked (p : pool tw_timer) (k : Z) (l : list Z) : Prop :=
  npath (nx p) (k :: l ++ [k]) ∧ ppath (pv p) (k :: l ++ [k]).

Lemma linked_ext p p' k l :
  (∀ j, j = k ∨ j ∈ l → nx p' j = nx p j ∧ pv p' j = pv p j) → linked p k l → linked p' k l.
Proof.
  intros Heq [Hn Hp]. split.
  - apply (npath_ext (nx p) _ (k :: l)); [|done]. intros x Hx. symmetry. apply Heq. set_solver.
  - apply (ppath_ext (pv p)); [|done]. intros x Hx. symmetry. apply Heq. set_solver.
Qed.

Section rings.
Variables lo H : Z.
Implicit Types (p : pool tw_timer) (L : Z → list Z) (D l : list Z) (i j k : Z).

(** All the timers, list by list. *)
Definition flat L D : list Z := concat (L <$> zrange lo H) ++ D.
Definition others L k : list Z := concat (L <$> zrange lo k) ++ concat (L <$> zrange (k + 1) H).

Lemma fmap_insert_out L k l (xs : list Z) : k ∉ xs → <[k := l]> L <$> xs = L <$> xs.
Proof.
  intros Hk. apply list_fmap_ext. intros n x Hx%list_elem_of_lookup_2.
  apply fn_lookup_insert_ne. intros ->. done.
Qed.

Lemma flat_split L D k : lo ≤ k < H → flat L D ≡ₚ L k ++ others L k ++ D.
Proof.
  intros Hk. unfold flat, others. rewrite (zrange_app lo k H), (zrange_cons k H) by lia.
  rewrite fmap_app, fmap_cons, concat_app. cbn [concat]. rewrite <-!app_assoc.
  rewrite !(assoc_L (++)), (Permutation_app_comm (concat _) (L k)). by rewrite <-!(assoc_L (++)).
Qed.

Lemma others_insert L k l : others (<[k := l]> L) k = others L k.
Proof. unfold others. rewrite !fmap_insert_out by (rewrite elem_of_zrange; lia). done. Qed.

Lemma flat_insert L D k l : lo ≤ k < H → flat (<[k := l]> L) D ≡ₚ l ++ others L k ++ D.
Proof. intros Hk. rewrite (flat_split _ D k) by done. by rewrite others_insert, fn_lookup_insert. Qed.

Lemma elem_of_others L k k' j : lo ≤ k' < H → k' ≠ k → j ∈ L k' → j ∈ others L k.
Proof.
  intros Hk' Hne Hj. unfold others. rewrite elem_of_app, !elem_of_concat.
  destruct (decide (k' < k)); [left|right]; exists (L k'); (split; [done|]);
    apply list_elem_of_fmap; exists k'; (split; [done|]); apply elem_of_zrange; lia.
Qed.

Lemma elem_of_flat L D i : i ∈ flat L D ↔ i ∈ D ∨ ∃ k, lo ≤ k < H ∧ i ∈ L k.
Proof.
  unfold flat. rewrite elem_of_app, elem_of_concat. split.
  - intros [(l & Hi & Hl)|?]; [|by left]. apply list_elem_of_fmap in Hl as (k & -> & Hk%elem_of_zrange). eauto.
  - intros [?|(k & Hk & Hi)]; [by right|]. left. exists (L k). split; [done|].
    apply list_elem_of_fmap. exists k. split; [done|]. by apply elem_of_zrange.
Qed.

Record rings p L D : Prop := {
  r_ok : pool_ok p;
  r_linked k : lo ≤ k < H → linked p k (L k);
  r_live i : is_Some (pool_elt_at_index p i) ↔ lo ≤ i < H ∨ i ∈ flat L D;
  r_nodup : NoDup (flat L D);
  r_high i : i ∈ flat L D → ¬ lo ≤ i < H;
}.

Lemma r_split p L D k : rings p L D → lo ≤ k < H → NoDup (L k ++ others L k ++ D).
Proof. intros Hr Hk. rewrite <-flat_split by done. apply Hr. Qed.

Lemma r_head_live p L D k : rings p L D → lo ≤ k < H → is_Some (pool_elt_at_index p k).
Proof. intros Hr Hk. apply (r_live _ _ _ Hr). by left. Qed.

Lemma r_det_live p L D i : rings p L D → i ∈ D → is_Some (pool_elt_at_index p i).
Proof. intros Hr Hi. apply (r_live _ _ _ Hr). right. apply elem_of_flat. by left. Qed.

Lemma r_list_high p L D k i : rings p L D → lo ≤ k < H → i ∈ L k → ¬ lo ≤ i < H.
Proof. intros Hr Hk Hi. apply (r_high _ _ _ Hr), elem_of_flat. eauto. Qed.

Lemma r_det_high p L D i : rings p L D → i ∈ D → ¬ lo ≤ i < H.
Proof. intros Hr Hi. apply (r_high _ _ _ Hr), elem_of_flat. eauto. Qed.

Lemma r_list_nodup p L D k : rings p L D → lo ≤ k < H → NoDup (L k).
Proof. intros Hr Hk. pose proof (r_split _ _ _ k Hr Hk) as Hs. by apply list.NoDup_app in Hs as [? _]. Qed.

Lemma r_disj p L D k k' j :
  rings p L D → lo ≤ k < H → lo ≤ k' < H → j ∈ L k → j ∈ L k' → k = k'.
Proof.
  intros Hr Hk Hk' Hj Hj'. destruct (decide (k' = k)) as [|Hne]; [done|].
  pose proof (r_split _ _ _ k Hr Hk) as Hs. apply list.NoDup_app in Hs as (_ & Hs & _).
  destruct (Hs j Hj). apply elem_of_app. left. by apply (elem_of_others L k k').
Qed.

Lemma r_det_disj p L D k j : rings p L D → lo ≤ k < H → j ∈ L k → j ∉ D.
Proof.
  intros Hr Hk Hj Hd. pose proof (r_split _ _ _ k Hr Hk) as Hs. apply list.NoDup_app in Hs as (_ & Hs & _).
  apply (Hs j Hj). apply elem_of_app. by right.
Qed.

(** Rearranging one list and the detached timers. *)
Lemma rings_update p p' L D k l D' :
  rings p L D → lo ≤ k < H → l ++ D' ≡ₚ L k ++ D →
  same_but_links p p' → linked p' k l →
  (∀ j, j ≠ k → j ∉ L k → j ∉ D → nx p' j = nx p j ∧ pv p' j = pv p j) →
  rings p' (<[k := l]> L) D'.
Proof.
  intros Hr Hk Hperm Hs Hl Hframe.
  assert (flat (<[k := l]> L) D' ≡ₚ flat L D) as Hf.
  { rewrite flat_insert, (flat_split L D k) by done.
    rewrite !(Permutation_app_comm (others L k)), !(assoc_L (++)). by rewrite Hperm. }
  split.
  - apply (sbl_ok _ _ Hs), Hr.
  - intros k' Hk'. destruct (decide (k' = k)) as [->|Hne]; [by rewrite fn_lookup_insert|].
    rewrite fn_lookup_insert_ne by done. apply (linked_ext p); [|by apply (r_linked _ _ _ Hr)].
    intros j Hj. destruct Hj as [->|Hj].
    + apply Hframe; [done|intros Hj..].
      * apply (r_list_high _ _ _ _ _ Hr) in Hj; lia.
      * apply (r_det_high _ _ _ _ Hr) in Hj; lia.
    + pose proof (r_list_high _ _ _ _ _ Hr Hk' Hj). apply Hframe; [lia|intros Hj'..].
      * apply Hne. by apply (r_disj _ _ _ k' k j Hr).
      * by apply (r_det_disj _ _ _ k' j Hr).
  - intros i. rewrite (sbl_live _ _ _ Hs), Hf. apply Hr.
  - rewrite Hf. apply Hr.
  - intros i. rewrite Hf. apply Hr.
Qed.

Lemma rings_addhead p L D k i :
  rings p L (i :: D) → lo ≤ k < H →
  ∃ p', timer_addhead p k i = Some p' ∧ same_but_links p p' ∧
    rings p' (<[k := i :: L k]> L) D ∧ (∀ j, j ≠ k → j ≠ i → nx p' j = nx p j).
Proof.
  intros Hr Hk. assert (i ∈ i :: D) as HiD by by left.
  destruct (r_linked _ _ _ Hr k Hk) as [Hn Hp].
  destruct (timer_addhead_list p k (L k) i) as (p' & Hadd & Hs & Hn' & Hp' & Hfn & Hfp); try done.
  - by apply (r_det_live _ _ _ _ Hr).
  - pose proof (r_det_high _ _ _ _ Hr HiD). lia.
  - intros Hin. by apply (r_det_disj _ _ _ _ _ Hr Hk Hin).
  - intros Hin. apply (r_list_high _ _ _ _ _ Hr Hk) in Hin. lia.
  - by apply (r_list_nodup _ _ _ _ Hr).
  - exists p'. split; [done|]. split; [done|]. split; [|done].
    apply (rings_update p p' L (i :: D) k (i :: L k) D); try done.
    + simpl. by rewrite Permutation_middle.
    + intros j ? Hj Hd. apply not_elem_of_cons in Hd as [? _]. split; [by apply Hfn|by apply Hfp].
Qed.

Lemma rings_remove p L D k i h :
  rings p L D → lo ≤ k < H → i ∈ L k → snd <$> meta p i = Some h → h ≠ u32_max →
  ∃ p' l1 l2, L k = l1 ++ i :: l2 ∧ timer_remove p i = Some p' ∧ same_but_links p p' ∧
    rings p' (<[k := l1 ++ l2]> L) (i :: D).
Proof.
  intros Hr Hk Hi Hh Hh'. pose proof (r_list_nodup _ _ _ _ Hr Hk) as Hnd.
  destruct (r_linked _ _ _ Hr k Hk) as [Hn Hp].
  apply list_elem_of_split in Hi as (l1 & l2 & Hl).
  destruct (timer_remove_list p k l1 i l2 h) as (p' & Hrem & Hs & Hn' & Hp' & Hf); try done.
  - apply NoDup_cons. rewrite <-Hl. split; [|done].
    intros Hin. apply (r_list_high _ _ _ _ _ Hr Hk) in Hin. lia.
  - by rewrite <-Hl.
  - by rewrite <-Hl.
  - exists p', l1, l2. split; [done|]. split; [done|]. split; [done|].
    apply (rings_update p p' L D k (l1 ++ l2) (i :: D)); try done.
    + rewrite Hl, <-!app_assoc. simpl. by rewrite Permutation_middle.
    + intros j Hjk Hj Hd. apply Hf. rewrite <-Hl. set_solver.
Qed.

(** Emptying a slot detaches its timers, which stay chained through [next]. *)
Lemma rings_empty p L D k :
  rings p L D → lo ≤ k < H →
  ∃ p', empty_slot p k = Some (p', hd k (L k)) ∧ same_but_links p p' ∧
    rings p' (<[k := []]> L) (L k ++ D) ∧ npath (nx p') (L k ++ [k]).
Proof.
  intros Hr Hk. unfold empty_slot. destruct (r_linked _ _ _ Hr k Hk) as [Hn _].
  destruct (r_head_live _ _ _ _ Hr Hk) as [t Ht]. rewrite Ht. simpl.
  destruct (upd_links_spec p k k k) as (p' & -> & Hs & HN & HP); [by eexists|]. simpl.
  exists p'. split; [|split; [done|split]].
  - assert (nx p k = Some (hd k (L k))) as Hnx.
    { destruct (L k) as [|x l]; simpl in Hn; apply Hn. }
    unfold nx in Hnx. rewrite Ht in Hnx. simpl in Hnx. by injection Hnx as ->.
  - apply (rings_update p p' L D k [] (L k ++ D)); try done.
    + split; simpl; (split; [|done]); [by rewrite HN, decide_True|by rewrite HP, decide_True].
    + intros j Hjk ??. by rewrite HN, HP, !decide_False.
  - apply (npath_ext (nx p)).
    + intros x Hx. rewrite HN, decide_False; [done|].
      intros ->. apply (r_list_high _ _ _ _ _ Hr Hk) in Hx. lia.
    + destruct (L k) as [|x l]; [done|]. apply Hn.
Qed.

(** Detached timers: allocation, stores, release. *)
Lemma rings_get p L D p' i :
  rings p L D → pool_len p < 2 ^ 32 → pool_get zero_timer p = (p', i) →
  rings p' L (i :: D) ∧ i ∉ flat L D ∧ (∀ j, j ≠ i → pool_elt_at_index p' j = pool_elt_at_index p j) ∧
  0 ≤ i < 2 ^ 32.
Proof.
  intros Hr Hlen Hg.
  destruct (pool_get_ok zero_timer p p' i (r_ok _ _ _ Hr) Hlen Hg) as (Hok & Hnone & Hsome & Hoth & Hi & _).
  assert (∀ j, is_Some (pool_elt_at_index p j) → j ≠ i) as Hne by (intros j [? Hj] ->; congruence).
  assert (i ∉ flat L D) as Hni by (intros Hin; apply (Hne i); [|done]; apply (r_live _ _ _ Hr); by right).
  assert (flat L (i :: D) ≡ₚ i :: flat L D) as Hf by (unfold flat; by rewrite Permutation_middle).
  assert (¬ lo ≤ i < H) as Hhi.
  { intros Hin. destruct (Hne i); [|done]. apply (r_live _ _ _ Hr). by left. }
  split; [|done]. split; [done|..].
  - intros k Hk. apply (linked_ext p); [|by apply (r_linked _ _ _ Hr)].
    intros j Hj. unfold nx, pv. rewrite Hoth; [done|]. apply Hne, (r_live _ _ _ Hr).
    destruct Hj as [->|Hj]; [by left|right]. apply elem_of_flat. eauto.
  - intros j. rewrite Hf, elem_of_cons. destruct (decide (j = i)) as [->|Hj]; [tauto|].
    rewrite Hoth, (r_live _ _ _ Hr) by done. tauto.
  - rewrite Hf. apply NoDup_cons. split; [done|apply Hr].
  - intros j. rewrite Hf, elem_of_cons. intros [->|Hj]; [done|by apply (r_high _ _ _ Hr)].
Qed.

Lemma rings_upd p L D i f :
  rings p L D → i ∈ D →
  ∃ p', upd p i f = Some p' ∧ rings p' L D ∧ pool_len p' = pool_len p ∧
    ∀ j, pool_elt_at_index p' j = if decide (j = i) then f <$> pool_elt_at_index p i else pool_elt_at_index p j.
Proof.
  intros Hr Hi. pose proof (r_det_live _ _ _ _ Hr Hi) as Hlive.
  destruct (upd_spec p i f Hlive) as (p' & Hu & Hok & Hlen & Helt).
  exists p'. split; [done|]. split; [|done]. split; try apply Hr.
  - apply Hok, Hr.
  - intros k Hk. apply (linked_ext p); [|by apply (r_linked _ _ _ Hr)].
    intros j Hj. unfold nx, pv. rewrite Helt, decide_False; [done|]. intros ->.
    destruct Hj as [->|Hj]; [|by apply (r_det_disj _ _ _ _ _ Hr Hk Hj)].
    apply (r_det_high _ _ _ _ Hr) in Hi. lia.
  - intros j. rewrite Helt. case_decide; [subst|]; rewrite ?fmap_is_Some; apply Hr.
Qed.

Lemma rings_put p L D i :
  rings p L (i :: D) →
  rings (pool_put_index p i) L D ∧ pool_len (pool_put_index p i) = pool_len p ∧
  (∀ j, j ≠ i → pool_elt_at_index (pool_put_index p i) j = pool_elt_at_index p j).
Proof.
  intros Hr. assert (i ∈ i :: D) as HiD by by left.
  destruct (pool_put_ok p i (r_ok _ _ _ Hr)) as (Hok & Hnone & Hoth & Hlen); [by apply (r_det_live _ _ _ _ Hr)|].
  assert (flat L (i :: D) ≡ₚ i :: flat L D) as Hf by (unfold flat; by rewrite Permutation_middle).
  pose proof (r_nodup _ _ _ Hr) as Hnd. rewrite Hf in Hnd. apply NoDup_cons in Hnd as [Hni Hnd].
  pose proof (r_det_high _ _ _ _ Hr HiD) as Hhi.
  split; [|done]. split; [done|..].
  - intros k Hk. apply (linked_ext p); [|by apply (r_linked _ _ _ Hr)].
    intros j Hj. unfold nx, pv. rewrite Hoth; [done|]. intros ->. destruct Hj as [->|Hj]; [lia|].
    by apply (r_det_disj _ _ _ _ _ Hr Hk Hj).
  - intros j. destruct (decide (j = i)) as [->|Hj].
    + rewrite Hnone. split; [by intros [? ?]|]. intros [?|?]; [lia|done].
    + rewrite Hoth, (r_live _ _ _ Hr), Hf, elem_of_cons by done. tauto.
  - done.
  - intros j Hj. apply (r_high _ _ _ Hr). rewrite Hf. by right.
Qed.

Lemma rings_det_perm p L D D' : D ≡ₚ D' → rings p L D → rings p L D'.
Proof.
  intros Hp [H1 H2 H3 H4 H5]. assert (flat L D' ≡ₚ flat L D) as Hf by (unfold flat; by rewrite Hp).
  split; [done|done|..].
  - intros i. by rewrite Hf.
  - by rewrite Hf.
  - intros i. rewrite Hf. apply H5.
Qed.

(** The lists are no longer than the pool, which bounds the loops over them. *)
Lemma rings_fuel p L D : rings p L D → (length D ≤ length (elts p))%nat.
Proof.
  intros Hr. assert (NoDup D) as Hnd.
  { pose proof (r_nodup _ _ _ Hr) as Hnd. by apply list.NoDup_app in Hnd as (_ & _ & ?). }
  assert (D ⊆+ zrange 0 (pool_len p)) as Hsub.
  { apply NoDup_submseteq; [done|]. intros i Hi. apply elem_of_zrange.
    apply (r_det_live _ _ _ _ Hr) in Hi. apply elt_Some in Hi as [? _]; [done|apply Hr]. }
  apply submseteq_length in Hsub. unfold zrange in Hsub. rewrite length_seqZ in Hsub.
  unfold pool_len, zlen in Hsub. lia.
Qed.
End rings.
(** ** The loops over a slot *)

Section loops.
Context `{G : TwGeometry}.
Variables lo H : Z.
Implicit Types (p : pool tw_timer) (L : Z → list Z) (D rest : list Z) (i j k : Z).

Lemma expire_list_ok L D k rest : ∀ fuel p expired,
  k ∉ rest → rings lo H p L (rest ++ D) → npath (nx p) (rest ++ [k]) → (length rest ≤ fuel)%nat →
  ∃ p' hs, expire_list fuel p k (hd k rest) expired = Some (p', expired ++ hs) ∧
    rings lo H p' L D ∧ (λ i, snd <$> meta p i) <$> rest = Some <$> hs ∧
    pool_len p' = pool_len p ∧ (∀ j, j ∉ rest → pool_elt_at_index p' j = pool_elt_at_index p j).
Proof.
  induction rest as [|i rest IH]; intros fuel p expired Hk Hr Hn Hfuel.
  - exists p, []. rewrite app_nil_r. destruct fuel; simpl; rewrite Z.eqb_refl; by split_and!.
  - destruct fuel as [|fuel]; simpl in Hfuel; [lia|]. simpl.
    assert (i ∈ i :: rest ++ D) as HiD by by left.
    apply not_elem_of_cons in Hk as [Hki Hk].
    replace (i =? k) with false by (symmetry; apply Z.eqb_neq; done).
    destruct (r_det_live _ _ _ _ _ _ Hr HiD) as [t Ht]. rewrite Ht. simpl.
    assert (next t = hd k rest) as ->.
    { assert (nx p i = Some (hd k rest)) as Hx by (destruct rest; simpl in Hn; apply Hn).
      unfold nx in Hx. rewrite Ht in Hx. simpl in Hx. congruence. }
    assert (i ∉ rest) as Hni.
    { pose proof (r_nodup _ _ _ _ _ Hr) as Hnd. unfold flat in Hnd.
      apply list.NoDup_app in Hnd as (_ & _ & Hnd). simpl in Hnd. apply NoDup_cons in Hnd as [Hnd _].
      set_solver. }
    destruct (rings_put lo H p L (rest ++ D) i Hr) as (Hr' & Hlen & Hoth).
    destruct (IH fuel (pool_put_index p i) (expired ++ [user_handle t]) Hk Hr') as
      (p' & hs & Hex & Hr2 & HF & Hlen2 & Hoth2).
    + apply (npath_ext (nx p)); [|by destruct rest; simpl in *; tauto].
      intros x Hx. unfold nx. rewrite Hoth; [done|]. by intros ->.
    + lia.
    + rewrite Hex. exists p', (user_handle t :: hs). split; [by rewrite <-app_assoc|].
      split; [done|]. split; [|split; [congruence|]].
      * cbn [fmap list_fmap]. unfold meta at 1. rewrite Ht. rewrite <-HF. simpl. f_equal.
        apply map_ext_in. intros x Hx%list_elem_of_In. unfold meta. rewrite Hoth; [done|]. by intros ->.
      * intros j Hj. apply not_elem_of_cons in Hj as [? ?]. rewrite Hoth2 by done. by apply Hoth.
Qed.

(** The collection loop also frees, so [free_list] is its first projection. *)
Lemma free_list_expire fuel : ∀ p k n expired,
  free_list fuel p k n = fst <$> expire_list fuel p k n expired.
Proof.
  induction fuel as [|fuel IH]; intros p k n expired; simpl; case_match; try done.
  destruct (pool_elt_at_index p n); simpl; [apply IH|done].
Qed.

Definition heads_ok (tw : tw_timer_wheel) : Prop :=
  ∀ r sl, 0 ≤ r < TW_TIMER_WHEELS → 0 ≤ sl < TW_SLOTS_PER_RING →
    slot_head tw r sl = Some (r * TW_SLOTS_PER_RING + sl).

Lemma deal_list_ok tw D k rest :
  heads_ok tw → 1 ≤ TW_TIMER_WHEELS → lo = 0 → TW_SLOTS_PER_RING ≤ H → lo ≤ k < H → ∀ fuel p L,
  rings lo H p L (rest ++ D) → npath (nx p) (rest ++ [k]) → (length rest ≤ fuel)%nat →
  (∀ i, i ∈ rest → ∃ o h, meta p i = Some (o, h) ∧ 0 ≤ o < TW_SLOTS_PER_RING) →
  ∃ p' L', deal_list fuel tw p k (hd k rest) = Some p' ∧ rings lo H p' L' D ∧ same_but_links p p' ∧
    (∀ k' j, j ∈ L' k' ↔ j ∈ L k' ∨ j ∈ rest ∧ fst <$> meta p j = Some k').
Proof.
  intros Hheads HW Hlo HS Hk. induction rest as [|i rest IH]; intros fuel p L Hr Hn Hfuel Hoff.
  - exists p, L. destruct fuel; simpl; rewrite Z.eqb_refl; (split; [done|]);
      (split; [done|]); (split; [apply same_but_links_refl|]); intros; set_solver.
  - destruct fuel as [|fuel]; simpl in Hfuel; [lia|]. simpl.
    assert (i ∈ i :: rest ++ D) as HiD by by left.
    pose proof (r_det_high _ _ _ _ _ _ Hr HiD) as Hi.
    replace (i =? k) with false by (symmetry; apply Z.eqb_neq; lia).
    destruct (r_det_live _ _ _ _ _ _ Hr HiD) as [t Ht]. rewrite Ht. simpl.
    assert (next t = hd k rest) as ->.
    { assert (nx p i = Some (hd k rest)) as Hx by (destruct rest; simpl in Hn; apply Hn).
      unfold nx in Hx. rewrite Ht in Hx. simpl in Hx. congruence. }
    assert (i ∉ rest) as Hni.
    { pose proof (r_nodup _ _ _ _ _ Hr) as Hnd. unfold flat in Hnd.
      apply list.NoDup_app in Hnd as (_ & _ & Hnd). simpl in Hnd. apply NoDup_cons in Hnd as [Hnd _].
      set_solver. }
    destruct (Hoff i ltac:(by left)) as (o & h & Hm & Ho).
    assert (fast_ring_offset t = o) as ->.
    { unfold meta in Hm. rewrite Ht in Hm. simpl in Hm. congruence. }
    destruct (rings_upd lo H p L (i :: rest ++ D) i (λ e, with_next u32_max (with_prev u32_max e)) Hr HiD)
      as (p1 & Hu & Hr1 & Hlen1 & Helt1).
    rewrite Hu. simpl. replace (o <? TW_SLOTS_PER_RING) with true by (symmetry; apply Z.ltb_lt; lia). simpl.
    unfold TW_TIMER_RING_FAST. rewrite (Hheads 0 o), Z.mul_0_l, Z.add_0_l by lia. simpl.
    assert (same_but_links p p1) as Hs1.
    { split; [intros _; apply Hr1|done|]. intros j. unfold meta. rewrite Helt1.
      case_decide; [subst|done]. by rewrite Ht. }
    destruct (rings_addhead lo H p1 L (rest ++ D) o i Hr1) as (p2 & Hadd & Hs2 & Hr2 & Hnx2); [lia|].
    rewrite Hadd. simpl. pose proof (same_but_links_trans _ _ _ Hs1 Hs2) as Hs.
    destruct (IH fuel p2 (<[o := i :: L o]> L) Hr2) as (p' & L' & Hd & Hr' & Hs' & HL').
    + apply (npath_ext (nx p)); [|by destruct rest; simpl in *; tauto].
      intros x Hx. assert (x ∈ i :: rest ++ D) as HxD by set_solver.
      pose proof (r_det_high _ _ _ _ _ _ Hr HxD) as Hxh.
      rewrite Hnx2 by (lia || by intros ->). unfold nx. rewrite Helt1, decide_False; [done|]. by intros ->.
    + lia.
    + intros x Hx. rewrite (sbl_meta _ _ Hs). apply Hoff. by right.
    + exists p', L'. split; [done|]. split; [done|]. split; [by eapply same_but_links_trans|].
      intros k' j. rewrite HL', (sbl_meta _ _ Hs), elem_of_cons.
      assert (fst <$> meta p i = Some o) as Hmi by by rewrite Hm.
      destruct (decide (k' = o)) as [->|Hne].
      * rewrite fn_lookup_insert, elem_of_cons. split; [|naive_solver].
        intros [[->|?]|?]; naive_solver.
      * rewrite fn_lookup_insert_ne by done. split; [naive_solver|].
        intros [?|[[->|?] Hj]]; [by left|congruence|by right].
Qed.
End loops.
End TwTimer.
