(* ===== verification/TwTimerSpec.v ===== *)
(** * Timer wheels: specification and refinement

    A wheel implements a map from timer handles to a user handle and the tick at
    which the timer expires.  [rel] is the abstraction relation; [rel true] also
    says that nothing is due at the current tick, which holds while the expiry
    callback runs.  Starting, stopping and expiring timers are each shown to
    return and to implement the operation of the specification. *)

From stdpp Require Import gmap functions.
From S2P Require Import Prelude Bitmap Popcount Pool TwTimer.

Module TwSpec.
Import ClibPool TwTimer.TwTimer.

(** ** The specification *)

Record tw_spec := Spec { now : Z; due : gmap Z (Z * Z) }.

Definition spec_init : tw_spec := Spec 0 ∅.
Definition spec_start (s : tw_spec) (i h interval : Z) : tw_spec :=
  Spec (now s) (<[i := (h, now s + interval)]> (due s)).
Definition spec_stop (s : tw_spec) (i : Z) : tw_spec := Spec (now s) (delete i (due s)).

(** The user handles of the timers due at the current tick, and what remains. *)
Definition spec_fired (s : tw_spec) : list Z :=
  (λ x, x.2.1) <$> filter (λ x : Z * (Z * Z), x.2.2 = now s) (map_to_list (due s)).
Definition spec_clear (s : tw_spec) : tw_spec :=
  Spec (now s) (filter (λ x : Z * (Z * Z), x.2.2 ≠ now s) (due s)).
Definition spec_advance (s : tw_spec) : tw_spec := Spec (now s + 1) (due s).

(** What a callback may do: start and stop timers. *)
Inductive spec_api : tw_spec → tw_spec → Prop :=
| api_start s i h interval : due s !! i = None → 1 ≤ interval → spec_api s (spec_start s i h interval)
| api_stop s i : is_Some (due s !! i) → spec_api s (spec_stop s i).

(** [spec_ticks s fired s']: from [s], one list of expired user handles per tick. *)
Inductive spec_ticks : tw_spec → list (list Z) → tw_spec → Prop :=
| ticks_nil s : spec_ticks s [] s
| ticks_cons s fired s1 rest s2 :
    fired ≡ₚ spec_fired s → rtc spec_api (spec_clear s) s1 →
    spec_ticks (spec_advance s1) rest s2 → spec_ticks s (fired :: rest) s2.

(** ** Arithmetic *)

Lemma mod_pred a m : 0 < m → a `mod` m ≠ 0 → (a - 1) `mod` m = a `mod` m - 1.
Proof.
  intros Hm Ha. pose proof (Z.mod_pos_bound a m Hm) as Hr. pose proof (Z.div_mod a m ltac:(lia)) as Hd.
  symmetry. apply (Z.mod_unique_pos _ _ (a / m)); lia.
Qed.

Lemma mod_sub_wrap a b m : 0 < m → 0 ≤ b < m → ((a + b) `mod` m - b) `mod` m = a `mod` m.
Proof. intros Hm Hb. rewrite Zminus_mod_idemp_l. f_equal. lia. Qed.

Section refinement.
Context `{G : TwGeometry} `{!TwGeometryOk G}.
Notation S := (@TW_SLOTS_PER_RING G).
Notation W := (@TW_TIMER_WHEELS G).

Definition n_heads : Z := W * S.

Lemma slots_range : 2 ≤ S ≤ 2 ^ 14.
Proof.
  pose proof geo_shift as Hs. unfold TW_SLOTS_PER_RING. split.
  - change 2 with (2 ^ 1). apply Z.pow_le_mono_r; lia.
  - apply Z.pow_le_mono_r; lia.
Qed.

(** Head index of a slot: the fast ring first. *)
Definition remaining (F Sl k o : Z) : Z :=
  if k <? S then (if 1 <? W then k - F else (k - F) `mod` S)
  else ((k - S - Sl) `mod` S) * S + o - F.

Definition slot_ok (F Sl k o : Z) : Prop :=
  if k <? S then (if 1 <? W then F ≤ k else True) else k - S ≠ Sl ∧ 0 ≤ o < S.

Record wheel_rel (tw : tw_timer_wheel) (s : tw_spec) (L : Z → list Z) (F Sl : Z) : Prop := {
  rel_rings : rings 0 n_heads (timers tw) L [];
  rel_heads : heads_ok tw;
  rel_index : current_index tw = if 1 <? W then [F; Sl] else [F];
  rel_F : 0 ≤ F ≤ S;
  rel_Sl : 0 ≤ Sl < S;
  rel_tick : current_tick tw = u32 (now s);
  rel_head_meta k : 0 ≤ k < n_heads → snd <$> meta (timers tw) k = Some u32_max;
  rel_slots k i o h : 0 ≤ k < n_heads → i ∈ L k → meta (timers tw) i = Some (o, h) →
    slot_ok F Sl k o ∧ h ≠ u32_max;
  rel_due i h d : due s !! i = Some (h, d) ↔
    ∃ k o, 0 ≤ k < n_heads ∧ i ∈ L k ∧ meta (timers tw) i = Some (o, h) ∧ d = now s + remaining F Sl k o;
}.

Definition nothing_due (s : tw_spec) : Prop := ∀ i h d, due s !! i = Some (h, d) → now s < d.

Definition rel (in_callback : bool) (tw : tw_timer_wheel) (s : tw_spec) : Prop :=
  ∃ L F Sl, wheel_rel tw s L F Sl ∧ (in_callback = true → F < S ∧ nothing_due s).

Lemma rel_due_None tw s L F Sl i :
  wheel_rel tw s L F Sl → i ∉ flat 0 n_heads L [] → due s !! i = None.
Proof.
  intros Hw Hi. destruct (due s !! i) as [[h d]|] eqn:E; [|done].
  apply (rel_due _ _ _ _ _ Hw) in E as (k & o & Hk & Hin & _).
  destruct Hi. apply elem_of_flat. eauto.
Qed.

Lemma meta_elt p p' i : pool_elt_at_index p' i = pool_elt_at_index p i → meta p' i = meta p i.
Proof. unfold meta. by intros ->. Qed.

(** *** Starting a timer *)

Lemma rel_insert b tw s L F Sl p k i o h interval :
  wheel_rel tw s L F Sl → (b = true → F < S ∧ nothing_due s) →
  rings 0 n_heads p L [i] → i ∉ flat 0 n_heads L [] →
  (∀ j, j ≠ i → pool_elt_at_index p j = pool_elt_at_index (timers tw) j) →
  meta p i = Some (o, h) → h ≠ u32_max → 0 ≤ k < n_heads → slot_ok F Sl k o →
  interval = remaining F Sl k o → 1 ≤ interval →
  ∃ p', timer_addhead p k i = Some p' ∧ pool_len p' = pool_len p ∧
    rel b (with_timers p' tw) (spec_start s i h interval).
Proof.
  intros Hw Hb Hr Hni Hoth Hm Hh Hk Hslot -> Hint.
  destruct (rings_addhead 0 n_heads p L [] k i Hr Hk) as (p' & Hadd & Hs & Hr' & _).
  exists p'. split; [done|]. split; [apply (sbl_len _ _ Hs)|].
  assert (∀ k j, 0 ≤ k < n_heads → j ∈ L k → j ≠ i) as Hne.
  { intros k' j Hk' Hj ->. apply Hni, elem_of_flat. eauto. }
  assert (∀ j, j ≠ i → meta p' j = meta (timers tw) j) as Hmeta.
  { intros j Hj. rewrite (sbl_meta _ _ Hs). by apply meta_elt, Hoth. }
  assert (meta p' i = Some (o, h)) as Hm' by by rewrite (sbl_meta _ _ Hs).
  exists (<[k := i :: L k]> L), F, Sl. split.
  - split; try apply Hw; simpl.
    + done.
    + intros k' Hk'. rewrite Hmeta; [by apply Hw|].
      intros ->. pose proof (r_det_high _ _ _ _ _ _ Hr ltac:(by left)). lia.
    + intros k' j o' h' Hk' Hj Hmj. destruct (decide (j = i)) as [->|Hji].
      * rewrite Hm' in Hmj. injection Hmj as <- <-. split; [|done].
        destruct (decide (k' = k)) as [->|Hkk]; [done|].
        rewrite fn_lookup_insert_ne in Hj by done. by destruct (Hne k' i).
      * rewrite Hmeta in Hmj by done. apply (rel_slots _ _ _ _ _ Hw k' j); [done| |done].
        destruct (decide (k' = k)) as [->|Hkk].
        -- rewrite fn_lookup_insert in Hj. by apply elem_of_cons in Hj as [?|?].
        -- by rewrite fn_lookup_insert_ne in Hj.
    + intros j h' d. destruct (decide (j = i)) as [->|Hji].
      * rewrite lookup_insert_eq, Hm'. split.
        -- intros [= <- <-]. exists k, o. rewrite fn_lookup_insert. set_solver.
        -- intros (k' & o' & Hk' & Hj & [= <- <-] & ->). destruct (decide (k' = k)) as [->|Hkk]; [done|].
           rewrite fn_lookup_insert_ne in Hj by done. by destruct (Hne k' i).
      * rewrite lookup_insert_ne, (rel_due _ _ _ _ _ Hw), Hmeta by done.
        split; intros (k' & o' & Hk' & Hj & Hrest); exists k', o'; (split; [done|split; [|done]]);
          destruct (decide (k' = k)) as [->|Hkk]; rewrite ?fn_lookup_insert, ?fn_lookup_insert_ne in * by done;
          set_solver.
  - intros Hb'. destruct (Hb Hb') as [HF Hnd]. split; [done|].
    intros j h' d. simpl. destruct (decide (j = i)) as [->|Hji].
    + rewrite lookup_insert_eq. intros [= <- <-]. lia.
    + rewrite lookup_insert_ne by done. apply Hnd.
Qed.

(** The timer as allocated by [tw_timer_start], before it is linked. *)
Lemma start_alloc tw s L F Sl h :
  wheel_rel tw s L F Sl → pool_len (timers tw) < 2 ^ 32 →
  let '(p, i) := pool_get zero_timer (timers tw) in
  i ∉ flat 0 n_heads L [] ∧ 0 ≤ i < 2 ^ 32 ∧
  ∃ p1, upd p i (λ e, with_next u32_max (with_prev u32_max e)) = Some p1 ∧
  ∃ p2, (if 1 <? W then upd p1 i (with_offset 65535) else Some p1) = Some p2 ∧
  ∃ p3 o, upd p2 i (with_handle h) = Some p3 ∧ rings 0 n_heads p3 L [i] ∧ meta p3 i = Some (o, h) ∧
    pool_len p3 ≤ pool_len (timers tw) + 1 ∧
    (∀ j, j ≠ i → pool_elt_at_index p3 j = pool_elt_at_index (timers tw) j).
Proof.
  intros Hw Hlen. destruct (pool_get zero_timer (timers tw)) as [p i] eqn:Hg.
  pose proof (rel_rings _ _ _ _ _ Hw) as Hr0.
  destruct (pool_get_ok _ _ _ _ (r_ok _ _ _ _ _ Hr0) Hlen Hg) as (_ & _ & _ & _ & _ & Hl & _).
  destruct (rings_get _ _ _ _ _ _ _ Hr0 Hlen Hg) as (Hr & Hni & Hoth & Hi).
  split; [done|]. split; [done|].
  assert (i ∈ [i]) as Hin by by left.
  destruct (rings_upd _ _ _ _ _ _ (λ e, with_next u32_max (with_prev u32_max e)) Hr Hin)
    as (p1 & Hu1 & Hr1 & Hl1 & He1). exists p1. split; [done|].
  assert (∃ p2, (if 1 <? W then upd p1 i (with_offset 65535) else Some p1) = Some p2 ∧
    rings 0 n_heads p2 L [i] ∧ pool_len p2 = pool_len p1 ∧
    ∀ j, j ≠ i → pool_elt_at_index p2 j = pool_elt_at_index p1 j) as (p2 & Hu2 & Hr2 & Hl2 & He2).
  { destruct (1 <? W); [|by exists p1].
    destruct (rings_upd _ _ _ _ _ _ (with_offset 65535) Hr1 Hin) as (p2 & ? & ? & ? & He).
    exists p2. split_and!; try done. intros j Hj. by rewrite He, decide_False. }
  exists p2. split; [done|].
  destruct (rings_upd _ _ _ _ _ _ (with_handle h) Hr2 Hin) as (p3 & Hu3 & Hr3 & Hl3 & He3).
  destruct (r_det_live _ _ _ _ _ _ Hr2 Hin) as [t Ht].
  exists p3, (fast_ring_offset t). split; [done|]. split; [done|]. split.
  - unfold meta. rewrite He3, decide_True, Ht by done. done.
  - split; [lia|]. intros j Hj. rewrite He3, decide_False, He2, He1, decide_False by done. by apply Hoth.
Qed.

(** The longest interval that is accepted whatever the position of the wheel. *)
Definition tw_interval_limit : Z := if 1 <? W then (S - 1) * S else S.

Lemma land_ring_mask x : Z.land x TW_RING_MASK = x `mod` S.
Proof.
  unfold TW_RING_MASK, TW_SLOTS_PER_RING. pose proof geo_shift.
  rewrite <-(Z.land_ones x TW_RING_SHIFT) by lia. f_equal. rewrite Z.ones_equiv. lia.
Qed.

Lemma shiftr_ring_shift x : Z.shiftr x TW_RING_SHIFT = x / S.
Proof. pose proof geo_shift. by rewrite Z.shiftr_div_pow2 by lia. Qed.

Lemma start_rel b tw s pool_index timer_id interval h :
  rel b tw s → pool_len (timers tw) < 2 ^ 32 →
  make_internal_timer_handle pool_index timer_id = Some h → h ≠ u32_max →
  1 ≤ interval < tw_interval_limit →
  ∃ tw' i, tw_timer_start tw pool_index timer_id interval = Some (tw', i) ∧
    due s !! i = None ∧ 0 ≤ i < 2 ^ 32 ∧
    pool_len (timers tw') ≤ pool_len (timers tw) + 1 ∧
    rel b tw' (spec_start s i h interval).
Proof.
  intros (L & F & Sl & Hw & Hb) Hlen Hmk Hh Hint.
  unfold tw_timer_start. replace (interval =? 0) with false by (symmetry; apply Z.eqb_neq; lia). simpl.
  pose proof (start_alloc tw s L F Sl h Hw Hlen) as Ha.
  destruct (pool_get zero_timer (timers tw)) as [p i].
  destruct Ha as (Hni & Hi & p1 & Hu1 & p2 & Hu2 & p3 & o0 & Hu3 & Hr & Hm & Hl3 & Hoth).
  rewrite Hu1. simpl. rewrite Hu2. simpl. rewrite Hmk. simpl. rewrite Hu3. simpl.
  pose proof (rel_due_None _ _ _ _ _ _ Hw Hni) as Hdue.
  pose proof slots_range as HS. pose proof (rel_F _ _ _ _ _ Hw) as HF. pose proof (rel_Sl _ _ _ _ _ Hw) as HSl.
  pose proof (Z.mod_pos_bound interval S ltac:(lia)) as Hmod.
  pose proof (Z.div_mod interval S ltac:(lia)) as Hdm.
  pose proof (rel_heads _ _ _ _ _ Hw) as Hheads. unfold heads_ok in Hheads.
  rewrite (rel_index _ _ _ _ _ Hw), land_ring_mask, shiftr_ring_shift.
  unfold tw_interval_limit in Hint. pose proof geo_wheels as HW.
  destruct (1 <? W) eqn:E1.
  - assert (W = 2) as EW by (apply Z.ltb_lt in E1; lia). unfold vget at 1. simpl. rewrite (u16_small (interval `mod` S)) by (unfold in_u16; lia).
    rewrite (u16_small (interval `mod` S + F)) by (unfold in_u16; lia).
    assert (0 ≤ interval / S ≤ S - 2) as Hq.
    { split; [apply Z.div_pos; lia|]. assert (interval / S < S - 1); [|lia]. apply Z.div_lt_upper_bound; lia. }
    set (sum := interval `mod` S + F) in *.
    set (c := if S <=? sum then 1 else 0).
    assert (sum `mod` S = sum - c * S ∧ 0 ≤ sum - c * S < S ∧ 0 ≤ c ≤ 1) as (Hsm & Hsr & Hc).
    { subst c. case_cond; [|split; [rewrite Z.mod_small|]; lia]. split; [|lia].
      symmetry. apply (Z.mod_unique_pos _ _ 1); lia. }
    rewrite (u16_small (interval / S + c)) by (unfold in_u16; lia).
    replace (interval / S + c <? S) with true by (symmetry; apply Z.ltb_lt; lia). simpl.
    destruct (interval / S + c =? 0) eqn:E0; simpl; [apply Z.eqb_eq in E0|apply Z.eqb_neq in E0].
    + assert (interval / S = 0 ∧ c = 0) as [Hq0 Hc0] by lia. rewrite Hsm, Hc0, Z.mul_0_l, Z.sub_0_r in *.
      unfold TW_TIMER_RING_FAST. rewrite (Hheads 0 sum), Z.mul_0_l, Z.add_0_l by lia. simpl.
      assert ((sum <? S) = true) as EkS by (apply Z.ltb_lt; lia).
      destruct (rel_insert b tw s L F Sl p3 sum i o0 h interval) as (p' & Hadd & Hl' & Hrel); try done.
      * unfold n_heads. nia.
      * unfold slot_ok. rewrite EkS, E1. lia.
      * unfold remaining. rewrite EkS, E1. lia.
      * lia.
      * rewrite Hadd. simpl. eexists _, _. split; [done|]. simpl. rewrite Hl'. do 3 (split; [done|]). done.
    + unfold vget. simpl. set (q := interval / S + c) in *.
      rewrite (u16_small (q + Sl)) by (unfold in_u16; lia). rewrite Hsm. set (o := sum - c * S) in *.
      assert (i ∈ [i]) as Hin by by left.
      destruct (rings_upd _ _ _ _ _ _ (with_offset o) Hr Hin) as (p4 & Hu4 & Hr4 & Hl4 & He4).
      rewrite Hu4. simpl. replace (o <? S) with true by (symmetry; apply Z.ltb_lt; lia). simpl.
      pose proof (Z.mod_pos_bound (q + Sl) S ltac:(lia)) as Hqm.
      unfold TW_TIMER_RING_SLOW. rewrite (Hheads 1 _), Z.mul_1_l by lia. simpl.
      destruct (r_det_live _ _ _ _ _ _ Hr Hin) as [t Ht].
      assert ((S + (q + Sl) `mod` S <? S) = false) as EkS by (apply Z.ltb_ge; lia).
      assert (((q + Sl) `mod` S - Sl) `mod` S = q) as Hqq.
      { rewrite mod_sub_wrap by lia. apply Z.mod_small. lia. }
      destruct (rel_insert b tw s L F Sl p4 (S + (q + Sl) `mod` S) i o h interval) as (p' & Hadd & Hl' & Hrel);
        try done.
      * intros j Hj. rewrite He4, decide_False by done. by apply Hoth.
      * unfold meta in *. rewrite He4, decide_True by done. rewrite Ht in *. simpl in *. congruence.
      * unfold n_heads. nia.
      * unfold slot_ok. rewrite EkS. split; [|lia]. intros Heq.
        replace ((q + Sl) `mod` S - Sl) with 0 in Hqq by lia. rewrite Z.mod_0_l in Hqq by lia. lia.
      * unfold remaining. rewrite EkS. replace (S + (q + Sl) `mod` S - S) with ((q + Sl) `mod` S) by lia.
        rewrite Hqq. subst o sum q. nia.
      * lia.
      * rewrite Hadd. simpl. eexists _, _. split; [done|]. simpl. rewrite Hl', Hl4. do 3 (split; [done|]). done.
  - assert (W = 1) as EW by (apply Z.ltb_ge in E1; lia). unfold vget at 1. simpl.
    rewrite (Z.mod_small interval) by lia. rewrite (u16_small interval) by (unfold in_u16; lia).
    rewrite (u16_small (interval + F)) by (unfold in_u16; lia).
    replace (interval <? S) with true by (symmetry; apply Z.ltb_lt; lia). simpl.
    pose proof (Z.mod_pos_bound (interval + F) S ltac:(lia)) as Hk.
    unfold TW_TIMER_RING_FAST. rewrite (Hheads 0 _), Z.mul_0_l, Z.add_0_l by lia. simpl.
    assert (((interval + F) `mod` S <? S) = true) as EkS by (apply Z.ltb_lt; lia).
    destruct (rel_insert b tw s L F Sl p3 ((interval + F) `mod` S) i o0 h interval) as (p' & Hadd & Hl' & Hrel); try done.
    + unfold n_heads. nia.
    + unfold slot_ok. by rewrite EkS, E1.
    + unfold remaining. rewrite EkS, E1. rewrite Zminus_mod_idemp_l. replace (interval + F - F) with interval by lia. symmetry. apply Z.mod_small. lia.
    + lia.
    + rewrite Hadd. simpl. eexists _, _. split; [done|]. simpl. rewrite Hl'. do 3 (split; [done|]). done.
Qed.

(** *** Stopping a timer *)

Lemma stop_rel b tw s i :
  rel b tw s → is_Some (due s !! i) →
  ∃ tw', tw_timer_stop tw i = Some tw' ∧ rel b tw' (spec_stop s i) ∧
    pool_len (timers tw') = pool_len (timers tw).
Proof.
  intros (L & F & Sl & Hw & Hb) [[h d] Hd]. pose proof (rel_rings _ _ _ _ _ Hw) as Hr.
  apply (rel_due _ _ _ _ _ Hw) in Hd as (k & o & Hk & Hi & Hm & _).
  destruct (rel_slots _ _ _ _ _ Hw k i o h Hk Hi Hm) as [_ Hh].
  destruct (rings_remove 0 n_heads (timers tw) L [] k i h Hr Hk Hi) as (p' & l1 & l2 & Hl & Hrem & Hs & Hr');
    [by rewrite Hm|done|].
  destruct (rings_put 0 n_heads p' _ [] i Hr') as (Hr2 & Hlen & Hoth).
  unfold tw_timer_stop. unfold meta in Hm. destruct (pool_elt_at_index (timers tw) i) as [t|] eqn:Ht; [|done].
  simpl in Hm. injection Hm as Ho Hh'. simpl. rewrite Hh'.
  replace (h =? u32_max) with false by (symmetry; by apply Z.eqb_neq). simpl. rewrite Hrem. simpl.
  assert (is_Some (pool_elt_at_index p' i)) as [t' Ht'] by (apply (sbl_live _ _ _ Hs); by eexists).
  rewrite Ht'. simpl. eexists. split; [done|].
  split; [|simpl; rewrite Hlen; apply (sbl_len _ _ Hs)].
  assert (∀ k', 0 ≤ k' < n_heads → i ∉ <[k:=l1 ++ l2]> L k') as Hout.
  { intros k' Hk' Hin. by apply (r_det_disj _ _ _ _ _ _ _ Hr' Hk' Hin), list_elem_of_singleton. }
  assert (∀ k' j, 0 ≤ k' < n_heads → j ≠ i → j ∈ <[k:=l1 ++ l2]> L k' ↔ j ∈ L k') as Hin.
  { intros k' j Hk' Hj. destruct (decide (k' = k)) as [->|].
    - rewrite fn_lookup_insert, Hl. set_solver.
    - by rewrite fn_lookup_insert_ne. }
  assert (∀ j, j ≠ i → meta (pool_put_index p' i) j = meta (timers tw) j) as Hmeta.
  { intros j Hj. rewrite <-(sbl_meta _ _ Hs). by apply meta_elt, Hoth. }
  assert (∀ k', 0 ≤ k' < n_heads → k' ≠ i) as Hki.
  { intros k' Hk' ->. apply (r_list_high _ _ _ _ _ _ _ Hr Hk) in Hi. lia. }
  exists (<[k := l1 ++ l2]> L), F, Sl. split.
  - split; try apply Hw; simpl.
    + done.
    + intros k' Hk'. rewrite Hmeta by by apply Hki. by apply Hw.
    + intros k' j o' h' Hk' Hj Hmj. destruct (decide (j = i)) as [->|Hji]; [by destruct (Hout k')|].
      apply Hin in Hj; [|done..]. rewrite Hmeta in Hmj by done. by apply (rel_slots _ _ _ _ _ Hw k' j).
    + intros j h' d'. destruct (decide (j = i)) as [->|Hji].
      * rewrite lookup_delete_eq. split; [done|]. intros (k' & ? & Hk' & Hj & _). by destruct (Hout k').
      * rewrite lookup_delete_ne, (rel_due _ _ _ _ _ Hw), Hmeta by done.
        split; intros (k' & o' & Hk' & Hj & Hrest); exists k', o'; (split; [done|]); (split; [|done]); by apply Hin.
  - intros Hb'. destruct (Hb Hb') as [HF Hnd]. split; [done|].
    intros j h' d'. simpl. rewrite lookup_delete_Some. intros [_ Hj]. by apply (Hnd j h').
Qed.

(** A handle that is not live, a list head included, is refused. *)
Lemma stop_None b tw s i : rel b tw s → due s !! i = None → tw_timer_stop tw i = None.
Proof.
  intros (L & F & Sl & Hw & _) Hd. unfold tw_timer_stop.
  destruct (pool_elt_at_index (timers tw) i) as [t|] eqn:Ht; [|done]. simpl.
  assert (is_Some (pool_elt_at_index (timers tw) i)) as Hl by by eexists.
  apply (r_live _ _ _ _ _ (rel_rings _ _ _ _ _ Hw)) in Hl as [Hi|Hi].
  - apply (rel_head_meta _ _ _ _ _ Hw) in Hi. unfold meta in Hi. rewrite Ht in Hi. simpl in Hi.
    injection Hi as ->. by rewrite Z.eqb_refl.
  - apply elem_of_flat in Hi as [Hi|(k & Hk & Hi)]; [by apply elem_of_nil in Hi|].
    assert (∃ x, due s !! i = Some x) as [x Hx]; [|congruence].
    exists (user_handle t, now s + remaining F Sl k (fast_ring_offset t)).
    apply (rel_due _ _ _ _ _ Hw). exists k, (fast_ring_offset t). unfold meta. by rewrite Ht.
Qed.

(** *** The slow ring *)

Lemma deal_slow_ok tw s L F Sl k :
  wheel_rel tw s L F Sl → S ≤ k < n_heads →
  ∃ p1 p2 L', empty_slot (timers tw) k = Some (p1, hd k (L k)) ∧
    deal_list (length (elts p1)) tw p1 k (hd k (L k)) = Some p2 ∧
    rings 0 n_heads p2 L' [] ∧ same_but_links (timers tw) p2 ∧
    (∀ k' j, j ∈ L' k' ↔ (k' ≠ k ∧ j ∈ L k') ∨ (j ∈ L k ∧ fst <$> meta (timers tw) j = Some k')).
Proof.
  intros Hw Hk. pose proof slots_range as HS. pose proof (rel_rings _ _ _ _ _ Hw) as Hr.
  assert (0 ≤ k < n_heads) as Hk0 by lia.
  destruct (rings_empty 0 n_heads (timers tw) L [] k Hr Hk0) as (p1 & He & Hs1 & Hr1 & Hn1).
  pose proof geo_wheels.
  destruct (deal_list_ok 0 n_heads tw [] k (L k) (rel_heads _ _ _ _ _ Hw) ltac:(lia) eq_refl ltac:(unfold n_heads; nia) Hk0
    (length (elts p1)) p1 (<[k := []]> L) Hr1 Hn1) as (p2 & L' & Hd & Hr2 & Hs2 & HL').
  - pose proof (rings_fuel _ _ _ _ _ Hr1) as Hf. by rewrite app_nil_r in Hf.
  - intros i Hi. assert (is_Some (meta (timers tw) i)) as [[o h] Hm].
    { apply meta_live, (r_live _ _ _ _ _ Hr). right. apply elem_of_flat. eauto. }
    rewrite (sbl_meta _ _ Hs1). exists o, h. split; [done|].
    destruct (rel_slots _ _ _ _ _ Hw k i o h Hk0 Hi Hm) as [Hok _]. unfold slot_ok in Hok.
    rewrite (proj2 (Z.ltb_ge k S)) in Hok by lia. apply Hok.
  - exists p1, p2, L'. do 3 (split; [done|]). split; [by eapply same_but_links_trans|].
    intros k' j. rewrite HL', (sbl_meta _ _ Hs1).
    destruct (decide (k' = k)) as [->|Hne]; [rewrite fn_lookup_insert|rewrite fn_lookup_insert_ne by done];
      set_solver.
Qed.

(** What becomes of a slot when the fast ring wraps: with one ring nothing; with
    two, the fast ring is empty, one slow slot is dealt, the others are one
    revolution nearer. *)
Lemma wrap_one_ring k o Sl :
  (1 <? W) = false → 0 ≤ k < n_heads → slot_ok 0 Sl k o ∧ remaining 0 Sl k o = remaining S Sl k o.
Proof.
  intros E1 Hk. pose proof geo_wheels. assert (W = 1) as EW by (apply Z.ltb_ge in E1; lia).
  unfold n_heads in Hk. assert ((k <? S) = true) as Ek by (apply Z.ltb_lt; lia).
  unfold slot_ok, remaining. rewrite Ek, E1. split; [done|].
  rewrite Z.sub_0_r. rewrite <-(Z_mod_plus_full (k - S) 1 S). f_equal. lia.
Qed.

Lemma wrap_fast_empty k o Sl : (1 <? W) = true → k < S → ¬ slot_ok S Sl k o.
Proof. intros E1 Hk. unfold slot_ok. rewrite (proj2 (Z.ltb_lt k S) Hk), E1. lia. Qed.

Lemma wrap_dealt o o' Sl :
  (1 <? W) = true → 0 ≤ Sl < S → 0 ≤ o < S →
  let Sl' := (Sl + 1) `mod` S in
  slot_ok 0 Sl' o o' ∧ remaining 0 Sl' o o' = remaining S Sl (S + Sl') o.
Proof.
  intros E1 HSl Ho Sl'. pose proof slots_range. pose proof (Z.mod_pos_bound (Sl + 1) S ltac:(lia)) as Hb. fold Sl' in Hb.
  unfold slot_ok, remaining. rewrite (proj2 (Z.ltb_lt o S)), (proj2 (Z.ltb_ge (S + Sl') S)), E1 by lia.
  split; [lia|]. replace (S + Sl' - S - Sl) with ((1 + Sl) `mod` S - Sl) by (subst Sl'; rewrite (Z.add_comm 1); lia).
  rewrite mod_sub_wrap, Z.mod_small by lia. lia.
Qed.

Lemma wrap_slow k o Sl :
  0 ≤ Sl < S → S ≤ k < 2 * S → slot_ok S Sl k o →
  let Sl' := (Sl + 1) `mod` S in
  k ≠ S + Sl' → slot_ok 0 Sl' k o ∧ remaining 0 Sl' k o = remaining S Sl k o.
Proof.
  intros HSl Hk Hok Sl' Hne. pose proof slots_range as HS.
  unfold slot_ok, remaining in *. rewrite (proj2 (Z.ltb_ge k S)) in * by lia. destruct Hok as [Hk' Ho].
  split; [lia|].
  assert ((k - S - Sl') `mod` S = (k - S - Sl) `mod` S - 1) as ->; [|lia].
  subst Sl'. rewrite Zminus_mod_idemp_r. rewrite <-mod_pred; [f_equal; lia|lia|].
  intros Hz. apply Z.mod_divide in Hz as [q Hq]; [|lia].
  assert (q = 0) by nia. lia.
Qed.

Lemma wrap_rel tw s L Sl :
  wheel_rel tw s L S Sl →
  ∃ tw' L' Sl', wrap_fast_ring tw = Some tw' ∧ wheel_rel tw' s L' 0 Sl' ∧
    max_expirations tw' = max_expirations tw ∧ pool_len (timers tw') = pool_len (timers tw).
Proof.
  intros Hw. pose proof slots_range as HS. pose proof geo_wheels as HW.
  pose proof (rel_index _ _ _ _ _ Hw) as Hidx. pose proof (rel_Sl _ _ _ _ _ Hw) as HSl.
  unfold wrap_fast_ring. destruct (1 <? W) eqn:E1.
  - assert (W = 2) as EW by (apply Z.ltb_lt in E1; lia).
    assert (n_heads = 2 * S) as Hnh by (unfold n_heads; lia).
    rewrite Hidx. unfold vget, vset. simpl.
    rewrite (u32_small (Sl + 1)) by (unfold in_u32; lia).
    set (Sl' := (Sl + 1) `mod` S). pose proof (Z.mod_pos_bound (Sl + 1) S ltac:(lia)) as HSl'. fold Sl' in HSl'.
    pose proof (rel_heads _ _ _ _ _ Hw TW_TIMER_RING_SLOW Sl') as Hh.
    unfold TW_TIMER_RING_SLOW in *. rewrite Z.mul_1_l in Hh.
    match goal with |- context [slot_head ?x 1 Sl'] => change (slot_head x 1 Sl') with (slot_head tw 1 Sl') end.
    rewrite Hh by lia. simpl.
    destruct (deal_slow_ok tw s L S Sl (S + Sl') Hw ltac:(lia)) as (p1 & p2 & L' & -> & Hd & Hr & Hs & HL').
    simpl.
    match goal with |- context [deal_list _ ?x p1 _ _] => assert (∀ fuel p k n, deal_list fuel x p k n = deal_list fuel tw p k n) as -> end.
    { induction fuel as [|fuel IH]; intros; simpl; [done|]. case_match; [done|].
      repeat (apply option_bind_ext_fun; intros ?). apply IH. }
    rewrite Hd. simpl. eexists _, L', Sl'. split; [done|]. split; [|split; [done|apply (sbl_len _ _ Hs)]].
    assert (∀ k j o h, 0 ≤ k < n_heads → j ∈ L k → meta (timers tw) j = Some (o, h) →
      h ≠ u32_max ∧ S ≤ k < 2 * S ∧ slot_ok S Sl k o) as Hold.
    { intros k j o h Hk Hj Hm. destruct (rel_slots _ _ _ _ _ Hw k j o h Hk Hj Hm) as [Hok Hnh']. split; [done|].
      split; [|done]. destruct (decide (k < S)); [|lia]. by destruct (wrap_fast_empty k o Sl). }
    assert (∀ o, slot_ok S Sl (S + Sl') o → 0 ≤ o < S) as Hoff.
    { intros o Hok. unfold slot_ok in Hok. rewrite (proj2 (Z.ltb_ge _ S)) in Hok by lia. apply Hok. }
    split; simpl.
    + done.
    + apply (rel_heads _ _ _ _ _ Hw).
    + by rewrite E1.
    + lia.
    + done.
    + apply Hw.
    + intros k Hk. rewrite (sbl_meta _ _ Hs). by apply Hw.
    + intros k j o h Hk Hj Hm. rewrite (sbl_meta _ _ Hs) in Hm.
      apply HL' in Hj as [[Hne Hj]|[Hj Ho]].
      * destruct (Hold k j o h) as (? & Hk' & Hok); try done. split; [|done]. by apply wrap_slow.
      * rewrite Hm in Ho. simpl in Ho. injection Ho as ->.
        destruct (Hold (S + Sl') j k h) as (? & _ & Hok); [lia|done..|]. split; [|done].
        apply wrap_dealt; [done|done|]. by apply Hoff.
    + intros j h d. rewrite (rel_due _ _ _ _ _ Hw), (sbl_meta _ _ Hs).
      split; intros (k & o & Hk & Hj & Hm & ->).
      * destruct (Hold k j o h) as (? & Hk' & Hok); try done.
        destruct (decide (k = S + Sl')) as [->|Hne].
        -- pose proof (Hoff o Hok) as Ho. exists o, o. split; [lia|]. split; [apply HL'; right; by rewrite Hm|].
           split; [done|]. f_equal. symmetry. by apply wrap_dealt.
        -- exists k, o. split; [done|]. split; [apply HL'; by left|]. split; [done|]. f_equal. symmetry. by apply wrap_slow.
      * apply HL' in Hj as [[Hne Hj]|[Hj Ho]].
        -- destruct (Hold k j o h) as (? & Hk' & Hok); try done.
           exists k, o. do 3 (split; [done|]). f_equal. by apply wrap_slow.
        -- rewrite Hm in Ho. simpl in Ho. injection Ho as ->.
           destruct (Hold (S + Sl') j k h) as (? & _ & Hok); [lia|done..|].
           exists (S + Sl'), k. split; [lia|]. do 2 (split; [done|]). f_equal.
           apply wrap_dealt; [done|done|]. by apply Hoff.
  - eexists _, L, Sl. split; [done|]. split; [|done].
    split; try apply Hw; simpl.
    + rewrite E1, Hidx. done.
    + lia.
    + intros k i o h Hk Hi Hm. apply (rel_slots _ _ _ _ _ Hw k i o h Hk Hi) in Hm as [Hok Hh]. split; [|done].
      by apply wrap_one_ring.
    + intros i h d. rewrite (rel_due _ _ _ _ _ Hw).
      split; intros (k & o & Hk & Hj & Hm & ->); exists k, o; (do 3 (split; [done|])); f_equal; [symmetry|]; by apply wrap_one_ring.
Qed.

(** *** One tick *)

Lemma remaining_here Sl k o : 0 ≤ k < S → remaining k Sl k o = 0.
Proof.
  intros Hk. unfold remaining. rewrite (proj2 (Z.ltb_lt k S)) by lia.
  destruct (1 <? W); [lia|]. rewrite Z.sub_diag. apply Z.mod_0_l. lia.
Qed.

Lemma slow_revolutions Sl k : S ≤ k < n_heads → 0 ≤ Sl < S → k - S ≠ Sl → 1 ≤ (k - S - Sl) `mod` S.
Proof.
  intros Hk HSl Hne. pose proof (Z.mod_pos_bound (k - S - Sl) S ltac:(lia)).
  destruct (decide ((k - S - Sl) `mod` S = 0)) as [Hz|]; [|lia].
  apply Z.mod_divide in Hz as [q Hq]; [|lia]. pose proof geo_wheels. unfold n_heads in Hk.
  assert (q = 0) by nia. lia.
Qed.

Lemma remaining_nonneg F Sl k o :
  0 ≤ F ≤ S → 0 ≤ k < n_heads → slot_ok F Sl k o → 0 ≤ Sl < S → 0 ≤ remaining F Sl k o.
Proof.
  intros HF Hk Hok HSl. unfold remaining, slot_ok in *. destruct (k <? S) eqn:Ek; bool_to_prop.
  - destruct (1 <? W); [lia|]. pose proof (Z.mod_pos_bound (k - F) S ltac:(lia)). lia.
  - destruct Hok. pose proof (slow_revolutions Sl k ltac:(lia) HSl ltac:(lia)). nia.
Qed.

Lemma remaining_later F Sl k o :
  0 ≤ F < S → 0 ≤ k < n_heads → slot_ok F Sl k o → 0 ≤ Sl < S → k ≠ F → 0 < remaining F Sl k o.
Proof.
  intros HF Hk Hok HSl Hne. unfold remaining, slot_ok in *. destruct (k <? S) eqn:Ek; bool_to_prop.
  - destruct (1 <? W); [lia|]. pose proof (Z.mod_pos_bound (k - F) S ltac:(lia)).
    destruct (decide ((k - F) `mod` S = 0)) as [Hz|]; [|lia].
    apply Z.mod_divide in Hz as [q Hq]; [|lia]. assert (q = 0) by nia. lia.
  - destruct Hok. pose proof (slow_revolutions Sl k ltac:(lia) HSl ltac:(lia)). nia.
Qed.

Definition handle_of (p : pool tw_timer) (i : Z) : Z := default 0 (snd <$> meta p i).

(** The timers due now are those of the slot of the fast ring at [F]. *)
Lemma fired_slot tw s L F Sl :
  wheel_rel tw s L F Sl → F < S → handle_of (timers tw) <$> L F ≡ₚ spec_fired s.
Proof.
  intros Hw HFS. pose proof (rel_F _ _ _ _ _ Hw) as HF. pose proof slots_range as HS.
  pose proof geo_wheels as HW. assert (0 ≤ F < n_heads) as HFh by (unfold n_heads; nia).
  pose proof (rel_rings _ _ _ _ _ Hw) as Hr.
  unfold spec_fired.
  assert (filter (λ x : Z * (Z * Z), x.2.2 = now s) (map_to_list (due s))
    ≡ₚ (λ i, (i, (handle_of (timers tw) i, now s))) <$> L F) as ->.
  { apply list.NoDup_Permutation.
    - apply list.NoDup_filter, NoDup_map_to_list.
    - assert (Inj eq eq (λ i, (i, (handle_of (timers tw) i, now s)))) by (by intros ?? [=]).
      apply (NoDup_fmap_2 _). by apply (r_list_nodup _ _ _ _ _ _ Hr).
    - intros [i [h d]]. rewrite list_elem_of_filter, elem_of_map_to_list, list_elem_of_fmap. simpl.
      rewrite (rel_due _ _ _ _ _ Hw). split.
      + intros [-> (k & o & Hk & Hi & Hm & Hrem)].
        destruct (decide (k = F)) as [->|Hne].
        * exists i. split; [|done]. unfold handle_of. by rewrite Hm.
        * destruct (rel_slots _ _ _ _ _ Hw k i o h Hk Hi Hm) as [Hok _].
          pose proof (remaining_later F Sl k o ltac:(lia) Hk Hok (rel_Sl _ _ _ _ _ Hw) Hne). lia.
      + intros (j & [= -> -> ->] & Hj). split; [done|].
        assert (is_Some (meta (timers tw) j)) as [[o h'] Hm].
        { apply meta_live, (r_live _ _ _ _ _ Hr). right. apply elem_of_flat. eauto. }
        exists F, o. do 2 (split; [done|]). split; [unfold handle_of; by rewrite Hm|].
        rewrite remaining_here by lia. lia. }
  rewrite <-list_fmap_compose. done.
Qed.

Lemma expire_slot_rel tw s L F Sl :
  wheel_rel tw s L F Sl → F < S →
  ∃ p1 p2 hs, empty_slot (timers tw) F = Some (p1, hd F (L F)) ∧
    expire_list (length (elts p1)) p1 F (hd F (L F)) [] = Some (p2, hs) ∧
    hs ≡ₚ spec_fired s ∧ pool_len p2 = pool_len (timers tw) ∧
    rel true (with_expired hs (with_timers p2 tw)) (spec_clear s).
Proof.
  intros Hw HFS. pose proof (rel_F _ _ _ _ _ Hw) as HF. pose proof slots_range as HS.
  pose proof geo_wheels as HW. assert (0 ≤ F < n_heads) as HFh by (unfold n_heads; nia).
  pose proof (rel_rings _ _ _ _ _ Hw) as Hr.
  destruct (rings_empty 0 n_heads (timers tw) L [] F Hr HFh) as (p1 & He & Hs1 & Hr1 & Hn1).
  assert (F ∉ L F) as HFL by (intros Hin; by apply (r_list_high _ _ _ _ _ _ _ Hr HFh) in Hin).
  destruct (expire_list_ok 0 n_heads (<[F := []]> L) [] F (L F) (length (elts p1)) p1 [] HFL Hr1 Hn1)
    as (p2 & hs & Hex & Hr2 & Hhs & Hlen & Hoth).
  { pose proof (rings_fuel _ _ _ _ _ Hr1) as Hf. by rewrite app_nil_r in Hf. }
  exists p1, p2, hs. do 2 (split; [done|]). split.
  { rewrite <-(fired_slot tw s L F Sl Hw HFS).
    assert (hs = handle_of (timers tw) <$> L F) as ->; [|done].
    assert (∀ (l : list (option Z)) hs, l = Some <$> hs → default 0 <$> l = hs) as Hdef.
    { intros l hs' ->. rewrite <-list_fmap_compose. by rewrite list_fmap_id. }
    apply Hdef in Hhs. rewrite <-Hhs, <-list_fmap_compose. apply list_fmap_ext.
    intros _ i _. unfold compose, handle_of. by rewrite (sbl_meta _ _ Hs1). }
  split; [rewrite Hlen; apply (sbl_len _ _ Hs1)|].
  assert (∀ j, j ∉ L F → meta p2 j = meta (timers tw) j) as Hmeta.
  { intros j Hj. rewrite <-(sbl_meta _ _ Hs1). by apply meta_elt, Hoth. }
  assert (∀ k j, 0 ≤ k < n_heads → j ∈ <[F := []]> L k ↔ k ≠ F ∧ j ∈ L k) as Hin.
  { intros k j Hk. destruct (decide (k = F)) as [->|];
      [rewrite fn_lookup_insert|rewrite fn_lookup_insert_ne by done]; set_solver. }
  assert (∀ k j, 0 ≤ k < n_heads → k ≠ F → j ∈ L k → j ∉ L F) as Hdisj.
  { intros k j Hk Hne Hj Hj'. apply Hne. by apply (r_disj _ _ _ _ _ _ _ j Hr). }
  assert (∀ i h d, due s !! i = Some (h, d) → now s ≠ d → now s < d ∧
    ∃ k o, 0 ≤ k < n_heads ∧ k ≠ F ∧ i ∈ L k ∧ meta (timers tw) i = Some (o, h) ∧ d = now s + remaining F Sl k o) as Hlater.
  { intros i h d Hd Hne. apply (rel_due _ _ _ _ _ Hw) in Hd as (k & o & Hk & Hi & Hm & ->).
    assert (k ≠ F) as HkF by (intros ->; rewrite remaining_here in Hne by lia; lia).
    destruct (rel_slots _ _ _ _ _ Hw k i o h Hk Hi Hm) as [Hok _].
    pose proof (remaining_later F Sl k o ltac:(lia) Hk Hok (rel_Sl _ _ _ _ _ Hw) HkF).
    split; [lia|]. by exists k, o. }
  exists (<[F := []]> L), F, Sl. split.
  - split; try apply Hw; simpl.
    + done.
    + intros k Hk. rewrite Hmeta; [by apply Hw|].
      intros Hj. apply (r_list_high _ _ _ _ _ _ _ Hr HFh) in Hj. lia.
    + intros k j o h Hk Hj Hm. apply Hin in Hj as [Hne Hj]; [|done].
      rewrite Hmeta in Hm by by apply (Hdisj k). by apply (rel_slots _ _ _ _ _ Hw k j).
    + intros j h d. rewrite map_lookup_filter_Some. simpl. split.
      * intros [Hd Hne]. apply Hlater in Hd as (_ & k & o & Hk & HkF & Hj & Hm & ->); [|done].
        exists k, o. split; [done|]. split; [by apply Hin|]. split; [|done]. rewrite Hmeta; [done|by apply (Hdisj k)].
      * intros (k & o & Hk & Hj & Hm & ->). apply Hin in Hj as [HkF Hj]; [|done].
        rewrite Hmeta in Hm by by apply (Hdisj k).
        destruct (rel_slots _ _ _ _ _ Hw k j o h Hk Hj Hm) as [Hok _].
        pose proof (remaining_later F Sl k o ltac:(lia) Hk Hok (rel_Sl _ _ _ _ _ Hw) HkF).
        split; [|lia]. apply (rel_due _ _ _ _ _ Hw). by exists k, o.
  - intros _. split; [done|]. intros i h d. simpl. rewrite map_lookup_filter_Some. simpl.
    intros [Hd Hne]. by apply Hlater in Hd as [? _].
Qed.

Lemma tick_begin_rel tw s :
  rel false tw s →
  ∃ tw', tick_begin tw = Some tw' ∧ expired_timer_handles tw' ≡ₚ spec_fired s ∧
    rel true tw' (spec_clear s) ∧ max_expirations tw' = max_expirations tw ∧
    pool_len (timers tw') = pool_len (timers tw).
Proof.
  intros (L & F & Sl & Hw & _). pose proof slots_range as HS. pose proof geo_wheels as HW.
  assert (∃ tw1 L1 F1 Sl1, (if F =? S then wrap_fast_ring tw else Some tw) = Some tw1 ∧
    F1 = (if F =? S then 0 else F) ∧ F1 < S ∧ wheel_rel tw1 s L1 F1 Sl1 ∧
    max_expirations tw1 = max_expirations tw ∧ pool_len (timers tw1) = pool_len (timers tw))
    as (tw1 & L1 & F1 & Sl1 & Hwrap & HF1 & HFS & Hw1 & Hmax & Hlen).
  { destruct (F =? S) eqn:EF; bool_to_prop.
    - subst F. destruct (wrap_rel tw s L Sl Hw) as (tw1 & L1 & Sl1 & ? & ? & ? & ?).
      exists tw1, L1, 0, Sl1. split_and!; try done. lia.
    - exists tw, L, F, Sl. split_and!; try done. pose proof (rel_F _ _ _ _ _ Hw). lia. }
  unfold tick_begin. rewrite (rel_index _ _ _ _ _ Hw).
  replace (vget (if 1 <? W then [F; Sl] else [F]) TW_TIMER_RING_FAST) with (Some F) by (by destruct (1 <? W)).
  simpl. rewrite Hwrap. simpl. rewrite <-HF1.
  pose proof (rel_F _ _ _ _ _ Hw1) as HF1r.
  pose proof (rel_heads _ _ _ _ _ Hw1 TW_TIMER_RING_FAST F1) as Hh.
  unfold TW_TIMER_RING_FAST in *. rewrite Z.mul_0_l, Z.add_0_l in Hh.
  match goal with |- context [slot_head ?x 0 F1] => change (slot_head x 0 F1) with (slot_head tw1 0 F1) end.
  rewrite Hh by lia. simpl.
  destruct (expire_slot_rel tw1 s L1 F1 Sl1 Hw1 HFS) as (p1 & p2 & hs & -> & Hex & Hfired & Hlen2 & Hrel).
  simpl. rewrite Hex. simpl. eexists. split; [done|]. split; [done|]. split; [done|].
  simpl. split; [done|]. congruence.
Qed.

Lemma tick_end_rel tw s :
  rel true tw s →
  ∃ tw', tick_end tw = Some tw' ∧ rel false tw' (spec_advance s) ∧
    max_expirations tw' = max_expirations tw ∧ pool_len (timers tw') = pool_len (timers tw).
Proof.
  intros (L & F & Sl & Hw & Hb). destruct (Hb eq_refl) as [HFS Hnd]. pose proof slots_range as HS.
  pose proof (rel_F _ _ _ _ _ Hw) as HF. pose proof (rel_Sl _ _ _ _ _ Hw) as HSl.
  unfold tick_end. rewrite (rel_index _ _ _ _ _ Hw).
  assert (vget (if 1 <? W then [F; Sl] else [F]) TW_TIMER_RING_FAST = Some F ∧
    vset (if 1 <? W then [F; Sl] else [F]) TW_TIMER_RING_FAST (u32 (F + 1))
    = if 1 <? W then [F + 1; Sl] else [F + 1]) as [Hget Hset].
  { rewrite (u32_small (F + 1)) by (unfold in_u32; lia). by destruct (1 <? W). }
  rewrite Hget. simpl. rewrite Hset. eexists. split; [done|]. split; [|done]. exists L, (F + 1), Sl. split; [|done].
  assert (∀ k o, 0 ≤ k < n_heads → slot_ok F Sl k o → 0 < remaining F Sl k o →
    slot_ok (F + 1) Sl k o ∧ remaining (F + 1) Sl k o = remaining F Sl k o - 1) as Hnext.
  { intros k o Hk Hok Hpos. unfold slot_ok, remaining in *. destruct (k <? S).
    - destruct (1 <? W); [lia|]. split; [done|].
      replace (k - (F + 1)) with (k - F - 1) by lia. apply mod_pred; lia.
    - split; [done|]. lia. }
  assert (∀ k i o h, 0 ≤ k < n_heads → i ∈ L k → meta (timers tw) i = Some (o, h) → 0 < remaining F Sl k o) as Hpos.
  { intros k i o h Hk Hi Hm. assert (now s < now s + remaining F Sl k o); [|lia].
    apply (Hnd i h), (rel_due _ _ _ _ _ Hw). by exists k, o. }
  split; try apply Hw; simpl.
  - done.
  - lia.
  - rewrite (rel_tick _ _ _ _ _ Hw). by rewrite u32_add_l.
  - intros k i o h Hk Hi Hm. destruct (rel_slots _ _ _ _ _ Hw k i o h Hk Hi Hm) as [Hok Hh].
    split; [|done]. apply Hnext; [done..|]. by apply (Hpos k i o h).
  - intros i h d. rewrite (rel_due _ _ _ _ _ Hw).
    split; intros (k & o & Hk & Hj & Hm & ->); exists k, o; (do 3 (split; [done|]));
      destruct (rel_slots _ _ _ _ _ Hw k i o h Hk Hj Hm) as [Hok _];
      destruct (Hnext k o Hk Hok (Hpos k i o h Hk Hj Hm)) as [_ ->]; lia.
Qed.

(** *** The expiry loop *)

(** A callback that returns, and does to the wheel what a sequence of starts and
    stops would do. *)
Definition callback_ok {X} (cb : X → list Z → tw_timer_wheel → option (X * tw_timer_wheel)) : Prop :=
  ∀ x hs tw s, rel true tw s → ∃ x' tw' s', cb x hs tw = Some (x', tw') ∧ rel true tw' s' ∧
    rtc spec_api s s' ∧ max_expirations tw' = max_expirations tw.

(** One iteration of the loop. *)
Lemma expire_loop_step {X} (cb : X → list Z → tw_timer_wheel → option (X * tw_timer_wheel)) n i total x tw
    tw1 x2 tw2 tw3 :
  tick_begin tw = Some tw1 →
  (if negb (zlen (expired_timer_handles tw1) =? 0) then cb x (expired_timer_handles tw1) tw1
   else Some (x, tw1)) = Some (x2, tw2) →
  tick_end tw2 = Some tw3 → total = u32 total →
  expire_loop cb (Datatypes.S n) i total x tw =
    let total1 := u32 (total + zlen (expired_timer_handles tw1)) in
    if max_expirations tw3 <=? total1 then Some (x2, tw3, total1, i)
    else expire_loop cb n (i + 1) total1 x2 tw3.
Proof.
  intros Hb Hc He Htot. cbn [expire_loop]. rewrite Hb. simpl. rewrite Hc. simpl. rewrite He. simpl.
  set (m := zlen _). replace (if negb (m =? 0) then u32 (total + m) else total) with (u32 (total + m)); [done|].
  destruct (m =? 0) eqn:E; simpl; [|done]. apply Z.eqb_eq in E. by rewrite E, Z.add_0_r.
Qed.

Lemma expire_loop_rel {X} (cb : X → list Z → tw_timer_wheel → option (X * tw_timer_wheel)) n :
  callback_ok cb → ∀ i total x tw s,
  rel false tw s → total = u32 total →
  ∃ x' tw' total' i' s' fired, expire_loop cb n i total x tw = Some (x', tw', total', i') ∧
    spec_ticks s fired s' ∧ rel false tw' s' ∧ total' = u32 (total + zlen (concat fired)) ∧
    (zlen fired = Z.of_nat n ∧ i' = i + Z.of_nat n ∨
     0 < zlen fired ≤ Z.of_nat n ∧ i' = i + zlen fired - 1 ∧ max_expirations tw ≤ total').
Proof.
  intros Hcb. induction n as [|n IH]; intros i total x tw s Hrel Htot.
  - exists x, tw, total, i, s, []. simpl. split; [done|]. split; [constructor|]. split; [done|].
    split; [unfold zlen; simpl; by rewrite Z.add_0_r|]. left. unfold zlen. simpl. lia.
  - destruct (tick_begin_rel tw s Hrel) as (tw1 & Hb & Hf & Hrel1 & Hmax1 & _).
    assert (∃ x2 tw2 s2, (if negb (zlen (expired_timer_handles tw1) =? 0)
        then cb x (expired_timer_handles tw1) tw1 else Some (x, tw1)) = Some (x2, tw2) ∧
      rel true tw2 s2 ∧ rtc spec_api (spec_clear s) s2 ∧ max_expirations tw2 = max_expirations tw1)
      as (x2 & tw2 & s2 & Hc & Hrel2 & Hapi & Hmax2).
    { destruct (negb _); [by apply Hcb|]. exists x, tw1, (spec_clear s). by split_and!. }
    destruct (tick_end_rel tw2 s2 Hrel2) as (tw3 & He & Hrel3 & Hmax3 & _).
    assert (max_expirations tw3 = max_expirations tw) as Hmax by congruence.
    rewrite (expire_loop_step cb n i total x tw tw1 x2 tw2 tw3 Hb Hc He Htot), Hmax.
    set (fired := expired_timer_handles tw1) in *. cbv zeta. case_cond.
    + exists x2, tw3, (u32 (total + zlen fired)), i, (spec_advance s2), [fired]. split; [done|].
      split; [by econstructor; [done|done|constructor]|]. split; [done|].
      split; [simpl; by rewrite app_nil_r|]. right.
      rewrite zlen_cons. change (zlen (@nil (list Z))) with 0. lia.
    + destruct (IH (i + 1) (u32 (total + zlen fired)) x2 tw3 (spec_advance s2) Hrel3 ltac:(by rewrite u32_u32))
        as (x' & tw' & total' & i' & s' & rest & Hex & Ht & Hr & -> & Hcase).
      exists x', tw', (u32 (u32 (total + zlen fired) + zlen (concat rest))), i', s', (fired :: rest).
      split; [done|]. split; [by econstructor|]. split; [done|].
      split. { rewrite u32_add_l. f_equal. simpl. rewrite zlen_app. lia. }
      rewrite Hmax in Hcase. rewrite zlen_cons. lia.
Qed.

(** With a callback that only records what it is given, each timer expires at its
    own tick. *)
Definition due_at (s : tw_spec) (t : Z) : list Z :=
  (λ x, x.2.1) <$> filter (λ x : Z * (Z * Z), x.2.2 = t) (map_to_list (due s)).

Definition record (log : list (Z * list Z)) (hs : list Z) (tw : tw_timer_wheel)
    : option (list (Z * list Z) * tw_timer_wheel) := Some (log ++ [(current_tick tw, hs)], tw).

(** The state of the specification after [k] ticks. *)
Definition spec_after (s : tw_spec) (k : Z) : tw_spec :=
  Spec (now s + k) (filter (λ x : Z * (Z * Z), now s + k ≤ x.2.2) (due s)).

(** What the log of [k] ticks from [s] holds: an entry for each tick at which a
    timer was due. *)
Definition log_of (s : tw_spec) (lo hi : Z) (log : list (Z * list Z)) : Prop :=
  Forall2 (λ e t, e.1 = u32 t ∧ e.2 ≡ₚ due_at s t) log
    (filter (λ t, due_at s t ≠ []) (zrange (now s + lo) (now s + hi))).

Lemma rel_not_late b tw s i h d : rel b tw s → due s !! i = Some (h, d) → now s ≤ d.
Proof.
  intros (L & F & Sl & Hw & _) Hd. apply (rel_due _ _ _ _ _ Hw) in Hd as (k & o & Hk & Hi & Hm & ->).
  destruct (rel_slots _ _ _ _ _ Hw k i o h Hk Hi Hm) as [Hok _]. pose proof slots_range as HS.
  pose proof (rel_F _ _ _ _ _ Hw) as HF.
  pose proof (remaining_nonneg F Sl k o HF Hk Hok (rel_Sl _ _ _ _ _ Hw)). lia.
Qed.

Lemma record_ok : callback_ok record.
Proof. intros x hs tw s Hrel. eexists _, tw, s. split; [done|]. split; [done|]. split; [apply rtc_refl|done]. Qed.

Lemma spec_after_0 b tw s : rel b tw s → spec_after s 0 = s.
Proof.
  intros Hrel. destruct s as [n m]. unfold spec_after. simpl. rewrite Z.add_0_r. f_equal.
  apply map_filter_id. intros i [h d] Hi. simpl. apply (rel_not_late _ _ _ _ _ _ Hrel Hi).
Qed.

Lemma spec_after_step s k :
  spec_advance (spec_clear (spec_after s k)) = spec_after s (k + 1).
Proof.
  unfold spec_advance, spec_clear, spec_after. simpl. f_equal; [lia|].
  rewrite map_filter_filter. apply map_filter_ext. intros i [h d] _. simpl. lia.
Qed.

Lemma spec_after_fired s k : spec_fired (spec_after s k) ≡ₚ due_at s (now s + k).
Proof.
  unfold spec_fired, due_at, spec_after. simpl. apply fmap_Permutation.
  apply list.NoDup_Permutation.
  - apply list.NoDup_filter, NoDup_map_to_list.
  - apply list.NoDup_filter, NoDup_map_to_list.
  - intros [i [h d]]. rewrite !list_elem_of_filter, !elem_of_map_to_list, map_lookup_filter_Some. simpl.
    intuition lia.
Qed.

Lemma record_loop n : ∀ i total log tw s k,
  rel false tw (spec_after s k) → total = u32 total → log_of s 0 k log → 0 ≤ k →
  ∃ log' tw' total' i' k', expire_loop record n i total log tw = Some (log', tw', total', i') ∧
    rel false tw' (spec_after s k') ∧ log_of s 0 k' log' ∧ k ≤ k' ≤ k + Z.of_nat n ∧
    (k' = k + Z.of_nat n ∨ max_expirations tw ≤ total').
Proof.
  induction n as [|n IH]; intros i total log tw s k Hrel Htot Hlog Hk.
  - exists log, tw, total, i, k. split; [done|]. split; [done|]. split; [done|]. lia.
  - destruct (tick_begin_rel tw _ Hrel) as (tw1 & Hb & Hf & Hrel1 & Hmax1 & _).
    destruct (tick_end_rel tw1 _ Hrel1) as (tw3 & He & Hrel3 & Hmax3 & _).
    rewrite spec_after_fired in Hf. rewrite spec_after_step in Hrel3.
    set (hs := expired_timer_handles tw1) in *.
    set (log1 := if negb (zlen hs =? 0) then log ++ [(current_tick tw1, hs)] else log).
    assert (log_of s 0 (k + 1) log1) as Hlog1.
    { unfold log_of. rewrite (zrange_app _ (now s + k)), (zrange_cons (now s + k)), (zrange_nil (now s + k + 1)) by lia.
      rewrite list.filter_app, filter_cons.
      assert (current_tick tw1 = u32 (now s + k)) as Htick.
      { destruct Hrel1 as (L & F & Sl & Hw & _). apply (rel_tick _ _ _ _ _ Hw). }
      subst log1. destruct (zlen hs =? 0) eqn:E; simpl; bool_to_prop.
      - assert (hs = []) as Hnil by (destruct hs; [done|]; rewrite zlen_cons in E; pose proof (zlen_nonneg hs); lia).
        rewrite Hnil in Hf. rewrite decide_False by (intros Hne; by apply Hne, Permutation_nil).
        by rewrite filter_nil, app_nil_r.
      - rewrite decide_True by (intros Hnil; rewrite Hnil in Hf; apply Permutation_nil_r in Hf; by rewrite Hf in E).
        apply Forall2_app; [exact Hlog|]. by repeat constructor. }
    rewrite (expire_loop_step record n i total log tw tw1 log1 tw1 tw3 Hb) by (by destruct (negb _) || done).
    rewrite Hmax3, Hmax1. cbv zeta. fold hs. case_cond.
    + exists log1, tw3, (u32 (total + zlen hs)), i, (k + 1). do 3 (split; [done|]). lia.
    + destruct (IH (i + 1) (u32 (total + zlen hs)) log1 tw3 s (k + 1) Hrel3 ltac:(by rewrite u32_u32) Hlog1 ltac:(lia))
        as (log' & tw' & total' & i' & k' & Hex & Hr & Hl & Hk' & Hcase).
      exists log', tw', total', i', k'. do 3 (split; [done|]). rewrite Hmax3, Hmax1 in Hcase. lia.
Qed.

(** *** Initialisation *)

Definition init_pool (n : Z) : pool tw_timer :=
  Pool ((λ j, Timer j j 65535 u32_max) <$> zrange 0 n) fs_empty [].

Lemma vget_zrange lo hi i : 0 ≤ i < hi - lo → vget (zrange lo hi) i = Some (lo + i).
Proof.
  intros Hi. unfold vget, zrange. rewrite (proj2 (Z.leb_le 0 i)) by lia.
  rewrite lookup_seqZ. split; [|lia]. lia.
Qed.

Lemma vget_fmap {A B} (f : A → B) l i : vget (f <$> l) i = f <$> vget l i.
Proof. unfold vget. case_cond; [apply list_lookup_fmap|done]. Qed.

Lemma init_pool_len n : 0 ≤ n → pool_len (init_pool n) = n.
Proof.
  intros Hn. unfold pool_len, init_pool, zlen, zrange. simpl. rewrite length_fmap, length_seqZ. lia.
Qed.

Lemma init_pool_elt n j : 0 ≤ j < n → pool_elt_at_index (init_pool n) j = Some (Timer j j 65535 u32_max).
Proof.
  intros Hj. unfold pool_elt_at_index, pool_is_free_index. rewrite init_pool_len by lia.
  rewrite (proj2 (Z.leb_le 0 j)), (proj2 (Z.ltb_lt j n)) by lia.
  change (free_bitmap (init_pool n)) with (fs_empty : list Z).
  cbn [andb]. rewrite fs_empty_mem. simpl. by rewrite vget_fmap, vget_zrange by lia.
Qed.

Lemma init_pool_ok n : 0 ≤ n ≤ 2 ^ 32 → pool_ok (init_pool n).
Proof.
  intros Hn. split; simpl.
  - constructor.
  - rewrite init_pool_len; lia.
  - constructor.
  - intros i Hi. by apply elem_of_nil in Hi.
  - intros i _. rewrite elem_of_nil. split; [|done].
    pose proof (fs_empty_mem (B := list Z) i) as He. simpl in He. by rewrite He.
Qed.

(** A pool with no free element, and one more element. *)
Lemma vset_last {A} (l : list A) x y : vset (l ++ [x]) (zlen l) y = l ++ [y].
Proof.
  unfold vset, zlen. rewrite (proj2 (Z.leb_le 0 _)) by lia. rewrite Nat2Z.id.
  rewrite insert_app_r_alt by lia. by rewrite Nat.sub_diag.
Qed.

Lemma full_pool_last (l : list tw_timer) x :
  pool_elt_at_index (Pool (l ++ [x]) fs_empty []) (zlen l) = Some x.
Proof.
  unfold pool_elt_at_index, pool_is_free_index, pool_len. cbn [elts free_bitmap].
  pose proof (zlen_nonneg l). rewrite fs_empty_mem, zlen_app. change (zlen [x]) with 1.
  rewrite (proj2 (Z.leb_le 0 _)), (proj2 (Z.ltb_lt _ _)) by lia. simpl.
  by rewrite vget_app_r, Z.sub_diag by lia.
Qed.

Lemma full_pool_upd (l : list tw_timer) x f :
  upd (Pool (l ++ [x]) fs_empty []) (zlen l) f = Some (Pool (l ++ [f x]) fs_empty []).
Proof.
  unfold upd. rewrite full_pool_last. simpl. unfold pool_set. cbn [elts]. by rewrite vset_last.
Qed.

Lemma init_slot_step n row x :
  0 ≤ n < 2 ^ 32 → init_slot (init_pool n, row) x = Some (init_pool (n + 1), row ++ [n]).
Proof.
  intros Hn. unfold init_slot. cbn [fst snd]. unfold pool_get.
  change (zlen (free_indices (init_pool n))) with 0. rewrite Z.ltb_irrefl, init_pool_len by lia.
  unfold init_pool at 1 2 3. cbn [elts free_bitmap free_indices].
  set (l := _ <$> zrange 0 n). assert (zlen l = n) as Hl by exact (init_pool_len n ltac:(lia)).
  pose proof (full_pool_upd l) as Hu. rewrite Hl in Hu.
  rewrite Hu. cbn [mbind option_bind]. rewrite Hu. cbn [mbind option_bind].
  do 2 f_equal. unfold init_pool. f_equal. unfold with_next, with_prev. cbn [next prev fast_ring_offset user_handle].
  rewrite (zrange_app 0 n (n + 1)), fmap_app by lia.
  rewrite (zrange_cons n (n + 1)), (zrange_nil (n + 1) (n + 1)) by lia. done.
Qed.

Lemma init_slots l : ∀ n row, 0 ≤ n → n + zlen l ≤ 2 ^ 32 →
  mfoldl init_slot (init_pool n, row) l = Some (init_pool (n + zlen l), row ++ zrange n (n + zlen l)).
Proof.
  induction l as [|x l IH]; intros n row Hn Hl.
  - change (zlen []) with 0. rewrite Z.add_0_r. simpl. by rewrite zrange_nil, app_nil_r by lia.
  - rewrite zlen_cons in *. pose proof (zlen_nonneg l). cbn [mfoldl]. rewrite init_slot_step by lia. simpl.
    rewrite IH by lia. rewrite (zrange_cons n (n + (zlen l + 1))) by lia.
    rewrite <-app_assoc. simpl. by replace (n + 1 + zlen l) with (n + (zlen l + 1)) by lia.
Qed.

Lemma init_ring_step n rows x :
  0 ≤ n → n + S ≤ 2 ^ 32 →
  init_ring (init_pool n, rows) x = Some (init_pool (n + S), rows ++ [zrange n (n + S)]).
Proof.
  intros Hn Hl. pose proof slots_range. unfold init_ring. cbn [fst snd].
  assert (zlen (zrange 0 S) = S) as Hz by (unfold zlen, zrange; rewrite length_seqZ; lia).
  rewrite init_slots by (rewrite ?Hz; lia). simpl. by rewrite Hz.
Qed.

Lemma init_rel max :
  ∃ tw, tw_timer_wheel_init max = Some tw ∧ rel false tw spec_init ∧
    max_expirations tw = max ∧ pool_len (timers tw) = n_heads.
Proof.
  pose proof slots_range as HS. pose proof geo_wheels as HW.
  assert (∃ rows, mfoldl init_ring (pool_null, []) (zrange 0 W) = Some (init_pool n_heads, rows) ∧
    ∀ r sl, 0 ≤ r < W → 0 ≤ sl < S → (row ← vget rows r; vget row sl) = Some (r * S + sl)) as (rows & Hm & Hrows).
  { unfold n_heads. change (pool_null, []) with (init_pool 0, @nil (list Z)).
    destruct HW as [-> | ->].
    - exists [zrange 0 S]. change (zrange 0 1) with [0]. cbn [mfoldl]. rewrite init_ring_step by lia. simpl.
      split; [by rewrite Z.add_0_l; destruct S|].
      intros r sl Hr Hsl. replace r with 0 by lia. change (vget [zrange 0 S] 0) with (Some (zrange 0 S)). cbn [mbind option_bind].
      rewrite vget_zrange by lia. done.
    - exists [zrange 0 S; zrange S (S + S)]. change (zrange 0 2) with [0; 1]. cbn [mfoldl].
      rewrite init_ring_step, Z.add_0_l by lia. simpl. rewrite init_ring_step by lia. simpl.
      split; [do 3 f_equal; lia|].
      intros r sl Hr Hsl. assert (r = 0 ∨ r = 1) as [-> | ->] by lia.
      + change (vget [zrange 0 S; zrange S (S + S)] 0) with (Some (zrange 0 S)). cbn [mbind option_bind].
        rewrite vget_zrange by lia. done.
      + change (vget [zrange 0 S; zrange S (S + S)] 1) with (Some (zrange S (S + S))). cbn [mbind option_bind].
        rewrite vget_zrange by lia. f_equal. lia. }
  unfold tw_timer_wheel_init. rewrite Hm. simpl. eexists. split; [done|].
  assert (2 * S ≤ 2 ^ 15) by lia. assert (0 < n_heads ≤ 2 ^ 15) as Hnh by (unfold n_heads; nia).
  split; [|split; [done|by apply init_pool_len; lia]].
  exists (λ _, []), 0, 0. split; [|done].
  assert (flat 0 n_heads (λ _, []) [] = []) as Hflat.
  { unfold flat. rewrite app_nil_r. generalize (zrange 0 n_heads). by induction l. }
  assert (∀ j, 0 ≤ j < n_heads → pool_elt_at_index (init_pool n_heads) j = Some (Timer j j 65535 u32_max)) as He
    by apply init_pool_elt.
  split; simpl.
  - split.
    + apply init_pool_ok. lia.
    + intros k Hk. unfold linked, nx, pv. simpl. by rewrite He.
    + intros i. rewrite Hflat, elem_of_nil. split.
      * intros Hi. left. apply elt_Some in Hi as [Hi _]; [|apply init_pool_ok; lia].
        by rewrite init_pool_len in Hi by lia.
      * intros [Hi|?]; [|done]. rewrite He by done. by eexists.
    + rewrite Hflat. constructor.
    + intros i. rewrite Hflat, elem_of_nil. done.
  - exact Hrows.
  - destruct HW as [-> | ->]; done.
  - lia.
  - lia.
  - done.
  - intros k Hk. unfold meta. by rewrite He.
  - intros k i o h _ Hi. by apply elem_of_nil in Hi.
  - intros i h d. rewrite lookup_empty. split; [done|]. intros (k & o & _ & Hi & _). by apply elem_of_nil in Hi.
Qed.

(** *** Freeing the wheel *)

Lemma rings_drop_head lo H p L :
  lo < H → 0 ≤ lo → rings lo H p L [] → rings (lo + 1) H p L (L lo ++ [lo]).
Proof.
  intros Hlo H0 Hr.
  assert (flat (lo + 1) H L (L lo ++ [lo]) ≡ₚ lo :: flat lo H L []) as Hf.
  { unfold flat. rewrite (zrange_cons lo H) by lia. cbn [fmap list_fmap concat].
    rewrite app_nil_r, (assoc_L (++)), Permutation_app_comm. simpl. f_equiv.
    by rewrite Permutation_app_comm. }
  assert (lo ∉ flat lo H L []) as Hni by (intros Hin; apply (r_high _ _ _ _ _ Hr) in Hin; lia).
  split; try apply Hr.
  - intros k Hk. apply (r_linked _ _ _ _ _ Hr). lia.
  - intros i. rewrite (r_live _ _ _ _ _ Hr), Hf, elem_of_cons.
    destruct (decide (i = lo)); [subst; intuition lia|]. intuition lia.
  - rewrite Hf. apply NoDup_cons. split; [done|apply Hr].
  - intros i. rewrite Hf, elem_of_cons. intros [->|Hi]; [lia|].
    apply (r_high _ _ _ _ _ Hr) in Hi. lia.
Qed.

Lemma free_slot_ok tw lo H p L rs :
  lo < H → 0 ≤ lo → rings lo H p L [] → slot_head tw rs.1 rs.2 = Some lo →
  ∃ p', free_slot tw p rs = Some p' ∧ rings (lo + 1) H p' L [].
Proof.
  intros Hlo H0 Hr Hh. unfold free_slot. rewrite Hh. simpl.
  destruct (r_head_live _ _ _ _ _ lo Hr ltac:(lia)) as [t Ht]. rewrite Ht. simpl.
  destruct (r_linked _ _ _ _ _ Hr lo ltac:(lia)) as [Hn _].
  assert (next t = hd lo (L lo)) as ->.
  { assert (nx p lo = Some (hd lo (L lo))) as Hx by (destruct (L lo); simpl in Hn; apply Hn).
    unfold nx in Hx. rewrite Ht in Hx. simpl in Hx. congruence. }
  assert (lo ∉ L lo) as Hni by (intros Hin; apply (r_list_high _ _ _ _ _ _ _ Hr) in Hin; lia).
  pose proof (rings_drop_head lo H p L Hlo H0 Hr) as Hr1.
  destruct (expire_list_ok (lo + 1) H L [lo] lo (L lo) (length (elts p)) p [] Hni Hr1) as (p1 & hs & Hex & Hr2 & _).
  { destruct (L lo) as [|x l]; [done|]. apply Hn. }
  { pose proof (rings_fuel _ _ _ _ _ Hr1) as Hf. rewrite length_app in Hf. lia. }
  rewrite (free_list_expire _ _ _ _ []), Hex. simpl.
  destruct (r_det_live _ _ _ _ _ lo Hr2 ltac:(by left)) as [t1 Ht1]. rewrite Ht1. simpl.
  eexists. split; [done|]. apply (rings_put _ _ _ _ _ _ Hr2).
Qed.

Lemma free_slots_ok tw H L l : ∀ lo p,
  0 ≤ lo → lo + zlen l = H → rings lo H p L [] →
  (∀ n rs, l !! n = Some rs → slot_head tw rs.1 rs.2 = Some (lo + Z.of_nat n)) →
  ∃ p', mfoldl (free_slot tw) p l = Some p' ∧ rings H H p' L [].
Proof.
  induction l as [|rs l IH]; intros lo p Hlo Hlen Hr Hh.
  - exists p. split; [done|]. by replace H with lo in * by (unfold zlen in Hlen; simpl in Hlen; lia).
  - rewrite zlen_cons in Hlen. pose proof (zlen_nonneg l).
    pose proof (Hh 0%nat rs eq_refl) as Hh0. rewrite Z.add_0_r in Hh0.
    destruct (free_slot_ok tw lo H p L rs ltac:(lia) Hlo Hr Hh0) as (p1 & Hs & Hr1).
    cbn [mfoldl]. rewrite Hs. apply (IH (lo + 1)); [lia|lia|done|].
    intros n rs' Hn. rewrite (Hh (Datatypes.S n) rs' Hn). f_equal. lia.
Qed.

Lemma lookup_row (r : Z) n rs :
  ((λ j, (r, j)) <$> zrange 0 S) !! n = Some rs → rs = (r, Z.of_nat n) ∧ Z.of_nat n < S.
Proof.
  rewrite list_lookup_fmap. intros (j & Hj & ->)%fmap_Some.
  unfold zrange in Hj. apply lookup_seqZ in Hj as [-> Hn]. split; [f_equal; lia|lia].
Qed.

Lemma free_rel b tw s :
  rel b tw s → ∃ p, tw_timer_wheel_free tw = Some p ∧ pool_ok p ∧ pool_elts p = 0.
Proof.
  intros (L & F & Sl & Hw & _). pose proof slots_range as HS. pose proof geo_wheels as HW.
  pose proof (rel_heads _ _ _ _ _ Hw) as Hheads. unfold heads_ok in Hheads.
  assert (zlen (zrange 0 S) = S) as Hz by (unfold zlen, zrange; rewrite length_seqZ; lia).
  unfold tw_timer_wheel_free.
  destruct (free_slots_ok tw n_heads L
    (concat ((λ i, (λ j, (i, j)) <$> zrange 0 S) <$> zrange 0 W)) 0 (timers tw)) as (p & -> & Hr).
  - lia.
  - assert (∀ r : Z, zlen ((λ j, (r, j)) <$> zrange 0 S) = S) as Hrow by (intros; unfold zlen; by rewrite length_fmap).
    unfold n_heads. destruct HW as [-> | ->];
      [change (zrange 0 1) with [0]|change (zrange 0 2) with [0; 1]]; cbn [fmap list_fmap concat];
      rewrite !zlen_app; change (zlen (@nil (Z * Z))) with 0; rewrite !Hrow; lia.
  - apply Hw.
  - intros n rs. destruct HW as [EW|EW]; rewrite EW in *;
      [change (zrange 0 1) with [0]|change (zrange 0 2) with [0; 1]]; cbn [fmap list_fmap concat]; rewrite app_nil_r.
    + intros [-> Hn]%lookup_row. cbn [fst snd]. rewrite (Hheads 0 (Z.of_nat n)) by lia. done.
    + intros [Hn|[Hge Hn]]%lookup_app_Some; apply lookup_row in Hn as [-> Hn]; cbn [fst snd].
      * rewrite (Hheads 0 (Z.of_nat n)) by lia. done.
      * unfold zlen in Hz. rewrite length_fmap in *. rewrite (Hheads 1 _) by lia. f_equal. lia.
  - exists p. split; [done|]. split; [apply Hr|]. rewrite (pool_elts_live p) by apply Hr.
    destruct (filter _ _) as [|i l] eqn:E; [done|].
    assert (i ∈ i :: l) as Hi by by left. rewrite <-E in Hi. apply list_elem_of_filter in Hi as [Hi _].
    assert (is_Some (pool_elt_at_index p i)) as Hl.
    { apply elt_Some; [apply Hr|]. apply is_free_false; [apply Hr|done]. }
    apply (r_live _ _ _ _ _ Hr) in Hl as [?|Hl]; [lia|].
    unfold flat in Hl. rewrite zrange_nil in Hl by lia. by apply elem_of_nil in Hl.
Qed.
End refinement.

(** ** Properties *)

(** C1: with a callback that records the tick and the handles it is given, every
    timer expires at the tick it was due (its start tick plus its interval), neither
    earlier nor later: after [k] ticks the log holds, in order of time, exactly the
    timers due at each of them, and the timers due later are still there with their
    deadlines.  All the requested ticks are processed unless [max_expirations] stops
    the loop. *)
Theorem tw_timer_expire_on_time `{G : TwGeometry} `{!TwGeometryOk G} tw s nticks :
  rel false tw s → 0 ≤ nticks < 2 ^ 32 →
  ∃ log tw' total i k, tw_timer_expire_timers record nticks [] tw = Some (log, tw', total, i) ∧
    rel false tw' (spec_after s k) ∧ log_of s 0 k log ∧ 0 ≤ k ≤ nticks ∧
    (k = nticks ∨ max_expirations tw ≤ total).
Proof.
  intros Hrel Hn. unfold tw_timer_expire_timers.
  assert (log_of s 0 0 []) as Hlog by (unfold log_of; rewrite zrange_nil by lia; constructor).
  assert (rel false tw (spec_after s 0)) as Hrel0 by by rewrite (spec_after_0 _ _ _ Hrel).
  case_cond.
  - exists [], tw, 0, 0, 0. do 3 (split; [done|]). lia.
  - destruct (record_loop (Z.to_nat nticks) 0 0 [] tw s 0 Hrel0 eq_refl Hlog ltac:(lia))
      as (log & tw' & total & i & k & -> & ? & ? & ? & ?).
    exists log, tw', total, i, k. do 3 (split; [done|]). lia.
Qed.

(** Two timers on the wheel with two rings of 512 slots, one of them behind the
    slow ring; 601 ticks. *)
Lemma tw_timer_expire_on_time_witness :
  let G := geo_16t_2w_512sl in
  ∃ tw tw1 tw2 i1 i2, tw_timer_wheel_init 100 = Some tw ∧
    tw_timer_start tw 7 1 600 = Some (tw1, i1) ∧ tw_timer_start tw1 8 2 3 = Some (tw2, i2) ∧
    ∃ log tw' total i k, tw_timer_expire_timers record 601 [] tw2 = Some (log, tw', total, i) ∧
      log_of (spec_start (spec_start spec_init i1 268435463 600) i2 536870920 3) 0 k log.
Proof.
  intros G. destruct (init_rel 100) as (tw & Hi & Hr & _ & Hl).
  destruct (start_rel false tw spec_init 7 1 600 268435463 Hr) as (tw1 & i1 & Hs1 & _ & _ & Hl1 & Hr1);
    [rewrite Hl; vm_compute; reflexivity|reflexivity|vm_compute; discriminate|vm_compute; by split; [discriminate|]|].
  destruct (start_rel false tw1 _ 8 2 3 536870920 Hr1) as (tw2 & i2 & Hs2 & _ & _ & Hl2 & Hr2);
    [|reflexivity|vm_compute; discriminate|vm_compute; by split; [discriminate|]|].
  { rewrite Hl in Hl1. eapply Z.le_lt_trans; [exact Hl1|]. vm_compute. reflexivity. }
  destruct (tw_timer_expire_on_time tw2 _ 601 Hr2) as (log & tw' & total & i & k & He & _ & Hlog & _); [lia|].
  exists tw, tw1, tw2, i1, i2. do 3 (split; [done|]). exists log, tw', total, i, k. by split.
Defined.

(** C3: with any callback that starts and stops timers, [tw_timer_expire_timers]
    returns, the handles given to the callback are tick by tick those the
    specification expires, and the result counts them (modulo 2^32).  The number of
    intervals by which the clock is advanced is the number of ticks processed, except
    that it is one less when [max_expirations] stops the loop. *)
Theorem tw_timer_expire_refines `{G : TwGeometry} `{!TwGeometryOk G} {X}
    (cb : X → list Z → tw_timer_wheel → option (X * tw_timer_wheel)) tw s nticks x :
  callback_ok cb → rel false tw s → 0 ≤ nticks < 2 ^ 32 →
  ∃ x' tw' total i s' fired, tw_timer_expire_timers cb nticks x tw = Some (x', tw', total, i) ∧
    spec_ticks s fired s' ∧ rel false tw' s' ∧ total = u32 (zlen (concat fired)) ∧
    (zlen fired = nticks ∧ i = nticks ∨
     0 < zlen fired ≤ nticks ∧ i = zlen fired - 1 ∧ max_expirations tw ≤ total).
Proof.
  intros Hcb Hrel Hn. unfold tw_timer_expire_timers. case_cond.
  - exists x, tw, 0, 0, s, []. split; [done|]. split; [constructor|]. split; [done|]. split; [done|].
    left. split; [by subst|done].
  - destruct (expire_loop_rel cb (Z.to_nat nticks) Hcb 0 0 x tw s Hrel eq_refl)
      as (x' & tw' & total & i & s' & fired & -> & Ht & Hr & Htot & Hcase).
    exists x', tw', total, i, s', fired. do 4 (split; [done|]). lia.
Qed.

Lemma tw_timer_expire_refines_witness :
  let G := geo_2t_1w_2048sl in
  ∃ tw, tw_timer_wheel_init 1 = Some tw ∧
    ∃ log tw' total i s' fired, tw_timer_expire_timers record 5 [] tw = Some (log, tw', total, i) ∧
      spec_ticks spec_init fired s' ∧ (zlen fired = 5 ∨ 1 ≤ total).
Proof.
  intros G. destruct (init_rel 1) as (tw & Hi & Hr & Hm & _). exists tw. split; [done|].
  destruct (tw_timer_expire_refines record tw spec_init 5 [] record_ok Hr)
    as (log & tw' & total & i & s' & fired & He & Ht & _ & _ & Hcase); [lia|].
  exists log, tw', total, i, s', fired. split; [done|]. split; [done|].
  destruct Hcase as [[? _]|(_ & _ & ?)]; [by left|right; by rewrite <-Hm].
Defined.

(** C2: a start with an interval within the limit of the geometry returns a handle
    that was not in use and adds to the map exactly that handle, with the tick
    [interval] from now; a stop of a live handle removes exactly it; a stop of
    anything else, a list head included, fails its assertion.  All of it also holds
    inside the expiry callback. *)
Theorem tw_timer_start_stop_spec `{G : TwGeometry} `{!TwGeometryOk G} b tw s pool_index timer_id interval h :
  rel b tw s → pool_len (timers tw) < 2 ^ 32 →
  make_internal_timer_handle pool_index timer_id = Some h → h ≠ u32_max →
  1 ≤ interval < tw_interval_limit →
  (∃ tw' i, tw_timer_start tw pool_index timer_id interval = Some (tw', i) ∧
    due s !! i = None ∧ rel b tw' (spec_start s i h interval) ∧
    ∃ tw'', tw_timer_stop tw' i = Some tw'' ∧ rel b tw'' (spec_stop (spec_start s i h interval) i)) ∧
  (∀ i, due s !! i = None → tw_timer_stop tw i = None).
Proof.
  intros Hrel Hlen Hmk Hh Hint. split; [|intros i; by apply (stop_None b)].
  destruct (start_rel b tw s _ _ _ h Hrel Hlen Hmk Hh Hint) as (tw' & i & Hs & Hd & _ & _ & Hrel').
  exists tw', i. do 3 (split; [done|]).
  destruct (stop_rel b tw' _ i Hrel') as (tw'' & ? & ? & _); [|by exists tw''].
  simpl. rewrite lookup_insert_eq. by eexists.
Qed.

Lemma tw_timer_start_stop_spec_witness :
  let G := geo_16t_1w_2048sl in
  ∃ tw tw' i, tw_timer_wheel_init 10 = Some tw ∧ tw_timer_start tw 5 15 2047 = Some (tw', i) ∧
    tw_timer_stop tw 0 = None.
Proof.
  intros G. destruct (init_rel 10) as (tw & Hi & Hr & _ & Hl).
  destruct (tw_timer_start_stop_spec false tw spec_init 5 15 2047 4026531845 Hr) as [(tw' & i & Hs & _) Hstop];
    [rewrite Hl; vm_compute; reflexivity|reflexivity|vm_compute; discriminate|vm_compute; by split; [discriminate|]|].
  exists tw, tw', i. split; [done|]. split; [done|]. by apply Hstop.
Defined.

(** Initialisation returns a wheel without timers; freeing a wheel, whatever
    timers are on it, releases every element of its pool exactly once (no element is
    freed twice, none is left). *)
Theorem tw_timer_init_free_spec `{G : TwGeometry} `{!TwGeometryOk G} b tw s max :
  rel b tw s →
  (∃ tw0, tw_timer_wheel_init max = Some tw0 ∧ rel false tw0 spec_init ∧ max_expirations tw0 = max) ∧
  (∃ p, tw_timer_wheel_free tw = Some p ∧ pool_ok p ∧ pool_elts p = 0).
Proof.
  intros Hrel. split; [|by apply (free_rel b tw s)].
  destruct (init_rel max) as (tw0 & ? & ? & ? & _). by exists tw0.
Qed.

Lemma tw_timer_init_free_spec_witness :
  let G := geo_16t_2w_512sl in
  ∃ tw p, tw_timer_wheel_init 3 = Some tw ∧ tw_timer_wheel_free tw = Some p ∧ pool_elts p = 0.
Proof.
  intros G. destruct (init_rel 3) as (tw & Hi & Hr & _).
  destruct (tw_timer_init_free_spec false tw spec_init 3 Hr) as [_ (p & Hf & _ & He)].
  exists tw, p. by split_and!.
Defined.

(** The slow ring offset is computed in 16 bits before the assertion on it, so
    an interval of 2^25 + 1 ticks passes the assertion, and the timer expires one
    tick later. *)
Theorem tw_timer_start_long_interval :
  let G := geo_16t_2w_512sl in
  (tw ← tw_timer_wheel_init 100; '(tw, i) ← tw_timer_start tw 7 1 (2 ^ 25 + 1);
   r ← tw_timer_expire_timers record 2 [] tw; Some r.1.1.1) = Some [(1, [268435463])].
Proof. vm_compute. reflexivity. Qed.
End TwSpec.
