(* ===== verification/Ip4Mtrie.v ===== *)
(** * The IPv4 mtrie (vnet/ip/ip4_mtrie.c) and the FIB it accelerates

    A 8-8-8-8 trie of plies of 256 leaves, kept in a pool.  A leaf is terminal
    (odd: [1 + 2 * adj_index]) or points to a ply (even: [2 * ply_index]).  Next to
    each terminal leaf the ply records the length of the route it comes from.  The
    FIB keeps, per prefix length, a table from masked address to FIB entry; the
    mtrie must answer every lookup as a longest prefix match over these tables does,
    which [ip4_lookup_validate] tests.

    An address is its value as a big-endian number, so that the masks and the bytes
    [as_u8[0..3]] are those of the network order.  [None] is a failed assertion or
    an access out of bounds. *)

From stdpp Require Import gmap.
From S2P Require Import Prelude Bitmap Popcount Pool.

Module Mtrie.
Import ClibPool.

(** ** Leaves *)

Definition IP4_FIB_MTRIE_LEAF_EMPTY : Z := 1.
Definition IP4_FIB_MTRIE_LEAF_ROOT : Z := 0.

Definition assert (b : bool) : option () := if b then Some () else None.

Definition ip4_fib_mtrie_leaf_is_empty (n : Z) : bool := n =? IP4_FIB_MTRIE_LEAF_EMPTY.
Definition ip4_fib_mtrie_leaf_is_non_empty (n : Z) : bool := negb (n =? IP4_FIB_MTRIE_LEAF_EMPTY).
Definition ip4_fib_mtrie_leaf_is_terminal (n : Z) : bool := negb (Z.land n 1 =? 0).
Definition ip4_fib_mtrie_leaf_is_next_ply (n : Z) : bool := Z.land n 1 =? 0.

Definition ip4_fib_mtrie_leaf_get_adj_index (n : Z) : option Z :=
  _ ← assert (ip4_fib_mtrie_leaf_is_terminal n); Some (Z.shiftr n 1).

Definition ip4_fib_mtrie_leaf_set_adj_index (adj_index : Z) : option Z :=
  let l := u32 (1 + 2 * adj_index) in
  adj ← ip4_fib_mtrie_leaf_get_adj_index l;
  _ ← assert (adj =? adj_index);
  Some l.

Definition ip4_fib_mtrie_leaf_get_next_ply_index (n : Z) : option Z :=
  _ ← assert (ip4_fib_mtrie_leaf_is_next_ply n); Some (Z.shiftr n 1).

Definition ip4_fib_mtrie_leaf_set_next_ply_index (i : Z) : option Z :=
  let l := u32 (0 + 2 * i) in
  j ← ip4_fib_mtrie_leaf_get_next_ply_index l;
  _ ← assert (j =? i);
  Some l.

(** ** Plies *)

Record ip4_fib_mtrie_ply := Ply {
  leaves : list Z;
  dst_address_bits_of_leaves : list Z;
  n_non_empty_leafs : Z;
}.

Definition zero_ply : ip4_fib_mtrie_ply := Ply (replicate 256 0) (replicate 256 0) 0.

Record ip4_fib_mtrie := MtrieState {
  ply_pool : pool ip4_fib_mtrie_ply;
  default_leaf : Z;
}.

Definition with_pool (p : pool ip4_fib_mtrie_ply) (m : ip4_fib_mtrie) := MtrieState p (default_leaf m).
Definition get_ply (m : ip4_fib_mtrie) (i : Z) : option ip4_fib_mtrie_ply := pool_elt_at_index (ply_pool m) i.
Definition set_ply (m : ip4_fib_mtrie) (i : Z) (p : ip4_fib_mtrie_ply) : ip4_fib_mtrie :=
  with_pool (pool_set (ply_pool m) i p) m.

Definition with_leaf (p : ip4_fib_mtrie_ply) (i l : Z) :=
  Ply (vset (leaves p) i l) (dst_address_bits_of_leaves p) (n_non_empty_leafs p).
Definition with_bits (p : ip4_fib_mtrie_ply) (i b : Z) :=
  Ply (leaves p) (vset (dst_address_bits_of_leaves p) i b) (n_non_empty_leafs p).
Definition with_count (p : ip4_fib_mtrie_ply) (n : Z) :=
  Ply (leaves p) (dst_address_bits_of_leaves p) n.

Definition b2z (b : bool) : Z := if b then 1 else 0.

(** [__sync_val_compare_and_swap] on a leaf, and the assertion that follows it. *)
Definition leaf_cas (p : ip4_fib_mtrie_ply) (i old_leaf new_leaf : Z) : option ip4_fib_mtrie_ply :=
  l ← vget (leaves p) i;
  let p := if l =? old_leaf then with_leaf p i new_leaf else p in
  l ← vget (leaves p) i;
  _ ← assert (l =? new_leaf);
  Some p.

Definition ply_init (init prefix_len : Z) : ip4_fib_mtrie_ply :=
  Ply (replicate 256 init) (replicate 256 (u8 prefix_len))
      (if ip4_fib_mtrie_leaf_is_empty init then 0 else 256).

Definition ply_create (m : ip4_fib_mtrie) (init_leaf prefix_len : Z) : option (ip4_fib_mtrie * Z) :=
  let '(pl, p) := pool_get zero_ply (ply_pool m) in
  l ← ip4_fib_mtrie_leaf_set_next_ply_index p;
  Some (set_ply (with_pool pl m) p (ply_init init_leaf prefix_len), l).

(** The index of the ply a leaf points to; the ply must be live, and not the root. *)
Definition get_next_ply_for_leaf (m : ip4_fib_mtrie) (l : Z) : option Z :=
  n ← ip4_fib_mtrie_leaf_get_next_ply_index l;
  _ ← assert (negb (n =? 0));
  _ ← get_ply m n;
  Some n.

(** The recursive functions take a fuel, one unit per ply: 4 is the depth of the
    trie. *)
Fixpoint ply_free (fuel : nat) (m : ip4_fib_mtrie) (p : Z) : option ip4_fib_mtrie :=
  match fuel with
  | O => None
  | S fuel =>
      m ← mfoldl (λ m i,
            ply ← get_ply m p;
            l ← vget (leaves ply) i;
            if ip4_fib_mtrie_leaf_is_next_ply l then
              n ← get_next_ply_for_leaf m l;
              ply_free fuel m n
            else Some m) m (zrange 0 256);
      if p =? 0 then
        _ ← get_ply m p;
        Some (set_ply m p (ply_init IP4_FIB_MTRIE_LEAF_EMPTY 0))
      else
        _ ← get_ply m p;
        Some (with_pool (pool_put_index (ply_pool m) p) m)
  end.

Definition ip4_fib_free (m : ip4_fib_mtrie) : option ip4_fib_mtrie :=
  _ ← get_ply m 0; ply_free 4 m 0.

(** ** Addresses *)

(** [as_u8[k]] *)
Definition as_u8 (a k : Z) : Z := Z.land (Z.shiftr a (24 - 8 * k)) 255.

(** [ip4_main.fib_masks[i]], as [ip4_lookup_init] sets it. *)
Definition fib_masks (i : Z) : Z :=
  if i <? 32 then u32 (Z.shiftl (ClibBitmap.pow2_mask i) (32 - i)) else u32_max.

(** ** Lookup *)

Definition ip4_mtrie_lookup_address (m : ip4_fib_mtrie) (dst : Z) : option Z :=
  p ← get_ply m 0;
  l ← vget (leaves p) (as_u8 dst 0);
  if ip4_fib_mtrie_leaf_is_terminal l then ip4_fib_mtrie_leaf_get_adj_index l
  else
  n ← get_next_ply_for_leaf m l;
  p ← get_ply m n;
  l ← vget (leaves p) (as_u8 dst 1);
  if ip4_fib_mtrie_leaf_is_terminal l then ip4_fib_mtrie_leaf_get_adj_index l
  else
  n ← get_next_ply_for_leaf m l;
  p ← get_ply m n;
  l ← vget (leaves p) (as_u8 dst 2);
  if ip4_fib_mtrie_leaf_is_terminal l then ip4_fib_mtrie_leaf_get_adj_index l
  else
  n ← get_next_ply_for_leaf m l;
  p ← get_ply m n;
  l ← vget (leaves p) (as_u8 dst 3);
  _ ← assert (ip4_fib_mtrie_leaf_is_terminal l);
  ip4_fib_mtrie_leaf_get_adj_index l.

(** The step of the forwarding path reads the ply without a check: here the vector
    of the pool, in or out of use. *)
Definition ip4_fib_mtrie_lookup_step (m : ip4_fib_mtrie) (current_leaf dst_address k : Z) : option Z :=
  let current_is_terminal := ip4_fib_mtrie_leaf_is_terminal current_leaf in
  ply ← vget (elts (ply_pool m)) (if current_is_terminal then 0 else Z.shiftr current_leaf 1);
  next_leaf ← vget (leaves ply) (as_u8 dst_address k);
  Some (if current_is_terminal then current_leaf else next_leaf).

(** ** Insertion *)

Record ip4_fib_mtrie_set_unset_leaf_args := Args {
  dst_address : Z;
  dst_address_length : Z;
  adj_index : Z;
}.

Fixpoint set_ply_with_more_specific_leaf (fuel : nat) (m : ip4_fib_mtrie) (ply new_leaf new_bits : Z)
    : option ip4_fib_mtrie :=
  match fuel with
  | O => None
  | S fuel =>
      _ ← assert (ip4_fib_mtrie_leaf_is_terminal new_leaf);
      _ ← assert (negb (ip4_fib_mtrie_leaf_is_empty new_leaf));
      mfoldl (λ m i,
        p ← get_ply m ply;
        old_leaf ← vget (leaves p) i;
        old_bits ← vget (dst_address_bits_of_leaves p) i;
        if negb (ip4_fib_mtrie_leaf_is_terminal old_leaf) then
          sub_ply ← get_next_ply_for_leaf m old_leaf;
          set_ply_with_more_specific_leaf fuel m sub_ply new_leaf new_bits
        else if old_bits <=? new_bits then
          p ← leaf_cas p i old_leaf new_leaf;
          let p := with_bits p i (u8 new_bits) in
          let p := with_count p (n_non_empty_leafs p + b2z (ip4_fib_mtrie_leaf_is_empty old_leaf)) in
          Some (set_ply m ply p)
        else Some m) m (zrange 0 256)
  end.

(** The insertion of the leaf at cell [i] of the last ply of the prefix;
    [recurse] is the recursive call of [set_leaf] on a sub-ply. *)
Definition set_leaf_cell (recurse : ip4_fib_mtrie → Z → option ip4_fib_mtrie) (fuel : nat)
    (a : ip4_fib_mtrie_set_unset_leaf_args) (old_ply_index : Z) (m : ip4_fib_mtrie) (i : Z)
    : option ip4_fib_mtrie :=
  old_ply ← get_ply m old_ply_index;
  old_leaf ← vget (leaves old_ply) i;
  let old_leaf_is_terminal := ip4_fib_mtrie_leaf_is_terminal old_leaf in
  old_bits ← vget (dst_address_bits_of_leaves old_ply) i;
  if old_bits <=? dst_address_length a then
    new_leaf ← ip4_fib_mtrie_leaf_set_adj_index (adj_index a);
    if old_leaf_is_terminal then
      let p := with_bits old_ply i (u8 (dst_address_length a)) in
      p ← leaf_cas p i old_leaf new_leaf;
      let p := with_count p (n_non_empty_leafs p + b2z (ip4_fib_mtrie_leaf_is_empty old_leaf)) in
      _ ← assert (n_non_empty_leafs p <=? 256);
      Some (set_ply m old_ply_index p)
    else
      new_ply ← get_next_ply_for_leaf m old_leaf;
      set_ply_with_more_specific_leaf fuel m new_ply new_leaf (dst_address_length a)
  else if negb old_leaf_is_terminal then
    new_ply ← get_next_ply_for_leaf m old_leaf;
    recurse m new_ply
  else Some m.

Fixpoint set_leaf (fuel : nat) (m : ip4_fib_mtrie) (a : ip4_fib_mtrie_set_unset_leaf_args)
    (old_ply_index dst_address_byte_index : Z) : option ip4_fib_mtrie :=
  match fuel with
  | O => None
  | S fuel =>
      _ ← assert ((0 <? dst_address_length a) && (dst_address_length a <=? 32));
      _ ← assert (dst_address_byte_index <? 4);
      let n_dst_bits_next_plies := dst_address_length a - 8 * (dst_address_byte_index + 1) in
      let dst_byte := as_u8 (dst_address a) dst_address_byte_index in
      if n_dst_bits_next_plies <=? 0 then
        let n_dst_bits_this_ply := - n_dst_bits_next_plies in
        _ ← assert (Z.land dst_byte (ClibBitmap.pow2_mask n_dst_bits_this_ply) =? 0);
        mfoldl (set_leaf_cell (λ m p, set_leaf fuel m a p (dst_address_byte_index + 1)) fuel a old_ply_index)
          m (zrange dst_byte (dst_byte + Z.shiftl 1 n_dst_bits_this_ply))
      else
        old_ply ← get_ply m old_ply_index;
        old_leaf ← vget (leaves old_ply) dst_byte;
        old_bits ← vget (dst_address_bits_of_leaves old_ply) dst_byte;
        if ip4_fib_mtrie_leaf_is_terminal old_leaf then
          '(m, new_leaf) ← ply_create m old_leaf old_bits;
          new_ply ← get_next_ply_for_leaf m new_leaf;
          old_ply ← get_ply m old_ply_index;
          p ← leaf_cas old_ply dst_byte old_leaf new_leaf;
          let p := with_bits p dst_byte 0 in
          let p := with_count p (n_non_empty_leafs p - b2z (ip4_fib_mtrie_leaf_is_non_empty old_leaf)) in
          _ ← assert (0 <=? n_non_empty_leafs p);
          let p := with_count p (n_non_empty_leafs p + 1) in
          set_leaf fuel (set_ply m old_ply_index p) a new_ply (dst_address_byte_index + 1)
        else
          new_ply ← get_next_ply_for_leaf m old_leaf;
          set_leaf fuel m a new_ply (dst_address_byte_index + 1)
  end.

(** ** Removal *)

(** The loop of [unset_leaf] over the cells [cells] of a ply; [recurse] is the call on
    a sub-ply.  The result says whether the ply was freed. *)
Fixpoint unset_cells (recurse : ip4_fib_mtrie → Z → option (ip4_fib_mtrie * bool))
    (del_leaf old_ply dst_address_byte_index : Z) (m : ip4_fib_mtrie) (cells : list Z)
    : option (ip4_fib_mtrie * bool) :=
  match cells with
  | [] => Some (m, false)
  | i :: cells =>
      p ← get_ply m old_ply;
      old_leaf ← vget (leaves p) i;
      '(m, hit) ← (if old_leaf =? del_leaf then Some (m, true)
                   else if negb (ip4_fib_mtrie_leaf_is_terminal old_leaf) then
                     sub ← get_next_ply_for_leaf m old_leaf; recurse m sub
                   else Some (m, false));
      if (hit : bool) then
        p ← get_ply m old_ply;
        let p := with_leaf p i IP4_FIB_MTRIE_LEAF_EMPTY in
        let p := with_bits p i 0 in
        _ ← assert (negb (ip4_fib_mtrie_leaf_is_empty old_leaf));
        let p := with_count p (n_non_empty_leafs p - 1) in
        _ ← assert (0 <=? n_non_empty_leafs p);
        let m := set_ply m old_ply p in
        if (n_non_empty_leafs p =? 0) && (0 <? dst_address_byte_index) then
          Some (with_pool (pool_put_index (ply_pool m) old_ply) m, true)
        else unset_cells recurse del_leaf old_ply dst_address_byte_index m cells
      else unset_cells recurse del_leaf old_ply dst_address_byte_index m cells
  end.

Fixpoint unset_leaf (fuel : nat) (m : ip4_fib_mtrie) (a : ip4_fib_mtrie_set_unset_leaf_args)
    (old_ply dst_address_byte_index : Z) : option (ip4_fib_mtrie * bool) :=
  match fuel with
  | O => None
  | S fuel =>
      _ ← assert ((0 <? dst_address_length a) && (dst_address_length a <=? 32));
      _ ← assert (dst_address_byte_index <? 4);
      let n_dst_bits_next_plies := dst_address_length a - 8 * (dst_address_byte_index + 1) in
      let dst_byte := as_u8 (dst_address a) dst_address_byte_index in
      let dst_byte := if n_dst_bits_next_plies <? 0
                      then Z.land dst_byte (ClibBitmap.not64 (ClibBitmap.pow2_mask (- n_dst_bits_next_plies)))
                      else dst_byte in
      let n_dst_bits_this_ply := if n_dst_bits_next_plies <=? 0 then - n_dst_bits_next_plies else 0 in
      let n_dst_bits_this_ply := Z.min 8 n_dst_bits_this_ply in
      del_leaf ← ip4_fib_mtrie_leaf_set_adj_index (adj_index a);
      unset_cells (λ m p, unset_leaf fuel m a p (dst_address_byte_index + 1))
        del_leaf old_ply dst_address_byte_index m
        (zrange dst_byte (dst_byte + Z.shiftl 1 n_dst_bits_this_ply))
  end.

Definition ip4_mtrie_init : option ip4_fib_mtrie :=
  let m := MtrieState pool_null IP4_FIB_MTRIE_LEAF_EMPTY in
  '(m, root) ← ply_create m IP4_FIB_MTRIE_LEAF_EMPTY 0;
  i ← ip4_fib_mtrie_leaf_get_next_ply_index root;
  _ ← assert (i =? 0);
  Some m.

(** ** The FIB: tables per prefix length, and the load-balance object each entry
    contributes to forwarding *)

Definition FIB_NODE_INDEX_INVALID : Z := u32_max.
Definition INDEX_INVALID : Z := u32_max.

Record ip4_fib := Fib {
  fib_entry_by_dst_address : list (gmap Z Z);
  entry_lb : gmap Z Z;
  mtrie : ip4_fib_mtrie;
}.

Definition with_mtrie (m : ip4_fib_mtrie) (f : ip4_fib) := Fib (fib_entry_by_dst_address f) (entry_lb f) m.
Definition with_tables (t : list (gmap Z Z)) (f : ip4_fib) := Fib t (entry_lb f) (mtrie f).

(** [fib_entry_contribute_ip_forwarding (fei)->dpoi_index] *)
Definition fib_entry_contribute_ip_forwarding (f : ip4_fib) (fei : Z) : Z :=
  default INDEX_INVALID (entry_lb f !! fei).

Definition hash_get (f : ip4_fib) (len key : Z) : option Z :=
  h ← vget (fib_entry_by_dst_address f) len; h !! key.

(** The search for the next less specific route: [i], [i - 1], ... 1. *)
Fixpoint less_specific (f : ip4_fib) (dst : Z) (i : nat) : option (Z * Z * Z) :=
  match i with
  | O => None
  | S i' =>
      let len := Z.of_nat i in
      let key := Z.land dst (fib_masks len) in
      match hash_get f len key with
      | Some fei =>
          let lbi := fib_entry_contribute_ip_forwarding f fei in
          if lbi =? INDEX_INVALID then less_specific f dst i' else Some (key, len, lbi)
      | None => less_specific f dst i'
      end
  end.

Definition ip4_fib_mtrie_add_del_route (f : ip4_fib) (dst_address dst_address_length adj_index : Z)
    (is_del : bool) : option ip4_fib :=
  let m := mtrie f in
  _ ← get_ply m 0;
  let dst := Z.land dst_address (fib_masks dst_address_length) in
  let a := Args dst dst_address_length adj_index in
  if negb is_del then
    if dst_address_length =? 0 then
      l ← ip4_fib_mtrie_leaf_set_adj_index adj_index;
      Some (with_mtrie (MtrieState (ply_pool m) l) f)
    else
      m ← set_leaf 4 m a 0 0;
      Some (with_mtrie m f)
  else
    if dst_address_length =? 0 then
      Some (with_mtrie (MtrieState (ply_pool m) IP4_FIB_MTRIE_LEAF_EMPTY) f)
    else
      '(m, _) ← unset_leaf 4 m a 0 0;
      match less_specific f dst (Z.to_nat (dst_address_length - 1)) with
      | Some (key, i, lbi) =>
          m ← set_leaf 4 m (Args key i lbi) 0 0;
          Some (with_mtrie m f)
      | None => Some (with_mtrie m f)
      end.

Fixpoint fib_table_lookup_from (f : ip4_fib) (addr : Z) (n : nat) : Z :=
  match hash_get f (Z.of_nat n) (Z.land addr (fib_masks (Z.of_nat n))) with
  | Some fei => fei
  | None => match n with O => FIB_NODE_INDEX_INVALID | S n => fib_table_lookup_from f addr n end
  end.

Definition ip4_fib_table_lookup (f : ip4_fib) (addr len : Z) : Z :=
  fib_table_lookup_from f addr (Z.to_nat len).

Definition ip4_fib_table_lookup_exact_match (f : ip4_fib) (addr len : Z) : Z :=
  default FIB_NODE_INDEX_INVALID (hash_get f len (Z.land addr (fib_masks len))).

Definition ip4_fib_table_lookup_lb (f : ip4_fib) (addr : Z) : Z :=
  let fei := ip4_fib_table_lookup f addr 32 in
  if negb (fei =? FIB_NODE_INDEX_INVALID) then fib_entry_contribute_ip_forwarding f fei
  else INDEX_INVALID.

Definition ip4_fib_table_entry_insert (f : ip4_fib) (addr len fib_entry_index : Z) : option ip4_fib :=
  let key := Z.land addr (fib_masks len) in
  hash ← vget (fib_entry_by_dst_address f) len;
  match hash !! key with
  | None => Some (with_tables (vset (fib_entry_by_dst_address f) len (<[key := fib_entry_index]> hash)) f)
  | Some _ => None
  end.

Definition ip4_fib_table_entry_remove (f : ip4_fib) (addr len : Z) : option ip4_fib :=
  let key := Z.land addr (fib_masks len) in
  hash ← vget (fib_entry_by_dst_address f) len;
  Some (with_tables (vset (fib_entry_by_dst_address f) len (delete key hash)) f).

Definition ip4_fib_table_fwding_dpo_update (f : ip4_fib) (addr len dpoi_index : Z) : option ip4_fib :=
  ip4_fib_mtrie_add_del_route f addr len dpoi_index false.

Definition ip4_fib_table_fwding_dpo_remove (f : ip4_fib) (addr len dpoi_index : Z) : option ip4_fib :=
  ip4_fib_mtrie_add_del_route f addr len dpoi_index true.

(** ** The FIB entries and their forwarding object

    An entry has a valid [fe_lb] when [entry_lb] maps it; the index a new object gets
    from [load_balance_create] is the argument [lb].  Later changes of forwarding
    modify that object in place. *)

Definition with_entry_lb (e : gmap Z Z) (f : ip4_fib) := Fib (fib_entry_by_dst_address f) e (mtrie f).

Definition fe_lb_is_valid (f : ip4_fib) (fei : Z) : bool :=
  negb (fib_entry_contribute_ip_forwarding f fei =? INDEX_INVALID).

Definition fib_entry_src_action_install (f : ip4_fib) (fei addr len lb : Z) : option ip4_fib :=
  let insert := negb (fe_lb_is_valid f fei) in
  let f := if insert then with_entry_lb (<[fei := lb]> (entry_lb f)) f else f in
  _ ← assert (fe_lb_is_valid f fei);
  if insert then ip4_fib_table_fwding_dpo_update f addr len (fib_entry_contribute_ip_forwarding f fei)
  else Some f.

Definition fib_entry_src_action_uninstall (f : ip4_fib) (fei addr len : Z) : option ip4_fib :=
  if fe_lb_is_valid f fei then
    f ← ip4_fib_table_fwding_dpo_remove f addr len (fib_entry_contribute_ip_forwarding f fei);
    Some (with_entry_lb (delete fei (entry_lb f)) f)
  else Some f.

(** The first source of a prefix creates its entry [fei], the last one removes it. *)
Definition fib_table_entry_add (f : ip4_fib) (addr len fei lb : Z) : option ip4_fib :=
  if ip4_fib_table_lookup_exact_match f addr len =? FIB_NODE_INDEX_INVALID then
    f ← fib_entry_src_action_install f fei addr len lb;
    ip4_fib_table_entry_insert f addr len fei
  else fib_entry_src_action_install f (ip4_fib_table_lookup_exact_match f addr len) addr len lb.

Definition fib_table_entry_delete (f : ip4_fib) (addr len : Z) : option ip4_fib :=
  let fei := ip4_fib_table_lookup_exact_match f addr len in
  if fei =? FIB_NODE_INDEX_INVALID then Some f
  else
    f ← fib_entry_src_action_uninstall f fei addr len;
    ip4_fib_table_entry_remove f addr len.

Definition ip4_create_fib : option ip4_fib :=
  m ← ip4_mtrie_init; Some (Fib (replicate 33 ∅) ∅ m).

(** The lookup of the forwarding path. *)
Definition ip4_fib_forwarding_lookup (f : ip4_fib) (addr : Z) : option Z :=
  let m := mtrie f in
  leaf ← ip4_fib_mtrie_lookup_step m IP4_FIB_MTRIE_LEAF_ROOT addr 0;
  leaf ← ip4_fib_mtrie_lookup_step m leaf addr 1;
  leaf ← ip4_fib_mtrie_lookup_step m leaf addr 2;
  leaf ← ip4_fib_mtrie_lookup_step m leaf addr 3;
  let leaf := if leaf =? IP4_FIB_MTRIE_LEAF_EMPTY then default_leaf m else leaf in
  ip4_fib_mtrie_leaf_get_adj_index leaf.

Definition ip4_lookup_validate (f : ip4_fib) (a : Z) : option bool :=
  let m := mtrie f in
  leaf0 ← ip4_fib_mtrie_lookup_step m IP4_FIB_MTRIE_LEAF_ROOT a 0;
  leaf0 ← ip4_fib_mtrie_lookup_step m leaf0 a 1;
  leaf0 ← ip4_fib_mtrie_lookup_step m leaf0 a 2;
  leaf0 ← ip4_fib_mtrie_lookup_step m leaf0 a 3;
  let leaf0 := if leaf0 =? IP4_FIB_MTRIE_LEAF_EMPTY then default_leaf m else leaf0 in
  lbi0 ← ip4_fib_mtrie_leaf_get_adj_index leaf0;
  Some (lbi0 =? ip4_fib_table_lookup_lb f a).
End Mtrie.
