(* ===== verification/Ip4MtrieInv.v ===== *)
(** * The IPv4 mtrie: shape of the trie and its elementary updates

    Each ply is reached from the root by one path: [P p = Some (n, v)] says that ply
    [p] has [n] levels left (the root has 4) and that it serves the addresses whose
    first [4 - n] bytes are [v].  [mok m P] is the invariant of a trie with paths [P];
    [walk] finds the terminal leaf of an address and the route length recorded next to
    it; [upd_region] relates two tries that differ below one ply only. *)

From stdpp Require Import gmap.
From S2P Require Import Prelude Bitmap Popcount Pool Ip4Mtrie.

Module MtrieInv.
Import ClibPool Ip4Mtrie.Mtrie.

(** ** Bytes and prefixes of an address *)

Definition pre (n : nat) (addr : Z) : Z := addr / 2 ^ (8 * Z.of_nat n).
Definition byte (n : nat) (addr : Z) : Z := pre n addr `mod` 256.

Lemma byte_range n a : 0 ≤ byte n a < 256.
Proof. unfold byte. apply Z.mod_pos_bound. lia. Qed.

Lemma pre_S n a : pre (S n) a = pre n a / 256.
Proof.
  unfold pre. rewrite Z.div_div by (try apply Z.pow_nonzero; lia). f_equal.
  replace (8 * Z.of_nat (S n)) with (8 * Z.of_nat n + 8) by lia. rewrite Z.pow_add_r by lia. done.
Qed.

Lemma pre_split n a : pre n a = pre (S n) a * 256 + byte n a.
Proof. rewrite pre_S. unfold byte. pose proof (Z.div_mod (pre n a) 256). lia. Qed.

Lemma pre_pre k n a : (k ≤ n)%nat → pre k a / 2 ^ (8 * Z.of_nat (n - k)) = pre n a.
Proof.
  intros Hk. unfold pre. rewrite Z.div_div by (apply Z.pow_nonzero || apply Z.pow_pos_nonneg; lia).
  rewrite <-Z.pow_add_r by lia. do 2 f_equal. lia.
Qed.

Lemma land_255 x : Z.land x 255 = x `mod` 256.
Proof. change 255 with (Z.ones 8). by rewrite Z.land_ones. Qed.

Lemma as_u8_byte n a : (n < 4)%nat → as_u8 a (3 - Z.of_nat n) = byte n a.
Proof.
  intros Hn. unfold as_u8, byte, pre. rewrite land_255, Z.shiftr_div_pow2 by lia.
  do 3 f_equal. lia.
Qed.

(** ** The invariant *)

Abbreviation paths := (Z → option (nat * Z)).

Definition term_ok (l t : Z) : Prop := (l = 1 ∧ t = 0) ∨ (l ≠ 1 ∧ 0 < l < 2 ^ 32 ∧ 1 ≤ t ≤ 32).

Definition cell_ok (P : paths) (n : nat) (v b l t : Z) : Prop :=
  (Z.odd l = true ∧ term_ok l t) ∨
  (∃ j, l = 2 * j ∧ t = 0 ∧ 0 < j < 2 ^ 31 ∧ (1 ≤ n)%nat ∧ P j = Some (n, v * 256 + b)).

Definition count_non_empty (l : list Z) : Z := zlen (filter (λ x, x ≠ IP4_FIB_MTRIE_LEAF_EMPTY) l).

Record ply_ok (P : paths) (n : nat) (v : Z) (p : ip4_fib_mtrie_ply) : Prop := {
  po_leaves : zlen (leaves p) = 256;
  po_bits : zlen (dst_address_bits_of_leaves p) = 256;
  po_count : n_non_empty_leafs p = count_non_empty (leaves p);
  po_cell b l t : vget (leaves p) b = Some l → vget (dst_address_bits_of_leaves p) b = Some t →
    cell_ok P n v b l t;
}.

(** The number of paths, which bounds the pool. *)
Definition max_plies : Z := 1 + 2 ^ 8 + 2 ^ 16 + 2 ^ 24.

Record mok (m : ip4_fib_mtrie) (P : paths) : Prop := {
  mk_pool : pool_ok (ply_pool m);
  mk_len : pool_len (ply_pool m) ≤ max_plies;
  mk_live p : is_Some (get_ply m p) ↔ is_Some (P p);
  mk_root : P 0 = Some (4%nat, 0);
  mk_depth p n v : P p = Some (n, v) → (1 ≤ n ≤ 4)%nat ∧ 0 ≤ v < 2 ^ (8 * (4 - Z.of_nat n));
  mk_inj p q x : P p = Some x → P q = Some x → p = q;
  mk_back q n v : P q = Some (n, v) → (n < 4)%nat → ∃ p ply,
    P p = Some (S n, v / 256) ∧ get_ply m p = Some ply ∧ vget (leaves ply) (v `mod` 256) = Some (2 * q);
  mk_ply p n v ply : P p = Some (S n, v) → get_ply m p = Some ply → ply_ok P n v ply;
}.

Fixpoint walk (n : nat) (m : ip4_fib_mtrie) (p addr : Z) : option (Z * Z) :=
  match n with
  | O => None
  | S n =>
      ply ← get_ply m p;
      l ← vget (leaves ply) (byte n addr);
      t ← vget (dst_address_bits_of_leaves ply) (byte n addr);
      if Z.odd l then Some (l, t) else walk n m (l / 2) addr
  end.

Lemma is_terminal_odd l : ip4_fib_mtrie_leaf_is_terminal l = Z.odd l.
Proof.
  unfold ip4_fib_mtrie_leaf_is_terminal. change 1 with (Z.ones 1). rewrite Z.land_ones by lia.
  rewrite Zodd_mod. change (2 ^ 1) with 2. pose proof (Z.mod_pos_bound l 2 ltac:(lia)).
  destruct (l `mod` 2 =? 0) eqn:E; simpl; symmetry; [apply Z.eqb_neq|apply Z.eqb_eq]; bool_to_prop; lia.
Qed.

Lemma is_next_ply_odd l : ip4_fib_mtrie_leaf_is_next_ply l = negb (Z.odd l).
Proof. rewrite <-is_terminal_odd. unfold ip4_fib_mtrie_leaf_is_terminal. by rewrite negb_involutive. Qed.

Lemma odd_double j : Z.odd (2 * j) = false.
Proof. by rewrite Z.odd_mul. Qed.

Lemma double_half j : 2 * j / 2 = j.
Proof. rewrite Z.mul_comm. apply Z.div_mul. lia. Qed.

Section inv.
Context (m : ip4_fib_mtrie) (P : paths) (Hm : mok m P).

(** The content of a cell. *)
Lemma cell p n v b :
  P p = Some (S n, v) → 0 ≤ b < 256 →
  ∃ ply l t, get_ply m p = Some ply ∧ ply_ok P n v ply ∧ vget (leaves ply) b = Some l ∧
    vget (dst_address_bits_of_leaves ply) b = Some t ∧ cell_ok P n v b l t.
Proof using Hm.
  intros Hp Hb. destruct (proj2 (mk_live _ _ Hm p) ltac:(by eexists)) as [ply Hply].
  pose proof (mk_ply _ _ Hm _ _ _ _ Hp Hply) as Hok.
  destruct (vget_in_range (leaves ply) b) as [l Hl]; [rewrite (po_leaves _ _ _ _ Hok); lia|].
  destruct (vget_in_range (dst_address_bits_of_leaves ply) b) as [t Ht]; [rewrite (po_bits _ _ _ _ Hok); lia|].
  exists ply, l, t. do 4 (split; [done|]). by apply (po_cell _ _ _ _ Hok).
Qed.

Lemma next_ply_ok j x : P j = Some x → 0 < j < 2 ^ 31 → get_next_ply_for_leaf m (2 * j) = Some j.
Proof using Hm.
  intros Hj Hr. unfold get_next_ply_for_leaf, ip4_fib_mtrie_leaf_get_next_ply_index.
  rewrite is_next_ply_odd, odd_double. simpl.
  rewrite Z.shiftr_div_pow2 by lia. change (2 ^ 1) with 2. rewrite double_half.
  replace (j =? 0) with false by (symmetry; apply Z.eqb_neq; lia). simpl.
  destruct (proj2 (mk_live _ _ Hm j) ltac:(by eexists)) as [ply ->]. done.
Qed.

Lemma walk_total n : ∀ p v addr, P p = Some (n, v) → pre n addr = v →
  ∃ l t, walk n m p addr = Some (l, t) ∧ Z.odd l = true ∧ term_ok l t.
Proof using Hm.
  induction n as [|n IH]; intros p v addr Hp Ha.
  - apply (mk_depth _ _ Hm) in Hp. lia.
  - destruct (cell p n v (byte n addr) Hp (byte_range n addr)) as (ply & l & t & Hply & _ & Hl & Ht & [[Ho Hok]|Hc]).
    + exists l, t. simpl. rewrite Hply. simpl. rewrite Hl. simpl. rewrite Ht. simpl. by rewrite Ho.
    + destruct Hc as (j & -> & -> & Hj & Hn & HPj).
      destruct (IH j _ addr HPj) as (l & t & Hw & Ho & Hok).
      { rewrite (pre_split n). lia. }
      exists l, t. simpl. rewrite Hply. simpl. rewrite Hl. simpl. rewrite Ht. simpl.
      by rewrite odd_double, double_half.
Qed.
End inv.

(** ** Updates below one ply *)

(** [(k, w)] is [(n, v)] or below it. *)
Definition within (n : nat) (v : Z) (k : nat) (w : Z) : Prop :=
  (k ≤ n)%nat ∧ w / 2 ^ (8 * Z.of_nat (n - k)) = v.

Definition paths_same (P P' : paths) (n : nat) (v : Z) : Prop :=
  ∀ r k w, ¬ (within n v k w ∧ (k < n)%nat) → P r = Some (k, w) ↔ P' r = Some (k, w).

Definition frame (m m' : ip4_fib_mtrie) (P : paths) (n : nat) (v : Z) : Prop :=
  ∀ r k w, P r = Some (k, w) → ¬ within n v k w → get_ply m' r = get_ply m r.

Record upd_region (n : nat) (v p : Z) (f : Z → Z * Z → Z * Z)
    (m : ip4_fib_mtrie) (P : paths) (m' : ip4_fib_mtrie) (P' : paths) : Prop := {
  ur_mok : mok m' P';
  ur_paths : paths_same P P' n v;
  ur_frame : frame m m' P n v;
  ur_default : default_leaf m' = default_leaf m;
  ur_walk addr : pre n addr = v → walk n m' p addr = f addr <$> walk n m p addr;
}.

Lemma within_self n v : within n v n v.
Proof. split; [lia|]. rewrite Nat.sub_diag. apply Z.div_1_r. Qed.

Lemma within_child n v b k w : 0 ≤ b < 256 → within n (v * 256 + b) k w → within (S n) v k w.
Proof.
  intros Hb [Hk Hw]. split; [lia|].
  replace (8 * Z.of_nat (S n - k)) with (8 * Z.of_nat (n - k) + 8) by lia.
  rewrite Z.pow_add_r, <-Z.div_div by (try apply Z.pow_nonzero; lia). rewrite Hw.
  change (2 ^ 8) with 256. symmetry. apply (Z.div_unique_pos _ _ _ b); lia.
Qed.

Lemma within_pre n v k addr : within n v k (pre k addr) → pre n addr = v.
Proof. intros [Hk Hw]. by rewrite <-Hw, pre_pre. Qed.

(** Addresses outside the region do not see the update. *)
Lemma walk_frame m m' P n v : mok m P → frame m m' P n v → ∀ k p w addr,
  P p = Some (k, w) → pre k addr = w → pre n addr ≠ v → walk k m' p addr = walk k m p addr.
Proof.
  intros Hm Hf. induction k as [|k IH]; intros p w addr Hp Ha Hne; [done|].
  assert (get_ply m' p = get_ply m p) as Hget.
  { apply (Hf p (S k) w Hp). intros Hw. apply Hne. subst w. by apply within_pre in Hw. }
  destruct (cell m P Hm p k w (byte k addr) Hp (byte_range k addr)) as (ply & l & t & Hply & _ & Hl & Ht & Hc).
  simpl. rewrite Hget, Hply. simpl. rewrite Hl. simpl. rewrite Ht. simpl.
  destruct Hc as [[-> _]|(j & -> & _ & Hj & Hn & HPj)]; [done|].
  rewrite odd_double, double_half. apply (IH j _ addr HPj); [|done]. rewrite (pre_split k). lia.
Qed.

Lemma ur_refl m P n v p : mok m P → upd_region n v p (λ _ x, x) m P m P.
Proof.
  intros Hm. split; try done. intros addr _. by destruct (walk n m p addr).
Qed.

Lemma ur_ext n v p f g m P m' P' :
  mok m P → P p = Some (n, v) →
  (∀ addr x, pre n addr = v → walk n m p addr = Some x → f addr x = g addr x) →
  upd_region n v p f m P m' P' → upd_region n v p g m P m' P'.
Proof.
  intros Hm Hp Heq [H1 H2 H3 H4 H5]. split; try done. intros addr Ha. rewrite H5 by done.
  destruct (walk n m p addr) as [x|] eqn:E; [|done]. simpl. f_equal. by apply Heq.
Qed.

Lemma paths_same_sub P P' n v b : 0 ≤ b < 256 → paths_same P P' n (v * 256 + b) → paths_same P P' (S n) v.
Proof.
  intros Hb Hs r k w Hn. apply Hs. intros [Hw Hk]. apply Hn. split; [by eapply within_child|lia].
Qed.

Lemma paths_same_self P P' n v p : paths_same P P' n v → P p = Some (n, v) → P' p = Some (n, v).
Proof. intros Hs Hp. apply Hs; [|done]. intros [_ ?]. lia. Qed.

Lemma ur_trans n v p f g m P m1 P1 m2 P2 :
  upd_region n v p f m P m1 P1 → upd_region n v p g m1 P1 m2 P2 →
  upd_region n v p (λ a x, g a (f a x)) m P m2 P2.
Proof.
  intros [H1 H2 H3 H4 H5] [K1 K2 K3 K4 K5]. split.
  - done.
  - intros r k w Hn. rewrite (H2 r k w Hn). by apply K2.
  - intros r k w Hr Hn. rewrite (K3 r k w), (H3 r k w); [done..| |done].
    apply H2; [|done]. intros [? _]. done.
  - congruence.
  - intros addr Ha. rewrite K5, H5 by done. by destruct (walk n m p addr).
Qed.

(** An update below a sub-ply, seen from its parent. *)
Lemma ur_lift n v p i c f m P m' P' :
  mok m P → P p = Some (S n, v) → 0 ≤ i < 256 → P c = Some (n, v * 256 + i) →
  (∃ ply, get_ply m p = Some ply ∧ vget (leaves ply) i = Some (2 * c)) →
  upd_region n (v * 256 + i) c f m P m' P' →
  upd_region (S n) v p (λ a x, if byte n a =? i then f a x else x) m P m' P'.
Proof.
  intros Hm Hp Hi Hc (ply & Hply & Hl) [H1 H2 H3 H4 H5]. split.
  - done.
  - by apply (paths_same_sub _ _ _ _ i).
  - intros r k w Hr Hn. apply (H3 r k w Hr). intros Hw. apply Hn. by eapply within_child.
  - done.
  - intros addr Ha. pose proof (byte_range n addr) as Hb. case_cond.
    + subst i. simpl. assert (get_ply m' p = get_ply m p) as ->.
      { apply (H3 p (S n) v Hp). intros [? _]. lia. }
      rewrite Hply. simpl. rewrite Hl. simpl.
      pose proof (mk_ply _ _ Hm _ _ _ _ Hp Hply) as Hok.
      destruct (vget_in_range (dst_address_bits_of_leaves ply) (byte n addr)) as [t ->];
        [rewrite (po_bits _ _ _ _ Hok); lia|].
      simpl. rewrite odd_double, double_half. apply H5. rewrite (pre_split n). lia.
    + rewrite (walk_frame m m' P n (v * 256 + i) Hm H3 (S n) p v addr Hp Ha).
      * by destruct (walk (S n) m p addr).
      * rewrite (pre_split n). lia.
Qed.

(** A loop over distinct cells, each step updating one. *)
Lemma ur_loop n v p (f : Z → Z * Z → Z * Z) (step : ip4_fib_mtrie → Z → option ip4_fib_mtrie) l :
  (∀ i, i ∈ l → 0 ≤ i < 256) → NoDup l →
  (∀ i m P, i ∈ l → mok m P → P p = Some (S n, v) → ∃ m' P', step m i = Some m' ∧
    upd_region (S n) v p (λ a x, if byte n a =? i then f a x else x) m P m' P') →
  ∀ m P, mok m P → P p = Some (S n, v) →
  ∃ m' P', mfoldl step m l = Some m' ∧
    upd_region (S n) v p (λ a x, if decide (byte n a ∈ l) then f a x else x) m P m' P'.
Proof.
  intros Hl Hnd Hstep. induction l as [|i l IH]; intros m P Hm Hp.
  - exists m, P. split; [done|]. apply (ur_ext _ _ _ (λ _ x, x)); [done..| |by apply ur_refl].
    intros addr x _ _. by rewrite decide_False by (by intros ?%elem_of_nil).
  - apply NoDup_cons in Hnd as [Hni Hnd].
    destruct (Hstep i m P) as (m1 & P1 & Hs & Hu); [by left|done..|].
    assert (P1 p = Some (S n, v)) as Hp1 by (eapply paths_same_self; [apply Hu|done]).
    destruct (IH ltac:(intros; apply Hl; by right) Hnd ltac:(intros; apply Hstep; [by right|done..]) m1 P1)
      as (m' & P' & Hm' & Hu'); [apply Hu|done|].
    exists m', P'. cbn [mfoldl]. rewrite Hs. split; [done|].
    eapply ur_ext; [done|exact Hp| |exact (ur_trans _ _ _ _ _ _ _ _ _ _ _ Hu Hu')].
    intros addr x Ha _. simpl. destruct (byte n addr =? i) eqn:E; bool_to_prop.
    + rewrite E, (decide_False (P := i ∈ l)), decide_True by (done || by left). done.
    + destruct (decide (byte n addr ∈ l)).
      * by rewrite decide_True by by right.
      * by rewrite decide_False by (intros [?|?]%elem_of_cons; done).
Qed.

(** ** The count of non-empty leaves *)

Lemma count_vset l i x y :
  vget l i = Some x →
  count_non_empty (vset l i y) = count_non_empty l - b2z (negb (x =? 1)) + b2z (negb (y =? 1)).
Proof.
  intros Hx. unfold vget in Hx. destruct (0 <=? i) eqn:E; [|done].
  unfold vset. rewrite E. unfold count_non_empty, zlen, IP4_FIB_MTRIE_LEAF_EMPTY.
  rewrite insert_take_drop by by apply lookup_lt_Some in Hx.
  rewrite <-(take_drop_middle l (Z.to_nat i) x Hx) at 3.
  rewrite !list.filter_app, !filter_cons, !length_app.
  destruct (x =? 1) eqn:Ex, (y =? 1) eqn:Ey; bool_to_prop; simpl; repeat case_decide; simpl; lia.
Qed.

Lemma count_range l : 0 ≤ count_non_empty l ≤ zlen l.
Proof. unfold count_non_empty, zlen. pose proof (length_filter (λ x, x ≠ IP4_FIB_MTRIE_LEAF_EMPTY) l). lia. Qed.

Lemma count_zero l i x : count_non_empty l = 0 → vget l i = Some x → x = 1.
Proof.
  intros Hc Hx. unfold count_non_empty in Hc. destruct (decide (x = 1)) as [|Hne]; [done|].
  apply vget_elem in Hx. assert (x ∈ filter (λ x, x ≠ IP4_FIB_MTRIE_LEAF_EMPTY) l) as Hin
    by by apply list_elem_of_filter.
  destruct (filter _ l); [by apply elem_of_nil in Hin|]. unfold zlen in Hc. simpl in Hc. lia.
Qed.

Lemma count_replicate n x : count_non_empty (replicate n x) = if x =? 1 then 0 else Z.of_nat n.
Proof.
  unfold count_non_empty, IP4_FIB_MTRIE_LEAF_EMPTY. induction n as [|n IH]; [by case_match|].
  cbn [replicate]. rewrite filter_cons. destruct (x =? 1) eqn:E; bool_to_prop.
  - rewrite decide_False by tauto. done.
  - rewrite decide_True by done. rewrite zlen_cons. lia.
Qed.

(** ** Stores to a ply *)

Lemma get_set_ply m p ply q :
  is_Some (get_ply m p) → get_ply (set_ply m p ply) q = if decide (q = p) then Some ply else get_ply m q.
Proof. intros H. unfold get_ply, set_ply, with_pool. simpl. by apply pool_elt_set. Qed.

(** The effect of a store that keeps the paths. *)
Lemma mok_set_ply m P p n v ply :
  mok m P → P p = Some (S n, v) → ply_ok P n v ply →
  (∀ ply0 b j, get_ply m p = Some ply0 → vget (leaves ply0) b = Some (2 * j) → vget (leaves ply) b = Some (2 * j)) →
  mok (set_ply m p ply) P.
Proof.
  intros Hm Hp Hok Hkeep. assert (is_Some (get_ply m p)) as Hl by (apply (mk_live _ _ Hm); by eexists).
  split; try apply Hm.
  - apply pool_set_ok, Hm.
  - unfold set_ply. simpl. rewrite pool_set_len. apply Hm.
  - intros q. rewrite get_set_ply by done. case_decide; [subst; rewrite Hp; split; by eexists|apply Hm].
  - intros q k w Hq Hk. destruct (mk_back _ _ Hm q k w Hq Hk) as (r & plyr & Hr & Hgr & Hlr).
    exists r. destruct (decide (r = p)) as [->|Hne].
    + exists ply. split; [done|]. rewrite get_set_ply, decide_True by done. split; [done|]. by apply (Hkeep plyr).
    + exists plyr. split; [done|]. rewrite get_set_ply, decide_False by done. done.
  - intros q k w plyq Hq. rewrite get_set_ply by done. case_decide as Hqp.
    + subst q. rewrite Hp in Hq. intros [= <-]. by simplify_eq.
    + by apply (mk_ply _ _ Hm).
Qed.

(** The walk from a ply looks at plies on the way of the address only. *)
Lemma walk_agree m m' P n addr : mok m P →
  (∀ r k, P r = Some (k, pre k addr) → (k ≤ n)%nat → get_ply m' r = get_ply m r) →
  ∀ q w, P q = Some (n, w) → pre n addr = w → walk n m' q addr = walk n m q addr.
Proof.
  intros Hm Hag. induction n as [|n IH]; intros q w Hq Ha; [done|].
  destruct (cell m P Hm q n w (byte n addr) Hq (byte_range n addr)) as (plyq & l & t & Hply & _ & Hlq & Htq & Hc).
  simpl. rewrite (Hag q (S n)), Hply by (by rewrite ?Ha). simpl. rewrite Hlq. simpl. rewrite Htq. simpl.
  destruct Hc as [[-> _]|(j & -> & _ & Hj & Hn & HPj)]; [done|].
  rewrite odd_double, double_half. apply (IH ltac:(intros; apply (Hag r k); [done|lia]) j _ HPj).
  rewrite (pre_split n). lia.
Qed.

Lemma walk_set_ply m P p n v ply : mok m P → P p = Some (S n, v) → ∀ q w addr,
  P q = Some (n, w) → pre n addr = w → walk n (set_ply m p ply) q addr = walk n m q addr.
Proof.
  intros Hm Hp q w addr. apply (walk_agree m _ P); [done|]. intros r k Hr Hk.
  assert (is_Some (get_ply m p)) as Hl by (apply (mk_live _ _ Hm); by eexists).
  rewrite get_set_ply, decide_False; [done| |done]. intros ->. rewrite Hp in Hr. simplify_eq. lia.
Qed.

(** One cell of [ply] replaced. *)
Definition put_cell (ply : ip4_fib_mtrie_ply) (i l t : Z) (x : Z) : ip4_fib_mtrie_ply :=
  Ply (vset (leaves ply) i l) (vset (dst_address_bits_of_leaves ply) i t)
      (n_non_empty_leafs ply - b2z (negb (x =? 1)) + b2z (negb (l =? 1))).

Lemma put_cell_ok P n v ply i l t x :
  ply_ok P n v ply → vget (leaves ply) i = Some x → cell_ok P n v i l t → ply_ok P n v (put_cell ply i l t x).
Proof.
  intros Hok Hx Hc. split; simpl.
  - rewrite zlen_vset. apply Hok.
  - rewrite zlen_vset. apply Hok.
  - rewrite (count_vset _ _ x) by done. by rewrite (po_count _ _ _ _ Hok).
  - intros b l' t'. rewrite !vget_vset. rewrite (po_leaves _ _ _ _ Hok), (po_bits _ _ _ _ Hok).
    case_decide as Hd.
    + destruct Hd as [-> _]. by intros [= <-] [= <-].
    + apply Hok.
Qed.

(** Terminal leaf to terminal leaf. *)
Lemma cell_update m P p n v i ply l0 l t :
  mok m P → P p = Some (S n, v) → 0 ≤ i < 256 → get_ply m p = Some ply →
  vget (leaves ply) i = Some l0 → Z.odd l0 = true → Z.odd l = true → term_ok l t →
  upd_region (S n) v p (λ a x, if byte n a =? i then (l, t) else x) m P (set_ply m p (put_cell ply i l t l0)) P.
Proof.
  intros Hm Hp Hi Hply Hl0 Ho0 Ho Ht.
  pose proof (mk_ply _ _ Hm _ _ _ _ Hp Hply) as Hok.
  assert (is_Some (get_ply m p)) as Hl by by eexists.
  assert (mok (set_ply m p (put_cell ply i l t l0)) P) as Hm'.
  { apply (mok_set_ply m P p n v); [done..| |].
    - apply put_cell_ok; [done..|]. by left.
    - intros ply0 b j Hp0 Hb. rewrite Hply in Hp0. injection Hp0 as <-. simpl. rewrite vget_vset_ne; [done|].
      intros ->. rewrite Hl0 in Hb. injection Hb as ->. by rewrite odd_double in Ho0. }
  split; [done|by intros r k w _| |done|].
  - intros r k w Hr Hn. rewrite get_set_ply by done. rewrite decide_False; [done|]. intros ->. rewrite Hp in Hr. simplify_eq.
    apply Hn, within_self.
  - intros addr Ha. simpl. rewrite get_set_ply, decide_True, Hply by done. simpl.
    pose proof (byte_range n addr) as Hb.
    destruct (cell m P Hm p n v (byte n addr) Hp Hb) as (ply1 & l1 & t1 & Hply1 & _ & Hl1 & Ht1 & Hc).
    rewrite Hply in Hply1. injection Hply1 as <-. rewrite Hl1. simpl. rewrite Ht1. simpl.
    case_cond.
    + subst i. rewrite !vget_vset_eq by (rewrite ?(po_leaves _ _ _ _ Hok), ?(po_bits _ _ _ _ Hok); lia).
      simpl. rewrite Ho. rewrite Hl0 in Hl1. injection Hl1 as <-. by rewrite Ho0.
    + rewrite !vget_vset_ne by congruence. rewrite Hl1. simpl. rewrite Ht1. simpl.
      destruct (Z.odd l1) eqn:El; [done|].
      destruct Hc as [[? _]|(j & -> & _ & Hj & Hn & HPj)]; [congruence|]. rewrite double_half.
      rewrite (walk_set_ply m P p n v _ Hm Hp j _ addr HPj); [by destruct (walk n m j addr)|].
      rewrite (pre_split n). lia.
Qed.

(** ** Room for a new ply *)

Definition code (x : nat * Z) : Z :=
  x.2 + match x.1 with 4%nat => 0 | 3%nat => 1 | 2%nat => 1 + 2 ^ 8 | _ => 1 + 2 ^ 8 + 2 ^ 16 end.

Definition path_ok (x : nat * Z) : Prop := (1 ≤ x.1 ≤ 4)%nat ∧ 0 ≤ x.2 < 2 ^ (8 * (4 - Z.of_nat x.1)).

Lemma path_cases x : path_ok x →
  x.1 = 4%nat ∧ x.2 = 0 ∨ x.1 = 3%nat ∧ 0 ≤ x.2 < 2 ^ 8 ∨
  x.1 = 2%nat ∧ 0 ≤ x.2 < 2 ^ 16 ∨ x.1 = 1%nat ∧ 0 ≤ x.2 < 2 ^ 24.
Proof.
  intros [Hn Hv]. destruct x as [n v]. simpl in *.
  assert (n = 1 ∨ n = 2 ∨ n = 3 ∨ n = 4)%nat as [->|[->|[->| ->]]] by lia;
    [change (8 * (4 - Z.of_nat 1)) with 24 in Hv|change (8 * (4 - Z.of_nat 2)) with 16 in Hv
    |change (8 * (4 - Z.of_nat 3)) with 8 in Hv|change (8 * (4 - Z.of_nat 4)) with 0 in Hv]; lia.
Qed.

Lemma code_range x : path_ok x → 0 ≤ code x < max_plies.
Proof.
  unfold code, max_plies. intros [[-> ?]|[[-> ?]|[[-> ?]|[-> ?]]]]%path_cases; lia.
Qed.

Lemma code_inj x y : path_ok x → path_ok y → code x = code y → x = y.
Proof.
  intros Hx%path_cases Hy%path_cases. unfold code. destruct x as [n v], y as [n' v']. simpl in *.
  destruct Hx as [[-> ?]|[[-> ?]|[[-> ?]|[-> ?]]]], Hy as [[-> ?]|[[-> ?]|[[-> ?]|[-> ?]]]];
    intros; f_equal; lia.
Qed.

Lemma room m P x : mok m P → path_ok x → (∀ q, P q ≠ Some x) → pool_elts (ply_pool m) < max_plies.
Proof.
  intros Hm Hx Hfresh. rewrite pool_elts_live by apply Hm.
  set (l := filter _ _).
  assert (∀ q, q ∈ l → ∃ y, P q = Some y ∧ path_ok y) as Hl.
  { intros q Hq. subst l. apply list_elem_of_filter in Hq as [Hq _].
    apply is_free_false in Hq; [|apply Hm].
    destruct (proj1 (mk_live _ _ Hm q)) as [[n w] Hy]; [apply elt_Some; [apply Hm|done]|].
    exists (n, w). split; [done|]. by apply (mk_depth _ _ Hm) in Hy. }
  set (g := λ q, match P q with Some y => code y | None => -1 end).
  assert (NoDup (code x :: (g <$> l))) as Hnd.
  { apply NoDup_cons. split.
    - intros Hin. apply list_elem_of_fmap in Hin as (q & Heq & Hq). destruct (Hl q Hq) as (y & Hy & Hyo).
      subst g. simpl in Heq. rewrite Hy in Heq. apply (Hfresh q). rewrite Hy. f_equal. by apply code_inj.
    - assert (∀ q q', q ∈ l → q' ∈ l → g q = g q' → q = q') as Hinj.
      { intros q q' (y & Hy & Hyo)%Hl (y' & Hy' & Hyo')%Hl. subst g. simpl. rewrite Hy, Hy'. intros Heq.
        apply code_inj in Heq; [|done..]. subst. by apply (mk_inj _ _ Hm q q' y'). }
      assert (NoDup l) as Hndl by (subst l; apply list.NoDup_filter, NoDup_seqZ).
      clear Hl. clearbody l. induction Hndl as [|q l Hq Hndl IH]; [constructor|]. cbn.
      apply NoDup_cons. split.
      + intros Hin. apply list_elem_of_fmap in Hin as (q' & Heq & Hq'). apply Hq.
        rewrite (Hinj q q'); [done|by left|by right|done].
      + apply IH. intros; apply Hinj; [by right..|done]. }
  assert (code x :: (g <$> l) ⊆+ zrange 0 max_plies) as Hsub.
  { apply NoDup_submseteq; [done|]. intros c Hc. apply elem_of_zrange.
    apply elem_of_cons in Hc as [->|Hc]; [by apply code_range|].
    apply list_elem_of_fmap in Hc as (q & -> & (y & Hy & Hyo)%Hl). subst g. simpl. rewrite Hy. by apply code_range. }
  apply submseteq_length in Hsub. rewrite length_cons, length_fmap in Hsub.
  unfold zrange in Hsub. rewrite length_seqZ in Hsub.
  assert (0 ≤ max_plies) by done. revert Hsub. generalize max_plies. lia.
Qed.

(** ** A terminal leaf replaced by a new ply *)

Definition path_add (P : paths) (c : Z) (x : nat * Z) : paths := λ q, if q =? c then Some x else P q.

Lemma cell_ok_mono (P P' : paths) n v b l t :
  (∀ j x, P j = Some x → P' j = Some x) → cell_ok P n v b l t → cell_ok P' n v b l t.
Proof. intros Hs [?|(j & ? & ? & ? & ? & ?)]; [by left|]. right. exists j. do 4 (split; [done|]). by apply Hs. Qed.

Lemma ply_ok_mono (P P' : paths) n v ply :
  (∀ j x, P j = Some x → P' j = Some x) → ply_ok P n v ply → ply_ok P' n v ply.
Proof. intros Hs [H1 H2 H3 H4]. split; try done. intros. by eapply cell_ok_mono, H4. Qed.

Lemma ply_init_ok P n v l t :
  Z.odd l = true → term_ok l t → ply_ok P n v (ply_init l t).
Proof.
  intros Ho Ht. assert (u8 t = t) as Hu by (apply u8_small; unfold in_u8; destruct Ht; lia).
  split; unfold ply_init; cbn [leaves dst_address_bits_of_leaves n_non_empty_leafs].
  - done.
  - done.
  - rewrite count_replicate. unfold ip4_fib_mtrie_leaf_is_empty, IP4_FIB_MTRIE_LEAF_EMPTY. by destruct (l =? 1).
  - intros b l' t' Hl' Ht'. left. apply vget_elem, elem_of_replicate in Hl' as [-> _].
    apply vget_elem, elem_of_replicate in Ht' as [-> _]. by rewrite Hu.
Qed.

Lemma child_byte v b : 0 ≤ b < 256 → (v * 256 + b) / 256 = v ∧ (v * 256 + b) `mod` 256 = b.
Proof.
  intros Hb. split; [symmetry; apply (Z.div_unique_pos _ _ _ b); lia|].
  symmetry. apply (Z.mod_unique_pos _ _ v); lia.
Qed.

(** A terminal cell has no ply below it. *)
Lemma no_child m P p n v i ply l0 :
  mok m P → P p = Some (S n, v) → 0 ≤ i < 256 → get_ply m p = Some ply →
  vget (leaves ply) i = Some l0 → Z.odd l0 = true → ∀ q, P q ≠ Some (n, v * 256 + i).
Proof.
  intros Hm Hp Hi Hply Hl0 Ho0 q Hq.
  pose proof (mk_depth _ _ Hm _ _ _ Hp) as [Hd _].
  destruct (mk_back _ _ Hm q n _ Hq ltac:(lia)) as (r & plyr & Hr & Hgr & Hlr).
  destruct (child_byte v i Hi) as [Hq1 Hq2]. rewrite Hq1 in Hr. rewrite Hq2 in Hlr.
  rewrite (mk_inj _ _ Hm r p _ Hr Hp), Hply in Hgr. injection Hgr as <-.
  rewrite Hl0 in Hlr. injection Hlr as ->. by rewrite odd_double in Ho0.
Qed.

(** The pool after the allocation of ply [c]. *)
Lemma create_pool m P n v i l0 t0 :
  mok m P → path_ok (n, v * 256 + i) → (∀ q, P q ≠ Some (n, v * 256 + i)) →
  ∃ m1 c, ply_create m l0 t0 = Some (m1, 2 * c) ∧ P c = None ∧ 0 < c < 2 ^ 31 ∧
    pool_ok (ply_pool m1) ∧ pool_len (ply_pool m1) ≤ max_plies ∧ default_leaf m1 = default_leaf m ∧
    get_ply m1 c = Some (ply_init l0 t0) ∧ (∀ q, q ≠ c → get_ply m1 q = get_ply m q).
Proof.
  intros Hm Hx Hfresh. pose proof (room m P _ Hm Hx Hfresh) as Hroom. pose proof (mk_len _ _ Hm) as Hlen.
  assert (max_plies < 2 ^ 30) as Hmax by done.
  destruct (pool_get zero_ply (ply_pool m)) as [pl c] eqn:Hg.
  destruct (pool_get_ok _ _ _ _ (mk_pool _ _ Hm) ltac:(lia) Hg) as (Hok & Hnone & Hsome & Hoth & Hc & _).
  assert (P c = None) as HPc.
  { apply eq_None_not_Some. rewrite <-(mk_live _ _ Hm). unfold get_ply. rewrite Hnone. by intros [? ?]. }
  assert (pool_len pl ≤ max_plies) as Hlen1 by (apply pool_get_len in Hg; lia).
  assert (0 < c < pool_len pl) as Hcr.
  { apply elt_Some in Hsome; [|done]. assert (c ≠ 0); [|lia]. intros ->. by rewrite (mk_root _ _ Hm) in HPc. }
  unfold ply_create. rewrite Hg. unfold ip4_fib_mtrie_leaf_set_next_ply_index, ip4_fib_mtrie_leaf_get_next_ply_index.
  rewrite Z.add_0_l, u32_small by (unfold in_u32; lia).
  rewrite is_next_ply_odd, odd_double. simpl. rewrite Z.shiftr_div_pow2 by lia. change (2 ^ 1) with 2.
  rewrite double_half, Z.eqb_refl. simpl. eexists _, c. split; [done|]. split; [done|]. split; [lia|].
  split; [by apply pool_set_ok|]. split; [unfold set_ply; simpl; by rewrite pool_set_len|]. split; [done|].
  assert (∀ q, get_ply (set_ply (with_pool pl m) c (ply_init l0 t0)) q
    = if decide (q = c) then Some (ply_init l0 t0) else get_ply (with_pool pl m) q) as Hget.
  { intros q. by apply get_set_ply. }
  split; [rewrite Hget; by rewrite decide_True|]. intros q Hq. rewrite Hget, decide_False by done. by apply Hoth.
Qed.

Lemma create_update m P p n v i ply l0 t0 :
  mok m P → P p = Some (S (S n), v) → 0 ≤ i < 256 → get_ply m p = Some ply →
  vget (leaves ply) i = Some l0 → vget (dst_address_bits_of_leaves ply) i = Some t0 → Z.odd l0 = true →
  ∃ m1 c, ply_create m l0 t0 = Some (m1, 2 * c) ∧ get_next_ply_for_leaf m1 (2 * c) = Some c ∧
    get_ply m1 p = Some ply ∧
    let ply' := put_cell ply i (2 * c) 0 l0 in
    let m2 := set_ply m1 p ply' in
    let P' := path_add P c (S n, v * 256 + i) in
    upd_region (S (S n)) v p (λ _ x, x) m P m2 P' ∧ get_ply m2 p = Some ply' ∧
    vget (leaves ply') i = Some (2 * c) ∧ P' c = Some (S n, v * 256 + i) ∧ P' p = Some (S (S n), v).
Proof.
  intros Hm Hp Hi Hply Hl0 Ht0 Ho0. pose proof (mk_ply _ _ Hm _ _ _ _ Hp Hply) as Hok.
  pose proof (mk_depth _ _ Hm _ _ _ Hp) as [Hd Hv].
  assert (path_ok (S n, v * 256 + i)) as Hx.
  { split; simpl; [lia|]. replace (8 * (4 - Z.of_nat (S n))) with (8 * (4 - Z.of_nat (S (S n))) + 8) by lia.
    rewrite Z.pow_add_r by lia. change (2 ^ 8) with 256. lia. }
  pose proof (no_child m P p (S n) v i ply l0 Hm Hp Hi Hply Hl0 Ho0) as Hfresh.
  destruct (create_pool m P (S n) v i l0 t0 Hm Hx Hfresh) as
    (m1 & c & Hcr & HPc & Hc & Hpok & Hlen & Hdef & Hgc & Hoth).
  assert (p ≠ c) as Hpc by congruence.
  assert (term_ok l0 t0) as Htm.
  { destruct (po_cell _ _ _ _ Hok i l0 t0 Hl0 Ht0) as [[_ ?]|(j & -> & _)]; [done|]. by rewrite odd_double in Ho0. }
  assert (get_ply m1 p = Some ply) as Hp1 by (rewrite Hoth; done).
  exists m1, c. split; [done|]. split.
  { unfold get_next_ply_for_leaf, ip4_fib_mtrie_leaf_get_next_ply_index. rewrite is_next_ply_odd, odd_double. simpl.
    rewrite Z.shiftr_div_pow2 by lia. change (2 ^ 1) with 2. rewrite double_half.
    replace (c =? 0) with false by (symmetry; apply Z.eqb_neq; lia). simpl. by rewrite Hgc. }
  split; [done|]. intros ply' m2 P'.
  assert (∀ j x, P j = Some x → P' j = Some x) as Hmono.
  { intros j x Hj. subst P'. unfold path_add. case_cond; [subst; congruence|done]. }
  assert (P' c = Some (S n, v * 256 + i)) as HP'c by (subst P'; unfold path_add; by rewrite Z.eqb_refl).
  assert (∀ q x, P' q = Some x → (q = c ∧ x = (S n, v * 256 + i)) ∨ (q ≠ c ∧ P q = Some x)) as HP'.
  { intros q x. subst P'. unfold path_add. case_cond; [intros [= <-]; by left|by right]. }
  assert (∀ q, get_ply m2 q = if decide (q = p) then Some ply' else get_ply m1 q) as Hg2.
  { intros q. apply get_set_ply. by rewrite Hp1. }
  assert (vget (leaves ply') i = Some (2 * c)) as Hci.
  { subst ply'. simpl. apply vget_vset_eq. rewrite (po_leaves _ _ _ _ Hok). lia. }
  assert (∀ b x, b ≠ i → vget (leaves ply) b = Some x → vget (leaves ply') b = Some x) as Hcne.
  { intros b x Hb Hx'. subst ply'. simpl. by rewrite vget_vset_ne by congruence. }
  assert (vget (dst_address_bits_of_leaves ply') i = Some 0) as Hci0.
  { subst ply'. simpl. apply vget_vset_eq. rewrite (po_bits _ _ _ _ Hok). lia. }
  assert (∀ b x, b ≠ i → vget (dst_address_bits_of_leaves ply) b = Some x →
    vget (dst_address_bits_of_leaves ply') b = Some x) as Hcne0.
  { intros b x Hb Hx'. subst ply'. simpl. by rewrite vget_vset_ne by congruence. }
  assert (mok m2 P') as Hm2.
  { split.
    - by apply pool_set_ok.
    - unfold m2, set_ply. simpl. by rewrite pool_set_len.
    - intros q. rewrite Hg2. case_decide as Hqp.
      + subst q. rewrite (Hmono _ _ Hp). split; by eexists.
      + destruct (decide (q = c)) as [->|Hqc]; [rewrite Hgc, HP'c; split; by eexists|].
        rewrite Hoth, (mk_live _ _ Hm) by done. subst P'. unfold path_add.
        by rewrite (proj2 (Z.eqb_neq q c)) by done.
    - apply Hmono, Hm.
    - intros q k w [[-> [= -> ->]]|[_ Hq]]%HP'; [done|]. by apply (mk_depth _ _ Hm q).
    - intros q q' x [[-> ->]|[_ Hq]]%HP' [[-> Hq']|[_ Hq']]%HP'; try done.
      + by destruct (Hfresh q').
      + subst x. by destruct (Hfresh q).
      + by apply (mk_inj _ _ Hm q q' x).
    - intros q k w [[-> [= -> ->]]|[Hqc Hq]]%HP' Hk.
      + destruct (child_byte v i Hi) as [-> ->]. exists p, ply'. rewrite Hg2, decide_True by done.
        split; [by apply Hmono|done].
      + destruct (mk_back _ _ Hm q k w Hq Hk) as (r & plyr & Hr & Hgr & Hlr).
        destruct (decide (r = p)) as [->|Hrp].
        * exists p, ply'. rewrite Hg2, decide_True by done. split; [by apply Hmono|]. split; [done|].
          rewrite Hply in Hgr. injection Hgr as <-. apply Hcne; [|done].
          intros Hb. rewrite Hb, Hl0 in Hlr. injection Hlr as ->. by rewrite odd_double in Ho0.
        * exists r, plyr. split; [by apply Hmono|]. rewrite Hg2, decide_False, Hoth by congruence. done.
    - intros q k w plyq Hq. rewrite Hg2. case_decide as Hqp.
      + subst q. rewrite (Hmono _ _ Hp) in Hq. injection Hq as <- <-. intros [= <-].
        apply put_cell_ok; [by apply (ply_ok_mono P)|done|].
        right. exists c. split; [done|]. split; [done|]. split; [done|]. split; [lia|done].
      + apply HP' in Hq as [[-> [= -> ->]]|[Hqc Hq]].
        * rewrite Hgc. intros [= <-]. by apply ply_init_ok.
        * rewrite Hoth by done. intros Hgq. apply (ply_ok_mono P); [done|]. by apply (mk_ply _ _ Hm q). }
  split; [|split; [by rewrite Hg2, decide_True|split; [done|split; [done|by apply Hmono]]]].
  split; [done| | | |].
  - intros r k w Hn. split; [apply Hmono|]. intros [[-> [= -> ->]]|[_ ?]]%HP'; [|done].
    exfalso. apply Hn. split; [|lia]. apply (within_child _ _ i); [done|apply within_self].
  - intros r k w Hr Hn. rewrite Hg2, decide_False, Hoth; [done|congruence|].
    intros ->. rewrite Hp in Hr. injection Hr as <- <-. apply Hn, within_self.
  - done.
  - intros addr Ha. pose proof (byte_range (S n) addr) as Hb.
    clearbody m2 ply'. remember (S n) as n1 eqn:Hn1. simpl. rewrite Hg2, decide_True, Hply by done. simpl.
    destruct (cell m P Hm p n1 v (byte n1 addr) Hp Hb) as (ply1 & l1 & t1 & Hply1 & _ & Hl1 & Ht1 & Hcell).
    rewrite Hply in Hply1. injection Hply1 as <-. rewrite Hl1. simpl. rewrite Ht1. simpl.
    destruct (decide (byte n1 addr = i)) as [Hb1|Hbi].
    + rewrite Hb1 in Hl1, Ht1 |- *. rewrite Hci. simpl. rewrite Hci0. simpl.
      rewrite odd_double, double_half. rewrite Hl0 in Hl1. rewrite Ht0 in Ht1. injection Hl1 as <-. injection Ht1 as <-.
      rewrite Ho0. subst n1. cbn [walk]. rewrite Hg2, decide_False, Hgc by congruence.
      unfold ply_init. cbn [mbind option_bind leaves dst_address_bits_of_leaves].
      assert (∀ (x : Z) b, 0 ≤ b < 256 → vget (replicate 256 x) b = Some x) as Hrep.
      { intros x b Hb'. unfold vget. rewrite (proj2 (Z.leb_le 0 b)) by lia. apply lookup_replicate_2. lia. }
      rewrite !Hrep by apply byte_range. cbn [mbind option_bind]. rewrite Ho0.
      rewrite u8_small by (unfold in_u8; destruct Htm; lia). done.
    + rewrite (Hcne _ _ Hbi Hl1). simpl. rewrite (Hcne0 _ _ Hbi Ht1). simpl.
      destruct (Z.odd l1) eqn:Eo; [done|].
      destruct Hcell as [[? _]|(j & -> & _ & Hj & Hn & HPj)]; [congruence|]. rewrite double_half.
      rewrite (walk_agree m m2 P n1 addr Hm) with (w := v * 256 + byte n1 addr); [by destruct (walk n1 m j addr)| |done|].
      * intros r k Hr Hk. rewrite Hg2, decide_False, Hoth; [done|congruence|].
        intros ->. rewrite Hp in Hr. injection Hr as <- _. lia.
      * rewrite (pre_split n1). lia.
Qed.

(** ** An empty sub-ply released *)

Definition path_del (P : paths) (c : Z) : paths := λ q, if q =? c then None else P q.

Lemma path_del_Some P c q x : path_del P c q = Some x ↔ q ≠ c ∧ P q = Some x.
Proof. unfold path_del. case_cond; intuition congruence. Qed.

Lemma cell_ok_del P n v b l t c : cell_ok P n v b l t → l ≠ 2 * c → cell_ok (path_del P c) n v b l t.
Proof.
  intros [?|(j & -> & ? & ? & ? & ?)] Hne; [by left|]. right. exists j. do 4 (split; [done|]).
  apply path_del_Some. split; [|done]. by intros ->.
Qed.

(** A ply and cell that point to [c] are unique. *)
Lemma parent_unique m P p n v i c q k w b plyq :
  mok m P → P p = Some (S n, v) → P c = Some (n, v * 256 + i) → 0 ≤ i < 256 →
  P q = Some (S k, w) → get_ply m q = Some plyq → vget (leaves plyq) b = Some (2 * c) → q = p ∧ b = i.
Proof.
  intros Hm Hp Hc Hi Hq Hgq Hb.
  assert (0 ≤ b < 256) as Hbr.
  { pose proof (mk_ply _ _ Hm _ _ _ _ Hq Hgq) as Hok. apply vget_Some_range in Hb.
    rewrite (po_leaves _ _ _ _ Hok) in Hb. done. }
  destruct (cell m P Hm q k w b Hq Hbr) as (ply1 & l1 & t1 & Hg1 & _ & Hl1 & _ & Hcell).
  rewrite Hgq in Hg1. injection Hg1 as <-. rewrite Hb in Hl1. injection Hl1 as <-.
  destruct Hcell as [[Ho _]|(j & Hj & _ & _ & _ & HPj)]; [by rewrite odd_double in Ho|].
  replace j with c in HPj by lia. rewrite Hc in HPj. injection HPj as -> Heq.
  assert (v = w ∧ i = b) as [-> ->] by lia. split; [|done]. by apply (mk_inj _ _ Hm q p (S k, w)).
Qed.

Lemma get_put m c q :
  is_Some (get_ply m c) → pool_ok (ply_pool m) →
  get_ply (with_pool (pool_put_index (ply_pool m) c) m) q = if decide (q = c) then None else get_ply m q.
Proof.
  intros Hc Hok. destruct (pool_put_ok (ply_pool m) c Hok Hc) as (_ & Hn & Hoth & _).
  unfold get_ply, with_pool. simpl. case_decide; [by subst|by apply Hoth].
Qed.

Lemma prune_update m P p n v i ply c plyc :
  mok m P → P p = Some (S (S n), v) → 0 ≤ i < 256 → get_ply m p = Some ply →
  vget (leaves ply) i = Some (2 * c) → P c = Some (S n, v * 256 + i) → get_ply m c = Some plyc →
  (∀ b x, vget (leaves plyc) b = Some x → x = 1) →
  let m1 := with_pool (pool_put_index (ply_pool m) c) m in
  get_ply m1 p = Some ply ∧
  upd_region (S (S n)) v p (λ _ x, x) m P (set_ply m1 p (put_cell ply i 1 0 (2 * c))) (path_del P c).
Proof.
  intros Hm Hp Hi Hply Hli Hc Hgc Hempty m1. pose proof (mk_ply _ _ Hm _ _ _ _ Hp Hply) as Hok.
  assert (is_Some (get_ply m c)) as Hlc by by eexists.
  destruct (pool_put_ok (ply_pool m) c (mk_pool _ _ Hm) Hlc) as (Hpok & _ & _ & Hlen).
  assert (p ≠ c) as Hpc by (intros ->; rewrite Hp in Hc; injection Hc; lia).
  assert (∀ q, get_ply m1 q = if decide (q = c) then None else get_ply m q) as Hg1 by (intros; by apply get_put, Hm).
  assert (get_ply m1 p = Some ply) as Hp1 by (by rewrite Hg1, decide_False).
  split; [done|]. set (ply' := put_cell _ _ _ _ _). set (m2 := set_ply _ _ _).
  assert (∀ q, get_ply m2 q = if decide (q = p) then Some ply' else get_ply m1 q) as Hg2.
  { intros q. apply get_set_ply. by rewrite Hp1. }
  assert (vget (leaves ply') i = Some 1) as Hci by (subst ply'; simpl; apply vget_vset_eq; rewrite (po_leaves _ _ _ _ Hok); lia).
  assert (vget (dst_address_bits_of_leaves ply') i = Some 0) as Hci0
    by (subst ply'; simpl; apply vget_vset_eq; rewrite (po_bits _ _ _ _ Hok); lia).
  assert (∀ b, b ≠ i → vget (leaves ply') b = vget (leaves ply) b ∧
    vget (dst_address_bits_of_leaves ply') b = vget (dst_address_bits_of_leaves ply) b) as Hcne.
  { intros b Hb. subst ply'. simpl. by rewrite !vget_vset_ne by congruence. }
  assert (∀ q k w plyq, q ≠ c → P q = Some (S k, w) → get_ply m q = Some plyq → q ≠ p →
    ply_ok (path_del P c) k w plyq) as Hoth.
  { intros q k w plyq Hqc Hq Hgq Hqp. pose proof (mk_ply _ _ Hm _ _ _ _ Hq Hgq) as [H1 H2 H3 H4].
    split; try done. intros b l t Hl Ht. apply cell_ok_del; [by apply H4|]. intros ->.
    destruct (parent_unique m P p (S n) v i c q k w b plyq) as [? _]; done. }
  split; [split| | | |].
  - by apply pool_set_ok.
  - unfold m2, set_ply, m1, with_pool. cbn [ply_pool]. rewrite pool_set_len, Hlen. apply Hm.
  - intros q. rewrite Hg2, Hg1. unfold path_del.
    destruct (decide (q = p)) as [->|Hqp]; [rewrite (proj2 (Z.eqb_neq p c)), Hp by done; split; by eexists|].
    case_decide; [subst; rewrite Z.eqb_refl; split; by intros [? ?]|].
    rewrite (proj2 (Z.eqb_neq q c)) by done. apply Hm.
  - apply path_del_Some. split; [|apply Hm]. intros <-. rewrite (mk_root _ _ Hm) in Hc.
    apply (mk_depth _ _ Hm) in Hp. injection Hc. lia.
  - intros q k w [_ Hq]%path_del_Some. by apply (mk_depth _ _ Hm q).
  - intros q q' x [_ Hq]%path_del_Some [_ Hq']%path_del_Some. by apply (mk_inj _ _ Hm q q' x).
  - intros q k w [Hqc Hq]%path_del_Some Hk. destruct (mk_back _ _ Hm q k w Hq Hk) as (r & plyr & Hr & Hgr & Hlr).
    assert (r ≠ c) as Hrc.
    { intros ->. rewrite Hgc in Hgr. injection Hgr as <-. apply Hempty in Hlr. lia. }
    exists r. destruct (decide (r = p)) as [->|Hrp].
    + exists ply'. split; [by apply path_del_Some|]. rewrite Hg2, decide_True by done. split; [done|].
      rewrite Hply in Hgr. injection Hgr as <-. destruct (decide (w `mod` 256 = i)) as [Hw|Hw].
      * rewrite Hw, Hli in Hlr. injection Hlr. lia.
      * by rewrite (proj1 (Hcne _ Hw)).
    + exists plyr. split; [by apply path_del_Some|]. by rewrite Hg2, decide_False, Hg1, decide_False by done.
  - intros q k w plyq [Hqc Hq]%path_del_Some. rewrite Hg2. case_decide as Hqp.
    + subst q. rewrite Hp in Hq. injection Hq as <- <-. intros [= <-].
      assert (ply_ok P (S n) v ply') as Hok' by (apply put_cell_ok; [done..|left; by split; [|left]]).
      destruct Hok' as [H1 H2 H3 H4]. split; try done.
      intros b l t Hl Ht. apply cell_ok_del; [by apply H4|]. intros ->.
      destruct (decide (b = i)) as [->|Hb]; [rewrite Hci in Hl; injection Hl; lia|].
      rewrite (proj1 (Hcne _ Hb)) in Hl.
      destruct (parent_unique m P p (S n) v i c p (S n) v b ply) as [_ ?]; done.
    + rewrite Hg1, decide_False by done. intros Hgq. by apply (Hoth q).
  - intros r k w Hn. rewrite path_del_Some. split; [|tauto]. intros Hr. split; [|done]. intros ->.
    rewrite Hc in Hr. injection Hr as <- <-. apply Hn. split; [|lia]. apply (within_child _ _ i); [done|apply within_self].
  - intros r k w Hr Hn. rewrite Hg2, decide_False, Hg1, decide_False; [done| |].
    + intros ->. rewrite Hc in Hr. injection Hr as <- <-. apply Hn, (within_child _ _ i); [done|apply within_self].
    + intros ->. rewrite Hp in Hr. injection Hr as <- <-. apply Hn, within_self.
  - done.
  - intros addr Ha. pose proof (byte_range (S n) addr) as Hb. clearbody m2 ply'.
    remember (S n) as n1 eqn:Hn1. simpl. rewrite Hg2, decide_True, Hply by done. simpl.
    destruct (cell m P Hm p n1 v (byte n1 addr) Hp Hb) as (ply1 & l1 & t1 & Hply1 & _ & Hl1 & Ht1 & Hcell).
    rewrite Hply in Hply1. injection Hply1 as <-. rewrite Hl1. simpl. rewrite Ht1. simpl.
    destruct (decide (byte n1 addr = i)) as [Hb1|Hbi].
    + rewrite Hb1 in Hl1, Ht1 |- *. rewrite Hci. simpl. rewrite Hci0. simpl.
      rewrite Hli in Hl1. injection Hl1 as <-. rewrite odd_double, double_half.
      destruct (walk_total m P Hm n1 c _ addr Hc) as (l & t & Hw & Ho & Htm).
      { rewrite (pre_split n1), Hb1. lia. }
      rewrite Hw. simpl. assert (l = 1) as ->.
      { subst n1. cbn [walk] in Hw. rewrite Hgc in Hw. cbn [mbind option_bind] in Hw.
        destruct (vget (leaves plyc) (byte n addr)) as [l2|] eqn:El2; [|done]. apply Hempty in El2. subst l2.
        cbn in Hw. destruct (vget (dst_address_bits_of_leaves plyc) (byte n addr)) as [t2|]; [|done].
        cbn in Hw. by injection Hw as <- <-. }
      destruct Htm as [[_ ->]|[? _]]; done.
    + destruct (Hcne _ Hbi) as [-> ->]. rewrite Hl1. simpl. rewrite Ht1. simpl.
      destruct (Z.odd l1) eqn:Eo; [done|].
      destruct Hcell as [[? _]|(j & -> & _ & Hj & Hn & HPj)]; [congruence|]. rewrite double_half.
      rewrite (walk_agree m m2 P n1 addr Hm) with (w := v * 256 + byte n1 addr); [by destruct (walk n1 m j addr)| |done|].
      * intros r k Hr Hk. rewrite Hg2, decide_False, Hg1, decide_False; [done| |].
        -- intros ->. rewrite Hc in Hr. injection Hr as <- Hpre. rewrite (pre_split n1) in Hpre. lia.
        -- intros ->. rewrite Hp in Hr. injection Hr as <- _. lia.
      * rewrite (pre_split n1). lia.
Qed.
End MtrieInv.
