(* ===== verification/Ip4MtrieOps.v ===== *)
(** * The IPv4 mtrie: insertion and removal, address by address

    [set_leaf] changes the leaf of exactly the addresses of the prefix whose route was
    not longer; [unset_leaf] empties exactly the leaves of the removed route and
    frees the plies that become empty. *)

From stdpp Require Import gmap.
From S2P Require Import Prelude Bitmap Popcount Pool Ip4Mtrie Ip4MtrieInv.

Module MtrieOps.
Import ClibPool Ip4Mtrie.Mtrie MtrieInv.

(** ** Leaves *)

Lemma set_adj_ok adj :
  0 ≤ adj < 2 ^ 31 → ip4_fib_mtrie_leaf_set_adj_index adj = Some (1 + 2 * adj).
Proof.
  intros Ha. unfold ip4_fib_mtrie_leaf_set_adj_index, ip4_fib_mtrie_leaf_get_adj_index.
  rewrite u32_small by (unfold in_u32; lia). rewrite is_terminal_odd.
  rewrite Z.add_comm, Z.odd_add, odd_double. simpl. rewrite Z.shiftr_div_pow2 by lia. change (2 ^ 1) with 2.
  replace ((2 * adj + 1) / 2) with adj by (apply (Z.div_unique_pos _ _ _ 1); lia).
  by rewrite Z.eqb_refl.
Qed.

Lemma odd_adj adj : Z.odd (1 + 2 * adj) = true.
Proof. by rewrite Z.odd_add, odd_double. Qed.

Lemma leaf_cas_ok p i old new :
  vget (leaves p) i = Some old → leaf_cas p i old new = Some (with_leaf p i new).
Proof.
  intros Hold. unfold leaf_cas. rewrite Hold. simpl. rewrite Z.eqb_refl. simpl.
  rewrite vget_vset_eq by by apply vget_Some_range in Hold. simpl. by rewrite Z.eqb_refl.
Qed.

Lemma walk_cell m n p addr ply l t :
  get_ply m p = Some ply → vget (leaves ply) (byte n addr) = Some l →
  vget (dst_address_bits_of_leaves ply) (byte n addr) = Some t → Z.odd l = true →
  walk (S n) m p addr = Some (l, t).
Proof. intros Hp Hl Ht Ho. simpl. rewrite Hp. simpl. rewrite Hl. simpl. rewrite Ht. simpl. by rewrite Ho. Qed.

(** A non-empty leaf stored over a terminal one, as the insertions do it. *)
Definition over (new len : Z) (x : Z * Z) : Z * Z := if x.2 <=? len then (new, len) else x.

Lemma store_terminal m P p n v i ply l0 t0 new len :
  mok m P → P p = Some (S n, v) → 0 ≤ i < 256 → get_ply m p = Some ply →
  vget (leaves ply) i = Some l0 → vget (dst_address_bits_of_leaves ply) i = Some t0 → Z.odd l0 = true →
  Z.odd new = true → new ≠ 1 → 0 < new < 2 ^ 32 → 1 ≤ len ≤ 32 → t0 ≤ len →
  put_cell ply i new len l0 =
    with_count (with_bits (with_leaf ply i new) i (u8 len)) (n_non_empty_leafs ply + b2z (ip4_fib_mtrie_leaf_is_empty l0)) ∧
  n_non_empty_leafs (put_cell ply i new len l0) ≤ 256 ∧
  upd_region (S n) v p (λ a x, if byte n a =? i then over new len x else x) m P
    (set_ply m p (put_cell ply i new len l0)) P.
Proof.
  intros Hm Hp Hi Hply Hl0 Ht0 Ho0 Ho Hne Hr Hlen Hle. split; [|split].
  - unfold put_cell, with_count, with_bits, with_leaf. simpl. rewrite u8_small by (unfold in_u8; lia). f_equal.
    unfold ip4_fib_mtrie_leaf_is_empty, IP4_FIB_MTRIE_LEAF_EMPTY.
    rewrite (proj2 (Z.eqb_neq new 1)) by done. destruct (l0 =? 1); simpl; lia.
  - pose proof (mk_ply _ _ Hm _ _ _ _ Hp Hply) as Hok.
    assert (ply_ok P n v (put_cell ply i new len l0)) as Hok'
      by (apply put_cell_ok; [done..|left; split; [done|right; lia]]).
    rewrite (po_count _ _ _ _ Hok'). pose proof (count_range (leaves (put_cell ply i new len l0))).
    rewrite (po_leaves _ _ _ _ Hok') in *. lia.
  - eapply ur_ext; [done|exact Hp| |apply (cell_update m P p n v i ply l0 new len); try done; right; lia].
    intros addr x Ha Hw. simpl. destruct (byte n addr =? i) eqn:E; [|done]. apply Z.eqb_eq in E. subst i.
    rewrite (walk_cell m n p addr ply l0 t0) in Hw by done. injection Hw as <-. unfold over. simpl.
    by rewrite (proj2 (Z.leb_le t0 len)).
Qed.

Lemma more_specific_spec new len :
  Z.odd new = true → new ≠ 1 → 0 < new < 2 ^ 32 → 1 ≤ len ≤ 32 → ∀ n fuel m P p v,
  mok m P → P p = Some (n, v) → (n ≤ fuel)%nat →
  ∃ m' P', set_ply_with_more_specific_leaf fuel m p new len = Some m' ∧
    upd_region n v p (λ _, over new len) m P m' P'.
Proof.
  intros Ho Hne Hr Hlen. induction n as [|n IH]; intros fuel m P p v Hm Hp Hf.
  { apply (mk_depth _ _ Hm) in Hp. lia. }
  destruct fuel as [|fuel]; [lia|]. cbn [set_ply_with_more_specific_leaf].
  rewrite is_terminal_odd, Ho. simpl.
  assert (ip4_fib_mtrie_leaf_is_empty new = false) as -> by (apply Z.eqb_neq; done). simpl.
  destruct (ur_loop n v p (λ _, over new len) (λ m i,
        p0 ← get_ply m p;
        old_leaf ← vget (leaves p0) i;
        old_bits ← vget (dst_address_bits_of_leaves p0) i;
        if negb (ip4_fib_mtrie_leaf_is_terminal old_leaf) then
          sub_ply ← get_next_ply_for_leaf m old_leaf;
          set_ply_with_more_specific_leaf fuel m sub_ply new len
        else if old_bits <=? len then
          p1 ← leaf_cas p0 i old_leaf new;
          let p1 := with_bits p1 i (u8 len) in
          let p1 := with_count p1 (n_non_empty_leafs p1 + b2z (ip4_fib_mtrie_leaf_is_empty old_leaf)) in
          Some (set_ply m p p1)
        else Some m) (zrange 0 256)) with (m := m) (P := P) as (m' & P' & Hl & Hu).
  - intros i Hi%elem_of_zrange. done.
  - apply NoDup_seqZ.
  - intros i m1 P1 Hi%elem_of_zrange Hm1 Hp1.
    destruct (cell m1 P1 Hm1 p n v i Hp1 Hi) as (ply & l0 & t0 & Hply & _ & Hl0 & Ht0 & Hc).
    rewrite Hply. simpl. rewrite Hl0. simpl. rewrite Ht0. simpl. rewrite is_terminal_odd.
    destruct Hc as [[Ho0 _]|(j & -> & -> & Hj & Hn & HPj)].
    + rewrite Ho0. simpl. destruct (t0 <=? len) eqn:E; bool_to_prop.
      * destruct (store_terminal m1 P1 p n v i ply l0 t0 new len) as (Heq & _ & Hu); try done.
        rewrite (leaf_cas_ok ply i l0 new Hl0). simpl. eexists _, P1. split; [done|].
        rewrite Heq in Hu. exact Hu.
      * exists m1, P1. split; [done|]. eapply ur_ext; [done|exact Hp1| |by apply ur_refl].
        intros addr x Ha Hw. simpl. destruct (byte n addr =? i) eqn:Eb; [|done]. apply Z.eqb_eq in Eb. subst i.
        rewrite (walk_cell m1 n p addr ply l0 t0) in Hw by done. injection Hw as <-. unfold over. simpl.
        by rewrite (proj2 (Z.leb_gt t0 len)).
    + rewrite odd_double. simpl. rewrite (next_ply_ok m1 P1 Hm1 j _ HPj Hj). simpl.
      destruct (IH fuel m1 P1 j _ Hm1 HPj ltac:(lia)) as (m2 & P2 & Hs & Hu).
      exists m2, P2. split; [done|]. apply (ur_lift n v p i j (λ _, over new len)); try done. by exists ply.
  - done.
  - done.
  - exists m', P'. split; [done|]. eapply ur_ext; [done|exact Hp| |exact Hu].
    intros addr x _ _. simpl. rewrite decide_True; [done|]. apply elem_of_zrange, byte_range.
Qed.

(** ** The cells of a prefix *)

Definition matches (len dst a : Z) : bool := a / 2 ^ (32 - len) =? dst / 2 ^ (32 - len).

Lemma pre_shift n s a : 0 ≤ s → a / 2 ^ (8 * Z.of_nat n + s) = pre n a / 2 ^ s.
Proof.
  intros Hs. unfold pre. rewrite Z.pow_add_r by lia. rewrite Z.div_div; [done|apply Z.pow_nonzero; lia|].
  apply Z.pow_pos_nonneg; lia.
Qed.

Lemma pow2_split8 s : 0 ≤ s ≤ 8 → 2 ^ s * 2 ^ (8 - s) = 256.
Proof. intros Hs. rewrite <-Z.pow_add_r by lia. by replace (s + (8 - s)) with 8 by lia. Qed.

Lemma byte_block x B s :
  0 ≤ s ≤ 8 → 0 ≤ x < 256 → 0 ≤ B < 256 → x / 2 ^ s = B / 2 ^ s ↔ B - B `mod` 2 ^ s ≤ x < B - B `mod` 2 ^ s + 2 ^ s.
Proof.
  intros Hs Hx HB. assert (0 < 2 ^ s) as Hp by (apply Z.pow_pos_nonneg; lia).
  pose proof (Z.div_mod x (2 ^ s) ltac:(lia)) as Hdx. pose proof (Z.mod_pos_bound x (2 ^ s) Hp) as Hmx.
  pose proof (Z.div_mod B (2 ^ s) ltac:(lia)) as HdB. pose proof (Z.mod_pos_bound B (2 ^ s) Hp) as HmB.
  split.
  - intros Heq. rewrite Heq in Hdx. lia.
  - intros Hr. symmetry. apply (Z.div_unique_pos _ _ _ (x - (B - B `mod` 2 ^ s))); lia.
Qed.

(** The addresses of the prefix, below a ply on its way: a block of cells of the ply. *)
Lemma matches_cells n len dst a :
  0 ≤ len ≤ 32 → let s := 32 - len - 8 * Z.of_nat n in 0 ≤ s ≤ 8 →
  pre (S n) a = pre (S n) dst →
  let B := byte n dst - byte n dst `mod` 2 ^ s in
  matches len dst a = true ↔ B ≤ byte n a < B + 2 ^ s.
Proof.
  intros Hlen s Hs Ha B. unfold matches. rewrite Z.eqb_eq.
  replace (32 - len) with (8 * Z.of_nat n + s) by lia. rewrite !pre_shift by lia.
  rewrite !(pre_split n), Ha. pose proof (pow2_split8 s Hs) as H256.
  assert (0 < 2 ^ s) as Hp by (apply Z.pow_pos_nonneg; lia).
  assert (∀ b, (pre (S n) dst * 256 + b) / 2 ^ s = pre (S n) dst * 2 ^ (8 - s) + b / 2 ^ s) as Hdiv.
  { intros b. rewrite <-H256. replace (pre (S n) dst * (2 ^ s * 2 ^ (8 - s)) + b)
      with (b + pre (S n) dst * 2 ^ (8 - s) * 2 ^ s) by lia. rewrite Z.div_add by lia. lia. }
  rewrite !Hdiv. subst B. rewrite <-(byte_block (byte n a) (byte n dst) s Hs (byte_range n a) (byte_range n dst)). lia.
Qed.

Lemma matches_deeper n len dst a :
  0 ≤ len ≤ 32 → 32 - len < 8 * Z.of_nat n → matches len dst a = true → pre n a = pre n dst.
Proof.
  intros Hlen Hn. unfold matches. rewrite Z.eqb_eq. intros Heq. unfold pre.
  replace (8 * Z.of_nat n) with ((32 - len) + (8 * Z.of_nat n - (32 - len))) by lia.
  rewrite Z.pow_add_r by lia. rewrite <-!Z.div_div by (try apply Z.pow_nonzero; try apply Z.pow_pos_nonneg; lia).
  by rewrite Heq.
Qed.

Lemma matches_above n len dst a :
  0 ≤ len ≤ 32 → 8 * Z.of_nat n ≤ 32 - len → pre n a = pre n dst → matches len dst a = true.
Proof.
  intros Hlen Hn Heq. unfold matches. apply Z.eqb_eq.
  replace (32 - len) with (8 * Z.of_nat n + (32 - len - 8 * Z.of_nat n)) by lia.
  rewrite !pre_shift by lia. by rewrite Heq.
Qed.

Lemma masked_byte n len dst :
  0 ≤ len ≤ 32 → let s := 32 - len - 8 * Z.of_nat n in 0 ≤ s ≤ 8 →
  dst `mod` 2 ^ (32 - len) = 0 → byte n dst `mod` 2 ^ s = 0.
Proof.
  intros Hlen s Hs Hd. assert (0 < 2 ^ s) as Hp by (apply Z.pow_pos_nonneg; lia).
  apply Z.mod_divide in Hd as [q Hq]; [|apply Z.pow_nonzero; lia].
  assert (pre n dst = q * 2 ^ s) as Hpre.
  { unfold pre. rewrite Hq. replace (32 - len) with (s + 8 * Z.of_nat n) by lia.
    rewrite Z.pow_add_r, Z.mul_assoc, Z.div_mul by (try apply Z.pow_nonzero; lia). done. }
  unfold byte. rewrite Z.mod_mod_divide.
  - rewrite Hpre. apply Z.mod_mul. lia.
  - exists (2 ^ (8 - s)). rewrite <-(pow2_split8 s Hs). lia.
Qed.

Lemma pow2_mask_ones s : 0 ≤ s < 64 → ClibBitmap.pow2_mask s = Z.ones s.
Proof.
  intros Hs. unfold ClibBitmap.pow2_mask. rewrite Z.shiftl_1_l, Z.ones_equiv.
  apply u64_small. unfold in_u64. assert (2 ^ s < 2 ^ 64) by (apply Z.pow_lt_mono_r; lia).
  assert (0 < 2 ^ s) by (apply Z.pow_pos_nonneg; lia). lia.
Qed.

(** ** Insertion *)

Definition set_fun (len dst new : Z) (a : Z) (x : Z * Z) : Z * Z :=
  if matches len dst a then over new len x else x.

Lemma over_ge new len x : len < x.2 → over new len x = x.
Proof. intros H. unfold over. by rewrite (proj2 (Z.leb_gt _ _)). Qed.

(** The insertion at one cell of the last ply of the prefix. *)
Lemma set_leaf_cell_spec recurse fuel a m P p n v i :
  mok m P → P p = Some (S n, v) → (n ≤ fuel)%nat → 0 ≤ i < 256 →
  1 ≤ adj_index a < 2 ^ 31 → 1 ≤ dst_address_length a ≤ 32 →
  ∃ m' P', set_leaf_cell recurse fuel a p m i = Some m' ∧
    upd_region (S n) v p (λ x y, if byte n x =? i then over (1 + 2 * adj_index a) (dst_address_length a) y else y) m P m' P'.
Proof.
  intros Hm Hp Hf Hi Hadj Hlen. unfold set_leaf_cell.
  destruct (cell m P Hm p n v i Hp Hi) as (ply & l0 & t0 & Hply & Hok & Hl0 & Ht0 & Hc).
  rewrite Hply. simpl. rewrite Hl0. simpl. rewrite Ht0. simpl. rewrite is_terminal_odd.
  rewrite set_adj_ok by lia. cbn [mbind option_bind].
  pose proof (odd_adj (adj_index a)) as Ho.
  assert (1 + 2 * adj_index a ≠ 1 ∧ 0 < 1 + 2 * adj_index a < 2 ^ 32) as [Hn1 Hn2] by lia.
  set (new := 1 + 2 * adj_index a) in *.
  set (len := dst_address_length a) in *.
  destruct Hc as [[Ho0 _]|(j & -> & -> & Hj & Hn & HPj)].
  - rewrite Ho0. destruct (t0 <=? len) eqn:E; bool_to_prop; simpl.
    + destruct (store_terminal m P p n v i ply l0 t0 new len) as (Heq & Hcnt & Hu); try done.
      rewrite (leaf_cas_ok (with_bits ply i (u8 len)) i l0 new) by done. cbn [mbind option_bind].
      rewrite Heq in Hcnt, Hu. rewrite (proj2 (Z.leb_le _ 256)) by exact Hcnt.
      eexists _, P. split; [done|]. exact Hu.
    + exists m, P. split; [done|]. eapply ur_ext; [done|exact Hp| |by apply ur_refl].
      intros addr x Ha Hw. simpl. destruct (byte n addr =? i) eqn:Eb; [|done]. apply Z.eqb_eq in Eb. subst i.
      rewrite (walk_cell m n p addr ply l0 t0) in Hw by done. injection Hw as <-. by rewrite over_ge.
  - rewrite odd_double. rewrite (proj2 (Z.leb_le 0 len)) by lia. rewrite (next_ply_ok m P Hm j _ HPj Hj). simpl.
    destruct (more_specific_spec new len Ho Hn1 Hn2 Hlen n fuel m P j _ Hm HPj Hf)
      as (m2 & P2 & Hs & Hu).
    exists m2, P2. split; [done|]. apply (ur_lift n v p i j (λ _, over new len)); try done. by exists ply.
Qed.

Lemma set_leaf_spec a :
  1 ≤ adj_index a < 2 ^ 31 → 1 ≤ dst_address_length a ≤ 32 →
  dst_address a `mod` 2 ^ (32 - dst_address_length a) = 0 → ∀ n fuel m P p v,
  mok m P → P p = Some (n, v) → (n ≤ fuel)%nat → pre n (dst_address a) = v →
  8 * (4 - Z.of_nat n) < dst_address_length a →
  ∃ m' P', set_leaf fuel m a p (4 - Z.of_nat n) = Some m' ∧
    upd_region n v p (set_fun (dst_address_length a) (dst_address a) (1 + 2 * adj_index a)) m P m' P'.
Proof.
  intros Hadj Hlen Hmask. induction n as [|n IH]; intros fuel m P p v Hm Hp Hf Hv Hn.
  { apply (mk_depth _ _ Hm) in Hp. lia. }
  destruct fuel as [|fuel]; [lia|]. cbn [set_leaf].
  set (len := dst_address_length a) in *. set (dst := dst_address a) in *.
  pose proof (mk_depth _ _ Hm _ _ _ Hp) as [Hd _].
  rewrite (proj2 (Z.ltb_lt 0 len)), (proj2 (Z.leb_le len 32)), (proj2 (Z.ltb_lt _ 4)) by lia. cbn [andb assert mbind option_bind].
  replace (4 - Z.of_nat (S n)) with (3 - Z.of_nat n) by lia. rewrite as_u8_byte by lia.
  replace (len - 8 * (3 - Z.of_nat n + 1)) with (- (32 - len - 8 * Z.of_nat n)) by lia.
  set (s := 32 - len - 8 * Z.of_nat n). pose proof (byte_range n dst) as Hb.
  destruct (- s <=? 0) eqn:Es; bool_to_prop.
  - (* the cells of the prefix *)
    rewrite Z.opp_involutive. assert (0 ≤ s < 8) as Hs by lia.
    pose proof (masked_byte n len dst ltac:(lia) ltac:(lia) Hmask) as Hz. fold s in Hz.
    rewrite pow2_mask_ones, Z.land_ones, Hz by lia. cbn [Z.eqb assert mbind option_bind].
    rewrite Z.shiftl_1_l. assert (0 < 2 ^ s) as H2 by (apply Z.pow_pos_nonneg; lia).
    assert (byte n dst + 2 ^ s ≤ 256) as Hend.
    { apply Z.mod_divide in Hz as [q Hq]; [|lia]. pose proof (pow2_split8 s ltac:(lia)) as H256.
      assert (q < 2 ^ (8 - s)) by (apply (Z.mul_lt_mono_pos_r (2 ^ s)); lia).
      pose proof (Z.mul_le_mono_nonneg_r (q + 1) (2 ^ (8 - s)) (2 ^ s) ltac:(lia) ltac:(lia)). lia. }
    destruct (ur_loop n v p (λ _, over (1 + 2 * adj_index a) len)
      (set_leaf_cell (λ m p, set_leaf fuel m a p (3 - Z.of_nat n + 1)) fuel a p)
      (zrange (byte n dst) (byte n dst + 2 ^ s))) with (m := m) (P := P) as (m' & P' & Hl & Hu); try done.
    + intros i Hi%elem_of_zrange. lia.
    + apply NoDup_seqZ.
    + intros i m1 P1 Hi%elem_of_zrange Hm1 Hp1. apply set_leaf_cell_spec; try done; lia.
    + exists m', P'. split; [done|]. eapply ur_ext; [done|exact Hp| |exact Hu].
      intros addr x Ha _. simpl. unfold set_fun.
      pose proof (matches_cells n len dst addr ltac:(lia) ltac:(lia) ltac:(congruence)) as Hmc. cbv zeta in Hmc.
      fold s in Hmc. rewrite Hz, Z.sub_0_r, <-elem_of_zrange in Hmc. fold len dst.
      case_decide as Hd'; destruct (matches len dst addr); tauto || done || (exfalso; intuition congruence).
  - (* one ply further *)
    destruct n as [|n]; [lia|].
    destruct (cell m P Hm p (S n) v (byte (S n) dst) Hp Hb) as (ply & l0 & t0 & Hply & Hok & Hl0 & Ht0 & Hc).
    rewrite Hply. cbn [mbind option_bind]. rewrite Hl0. cbn [mbind option_bind]. rewrite Ht0. cbn [mbind option_bind].
    rewrite is_terminal_odd. set (b := byte (S n) dst) in *.
    assert (pre (S n) dst = v * 256 + b) as Hpre by (rewrite (pre_split (S n)), Hv; done).
    replace (3 - Z.of_nat (S n) + 1) with (4 - Z.of_nat (S n)) by lia.
    assert (∀ addr x, pre (S (S n)) addr = v →
      (if byte (S n) addr =? b then set_fun len dst (1 + 2 * adj_index a) addr x else x)
      = set_fun len dst (1 + 2 * adj_index a) addr x) as Hfun.
    { intros addr x Ha. case_cond; [done|]. unfold set_fun. destruct (matches len dst addr) eqn:E; [|done].
      apply (matches_deeper (S n)) in E; [|lia..]. rewrite Hpre, (pre_split (S n)), Ha in E. lia. }
    destruct Hc as [[Ho0 _]|(j & -> & -> & Hj & _ & HPj)].
    + rewrite Ho0. destruct (create_update m P p n v b ply l0 t0 Hm Hp Hb Hply Hl0 Ht0 Ho0)
        as (m1 & c & Hcr & Hnext & Hp1 & Hu & Hg2 & Hcell & HPc & HPp). cbv zeta in Hu, Hg2, Hcell, HPc, HPp.
      rewrite Hcr. cbn [mbind option_bind]. rewrite Hnext. cbn [mbind option_bind]. rewrite Hp1. cbn [mbind option_bind].
      rewrite (leaf_cas_ok _ _ _ _ Hl0). cbn [mbind option_bind].
      assert (0 ≤ n_non_empty_leafs ply - b2z (negb (l0 =? 1))) as Hcnt.
      { rewrite (po_count _ _ _ _ Hok). pose proof (count_range (vset (leaves ply) b 1)) as Hr.
        rewrite (count_vset _ _ l0) in Hr by done. simpl in Hr. lia. }
      match goal with |- context [0 <=? ?x] => replace (0 <=? x) with true by (symmetry; apply Z.leb_le; exact Hcnt) end.
      cbn [assert mbind option_bind].
      match goal with |- context [set_ply m1 p ?x] => replace x with (put_cell ply b (2 * c) 0 l0) end.
      2: { unfold put_cell, with_count, with_bits, with_leaf. cbn [leaves dst_address_bits_of_leaves n_non_empty_leafs].
           replace (2 * c =? 1) with false by (symmetry; apply Z.eqb_neq; lia). done. }
      destruct (IH fuel (set_ply m1 p (put_cell ply b (2 * c) 0 l0)) _ c (v * 256 + b) (ur_mok _ _ _ _ _ _ _ _ Hu)
        HPc ltac:(lia) Hpre ltac:(lia)) as (m' & P' & Hs & Hu').
      exists m', P'. split; [done|].
      assert (upd_region (S (S n)) v p (λ addr x, if byte (S n) addr =? b
        then set_fun len dst (1 + 2 * adj_index a) addr x else x)
        (set_ply m1 p (put_cell ply b (2 * c) 0 l0)) (path_add P c (S n, v * 256 + b)) m' P') as Hlift.
      { apply (ur_lift (S n) v p b c); [apply Hu|done|done|done|by eexists|done]. }
      eapply ur_ext; [done|exact Hp| |exact (ur_trans _ _ _ _ _ _ _ _ _ _ _ Hu Hlift)].
      intros addr x Ha _. by apply Hfun.
    + rewrite odd_double, (next_ply_ok m P Hm j _ HPj Hj). cbn [mbind option_bind].
      destruct (IH fuel m P j (v * 256 + b) Hm HPj ltac:(lia) Hpre ltac:(lia)) as (m' & P' & Hs & Hu).
      exists m', P'. split; [done|].
      eapply ur_ext; [done|exact Hp| |apply (ur_lift (S n) v p b j _ m P m' P' Hm Hp Hb HPj ltac:(by exists ply) Hu)].
      intros addr x Ha _. by apply Hfun.
Qed.

(** ** Removal *)

Definition erase (del : Z) (x : Z * Z) : Z * Z := if x.1 =? del then (1, 0) else x.

(** What [unset_leaf] returns on a ply: either the ply is still there, or it has
    become empty and is released. *)
Definition all_empty (m : ip4_fib_mtrie) (p : Z) : Prop :=
  ∃ ply, get_ply m p = Some ply ∧ ∀ b x, vget (leaves ply) b = Some x → x = 1.

Definition unset_post (n : nat) (v p : Z) (f : Z → Z * Z → Z * Z) (m : ip4_fib_mtrie) (P : paths)
    (m' : ip4_fib_mtrie) (freed : bool) : Prop :=
  ∃ m2 P2, upd_region n v p f m P m2 P2 ∧
    if freed then (n < 4)%nat ∧ all_empty m2 p ∧ m' = with_pool (pool_put_index (ply_pool m2) p) m2
    else m' = m2.

(** The addresses below the ply at which the removed leaf is found are in [M]. *)
Definition found_in (del : Z) (M : Z → Prop) (n : nat) (m : ip4_fib_mtrie) (p v : Z) : Prop :=
  ∀ a t, pre n a = v → walk n m p a = Some (del, t) → M a.

Lemma found_in_child del M n m P p v i c ply :
  mok m P → P p = Some (S n, v) → 0 ≤ i < 256 → get_ply m p = Some ply → vget (leaves ply) i = Some (2 * c) →
  found_in del M (S n) m p v → found_in del M n m c (v * 256 + i).
Proof.
  intros Hm Hp Hi Hply Hl Hf a t Ha Hw. apply (Hf a t).
  - rewrite pre_S, Ha. apply child_byte. lia.
  - assert (byte n a = i) as Hb by (unfold byte; rewrite Ha; by apply child_byte).
    pose proof (mk_ply _ _ Hm _ _ _ _ Hp Hply) as Hok.
    destruct (vget_in_range (dst_address_bits_of_leaves ply) i) as [t0 Ht0]; [rewrite (po_bits _ _ _ _ Hok); lia|].
    cbn [walk]. rewrite Hply, Hb. cbn [mbind option_bind]. rewrite Hl. cbn [mbind option_bind]. rewrite Ht0.
    cbn [mbind option_bind]. by rewrite odd_double, double_half.
Qed.

Lemma found_in_upd del M n m P m' P' p v f :
  found_in del M n m p v → del ≠ 1 →
  upd_region n v p f m P m' P' → (∀ a x, f a x = x ∨ f a x = (1, 0)) → found_in del M n m' p v.
Proof.
  intros Hf Hne Hu Hfun a t Ha. rewrite (ur_walk _ _ _ _ _ _ _ _ Hu a Ha).
  destruct (walk n m p a) as [x|] eqn:E; [|done]. simpl. intros [= Hx].
  destruct (Hfun a x) as [Hx'|Hx']; rewrite Hx' in Hx; [|congruence]. subst x. by apply (Hf a t).
Qed.

(** A removed terminal leaf. *)
Lemma erase_terminal m P p n v i ply t0 del :
  mok m P → P p = Some (S n, v) → 0 ≤ i < 256 → get_ply m p = Some ply →
  vget (leaves ply) i = Some del → vget (dst_address_bits_of_leaves ply) i = Some t0 → Z.odd del = true →
  upd_region (S n) v p (λ a x, if byte n a =? i then erase del x else x) m P (set_ply m p (put_cell ply i 1 0 del)) P.
Proof.
  intros Hm Hp Hi Hply Hl0 Ht0 Ho. eapply ur_ext; [done|exact Hp| |].
  2: { apply (cell_update m P p n v i ply del 1 0); try done. by left. }
  intros addr x Ha Hw. simpl. destruct (byte n addr =? i) eqn:E; [|done]. apply Z.eqb_eq in E. subst i.
  rewrite (walk_cell m n p addr ply del t0) in Hw by done. injection Hw as <-. unfold erase. simpl.
  by rewrite Z.eqb_refl.
Qed.

Lemma erase_cases del x : erase del x = x ∨ erase del x = (1, 0).
Proof. unfold erase. case_match; tauto. Qed.

(** The store of an empty leaf, as [unset_leaf] does it after a hit. *)
Lemma unset_store ply i old :
  old ≠ 1 →
  with_count (with_bits (with_leaf ply i IP4_FIB_MTRIE_LEAF_EMPTY) i 0) (n_non_empty_leafs ply - 1) = put_cell ply i 1 0 old.
Proof.
  intros Hne. unfold put_cell, with_count, with_bits, with_leaf. simpl. f_equal.
  rewrite (proj2 (Z.eqb_neq old 1)) by done. simpl. lia.
Qed.

Section cells.
Context (recurse : ip4_fib_mtrie → Z → option (ip4_fib_mtrie * bool)) (del : Z) (M : Z → Prop)
  (n : nat) (p v k : Z).
Hypothesis Hdel : Z.odd del = true.
Hypothesis Hdel1 : del ≠ 1.
Hypothesis Hk : 0 < k ↔ (S n < 4)%nat.

Definition rec_ok (i : Z) : Prop := ∀ m P c,
  mok m P → P c = Some (n, v * 256 + i) → found_in del M n m c (v * 256 + i) →
  ∃ m' freed, recurse m c = Some (m', freed) ∧ unset_post n (v * 256 + i) c (λ _, erase del) m P m' freed.

(** One cell: its leaf is kept, or emptied. *)
Lemma unset_cell_step m P i :
  mok m P → P p = Some (S n, v) → 0 ≤ i < 256 → rec_ok i → found_in del M (S n) m p v →
  ∃ ply old m1 hit, get_ply m p = Some ply ∧ vget (leaves ply) i = Some old ∧
    (if old =? del then Some (m, true)
     else if negb (ip4_fib_mtrie_leaf_is_terminal old) then sub ← get_next_ply_for_leaf m old; recurse m sub
     else Some (m, false)) = Some (m1, hit) ∧
    if (hit : bool) then
      ∃ ply1 P1, get_ply m1 p = Some ply1 ∧ old ≠ 1 ∧ 1 ≤ n_non_empty_leafs ply1 ∧
        upd_region (S n) v p (λ a x, if byte n a =? i then erase del x else x) m P
          (set_ply m1 p (put_cell ply1 i 1 0 old)) P1
    else ∃ P1, upd_region (S n) v p (λ a x, if byte n a =? i then erase del x else x) m P m1 P1.
Proof using Hdel Hdel1 Hk.
  intros Hm Hp Hi Hrec Hf.
  destruct (cell m P Hm p n v i Hp Hi) as (ply & old & t0 & Hply & Hok & Hl & Ht & Hc).
  exists ply, old.
  assert (∀ ply' x, ply_ok P n v ply' → vget (leaves ply') i = Some x → x ≠ 1 → 1 ≤ n_non_empty_leafs ply') as Hcnt.
  { intros ply' x Hok' Hx Hx1. rewrite (po_count _ _ _ _ Hok').
    pose proof (count_range (vset (leaves ply') i 1)) as Hr. rewrite (count_vset _ _ x) in Hr by done.
    rewrite (proj2 (Z.eqb_neq x 1)) in Hr by done. simpl in Hr. lia. }
  destruct (old =? del) eqn:Eo; bool_to_prop.
  - subst old. exists m, true. do 3 (split; [done|]). exists ply, P. split; [done|]. split; [done|].
    split; [by apply (Hcnt ply del)|]. by apply (erase_terminal m P p n v i ply t0).
  - rewrite is_terminal_odd. destruct Hc as [[Ho0 _]|(j & -> & -> & Hj & Hn & HPj)].
    + rewrite Ho0. simpl. exists m, false. do 3 (split; [done|]). exists P.
      eapply ur_ext; [done|exact Hp| |by apply ur_refl].
      intros addr x Ha Hw. simpl. destruct (byte n addr =? i) eqn:Eb; [|done]. apply Z.eqb_eq in Eb. subst i.
      rewrite (walk_cell m n p addr ply old t0) in Hw by done. injection Hw as <-. unfold erase. simpl.
      by rewrite (proj2 (Z.eqb_neq old del)).
    + rewrite odd_double, (next_ply_ok m P Hm j _ HPj Hj). simpl.
      destruct (Hrec m P j Hm HPj) as (m' & freed & Hr & m2 & P2 & Hu & Hfreed).
      { by apply (found_in_child del M n m P p v i j ply). }
      exists m', freed. do 3 (split; [done|]).
      pose proof (ur_lift n v p i j (λ _, erase del) m P m2 P2 Hm Hp Hi HPj ltac:(by exists ply) Hu) as Hlift.
      assert (get_ply m2 p = Some ply) as Hp2.
      { rewrite (ur_frame _ _ _ _ _ _ _ _ Hu p (S n) v Hp); [done|]. intros [? _]. lia. }
      assert (P2 p = Some (S n, v)) as HP2 by (eapply paths_same_self; [apply Hlift|done]).
      assert (P2 j = Some (n, v * 256 + i)) as HP2j by (eapply paths_same_self; [apply Hu|done]).
      destruct freed; [|subst m'; by exists P2]. destruct Hfreed as (Hn4 & (plyj & Hgj & Hemp) & ->).
      destruct n as [|n1]; [lia|].
      destruct (prune_update m2 P2 p n1 v i ply j plyj) as [Hgp Hpr]; try done; [apply Hu|].
      exists ply, (path_del P2 j). split; [done|]. split; [lia|]. split; [by apply (Hcnt ply (2 * j)); [..|lia]|].
      eapply ur_ext; [done|exact Hp| |exact (ur_trans _ _ _ _ _ _ _ _ _ _ _ Hlift Hpr)]. done.
Qed.

Lemma unset_cells_spec cells : ∀ m P,
  mok m P → P p = Some (S n, v) → (∀ i, i ∈ cells → 0 ≤ i < 256 ∧ rec_ok i) → NoDup cells →
  found_in del M (S n) m p v →
  ∃ m' freed, unset_cells recurse del p k m cells = Some (m', freed) ∧
    unset_post (S n) v p (λ a x, if decide (byte n a ∈ cells) then erase del x else x) m P m' freed.
Proof using Hdel Hdel1 Hk.
  induction cells as [|i cells IH]; intros m P Hm Hp Hcells Hnd Hf.
  - exists m, false. split; [done|]. exists m, P. split; [|done].
    eapply ur_ext; [done|exact Hp| |by apply ur_refl]. intros addr x _ _.
    by rewrite decide_False by (by intros ?%elem_of_nil).
  - apply NoDup_cons in Hnd as [Hni Hnd].
    destruct (Hcells i ltac:(by left)) as [Hi Hrec].
    assert (∀ m1 P1, upd_region (S n) v p (λ a x, if byte n a =? i then erase del x else x) m P m1 P1 →
      ∃ m' freed, unset_cells recurse del p k m1 cells = Some (m', freed) ∧
        unset_post (S n) v p (λ a x, if decide (byte n a ∈ i :: cells) then erase del x else x) m P m' freed) as Hnext.
    { intros m1 P1 Hu. destruct (IH m1 P1) as (m' & freed & Hr & m2 & P2 & Hu2 & Hfr).
      - apply Hu.
      - eapply paths_same_self; [apply Hu|done].
      - intros j Hj. apply Hcells. by right.
      - done.
      - eapply found_in_upd; [done..|exact Hu|]. intros a x. simpl. destruct (_ =? _); [apply erase_cases|by left].
      - exists m', freed. split; [done|]. exists m2, P2. split; [|done].
        eapply ur_ext; [done|exact Hp| |exact (ur_trans _ _ _ _ _ _ _ _ _ _ _ Hu Hu2)].
        intros addr x Ha _. simpl. destruct (byte n addr =? i) eqn:E; bool_to_prop.
        + rewrite E, (decide_False (P := i ∈ cells)), decide_True by (done || by left). done.
        + destruct (decide (byte n addr ∈ cells)).
          * by rewrite decide_True by by right.
          * by rewrite decide_False by (intros [?|?]%elem_of_cons; done). }
    destruct (unset_cell_step m P i Hm Hp Hi Hrec Hf) as (ply & old & m1 & hit & Hply & Hl & Hstep & Hhit).
    cbn [unset_cells]. rewrite Hply. cbn [mbind option_bind]. rewrite Hl. cbn [mbind option_bind].
    rewrite Hstep. cbn [mbind option_bind].
    destruct hit; [|destruct Hhit as [P1 Hu]; by apply (Hnext m1 P1)].
    destruct Hhit as (ply1 & P1 & Hply1 & Hold & Hcnt & Hu). rewrite Hply1. cbn [mbind option_bind].
    assert (ip4_fib_mtrie_leaf_is_empty old = false) as -> by (by apply Z.eqb_neq).
    cbn [negb assert mbind option_bind].
    change (n_non_empty_leafs (with_bits (with_leaf ply1 i IP4_FIB_MTRIE_LEAF_EMPTY) i 0)) with (n_non_empty_leafs ply1).
    rewrite (unset_store ply1 i old Hold). set (ply2 := put_cell ply1 i 1 0 old) in *.
    assert (n_non_empty_leafs ply2 = n_non_empty_leafs ply1 - 1) as Hc2.
    { subst ply2. rewrite <-(unset_store ply1 i old Hold). done. }
    rewrite (proj2 (Z.leb_le 0 _)) by lia. cbn [assert mbind option_bind].
    destruct ((n_non_empty_leafs ply2 =? 0) && (0 <? k)) eqn:E; [|by apply (Hnext _ P1)].
    bool_to_prop. eexists _, true. split; [done|]. exists (set_ply m1 p ply2), P1.
    assert (get_ply (set_ply m1 p ply2) p = Some ply2) as Hg2.
    { rewrite get_set_ply by by rewrite Hply1. by rewrite decide_True. }
    assert (P1 p = Some (S n, v)) as HP1 by (eapply paths_same_self; [apply Hu|done]).
    pose proof (mk_ply _ _ (ur_mok _ _ _ _ _ _ _ _ Hu) _ _ _ _ HP1 Hg2) as Hok2.
    assert (∀ b x, vget (leaves ply2) b = Some x → x = 1) as Hemp.
    { intros b x. apply count_zero. by rewrite <-(po_count _ _ _ _ Hok2). }
    split; [|split; [tauto|split; [by exists ply2|done]]].
    eapply ur_ext; [done|exact Hp| |exact Hu].
    intros addr x Ha Hw. simpl. destruct (byte n addr =? i) eqn:Eb; bool_to_prop.
    + rewrite decide_True; [done|]. rewrite Eb. by left.
    + (* the leaves not visited are empty already *)
      case_decide as Hd; [|done]. pose proof (ur_walk _ _ _ _ _ _ _ _ Hu addr Ha) as Hw2.
      rewrite Hw in Hw2. simpl in Hw2. rewrite (proj2 (Z.eqb_neq _ i)) in Hw2 by done.
      cbn [walk] in Hw2. rewrite Hg2 in Hw2. cbn [mbind option_bind] in Hw2.
      destruct (vget (leaves ply2) (byte n addr)) as [l2|] eqn:El; [|done]. apply Hemp in El. subst l2.
      cbn [mbind option_bind] in Hw2. destruct (vget (dst_address_bits_of_leaves ply2) (byte n addr)) as [t2|]; [|done].
      cbn in Hw2. injection Hw2 as <-. unfold erase. cbn [fst]. by rewrite (proj2 (Z.eqb_neq 1 del)) by congruence.
Qed.
End cells.

(** The first cell of the block: the low bits of the byte cleared. *)
Lemma land_not_mask x s :
  0 ≤ x < 256 → 0 < s < 64 →
  Z.land x (ClibBitmap.not64 (ClibBitmap.pow2_mask s)) = x - x `mod` 2 ^ s.
Proof.
  intros Hx Hs. rewrite pow2_mask_ones by lia.
  assert (Z.land x (ClibBitmap.not64 (Z.ones s)) = Z.ldiff x (Z.ones s)) as ->.
  { unfold ClibBitmap.not64. apply Z.bits_inj'. intros j Hj.
    rewrite Z.land_spec, Z.ldiff_spec, testbit_u64, Z.lnot_spec by lia.
    destruct (j <? 64) eqn:E; [done|]. bool_to_prop. rewrite (testbit_high x 64) by lia. done. }
  rewrite Z.ldiff_ones_r, Z.shiftr_div_pow2, Z.shiftl_mul_pow2 by lia.
  pose proof (Z.div_mod x (2 ^ s) ltac:(apply Z.pow_nonzero; lia)). lia.
Qed.

Lemma unset_leaf_spec a :
  1 ≤ adj_index a < 2 ^ 31 → 1 ≤ dst_address_length a ≤ 32 → ∀ n fuel m P p v,
  mok m P → P p = Some (n, v) → (n ≤ fuel)%nat →
  (8 * (4 - Z.of_nat n) < dst_address_length a → pre n (dst_address a) = v) →
  found_in (1 + 2 * adj_index a) (λ x, matches (dst_address_length a) (dst_address a) x = true) n m p v →
  ∃ m' freed, unset_leaf fuel m a p (4 - Z.of_nat n) = Some (m', freed) ∧
    unset_post n v p (λ _, erase (1 + 2 * adj_index a)) m P m' freed.
Proof.
  intros Hadj Hlen. set (len := dst_address_length a) in *. set (dst := dst_address a) in *.
  set (del := 1 + 2 * adj_index a). set (M := λ x, matches len dst x = true).
  induction n as [|n IH]; intros fuel m P p v Hm Hp Hf Hv Hfound.
  { apply (mk_depth _ _ Hm) in Hp. lia. }
  destruct fuel as [|fuel]; [lia|]. cbn [unset_leaf]. fold len dst.
  pose proof (mk_depth _ _ Hm _ _ _ Hp) as [Hd _].
  rewrite (proj2 (Z.ltb_lt 0 len)), (proj2 (Z.leb_le len 32)), (proj2 (Z.ltb_lt _ 4)) by lia. cbn [andb assert mbind option_bind].
  replace (4 - Z.of_nat (S n)) with (3 - Z.of_nat n) in * by lia. rewrite as_u8_byte by lia.
  replace (len - 8 * (3 - Z.of_nat n + 1)) with (- (32 - len - 8 * Z.of_nat n)) by lia.
  set (s := 32 - len - 8 * Z.of_nat n). rewrite Z.opp_involutive. rewrite set_adj_ok by lia. cbn [mbind option_bind].
  fold del. pose proof (byte_range n dst) as Hb.
  set (B := if - s <? 0 then _ else byte n dst). set (w := Z.min 8 _).
  replace (3 - Z.of_nat n + 1) with (4 - Z.of_nat n) by lia.
  (* the block of cells, and what it says of the addresses *)
  assert (0 ≤ B ∧ B + Z.shiftl 1 w ≤ 256 ∧ 0 ≤ w ∧
    (∀ x, pre (S n) x = v → M x → B ≤ byte n x < B + Z.shiftl 1 w) ∧
    (∀ i, B ≤ i < B + Z.shiftl 1 w → 8 * (4 - Z.of_nat n) < len → pre n dst = v * 256 + i)) as (HB0 & HB1 & Hw0 & HBM & HBv).
  { destruct (decide (8 ≤ s)) as [Hs8|Hs8].
    - assert (w = 8) as -> by (subst w; rewrite (proj2 (Z.leb_le (- s) 0)) by lia; lia).
      assert (B = 0) as ->.
      { subst B. rewrite (proj2 (Z.ltb_lt (- s) 0)), land_not_mask by lia. rewrite Z.mod_small; [lia|].
        assert (2 ^ 8 ≤ 2 ^ s) by (apply Z.pow_le_mono_r; lia). lia. }
      change (Z.shiftl 1 8) with 256. split; [lia|]. split; [lia|]. split; [lia|].
      split; [intros x _ _; pose proof (byte_range n x); lia|]. intros i _ ?. lia.
    - specialize (Hv ltac:(lia)).
      destruct (decide (0 ≤ s)) as [Hs0|Hs0].
      + assert (w = s) as -> by (subst w; rewrite (proj2 (Z.leb_le (- s) 0)) by lia; lia).
        assert (B = byte n dst - byte n dst `mod` 2 ^ s) as HB.
        { subst B. destruct (- s <? 0) eqn:E; bool_to_prop; [by rewrite land_not_mask by lia|].
          replace s with 0 by lia. rewrite Z.mod_1_r. lia. }
        rewrite Z.shiftl_1_l. assert (0 < 2 ^ s) as H2 by (apply Z.pow_pos_nonneg; lia).
        pose proof (Z.mod_pos_bound (byte n dst) (2 ^ s) H2) as Hmb.
        pose proof (Z.mod_le (byte n dst) (2 ^ s) ltac:(lia) H2).
        split; [lia|]. split.
        { pose proof (Z.div_mod (byte n dst) (2 ^ s) ltac:(lia)) as Hdm. pose proof (pow2_split8 s ltac:(lia)) as H256.
          set (q := byte n dst / 2 ^ s) in *. assert (q < 2 ^ (8 - s)) by (apply (Z.mul_lt_mono_pos_l (2 ^ s)); lia).
          pose proof (Z.mul_le_mono_nonneg_l (q + 1) (2 ^ (8 - s)) (2 ^ s) ltac:(lia) ltac:(lia)). lia. }
        split; [lia|]. split; [|intros i _ ?; lia].
        intros x Hx Hmx. rewrite HB. apply (matches_cells n len dst x); [lia|fold s; lia|congruence|done].
      + assert (w = 0) as -> by (subst w; rewrite (proj2 (Z.leb_gt (- s) 0)) by lia; lia).
        assert (B = byte n dst) as -> by (subst B; by rewrite (proj2 (Z.ltb_ge (- s) 0)) by lia).
        rewrite Z.shiftl_1_l, Z.pow_0_r. split; [lia|]. split; [lia|]. split; [lia|].
        assert (pre n dst = v * 256 + byte n dst) as Hpre by (rewrite (pre_split n), Hv; done).
        split.
        * intros x Hx Hmx. apply (matches_deeper n) in Hmx; [|lia..].
          rewrite (pre_split n x), Hx, Hpre in Hmx. lia.
        * intros i Hi _. replace i with (byte n dst) by lia. done. }
  destruct (unset_cells_spec (λ m p, unset_leaf fuel m a p (4 - Z.of_nat n)) del M n p v (3 - Z.of_nat n)
    (odd_adj _) ltac:(subst del; lia) ltac:(lia) (zrange B (B + Z.shiftl 1 w)) m P Hm Hp) as (m' & freed & Hr & m2 & P2 & Hu & Hfr).
  - intros i Hi%elem_of_zrange. split; [lia|]. intros m1 P1 c Hm1 Hc Hf1. apply IH; try done; [lia|].
    intros Hl. by apply HBv.
  - apply NoDup_seqZ.
  - done.
  - exists m', freed. split; [done|]. exists m2, P2. split; [|done].
    eapply ur_ext; [done|exact Hp| |exact Hu]. intros addr [l t] Ha Hw. simpl.
    case_decide as Hd'; [done|]. unfold erase. simpl. destruct (l =? del) eqn:E; [|done]. bool_to_prop. subst l.
    destruct Hd'. apply elem_of_zrange, HBM; [done|]. by apply (Hfound addr t).
Qed.
End MtrieOps.
