(* ===== verification/Ip4Fib.v ===== *)
(** * The IPv4 FIB: the mtrie answers as the longest prefix match does

    [fib_inv] relates the mtrie of a FIB to its tables: the leaf found for an address
    is that of the longest route that matches it.  Adding a route, changing its
    forwarding object and removing it keep the relation, so that [ip4_lookup_validate]
    succeeds on every address. *)

From stdpp Require Import gmap.
From S2P Require Import Prelude Bitmap Popcount Pool Ip4Mtrie Ip4MtrieInv Ip4MtrieOps.

Module Fib.
Import ClibPool Ip4Mtrie.Mtrie MtrieInv MtrieOps.

(** ** Masks *)

Definition maskz (len a : Z) : Z := Z.land a (fib_masks len).

Lemma maskz_eq len a : in_u32 a → 0 ≤ len ≤ 32 → maskz len a = a / 2 ^ (32 - len) * 2 ^ (32 - len).
Proof.
  intros Ha Hl. unfold maskz, fib_masks. rewrite <-Z.shiftr_div_pow2, <-Z.shiftl_mul_pow2 by lia.
  apply Z.bits_inj'. intros j Hj. rewrite Z.land_spec, Z.shiftl_spec by lia.
  assert (32 ≤ j → Z.testbit a j = false) as Hhigh by (intros; by apply (testbit_high a 32)).
  destruct (decide (32 ≤ j)) as [Hj32|Hj32].
  { rewrite Hhigh by done. simpl. destruct (decide (32 - len ≤ j)).
    - rewrite Z.shiftr_spec by lia. replace (j - (32 - len) + (32 - len)) with j by lia. by rewrite Hhigh.
    - by rewrite Z.testbit_neg_r by lia. }
  assert (Z.testbit (if len <? 32 then u32 (Z.shiftl (ClibBitmap.pow2_mask len) (32 - len)) else u32_max) j
    = (32 - len <=? j)) as ->.
  { case_cond.
    - rewrite pow2_mask_ones by lia. rewrite testbit_u32, Z.shiftl_spec by lia.
      rewrite (proj2 (Z.ltb_lt j 32)) by lia. simpl.
      destruct (32 - len <=? j) eqn:E; bool_to_prop.
      + apply Z.ones_spec_low. lia.
      + apply Z.testbit_neg_r. lia.
    - change u32_max with (Z.ones 32). rewrite Z.ones_spec_low by lia. symmetry. apply Z.leb_le. lia. }
  destruct (32 - len <=? j) eqn:E; bool_to_prop.
  - rewrite andb_true_r, Z.shiftr_spec by lia. f_equal. lia.
  - rewrite andb_false_r. by rewrite Z.testbit_neg_r by lia.
Qed.

Lemma maskz_facts len a :
  in_u32 a → 0 ≤ len ≤ 32 →
  in_u32 (maskz len a) ∧ maskz len a `mod` 2 ^ (32 - len) = 0 ∧
  ∀ i, 0 ≤ i ≤ len → maskz len a / 2 ^ (32 - i) = a / 2 ^ (32 - i).
Proof.
  intros Ha Hl. rewrite maskz_eq by done. assert (0 < 2 ^ (32 - len)) as Hp by (apply Z.pow_pos_nonneg; lia).
  split; [|split].
  - unfold in_u32 in *. pose proof (Z.mul_div_le a (2 ^ (32 - len)) Hp).
    pose proof (Z.div_pos a (2 ^ (32 - len)) ltac:(lia) Hp). nia.
  - apply Z.mod_mul. lia.
  - intros i Hi. replace (32 - i) with (32 - len + (len - i)) by lia. rewrite Z.pow_add_r by lia.
    assert (0 < 2 ^ (len - i)) by (apply Z.pow_pos_nonneg; lia).
    rewrite <-!Z.div_div by lia. by rewrite Z.div_mul by lia.
Qed.

Lemma maskz_matches len a b :
  in_u32 a → in_u32 b → 0 ≤ len ≤ 32 → maskz len a = maskz len b ↔ matches len b a = true.
Proof.
  intros Ha Hb Hl. rewrite !maskz_eq by done. unfold matches. rewrite Z.eqb_eq.
  assert (0 < 2 ^ (32 - len)) by (apply Z.pow_pos_nonneg; lia). split; [|congruence]. nia.
Qed.

Lemma maskz_idem i len a : in_u32 a → 0 ≤ i ≤ len → len ≤ 32 → maskz i (maskz len a) = maskz i a.
Proof.
  intros Ha Hi Hl. destruct (maskz_facts len a) as (Hu & _ & Hd); [done|lia|].
  rewrite !(maskz_eq i) by (done || lia). by rewrite Hd.
Qed.

(** ** The longest match, as a leaf and the length of its route *)

Abbreviation routes := (Z → Z → option Z).

Fixpoint best_from (R : routes) (addr : Z) (n : nat) : Z * Z :=
  match n with
  | O => (IP4_FIB_MTRIE_LEAF_EMPTY, 0)
  | S n' => match R (Z.of_nat n) (maskz (Z.of_nat n) addr) with
            | Some lb => (1 + 2 * lb, Z.of_nat n)
            | None => best_from R addr n'
            end
  end.

Definition route_set (R : routes) (len key : Z) (v : option Z) : routes :=
  λ len' key', if (len' =? len) && (key' =? key) then v else R len' key'.

Section best.
Context (R : routes).

Lemma best_len n addr : 0 ≤ (best_from R addr n).2 ≤ Z.of_nat n.
Proof. induction n as [|n IH]; simpl; [lia|]. case_match; simpl; lia. Qed.

Lemma best_cases n addr :
  best_from R addr n = (1, 0) ∧ (∀ i, 1 ≤ i ≤ Z.of_nat n → R i (maskz i addr) = None) ∨
  ∃ i lb, 1 ≤ i ≤ Z.of_nat n ∧ R i (maskz i addr) = Some lb ∧ best_from R addr n = (1 + 2 * lb, i) ∧
    ∀ j, i < j ≤ Z.of_nat n → R j (maskz j addr) = None.
Proof.
  induction n as [|n IH].
  - left. split; [done|]. lia.
  - cbn [best_from]. destruct (R (Z.of_nat (S n)) _) as [lb|] eqn:E.
    + right. exists (Z.of_nat (S n)), lb. split; [lia|]. split; [done|]. split; [done|]. lia.
    + assert (∀ j, 0 ≤ j → j = Z.of_nat (S n) → R j (maskz j addr) = None) as Htop by (intros j _ ->; done).
      destruct IH as [[-> Hn]|(i & lb & Hi & HR & -> & Hn)].
      * left. split; [done|]. intros i Hi. destruct (decide (i = Z.of_nat (S n))); [apply Htop; lia|apply Hn; lia].
      * right. exists i, lb. split; [lia|]. split; [done|]. split; [done|].
        intros j Hj. destruct (decide (j = Z.of_nat (S n))); [apply Htop; lia|apply Hn; lia].
Qed.

(** The longest match is determined by its route. *)
Lemma best_is n addr i lb :
  1 ≤ i ≤ Z.of_nat n → R i (maskz i addr) = Some lb →
  (∀ j, i < j ≤ Z.of_nat n → R j (maskz j addr) = None) → best_from R addr n = (1 + 2 * lb, i).
Proof.
  intros Hi HR Hn. destruct (best_cases n addr) as [[_ Hno]|(i' & lb' & Hi' & HR' & -> & Hn')].
  - by rewrite Hno in HR.
  - destruct (Z.lt_trichotomy i i') as [Hlt|[<-|Hlt]].
    + by rewrite Hn in HR' by lia.
    + congruence.
    + by rewrite Hn' in HR by lia.
Qed.

Lemma best_none n addr :
  (∀ i, 1 ≤ i ≤ Z.of_nat n → R i (maskz i addr) = None) → best_from R addr n = (1, 0).
Proof. intros Hn. destruct (best_cases n addr) as [[? _]|(i & lb & Hi & HR & _)]; [done|]. by rewrite Hn in HR. Qed.
End best.

Lemma route_set_eq R len key v : route_set R len key v len key = v.
Proof. unfold route_set. by rewrite !Z.eqb_refl. Qed.

Lemma route_set_ne R len key v len' key' :
  len' ≠ len ∨ key' ≠ key → route_set R len key v len' key' = R len' key'.
Proof.
  intros H. unfold route_set. destruct (len' =? len) eqn:E1, (key' =? key) eqn:E2; bool_to_prop; simpl; done || lia.
Qed.

Lemma route_set_None R len key l k : R l k = None → route_set R len key None l k = None.
Proof. unfold route_set. by destruct (_ && _). Qed.

Lemma best_ext R R' addr n :
  (∀ i, 1 ≤ i ≤ Z.of_nat n → R i (maskz i addr) = R' i (maskz i addr)) → best_from R addr n = best_from R' addr n.
Proof.
  induction n as [|n IH]; intros Heq; [done|]. cbn [best_from]. rewrite Heq by lia.
  case_match; [done|]. apply IH. intros. apply Heq. lia.
Qed.

(** A route added, or its object replaced. *)
Lemma best_add R len a lb addr :
  in_u32 a → in_u32 addr → 1 ≤ len ≤ 32 →
  best_from (route_set R len (maskz len a) (Some lb)) addr 32 =
  set_fun len (maskz len a) (1 + 2 * lb) addr (best_from R addr 32).
Proof.
  intros Ha Haddr Hl. set (R' := route_set R len (maskz len a) (Some lb)).
  destruct (maskz_facts len a Ha ltac:(lia)) as (Hku & _ & _).
  pose proof (maskz_matches len addr (maskz len a) Haddr Hku ltac:(lia)) as Hm.
  rewrite (maskz_idem len len) in Hm by (done || lia).
  unfold set_fun. destruct (matches len (maskz len a) addr) eqn:E.
  - assert (maskz len addr = maskz len a) as Hk by tauto.
    assert (∀ i, i ≠ len → R' i (maskz i addr) = R i (maskz i addr)) as Hoth by (intros; apply route_set_ne; by left).
    assert (R' len (maskz len addr) = Some lb) as Hlb by (rewrite Hk; apply route_set_eq).
    pose proof (best_cases R 32 addr) as Hc. change (Z.of_nat 32) with 32 in Hc. unfold over.
    destruct Hc as [[-> Hn]|(i & lbi & Hi & HR & -> & Hn)]; cbn [snd].
    + rewrite (proj2 (Z.leb_le 0 len)) by lia. apply best_is; [done|done|].
      intros j Hj. rewrite Hoth by lia. apply Hn. lia.
    + destruct (i <=? len) eqn:Eil; bool_to_prop.
      * apply best_is; [done|done|]. intros j Hj. rewrite Hoth by lia. apply Hn. lia.
      * apply best_is; [done|by rewrite Hoth by lia|]. intros j Hj. rewrite Hoth by lia. by apply Hn.
  - apply best_ext. intros i Hi. apply route_set_ne. destruct (decide (i = len)) as [->|]; [right|by left].
    intros Hk. by apply Hm in Hk.
Qed.

(** A route removed: its leaves are emptied, then the next less specific one is
    inserted again. *)
Fixpoint lesser (R : routes) (dst : Z) (n : nat) : option (Z * Z * Z) :=
  match n with
  | O => None
  | S n' => match R (Z.of_nat n) (maskz (Z.of_nat n) dst) with
            | Some lb => Some (maskz (Z.of_nat n) dst, Z.of_nat n, lb)
            | None => lesser R dst n'
            end
  end.

Lemma lesser_cases R dst n :
  match lesser R dst n with
  | None => ∀ i, 1 ≤ i ≤ Z.of_nat n → R i (maskz i dst) = None
  | Some (k, i, lb) => 1 ≤ i ≤ Z.of_nat n ∧ k = maskz i dst ∧ R i k = Some lb ∧
      ∀ j, i < j ≤ Z.of_nat n → R j (maskz j dst) = None
  end.
Proof.
  induction n as [|n IH]; [simpl; lia|]. cbn [lesser].
  destruct (R (Z.of_nat (S n)) _) as [lb|] eqn:E.
  - split; [lia|]. do 2 (split; [done|]). lia.
  - assert (∀ j, j = Z.of_nat (S n) → R j (maskz j dst) = None) as Htop by by intros j ->.
    destruct (lesser R dst n) as [[[k i] lb]|].
    + destruct IH as (Hi & -> & HR & Hn). split; [lia|]. do 2 (split; [done|]).
      intros j Hj. destruct (decide (j = Z.of_nat (S n))); [by apply Htop|apply Hn; lia].
    + intros j Hj. destruct (decide (j = Z.of_nat (S n))); [by apply Htop|apply IH; lia].
Qed.

Definition delete_fun (R : routes) (len key lb addr : Z) (x : Z * Z) : Z * Z :=
  let e := erase (1 + 2 * lb) x in
  match lesser R key (Z.to_nat (len - 1)) with
  | Some (k, i, lbi) => set_fun i k (1 + 2 * lbi) addr e
  | None => e
  end.

(** Addresses that match the prefix and those that do not share their shorter keys. *)
Lemma maskz_shorter i len a addr :
  in_u32 a → in_u32 addr → 0 ≤ i ≤ len → len ≤ 32 → maskz len addr = maskz len a → maskz i addr = maskz i a.
Proof.
  intros Ha Haddr Hi Hl Hk. rewrite <-(maskz_idem i len addr), Hk by (done || lia). by apply maskz_idem.
Qed.

Lemma best_delete R len a lb addr :
  in_u32 a → in_u32 addr → 1 ≤ len ≤ 32 → lb ≠ 0 →
  R len (maskz len a) = Some lb → (∀ l k, 1 ≤ l ≤ 32 → R l k = Some lb → l = len ∧ k = maskz len a) →
  best_from (route_set R len (maskz len a) None) addr 32 =
  delete_fun R len (maskz len a) lb addr (best_from R addr 32).
Proof.
  intros Ha Haddr Hl Hlb HR Huniq. set (key := maskz len a) in *. set (R' := route_set R len key None).
  destruct (maskz_facts len a Ha ltac:(lia)) as (Hku & _ & _). fold key in Hku.
  assert (∀ i, i ≠ len → R' i (maskz i addr) = R i (maskz i addr)) as Hoth by (intros; apply route_set_ne; by left).
  assert (∀ i k x, 1 ≤ i ≤ 32 → set_fun i (maskz i key) k addr x = if decide (maskz i addr = maskz i key) then over k i x else x) as Hset.
  { intros i k x Hi. unfold set_fun.
    pose proof (maskz_matches i addr (maskz i key) Haddr ltac:(apply maskz_facts; [done|lia]) ltac:(lia)) as Hm.
    rewrite (maskz_idem i i) in Hm by (done || lia).
    destruct (matches i (maskz i key) addr); case_decide as Hd; intuition congruence. }
  pose proof (lesser_cases R key (Z.to_nat (len - 1))) as Hless.
  replace (Z.of_nat (Z.to_nat (len - 1))) with (len - 1) in Hless by lia.
  unfold delete_fun.
  pose proof (best_cases R 32 addr) as Hc. change (Z.of_nat 32) with 32 in Hc.
  destruct (decide (best_from R addr 32 = (1 + 2 * lb, len))) as [Hb|Hb].
  - (* the removed route was the longest match *)
    rewrite Hb. unfold erase. cbn [fst]. rewrite Z.eqb_refl.
    destruct Hc as [[Hb' _]|(i & lbi & Hi & HRi & Hb' & Hn)]; [rewrite Hb in Hb'; injection Hb'; lia|].
    rewrite Hb in Hb'. assert (lbi = lb ∧ i = len) as [-> ->] by (injection Hb'; lia).
    destruct (Huniq len _ Hl HRi) as [_ Hk].
    assert (∀ j, 0 ≤ j ≤ len → maskz j addr = maskz j key) as Hshort.
    { intros j Hj. subst key. rewrite (maskz_idem j len) by (done || lia). apply (maskz_shorter j len); (done || lia). }
    destruct (lesser R key (Z.to_nat (len - 1))) as [[[k i] lbi]|].
    + destruct Hless as (Hi2 & -> & HRk & Hn2). rewrite Hset by lia. rewrite decide_True by (apply Hshort; lia).
      unfold over. cbn [snd]. rewrite (proj2 (Z.leb_le 0 i)) by lia. apply best_is; [lia| |].
      * rewrite Hoth, Hshort by lia. done.
      * intros j Hj. destruct (decide (j = len)) as [->|]; [rewrite Hk; apply route_set_eq|].
        rewrite Hoth by done. destruct (decide (j < len)); [rewrite Hshort by lia; apply Hn2; lia|apply Hn; lia].
    + apply best_none. intros j Hj. destruct (decide (j = len)) as [->|]; [rewrite Hk; apply route_set_eq|].
      rewrite Hoth by done. destruct (decide (j < len)); [rewrite Hshort by lia; apply Hless; lia|apply Hn; lia].
  - (* it was not: nothing changes *)
    assert (best_from R' addr 32 = best_from R addr 32) as ->.
    { destruct Hc as [[-> Hn]|(i & lbi & Hi & HRi & Hb' & Hn)].
      - apply best_none. intros j Hj. by apply route_set_None, Hn.
      - rewrite Hb'. apply best_is; [done| |].
        + unfold R'; rewrite route_set_ne; [done|]. destruct (decide (i = len)) as [->|]; [right|by left].
          intros Hk. rewrite Hk, HR in HRi. injection HRi as <-. by rewrite Hb' in Hb.
        + intros j Hj. by apply route_set_None, Hn. }
    assert (erase (1 + 2 * lb) (best_from R addr 32) = best_from R addr 32) as He.
    { unfold erase. destruct Hc as [[-> _]|(i & lbi & Hi & HRi & Hb' & Hn)]; cbn [fst].
      - by rewrite (proj2 (Z.eqb_neq _ _)) by lia.
      - rewrite Hb'. cbn [fst]. destruct (1 + 2 * lbi =? 1 + 2 * lb) eqn:E; bool_to_prop; [|done].
        exfalso. apply Hb. rewrite Hb'. replace lbi with lb in * by lia.
        destruct (Huniq i _ Hi HRi) as [-> _]. done. }
    rewrite He. destruct (lesser R key (Z.to_nat (len - 1))) as [[[k i] lbi]|]; [|done].
    destruct Hless as (Hi2 & -> & HRk & Hn2). rewrite Hset by lia. case_decide as Hd; [|done].
    unfold over. destruct Hc as [[_ Hn]|(i' & lbi' & Hi' & HRi' & Hb' & Hn)].
    + rewrite <-Hd, Hn in HRk by lia. done.
    + rewrite Hb'. cbn [snd]. destruct (i' <=? i) eqn:E; bool_to_prop; [|done].
      destruct (decide (i' = i)) as [->|]; [|rewrite <-Hd, Hn in HRk by lia; done].
      rewrite <-Hd, HRi' in HRk. by injection HRk as ->.
Qed.

(** ** The mtrie of a set of routes *)

(** The object of a route: index 0 would be the empty leaf, so only a default route,
    which is not in the plies, can have it. *)
Definition lb_ok (len lb : Z) : Prop := 0 ≤ lb < 2 ^ 31 ∧ (len = 0 ∨ 1 ≤ lb).

Record mtrie_rel (m : ip4_fib_mtrie) (R : routes) : Prop := {
  mr_ok : ∃ P, mok m P;
  mr_walk addr : in_u32 addr → walk 4 m 0 addr = Some (best_from R addr 32);
  mr_default : default_leaf m = match R 0 0 with Some lb => 1 + 2 * lb | None => IP4_FIB_MTRIE_LEAF_EMPTY end;
}.

Lemma mtrie_rel_ext m R R' : (∀ len key, R len key = R' len key) → mtrie_rel m R → mtrie_rel m R'.
Proof.
  intros Heq [H1 H2 H3]. split; [done| |by rewrite <-Heq].
  intros addr Ha. rewrite H2 by done. f_equal. by apply best_ext.
Qed.

Lemma pre4 a : pre 4 a = 0 ↔ 0 ≤ a < 2 ^ 32.
Proof.
  unfold pre. change (8 * Z.of_nat 4) with 32. split; [|apply Z.div_small].
  intros H. pose proof (Z.div_mod a (2 ^ 32)). pose proof (Z.mod_pos_bound a (2 ^ 32)). lia.
Qed.

Lemma maskz_0 a : in_u32 a → maskz 0 a = 0.
Proof.
  intros Ha. rewrite maskz_eq by (done || lia). change (2 ^ (32 - 0)) with (2 ^ 32).
  by rewrite Z.div_small.
Qed.

(** The root ply is live. *)
Lemma root_live m P : mok m P → ∃ ply, get_ply m 0 = Some ply.
Proof.
  intros Hm. destruct (proj2 (mk_live _ _ Hm 0)) as [ply ?]; [|by exists ply].
  rewrite (mk_root _ _ Hm). by eexists.
Qed.

(** Storing the leaf of a route in the whole trie. *)
Lemma set_leaf_root m P addr len lb :
  mok m P → in_u32 addr → 1 ≤ len ≤ 32 → 1 ≤ lb < 2 ^ 31 →
  ∃ m' P', set_leaf 4 m (Args (maskz len addr) len lb) 0 0 = Some m' ∧ mok m' P' ∧
    default_leaf m' = default_leaf m ∧
    ∀ a, in_u32 a → walk 4 m' 0 a = set_fun len (maskz len addr) (1 + 2 * lb) a <$> walk 4 m 0 a.
Proof.
  intros Hm Ha Hl Hlb. destruct (maskz_facts len addr Ha ltac:(lia)) as (Hu & Hmod & _).
  destruct (set_leaf_spec (Args (maskz len addr) len lb) Hlb Hl Hmod 4 4 m P 0 0 Hm (mk_root _ _ Hm)) as (m' & P' & Hs & Hup).
  - done.
  - by apply pre4.
  - cbn [dst_address_length]. change (4 - Z.of_nat 4) with 0. lia.
  - exists m', P'. split; [exact Hs|]. split; [apply Hup|]. split; [apply Hup|].
    intros a Hau. apply (ur_walk _ _ _ _ _ _ _ _ Hup). by apply pre4.
Qed.

Lemma set_default_rel m R lb v :
  mtrie_rel m R → v = match lb with Some lb => 1 + 2 * lb | None => IP4_FIB_MTRIE_LEAF_EMPTY end →
  mtrie_rel (MtrieState (ply_pool m) v) (route_set R 0 0 lb).
Proof.
  intros [[P HP] Hw Hd] ->. split.
  - exists P. by destruct HP.
  - intros addr Haddr. rewrite (best_ext _ R) by (intros; apply route_set_ne; lia).
    rewrite <-(Hw addr Haddr). apply (walk_agree m _ P 4 addr HP) with (w := 0); [done|apply HP|by apply pre4].
  - by rewrite route_set_eq.
Qed.

Lemma add_rel f R addr len lb :
  mtrie_rel (mtrie f) R → in_u32 addr → 0 ≤ len ≤ 32 → lb_ok len lb →
  ∃ m', ip4_fib_mtrie_add_del_route f addr len lb false = Some (with_mtrie m' f) ∧
    mtrie_rel m' (route_set R len (maskz len addr) (Some lb)).
Proof.
  intros Hr Ha Hl [Hlb Hlb0]. destruct (mr_ok _ _ Hr) as [P HP]. destruct (root_live _ _ HP) as [ply Hroot].
  unfold ip4_fib_mtrie_add_del_route. fold (maskz len addr). rewrite Hroot. cbn [mbind option_bind negb].
  case_cond.
  - subst len. rewrite set_adj_ok by lia. cbn [mbind option_bind]. eexists. split; [done|].
    rewrite maskz_0 by done. by apply (set_default_rel _ _ (Some lb)).
  - destruct (set_leaf_root (mtrie f) P addr len lb HP Ha ltac:(lia) ltac:(lia)) as (m' & P' & Hs & HP' & Hd & Hw).
    rewrite Hs. cbn [mbind option_bind]. exists m'. split; [done|]. split; [by exists P'| |].
    + intros a Hau. rewrite Hw, (mr_walk _ _ Hr a Hau) by done. cbn [fmap option_fmap option_map].
      f_equal. symmetry. apply best_add; (done || lia).
    + rewrite Hd, (mr_default _ _ Hr). by rewrite route_set_ne by lia.
Qed.

(** Emptying the leaves of a route in the whole trie. *)
Lemma unset_leaf_root m P addr len lb :
  mok m P → in_u32 addr → 1 ≤ len ≤ 32 → 1 ≤ lb < 2 ^ 31 →
  (∀ a t, in_u32 a → walk 4 m 0 a = Some (1 + 2 * lb, t) → matches len (maskz len addr) a = true) →
  ∃ m' freed P', unset_leaf 4 m (Args (maskz len addr) len lb) 0 0 = Some (m', freed) ∧ mok m' P' ∧
    default_leaf m' = default_leaf m ∧
    ∀ a, in_u32 a → walk 4 m' 0 a = erase (1 + 2 * lb) <$> walk 4 m 0 a.
Proof.
  intros Hm Ha Hl Hlb Hf. destruct (maskz_facts len addr Ha ltac:(lia)) as (Hu & Hmod & _).
  destruct (unset_leaf_spec (Args (maskz len addr) len lb) Hlb Hl 4 4 m P 0 0 Hm (mk_root _ _ Hm))
    as (m' & freed & Hs & m2 & P2 & Hup & Hfr).
  - done.
  - intros _. by apply pre4.
  - intros a t Hpa Hw. apply pre4 in Hpa. by apply (Hf a t).
  - exists m', freed, P2. split; [exact Hs|]. destruct freed; [lia|]. subst m'.
    split; [apply Hup|]. split; [apply Hup|]. intros a Hau. apply (ur_walk _ _ _ _ _ _ _ _ Hup). by apply pre4.
Qed.

(** The routes of a FIB: the prefixes whose entry has a valid forwarding object. *)
Definition route (f : ip4_fib) : routes := λ len key,
  fei ← hash_get f len key;
  let lb := fib_entry_contribute_ip_forwarding f fei in
  if lb =? INDEX_INVALID then None else Some lb.

Section delete.
Context (f : ip4_fib).
Hypothesis Hrel : mtrie_rel (mtrie f) (route f).
Hypothesis Hrange : ∀ len key lb, route f len key = Some lb → lb_ok len lb.
Hypothesis Huniq : ∀ len key len' key' lb,
  route f len key = Some lb → route f len' key' = Some lb → len = len' ∧ key = key'.

Lemma less_specific_lesser dst n : less_specific f dst n = lesser (route f) dst n.
Proof.
  induction n as [|n IH]; [done|]. cbn [less_specific lesser]. unfold route at 1. fold (maskz (Z.of_nat (S n)) dst).
  destruct (hash_get f _ _) as [fei|]; simpl; [|done].
  destruct (_ =? INDEX_INVALID); [done|done].
Qed.

(** Where the leaf of a route is found, the route matches. *)
Lemma leaf_found len addr lb a t :
  in_u32 addr → in_u32 a → 1 ≤ len ≤ 32 → route f len (maskz len addr) = Some lb →
  walk 4 (mtrie f) 0 a = Some (1 + 2 * lb, t) → matches len (maskz len addr) a = true.
Proof using Hrel Hrange Huniq.
  intros Haddr Ha Hl HR. rewrite (mr_walk _ _ Hrel a Ha). intros Hb%(inj Some).
  pose proof (Hrange _ _ _ HR) as [Hlb Hlb0].
  destruct (best_cases (route f) 32 a) as [[Hb' _]|(i & lbi & Hi & HRi & Hb' & _)]; rewrite Hb in Hb'.
  - injection Hb' as ? ?. lia.
  - injection Hb' as Hlbi ?. assert (lbi = lb) as -> by lia.
    destruct (Huniq _ _ _ _ _ HR HRi) as [<- Hk].
    rewrite Hk. apply maskz_matches; [done|apply maskz_facts; [done|lia]|lia|]. symmetry. apply maskz_idem; (done || lia).
Qed.

Lemma del_rel addr len lb :
  in_u32 addr → 0 ≤ len ≤ 32 → route f len (maskz len addr) = Some lb →
  ∃ m', ip4_fib_mtrie_add_del_route f addr len lb true = Some (with_mtrie m' f) ∧
    mtrie_rel m' (route_set (route f) len (maskz len addr) None).
Proof using Hrel Hrange Huniq.
  intros Ha Hl HR. destruct (mr_ok _ _ Hrel) as [P HP]. destruct (root_live _ _ HP) as [ply Hroot].
  pose proof (Hrange _ _ _ HR) as [Hlb Hlb0].
  unfold ip4_fib_mtrie_add_del_route. fold (maskz len addr). rewrite Hroot. cbn [mbind option_bind negb].
  case_cond.
  - subst len. eexists. split; [done|]. rewrite maskz_0 by done. by apply (set_default_rel _ _ None).
  - destruct (maskz_facts len addr Ha Hl) as (Hku & _).
    destruct (unset_leaf_root (mtrie f) P addr len lb HP Ha ltac:(lia) ltac:(lia)) as (m1 & freed & P1 & Hs & HP1 & Hd1 & Hw1).
    { intros a t Hau. apply leaf_found; (done || lia). }
    rewrite Hs. cbn [mbind option_bind]. rewrite less_specific_lesser.
    assert (default_leaf (mtrie f) = match route_set (route f) len (maskz len addr) None 0 0 with
      Some lb => 1 + 2 * lb | None => IP4_FIB_MTRIE_LEAF_EMPTY end) as Hdef.
    { rewrite (mr_default _ _ Hrel). by rewrite route_set_ne by lia. }
    assert (∀ a, in_u32 a → best_from (route_set (route f) len (maskz len addr) None) a 32 =
      delete_fun (route f) len (maskz len addr) lb a (best_from (route f) a 32)) as Hbest.
    { intros a Hau. apply best_delete; try done; [lia|lia|]. intros l k _ Hk.
      by destruct (Huniq _ _ _ _ _ HR Hk) as [-> ->]. }
    unfold delete_fun in Hbest.
    pose proof (lesser_cases (route f) (maskz len addr) (Z.to_nat (len - 1))) as Hless.
    destruct (lesser _ _ _) as [[[k i] lbi]|].
    + destruct Hless as (Hi & -> & HRi & _).
      destruct (set_leaf_root m1 P1 (maskz len addr) i lbi HP1 Hku ltac:(lia)) as (m2 & P2 & Hs2 & HP2 & Hd2 & Hw2).
      { apply Hrange in HRi as [? ?]. lia. }
      rewrite Hs2. cbn [mbind option_bind]. exists m2. split; [done|]. split; [by exists P2| |by rewrite Hd2, Hd1].
      intros a Hau. rewrite Hw2, Hw1, (mr_walk _ _ Hrel a Hau), Hbest by done. done.
    + exists m1. split; [done|]. split; [by exists P1| |by rewrite Hd1].
      intros a Hau. rewrite Hw1, (mr_walk _ _ Hrel a Hau), Hbest by done. done.
Qed.
End delete.

(** ** The invariant of a FIB *)

Record fib_inv (f : ip4_fib) : Prop := {
  fi_rel : mtrie_rel (mtrie f) (route f);
  fi_tables : zlen (fib_entry_by_dst_address f) = 33;
  fi_entry len key fei : hash_get f len key = Some fei → fei ≠ FIB_NODE_INDEX_INVALID ∧
    lb_ok len (fib_entry_contribute_ip_forwarding f fei);
  fi_key len key fei : hash_get f len key = Some fei → 0 ≤ len ≤ 32 ∧ ∃ a, in_u32 a ∧ key = maskz len a;
  fi_unique len key len' key' fei fei' :
    hash_get f len key = Some fei → hash_get f len' key' = Some fei' →
    fei = fei' ∨ fib_entry_contribute_ip_forwarding f fei = fib_entry_contribute_ip_forwarding f fei' →
    len = len' ∧ key = key';
  fi_live fei lb : entry_lb f !! fei = Some lb → ∃ len key, hash_get f len key = Some fei;
}.

Section inv.
Context (f : ip4_fib) (Hf : fib_inv f).

(** Entries of the tables do have a forwarding object. *)
Lemma route_entry len key :
  route f len key = fib_entry_contribute_ip_forwarding f <$> hash_get f len key.
Proof using Hf.
  unfold route. destruct (hash_get f len key) as [fei|] eqn:E; [|done]. simpl.
  pose proof (fi_entry _ Hf _ _ _ E) as [_ Hr].
  by rewrite (proj2 (Z.eqb_neq _ _)) by (unfold lb_ok, INDEX_INVALID, u32_max in *; lia).
Qed.

Lemma route_range len key lb : route f len key = Some lb → lb_ok len lb.
Proof using Hf.
  rewrite route_entry. intros (fei & E & ->)%fmap_Some. by apply (fi_entry _ Hf _ _ _ E).
Qed.

Lemma route_unique len key len' key' lb :
  route f len key = Some lb → route f len' key' = Some lb → len = len' ∧ key = key'.
Proof using Hf.
  rewrite !route_entry. intros (fei & E & ->)%fmap_Some (fei' & E' & Heq)%fmap_Some.
  apply (fi_unique _ Hf _ _ _ _ fei fei'); auto.
Qed.
End inv.

(** The tables, seen through [hash_get]. *)
Lemma hash_get_vset t e m len len' key' h :
  hash_get (Mtrie.Fib (vset t len h) e m) len' key' =
  if decide (len = len' ∧ 0 ≤ len < zlen t) then h !! key' else hash_get (Mtrie.Fib t e m) len' key'.
Proof. unfold hash_get. cbn [fib_entry_by_dst_address]. rewrite vget_vset. by case_decide. Qed.

Lemma hash_get_same f e m len key : hash_get (Mtrie.Fib (fib_entry_by_dst_address f) e m) len key = hash_get f len key.
Proof. done. Qed.

Lemma table_get f len h key : vget (fib_entry_by_dst_address f) len = Some h → hash_get f len key = h !! key.
Proof. intros Hh. unfold hash_get. by rewrite Hh. Qed.

(** What a change of the tables and of the forwarding objects at one prefix must
    establish. *)
Definition entry_set (f : ip4_fib) (len key : Z) (v : option Z) : Z → Z → option Z :=
  λ len' key', if (len' =? len) && (key' =? key) then v else hash_get f len' key'.

Lemma lookup_exact f addr len :
  ip4_fib_table_lookup_exact_match f addr len = default FIB_NODE_INDEX_INVALID (hash_get f len (maskz len addr)).
Proof. done. Qed.

(** ** Adding a route *)

Section add.
Context (f : ip4_fib) (addr len fei lb : Z).
Hypothesis Hf : fib_inv f.
Hypothesis Haddr : in_u32 addr.
Hypothesis Hlen : 0 ≤ len ≤ 32.
Hypothesis Hlb : lb_ok len lb.
Hypothesis Hnew : hash_get f len (maskz len addr) = None.
Hypothesis Hfei : fei ≠ FIB_NODE_INDEX_INVALID.
(** The entry and its object are fresh, as the pools give them. *)
Hypothesis Hfresh_entry : ∀ len' key', hash_get f len' key' ≠ Some fei.
Hypothesis Hfresh_lb : ∀ fei', entry_lb f !! fei' ≠ Some lb.

Let key := maskz len addr.
Let h := default ∅ (vget (fib_entry_by_dst_address f) len).
Let tables := vset (fib_entry_by_dst_address f) len (<[key := fei]> h).

Lemma add_hash_get m len' key' :
  hash_get (Mtrie.Fib tables (<[fei := lb]> (entry_lb f)) m) len' key' = entry_set f len key (Some fei) len' key'.
Proof using Hf Hlen.
  unfold tables, entry_set. rewrite hash_get_vset, (fi_tables _ Hf).
  assert (vget (fib_entry_by_dst_address f) len = Some h) as Hh.
  { subst h. destruct (vget_in_range (fib_entry_by_dst_address f) len) as [x Hx]; [rewrite (fi_tables _ Hf); lia|].
    by rewrite Hx. }
  case_decide as Hd.
  - destruct Hd as [<- _]. rewrite Z.eqb_refl. simpl. destruct (key' =? key) eqn:E; bool_to_prop.
    + subst key'. by rewrite lookup_insert_eq.
    + rewrite lookup_insert_ne by done. by rewrite <-table_get with (f := f) (len := len).
  - rewrite (proj2 (Z.eqb_neq len' len)); [done|]. intros ->. apply Hd. lia.
Qed.

Lemma add_contribute m fei' len' key' :
  hash_get f len' key' = Some fei' →
  fib_entry_contribute_ip_forwarding (Mtrie.Fib tables (<[fei := lb]> (entry_lb f)) m) fei' =
  fib_entry_contribute_ip_forwarding f fei' ∧ fei' ≠ fei ∧ fib_entry_contribute_ip_forwarding f fei' ≠ lb.
Proof using Hf Hfresh_entry Hfresh_lb Hlb.
  intros E. assert (fei' ≠ fei) as Hne by (intros ->; by apply Hfresh_entry in E).
  unfold fib_entry_contribute_ip_forwarding. cbn [entry_lb]. rewrite lookup_insert_ne by done.
  split; [done|]. split; [done|]. destruct (entry_lb f !! fei') as [lb'|] eqn:El; simpl.
  - intros ->. by apply Hfresh_lb in El.
  - unfold lb_ok, INDEX_INVALID, u32_max in *. lia.
Qed.

Lemma add_route m len' key' :
  route (Mtrie.Fib tables (<[fei := lb]> (entry_lb f)) m) len' key' = route_set (route f) len key (Some lb) len' key'.
Proof using Hf Hlen Hfresh_entry Hfresh_lb Hlb.
  unfold route at 1, route_set. rewrite add_hash_get. unfold entry_set. case_match.
  - cbn [mbind option_bind]. unfold fib_entry_contribute_ip_forwarding. cbn [entry_lb]. rewrite lookup_insert_eq. simpl.
    by rewrite (proj2 (Z.eqb_neq lb INDEX_INVALID)) by (unfold lb_ok, INDEX_INVALID, u32_max in *; lia).
  - unfold route. destruct (hash_get f len' key') as [fei'|] eqn:E; [|done]. cbn [mbind option_bind].
    by destruct (add_contribute m fei' len' key' E) as [-> _].
Qed.

Lemma add_inv m : mtrie_rel m (route_set (route f) len key (Some lb)) →
  fib_inv (Mtrie.Fib tables (<[fei := lb]> (entry_lb f)) m).
Proof using Hf Haddr Hlen Hlb Hnew Hfei Hfresh_entry Hfresh_lb.
  intros Hm. pose proof (add_contribute m) as Hadd. set (f' := Mtrie.Fib _ _ _) in *.
  assert (fib_entry_contribute_ip_forwarding f' fei = lb) as Hcl.
  { unfold f', fib_entry_contribute_ip_forwarding. cbn [entry_lb]. by rewrite lookup_insert_eq. }
  assert (∀ len' key' fei', hash_get f' len' key' = Some fei' →
    (len' = len ∧ key' = key ∧ fei' = fei) ∨ hash_get f len' key' = Some fei') as Hcase.
  { intros len' key' fei'. unfold f'. rewrite add_hash_get. unfold entry_set.
    destruct (len' =? len) eqn:E1, (key' =? key) eqn:E2; bool_to_prop; simpl; [|by right..]. intros [= <-]. by left. }
  split.
  - eapply mtrie_rel_ext; [|exact Hm]. intros. symmetry. apply add_route.
  - cbn [f' fib_entry_by_dst_address]. unfold tables. rewrite zlen_vset. apply Hf.
  - intros len' key' fei' [(-> & -> & ->)|E]%Hcase; [by rewrite Hcl|].
    destruct (Hadd fei' len' key' E) as [-> _]. by apply (fi_entry _ Hf _ _ _ E).
  - intros len' key' fei' [(-> & -> & ->)|E]%Hcase; [split; [done|by exists addr]|]. by apply (fi_key _ Hf _ _ _ E).
  - intros l1 k1 l2 k2 f1 f2 [(-> & -> & ->)|E1]%Hcase [(-> & -> & ->)|E2]%Hcase; [done|..].
    + destruct (Hadd f2 l2 k2 E2) as (Hc & Hn & Hn'). rewrite Hc, Hcl. intros [?|?]; congruence.
    + destruct (Hadd f1 l1 k1 E1) as (Hc & Hn & Hn'). rewrite Hc, Hcl. intros [?|?]; congruence.
    + destruct (Hadd f1 l1 k1 E1) as (Hc1 & _), (Hadd f2 l2 k2 E2) as (Hc2 & _).
      rewrite Hc1, Hc2. by apply (fi_unique _ Hf).
  - intros fei' lb'. cbn [f' entry_lb]. intros [[<- <-]|[Hne E]]%lookup_insert_Some.
    + exists len, key. unfold f'. rewrite add_hash_get. unfold entry_set. by rewrite !Z.eqb_refl.
    + destruct (fi_live _ Hf _ _ E) as (l & k & Hg). exists l, k. unfold f'. rewrite add_hash_get. unfold entry_set.
      destruct (l =? len) eqn:E1, (k =? key) eqn:E2; bool_to_prop; simpl; try done.
      subst l k. unfold key in Hg. congruence.
Qed.

(** The whole operation: no assertion fails, and exactly this route is added. *)
Lemma entry_add_ok :
  ∃ f', fib_table_entry_add f addr len fei lb = Some f' ∧ fib_inv f' ∧
    (∀ len' key', hash_get f' len' key' = entry_set f len key (Some fei) len' key') ∧
    ∀ len' key', route f' len' key' = route_set (route f) len key (Some lb) len' key'.
Proof using Hf Haddr Hlen Hlb Hnew Hfei Hfresh_entry Hfresh_lb.
  unfold fib_table_entry_add. rewrite lookup_exact, Hnew. cbn [default from_option].
  rewrite Z.eqb_refl. unfold fib_entry_src_action_install, fe_lb_is_valid.
  assert (fib_entry_contribute_ip_forwarding f fei = INDEX_INVALID) as ->.
  { unfold fib_entry_contribute_ip_forwarding. destruct (entry_lb f !! fei) as [x|] eqn:E; [|done].
    destruct (fi_live _ Hf _ _ E) as (l & k & Hg). by apply Hfresh_entry in Hg. }
  rewrite Z.eqb_refl. cbn [negb]. set (f1 := with_entry_lb _ f).
  assert (fib_entry_contribute_ip_forwarding f1 fei = lb) as ->.
  { unfold f1, fib_entry_contribute_ip_forwarding. cbn [with_entry_lb entry_lb]. by rewrite lookup_insert_eq. }
  rewrite (proj2 (Z.eqb_neq lb INDEX_INVALID)) by (unfold lb_ok, INDEX_INVALID, u32_max in *; lia). cbn [negb assert mbind option_bind].
  unfold ip4_fib_table_fwding_dpo_update.
  destruct (add_rel f1 (route f) addr len lb (fi_rel _ Hf) Haddr Hlen Hlb) as (m' & -> & Hm'). cbn [mbind option_bind].
  unfold ip4_fib_table_entry_insert. fold (maskz len addr). fold key.
  cbn [with_mtrie fib_entry_by_dst_address f1 with_entry_lb].
  destruct (vget_in_range (fib_entry_by_dst_address f) len) as [x Hx]; [rewrite (fi_tables _ Hf); lia|].
  assert (h = x) as Hh by (subst h; by rewrite Hx).
  rewrite Hx. cbn [mbind option_bind]. assert (x !! key = None) as -> by (rewrite <-(table_get f len x key Hx); exact Hnew).
  eexists. split; [done|]. unfold with_tables, with_mtrie. cbn [entry_lb mtrie]. rewrite <-Hh. fold tables.
  split; [by apply add_inv|]. split; [apply add_hash_get|apply add_route].
Qed.
End add.

(** ** Removing a route *)

Section del.
Context (f : ip4_fib) (addr len fei : Z).
Hypothesis Hf : fib_inv f.
Hypothesis Haddr : in_u32 addr.
Hypothesis Hlen : 0 ≤ len ≤ 32.
Hypothesis Hget : hash_get f len (maskz len addr) = Some fei.

Let key := maskz len addr.
Let h := default ∅ (vget (fib_entry_by_dst_address f) len).
Let tables := vset (fib_entry_by_dst_address f) len (delete key h).

Lemma del_hash_get m len' key' :
  hash_get (Mtrie.Fib tables (delete fei (entry_lb f)) m) len' key' = entry_set f len key None len' key'.
Proof using Hf Hlen.
  unfold tables, entry_set. rewrite hash_get_vset, (fi_tables _ Hf).
  assert (vget (fib_entry_by_dst_address f) len = Some h) as Hh.
  { subst h. destruct (vget_in_range (fib_entry_by_dst_address f) len) as [x Hx]; [rewrite (fi_tables _ Hf); lia|].
    by rewrite Hx. }
  case_decide as Hd.
  - destruct Hd as [<- _]. rewrite Z.eqb_refl. simpl. destruct (key' =? key) eqn:E; bool_to_prop.
    + subst key'. by rewrite lookup_delete_eq.
    + rewrite lookup_delete_ne by done. by rewrite <-table_get with (f := f) (len := len).
  - rewrite (proj2 (Z.eqb_neq len' len)); [done|]. intros ->. apply Hd. lia.
Qed.

Lemma del_case m len' key' fei' :
  hash_get (Mtrie.Fib tables (delete fei (entry_lb f)) m) len' key' = Some fei' →
  hash_get f len' key' = Some fei' ∧ fei' ≠ fei ∧
  fib_entry_contribute_ip_forwarding (Mtrie.Fib tables (delete fei (entry_lb f)) m) fei' =
  fib_entry_contribute_ip_forwarding f fei'.
Proof using Hf Hlen Hget.
  rewrite del_hash_get. unfold entry_set.
  destruct (_ && _) eqn:E; [done|]. intros Hg. split; [done|].
  assert (fei' ≠ fei) as Hne.
  { intros ->. destruct (fi_unique _ Hf _ _ _ _ _ _ Hg Hget) as [-> Hk]; [by left|].
    subst key'. unfold key in E. by rewrite !Z.eqb_refl in E. }
  split; [done|]. unfold fib_entry_contribute_ip_forwarding. cbn [entry_lb]. by rewrite lookup_delete_ne.
Qed.

Lemma del_route m len' key' :
  route (Mtrie.Fib tables (delete fei (entry_lb f)) m) len' key' = route_set (route f) len key None len' key'.
Proof using Hf Hlen Hget.
  unfold route at 1. destruct (hash_get _ len' key') as [fei'|] eqn:E.
  - pose proof (del_case m _ _ _ E) as (Hg & _ & Hc). cbn [mbind option_bind]. rewrite Hc.
    rewrite del_hash_get in E. unfold entry_set in E. unfold route_set, route.
    destruct (_ && _); [done|]. by rewrite Hg.
  - rewrite del_hash_get in E. unfold entry_set in E. unfold route_set, route.
    destruct (_ && _); [done|]. by rewrite E.
Qed.

Lemma del_inv m : mtrie_rel m (route_set (route f) len key None) →
  fib_inv (Mtrie.Fib tables (delete fei (entry_lb f)) m).
Proof using Hf Hlen Hget.
  intros Hm. pose proof (del_case m) as Hcase. split.
  - eapply mtrie_rel_ext; [|exact Hm]. intros. symmetry. apply del_route.
  - cbn [fib_entry_by_dst_address]. unfold tables. rewrite zlen_vset. apply Hf.
  - intros len' key' fei' (E & _ & ->)%Hcase. by apply (fi_entry _ Hf _ _ _ E).
  - intros len' key' fei' (E & _)%Hcase. by apply (fi_key _ Hf _ _ _ E).
  - intros l1 k1 l2 k2 f1 f2 (E1 & _ & ->)%Hcase (E2 & _ & ->)%Hcase. by apply (fi_unique _ Hf).
  - intros fei' lb'. cbn [entry_lb]. intros [Hne E]%lookup_delete_Some.
    destruct (fi_live _ Hf _ _ E) as (l & k & Hg). exists l, k. rewrite del_hash_get. unfold entry_set.
    destruct (l =? len) eqn:E1, (k =? key) eqn:E2; bool_to_prop; simpl; try done.
    subst l k. unfold key in Hg. congruence.
Qed.

(** The whole operation: no assertion fails, and exactly this route is removed. *)
Lemma entry_delete_ok :
  ∃ f', fib_table_entry_delete f addr len = Some f' ∧ fib_inv f' ∧
    (∀ len' key', hash_get f' len' key' = entry_set f len key None len' key') ∧
    ∀ len' key', route f' len' key' = route_set (route f) len key None len' key'.
Proof using Hf Haddr Hlen Hget.
  unfold fib_table_entry_delete. rewrite lookup_exact, Hget. cbn [from_option id].
  pose proof (fi_entry _ Hf _ _ _ Hget) as [Hne Hr]. rewrite (proj2 (Z.eqb_neq _ _) Hne).
  unfold fib_entry_src_action_uninstall, fe_lb_is_valid.
  rewrite (proj2 (Z.eqb_neq (fib_entry_contribute_ip_forwarding f fei) INDEX_INVALID)) by (unfold lb_ok, INDEX_INVALID, u32_max in *; lia).
  cbn [negb]. unfold ip4_fib_table_fwding_dpo_remove.
  destruct (del_rel f (fi_rel _ Hf) (route_range f Hf) (route_unique f Hf) addr len (fib_entry_contribute_ip_forwarding f fei))
    as (m' & -> & Hm'); [done|done| |].
  { by rewrite (route_entry f Hf), Hget. }
  cbn [mbind option_bind]. unfold ip4_fib_table_entry_remove. fold (maskz len addr). fold key.
  cbn [with_mtrie fib_entry_by_dst_address with_entry_lb].
  destruct (vget_in_range (fib_entry_by_dst_address f) len) as [x Hx]; [rewrite (fi_tables _ Hf); lia|].
  assert (h = x) as Hh by (subst h; by rewrite Hx).
  rewrite Hx. cbn [mbind option_bind]. eexists. split; [done|].
  unfold with_tables, with_mtrie, with_entry_lb. cbn [entry_lb mtrie]. rewrite <-Hh. fold tables.
  split; [by apply del_inv|]. split; [apply del_hash_get|apply del_route].
Qed.
End del.

(** ** An empty FIB *)

Lemma get_empty p ply i l :
  get_ply p 0 = Some ply → ply = ply_init 1 0 → vget (leaves ply) i = Some l → l = 1.
Proof. intros _ -> Hl. by apply vget_elem, elem_of_replicate in Hl as [-> _]. Qed.

Definition root_path : paths := λ q, if q =? 0 then Some (4%nat, 0) else None.

Lemma init_ok : ∃ m, ip4_mtrie_init = Some m ∧ mtrie_rel m (λ _ _, None).
Proof.
  unfold ip4_mtrie_init, ply_create. cbn [ply_pool].
  destruct (pool_get zero_ply pool_null) as [pl i] eqn:Hg.
  destruct (pool_get_ok _ _ _ _ pool_null_ok ltac:(done) Hg) as (Hok & _ & Hlive & Hoth & _ & Hlen & _).
  assert (i = 0) as -> by (vm_compute in Hg; congruence).
  cbn [ply_pool with_pool mbind option_bind]. set (m := set_ply _ _ _). exists m. split; [reflexivity|].
  assert (∀ q, get_ply m q = if decide (q = 0) then Some (ply_init 1 0) else None) as Hget.
  { intros q. unfold m. rewrite get_set_ply by exact Hlive. case_decide; [done|].
    unfold get_ply. cbn [with_pool ply_pool]. rewrite Hoth by done. by apply elt_None; [apply pool_null_ok|]; intros [Hr _]; change (pool_len pool_null) with 0 in Hr; lia. }
  assert (∀ q n v, root_path q = Some (n, v) → q = 0 ∧ n = 4%nat ∧ v = 0) as Hroot.
  { intros q n v. unfold root_path. case_cond; [|done]. by intros [= <- <-]. }
  assert (mok m root_path) as Hm.
  { split.
    - apply pool_set_ok, Hok.
    - unfold m. cbn [set_ply with_pool ply_pool]. rewrite pool_set_len. unfold max_plies. change (pool_len pool_null) with 0 in Hlen. lia.
    - intros q. rewrite Hget. unfold root_path. case_decide; case_cond; split; intros [? ?]; done || lia || by eexists.
    - done.
    - intros q n v (-> & -> & ->)%Hroot. cbn. lia.
    - intros q1 q2 [n v] (-> & _)%Hroot (-> & _)%Hroot. done.
    - intros q n v (_ & -> & _)%Hroot ?. lia.
    - intros q n v ply (-> & Hn & ->)%Hroot. rewrite Hget. intros [= <-]. apply ply_init_ok; [done|by left]. }
  split; [by exists root_path| |done].
  intros addr Ha. rewrite best_none by done.
  destruct (cell m root_path Hm 0 3 0 (byte 3 addr) eq_refl (byte_range 3 addr)) as (ply & l & t & Hply & Hpok & Hl & Ht & Hc).
  pose proof Hply as Hply'. rewrite Hget in Hply'. cbn in Hply'. injection Hply' as <-.
  apply (get_empty m) in Hl as Hl1; [|done|done]. subst l.
  rewrite (walk_cell m 3 0 addr _ 1 t Hply Hl Ht eq_refl).
  apply vget_elem, elem_of_replicate in Ht as [-> _]. done.
Qed.

Lemma create_fib_ok : ∃ f, ip4_create_fib = Some f ∧ fib_inv f ∧ ∀ len key, hash_get f len key = None.
Proof.
  unfold ip4_create_fib. destruct init_ok as (m & -> & Hm). cbn [mbind option_bind].
  eexists. split; [done|]. set (f := Mtrie.Fib _ _ _).
  assert (∀ len key, hash_get f len key = None) as Hempty.
  { intros len key. unfold hash_get, f. cbn [fib_entry_by_dst_address].
    destruct (vget _ len) as [h|] eqn:E; [|done]. apply vget_elem, elem_of_replicate in E as [-> _]. done. }
  split; [|done]. split.
  - eapply mtrie_rel_ext; [|exact Hm]. intros len key. unfold route. by rewrite Hempty.
  - done.
  - intros len key fei. by rewrite Hempty.
  - intros len key fei. by rewrite Hempty.
  - intros l k l' k' fei fei'. by rewrite Hempty.
  - done.
Qed.

(** ** The lookups *)

(** The four steps: what a leaf says of the rest of the address. *)
Definition leaf_at (m : ip4_fib_mtrie) (P : paths) (addr : Z) (n : nat) (l x : Z) : Prop :=
  (Z.odd l = true ∧ x = l) ∨
  ∃ p v t, l = 2 * p ∧ 0 ≤ p < 2 ^ 31 ∧ P p = Some (n, v) ∧ pre n addr = v ∧ walk n m p addr = Some (x, t).

Lemma leaf_at_0 m P addr l x : mok m P → leaf_at m P addr 0 l x → Z.odd l = true ∧ x = l.
Proof.
  intros Hm [?|(p & v & t & _ & _ & HP & _)]; [done|]. apply (mk_depth _ _ Hm) in HP. lia.
Qed.

(** The leaf of the next ply. *)
Lemma leaf_at_next m P addr n p x v t :
  mok m P → P p = Some (S n, v) → pre (S n) addr = v → walk (S n) m p addr = Some (x, t) →
  ∃ ply l, get_ply m p = Some ply ∧ vget (leaves ply) (byte n addr) = Some l ∧ leaf_at m P addr n l x.
Proof.
  intros Hm HP Ha Hw.
  destruct (cell m P Hm p n v (byte n addr) HP (byte_range n addr)) as (ply & l & t' & Hply & _ & Hl & Ht & Hc).
  exists ply, l. split; [done|]. split; [done|].
  cbn [walk] in Hw. rewrite Hply in Hw. cbn [mbind option_bind] in Hw. rewrite Hl in Hw. cbn [mbind option_bind] in Hw.
  rewrite Ht in Hw. cbn [mbind option_bind] in Hw.
  destruct Hc as [[Ho _]|(j & -> & _ & Hj & _ & HPj)].
  - left. rewrite Ho in Hw. split; [done|congruence].
  - right. rewrite odd_double, double_half in Hw. exists j, (v * 256 + byte n addr), t.
    split; [done|]. split; [lia|]. split; [done|]. split; [|done]. by rewrite (pre_split n), Ha.
Qed.

Lemma get_ply_elts m P p ply : mok m P → get_ply m p = Some ply → vget (elts (ply_pool m)) p = Some ply.
Proof.
  intros Hm. unfold get_ply, pool_elt_at_index. by case_match.
Qed.

Lemma lookup_step_ok m P addr n l x :
  mok m P → (n < 4)%nat → leaf_at m P addr (S n) l x →
  ∃ l', ip4_fib_mtrie_lookup_step m l addr (3 - Z.of_nat n) = Some l' ∧ leaf_at m P addr n l' x.
Proof.
  intros Hm Hn Hl. unfold ip4_fib_mtrie_lookup_step. rewrite is_terminal_odd, as_u8_byte by done.
  destruct Hl as [[Ho ->]|(p & v & t & -> & Hp & HP & Ha & Hw)].
  - rewrite Ho. destruct (cell m P Hm 0 3 0 (byte n addr) (mk_root _ _ Hm) (byte_range n addr))
      as (ply & l' & _ & Hply & _ & Hl' & _).
    rewrite (get_ply_elts m P 0 ply Hm Hply). cbn [mbind option_bind]. rewrite Hl'. cbn [mbind option_bind].
    exists l. split; [done|]. by left.
  - rewrite odd_double, Z.shiftr_div_pow2 by lia. change (2 ^ 1) with 2. rewrite double_half.
    destruct (leaf_at_next m P addr n p x v t Hm HP Ha Hw) as (ply & l' & Hply & Hl' & Hat).
    rewrite (get_ply_elts m P p ply Hm Hply). cbn [mbind option_bind]. rewrite Hl'. cbn [mbind option_bind]. eauto.
Qed.

Lemma forwarding_steps m P addr x t :
  mok m P → in_u32 addr → walk 4 m 0 addr = Some (x, t) → ∀ A (K : Z → option A),
  (leaf ← ip4_fib_mtrie_lookup_step m IP4_FIB_MTRIE_LEAF_ROOT addr 0;
   leaf ← ip4_fib_mtrie_lookup_step m leaf addr 1;
   leaf ← ip4_fib_mtrie_lookup_step m leaf addr 2;
   leaf ← ip4_fib_mtrie_lookup_step m leaf addr 3; K leaf) = K x ∧ Z.odd x = true.
Proof.
  intros Hm Ha Hw A K.
  assert (leaf_at m P addr 4 IP4_FIB_MTRIE_LEAF_ROOT x) as H0.
  { right. exists 0, 0, t. split; [done|]. split; [lia|]. split; [apply Hm|]. split; [by apply pre4|done]. }
  destruct (lookup_step_ok m P addr 3 _ x Hm ltac:(lia) H0) as (l1 & E1 & H1).
  destruct (lookup_step_ok m P addr 2 _ x Hm ltac:(lia) H1) as (l2 & E2 & H2).
  destruct (lookup_step_ok m P addr 1 _ x Hm ltac:(lia) H2) as (l3 & E3 & H3).
  destruct (lookup_step_ok m P addr 0 _ x Hm ltac:(lia) H3) as (l4 & E4 & H4).
  change (3 - Z.of_nat 3) with 0 in E1. change (3 - Z.of_nat 2) with 1 in E2.
  change (3 - Z.of_nat 1) with 2 in E3. change (3 - Z.of_nat 0) with 3 in E4. rewrite E1. cbn [mbind option_bind]. rewrite E2. cbn [mbind option_bind].
  rewrite E3. cbn [mbind option_bind]. rewrite E4. cbn [mbind option_bind].
  by destruct (leaf_at_0 _ _ _ _ _ Hm H4) as [? ->].
Qed.

(** [ip4_mtrie_lookup_address] finds the same leaf. *)
Lemma lookup_address_ok m P addr x t :
  mok m P → in_u32 addr → walk 4 m 0 addr = Some (x, t) →
  ip4_mtrie_lookup_address m addr = ip4_fib_mtrie_leaf_get_adj_index x.
Proof.
  intros Hm Ha Hw. unfold ip4_mtrie_lookup_address.
  assert (∀ n l, (n < 3)%nat → leaf_at m P addr (S n) l x → Z.odd l = false →
    ∃ c ply l', get_next_ply_for_leaf m l = Some c ∧ get_ply m c = Some ply ∧
      vget (leaves ply) (as_u8 addr (3 - Z.of_nat n)) = Some l' ∧ leaf_at m P addr n l' x) as Hnext.
  { intros n l Hn [[Ho _]|(p & v & t' & -> & Hp & HP & Hpre & Hwp)] Hev; [congruence|].
    destruct (leaf_at_next m P addr n p x v t' Hm HP Hpre Hwp) as (ply & l' & Hply & Hl' & Hat).
    exists p, ply, l'. rewrite as_u8_byte by lia. split; [|done].
    apply (next_ply_ok m P Hm p (S n, v) HP).
    assert (p ≠ 0) by (intros ->; rewrite (mk_root _ _ Hm) in HP; injection HP; lia). lia. }
  destruct (leaf_at_next m P addr 3 0 x 0 t Hm (mk_root _ _ Hm)) as (ply & l0 & -> & H0 & Hat0); [by apply pre4|done|].
  cbn [mbind option_bind]. change 0 with (3 - Z.of_nat 3). rewrite as_u8_byte, H0 by lia. cbn [mbind option_bind].
  rewrite is_terminal_odd. destruct (Z.odd l0) eqn:E0.
  { destruct Hat0 as [[_ ->]|(p & ? & ? & -> & _)]; [done|by rewrite odd_double in E0]. }
  destruct (Hnext 2%nat l0 ltac:(lia) Hat0 E0) as (c1 & p1 & l1 & -> & E & H1 & Hat1).
  cbn [mbind option_bind]. rewrite E. cbn [mbind option_bind]. change (3 - Z.of_nat 2) with 1 in H1. rewrite H1. cbn [mbind option_bind].
  rewrite is_terminal_odd. destruct (Z.odd l1) eqn:E1.
  { destruct Hat1 as [[_ ->]|(p & ? & ? & -> & _)]; [done|by rewrite odd_double in E1]. }
  destruct (Hnext 1%nat l1 ltac:(lia) Hat1 E1) as (c2 & p2 & l2 & -> & E' & H2 & Hat2).
  cbn [mbind option_bind]. rewrite E'. cbn [mbind option_bind]. change (3 - Z.of_nat 1) with 2 in H2. rewrite H2. cbn [mbind option_bind].
  rewrite is_terminal_odd. destruct (Z.odd l2) eqn:E2.
  { destruct Hat2 as [[_ ->]|(p & ? & ? & -> & _)]; [done|by rewrite odd_double in E2]. }
  destruct (Hnext 0%nat l2 ltac:(lia) Hat2 E2) as (c3 & p3 & l3 & -> & E'' & H3 & Hat3).
  cbn [mbind option_bind]. rewrite E''. cbn [mbind option_bind]. change (3 - Z.of_nat 0) with 3 in H3. rewrite H3. cbn [mbind option_bind].
  destruct (leaf_at_0 _ _ _ _ _ Hm Hat3) as [Ho ->]. by rewrite is_terminal_odd, Ho.
Qed.

(** The longest prefix match over the routes, the /0 included. *)
Fixpoint lpm (R : routes) (addr : Z) (n : nat) : option Z :=
  match R (Z.of_nat n) (maskz (Z.of_nat n) addr) with
  | Some lb => Some lb
  | None => match n with O => None | S n => lpm R addr n end
  end.

Lemma lpm_best R addr n :
  in_u32 addr → (∀ len key lb, R len key = Some lb → lb_ok len lb) →
  (if (best_from R addr n).1 =? IP4_FIB_MTRIE_LEAF_EMPTY
   then match R 0 0 with Some lb => 1 + 2 * lb | None => IP4_FIB_MTRIE_LEAF_EMPTY end
   else (best_from R addr n).1) =
  match lpm R addr n with Some lb => 1 + 2 * lb | None => IP4_FIB_MTRIE_LEAF_EMPTY end.
Proof.
  intros Ha Hr. induction n as [|n IH].
  - cbn [best_from lpm fst]. rewrite Z.eqb_refl. change (Z.of_nat 0) with 0. rewrite maskz_0 by done. by destruct (R 0 0).
  - cbn [best_from lpm]. destruct (R (Z.of_nat (S n)) _) as [lb|] eqn:E; [|exact IH].
    cbn [fst]. apply Hr in E as [? ?]. unfold IP4_FIB_MTRIE_LEAF_EMPTY. by rewrite (proj2 (Z.eqb_neq _ _)) by lia.
Qed.

Lemma table_lookup_lpm f addr n :
  fib_inv f →
  let fei := fib_table_lookup_from f addr n in
  (if negb (fei =? FIB_NODE_INDEX_INVALID) then fib_entry_contribute_ip_forwarding f fei else INDEX_INVALID) =
  default INDEX_INVALID (lpm (route f) addr n).
Proof.
  intros Hf. induction n as [|n IH]; cbn [fib_table_lookup_from lpm]; rewrite (route_entry f Hf);
    fold (maskz (Z.of_nat 0) addr); unfold maskz in *;
    (destruct (hash_get f _ _) as [fei|] eqn:E;
     [pose proof (fi_entry _ Hf _ _ _ E) as [Hne _]; by rewrite (proj2 (Z.eqb_neq _ _) Hne)|]); done.
Qed.

Lemma lookup_lb f addr :
  fib_inv f → in_u32 addr →
  ip4_fib_table_lookup_lb f addr = default INDEX_INVALID (lpm (route f) addr 32) ∧
  ip4_fib_forwarding_lookup f addr = Some (default 0 (lpm (route f) addr 32)) ∧
  ip4_lookup_validate f addr = Some (bool_decide (is_Some (lpm (route f) addr 32))).
Proof.
  intros Hf Ha.
  assert (ip4_fib_table_lookup_lb f addr = default INDEX_INVALID (lpm (route f) addr 32)) as Htab
    by exact (table_lookup_lpm f addr 32 Hf).
  split; [done|].
  destruct (mr_ok _ _ (fi_rel _ Hf)) as [P HP]. pose proof (mr_walk _ _ (fi_rel _ Hf) addr Ha) as Hw.
  pose proof (lpm_best (route f) addr 32 Ha (route_range f Hf)) as Hlpm.
  rewrite <-(mr_default _ _ (fi_rel _ Hf)) in Hlpm.
  destruct (best_from (route f) addr 32) as [x t] eqn:Hb. cbn [fst] in Hlpm.
  assert (∀ lb, lpm (route f) addr 32 = Some lb → 0 ≤ lb < 2 ^ 31) as Hrange.
  { intros lb. generalize 32%nat as n. induction n as [|n IH]; cbn [lpm]; (destruct (route f _ _) as [lb'|] eqn:E; [intros [= <-]; by apply (route_range f Hf) in E as [? _]|done]). }
  assert (ip4_fib_mtrie_leaf_get_adj_index (if x =? IP4_FIB_MTRIE_LEAF_EMPTY then default_leaf (mtrie f) else x)
    = Some (default 0 (lpm (route f) addr 32))) as Hadj.
  { rewrite Hlpm. unfold ip4_fib_mtrie_leaf_get_adj_index. rewrite is_terminal_odd.
    destruct (lpm (route f) addr 32) as [lb|] eqn:El; [|done]. rewrite odd_adj. cbn [assert mbind option_bind].
    rewrite Z.shiftr_div_pow2 by lia. change (2 ^ 1) with 2. f_equal. simpl.
    symmetry. apply (Z.div_unique_pos _ _ _ 1); lia. }
  split.
  - unfold ip4_fib_forwarding_lookup. cbv zeta.
    etransitivity; [exact (proj1 (forwarding_steps (mtrie f) P addr x t HP Ha Hw _ _))|done].
  - unfold ip4_lookup_validate. cbv zeta.
    etransitivity; [exact (proj1 (forwarding_steps (mtrie f) P addr x t HP Ha Hw _ _))|].
    rewrite Hadj. cbn [mbind option_bind].
    rewrite Htab. f_equal. destruct (lpm (route f) addr 32) as [lb|] eqn:El; cbn [from_option id].
    + by rewrite Z.eqb_refl, bool_decide_true by by eexists.
    + by rewrite bool_decide_false by by intros [? ?].
Qed.

(** ** Reachable FIBs

    A FIB is created empty; sources add and remove prefixes.  A new entry and its
    load-balance object have indices not in use, as their pools give them.  Object 0 is
    not given to a prefix in the plies: it is the first one created, which is that of
    the default route of the first table ([ip4_specials], [ip4_lookup_init]). *)

Record fresh (f : ip4_fib) (len fei lb : Z) : Prop := {
  fr_entry : fei ≠ FIB_NODE_INDEX_INVALID ∧ ∀ len' key, hash_get f len' key ≠ Some fei;
  fr_lb : lb_ok len lb ∧ ∀ fei', entry_lb f !! fei' ≠ Some lb;
}.

Definition prefix_ok (addr len : Z) : Prop := in_u32 addr ∧ 0 ≤ len ≤ 32.

Inductive fib_reachable : ip4_fib → Prop :=
  | reach_create f : ip4_create_fib = Some f → fib_reachable f
  | reach_add f f' addr len fei lb :
      fib_reachable f → prefix_ok addr len → fresh f len fei lb →
      fib_table_entry_add f addr len fei lb = Some f' → fib_reachable f'
  | reach_delete f f' addr len :
      fib_reachable f → prefix_ok addr len → fib_table_entry_delete f addr len = Some f' → fib_reachable f'.

(** Adding a prefix that has an entry leaves its object in place; deleting one that
    has none does nothing. *)
Lemma entry_add_present f addr len fei lb fei0 :
  fib_inv f → hash_get f len (maskz len addr) = Some fei0 → fib_table_entry_add f addr len fei lb = Some f.
Proof.
  intros Hf Hget. unfold fib_table_entry_add. rewrite lookup_exact, Hget. cbn [from_option id].
  pose proof (fi_entry _ Hf _ _ _ Hget) as [Hne Hr]. rewrite (proj2 (Z.eqb_neq _ _) Hne).
  unfold fib_entry_src_action_install, fe_lb_is_valid.
  assert (fib_entry_contribute_ip_forwarding f fei0 =? INDEX_INVALID = false) as Hv
    by (apply Z.eqb_neq; unfold lb_ok, INDEX_INVALID, u32_max in *; lia).
  rewrite Hv. cbn [negb]. by rewrite Hv.
Qed.

Lemma entry_delete_absent f addr len :
  hash_get f len (maskz len addr) = None → fib_table_entry_delete f addr len = Some f.
Proof. intros Hget. unfold fib_table_entry_delete. by rewrite lookup_exact, Hget. Qed.

Lemma reachable_inv f : fib_reachable f → fib_inv f.
Proof.
  induction 1 as [f Hc|f f' addr len fei lb _ IH [Ha Hl] [[He1 He2] [Hb1 Hb2]] Hs|f f' addr len _ IH [Ha Hl] Hs].
  - destruct create_fib_ok as (f' & Hc' & Hf & _). congruence.
  - destruct (hash_get f len (maskz len addr)) as [fei0|] eqn:E.
    + rewrite (entry_add_present f addr len fei lb fei0 IH E) in Hs. congruence.
    + destruct (entry_add_ok f addr len fei lb) as (f1 & Hs1 & Hf1 & _); try done. congruence.
  - destruct (hash_get f len (maskz len addr)) as [fei0|] eqn:E.
    + destruct (entry_delete_ok f addr len fei0) as (f1 & Hs1 & Hf1 & _); try done. congruence.
    + rewrite (entry_delete_absent f addr len E) in Hs. congruence.
Qed.

Lemma lpm_ext R R' addr n : (∀ len key, R len key = R' len key) → lpm R addr n = lpm R' addr n.
Proof. intros H. induction n as [|n IH]; cbn [lpm]; rewrite H; [done|]. by rewrite IH. Qed.

(** Two prefixes: 0.0.0.0/0 through object 5 and 10.0.0.0/8 through object 7. *)
Definition two_routes : routes :=
  route_set (route_set (λ _ _, None) 0 0 (Some 5)) 8 167772160 (Some 7).

Lemma fresh_after f f' addr len len2 fei fei2 lb lb2 :
  fib_inv f → fib_inv f' → fresh f len2 fei2 lb2 → fei2 ≠ fei → lb2 ≠ lb → lb_ok len lb →
  (∀ l k, hash_get f' l k = entry_set f len (maskz len addr) (Some fei) l k) →
  (∀ l k, route f' l k = route_set (route f) len (maskz len addr) (Some lb) l k) → fresh f' len2 fei2 lb2.
Proof.
  intros Hf Hf' [[He1 He2] [Hb1 Hb2]] Hne Hnb Hlb Ht Hr. split; (split; [done|]).
  - intros l k. rewrite Ht. unfold entry_set. case_match; [congruence|apply He2].
  - intros fei' E. destruct (fi_live _ Hf' _ _ E) as (l & k & Hg).
    pose proof (Hr l k) as Hrl. rewrite (route_entry f' Hf'), Hg in Hrl. cbn [fmap option_fmap option_map] in Hrl.
    unfold fib_entry_contribute_ip_forwarding in Hrl. rewrite E in Hrl. cbn [from_option id] in Hrl.
    unfold route_set in Hrl. destruct (_ && _); [congruence|].
    rewrite (route_entry f Hf) in Hrl. destruct (hash_get f l k) as [fei0|] eqn:E0; [|done].
    cbn [fmap option_fmap option_map] in Hrl. unfold fib_entry_contribute_ip_forwarding in Hrl.
    destruct (entry_lb f !! fei0) as [lb0|] eqn:El; cbn [from_option id] in Hrl.
    + apply (Hb2 fei0). rewrite El. congruence.
    + pose proof (fi_entry _ Hf _ _ _ E0) as [_ [Hc _]]. unfold fib_entry_contribute_ip_forwarding in Hc.
      rewrite El in Hc. cbn [from_option id] in Hc. unfold INDEX_INVALID, u32_max in Hc. lia.
Qed.

Lemma entry_add_fresh f addr len fei lb :
  fib_inv f → prefix_ok addr len → fresh f len fei lb → hash_get f len (maskz len addr) = None →
  ∃ f', fib_table_entry_add f addr len fei lb = Some f' ∧ fib_inv f' ∧
    (∀ l k, hash_get f' l k = entry_set f len (maskz len addr) (Some fei) l k) ∧
    ∀ l k, route f' l k = route_set (route f) len (maskz len addr) (Some lb) l k.
Proof. intros Hf [Ha Hl] [[He1 He2] [Hb1 Hb2]] E. by apply entry_add_ok. Qed.

Lemma two_routes_reachable :
  ∃ f, fib_reachable f ∧ (∀ l k, route f l k = two_routes l k) ∧
    (∀ l k, hash_get f l k = if (l =? 8) && (k =? 167772160) then Some 2 else if (l =? 0) && (k =? 0) then Some 1 else None) ∧
    fresh f 16 3 9.
Proof.
  destruct create_fib_ok as (f0 & Hc & Hf0 & He).
  assert (∀ len fei lb, fei ≠ FIB_NODE_INDEX_INVALID → lb_ok len lb → fresh f0 len fei lb) as Hfresh0.
  { intros len fei lb Hfei Hlb. split; (split; [done|]).
    - intros l k. by rewrite He.
    - intros fei' (l & k & Hg)%(fi_live _ Hf0). by rewrite He in Hg. }
  assert (∀ len lb, 1 ≤ lb < 100 → lb_ok len lb) as Hlbok by (unfold lb_ok; intros; lia).
  destruct (entry_add_fresh f0 0 0 1 5) as (f1 & Hs1 & Hf1 & Ht1 & Hr1); [done|by split|apply Hfresh0; [done|by apply Hlbok]|apply He|].
  assert (∀ len fei lb, fei ≠ FIB_NODE_INDEX_INVALID → fei ≠ 1 → lb ≠ 5 → lb_ok len lb → fresh f1 len fei lb) as Hfresh1.
  { intros. apply (fresh_after f0 f1 0 0 len 1 fei 5 lb); try done; [by apply Hfresh0|by apply Hlbok]. }
  assert (fresh f1 8 2 7) as Hfr by (apply Hfresh1; try done; by apply Hlbok).
  assert (hash_get f1 8 (maskz 8 167772161) = None) as Hg1 by (rewrite Ht1; unfold entry_set; by rewrite He).
  destruct (entry_add_fresh f1 167772161 8 2 7) as (f2 & Hs2 & Hf2 & Ht2 & Hr2); [done|by split|done|done|].
  exists f2. split.
  { eapply reach_add; [| |exact Hfr|exact Hs2]; [|by split].
    eapply reach_add; [by apply reach_create| |apply (Hfresh0 0 1 5); [done|by apply Hlbok]|exact Hs1]. by split. }
  split; [|split].
  - intros l k. rewrite Hr2. unfold two_routes. change (maskz 8 167772161) with 167772160. unfold route_set at 1 2.
    case_match; [done|]. rewrite Hr1. unfold route_set. change (maskz 0 0) with 0. case_match; [done|].
    unfold route. by rewrite He.
  - intros l k. rewrite Ht2. unfold entry_set. change (maskz 8 167772161) with 167772160. case_match; [done|].
    rewrite Ht1. unfold entry_set. change (maskz 0 0) with 0. by rewrite He.
  - apply (fresh_after f1 f2 167772161 8 16 2 3 7 9); try done; [|by apply Hlbok].
    apply Hfresh1; try done. by apply Hlbok.
Qed.

(** C24: in every reachable FIB and for every address, the lookup of the forwarding path
    (the four steps through the mtrie, then the default leaf) returns, without leaving
    the plies, the load-balance object of the longest prefix of the tables that matches
    the address (0 when none does), and [ip4_lookup_validate], which compares it with
    the lookup in the tables, answers yes exactly when some prefix matches. *)
Theorem fib_forwarding_longest_match f addr :
  fib_reachable f → in_u32 addr →
  ip4_fib_forwarding_lookup f addr = Some (default 0 (lpm (route f) addr 32)) ∧
  ip4_fib_table_lookup_lb f addr = default INDEX_INVALID (lpm (route f) addr 32) ∧
  ip4_lookup_validate f addr = Some (bool_decide (is_Some (lpm (route f) addr 32))).
Proof.
  intros Hf%reachable_inv Ha. destruct (lookup_lb f addr Hf Ha) as (H1 & H2 & H3). done.
Qed.

Lemma fib_forwarding_longest_match_witness :
  ∃ f, fib_reachable f ∧
    ip4_fib_forwarding_lookup f 167838211 = Some 7 ∧ ip4_fib_forwarding_lookup f 184549377 = Some 5 ∧
    ip4_lookup_validate f 167838211 = Some true.
Proof.
  destruct two_routes_reachable as (f & Hf & Hr & _). exists f. split; [exact Hf|].
  destruct (fib_forwarding_longest_match f 167838211 Hf) as (H1 & _ & H2); [by split|].
  destruct (fib_forwarding_longest_match f 184549377 Hf) as (H3 & _); [by split|].
  rewrite (lpm_ext _ two_routes _ _ Hr) in H1, H2. rewrite (lpm_ext _ two_routes _ _ Hr) in H3. split; [exact H1|]. split; [exact H3|exact H2].
Defined.

(** C25: in a reachable FIB, adding a prefix without an entry, and removing one that has
    an entry, succeed (no assertion of the mtrie fails, no ply is missing); the tables and
    the set of routes change at that prefix only; adding a prefix that is there and
    removing one that is not change nothing. *)
Theorem fib_add_delete_spec f addr len fei lb :
  fib_reachable f → prefix_ok addr len → fresh f len fei lb →
  (∃ f', fib_table_entry_add f addr len fei lb = Some f' ∧ fib_reachable f' ∧
    match hash_get f len (maskz len addr) with
    | Some _ => f' = f
    | None => (∀ l k, hash_get f' l k = entry_set f len (maskz len addr) (Some fei) l k) ∧
              (∀ l k, route f' l k = route_set (route f) len (maskz len addr) (Some lb) l k)
    end) ∧
  (∃ f', fib_table_entry_delete f addr len = Some f' ∧ fib_reachable f' ∧
    match hash_get f len (maskz len addr) with
    | None => f' = f
    | Some _ => (∀ l k, hash_get f' l k = entry_set f len (maskz len addr) None l k) ∧
                (∀ l k, route f' l k = route_set (route f) len (maskz len addr) None l k)
    end).
Proof.
  intros Hreach Hp Hfr. pose proof (reachable_inv f Hreach) as Hf.
  pose proof Hp as [Ha Hl]. pose proof Hfr as [[He1 He2] [Hb1 Hb2]].
  destruct (hash_get f len (maskz len addr)) as [fei0|] eqn:E.
  - split.
    + exists f. split; [by eapply entry_add_present|done].
    + destruct (entry_delete_ok f addr len fei0) as (f1 & Hs1 & _ & Ht & Hr); try done.
      exists f1. split; [done|]. split; [by eapply reach_delete|done].
  - split.
    + destruct (entry_add_fresh f addr len fei lb) as (f1 & Hs1 & _ & Ht & Hr); try done.
      exists f1. split; [done|]. split; [by eapply reach_add|done].
    + exists f. split; [by apply entry_delete_absent|done].
Qed.

Lemma fib_add_delete_spec_witness :
  ∃ f f', fib_reachable f ∧ fib_table_entry_add f 167837696 16 3 9 = Some f' ∧
    route f' 16 167837696 = Some 9 ∧ route f' 8 167772160 = Some 7.
Proof.
  destruct two_routes_reachable as (f & Hf & Hr & Ht & Hfr).
  destruct (fib_add_delete_spec f 167837696 16 3 9 Hf) as [(f' & Hs & _ & Heq) _]; [by split|exact Hfr|].
  rewrite Ht in Heq. destruct Heq as [_ Hr']. exists f, f'. split; [exact Hf|]. split; [exact Hs|].
  rewrite !Hr'. unfold route_set. cbn [Z.eqb Pos.eqb andb]. rewrite Hr. done.
Defined.

(** Adding a prefix that has no entry and removing it again gives back the
    forwarding of every address: plies created and leaves pushed down on the way in
    leave no trace in what the lookup returns. *)
Theorem fib_add_delete_roundtrip f addr len fei lb :
  fib_reachable f → prefix_ok addr len → fresh f len fei lb → hash_get f len (maskz len addr) = None →
  ∃ f1 f2, fib_table_entry_add f addr len fei lb = Some f1 ∧ fib_table_entry_delete f1 addr len = Some f2 ∧
    ∀ a, in_u32 a → ip4_fib_forwarding_lookup f2 a = ip4_fib_forwarding_lookup f a ∧
      ip4_fib_table_lookup_lb f2 a = ip4_fib_table_lookup_lb f a.
Proof.
  intros Hf%reachable_inv [Ha Hl] [[He1 He2] [Hb1 Hb2]] E.
  destruct (entry_add_ok f addr len fei lb) as (f1 & Hs1 & Hf1 & Ht1 & Hr1); try done.
  assert (hash_get f1 len (maskz len addr) = Some fei) as E1.
  { rewrite Ht1. unfold entry_set. by rewrite !Z.eqb_refl. }
  destruct (entry_delete_ok f1 addr len fei) as (f2 & Hs2 & Hf2 & Ht2 & Hr2); try done.
  exists f1, f2. split; [done|]. split; [done|]. intros a Hau.
  assert (lpm (route f2) a 32 = lpm (route f) a 32) as Heq.
  { apply lpm_ext. intros l k. rewrite Hr2. unfold route_set. destruct ((l =? len) && (k =? maskz len addr)) eqn:Ek.
    - bool_to_prop. subst l k. unfold route. by rewrite E.
    - rewrite Hr1. unfold route_set. by rewrite Ek. }
  destruct (lookup_lb f2 a Hf2 Hau) as (-> & -> & _), (lookup_lb f a Hf Hau) as (-> & -> & _). by rewrite Heq.
Qed.

Lemma fib_add_delete_roundtrip_witness :
  ∃ f f1 f2, fib_table_entry_add f 167837696 16 3 9 = Some f1 ∧ fib_table_entry_delete f1 167837696 16 = Some f2 ∧
    ip4_fib_forwarding_lookup f2 167838211 = ip4_fib_forwarding_lookup f 167838211.
Proof.
  destruct two_routes_reachable as (f & Hf & Hr & Ht & Hfr).
  destruct (fib_add_delete_roundtrip f 167837696 16 3 9 Hf) as (f1 & f2 & H1 & H2 & H3); [by split|exact Hfr|by rewrite Ht|].
  exists f, f1, f2. split; [exact H1|]. split; [exact H2|]. by apply H3.
Defined.

(** On a trie that represents a set of routes, the insertion of the leaf of a prefix
    replaces exactly the leaves of the addresses of the prefix whose route is not longer,
    and the removal empties exactly the leaves that hold the object; both succeed and
    [ip4_mtrie_lookup_address] sees the result. *)
Theorem mtrie_set_unset_leaf m R addr len lb :
  mtrie_rel m R → prefix_ok addr len → len ≠ 0 → 1 ≤ lb < 2 ^ 31 →
  (∀ l k, R l k ≠ Some lb) →
  ∃ m1 m2 freed, let a := Args (maskz len addr) len lb in
    set_leaf 4 m a 0 0 = Some m1 ∧ unset_leaf 4 m1 a 0 0 = Some (m2, freed) ∧
    ∀ x, in_u32 x →
      ip4_mtrie_lookup_address m x = Some (Z.shiftr (best_from R x 32).1 1) ∧
      ip4_mtrie_lookup_address m1 x =
        Some (Z.shiftr (set_fun len (maskz len addr) (1 + 2 * lb) x (best_from R x 32)).1 1) ∧
      ip4_mtrie_lookup_address m2 x =
        Some (if matches len (maskz len addr) x && ((best_from R x 32).2 <=? len) then 0
              else Z.shiftr (best_from R x 32).1 1).
Proof.
  intros Hm [Ha Hl] Hl0 Hlb Hnew. destruct (mr_ok _ _ Hm) as [P HP].
  destruct (set_leaf_root m P addr len lb HP Ha ltac:(lia) Hlb) as (m1 & P1 & Hs1 & HP1 & _ & Hw1).
  assert (∀ x, in_u32 x → (best_from R x 32).1 ≠ 1 + 2 * lb) as Hold.
  { intros x Hx. destruct (best_cases R 32 x) as [[-> _]|(i & lbi & _ & HR & -> & _)]; cbn [fst]; [lia|].
    intros Heq. apply (Hnew i (maskz i x)). rewrite HR. f_equal. lia. }
  assert (∀ x, in_u32 x → walk 4 m1 0 x = Some (set_fun len (maskz len addr) (1 + 2 * lb) x (best_from R x 32))) as Hw1'.
  { intros x Hx. by rewrite Hw1, (mr_walk _ _ Hm x Hx). }
  destruct (unset_leaf_root m1 P1 addr len lb HP1 Ha ltac:(lia) Hlb) as (m2 & freed & P2 & Hs2 & HP2 & _ & Hw2).
  { intros x t Hx. rewrite Hw1' by done. intros Heq%(inj Some). unfold set_fun in Heq.
    destruct (matches len (maskz len addr) x); [done|]. apply (f_equal fst) in Heq. by apply Hold in Heq. }
  exists m1, m2, freed. cbv zeta. split; [done|]. split; [done|]. intros x Hx.
  assert (∀ m' P' l t, mok m' P' → walk 4 m' 0 x = Some (l, t) → ip4_mtrie_lookup_address m' x = Some (Z.shiftr l 1)) as Hlook.
  { intros m' P' l t Hm' Hw. rewrite (lookup_address_ok m' P' x l t Hm' Hx Hw).
    destruct (walk_total m' P' Hm' 4 0 0 x (mk_root _ _ Hm') (proj2 (pre4 x) Hx)) as (l' & t' & Hw' & Ho & _).
    rewrite Hw in Hw'. injection Hw' as <- <-. unfold ip4_fib_mtrie_leaf_get_adj_index. by rewrite is_terminal_odd, Ho. }
  pose proof (mr_walk _ _ Hm x Hx) as Hw0. specialize (Hw1' x Hx). specialize (Hw2 x Hx). rewrite Hw1' in Hw2.
  specialize (Hold x Hx). destruct (best_from R x 32) as [l0 t0]. cbn [fst snd] in *.
  split; [by apply (Hlook m P l0 t0)|].
  unfold set_fun, over in *. cbn [fst snd] in *.
  destruct (matches len (maskz len addr) x); cbn [andb]; [destruct (t0 <=? len)|]; cbn [fmap option_fmap option_map] in Hw2.
  - split; [by eapply Hlook|]. unfold erase in Hw2. cbn [fst] in Hw2. rewrite Z.eqb_refl in Hw2. by rewrite (Hlook m2 P2 1 0).
  - split; [by eapply Hlook|]. unfold erase in Hw2. cbn [fst] in Hw2. rewrite (proj2 (Z.eqb_neq _ _) Hold) in Hw2. by rewrite (Hlook m2 P2 l0 t0).
  - split; [by eapply Hlook|]. unfold erase in Hw2. cbn [fst] in Hw2. rewrite (proj2 (Z.eqb_neq _ _) Hold) in Hw2. by rewrite (Hlook m2 P2 l0 t0).
Qed.

Lemma mtrie_set_unset_leaf_witness :
  ∃ m m1, ip4_mtrie_init = Some m ∧ set_leaf 4 m (Args 167772160 8 7) 0 0 = Some m1 ∧
    ip4_mtrie_lookup_address m1 167838211 = Some 7 ∧ ip4_mtrie_lookup_address m 167838211 = Some 0.
Proof.
  destruct init_ok as (m & Hm & Hrel).
  destruct (mtrie_set_unset_leaf m (λ _ _, None) 167772160 8 7 Hrel) as (m1 & m2 & b & H1 & _ & H2);
    [by split|done|done|done|].
  exists m, m1. split; [exact Hm|]. split; [exact H1|].
  destruct (H2 167838211) as (H3 & H4 & _); [by split|]. split; [exact H4|exact H3].
Defined.
End Fib.
