(* ===== verification/SvmFifo.v ===== *)
(** * The shared-memory FIFO (svm/svm_fifo.c, svm/svm_fifo.h)

    A ring of [nitems] bytes with one producer and one consumer, used for the receive
    and transmit streams of the sessions.  The producer may also write beyond the tail
    ("out of order"); the extents written are kept in a doubly linked list of segments,
    in a pool, and are collected when the tail reaches them.

    Offsets of segments are relative to the tail.  [None] is a failed assertion, an
    access outside of the data of the FIFO or of the caller's buffer, or a dangling
    segment index. *)

From S2P Require Import Prelude Bitmap Popcount Pool.

Module Svm.
Import ClibPool.

Definition OOO_SEGMENT_INVALID_INDEX : Z := u32_max.

Record ooo_segment := Seg {
  next : Z;
  prev : Z;
  fifo_position : Z;
  length : Z;
}.

Record svm_fifo := Fifo {
  cursize : Z;
  nitems : Z;
  head : Z;
  tail : Z;
  ooo_segments : pool ooo_segment;
  ooos_list_head : Z;
  ooos_newest : Z;
  data : list Z;
}.

Definition set_next (n : Z) (s : ooo_segment) := Seg n (prev s) (fifo_position s) (length s).
Definition set_prev (p : Z) (s : ooo_segment) := Seg (next s) p (fifo_position s) (length s).
Definition set_position (p : Z) (s : ooo_segment) := Seg (next s) (prev s) p (length s).
Definition set_length (l : Z) (s : ooo_segment) := Seg (next s) (prev s) (fifo_position s) l.

Definition with_cursize (c : Z) (f : svm_fifo) :=
  Fifo c (nitems f) (head f) (tail f) (ooo_segments f) (ooos_list_head f) (ooos_newest f) (data f).
Definition with_head (h : Z) (f : svm_fifo) :=
  Fifo (cursize f) (nitems f) h (tail f) (ooo_segments f) (ooos_list_head f) (ooos_newest f) (data f).
Definition with_tail (t : Z) (f : svm_fifo) :=
  Fifo (cursize f) (nitems f) (head f) t (ooo_segments f) (ooos_list_head f) (ooos_newest f) (data f).
Definition with_segments (p : pool ooo_segment) (f : svm_fifo) :=
  Fifo (cursize f) (nitems f) (head f) (tail f) p (ooos_list_head f) (ooos_newest f) (data f).
Definition with_list_head (h : Z) (f : svm_fifo) :=
  Fifo (cursize f) (nitems f) (head f) (tail f) (ooo_segments f) h (ooos_newest f) (data f).
Definition with_newest (n : Z) (f : svm_fifo) :=
  Fifo (cursize f) (nitems f) (head f) (tail f) (ooo_segments f) (ooos_list_head f) n (data f).
Definition with_data (d : list Z) (f : svm_fifo) :=
  Fifo (cursize f) (nitems f) (head f) (tail f) (ooo_segments f) (ooos_list_head f) (ooos_newest f) d.

(** The pointer to a segment, and an assignment through it. *)
Definition seg_get (f : svm_fifo) (i : Z) : option ooo_segment := pool_elt_at_index (ooo_segments f) i.
Definition seg_upd (f : svm_fifo) (i : Z) (g : ooo_segment → ooo_segment) : option svm_fifo :=
  s ← seg_get f i; Some (with_segments (pool_set (ooo_segments f) i (g s)) f).

Definition assert (b : bool) : option () := if b then Some () else None.

(** [clib_memcpy] out of and into an array. *)
Definition mem_read (m : list Z) (off n : Z) : option (list Z) :=
  if (0 <=? off) && (0 <=? n) && (off + n <=? zlen m)
  then Some (take (Z.to_nat n) (drop (Z.to_nat off) m)) else None.

Definition mem_write (m : list Z) (off : Z) (bytes : list Z) : option (list Z) :=
  if (0 <=? off) && (off + zlen bytes <=? zlen m)
  then Some (take (Z.to_nat off) m ++ bytes ++ drop (Z.to_nat (off + zlen bytes)) m) else None.

(** ** Creation and the inquiries of the header *)

Definition svm_fifo_create (data_size_in_bytes : Z) : svm_fifo :=
  Fifo 0 data_size_in_bytes 0 0 pool_null OOO_SEGMENT_INVALID_INDEX 0
    (replicate (Z.to_nat data_size_in_bytes) 0).

Definition svm_fifo_max_dequeue (f : svm_fifo) : Z := cursize f.
Definition svm_fifo_max_enqueue (f : svm_fifo) : Z := u32 (nitems f - cursize f).
Definition svm_fifo_has_ooo_data (f : svm_fifo) : bool := negb (ooos_list_head f =? OOO_SEGMENT_INVALID_INDEX).

Definition ooo_segment_offset (f : svm_fifo) (s : ooo_segment) : Z :=
  u32 (u32 (nitems f + fifo_position s) - tail f) `mod` nitems f.

Definition ooo_segment_end_offset (f : svm_fifo) (s : ooo_segment) : Z :=
  u32 (u32 (nitems f + fifo_position s + length s) - tail f) `mod` nitems f.

(** ** The list of segments *)

Definition zero_segment : ooo_segment := Seg 0 0 0 0.

Definition ooo_segment_new (f : svm_fifo) (start length : Z) : svm_fifo * Z :=
  let '(p, s) := pool_get zero_segment (ooo_segments f) in
  (with_segments (pool_set p s (Seg OOO_SEGMENT_INVALID_INDEX OOO_SEGMENT_INVALID_INDEX start length)) f, s).

Definition ooo_segment_del (f : svm_fifo) (index : Z) : option svm_fifo :=
  cur ← seg_get f index;
  f ← (if negb (next cur =? OOO_SEGMENT_INVALID_INDEX) then seg_upd f (next cur) (set_prev (prev cur)) else Some f);
  f ← (if negb (prev cur =? OOO_SEGMENT_INVALID_INDEX) then seg_upd f (prev cur) (set_next (next cur))
       else Some (with_list_head (next cur) f));
  Some (with_segments (pool_put_index (ooo_segments f) index) f).

(** The search for the first segment that starts after the new one.  The fuel of the
    loops over the list is one more than the number of elements of the pool, which bounds
    the length of the list. *)
Fixpoint find_segment (fuel : nat) (f : svm_fifo) (offset i : Z) : option Z :=
  match fuel with
  | O => None
  | S fuel =>
      s ← seg_get f i;
      if negb (next s =? OOO_SEGMENT_INVALID_INDEX) && (ooo_segment_offset f s <=? offset)
      then find_segment fuel f offset (next s) else Some i
  end.

Definition list_fuel (f : svm_fifo) : nat := S (Z.to_nat (pool_len (ooo_segments f))).

(** Remove the segments completely covered by the new one; returns the one that
    follows them, if any. *)
Fixpoint remove_covered (fuel : nat) (f : svm_fifo) (end_offset : Z) (it : option Z)
    : option (svm_fifo * option Z) :=
  match fuel with
  | O => None
  | S fuel =>
      match it with
      | None => Some (f, None)
      | Some i =>
          s ← seg_get f i;
          if ooo_segment_end_offset f s <? end_offset then
            let nxt := if negb (next s =? OOO_SEGMENT_INVALID_INDEX) then Some (next s) else None in
            f ← ooo_segment_del f i;
            remove_covered fuel f end_offset nxt
          else Some (f, Some i)
      end
  end.

(** The three ways [ooo_segment_add] inserts or merges, for the segment [s_index] its
    search finds. *)
Definition add_before (f : svm_fifo) (position length s_index : Z) : option svm_fifo :=
  let '(f, new_index) := ooo_segment_new f position length in
  s ← seg_get f s_index;
  f ← (if negb (prev s =? OOO_SEGMENT_INVALID_INDEX) then
         f ← seg_upd f new_index (set_prev (prev s));
         seg_upd f (prev s) (set_next new_index)
       else Some (with_list_head new_index f));
  f ← seg_upd f new_index (set_next s_index);
  f ← seg_upd f s_index (set_prev new_index);
  Some (with_newest new_index f).

Definition add_after (f : svm_fifo) (position length s_index : Z) : option svm_fifo :=
  let '(f, new_index) := ooo_segment_new f position length in
  s ← seg_get f s_index;
  f ← (if negb (next s =? OOO_SEGMENT_INVALID_INDEX) then
         f ← seg_upd f new_index (set_next (next s));
         seg_upd f (next s) (set_prev new_index)
       else Some f);
  f ← seg_upd f new_index (set_prev s_index);
  f ← seg_upd f s_index (set_next new_index);
  Some (with_newest new_index f).

Definition merge_at_head (f : svm_fifo) (offset position end_offset s_eof s_index : Z) : option svm_fifo :=
  s ← seg_get f s_index;
  f ← (if negb (prev s =? OOO_SEGMENT_INVALID_INDEX) then
         p ← seg_get f (prev s);
         if offset <=? ooo_segment_end_offset f p then
           f ← seg_upd f s_index (set_position (fifo_position p));
           f ← seg_upd f s_index (set_length (u32 (s_eof - ooo_segment_offset f p)));
           ooo_segment_del f (prev s)
         else Some f
       else
         f ← seg_upd f s_index (set_position position);
         s ← seg_get f s_index;
         seg_upd f s_index (set_length (u32 (s_eof - ooo_segment_offset f s))));
  if s_eof <? end_offset then
    s ← seg_get f s_index;
    let it := if negb (next s =? OOO_SEGMENT_INVALID_INDEX) then Some (next s) else None in
    '(f, it) ← remove_covered (list_fuel f) f end_offset it;
    s ← seg_get f s_index;
    f ← seg_upd f s_index (set_length (u32 (end_offset - ooo_segment_offset f s)));
    match it with
    | Some i =>
        its ← seg_get f i;
        if ooo_segment_offset f its <? end_offset then
          s ← seg_get f s_index;
          f ← seg_upd f s_index
                (set_length (u32 (length s + (length its - (ooo_segment_offset f its - end_offset)))));
          ooo_segment_del f i
        else Some f
    | None => Some f
    end
  else Some f.

Definition ooo_segment_add (f : svm_fifo) (offset length : Z) : option svm_fifo :=
  let position := u32 (tail f + offset) `mod` nitems f in
  let end_offset := u32 (offset + length) in
  if ooos_list_head f =? OOO_SEGMENT_INVALID_INDEX then
    let '(f, s) := ooo_segment_new f position length in
    Some (with_newest s (with_list_head s f))
  else
    s_index ← find_segment (list_fuel f) f offset (ooos_list_head f);
    s ← seg_get f s_index;
    let s_sof := ooo_segment_offset f s in
    let s_eof := ooo_segment_end_offset f s in
    if end_offset <? s_sof then add_before f position length s_index
    else if s_eof <? offset then add_after f position length s_index
    else
      f ← (if offset <=? s_sof then merge_at_head f offset position end_offset s_eof s_index
           else if s_eof <=? end_offset then
             seg_upd f s_index (set_length (u32 (end_offset - s_sof)))
           else Some f);
      Some (with_newest s_index f).

(** The loop of [ooo_segment_try_collect]; returns the current segment and [diff]. *)
Fixpoint collect_loop (fuel : nat) (f : svm_fifo) (n_bytes_enqueued s_index diff : Z)
    : option (svm_fifo * Z * Z) :=
  match fuel with
  | O => None
  | S fuel =>
      if (0 <? diff) && (diff <? n_bytes_enqueued) then
        s ← seg_get f s_index;
        if diff <? length s then
          let t := u32 (tail f + u32 (length s - diff)) in
          Some (with_tail (t `mod` nitems f) f, s_index, diff)
        else if negb (next s =? OOO_SEGMENT_INVALID_INDEX) then
          let index := s_index in
          let s_index := next s in
          s ← seg_get f s_index;
          let diff := u32 (u32 (nitems f + tail f) - fifo_position s) `mod` nitems f in
          f ← ooo_segment_del f index;
          collect_loop fuel f n_bytes_enqueued s_index diff
        else Some (f, s_index, diff)
      else Some (f, s_index, diff)
  end.

Definition ooo_segment_try_collect (f : svm_fifo) (n_bytes_enqueued : Z) : option (svm_fifo * Z) :=
  s ← seg_get f (ooos_list_head f);
  let diff := u32 (u32 (nitems f + tail f) - fifo_position s) `mod` nitems f in
  '(f, s_index, diff) ← collect_loop (list_fuel f) f n_bytes_enqueued (ooos_list_head f) diff;
  if diff =? 0 then
    s ← seg_get f s_index;
    let bytes := if length s <=? u32 (nitems f - cursize f) then length s else u32 (nitems f - cursize f) in
    let f := with_tail (u32 (tail f + bytes)) f in
    let f := with_tail (tail f `mod` nitems f) f in
    f ← ooo_segment_del f s_index;
    Some (f, bytes)
  else Some (f, 0).

(** ** Enqueue and dequeue *)

Definition wrap (nitems p : Z) : Z := if p =? nitems then 0 else p.

Definition svm_fifo_enqueue_nowait (f : svm_fifo) (max_bytes : Z) (copy_from_here : option (list Z))
    : option (svm_fifo * Z) :=
  if cursize f =? nitems f then Some (f, -2)
  else
    let room := u32 (nitems f - cursize f) in
    let total_copy_bytes := if room <? max_bytes then room else max_bytes in
    '(f, total_copy_bytes) ←
      (match copy_from_here with
       | Some buf =>
           let to_end := u32 (nitems f - tail f) in
           let first_copy_bytes := if to_end <? total_copy_bytes then to_end else total_copy_bytes in
           b ← mem_read buf 0 first_copy_bytes;
           d ← mem_write (data f) (tail f) b;
           let f := with_data d f in
           let f := with_tail (wrap (nitems f) (u32 (tail f + first_copy_bytes))) f in
           let second_copy_bytes := u32 (total_copy_bytes - first_copy_bytes) in
           if negb (second_copy_bytes =? 0) then
             b ← mem_read buf first_copy_bytes second_copy_bytes;
             d ← mem_write (data f) (tail f) b;
             let f := with_data d f in
             Some (with_tail (wrap (nitems f) (u32 (tail f + second_copy_bytes))) f, total_copy_bytes)
           else Some (f, total_copy_bytes)
       | None =>
           _ ← assert (max_bytes <=? u32 (nitems f - cursize f));
           Some (with_tail (u32 (tail f + max_bytes) `mod` nitems f) f, max_bytes)
       end);
    '(f, total_copy_bytes) ←
      (if negb (ooos_list_head f =? OOO_SEGMENT_INVALID_INDEX) then
         '(f, bytes) ← ooo_segment_try_collect f total_copy_bytes;
         Some (f, u32 (total_copy_bytes + bytes))
       else Some (f, total_copy_bytes));
    Some (with_cursize (u32 (cursize f + total_copy_bytes)) f, total_copy_bytes).

Definition svm_fifo_enqueue_with_offset (f : svm_fifo) (offset required_bytes : Z) (copy_from_here : list Z)
    : option (svm_fifo * Z) :=
  _ ← assert (0 <? offset);
  if u32 (nitems f - cursize f) <? u32 (required_bytes + offset) then Some (f, -1)
  else
    f ← ooo_segment_add f offset required_bytes;
    let total_copy_bytes := required_bytes in
    let tail_plus_offset := u32 (tail f + offset) `mod` nitems f in
    let to_end := u32 (nitems f - tail_plus_offset) in
    let first_copy_bytes := if to_end <? total_copy_bytes then to_end else total_copy_bytes in
    b ← mem_read copy_from_here 0 first_copy_bytes;
    d ← mem_write (data f) tail_plus_offset b;
    let f := with_data d f in
    let second_copy_bytes := u32 (total_copy_bytes - first_copy_bytes) in
    if negb (second_copy_bytes =? 0) then
      let tail_plus_offset := u32 (tail_plus_offset + first_copy_bytes) `mod` nitems f in
      _ ← assert (tail_plus_offset =? 0);
      b ← mem_read copy_from_here first_copy_bytes second_copy_bytes;
      d ← mem_write (data f) tail_plus_offset b;
      Some (with_data d f, 0)
    else Some (f, 0).

(** With [copy] the bytes are copied out, and returned next to the count; without it
    the consumer has read them in place. *)
Definition svm_fifo_dequeue_nowait (f : svm_fifo) (max_bytes : Z) (copy : bool)
    : option (svm_fifo * Z * list Z) :=
  if cursize f =? 0 then Some (f, -2, [])
  else
    let total_copy_bytes := if cursize f <? max_bytes then cursize f else max_bytes in
    '(f, total_copy_bytes, out) ←
      (if copy then
         let to_end := u32 (nitems f - head f) in
         let first_copy_bytes := if to_end <? total_copy_bytes then to_end else total_copy_bytes in
         b1 ← mem_read (data f) (head f) first_copy_bytes;
         let f := with_head (wrap (nitems f) (u32 (head f + first_copy_bytes))) f in
         let second_copy_bytes := u32 (total_copy_bytes - first_copy_bytes) in
         if negb (second_copy_bytes =? 0) then
           b2 ← mem_read (data f) (head f) second_copy_bytes;
           Some (with_head (wrap (nitems f) (u32 (head f + second_copy_bytes))) f, total_copy_bytes, b1 ++ b2)
         else Some (f, total_copy_bytes, b1)
       else
         _ ← assert (max_bytes <=? cursize f);
         Some (with_head (u32 (head f + max_bytes) `mod` nitems f) f, max_bytes, []));
    Some (with_cursize (u32 (cursize f - total_copy_bytes)) f, total_copy_bytes, out).

Definition svm_fifo_peek (f : svm_fifo) (offset max_bytes : Z) : option (Z * list Z) :=
  if cursize f =? 0 then Some (-2, [])
  else
    let total_copy_bytes := if cursize f <? max_bytes then cursize f else max_bytes in
    let to_end := u32 (nitems f - head f + offset) in
    let first_copy_bytes := if to_end <? total_copy_bytes then to_end else total_copy_bytes in
    b1 ← mem_read (data f) (u32 (head f + offset)) first_copy_bytes;
    let second_copy_bytes := u32 (total_copy_bytes - first_copy_bytes) in
    if negb (second_copy_bytes =? 0) then
      b2 ← mem_read (data f) 0 second_copy_bytes;
      Some (total_copy_bytes, b1 ++ b2)
    else Some (total_copy_bytes, b1).

Definition svm_fifo_dequeue_drop (f : svm_fifo) (max_bytes : Z) : svm_fifo * Z :=
  if cursize f =? 0 then (f, -2)
  else
    let total_drop_bytes := if cursize f <? max_bytes then cursize f else max_bytes in
    let to_end := u32 (nitems f - head f) in
    let first_drop_bytes := if to_end <? total_drop_bytes then to_end else total_drop_bytes in
    let f := with_head (wrap (nitems f) (u32 (head f + first_drop_bytes))) f in
    let second_drop_bytes := u32 (total_drop_bytes - first_drop_bytes) in
    let f := if negb (second_drop_bytes =? 0)
             then with_head (wrap (nitems f) (u32 (head f + second_drop_bytes))) f else f in
    (with_cursize (u32 (cursize f - total_drop_bytes)) f, total_drop_bytes).
End Svm.
