(* ===== verification/SvmFifoSpec.v ===== *)
(** * The shared-memory FIFO: a byte queue with reassembly

    [fifo_rel] relates a FIFO to the bytes queued in it and to the extents pending
    beyond its tail.  In-order writes, reads, drops and disjoint out-of-order writes
    implement the queue; the last section shows where overlapping writes do not. *)

From S2P Require Import Prelude Bitmap Popcount Pool SvmFifo.

Module SvmSpec.
Import ClibPool SvmFifo.Svm.

(** ** Memory *)

Lemma mem_read_ok m off n :
  0 ≤ off → 0 ≤ n → off + n ≤ zlen m → mem_read m off n = Some (take (Z.to_nat n) (drop (Z.to_nat off) m)).
Proof.
  intros H1 H2 H3. unfold mem_read.
  by rewrite (proj2 (Z.leb_le 0 off)), (proj2 (Z.leb_le 0 n)), (proj2 (Z.leb_le (off + n) _)) by lia.
Qed.

Lemma mem_write_ok m off b :
  0 ≤ off → off + zlen b ≤ zlen m →
  ∃ m', mem_write m off b = Some m' ∧ zlen m' = zlen m ∧
    ∀ j, velt 0 m' j = if decide (off ≤ j < off + zlen b) then velt 0 b (j - off) else velt 0 m j.
Proof.
  intros H1 H2. unfold mem_write. rewrite (proj2 (Z.leb_le 0 off)), (proj2 (Z.leb_le _ _)) by lia.
  pose proof (zlen_nonneg b) as Hb.
  assert (zlen (take (Z.to_nat off) m) = off) as Ht by (unfold zlen in *; rewrite length_take; lia).
  assert (zlen (drop (Z.to_nat (off + zlen b)) m) = zlen m - (off + zlen b)) as Hd by (unfold zlen in *; rewrite length_drop; lia).
  eexists. split; [done|]. split; [rewrite !zlen_app, Ht, Hd; lia|].
  intros j. unfold velt at 1. destruct (decide (j < off)) as [Hj|Hj].
  - rewrite vget_app_l by lia. rewrite decide_False by lia. unfold velt. f_equal.
    unfold vget. case_cond; [|done]. apply lookup_take_lt. lia.
  - rewrite vget_app_r, Ht by lia. case_decide as Hd'.
    + by rewrite vget_app_l by lia.
    + rewrite vget_app_r by lia. unfold velt. f_equal. unfold vget. do 2 (case_cond; [|lia]).
      rewrite lookup_drop. f_equal. lia.
Qed.

(** ** Rings *)

Section ring.
Context (n : Z).
Hypothesis Hn : 0 < n.

Definition slice (d : list Z) (p len : Z) : list Z := (λ k, velt 0 d ((p + k) `mod` n)) <$> zrange 0 len.

Lemma zlen_slice d p len : 0 ≤ len → zlen (slice d p len) = len.
Proof. intros H. unfold slice, zlen, zrange. rewrite length_fmap, length_seqZ. lia. Qed.

Lemma slice_ext d d' p p' len :
  (∀ k, 0 ≤ k < len → velt 0 d ((p + k) `mod` n) = velt 0 d' ((p' + k) `mod` n)) → slice d p len = slice d' p' len.
Proof.
  intros H. unfold slice. apply list_fmap_ext. intros i k Hk.
  apply H, elem_of_zrange, list_elem_of_lookup_2 with i, Hk.
Qed.

Lemma slice_mod d p len : slice d (p `mod` n) len = slice d p len.
Proof using Hn. apply slice_ext. intros k _. by rewrite Zplus_mod_idemp_l. Qed.

Lemma slice_congr d p q len : p `mod` n = q `mod` n → slice d p len = slice d q len.
Proof using Hn. intros H. by rewrite <-(slice_mod d p), H, slice_mod. Qed.

Lemma slice_app d p a b : 0 ≤ a → 0 ≤ b → slice d p (a + b) = slice d p a ++ slice d (p + a) b.
Proof.
  intros Ha Hb. unfold slice. rewrite (zrange_app 0 a (a + b)), fmap_app by lia. f_equal.
  rewrite <-(Z.add_0_r a) at 1. rewrite <-zrange_shift, <-list_fmap_compose.
  apply list_fmap_ext. intros i k _. simpl. do 2 f_equal. lia.
Qed.

Lemma velt_slice d p len k : 0 ≤ k < len → velt 0 (slice d p len) k = velt 0 d ((p + k) `mod` n).
Proof.
  intros Hk. unfold velt, slice, vget, zrange. case_cond; [|lia].
  rewrite list_lookup_fmap, lookup_seqZ_lt by lia. cbn [fmap option_fmap option_map from_option id]. by rewrite Z.add_0_l, Z2Nat.id by lia.
Qed.

(** The two copies of an enqueue, around the end of the ring. *)
Definition ring_put (d : list Z) (p : Z) (b : list Z) (d' : list Z) : Prop :=
  zlen d' = zlen d ∧ ∀ k, 0 ≤ k < n →
    velt 0 d' ((p + k) `mod` n) = if decide (k < zlen b) then velt 0 b k else velt 0 d ((p + k) `mod` n).

Lemma mod_cases p k : 0 ≤ p < n → 0 ≤ k < n → (p + k) `mod` n = if decide (p + k < n) then p + k else p + k - n.
Proof using Hn.
  intros Hp Hk. case_decide; [by rewrite Z.mod_small by lia|].
  symmetry. apply (Z.mod_unique_pos _ _ 1); lia.
Qed.

Lemma two_copies d p buf total first :
  zlen d = n → 0 ≤ p < n → 0 ≤ total ≤ n → total ≤ zlen buf →
  first = (if n - p <? total then n - p else total) →
  ∃ b1 d1 b2 d2, mem_read buf 0 first = Some b1 ∧ mem_write d p b1 = Some d1 ∧
    mem_read buf first (total - first) = Some b2 ∧ mem_write d1 0 b2 = Some d2 ∧
    (total - first = 0 → d2 = d1) ∧ zlen d1 = n ∧
    ring_put d p (take (Z.to_nat total) buf) d2.
Proof using Hn.
  intros Hd Hp Ht Hb Hf.
  assert (0 ≤ first ≤ total ∧ first ≤ n - p ∧ (first < total → first = n - p)) as Hfirst by (subst first; case_cond; lia).
  set (b1 := take (Z.to_nat first) buf). set (b2 := take (Z.to_nat (total - first)) (drop (Z.to_nat first) buf)).
  assert (zlen b1 = first) as Hz1 by (unfold b1, zlen in *; rewrite length_take; lia).
  assert (zlen b2 = total - first) as Hz2 by (unfold b2, zlen in *; rewrite length_take, length_drop; lia).
  assert (zlen (take (Z.to_nat total) buf) = total) as Hz by (unfold zlen in *; rewrite length_take; lia).
  destruct (mem_write_ok d p b1) as (d1 & Hw1 & Hl1 & Hv1); [lia..|].
  destruct (mem_write_ok d1 0 b2) as (d2 & Hw2 & Hl2 & Hv2); [lia..|].
  exists b1, d1, b2, d2. split; [by rewrite mem_read_ok by lia|]. split; [done|].
  split; [by rewrite mem_read_ok by lia|]. split; [done|].
  split.
  { intros H0. assert (b2 = []) as -> by (apply length_zero_iff_nil; unfold zlen in Hz2; lia).
    unfold mem_write in Hw2. destruct (_ && _); [|done]. by injection Hw2 as <-. }
  split; [lia|]. split; [lia|]. intros k Hk. rewrite Hz.
  rewrite mod_cases by lia. rewrite Hv2, Hv1, Hz1, Hz2.
  assert (∀ j, 0 ≤ j < total → velt 0 (take (Z.to_nat total) buf) j = velt 0 buf j) as Hbuf.
  { intros j Hj. unfold velt, vget. case_cond; [|lia]. by rewrite lookup_take_lt by lia. }
  assert (∀ j, 0 ≤ j < first → velt 0 b1 j = velt 0 buf j) as Hb1.
  { intros j Hj. unfold b1, velt, vget. case_cond; [|lia]. by rewrite lookup_take_lt by lia. }
  assert (∀ j, 0 ≤ j < total - first → velt 0 b2 j = velt 0 buf (first + j)) as Hb2.
  { intros j Hj. unfold b2, velt, vget. do 2 (case_cond; [|lia]). rewrite lookup_take_lt by lia. rewrite lookup_drop. do 2 f_equal. lia. }
  destruct (decide (k < total)); destruct (decide (p + k < n)); repeat case_decide; try lia.
  - rewrite Hb1, Hbuf by lia. f_equal. lia.
  - rewrite Hb2, Hbuf by lia. f_equal. lia.
Qed.

Lemma ring_put_slice d p b d' q len :
  ring_put d p b d' → 0 ≤ q → zlen b ≤ q → q + len ≤ n → slice d' (p + q) len = slice d (p + q) len.
Proof.
  intros [_ Hv] Hq Hb Hlen. apply slice_ext. intros k Hk.
  replace (p + q + k) with (p + (q + k)) by lia. rewrite Hv by lia. by rewrite decide_False by lia.
Qed.

Lemma ring_put_self d p b d' : ring_put d p b d' → zlen b ≤ n → slice d' p (zlen b) = b.
Proof.
  intros [_ Hv] Hb. apply (vec_ext 0); [apply zlen_slice, zlen_nonneg|].
  intros k Hk. rewrite zlen_slice in Hk by apply zlen_nonneg. rewrite velt_slice by done.
  rewrite Hv by lia. by rewrite decide_True by lia.
Qed.

(** The position after two copies. *)
Lemma wrap_two p m first :
  0 ≤ p < n → 0 ≤ m ≤ n → first = (if n - p <? m then n - p else m) →
  (m - first ≠ 0 → wrap n (p + first) = 0) ∧
  (if negb (m - first =? 0) then wrap n (0 + (m - first)) else wrap n (p + first)) = (p + m) `mod` n ∧
  0 ≤ first ≤ m ∧ first ≤ n - p.
Proof using Hn.
  intros Hp Hm ->. unfold wrap. destruct (n - p <? m) eqn:E; bool_to_prop.
  - replace (p + (n - p)) with n by lia. rewrite Z.eqb_refl.
    split; [done|]. split; [|lia]. rewrite (proj2 (Z.eqb_neq (m - (n - p)) 0)) by lia. cbn [negb].
    rewrite (proj2 (Z.eqb_neq (0 + (m - (n - p))) n)) by lia. apply (Z.mod_unique_pos _ _ 1); lia.
  - rewrite Z.sub_diag. cbn. split; [lia|]. split; [|lia].
    destruct (p + m =? n) eqn:E2; bool_to_prop.
    + rewrite E2. by rewrite Z.mod_same by lia.
    + by rewrite Z.mod_small by lia.
Qed.

(** Reading [len] bytes in two copies. *)
Lemma two_reads d p total first :
  zlen d = n → 0 ≤ p < n → 0 ≤ total ≤ n → first = (if n - p <? total then n - p else total) →
  ∃ b1 b2, mem_read d p first = Some b1 ∧ mem_read d 0 (total - first) = Some b2 ∧
    (total - first = 0 → b2 = []) ∧ b1 ++ b2 = slice d p total.
Proof using Hn.
  intros Hd Hp Ht Hf.
  assert (0 ≤ first ≤ total ∧ first ≤ n - p ∧ (first < total → first = n - p)) as Hfirst by (subst first; case_cond; lia).
  assert (∀ q len, 0 ≤ q → 0 ≤ len → q + len ≤ n → take (Z.to_nat len) (drop (Z.to_nat q) d) = slice d q len) as Hs.
  { intros q len Hq Hl Hql. assert (zlen (take (Z.to_nat len) (drop (Z.to_nat q) d)) = len) as Hz
      by (unfold zlen in *; rewrite length_take, length_drop; lia).
    apply (vec_ext 0); [by rewrite zlen_slice by lia|]. rewrite Hz. intros k Hk. rewrite velt_slice by done.
    rewrite Z.mod_small by lia. unfold velt, vget. do 2 (case_cond; [|lia]).
    rewrite lookup_take_lt, lookup_drop by lia. do 2 f_equal. lia. }
  eexists _, _. rewrite !mem_read_ok by lia. split; [done|]. split; [done|]. split.
  { intros ->. done. }
  rewrite !Hs by lia. replace total with (first + (total - first)) at 2 by lia. rewrite slice_app by lia. f_equal.
  destruct (decide (first = total)) as [->|]; [by rewrite Z.sub_diag|].
  rewrite <-(slice_mod d (p + first)). replace (p + first) with n by lia. by rewrite Z.mod_same by lia.
Qed.
End ring.

(** ** The list of segments

    A segment is its index in the pool, its offset from the tail and its bytes. *)

Definition segment : Type := Z * Z * list Z.
Definition seg_index (s : segment) : Z := s.1.1.
Definition seg_offset (s : segment) : Z := s.1.2.
Definition seg_bytes (s : segment) : list Z := s.2.
Definition seg_end (s : segment) : Z := seg_offset s + zlen (seg_bytes s).

Lemma destruct_last {A} (l : list A) : l = [] ∨ ∃ l' x, l = l' ++ [x].
Proof.
  destruct (last l) as [x|] eqn:E.
  - apply last_Some in E as [l' ->]. eauto.
  - apply last_None in E. by left.
Qed.

Definition nexti (l : list segment) (nx : Z) : Z := match l with [] => nx | s :: _ => seg_index s end.
Definition lasti (pv : Z) (l : list segment) : Z := match last l with None => pv | Some s => seg_index s end.

Section dll.
Context (n t : Z).

(** The doubly linked list, between [pv] and [nx]. *)
Fixpoint dll (G : Z → option ooo_segment) (pv : Z) (l : list segment) (nx : Z) : Prop :=
  match l with
  | [] => True
  | s :: l' =>
      G (seg_index s) = Some (Seg (nexti l' nx) pv ((t + seg_offset s) `mod` n) (zlen (seg_bytes s)))
      ∧ dll G (seg_index s) l' nx
  end.

Lemma dll_app G pv l1 l2 nx :
  dll G pv (l1 ++ l2) nx ↔ dll G pv l1 (nexti l2 nx) ∧ dll G (lasti pv l1) l2 nx.
Proof.
  revert pv. induction l1 as [|s l1 IH]; intros pv; [cbn; tauto|].
  cbn [dll app]. rewrite IH.
  assert (nexti (l1 ++ l2) nx = nexti l1 (nexti l2 nx)) as -> by by destruct l1.
  assert (lasti (seg_index s) l1 = lasti pv (s :: l1)) as ->.
  { unfold lasti. rewrite last_cons. by destruct (last l1). }
  tauto.
Qed.

Lemma dll_frame G G' pv l nx :
  (∀ s, s ∈ l → G' (seg_index s) = G (seg_index s)) → dll G pv l nx → dll G' pv l nx.
Proof.
  revert pv. induction l as [|s l IH]; intros pv Hag; [done|]. cbn [dll]. intros [H1 H2].
  rewrite Hag by by left. split; [done|]. apply IH; [|done]. intros s' Hs'. apply Hag. by right.
Qed.

Lemma lasti_snoc pv l s : lasti pv (l ++ [s]) = seg_index s.
Proof. unfold lasti. by rewrite last_snoc. Qed.

Lemma lasti_elem pv l : l ≠ [] → ∃ s, s ∈ l ∧ lasti pv l = seg_index s.
Proof.
  intros Hl. destruct (destruct_last l) as [->|(l' & s & ->)]; [done|].
  exists s. rewrite lasti_snoc. split; [|done]. apply elem_of_app. right. by left.
Qed.

(** Changing the link at one end. *)
Lemma dll_relink_next G G' pv l nx nx' :
  NoDup (seg_index <$> l) → dll G pv l nx →
  (∀ s, s ∈ l → G' (seg_index s) = if decide (seg_index s = lasti pv l) then set_next nx' <$> G (seg_index s) else G (seg_index s)) →
  dll G' pv l nx'.
Proof.
  destruct (destruct_last l) as [->|(l' & s & ->)]; [done|].
  intros Hnd Hd Hag. rewrite fmap_app in Hnd. apply list.NoDup_app in Hnd as (_ & Hni & _).
  apply dll_app in Hd as [Hd1 [Hs _]]. apply dll_app. rewrite lasti_snoc in Hag. split.
  - apply (dll_frame G); [|done]. intros s' Hs'. rewrite Hag by (apply elem_of_app; by left).
    apply decide_False. intros Heq. apply (Hni (seg_index s')); [by apply list_elem_of_fmap_2|].
    rewrite Heq. cbn. by left.
  - cbn [dll]. rewrite Hag by (apply elem_of_app; right; by left). rewrite decide_True by done.
    rewrite Hs. done.
Qed.

Lemma dll_relink_prev G G' pv pv' l nx :
  NoDup (seg_index <$> l) → dll G pv l nx →
  (∀ s, s ∈ l → G' (seg_index s) = if decide (seg_index s = nexti l nx) then set_prev pv' <$> G (seg_index s) else G (seg_index s)) →
  dll G' pv' l nx.
Proof.
  destruct l as [|s l]; [done|]. rewrite fmap_cons. intros [Hni Hnd]%NoDup_cons [Hs Hd] Hag. cbn [dll nexti] in *. split.
  - rewrite Hag by by left. rewrite decide_True by done. by rewrite Hs.
  - apply (dll_frame G); [|done]. intros s' Hs'. rewrite Hag by by right.
    apply decide_False. intros Heq. apply Hni. rewrite <-Heq. by apply list_elem_of_fmap_2.
Qed.
End dll.

(** Segments apart from each other, from the tail and within the free space. *)
Fixpoint separated (lo : Z) (l : list segment) (hi : Z) : Prop :=
  match l with
  | [] => lo ≤ hi
  | s :: l => lo < seg_offset s ∧ 0 < zlen (seg_bytes s) ∧ separated (seg_end s) l hi
  end.

Definition shift (m : Z) (l : list segment) : list segment :=
  (λ s, (seg_index s, seg_offset s - m, seg_bytes s)) <$> l.

Lemma separated_le lo l hi : separated lo l hi → lo ≤ hi.
Proof.
  revert lo. induction l as [|s l IH]; intros lo; [done|]. cbn [separated]. intros (? & ? & H%IH).
  unfold seg_end in H. lia.
Qed.

Lemma separated_bounds lo l hi s :
  separated lo l hi → s ∈ l → lo < seg_offset s ∧ 0 < zlen (seg_bytes s) ∧ seg_end s ≤ hi.
Proof.
  revert lo. induction l as [|s' l IH]; intros lo Hs; [by intros ?%elem_of_nil|].
  cbn [separated] in Hs. destruct Hs as (H1 & H2 & H3). pose proof (separated_le _ _ _ H3) as H4.
  intros [->|Hin]%elem_of_cons; [done|]. destruct (IH _ H3 Hin) as (? & ? & ?). unfold seg_end in *. lia.
Qed.

Lemma separated_shift m lo l hi : separated lo l hi → separated (lo - m) (shift m l) (hi - m).
Proof.
  revert lo. induction l as [|s l IH]; intros lo; cbn; [lia|]. intros (H1 & H2 & H3).
  split; [unfold seg_offset in *; simpl; lia|]. split; [done|].
  unfold seg_end, seg_offset, seg_bytes in *. simpl.
  replace (s.1.2 - m + zlen s.2) with (s.1.2 + zlen s.2 - m) by lia. by apply IH.
Qed.

Lemma separated_app lo l1 l2 hi :
  separated lo (l1 ++ l2) hi ↔ ∃ mid, separated lo l1 mid ∧ (mid = match last l1 with Some s => seg_end s | None => lo end) ∧ separated mid l2 hi.
Proof.
  revert lo. induction l1 as [|s l1 IH]; intros lo.
  - cbn. split; [intros; exists lo; split; [lia|done]|intros (? & ? & -> & ?); done].
  - cbn [app separated]. rewrite IH. rewrite last_cons. split.
    + intros (H1 & H2 & mid & H3 & -> & H4). eexists. split; [|split; [done|]]; destruct (last l1); done.
    + intros (mid & (H1 & H2 & H3) & -> & H4). split; [done|]. split; [done|].
      eexists. split; [exact H3|]. split; [by destruct (last l1)|done].
Qed.

Lemma dll_shift n t m G pv l nx : dll n t G pv l nx → dll n ((t + m) `mod` n) G pv (shift m l) nx.
Proof.
  revert pv. induction l as [|s l IH]; intros pv; [done|]. cbn [dll shift fmap list_fmap]. intros [H1 H2].
  unfold seg_index, seg_offset, seg_bytes in *. simpl. split; [|by apply IH].
  rewrite H1. f_equal. f_equal; [by destruct l|]. rewrite Zplus_mod_idemp_l. f_equal. lia.
Qed.

(** ** The relation with the queue *)

Record fifo_rel_from (lo : Z) (f : svm_fifo) (Q : list Z) (segs : list segment) : Prop := {
  fr_n : 0 < nitems f < 2 ^ 30;
  fr_data : zlen (data f) = nitems f;
  fr_size : cursize f = zlen Q;
  fr_head : 0 ≤ head f < nitems f;
  fr_tail : tail f = (head f + zlen Q) `mod` nitems f;
  fr_queue : slice (nitems f) (data f) (head f) (zlen Q) = Q;
  fr_pool : pool_ok (ooo_segments f);
  fr_pool_len : pool_len (ooo_segments f) ≤ nitems f;
  fr_nodup : NoDup (seg_index <$> segs);
  fr_live i : is_Some (seg_get f i) ↔ i ∈ seg_index <$> segs;
  fr_list_head : ooos_list_head f = nexti segs OOO_SEGMENT_INVALID_INDEX;
  fr_list : dll (nitems f) (tail f) (seg_get f) OOO_SEGMENT_INVALID_INDEX segs OOO_SEGMENT_INVALID_INDEX;
  fr_separated : separated lo segs (nitems f - zlen Q);
  fr_fits : zlen Q ≤ nitems f;
  fr_bytes s : s ∈ segs → slice (nitems f) (data f) (tail f + seg_offset s) (zlen (seg_bytes s)) = seg_bytes s;
}.

(** Between the copy of an in-order write and the collection, a segment can start at
    the tail: [lo] is -1 there. *)
Abbreviation fifo_rel := (fifo_rel_from 0).

Section rel.
Context (lo : Z) (f : svm_fifo) (Q : list Z) (segs : list segment) (Hf : fifo_rel_from lo f Q segs).

Lemma rel_size : 0 ≤ zlen Q ≤ nitems f.
Proof using Hf. pose proof (fr_fits _ _ _ _ Hf). pose proof (zlen_nonneg Q). lia. Qed.

Lemma rel_tail_range : 0 ≤ tail f < nitems f.
Proof using Hf. rewrite (fr_tail _ _ _ _ Hf). apply Z.mod_pos_bound, (fr_n _ _ _ _ Hf). Qed.

Lemma seg_range i : i ∈ seg_index <$> segs → 0 ≤ i < nitems f ∧ i ≠ OOO_SEGMENT_INVALID_INDEX.
Proof using Hf.
  intros Hi. apply (fr_live _ _ _ _ Hf) in Hi. unfold seg_get in Hi.
  apply elt_Some in Hi as [Hr _]; [|apply Hf]. pose proof (fr_pool_len _ _ _ _ Hf). pose proof (fr_n _ _ _ _ Hf).
  unfold OOO_SEGMENT_INVALID_INDEX, u32_max. lia.
Qed.

Lemma list_head_nil : ooos_list_head f =? OOO_SEGMENT_INVALID_INDEX = match segs with [] => true | _ => false end.
Proof using Hf.
  rewrite (fr_list_head _ _ _ _ Hf). pose proof seg_range as Hr. destruct segs as [|s l]; [done|]. cbn [nexti].
  apply Z.eqb_neq, Hr. by left.
Qed.

(** Moving the head over [m] bytes. *)
Definition advance_head (m : Z) (f : svm_fifo) : svm_fifo :=
  with_cursize (cursize f - m) (with_head ((head f + m) `mod` nitems f) f).

Lemma slice_queue m : 0 ≤ m ≤ zlen Q →
  slice (nitems f) (data f) (head f) m = take (Z.to_nat m) Q ∧
  slice (nitems f) (data f) (head f + m) (zlen Q - m) = drop (Z.to_nat m) Q.
Proof using Hf.
  intros Hm. pose proof (fr_n _ _ _ _ Hf) as Hn. pose proof (fr_queue _ _ _ _ Hf) as Hq.
  replace (zlen Q) with (m + (zlen Q - m)) in Hq by lia. rewrite slice_app in Hq by lia.
  assert (zlen (slice (nitems f) (data f) (head f) m) = m) as Hz by (apply zlen_slice; lia).
  revert Hq Hz. generalize (slice (nitems f) (data f) (head f) m) as A, (slice (nitems f) (data f) (head f + m) (zlen Q - m)) as B.
  intros A B Hq Hz. replace (Z.to_nat m) with (List.length A) by (unfold zlen in Hz; lia).
  by rewrite <-Hq, take_app_length, drop_app_length.
Qed.

Lemma advance_head_rel m : 0 ≤ m ≤ zlen Q → fifo_rel_from lo (advance_head m f) (drop (Z.to_nat m) Q) segs.
Proof using Hf.
  intros Hm. pose proof (fr_n _ _ _ _ Hf) as Hn.
  assert (zlen (drop (Z.to_nat m) Q) = zlen Q - m) as Hz by (unfold zlen in *; rewrite length_drop; lia).
  split; cbn [advance_head with_cursize with_head cursize nitems head tail ooo_segments ooos_list_head ooos_newest data];
    try apply Hf; try rewrite Hz.
  - by rewrite (fr_size _ _ _ _ Hf).
  - apply Z.mod_pos_bound. lia.
  - rewrite (fr_tail _ _ _ _ Hf), Zplus_mod_idemp_l. f_equal. lia.
  - rewrite slice_mod by lia. by apply slice_queue.
  - pose proof (fr_separated _ _ _ _ Hf) as Hs. clear -Hs Hm. revert Hs. generalize lo.
    induction segs as [|s l IH]; intros lo'; cbn; [lia|]. intros (H1 & H2 & H3). split; [done|]. split; [done|]. by apply IH.
  - pose proof (fr_fits _ _ _ _ Hf). lia.
Qed.

(** The reads of a FIFO that is not empty. *)
Lemma reads_ok max :
  0 ≤ max < 2 ^ 32 → Q ≠ [] → let m := Z.min (zlen Q) max in
  svm_fifo_dequeue_nowait f max true = Some (advance_head m f, m, take (Z.to_nat m) Q) ∧
  svm_fifo_dequeue_drop f max = (advance_head m f, m) ∧
  svm_fifo_peek f 0 max = Some (m, take (Z.to_nat m) Q) ∧
  (max ≤ zlen Q → svm_fifo_dequeue_nowait f max false = Some (advance_head max f, max, [])).
Proof using Hf.
  intros Hmax Hne m. pose proof (fr_n _ _ _ _ Hf) as Hn. pose proof (fr_head _ _ _ _ Hf) as Hh.
  pose proof rel_size as Hs. pose proof (fr_size _ _ _ _ Hf) as Hc.
  assert (0 < zlen Q) as Hpos by (destruct Q; [done|rewrite zlen_cons in *; pose proof (zlen_nonneg l); lia]).
  assert (0 ≤ m ≤ zlen Q) as Hm by lia.
  set (first := if nitems f - head f <? m then nitems f - head f else m).
  destruct (wrap_two (nitems f) ltac:(lia) (head f) m first Hh ltac:(lia) eq_refl) as (Hh1 & Hh2 & Hf1 & Hf2).
  destruct (two_reads (nitems f) ltac:(lia) (data f) (head f) m first (fr_data _ _ _ _ Hf) Hh ltac:(lia) eq_refl)
    as (b1 & b2 & Hr1 & Hr2 & Hb2 & Hb).
  rewrite (proj1 (slice_queue m Hm)) in Hb.
  assert ((if cursize f <? max then cursize f else max) = m) as Ht by (case_cond; lia).
  assert (cursize f =? 0 = false) as Hc0 by (apply Z.eqb_neq; lia).
  assert (u32 (nitems f - head f) = nitems f - head f) as Hu1 by (apply u32_small; unfold in_u32; lia).
  assert (u32 (head f + first) = head f + first) as Hu2 by (apply u32_small; unfold in_u32; lia).
  assert (u32 (m - first) = m - first) as Hu3 by (apply u32_small; unfold in_u32; lia).
  assert (u32 (cursize f - m) = cursize f - m) as Hu4 by (apply u32_small; unfold in_u32; lia).
  split; [|split; [|split]].
  - unfold svm_fifo_dequeue_nowait. rewrite Hc0. cbv zeta. rewrite Ht, Hu1. fold first. rewrite Hr1.
    cbn [mbind option_bind]. rewrite Hu2, Hu3. cbn [nitems head with_head].
    destruct (negb (m - first =? 0)) eqn:E; cbn [nitems head with_head data mbind option_bind]; unfold advance_head; rewrite <-Hh2.
    + apply negb_true_iff, Z.eqb_neq in E. specialize (Hh1 E). rewrite Hh1 in *. rewrite Hr2. cbn [mbind option_bind].
      cbn [cursize with_head]. rewrite Hu4, (u32_small (0 + _)) by (unfold in_u32; lia). by rewrite Hb.
    + apply negb_false_iff, Z.eqb_eq in E. cbn [cursize with_head]. rewrite Hu4, <-Hb.
      by rewrite (Hb2 E), app_nil_r.
  - unfold svm_fifo_dequeue_drop. rewrite Hc0. cbv zeta. rewrite Ht, Hu1. fold first. rewrite Hu2, Hu3.
    cbn [nitems head with_head]. unfold advance_head. rewrite <-Hh2.
    destruct (negb (m - first =? 0)) eqn:E; cbn [nitems head cursize with_head]; rewrite Hu4; [|done].
    apply negb_true_iff, Z.eqb_neq in E. rewrite (Hh1 E). by rewrite u32_small by (unfold in_u32; lia).
  - unfold svm_fifo_peek. rewrite Hc0. cbv zeta. rewrite Ht, !Z.add_0_r, Hu1. fold first.
    rewrite (u32_small (head f)), Hr1 by (unfold in_u32; lia). cbn [mbind option_bind]. rewrite Hu3.
    destruct (negb (m - first =? 0)) eqn:E; [rewrite Hr2; cbn [mbind option_bind]; by rewrite Hb|].
    apply negb_false_iff, Z.eqb_eq in E. by rewrite <-Hb, (Hb2 E), app_nil_r.
  - intros Hle. unfold svm_fifo_dequeue_nowait. rewrite Hc0. cbv zeta.
    rewrite (proj2 (Z.leb_le max _)) by lia. cbn [assert mbind option_bind with_head cursize].
    rewrite !u32_small by (unfold in_u32; lia). done.
Qed.
End rel.

(** ** Stores to the pool *)

Lemma seg_upd_ok f i g s :
  seg_get f i = Some s → ∃ p, seg_upd f i g = Some (with_segments p f) ∧
    (pool_ok (ooo_segments f) → pool_ok p) ∧ pool_len p = pool_len (ooo_segments f) ∧
    ∀ j, seg_get (with_segments p f) j = if decide (j = i) then Some (g s) else seg_get f j.
Proof.
  intros Hs. unfold seg_upd. rewrite Hs. cbn [mbind option_bind]. eexists. split; [done|].
  split; [intros; by apply pool_set_ok|]. split; [apply pool_set_len|].
  intros j. unfold seg_get in *. cbn [with_segments ooo_segments]. by rewrite pool_elt_set by by rewrite Hs.
Qed.

Lemma seg_del_pool f i :
  pool_ok (ooo_segments f) → is_Some (seg_get f i) →
  let p := pool_put_index (ooo_segments f) i in
  pool_ok p ∧ pool_len p = pool_len (ooo_segments f) ∧
  ∀ j, seg_get (with_segments p f) j = if decide (j = i) then None else seg_get f j.
Proof.
  intros Hok Hi p. destruct (pool_put_ok _ _ Hok Hi) as (H1 & H2 & H3 & H4). split; [done|]. split; [done|].
  intros j. unfold seg_get. cbn [with_segments ooo_segments]. case_decide; [by subst|by apply H3].
Qed.

Definition invalid : Z := OOO_SEGMENT_INVALID_INDEX.

(** The first segment leaves the list. *)
Lemma del_first n t f s l :
  pool_ok (ooo_segments f) → NoDup (seg_index <$> s :: l) →
  (∀ x, x ∈ s :: l → seg_index x ≠ invalid) →
  dll n t (seg_get f) invalid (s :: l) invalid →
  ∃ p, ooo_segment_del f (seg_index s) = Some (with_list_head (nexti l invalid) (with_segments p f)) ∧
    pool_ok p ∧ pool_len p = pool_len (ooo_segments f) ∧
    (∀ j, is_Some (pool_elt_at_index p j) ↔ j ≠ seg_index s ∧ is_Some (seg_get f j)) ∧
    dll n t (λ j, pool_elt_at_index p j) invalid l invalid.
Proof.
  intros Hok Hnd Hne Hd. pose proof Hd as [Hs Hl]. unfold ooo_segment_del. rewrite Hs. cbn [mbind option_bind next prev].
  rewrite fmap_cons in Hnd. apply NoDup_cons in Hnd as [Hni Hnd].
  assert (∀ x, x ∈ l → seg_index x ≠ seg_index s) as Hdiff.
  { intros x Hx Heq. apply Hni. rewrite <-Heq. by apply list_elem_of_fmap_2. }
  fold invalid. rewrite Z.eqb_refl. cbn [negb].
  destruct l as [|s2 l].
  - cbn [nexti]. rewrite Z.eqb_refl. cbn [negb mbind option_bind]. cbn [with_list_head ooo_segments].
    destruct (seg_del_pool f (seg_index s) Hok ltac:(by eexists)) as (H1 & H2 & H3).
    exists (pool_put_index (ooo_segments f) (seg_index s)).
    split; [reflexivity|]. split; [done|]. split; [done|]. split; [|done].
    intros j. specialize (H3 j). unfold seg_get in H3 at 1. cbn [with_segments ooo_segments] in H3. rewrite H3.
    case_decide; [|intuition]. subst. split; [by intros [? ?]|tauto].
  - cbn [nexti]. rewrite (proj2 (Z.eqb_neq (seg_index s2) invalid)) by (apply Hne; right; by left).
    cbn [negb]. pose proof Hl as [Hs2 _].
    destruct (seg_upd_ok f (seg_index s2) (set_prev invalid) _ Hs2) as (p1 & -> & Hok1 & Hlen1 & Hg1).
    cbn [mbind option_bind]. cbn [with_list_head with_segments ooo_segments].
    set (f1 := with_segments p1 f) in *.
    assert (is_Some (seg_get f1 (seg_index s))) as Hlive.
    { rewrite Hg1. rewrite decide_False; [by eexists|]. intros Heq. apply (Hdiff s2); [by left|done]. }
    destruct (seg_del_pool f1 (seg_index s) (Hok1 Hok) Hlive) as (H1 & H2 & H3).
    exists (pool_put_index p1 (seg_index s)). split; [reflexivity|]. split; [done|].
    split; [rewrite <-Hlen1; exact H2|].
    assert (∀ j, pool_elt_at_index (pool_put_index p1 (seg_index s)) j = if decide (j = seg_index s) then None else seg_get f1 j) as H4
      by exact H3.
    split.
    + intros j. rewrite H4. case_decide; [subst; split; [by intros [? ?]|tauto]|]. rewrite Hg1.
      case_decide; [|tauto]. subst. rewrite Hs2. split; [done|by eexists].
    + eapply (dll_relink_prev n t (seg_get f)); [exact Hnd|exact Hl|].
      intros x Hx. rewrite H4, decide_False by by apply Hdiff. rewrite Hg1. cbn [nexti].
      case_decide as Hxe; [|done]. by rewrite Hxe, Hs2.
Qed.

(** ** Writing at the tail *)

(** The copy of an in-order write. *)
Definition copied (m : Z) (d : list Z) (f : svm_fifo) : svm_fifo :=
  with_tail ((tail f + m) `mod` nitems f) (with_data d f).

Lemma zlen_take m (buf : list Z) : 0 ≤ m ≤ zlen buf → zlen (take (Z.to_nat m) buf) = m.
Proof. intros H. unfold zlen in *. rewrite length_take. lia. Qed.

Lemma shift_index m l : seg_index <$> shift m l = seg_index <$> l.
Proof. unfold shift. rewrite <-list_fmap_compose. by apply list_fmap_ext. Qed.

Lemma elem_of_shift m l x : x ∈ shift m l → ∃ s, s ∈ l ∧ seg_index x = seg_index s ∧
  seg_offset x = seg_offset s - m ∧ seg_bytes x = seg_bytes s.
Proof. intros (s & -> & Hs)%list_elem_of_fmap. by exists s. Qed.

Lemma nexti_shift m l nx : nexti (shift m l) nx = nexti l nx.
Proof. by destruct l. Qed.

(** The bytes queued, and the pending ones, after the copy. *)
Lemma copied_rel f Q segs m buf d :
  fifo_rel f Q segs → 0 ≤ m ≤ zlen buf → m ≤ nitems f - zlen Q →
  match segs with [] => True | s :: _ => m ≤ seg_offset s end →
  ring_put (nitems f) (data f) (tail f) (take (Z.to_nat m) buf) d →
  fifo_rel_from (match segs with [] => 0 | s :: _ => if m =? seg_offset s then -1 else 0 end)
    (with_cursize (cursize f + m) (copied m d f)) (Q ++ take (Z.to_nat m) buf) (shift m segs).
Proof.
  intros Hf Hm Hroom Hfirst Hput. pose proof (fr_n _ _ _ _ Hf) as Hn. pose proof (rel_size _ _ _ _ Hf) as Hs.
  pose proof (zlen_take m buf Hm) as Hz. pose proof (fr_separated _ _ _ _ Hf) as Hsep.
  assert (zlen (Q ++ take (Z.to_nat m) buf) = zlen Q + m) as Hzq by (rewrite zlen_app; lia).
  split; cbn [copied with_cursize with_tail with_data cursize nitems head tail ooo_segments ooos_list_head ooos_newest data];
    try apply Hf; try rewrite Hzq.
  - rewrite (proj1 Hput). apply Hf.
  - by rewrite (fr_size _ _ _ _ Hf).
  - rewrite (fr_tail _ _ _ _ Hf), Zplus_mod_idemp_l. f_equal. lia.
  - rewrite slice_app by lia. f_equal.
    + rewrite <-(fr_queue _ _ _ _ Hf) at 2.
      rewrite <-(slice_mod (nitems f) ltac:(lia) d), <-(slice_mod (nitems f) ltac:(lia) (data f)).
      replace (head f `mod` nitems f) with ((tail f + (nitems f - zlen Q)) `mod` nitems f).
      2: { rewrite (fr_tail _ _ _ _ Hf), Zplus_mod_idemp_l.
           replace (head f + zlen Q + (nitems f - zlen Q)) with (head f + 1 * nitems f) by lia. by rewrite Z.mod_add by lia. }
      rewrite !slice_mod by lia. apply (ring_put_slice _ _ _ _ _ _ _ Hput); lia.
    + rewrite <-(slice_mod (nitems f) ltac:(lia) d), <-(fr_tail _ _ _ _ Hf). rewrite <-Hz at 1.
      apply (ring_put_self _ _ _ _ _ Hput). lia.
  - rewrite shift_index. apply Hf.
  - intros i. rewrite shift_index. apply (fr_live _ _ _ _ Hf i).
  - rewrite nexti_shift. apply Hf.
  - apply (dll_shift _ _ m), Hf.
  - destruct segs as [|s l].
    + cbn. lia.
    + pose proof (separated_shift m _ _ _ Hsep) as Hsh. replace (nitems f - zlen Q - m) with (nitems f - (zlen Q + m)) in Hsh by lia.
      cbn [shift fmap list_fmap separated] in Hsh |- *. destruct Hsh as (_ & H2 & H3).
      change (seg_offset (seg_index s, seg_offset s - m, seg_bytes s)) with (seg_offset s - m).
      split; [case_cond; lia|done].
  - lia.
  - intros x (s & Hin & _ & -> & ->)%elem_of_shift.
    rewrite <-(slice_mod (nitems f) ltac:(lia) d), Zplus_mod_idemp_l, (slice_mod (nitems f) ltac:(lia) d).
    replace (tail f + m + (seg_offset s - m)) with (tail f + seg_offset s) by lia.
    rewrite <-(fr_bytes _ _ _ _ Hf s Hin) at 2. destruct segs as [|s1 l]; [by apply elem_of_nil in Hin|].
    destruct (separated_bounds _ _ _ _ Hsep Hin) as (H1 & H2 & H3).
    assert (seg_offset s1 ≤ seg_offset s).
    { apply elem_of_cons in Hin as [->|Hin]; [done|]. destruct Hsep as (_ & ? & Hl).
      destruct (separated_bounds _ _ _ _ Hl Hin). unfold seg_end in *. lia. }
    unfold seg_end in H3. apply (ring_put_slice _ _ _ _ _ _ _ Hput); lia.
Qed.

(** A segment that starts at the tail joins the queue. *)
Lemma collected_rel lo f Q s l p :
  fifo_rel_from lo f Q (s :: l) → seg_offset s = 0 →
  pool_ok p → pool_len p = pool_len (ooo_segments f) →
  (∀ j, is_Some (pool_elt_at_index p j) ↔ j ≠ seg_index s ∧ is_Some (seg_get f j)) →
  dll (nitems f) (tail f) (λ j, pool_elt_at_index p j) invalid l invalid →
  let m := zlen (seg_bytes s) in
  fifo_rel (with_cursize (cursize f + m) (with_list_head (nexti l invalid)
    (with_segments p (with_tail ((tail f + m) `mod` nitems f) f)))) (Q ++ seg_bytes s) (shift m l).
Proof.
  intros Hf H0 Hok Hlen Hlive Hdll m. pose proof (fr_n _ _ _ _ Hf) as Hn. pose proof (rel_size _ _ _ _ Hf) as Hs.
  pose proof (fr_separated _ _ _ _ Hf) as (Hlo & Hpos & Hsep). unfold seg_end in Hsep. rewrite H0, Z.add_0_l in Hsep. fold m in Hpos, Hsep.
  pose proof (separated_le _ _ _ Hsep) as Hroom.
  assert (zlen (Q ++ seg_bytes s) = zlen Q + m) as Hzq by apply zlen_app.
  pose proof (fr_nodup _ _ _ _ Hf) as Hnd. rewrite fmap_cons in Hnd. apply NoDup_cons in Hnd as [Hni Hnd].
  split; cbn [with_cursize with_list_head with_segments with_tail cursize nitems head tail ooo_segments ooos_list_head ooos_newest data];
    try apply Hf; try rewrite Hzq; try rewrite shift_index; try done.
  - by rewrite (fr_size _ _ _ _ Hf).
  - rewrite (fr_tail _ _ _ _ Hf), Zplus_mod_idemp_l. f_equal. lia.
  - rewrite slice_app by lia. rewrite (fr_queue _ _ _ _ Hf). f_equal.
    rewrite <-(slice_mod (nitems f) ltac:(lia)), <-(fr_tail _ _ _ _ Hf).
    pose proof (fr_bytes _ _ _ _ Hf s ltac:(by left)) as Hb. by rewrite H0, Z.add_0_r in Hb.
  - rewrite Hlen. apply Hf.
  - intros i. unfold seg_get. cbn. rewrite Hlive, (fr_live _ _ _ _ Hf i), fmap_cons, elem_of_cons.
    split; [intuition|]. intros Hi. split; [|by right]. by intros ->.
  - by rewrite nexti_shift.
  - by apply (dll_shift _ _ m).
  - pose proof (separated_shift m _ _ _ Hsep) as Hsh. rewrite Z.sub_diag in Hsh.
    by replace (nitems f - (zlen Q + m)) with (nitems f - zlen Q - m) by lia.
  - lia.
  - intros x (y & Hin & _ & -> & ->)%elem_of_shift.
    rewrite <-(slice_mod (nitems f) ltac:(lia)), Zplus_mod_idemp_l, (slice_mod (nitems f) ltac:(lia)).
    replace (tail f + m + (seg_offset y - m)) with (tail f + seg_offset y) by lia. apply (fr_bytes _ _ _ _ Hf). by right.
Qed.

(** [ooo_segment_try_collect] after [m] bytes: the segment apart from the tail stays,
    the one that starts at the tail is collected. *)
Lemma try_collect_ok lo f Q s l m :
  fifo_rel_from lo f Q (s :: l) → -1 ≤ lo → 0 ≤ m →
  let g := with_cursize (cursize f - m) f in
  m ≤ zlen Q →
  (0 < seg_offset s → ooo_segment_try_collect g m = Some (g, 0)) ∧
  (seg_offset s = 0 → ∃ p, ooo_segment_try_collect g m = Some
      (with_list_head (nexti l invalid) (with_segments p (with_tail ((tail f + zlen (seg_bytes s)) `mod` nitems f) g)), zlen (seg_bytes s)) ∧
      pool_ok p ∧ pool_len p = pool_len (ooo_segments f) ∧
      (∀ j, is_Some (pool_elt_at_index p j) ↔ j ≠ seg_index s ∧ is_Some (seg_get f j)) ∧
      dll (nitems f) (tail f) (λ j, pool_elt_at_index p j) invalid l invalid).
Proof.
  intros Hf Hlo Hm0 g Hm2. pose proof (fr_n _ _ _ _ Hf) as Hn. pose proof (rel_size _ _ _ _ Hf) as Hs.
  pose proof (rel_tail_range _ _ _ _ Hf) as Ht. pose proof (fr_size _ _ _ _ Hf) as Hc.
  pose proof (fr_separated _ _ _ _ Hf) as Hsep. pose proof Hsep as (Hsl & Hpos & Hrest).
  pose proof (separated_le _ _ _ Hrest) as Hend. unfold seg_end in Hend.
  pose proof (fr_list _ _ _ _ Hf) as Hd. pose proof Hd as [Hseg _].
  assert (seg_get g (ooos_list_head g) = seg_get f (seg_index s)) as Hg.
  { cbn [g with_cursize ooos_list_head]. by rewrite (fr_list_head _ _ _ _ Hf). }
  unfold ooo_segment_try_collect. rewrite Hg, Hseg. cbn [mbind option_bind fifo_position].
  cbn [g with_cursize nitems tail].
  set (pos := (tail f + seg_offset s) `mod` nitems f).
  assert (0 ≤ pos < nitems f) as Hp by (apply Z.mod_pos_bound; lia).
  assert (u32 (u32 (nitems f + tail f) - pos) = nitems f + tail f - pos) as Hu.
  { rewrite (u32_small (nitems f + tail f)) by (unfold in_u32; lia). apply u32_small. unfold in_u32. lia. }
  assert ((nitems f + tail f - pos) `mod` nitems f = if decide (seg_offset s = 0) then 0 else nitems f - seg_offset s) as Hdiff.
  { unfold pos. rewrite mod_cases by lia. destruct (decide (seg_offset s = 0)).
    - replace (seg_offset s) with 0 by lia. case_decide; [|lia]. rewrite Z.add_0_r.
      replace (nitems f + tail f - tail f) with (1 * nitems f) by lia. by rewrite Z.mod_mul by lia.
    - case_decide.
      + replace (nitems f + tail f - (tail f + seg_offset s)) with (nitems f - seg_offset s) by lia. by rewrite Z.mod_small by lia.
      + symmetry. apply (Z.mod_unique_pos _ _ 1); lia. }
  rewrite Hu, Hdiff. split; intros Hoff.
  - rewrite decide_False by lia. unfold list_fuel. cbn [collect_loop].
    assert ((0 <? nitems f - seg_offset s) && (nitems f - seg_offset s <? m) = false) as ->.
    { apply andb_false_iff. right. apply Z.ltb_ge. lia. }
    cbn [mbind option_bind]. by rewrite (proj2 (Z.eqb_neq (nitems f - seg_offset s) 0)) by lia.
  - rewrite decide_True by done. unfold list_fuel. cbn [collect_loop].
    assert ((0 <? 0) && (0 <? m) = false) as -> by done. cbn [mbind option_bind]. rewrite Z.eqb_refl, Hg, Hseg.
    cbn [mbind option_bind length]. change (nitems g) with (nitems f). change (cursize g) with (cursize f - m). change (tail g) with (tail f).
    assert (u32 (nitems f - (cursize f - m)) = nitems f - (cursize f - m)) as -> by (apply u32_small; unfold in_u32; lia).
    rewrite (proj2 (Z.leb_le (zlen (seg_bytes s)) _)) by lia.
    rewrite u32_small by (unfold in_u32; lia).
    set (h := with_tail ((tail f + zlen (seg_bytes s)) `mod` nitems f) g).
    destruct (del_first (nitems f) (tail f) h s l) as (p & Hdel & Hp1 & Hp2 & Hp3 & Hp4).
    + apply Hf.
    + apply Hf.
    + intros x Hx. apply (seg_range _ _ _ _ Hf). by apply list_elem_of_fmap_2.
    + exact Hd.
    + change (ooos_list_head g) with (ooos_list_head f). rewrite (fr_list_head _ _ _ _ Hf). cbn [nexti].
      exists p. split; [|done]. etransitivity; [exact (f_equal (λ o, f0 ← o; Some (f0, zlen (seg_bytes s))) Hdel)|done].
Qed.

(** ** The in-order write *)

(** The bytes of the segment that the write reaches, and the segments left. *)
Definition reached (m : Z) (segs : list segment) : list Z * list segment :=
  match segs with
  | [] => ([], [])
  | s :: l => if m =? seg_offset s then (seg_bytes s, l) else ([], segs)
  end.

Definition first_offset (segs : list segment) (dflt : Z) : Z :=
  match segs with [] => dflt | s :: _ => seg_offset s end.

Lemma shift_shift a b l : shift a (shift b l) = shift (b + a) l.
Proof.
  unfold shift. rewrite <-list_fmap_compose. apply list_fmap_ext. intros i x _. unfold seg_index, seg_offset, seg_bytes. simpl.
  f_equal. f_equal. lia.
Qed.

(** The copy of [m] bytes. *)
Lemma enqueue_copy f Q segs max buf :
  fifo_rel f Q segs → 0 ≤ max < 2 ^ 32 → max ≤ zlen buf → zlen Q < nitems f →
  let m := Z.min (nitems f - zlen Q) max in
  ∃ d, ring_put (nitems f) (data f) (tail f) (take (Z.to_nat m) buf) d ∧
    svm_fifo_enqueue_nowait f max (Some buf) =
    '(g, total) ← (if negb (ooos_list_head f =? OOO_SEGMENT_INVALID_INDEX) then
                     '(g, bytes) ← ooo_segment_try_collect (copied m d f) m; Some (g, u32 (m + bytes))
                   else Some (copied m d f, m));
    Some (with_cursize (u32 (cursize g + total)) g, total).
Proof.
  intros Hf Hmax Hbuf Hroom m. pose proof (fr_n _ _ _ _ Hf) as Hn. pose proof (fr_size _ _ _ _ Hf) as Hc.
  pose proof (rel_tail_range _ _ _ _ Hf) as Ht. pose proof (rel_size _ _ _ _ Hf) as Hs.
  set (first := if nitems f - tail f <? m then nitems f - tail f else m).
  destruct (wrap_two (nitems f) ltac:(lia) (tail f) m first Ht ltac:(lia) eq_refl) as (Hw1 & Hw2 & Hf1 & Hf2).
  destruct (two_copies (nitems f) ltac:(lia) (data f) (tail f) buf m first (fr_data _ _ _ _ Hf) Ht ltac:(lia) ltac:(lia) eq_refl)
    as (b1 & d1 & b2 & d2 & Hr1 & Hm1 & Hr2 & Hm2 & Hd & _ & Hput).
  exists d2. split; [done|].
  unfold svm_fifo_enqueue_nowait. rewrite (proj2 (Z.eqb_neq (cursize f) _)) by lia.
  assert (u32 (nitems f - cursize f) = nitems f - zlen Q) as -> by (rewrite Hc; apply u32_small; unfold in_u32; lia).
  assert ((if nitems f - zlen Q <? max then nitems f - zlen Q else max) = m) as -> by (case_cond; lia).
  assert (u32 (nitems f - tail f) = nitems f - tail f) as -> by (apply u32_small; unfold in_u32; lia).
  cbv zeta. fold first. rewrite Hr1. cbn [mbind option_bind]. rewrite Hm1. cbn [mbind option_bind].
  rewrite (u32_small (m - first)) by (unfold in_u32; lia).
  change (tail (with_data d1 f)) with (tail f). change (nitems (with_data d1 f)) with (nitems f).
  rewrite (u32_small (tail f + first)) by (unfold in_u32; lia).
  unfold copied. rewrite <-Hw2.
  destruct (negb (m - first =? 0)) eqn:E.
  - rewrite Hr2. cbn [mbind option_bind]. apply negb_true_iff, Z.eqb_neq in E. rewrite (Hw1 E).
    cbn [with_tail with_data data tail]. rewrite Hm2. cbn [mbind option_bind with_tail tail nitems ooos_list_head].
    by rewrite (u32_small (0 + (m - first))) by (unfold in_u32; lia).
  - apply negb_false_iff, Z.eqb_eq in E. rewrite (Hd E). reflexivity.
Qed.

Lemma enqueue_ok f Q segs max buf :
  fifo_rel f Q segs → 0 ≤ max < 2 ^ 32 → max ≤ zlen buf → zlen Q < nitems f →
  let m := Z.min (nitems f - zlen Q) max in
  m ≤ first_offset segs m →
  let '(cb, rest) := reached m segs in
  ∃ f', svm_fifo_enqueue_nowait f max (Some buf) = Some (f', m + zlen cb) ∧
    nitems f' = nitems f ∧
    fifo_rel f' (Q ++ take (Z.to_nat m) buf ++ cb) (shift (m + zlen cb) rest).
Proof.
  intros Hf Hmax Hbuf Hroom m Hfirst.
  pose proof (fr_n _ _ _ _ Hf) as Hn. pose proof (fr_size _ _ _ _ Hf) as Hc. pose proof (rel_size _ _ _ _ Hf) as Hs.
  destruct (enqueue_copy f Q segs max buf Hf Hmax Hbuf Hroom) as (d & Hput & Henq). fold m in Hput, Henq.
  rewrite Henq, (list_head_nil _ _ _ _ Hf). clear Henq.
  assert (match segs with [] => True | s :: _ => m ≤ seg_offset s end) as Hfirst' by by destruct segs.
  pose proof (copied_rel f Q segs m buf d Hf ltac:(lia) ltac:(lia) Hfirst' Hput) as Hg.
  pose proof (zlen_take m buf ltac:(lia)) as Hz.
  destruct segs as [|s l]; cbn [negb reached].
  - cbn [mbind option_bind]. change (cursize (copied m d f)) with (cursize f).
    rewrite u32_small by (unfold in_u32; lia). rewrite Z.add_0_r, app_nil_r. eexists. split; [done|]. split; [done|exact Hg].
  - set (F := with_cursize (cursize f + m) (copied m d f)) in *.
    assert (with_cursize (cursize F - m) F = copied m d f) as HF.
    { change (with_cursize (cursize f + m - m) (copied m d f) = copied m d f). by rewrite Z.add_simpl_r. }
    cbn [shift fmap list_fmap] in Hg. set (s' := (seg_index s, seg_offset s - m, seg_bytes s)) in *.
    assert (zlen (Q ++ take (Z.to_nat m) buf) = zlen Q + m) as Hzq by (rewrite zlen_app; lia).
    pose proof (fr_separated _ _ _ _ Hf) as (H1 & H2 & H3). pose proof (separated_le _ _ _ H3) as H4. unfold seg_end in H4.
    assert (-1 ≤ (if m =? seg_offset s then -1 else 0)) as Hlo by (case_cond; lia).
    destruct (try_collect_ok _ F _ s' (shift m l) m Hg Hlo ltac:(lia) ltac:(lia)) as [Hapart Hmeet].
    rewrite HF in Hapart, Hmeet.
    change (seg_offset s') with (seg_offset s - m) in Hapart, Hmeet. change (seg_bytes s') with (seg_bytes s) in Hmeet.
    change (seg_index s') with (seg_index s) in Hmeet.
    destruct (m =? seg_offset s) eqn:E; bool_to_prop.
    + destruct (Hmeet ltac:(lia)) as (p & -> & Hp1 & Hp2 & Hp3 & Hp4). cbn [mbind option_bind].
      cbn [with_list_head with_segments with_tail cursize]. change (cursize (copied m d f)) with (cursize f).
      rewrite (u32_small (m + zlen (seg_bytes s))) by (unfold in_u32; lia).
      rewrite u32_small by (unfold in_u32; lia).
      pose proof (collected_rel _ F _ s' (shift m l) p Hg ltac:(unfold s'; cbn; lia) Hp1 Hp2 Hp3 Hp4) as Hfinal.
      cbv zeta in Hfinal. change (seg_bytes s') with (seg_bytes s) in Hfinal.
      rewrite shift_shift, <-app_assoc in Hfinal.
      eexists. split; [done|]. split; [done|].
      change (cursize F) with (cursize f + m) in Hfinal. rewrite <-Z.add_assoc in Hfinal. exact Hfinal.
    + assert (m < seg_offset s) as Hlt by lia. rewrite (Hapart ltac:(lia)). cbn [mbind option_bind].
      change (cursize (copied m d f)) with (cursize f). rewrite (u32_small (m + 0)) by (unfold in_u32; lia).
      rewrite u32_small by (unfold in_u32; lia). change (zlen (@nil Z)) with 0. rewrite app_nil_r, !Z.add_0_r.
      eexists. split; [done|]. split; [done|]. exact Hg.
Qed.

(** ** The out-of-order write *)

Lemma separated_length lo l hi : separated lo l hi → lo + 2 * zlen l ≤ hi.
Proof.
  revert lo. induction l as [|s l IH]; intros lo; cbn [separated]; [change (zlen []) with 0; lia|].
  intros (H1 & H2 & H3%IH). rewrite zlen_cons. unfold seg_end in H3. lia.
Qed.

(** A new segment between [l1] and [l2]. *)
Lemma insert_dll n t G G' l1 l2 s :
  NoDup (seg_index <$> l1 ++ l2) → dll n t G invalid (l1 ++ l2) invalid →
  G' (seg_index s) = Some (Seg (nexti l2 invalid) (lasti invalid l1) ((t + seg_offset s) `mod` n) (zlen (seg_bytes s))) →
  (∀ x, x ∈ l1 → G' (seg_index x) = if decide (seg_index x = lasti invalid l1) then set_next (seg_index s) <$> G (seg_index x) else G (seg_index x)) →
  (∀ x, x ∈ l2 → G' (seg_index x) = if decide (seg_index x = nexti l2 invalid) then set_prev (seg_index s) <$> G (seg_index x) else G (seg_index x)) →
  dll n t G' invalid (l1 ++ s :: l2) invalid.
Proof.
  intros Hnd Hd Hs H1 H2. rewrite fmap_app in Hnd. apply list.NoDup_app in Hnd as (Hnd1 & _ & Hnd2).
  apply dll_app in Hd as [Hd1 Hd2]. apply dll_app. cbn [nexti dll]. split; [|split; [exact Hs|]].
  - by eapply dll_relink_next.
  - by eapply dll_relink_prev.
Qed.

Lemma new_segment f Q segs start len :
  fifo_rel f Q segs → ∃ p i, ooo_segment_new f start len = (with_segments p f, i) ∧
    pool_ok p ∧ (pool_len p = pool_len (ooo_segments f) ∨ pool_len p ≤ zlen segs + 1) ∧ i ∉ seg_index <$> segs ∧ i ≠ invalid ∧
    ∀ j, pool_elt_at_index p j = if decide (j = i) then Some (Seg invalid invalid start len) else seg_get f j.
Proof.
  intros Hf. pose proof (fr_n _ _ _ _ Hf) as Hn. pose proof (fr_pool_len _ _ _ _ Hf) as Hl.
  unfold ooo_segment_new. destruct (pool_get zero_segment (ooo_segments f)) as [p i] eqn:Hg.
  destruct (pool_get_ok _ _ _ _ (fr_pool _ _ _ _ Hf) ltac:(lia) Hg) as (Hok & Hnone & Hsome & Hoth & Hr & Hlen & _).
  exists (pool_set p i (Seg invalid invalid start len)), i. split; [done|]. split; [by apply pool_set_ok|].
  split. { rewrite pool_set_len. destruct (pool_get_len _ _ _ _ Hg) as [?|[He ->]]; [by left|right].
    pose proof (pool_elts_le (ooo_segments f) (seg_index <$> segs) (fr_pool _ _ _ _ Hf) (λ i, proj1 (fr_live _ _ _ _ Hf i))) as Hle.
    unfold zlen in *. rewrite length_fmap in Hle. lia. }
  split. { intros Hin. apply (fr_live _ _ _ _ Hf) in Hin as [x Hx]. unfold seg_get in Hx. congruence. }
  split. { apply elt_Some in Hsome as [Hri _]; [|done]. unfold invalid, OOO_SEGMENT_INVALID_INDEX, u32_max. lia. }
  intros j. rewrite pool_elt_set by done. case_decide; [done|]. unfold seg_get. by rewrite Hoth.
Qed.

Lemma index_ne_nexti l1 l2 x :
  NoDup (seg_index <$> l1 ++ l2) → x ∈ l1 → seg_index x ≠ invalid → seg_index x ≠ nexti l2 invalid.
Proof.
  intros Hnd Hx Hne Heq. rewrite fmap_app in Hnd. apply list.NoDup_app in Hnd as (_ & Hni & _).
  destruct l2 as [|y l2]; [done|]. apply (Hni (seg_index x)); [by apply list_elem_of_fmap_2|]. rewrite Heq. by left.
Qed.

Lemma index_ne_lasti l1 l2 x :
  NoDup (seg_index <$> l1 ++ l2) → x ∈ l2 → seg_index x ≠ invalid → seg_index x ≠ lasti invalid l1.
Proof.
  intros Hnd Hx Hne Heq. rewrite fmap_app in Hnd. apply list.NoDup_app in Hnd as (_ & Hni & _).
  destruct (decide (l1 = [])) as [->|Hl]; [done|]. destruct (lasti_elem invalid l1 Hl) as (y & Hy & Hye).
  apply (Hni (seg_index y)); [by apply list_elem_of_fmap_2|]. rewrite <-Hye, <-Heq. by apply list_elem_of_fmap_2.
Qed.

Section insert.
Context (f : svm_fifo) (Q : list Z) (l1 l2 : list segment) (off : Z) (b : list Z).
Hypothesis Hf : fifo_rel f Q (l1 ++ l2).
Hypothesis Hoff : 0 < off.
Hypothesis Hb : 0 < zlen b.
Hypothesis Hend : off + zlen b ≤ nitems f - zlen Q.
Hypothesis H1 : ∀ s, s ∈ l1 → seg_end s < off.
Hypothesis H2 : ∀ s, s ∈ l2 → off + zlen b < seg_offset s.

Lemma offset_of s : s ∈ l1 ++ l2 →
  ∃ r, seg_get f (seg_index s) = Some r ∧ ooo_segment_offset f r = seg_offset s ∧
    ooo_segment_end_offset f r = seg_end s `mod` nitems f ∧ length r = zlen (seg_bytes s).
Proof using Hf.
  intros Hin. pose proof (fr_n _ _ _ _ Hf) as Hn. pose proof (rel_size _ _ _ _ Hf) as Hs. pose proof (rel_tail_range _ _ _ _ Hf) as Ht.
  destruct (separated_bounds _ _ _ _ (fr_separated _ _ _ _ Hf) Hin) as (Ho & Hl & He). unfold seg_end in *.
  apply list_elem_of_lookup_1 in Hin as [k Hk]. apply list_elem_of_split_length in Hk as (la & lb & Heq & _).
  pose proof (fr_list _ _ _ _ Hf) as Hd. rewrite Heq in Hd. apply dll_app in Hd as [_ [Hd _]].
  eexists. split; [exact Hd|]. unfold ooo_segment_offset, ooo_segment_end_offset. cbn [fifo_position length].
  assert (0 ≤ (tail f + seg_offset s) `mod` nitems f < nitems f) as Hp by (apply Z.mod_pos_bound; lia).
  rewrite mod_cases in * by lia. split; [|split; [|done]].
  - rewrite (u32_small (nitems f + _)) by (unfold in_u32; lia). rewrite u32_small by (unfold in_u32; case_decide; lia).
    case_decide; [|rewrite Z.mod_small; lia].
    replace (nitems f + (tail f + seg_offset s) - tail f) with (seg_offset s + 1 * nitems f) by lia.
    rewrite Z.mod_add by lia. apply Z.mod_small. lia.
  - rewrite (u32_small (nitems f + _ + _)) by (unfold in_u32; lia). rewrite u32_small by (unfold in_u32; case_decide; lia).
    case_decide; [|f_equal; lia].
    replace (nitems f + (tail f + seg_offset s) + zlen (seg_bytes s) - tail f)
      with (seg_offset s + zlen (seg_bytes s) + 1 * nitems f) by lia. by rewrite Z.mod_add by lia.
Qed.

(** The search stops before the first segment of [l2], or at the last one of [l1]. *)
Lemma find_ok fuel la lb :
  l1 = la ++ lb → lb ++ l2 ≠ [] → (List.length (lb ++ l2) ≤ fuel)%nat →
  find_segment fuel f off (nexti (lb ++ l2) invalid) = Some (match l2 with [] => lasti invalid l1 | s :: _ => seg_index s end).
Proof using Hf H1 H2 Hb.
  intros Hla Hne. revert fuel la Hla Hne. induction lb as [|s lb IH]; intros fuel la Hla Hne Hfuel.
  - pose proof offset_of as Hof. destruct l2 as [|s l2']; [done|]. destruct fuel as [|fuel]; [cbn in Hfuel; lia|].
    cbn [find_segment app nexti]. destruct (Hof s) as (r & -> & Ho & _); [apply elem_of_app; right; by left|].
    cbn [mbind option_bind]. rewrite Ho. rewrite (proj2 (Z.leb_gt (seg_offset s) off)), andb_false_r; [done|].
    specialize (H2 s ltac:(by left)). lia.
  - destruct fuel as [|fuel]; [cbn in Hfuel; lia|]. cbn [app nexti find_segment].
    assert (s ∈ l1) as Hin by (rewrite Hla; apply elem_of_app; right; by left).
    destruct (offset_of s) as (r & Hr & Ho & _); [apply elem_of_app; by left|].
    rewrite Hr. cbn [mbind option_bind]. rewrite Ho. rewrite (proj2 (Z.leb_le (seg_offset s) off)).
    2: { specialize (H1 s Hin). unfold seg_end in H1. pose proof (zlen_nonneg (seg_bytes s)). lia. }
    rewrite andb_true_r.
    pose proof (fr_list _ _ _ _ Hf) as Hd. rewrite Hla, <-app_assoc in Hd. apply dll_app in Hd as [_ [Hd _]].
    rewrite Hr in Hd. injection Hd as ->. cbn [next]. fold invalid.
    destruct (decide (lb ++ l2 = [])) as [Hnil|Hnn].
    + apply app_eq_nil in Hnil as [-> ->]. cbn [app nexti]. rewrite Z.eqb_refl. cbn [negb].
      by rewrite Hla, lasti_snoc.
    + assert (nexti (lb ++ l2) invalid ≠ invalid) as Hni.
      { destruct (lb ++ l2) as [|s' l'] eqn:E; [done|]. cbn [nexti]. apply (seg_range _ _ _ _ Hf).
        apply list_elem_of_fmap_2. rewrite Hla, <-app_assoc. apply elem_of_app. right. cbn [app]. rewrite E. right. by left. }
      rewrite (proj2 (Z.eqb_neq _ _) Hni). cbn [negb].
      apply (IH fuel (la ++ [s])); [by rewrite <-app_assoc|done|]. cbn in Hfuel. lia.
Qed.

(** What the insertion leaves. *)
Definition inserted (p : pool ooo_segment) (i : Z) : Prop :=
  pool_ok p ∧ pool_len p ≤ nitems f ∧ i ∉ seg_index <$> l1 ++ l2 ∧ i ≠ invalid ∧
  (∀ j, is_Some (pool_elt_at_index p j) ↔ j = i ∨ is_Some (seg_get f j)) ∧
  dll (nitems f) (tail f) (λ j, pool_elt_at_index p j) invalid (l1 ++ (i, off, b) :: l2) invalid.

Let position := (tail f + off) `mod` nitems f.

(** The stores of an insertion, as a map from indices to segments. *)
Definition linked (G : Z → option ooo_segment) (i : Z) (j : Z) : option ooo_segment :=
  if decide (j = i) then Some (Seg (nexti l2 invalid) (lasti invalid l1) position (zlen b))
  else if decide (j = lasti invalid l1) then set_next i <$> G j
  else if decide (j = nexti l2 invalid) then set_prev i <$> G j
  else G j.

Lemma inserted_ok p i :
  pool_ok p → pool_len p = pool_len (ooo_segments f) ∨ pool_len p ≤ zlen (l1 ++ l2) + 1 →
  i ∉ seg_index <$> l1 ++ l2 → i ≠ invalid →
  (∀ j, pool_elt_at_index p j = linked (seg_get f) i j) → inserted p i.
Proof using Hf Hoff Hb Hend.
  intros Hok Hlen Hi Hin HG. pose proof (fr_n _ _ _ _ Hf) as Hn.
  assert (∀ x, x ∈ l1 ++ l2 → seg_index x ≠ i ∧ seg_index x ≠ invalid) as Hne.
  { intros x Hx. assert (seg_index x ∈ seg_index <$> l1 ++ l2) as Hx' by by apply list_elem_of_fmap_2.
    split; [intros Heq; by rewrite Heq in Hx'|]. by apply (seg_range _ _ _ _ Hf). }
  split; [done|]. split.
  { pose proof (fr_pool_len _ _ _ _ Hf). pose proof (separated_length _ _ _ (fr_separated _ _ _ _ Hf)).
    pose proof (zlen_nonneg (l1 ++ l2)). pose proof (rel_size _ _ _ _ Hf). lia. }
  split; [done|]. split; [done|]. split.
  - intros j. rewrite HG. unfold linked. destruct (decide (j = i)); [naive_solver|].
    assert (∀ g : ooo_segment → ooo_segment, is_Some (g <$> seg_get f j) ↔ j = i ∨ is_Some (seg_get f j)) as Hg
      by (intros g; rewrite fmap_is_Some; tauto).
    repeat case_decide; try apply Hg. tauto.
  - apply (insert_dll _ _ (seg_get f)); cbn [seg_index fst snd].
    + apply Hf.
    + apply Hf.
    + rewrite HG. unfold linked. change (seg_index (i, off, b)) with i. by rewrite decide_True.
    + intros x Hx. destruct (Hne x ltac:(apply elem_of_app; by left)) as [Hxi Hxv].
      rewrite HG. unfold linked. rewrite decide_False by done.
      rewrite (decide_False (P := seg_index x = nexti l2 invalid)); [done|].
      by apply (index_ne_nexti l1); [apply (fr_nodup _ _ _ _ Hf)|..].
    + intros x Hx. destruct (Hne x ltac:(apply elem_of_app; by right)) as [Hxi Hxv].
      rewrite HG. unfold linked. rewrite decide_False by done.
      rewrite (decide_False (P := seg_index x = lasti invalid l1)); [done|].
      by apply (index_ne_lasti l1 l2); [apply (fr_nodup _ _ _ _ Hf)|..].
Qed.

Lemma link_elt j : j ≠ invalid → (j = lasti invalid l1 ∨ j = nexti l2 invalid) → ∃ r, seg_get f j = Some r.
Proof using All.
  intros Hj Hc. enough (is_Some (seg_get f j)) as [r ?] by by exists r.
  apply (fr_live _ _ _ _ Hf). rewrite fmap_app. apply elem_of_app. destruct Hc as [->| ->].
  - left. destruct (decide (l1 = [])) as [Hl|Hl]; [by rewrite Hl in Hj|].
    destruct (lasti_elem invalid l1 Hl) as (y & Hy & ->). by apply list_elem_of_fmap_2.
  - right. destruct l2; [done|]. by left.
Qed.

Lemma add_before_ok : l2 ≠ [] →
  ∃ p i, add_before f position (zlen b) (nexti l2 invalid) =
    Some (with_newest i (with_list_head (nexti (l1 ++ (i, off, b) :: l2) invalid) (with_segments p f))) ∧ inserted p i.
Proof using All.
  intros Hl2. destruct (new_segment f Q (l1 ++ l2) position (zlen b) Hf) as (p0 & i & Hnew & Hok0 & Hlen0 & Hi & Hinv & HG0).
  assert (nexti l2 invalid ≠ invalid ∧ nexti l2 invalid ≠ i) as [Hsv Hsi].
  { assert (nexti l2 invalid ∈ seg_index <$> l1 ++ l2) as Hin
      by (rewrite fmap_app; apply elem_of_app; right; destruct l2; [done|by left]).
    split; [by apply (seg_range _ _ _ _ Hf)|by intros <-]. }
  unfold add_before. rewrite Hnew. set (f0 := with_segments p0 f).
  assert (∀ j, seg_get f0 j = if decide (j = i) then Some (Seg invalid invalid position (zlen b)) else seg_get f j) as HGf0 by exact HG0.
  assert (∃ nx len po, seg_get f (nexti l2 invalid) = Some (Seg nx (lasti invalid l1) po len)) as (nx & len & po & Hs).
  { pose proof (fr_list _ _ _ _ Hf) as Hd. apply dll_app in Hd as [_ Hd]. destruct l2 as [|s l2']; [done|].
    destruct Hd as [Hd _]. cbn [nexti]. eauto. }
  rewrite HGf0, decide_False, Hs by done. cbn [mbind option_bind prev]. fold invalid.
  destruct (lasti invalid l1 =? invalid) eqn:E; bool_to_prop; cbn [negb].
  - (* no previous segment *)
    assert (l1 = []) as Hl1.
    { destruct (decide (l1 = [])) as [|Hl]; [done|]. destruct (lasti_elem invalid l1 Hl) as (y & Hy & Hye).
      exfalso. rewrite Hye in E. apply (seg_range _ _ _ _ Hf (seg_index y)); [|done].
      apply list_elem_of_fmap_2. apply elem_of_app. by left. }
    cbn [mbind option_bind]. set (f1 := with_list_head i f0).
    assert (seg_get f1 i = Some (Seg invalid invalid position (zlen b))) as Hg1 by (change (seg_get f0 i = Some (Seg invalid invalid position (zlen b))); rewrite HGf0; by rewrite decide_True).
    destruct (seg_upd_ok f1 i (set_next (nexti l2 invalid)) _ Hg1) as (p1 & -> & Hok1 & Hlen1 & HG1).
    cbn [mbind option_bind]. set (f2 := with_segments p1 f1) in *.
    assert (seg_get f2 (nexti l2 invalid) = Some (Seg nx (lasti invalid l1) po len)) as Hg2.
    { rewrite HG1, decide_False by done. change (seg_get f0 (nexti l2 invalid) = Some (Seg nx (lasti invalid l1) po len)). by rewrite HGf0, decide_False. }
    destruct (seg_upd_ok f2 (nexti l2 invalid) (set_prev i) _ Hg2) as (p2 & -> & Hok2 & Hlen2 & HG2).
    cbn [mbind option_bind]. exists p2, i. split; [by rewrite Hl1|].
    apply inserted_ok; [by apply Hok2, Hok1|rewrite Hlen2; change (ooo_segments f2) with p1; rewrite Hlen1; exact Hlen0|done|done|].
    intros j. change (pool_elt_at_index p2 j) with (seg_get (with_segments p2 f2) j). rewrite HG2, HG1.
    change (seg_get f1 j) with (seg_get f0 j). rewrite HGf0. unfold linked. rewrite E.
    destruct (decide (j = i)) as [->|Hji]; [by rewrite decide_False by done|].
    destruct (decide (j = nexti l2 invalid)) as [->|]; [rewrite decide_False by done; by rewrite Hs|].
    destruct (decide (j = invalid)) as [->|]; [|done].
    destruct (seg_get f invalid) eqn:Eiv; [|done]. exfalso.
    apply (seg_range _ _ _ _ Hf invalid); [|done]. apply (fr_live _ _ _ _ Hf). by eexists.
  - (* after a previous segment *)
    assert (l1 ≠ []) as Hl1 by by intros ->.
    destruct (link_elt (lasti invalid l1) E ltac:(by left)) as [rp Hrp].
    assert (lasti invalid l1 ≠ i) as Hpi.
    { intros <-. apply Hi. destruct (lasti_elem invalid l1 Hl1) as (y & Hy & ->). apply list_elem_of_fmap_2, elem_of_app. by left. }
    assert (nexti l2 invalid ≠ lasti invalid l1) as Hdist.
    { pose proof (fr_nodup _ _ _ _ Hf) as Hnd. clear -Hl2 Hsv Hnd. destruct l2 as [|s l2']; [done|].
      apply (index_ne_lasti l1 (s :: l2') s Hnd); [by left|done]. }
    assert (seg_get f0 i = Some (Seg invalid invalid position (zlen b))) as Hg0 by (rewrite HGf0; by rewrite decide_True).
    destruct (seg_upd_ok f0 i (set_prev (lasti invalid l1)) _ Hg0) as (p1 & -> & Hok1 & Hlen1 & HG1).
    cbn [mbind option_bind]. set (f1 := with_segments p1 f0) in *.
    assert (seg_get f1 (lasti invalid l1) = Some rp) as Hg1 by by rewrite HG1, decide_False, HGf0, decide_False.
    destruct (seg_upd_ok f1 (lasti invalid l1) (set_next i) _ Hg1) as (p2 & -> & Hok2 & Hlen2 & HG2).
    cbn [mbind option_bind]. set (f2 := with_segments p2 f1) in *.
    assert (seg_get f2 i = Some (Seg invalid (lasti invalid l1) position (zlen b))) as Hg2.
    { rewrite HG2, decide_False, HG1, decide_True by done. done. }
    destruct (seg_upd_ok f2 i (set_next (nexti l2 invalid)) _ Hg2) as (p3 & -> & Hok3 & Hlen3 & HG3).
    cbn [mbind option_bind]. set (f3 := with_segments p3 f2) in *.
    assert (seg_get f3 (nexti l2 invalid) = Some (Seg nx (lasti invalid l1) po len)) as Hg3.
    { by rewrite HG3, decide_False, HG2, decide_False, HG1, decide_False, HGf0, decide_False. }
    destruct (seg_upd_ok f3 (nexti l2 invalid) (set_prev i) _ Hg3) as (p4 & -> & Hok4 & Hlen4 & HG4).
    cbn [mbind option_bind]. exists p4, i. split.
    { do 2 f_equal. change (with_segments p4 f3) with (with_list_head (ooos_list_head f) (with_segments p4 f)).
      rewrite (fr_list_head _ _ _ _ Hf). by destruct l1. }
    apply inserted_ok; [by apply Hok4, Hok3, Hok2, Hok1| |done|done|].
    { rewrite Hlen4. change (ooo_segments f3) with p3. rewrite Hlen3. change (ooo_segments f2) with p2. rewrite Hlen2.
      change (ooo_segments f1) with p1. rewrite Hlen1. exact Hlen0. }
    intros j. change (pool_elt_at_index p4 j) with (seg_get (with_segments p4 f3) j). rewrite HG4, HG3, HG2, HG1, HGf0.
    unfold linked.
    destruct (decide (j = i)) as [->|Hji]; [by rewrite decide_False by done|].
    destruct (decide (j = nexti l2 invalid)) as [->|]; [rewrite decide_False by done; by rewrite Hs|].
    destruct (decide (j = lasti invalid l1)) as [->|]; [by rewrite Hrp|done].
Qed.

Lemma add_after_ok : l2 = [] → l1 ≠ [] →
  ∃ p i, add_after f position (zlen b) (lasti invalid l1) =
    Some (with_newest i (with_list_head (nexti (l1 ++ (i, off, b) :: l2) invalid) (with_segments p f))) ∧ inserted p i.
Proof using All.
  intros Hl2 Hl1. destruct (new_segment f Q (l1 ++ l2) position (zlen b) Hf) as (p0 & i & Hnew & Hok0 & Hlen0 & Hi & Hinv & HG0).
  assert (lasti invalid l1 ≠ invalid ∧ lasti invalid l1 ≠ i) as [Hsv Hsi].
  { destruct (lasti_elem invalid l1 Hl1) as (y & Hy & ->).
    assert (seg_index y ∈ seg_index <$> l1 ++ l2) as Hin by (apply list_elem_of_fmap_2, elem_of_app; by left).
    split; [by apply (seg_range _ _ _ _ Hf)|]. intros Heq. by rewrite Heq in Hin. }
  unfold add_after. rewrite Hnew. set (f0 := with_segments p0 f).
  assert (∀ j, seg_get f0 j = if decide (j = i) then Some (Seg invalid invalid position (zlen b)) else seg_get f j) as HGf0 by exact HG0.
  assert (∃ pv len po, seg_get f (lasti invalid l1) = Some (Seg invalid pv po len)) as (pv & len & po & Hs).
  { pose proof (fr_list _ _ _ _ Hf) as Hd. rewrite Hl2, app_nil_r in Hd.
    destruct (destruct_last l1) as [|(l' & s & Heq)]; [done|]. rewrite Heq in Hd |- *. rewrite lasti_snoc.
    apply dll_app in Hd as [_ [Hd _]]. eauto. }
  rewrite HGf0, decide_False, Hs by done. cbn [mbind option_bind next]. fold invalid.
  rewrite Z.eqb_refl. cbn [negb mbind option_bind].
  assert (seg_get f0 i = Some (Seg invalid invalid position (zlen b))) as Hg0 by (rewrite HGf0; by rewrite decide_True).
  destruct (seg_upd_ok f0 i (set_prev (lasti invalid l1)) _ Hg0) as (p1 & -> & Hok1 & Hlen1 & HG1).
  cbn [mbind option_bind]. set (f1 := with_segments p1 f0) in *.
  assert (seg_get f1 (lasti invalid l1) = Some (Seg invalid pv po len)) as Hg1 by by rewrite HG1, decide_False, HGf0, decide_False.
  destruct (seg_upd_ok f1 (lasti invalid l1) (set_next i) _ Hg1) as (p2 & -> & Hok2 & Hlen2 & HG2).
  cbn [mbind option_bind]. exists p2, i. split.
  { do 2 f_equal. change (with_segments p2 f1) with (with_list_head (ooos_list_head f) (with_segments p2 f)).
    rewrite (fr_list_head _ _ _ _ Hf). by destruct l1. }
  apply inserted_ok; [by apply Hok2, Hok1| |done|done|].
  { rewrite Hlen2. change (ooo_segments f1) with p1. rewrite Hlen1. exact Hlen0. }
  intros j. change (pool_elt_at_index p2 j) with (seg_get (with_segments p2 f1) j). rewrite HG2, HG1, HGf0.
  unfold linked. rewrite Hl2. cbn [nexti].
  destruct (decide (j = i)) as [->|Hji]; [by rewrite decide_False by done|].
  destruct (decide (j = lasti invalid l1)) as [->|]; [by rewrite Hs|].
  destruct (decide (j = invalid)) as [->|]; [|done].
  destruct (seg_get f invalid) eqn:Eiv; [|done]. exfalso.
  apply (seg_range _ _ _ _ Hf invalid); [|done]. apply (fr_live _ _ _ _ Hf). by eexists.
Qed.

Lemma add_first_ok : l1 = [] → l2 = [] →
  ∃ p i, ooo_segment_new f position (zlen b) = (with_segments p f, i) ∧ inserted p i.
Proof using All.
  intros Hl1 Hl2. destruct (new_segment f Q (l1 ++ l2) position (zlen b) Hf) as (p & i & Hnew & Hok & Hlen & Hi & Hinv & HG).
  exists p, i. split; [done|]. apply inserted_ok; try done. intros j. rewrite HG. unfold linked. rewrite Hl1, Hl2.
  case_decide; [done|]. change (lasti invalid []) with invalid. cbn [nexti].
  destruct (decide (j = invalid)) as [->|]; [|done].
  destruct (seg_get f invalid) eqn:Eiv; [|done]. exfalso.
  apply (seg_range _ _ _ _ Hf invalid); [|done]. apply (fr_live _ _ _ _ Hf). by eexists.
Qed.

Lemma segment_add_ok :
  ∃ p i, ooo_segment_add f off (zlen b) =
    Some (with_newest i (with_list_head (nexti (l1 ++ (i, off, b) :: l2) invalid) (with_segments p f))) ∧ inserted p i.
Proof using All.
  pose proof (fr_n _ _ _ _ Hf) as Hn. pose proof (rel_tail_range _ _ _ _ Hf) as Ht. pose proof (rel_size _ _ _ _ Hf) as Hs.
  unfold ooo_segment_add. rewrite (u32_small (tail f + off)), (u32_small (off + zlen b)) by (unfold in_u32; lia).
  fold position. cbv zeta.
  destruct (decide (l1 ++ l2 = [])) as [Hnil|Hne].
  { rewrite (list_head_nil _ _ _ _ Hf), Hnil. apply app_eq_nil in Hnil as [Hl1 Hl2].
    destruct (add_first_ok Hl1 Hl2) as (p & i & -> & Hins). exists p, i. split; [by rewrite Hl1|done]. }
  assert (ooos_list_head f =? OOO_SEGMENT_INVALID_INDEX = false) as ->
    by (rewrite (list_head_nil _ _ _ _ Hf); clear -Hne; by destruct (l1 ++ l2)).
  rewrite (fr_list_head _ _ _ _ Hf). fold invalid.
  rewrite (find_ok (list_fuel f) [] l1); [|done|done|].
  2: { unfold list_fuel. pose proof (fr_nodup _ _ _ _ Hf) as Hnd.
       assert (seg_index <$> l1 ++ l2 ⊆+ zrange 0 (pool_len (ooo_segments f))) as Hsub%submseteq_length.
       { apply NoDup_submseteq; [done|]. intros i Hi. apply elem_of_zrange.
         apply (fr_live _ _ _ _ Hf), elt_Some in Hi as [? _]; [done|apply Hf]. }
       unfold zrange in Hsub. rewrite length_fmap, length_seqZ in Hsub. lia. }
  cbn [mbind option_bind].
  pose proof offset_of as Hof. pose proof add_before_ok as Hbefore. pose proof add_after_ok as Hafter.
  assert (∀ s, s ∈ l1 ++ l2 → seg_end s ≤ nitems f - zlen Q ∧ 0 < seg_offset s ∧ 0 < zlen (seg_bytes s)) as Hbounds.
  { intros s Hin. destruct (separated_bounds _ _ _ _ (fr_separated _ _ _ _ Hf) Hin) as (? & ? & ?). lia. }
  destruct (decide (l2 = [])) as [Hl2|Hl2].
  - assert (l1 ≠ []) as Hl1 by (intros Hl1; by rewrite Hl1, Hl2 in Hne).
    assert (match l2 with [] => lasti invalid l1 | s :: _ => seg_index s end = lasti invalid l1) as -> by by rewrite Hl2.
    destruct (lasti_elem invalid l1 Hl1) as (s & Hin & Hse).
    assert (s ∈ l1 ++ l2) as Hin' by (apply elem_of_app; by left).
    destruct (Hof s Hin') as (r & Hr & Ho & He & _). rewrite Hse, Hr. cbn [mbind option_bind]. rewrite Ho, He.
    specialize (H1 s Hin). unfold seg_end in *. specialize (Hbounds s Hin').
    rewrite (Z.mod_small (_ + _)) by lia.
    rewrite (proj2 (Z.ltb_ge (off + zlen b) (seg_offset s))) by lia.
    rewrite (proj2 (Z.ltb_lt (seg_offset s + zlen (seg_bytes s)) off)) by lia.
    rewrite <-Hse. by apply Hafter.
  - assert (∃ s, s ∈ l2 ∧ match l2 with [] => lasti invalid l1 | s :: _ => seg_index s end = seg_index s ∧
      nexti l2 invalid = seg_index s) as (s & Hin & -> & Hse).
    { clear -Hl2. destruct l2 as [|s l]; [done|]. exists s. split; [by left|done]. }
    destruct (Hof s ltac:(apply elem_of_app; by right)) as (r & Hr & Ho & _). rewrite Hr. cbn [mbind option_bind]. rewrite Ho.
    specialize (H2 s Hin). rewrite (proj2 (Z.ltb_lt (off + zlen b) (seg_offset s))) by lia.
    rewrite <-Hse. by apply Hbefore.
Qed.
End insert.

(** The data written, and the segment in its place. *)
Lemma inserted_rel f Q l1 l2 off b p i d :
  fifo_rel f Q (l1 ++ l2) → 0 < off → 0 < zlen b → off + zlen b ≤ nitems f - zlen Q →
  (∀ s, s ∈ l1 → seg_end s < off) → (∀ s, s ∈ l2 → off + zlen b < seg_offset s) →
  inserted f l1 l2 off b p i → ring_put (nitems f) (data f) ((tail f + off) `mod` nitems f) b d →
  fifo_rel (with_data d (with_newest i (with_list_head (nexti (l1 ++ (i, off, b) :: l2) invalid) (with_segments p f)))) Q
    (l1 ++ (i, off, b) :: l2).
Proof.
  intros Hf Hoff Hb Hend H1 H2 (Hok & Hlen & Hi & Hinv & Hlive & Hdll) Hput.
  pose proof (fr_n _ _ _ _ Hf) as Hn. pose proof (rel_size _ _ _ _ Hf) as Hs. pose proof (fr_separated _ _ _ _ Hf) as Hsep.
  assert (∀ q len x, zlen b ≤ q → q + len ≤ nitems f → x `mod` nitems f = (tail f + off + q) `mod` nitems f →
    slice (nitems f) d x len = slice (nitems f) (data f) x len) as Hkeep.
  { intros q len x Hq Hql Hx. rewrite !(slice_congr (nitems f) ltac:(lia) _ x ((tail f + off) `mod` nitems f + q))
      by (rewrite Zplus_mod_idemp_l; exact Hx). apply (ring_put_slice _ _ _ _ _ _ _ Hput); lia. }
  split; cbn [with_data with_newest with_list_head with_segments cursize nitems head tail ooo_segments ooos_list_head ooos_newest data];
    try apply Hf; try done.
  - rewrite (proj1 Hput). apply Hf.
  - rewrite (Hkeep (nitems f - zlen Q - off)); [apply Hf|lia|lia|].
    rewrite (fr_tail _ _ _ _ Hf). rewrite <-Z.add_assoc, Zplus_mod_idemp_l.
    replace (head f + zlen Q + (off + (nitems f - zlen Q - off))) with (head f + 1 * nitems f) by lia. by rewrite Z.mod_add by lia.
  - rewrite fmap_app. cbn. pose proof (fr_nodup _ _ _ _ Hf) as Hnd. rewrite fmap_app in Hnd, Hi.
    apply list.NoDup_app in Hnd as (Ha & Hd & Hb'). apply not_elem_of_app in Hi as [Hi1 Hi2].
    apply list.NoDup_app. split; [done|]. split; [|by apply NoDup_cons].
    intros x Hx [->|Hx2]%elem_of_cons; [done|by apply (Hd x)].
  - intros j. rewrite fmap_app, elem_of_app, fmap_cons, elem_of_cons. unfold seg_get. cbn.
    rewrite Hlive, (fr_live _ _ _ _ Hf j), fmap_app, elem_of_app. change (seg_index (i, off, b)) with i. tauto.
  - apply separated_app in Hsep as (mid & Hs1 & -> & Hs2). apply separated_app.
    eexists. split; [exact Hs1|]. split; [done|]. cbn [separated].
    assert (match last l1 with Some s => seg_end s | None => 0 end < off) as Hlast.
    { destruct (last l1) as [s|] eqn:El; [|done]. apply H1. apply last_Some in El as [l' ->]. apply elem_of_app. right. by left. }
    split; [exact Hlast|]. split; [done|]. unfold seg_end. cbn [seg_offset seg_bytes fst snd].
    destruct l2 as [|s l2]; [cbn [separated]; change (off + zlen b ≤ nitems f - zlen Q); lia|].
    cbn [separated] in Hs2 |- *. destruct Hs2 as (_ & ? & ?). split; [|done]. apply H2. by left.
  - intros s Hin. rewrite elem_of_app, elem_of_cons in Hin.
    assert (s ∈ l1 ++ l2 → 0 < seg_offset s ∧ 0 < zlen (seg_bytes s) ∧ seg_end s ≤ nitems f - zlen Q) as Hbd
      by apply (separated_bounds _ _ _ _ Hsep).
    rewrite elem_of_app in Hbd. unfold seg_end in *.
    assert (s ∈ l1 ++ l2 → slice (nitems f) (data f) (tail f + seg_offset s) (zlen (seg_bytes s)) = seg_bytes s) as Hold
      by apply (fr_bytes _ _ _ _ Hf).
    rewrite elem_of_app in Hold. destruct Hin as [Hin|[->|Hin]].
    + specialize (H1 s Hin). specialize (Hbd ltac:(by left)).
      rewrite (Hkeep (nitems f - (off - seg_offset s))); [by apply Hold; left|lia|lia|].
      replace (tail f + off + (nitems f - (off - seg_offset s))) with (tail f + seg_offset s + 1 * nitems f) by lia.
      by rewrite Z.mod_add by lia.
    + change (seg_offset (i, off, b)) with off. change (seg_bytes (i, off, b)) with b.
      rewrite <-(slice_mod (nitems f) ltac:(lia)). apply (ring_put_self _ _ _ _ _ Hput). lia.
    + specialize (H2 s Hin). specialize (Hbd ltac:(by right)).
      rewrite (Hkeep (seg_offset s - off)); [by apply Hold; right|lia|lia|]. f_equal. lia.
Qed.

Lemma enqueue_offset_ok f Q l1 l2 off len buf :
  fifo_rel f Q (l1 ++ l2) → 0 < off → 0 < len ≤ zlen buf → off + len ≤ nitems f - zlen Q →
  (∀ s, s ∈ l1 → seg_end s < off) → (∀ s, s ∈ l2 → off + len < seg_offset s) →
  ∃ f' i, svm_fifo_enqueue_with_offset f off len buf = Some (f', 0) ∧ nitems f' = nitems f ∧
    fifo_rel f' Q (l1 ++ (i, off, take (Z.to_nat len) buf) :: l2).
Proof.
  intros Hf Hoff Hlen Hend H1 H2. pose proof (fr_n _ _ _ _ Hf) as Hn. pose proof (rel_size _ _ _ _ Hf) as Hs.
  pose proof (rel_tail_range _ _ _ _ Hf) as Ht. pose proof (fr_size _ _ _ _ Hf) as Hc.
  set (b := take (Z.to_nat len) buf). assert (zlen b = len) as Hz by (apply zlen_take; lia).
  destruct (segment_add_ok f Q l1 l2 off b Hf Hoff) as (p & i & Hadd & Hins); [lia|lia|done|by rewrite Hz|].
  rewrite Hz in Hadd.
  unfold svm_fifo_enqueue_with_offset. rewrite (proj2 (Z.ltb_lt 0 off)) by lia. cbn [assert mbind option_bind].
  assert (u32 (nitems f - cursize f) = nitems f - zlen Q) as -> by (rewrite Hc; apply u32_small; unfold in_u32; lia).
  rewrite (u32_small (len + off)) by (unfold in_u32; lia).
  rewrite (proj2 (Z.ltb_ge (nitems f - zlen Q) (len + off))) by lia.
  rewrite Hadd. cbn [mbind option_bind]. set (f1 := with_newest i _).
  change (tail f1) with (tail f). change (nitems f1) with (nitems f). change (data f1) with (data f).
  rewrite (u32_small (tail f + off)) by (unfold in_u32; lia).
  set (pos := (tail f + off) `mod` nitems f). assert (0 ≤ pos < nitems f) as Hp by (apply Z.mod_pos_bound; lia).
  rewrite (u32_small (nitems f - pos)) by (unfold in_u32; lia). cbv zeta.
  set (first := if nitems f - pos <? len then nitems f - pos else len).
  destruct (two_copies (nitems f) ltac:(lia) (data f) pos buf len first (fr_data _ _ _ _ Hf) Hp ltac:(lia) ltac:(lia) eq_refl)
    as (b1 & d1 & b2 & d2 & Hr1 & Hm1 & Hr2 & Hm2 & Hd & _ & Hput).
  assert (0 ≤ first ≤ len ∧ (first ≠ len → pos + first = nitems f)) as [Hf1 Hf2] by (subst first; case_cond; lia).
  pose proof (inserted_rel f Q l1 l2 off b p i d2 Hf Hoff ltac:(lia) ltac:(lia) H1 ltac:(by rewrite Hz) Hins Hput) as Hrel.
  rewrite Hr1. cbn [mbind option_bind]. rewrite Hm1. cbn [mbind option_bind].
  rewrite (u32_small (len - first)) by (unfold in_u32; lia).
  destruct (negb (len - first =? 0)) eqn:E.
  - apply negb_true_iff, Z.eqb_neq in E. change (nitems (with_data d1 f1)) with (nitems f).
    rewrite Hf2 by lia. rewrite (u32_small (nitems f)) by (unfold in_u32; lia). rewrite Z.mod_same by lia.
    cbn [Z.eqb assert mbind option_bind]. rewrite Hr2. cbn [mbind option_bind with_data data]. rewrite Hm2. cbn [mbind option_bind].
    eexists _, i. split; [done|]. split; [done|exact Hrel].
  - apply negb_false_iff, Z.eqb_eq in E. rewrite (Hd E) in Hrel. eexists _, i. split; [done|]. split; [done|exact Hrel].
Qed.
End SvmSpec.
