(* ===== verification/SvmFifoStream.v ===== *)
(** * The shared-memory FIFO carries a stream

    Runs of a FIFO whose writer follows a stream of bytes, in order or ahead of the
    tail, without writing the same bytes twice: the reader gets the stream.  The last
    section shows what happens when writes overlap. *)

From S2P Require Import Prelude Bitmap Popcount Pool SvmFifo SvmFifoSpec.

Module SvmStream.
Import ClibPool SvmFifo.Svm SvmSpec.

(** ** The segments between which a new one goes *)

Lemma split_segments lo segs hi off len :
  separated lo segs hi → 0 < len → (∀ s, s ∈ segs → off + len < seg_offset s ∨ seg_end s < off) →
  ∃ l1 l2, segs = l1 ++ l2 ∧ (∀ s, s ∈ l1 → seg_end s < off) ∧ (∀ s, s ∈ l2 → off + len < seg_offset s).
Proof.
  intros Hsep Hlen. revert lo Hsep. induction segs as [|s l IH]; intros lo Hsep Hd.
  { exists [], []. split; [done|]. split; intros x Hx; by apply elem_of_nil in Hx. }
  destruct Hsep as (Hs1 & Hs2 & Hs3). destruct (Hd s ltac:(by left)) as [Hlt|Hlt].
  - exists [], (s :: l). split; [done|]. split; [intros x Hx; by apply elem_of_nil in Hx|].
    intros x [->|Hx]%elem_of_cons; [done|]. destruct (separated_bounds _ _ _ _ Hs3 Hx). unfold seg_end in *. lia.
  - destruct (IH _ Hs3) as (l1 & l2 & -> & H1 & H2); [intros x Hx; apply Hd; by right|].
    exists (s :: l1), l2. split; [done|]. split; [|done]. intros x [->|Hx]%elem_of_cons; [done|by apply H1].
Qed.

(** ** Runs *)

Section stream.
Context (S : Z → Z).

Definition bytes (a n : Z) : list Z := S <$> zrange a (a + n).

Lemma bytes_nil a : bytes a 0 = [].
Proof. unfold bytes. by rewrite zrange_nil by lia. Qed.

Lemma zlen_bytes a n : 0 ≤ n → zlen (bytes a n) = n.
Proof. intros Hn. unfold bytes, zlen, zrange. rewrite length_fmap, length_seqZ. lia. Qed.

Lemma bytes_app a n m : 0 ≤ n → 0 ≤ m → bytes a n ++ bytes (a + n) m = bytes a (n + m).
Proof.
  intros Hn Hm. unfold bytes. rewrite <-fmap_app. f_equal.
  rewrite <-Z.add_assoc. symmetry. apply zrange_app. lia.
Qed.

Lemma take_bytes a n m : 0 ≤ m ≤ n → take (Z.to_nat m) (bytes a n) = bytes a m.
Proof.
  intros Hm. replace n with (m + (n - m)) by lia. rewrite <-bytes_app by lia.
  apply take_app_length'. pose proof (zlen_bytes a m ltac:(lia)) as Hz. unfold zlen in Hz. lia.
Qed.

Lemma drop_bytes a n m : 0 ≤ m ≤ n → drop (Z.to_nat m) (bytes a n) = bytes (a + m) (n - m).
Proof.
  intros Hm. replace n with (m + (n - m)) at 1 by lia. rewrite <-bytes_app by lia.
  apply drop_app_length'. pose proof (zlen_bytes a m ltac:(lia)) as Hz. unfold zlen in Hz. lia.
Qed.

(** What the two sides do.  The writer knows how much of the stream the FIFO has taken;
    [OpOffset off len] hands over [len] bytes that start [off] bytes further. *)
Inductive fifo_op :=
  | OpEnqueue (max : Z)
  | OpOffset (off len : Z)
  | OpDequeue (max : Z)
  | OpDrop (max : Z).

(** The positions in the stream: read so far and taken so far, and the extents
    handed over ahead. *)
Record run_state := Run { fifo : svm_fifo; rd : Z; wr : Z; ahead : list (Z * Z) }.

Definition room (st : run_state) : Z := nitems (fifo st) - (wr st - rd st).

Definition exec (st : run_state) (op : fifo_op) : option (run_state * list Z) :=
  match op with
  | OpEnqueue max =>
      '(f, r) ← svm_fifo_enqueue_nowait (fifo st) max (Some (bytes (wr st) max));
      let m := Z.min (room st) max in
      Some (Run f (rd st) (wr st + Z.max 0 r) (filter (λ e, e.1 ≠ wr st + m) (ahead st)), [])
  | OpOffset off len =>
      '(f, r) ← svm_fifo_enqueue_with_offset (fifo st) off len (bytes (wr st + off) len);
      Some (Run f (rd st) (wr st) (if r =? 0 then (wr st + off, len) :: ahead st else ahead st), [])
  | OpDequeue max =>
      '(f, r, out) ← svm_fifo_dequeue_nowait (fifo st) max true;
      Some (Run f (rd st + Z.max 0 r) (wr st) (ahead st), out)
  | OpDrop max =>
      let '(f, r) := svm_fifo_dequeue_drop (fifo st) max in
      Some (Run f (rd st + Z.max 0 r) (wr st) (ahead st), bytes (rd st) (Z.max 0 r))
  end.

(** No byte is written twice: an in-order write ends at or before the first extent
    ahead, and an extent ahead does not touch another. *)
Definition legal (st : run_state) (op : fifo_op) : bool :=
  match op with
  | OpEnqueue max =>
      (0 <=? max) && (max <? 2 ^ 32) &&
      forallb (λ e, wr st + Z.min (room st) max <=? e.1) (ahead st)
  | OpOffset off len =>
      (0 <? off) && (0 <? len) && (off + len <? 2 ^ 32) &&
      (if off + len <=? room st
       then forallb (λ e, (wr st + off + len <? e.1) || (e.1 + e.2 <? wr st + off)) (ahead st) else true)
  | OpDequeue max | OpDrop max => (0 <=? max) && (max <? 2 ^ 32)
  end.

Fixpoint run (st : run_state) (ops : list fifo_op) : option (run_state * list Z) :=
  match ops with
  | [] => Some (st, [])
  | op :: ops => '(st, out) ← exec st op; '(st, outs) ← run st ops; Some (st, out ++ outs)
  end.

Fixpoint legal_run (st : run_state) (ops : list fifo_op) : bool :=
  match ops with
  | [] => true
  | op :: ops => legal st op && match exec st op with Some (st, _) => legal_run st ops | None => true end
  end.

Definition start (n : Z) : run_state := Run (svm_fifo_create n) 0 0 [].

(** The invariant: the FIFO holds the stream between the two positions, and the pieces
    ahead. *)
Record stream_inv (n : Z) (st : run_state) (segs : list segment) : Prop := {
  si_size : nitems (fifo st) = n;
  si_pos : 0 ≤ rd st ≤ wr st;
  si_rel : fifo_rel (fifo st) (bytes (rd st) (wr st - rd st)) segs;
  si_bytes s : s ∈ segs → seg_bytes s = bytes (wr st + seg_offset s) (zlen (seg_bytes s));
  si_ahead a len : (a, len) ∈ ahead st ↔ ∃ s, s ∈ segs ∧ a = wr st + seg_offset s ∧ len = zlen (seg_bytes s);
}.

Lemma inv_room n st segs : stream_inv n st segs → zlen (bytes (rd st) (wr st - rd st)) = wr st - rd st ∧
  wr st - rd st ≤ nitems (fifo st).
Proof.
  intros Hi. pose proof (si_pos _ _ _ Hi). pose proof (rel_size _ _ _ _ (si_rel _ _ _ Hi)) as Hs.
  rewrite zlen_bytes in * by lia. lia.
Qed.

Lemma read_step n st segs m :
  stream_inv n st segs → 0 ≤ m ≤ wr st - rd st →
  stream_inv n (Run (advance_head m (fifo st)) (rd st + m) (wr st) (ahead st)) segs.
Proof.
  intros Hi Hm. destruct (inv_room _ _ _ Hi) as [Hz _]. split; cbn [fifo rd wr ahead]; try apply Hi.
  - pose proof (si_pos _ _ _ Hi). lia.
  - pose proof (advance_head_rel _ _ _ _ (si_rel _ _ _ Hi) m ltac:(lia)) as Hr. rewrite drop_bytes in Hr by lia.
    by replace (wr st - (rd st + m)) with (wr st - rd st - m) by lia.
Qed.

(** A read returns the next bytes of the stream. *)
Lemma read_ok n st segs max :
  stream_inv n st segs → 0 ≤ max < 2 ^ 32 →
  let m := Z.min (wr st - rd st) max in
  ∃ st', exec st (OpDequeue max) = Some (st', bytes (rd st) m) ∧ exec st (OpDrop max) = Some (st', bytes (rd st) m) ∧
    stream_inv n st' segs ∧ rd st' = rd st + m.
Proof.
  intros Hi Hmax m. destruct (inv_room _ _ _ Hi) as [Hz _]. pose proof (si_pos _ _ _ Hi) as Hp.
  pose proof (si_rel _ _ _ Hi) as Hr. pose proof (fr_size _ _ _ _ Hr) as Hc. rewrite Hz in Hc.
  unfold exec. destruct (decide (wr st - rd st = 0)) as [H0|H0].
  - assert (m = 0) as -> by lia. unfold svm_fifo_dequeue_nowait, svm_fifo_dequeue_drop.
    rewrite (proj2 (Z.eqb_eq (cursize (fifo st)) 0)) by lia. cbn [mbind option_bind].
    change (Z.max 0 (-2)) with 0. exists st. rewrite Z.add_0_r. rewrite bytes_nil. by destruct st.
  - assert (bytes (rd st) (wr st - rd st) ≠ []) as Hne by (intros E; rewrite E in Hz; change (zlen []) with 0 in Hz; lia).
    destruct (reads_ok _ _ _ _ Hr max Hmax Hne) as (-> & -> & _). rewrite Hz. fold m. cbn [mbind option_bind].
    rewrite take_bytes by lia. rewrite !Z.max_r by lia. eexists. split; [done|]. split; [done|].
    split; [|done]. apply read_step; [done|lia].
Qed.

(** An in-order write: the first extent ahead is reached, or stays apart. *)
Lemma enqueue_step n st segs max :
  stream_inv n st segs → legal st (OpEnqueue max) = true →
  ∃ st', exec st (OpEnqueue max) = Some (st', []) ∧ rd st' = rd st ∧
    (wr st + Z.min (room st) max ≤ wr st' ∧ ∃ segs', stream_inv n st' segs').
Proof.
  intros Hi Hl. destruct (inv_room _ _ _ Hi) as [Hz Hroom]. pose proof (si_pos _ _ _ Hi) as Hp.
  pose proof (si_rel _ _ _ Hi) as Hr. pose proof (fr_size _ _ _ _ Hr) as Hc. rewrite Hz in Hc.
  unfold legal in Hl. apply andb_true_iff in Hl as [Hmax Hfirst]. bool_to_prop.
  rewrite forallb_forall in Hfirst. set (m := Z.min (room st) max) in *.
  assert (∀ s, s ∈ segs → m ≤ seg_offset s) as Hle.
  { intros s Hs. assert ((wr st + seg_offset s, zlen (seg_bytes s)) ∈ ahead st) as Ha by (apply (si_ahead _ _ _ Hi); by exists s).
    apply list_elem_of_In, Hfirst in Ha. apply Z.leb_le in Ha. cbn [fst] in Ha. lia. }
  unfold exec. destruct (decide (cursize (fifo st) = nitems (fifo st))) as [Hfull|Hfull].
  - unfold svm_fifo_enqueue_nowait. rewrite (proj2 (Z.eqb_eq _ _) Hfull). cbn [mbind option_bind].
    eexists. split; [done|]. split; [done|]. split; [cbn [wr]; fold m; unfold room in m; lia|]. exists segs.
    split; cbn [fifo rd wr ahead]; change (Z.max 0 (-2)) with 0; rewrite ?Z.add_0_r; try apply Hi.
    intros a len. rewrite list_elem_of_filter, (si_ahead _ _ _ Hi). split; [tauto|].
    intros (s & Hs & -> & ->). split; [|by exists s]. cbn [fst]. fold m.
    destruct (separated_bounds _ _ _ _ (fr_separated _ _ _ _ Hr) Hs). unfold room in m. lia.
  - assert (m ≤ first_offset segs m) as Hfo by (destruct segs; [done|apply Hle; by left]).
    pose proof (enqueue_ok (fifo st) _ segs max (bytes (wr st) max) Hr ltac:(lia)) as He.
    rewrite zlen_bytes, Hz in He by lia. specialize (He ltac:(lia) ltac:(lia)). cbv zeta in He. fold (room st) in He. fold m in He. specialize (He Hfo).
    destruct (reached m segs) as [cb rest] eqn:Hreach.
    destruct He as (f' & -> & Hn' & Hrel'). cbn [mbind option_bind].
    pose proof (zlen_nonneg cb) as Hcb. rewrite Z.max_r by (unfold room in m; lia).
    eexists. split; [done|]. split; [done|]. split; [cbn [wr]; lia|]. exists (shift (m + zlen cb) rest).
    assert (cb = bytes (wr st + m) (zlen cb) ∧ (∀ s, s ∈ rest → s ∈ segs) ∧
      (∀ s, s ∈ segs → s ∈ rest ↔ seg_offset s ≠ m)) as (Hcbb & Hin & Hrest).
    { unfold reached in Hreach. destruct segs as [|s l]; [injection Hreach as <- <-; split; [symmetry; apply bytes_nil|]; split; [done|]; intros x Hx; by apply elem_of_nil in Hx|].
      pose proof (fr_separated _ _ _ _ Hr) as (H1 & H2 & H3). unfold seg_end in H3.
      assert (∀ x, x ∈ l → seg_offset s < seg_offset x) as Hlater.
      { intros x Hx. destruct (separated_bounds _ _ _ _ H3 Hx). lia. }
      destruct (m =? seg_offset s) eqn:E; bool_to_prop; injection Hreach as <- <-.
      - split; [rewrite E; apply (si_bytes _ _ _ Hi); by left|]. split; [intros; by right|].
        intros x [->|Hx]%elem_of_cons; [|specialize (Hlater x Hx); split; [lia|done]].
        split; [intros Hx; specialize (Hlater s Hx); lia|lia].
      - split; [symmetry; apply bytes_nil|]. split; [done|]. intros x Hx. split; [|done]. intros _.
        apply elem_of_cons in Hx as [->|Hx]; [lia|]. specialize (Hlater x Hx). specialize (Hle s ltac:(by left)). lia. }
    split; cbn [fifo rd wr ahead].
    + rewrite Hn'. apply Hi.
    + unfold room in m. lia.
    + rewrite take_bytes in Hrel' by (unfold room in m; lia). rewrite Hcbb, bytes_app, <-Hcbb in Hrel' by (unfold room in m; lia).
      replace (wr st) with (rd st + (wr st - rd st)) in Hrel' at 2 by lia.
      rewrite bytes_app in Hrel' by (unfold room in m; lia).
      replace (wr st + (m + zlen cb) - rd st) with (wr st - rd st + (m + zlen cb)) by lia. exact Hrel'.
    + intros x (s & Hs & _ & Ho & Hb)%elem_of_shift. rewrite Ho, Hb.
      replace (wr st + (m + zlen cb) + (seg_offset s - (m + zlen cb))) with (wr st + seg_offset s) by lia.
      by apply (si_bytes _ _ _ Hi), Hin.
    + intros a len. rewrite list_elem_of_filter, (si_ahead _ _ _ Hi). cbn [fst]. fold m. split.
      * intros (Hne & s & Hs & -> & ->). exists (seg_index s, seg_offset s - (m + zlen cb), seg_bytes s).
        split; [apply list_elem_of_fmap; exists s; split; [done|]; apply Hrest; [done|lia]|].
        cbn [seg_offset seg_bytes fst snd]. unfold seg_offset at 2. cbn [fst snd]. split; [unfold seg_offset; lia|done].
      * intros (x & (s & Hs & _ & Ho & Hb)%elem_of_shift & -> & ->). rewrite Ho, Hb.
        pose proof (Hin s Hs) as Hs'. apply Hrest in Hs as Hne; [|done].
        split; [lia|]. exists s. split; [done|]. split; [lia|done].
Qed.

(** A write ahead of the tail: refused when it does not fit, kept otherwise. *)
Lemma offset_step n st segs off len :
  stream_inv n st segs → legal st (OpOffset off len) = true →
  ∃ st', exec st (OpOffset off len) = Some (st', []) ∧ rd st' = rd st ∧ ∃ segs', stream_inv n st' segs'.
Proof.
  intros Hi Hl. destruct (inv_room _ _ _ Hi) as [Hz Hroom]. pose proof (si_pos _ _ _ Hi) as Hp.
  pose proof (si_rel _ _ _ Hi) as Hr. pose proof (fr_size _ _ _ _ Hr) as Hc. rewrite Hz in Hc.
  pose proof (fr_n _ _ _ _ Hr) as Hn.
  unfold legal in Hl. apply andb_true_iff in Hl as [Hargs Hdis]. bool_to_prop. unfold exec.
  destruct (off + len <=? room st) eqn:Efit; bool_to_prop; unfold room in Efit.
  - rewrite forallb_forall in Hdis.
    destruct (split_segments _ _ _ off len (fr_separated _ _ _ _ Hr) ltac:(lia)) as (l1 & l2 & -> & HL1 & HL2).
    { intros s Hs. assert ((wr st + seg_offset s, zlen (seg_bytes s)) ∈ ahead st) as Ha by (apply (si_ahead _ _ _ Hi); by exists s).
      apply list_elem_of_In, Hdis, orb_true_iff in Ha. rewrite !Z.ltb_lt in Ha. cbn [fst snd] in Ha. unfold seg_end. lia. }
    destruct (enqueue_offset_ok (fifo st) _ l1 l2 off len (bytes (wr st + off) len) Hr) as (f' & i & -> & Hn' & Hrel');
      [lia|rewrite zlen_bytes; lia|rewrite Hz; lia|done|done|].
    cbn [mbind option_bind]. rewrite Z.eqb_refl. eexists. split; [done|]. split; [done|].
    rewrite take_bytes in Hrel' by lia. exists (l1 ++ (i, off, bytes (wr st + off) len) :: l2).
    split; cbn [fifo rd wr ahead]; [rewrite Hn'; apply Hi|done|exact Hrel'| |].
    + intros s [Hs|[->|Hs]%elem_of_cons]%elem_of_app.
      * apply (si_bytes _ _ _ Hi), elem_of_app. by left.
      * cbn [seg_offset seg_bytes fst snd]. unfold seg_offset, seg_bytes. cbn [fst snd]. by rewrite zlen_bytes by lia.
      * apply (si_bytes _ _ _ Hi), elem_of_app. by right.
    + intros a le. rewrite elem_of_cons, (si_ahead _ _ _ Hi). setoid_rewrite elem_of_app. setoid_rewrite elem_of_cons. split.
      * intros [[= -> ->]|(s & Hs & ? & ?)].
        -- exists (i, off, bytes (wr st + off) len). split; [tauto|]. split; [done|]. change (len = zlen (bytes (wr st + off) len)). by rewrite zlen_bytes by lia.
        -- exists s. tauto.
      * intros (s & [Hs|[->|Hs]] & -> & ->); [right; exists s; tauto| |right; exists s; tauto].
        left. change ((wr st + off, zlen (bytes (wr st + off) len)) = (wr st + off, len)). by rewrite zlen_bytes by lia.
  - unfold svm_fifo_enqueue_with_offset. rewrite (proj2 (Z.ltb_lt 0 off)) by lia. cbn [assert mbind option_bind].
    rewrite (u32_small (nitems (fifo st) - _)), (u32_small (len + off)) by (unfold in_u32; lia).
    rewrite (proj2 (Z.ltb_lt _ _)) by lia. cbn [mbind option_bind]. change (-1 =? 0) with false.
    exists st. destruct st as [f r w a]. split; [done|]. split; [done|]. by exists segs.
Qed.

Lemma start_inv n : 0 < n < 2 ^ 30 → stream_inv n (start n) [].
Proof.
  intros Hn. split; cbn [start fifo rd wr ahead]; try done.
  - change (0 - 0) with 0. rewrite bytes_nil.
    split; cbn [svm_fifo_create cursize nitems head tail ooo_segments ooos_list_head data]; try done; try lia.
    + rewrite zlen_replicate. lia.
    + apply pool_null_ok.
    + change (pool_len pool_null) with 0. lia.
    + constructor.
    + intros i. split; [|intros Hi; by apply elem_of_nil in Hi]. intros [x Hx].
      unfold seg_get in Hx. change (ooo_segments (svm_fifo_create n)) with (@pool_null (list Z) ooo_segment _) in Hx.
      rewrite elt_None in Hx; [done|apply pool_null_ok|]. change (pool_len pool_null) with 0. lia.
    + cbn [separated]. change (zlen []) with 0. lia.
    + change (zlen []) with 0. lia.
    + intros s Hs. by apply elem_of_nil in Hs.
  - intros s Hs. by apply elem_of_nil in Hs.
  - intros a len. split; [intros Ha; by apply elem_of_nil in Ha|]. intros (s & Hs & _). by apply elem_of_nil in Hs.
Qed.

Lemma run_ok n ops : ∀ st segs, stream_inv n st segs → legal_run st ops = true →
  ∃ st' out segs', run st ops = Some (st', out) ∧ stream_inv n st' segs' ∧ rd st ≤ rd st' ∧
    out = bytes (rd st) (rd st' - rd st).
Proof.
  induction ops as [|op ops IH]; intros st segs Hi Hl.
  - exists st, [], segs. rewrite Z.sub_diag, bytes_nil. split; [done|]. split; [done|]. split; [lia|done].
  - cbn [legal_run] in Hl. apply andb_true_iff in Hl as [Hop Hl].
    assert (∃ st' out segs', exec st op = Some (st', out) ∧ stream_inv n st' segs' ∧ rd st ≤ rd st' ∧
      out = bytes (rd st) (rd st' - rd st)) as (st1 & out1 & segs1 & He & Hi1 & Hle & Hout).
    { pose proof (si_pos _ _ _ Hi). destruct op as [max|off len|max|max].
      - destruct (enqueue_step n st segs max Hi Hop) as (st1 & He & Hrd & _ & segs1 & Hi1). exists st1, [], segs1.
        rewrite Hrd, Z.sub_diag, bytes_nil. split; [done|]. split; [done|]. split; [lia|done].
      - destruct (offset_step n st segs off len Hi Hop) as (st1 & He & Hrd & segs1 & Hi1). exists st1, [], segs1.
        rewrite Hrd, Z.sub_diag, bytes_nil. split; [done|]. split; [done|]. split; [lia|done].
      - cbn [legal] in Hop. bool_to_prop. destruct (read_ok n st segs max Hi ltac:(lia)) as (st1 & He & _ & Hi1 & Hrd).
        eexists st1, _, segs. split; [exact He|]. split; [done|]. split; [lia|]. f_equal. lia.
      - cbn [legal] in Hop. bool_to_prop. destruct (read_ok n st segs max Hi ltac:(lia)) as (st1 & _ & He & Hi1 & Hrd).
        eexists st1, _, segs. split; [exact He|]. split; [done|]. split; [lia|]. f_equal. lia. }
    rewrite He in Hl. destruct (IH st1 segs1 Hi1 Hl) as (st2 & out2 & segs2 & Hr2 & Hi2 & Hle2 & Hout2).
    exists st2, (out1 ++ out2), segs2. cbn [run]. rewrite He. cbn [mbind option_bind]. rewrite Hr2. cbn [mbind option_bind].
    split; [done|]. split; [done|]. split; [lia|]. rewrite Hout, Hout2.
    replace (rd st1) with (rd st + (rd st1 - rd st)) at 2 by lia. rewrite bytes_app by lia. f_equal. lia.
Qed.
End stream.



(** ** Writes that overlap

    Nothing in the interface excludes them (a retransmission overlaps), but they break
    the FIFO. *)

Definition merge_state : option svm_fifo :=
  let f := svm_fifo_create 20 in
  '(f, _) ← svm_fifo_enqueue_with_offset f 8 4 [9; 10; 11; 12];
  '(f, _) ← svm_fifo_enqueue_with_offset f 14 3 [15; 16; 17];
  '(f, _) ← svm_fifo_enqueue_with_offset f 7 8 [8; 9; 10; 11; 12; 13; 14; 15];
  '(f, _) ← svm_fifo_enqueue_nowait f 7 (Some [1; 2; 3; 4; 5; 6; 7]);
  Some f.

Definition collect_state : option svm_fifo :=
  let f := svm_fifo_create 20 in
  '(f, _) ← svm_fifo_enqueue_with_offset f 4 4 [5; 6; 7; 8];
  '(f, _) ← svm_fifo_enqueue_nowait f 6 (Some [1; 2; 3; 4; 5; 6]);
  Some f.

Definition peek_state : option svm_fifo :=
  let f := svm_fifo_create 8 in
  '(f, _) ← svm_fifo_enqueue_nowait f 6 (Some [1; 2; 3; 4; 5; 6]);
  '(f, _, _) ← svm_fifo_dequeue_nowait f 5 true;
  '(f, _) ← svm_fifo_enqueue_nowait f 5 (Some [7; 8; 9; 10; 11]);
  Some f.

(** Overlapping writes, and a peek at an offset.  (1) The 17 bytes 1..17 written with
    an overlap are delivered as 19 bytes, the last two never written: the length of the
    merged segment is computed with the wrong sign.  (2) A write over the start of a
    segment moves the tail to the end of the segment without counting its bytes: the
    tail is no longer the head plus the size, and the segment stays listed.  (3) In a FIFO
    whose bytes wrap, a peek at an offset beyond the end reads past the ring. *)
Theorem svm_fifo_overlap_faults :
  (f ← merge_state; '(_, r, out) ← svm_fifo_dequeue_nowait f 20 true; Some (r, out)) =
    Some (19, [1; 2; 3; 4; 5; 6; 7; 8; 9; 10; 11; 12; 13; 14; 15; 16; 17; 0; 0]) ∧
  (f ← collect_state; Some (head f, svm_fifo_max_dequeue f, tail f, svm_fifo_has_ooo_data f)) = Some (0, 6, 8, true) ∧
  (f ← peek_state; svm_fifo_peek f 4 2) = None.
Proof. split; [|split]; vm_compute; reflexivity. Qed.
End SvmStream.
