(* ===== verification/TcpOptions.v ===== *)
(** * TCP options (vnet/tcp/tcp_packet.h, tcp_options_parse of tcp_input.c,
    tcp_options_write and tcp_make_syn_options of tcp_output.c)

    The memory that follows a TCP header is a list of bytes; the pointer the parser
    advances is the rest of that list.  [None] is a read past the memory given, or a loop
    that does not end. *)

From S2P Require Import Prelude.

Module TcpOpt.

(** ** The header and the options record *)

(** The fields the modelled functions read; [th_window] in host order. *)
Record tcp_header := Hdr {
  th_seq_number : Z;
  th_ack_number : Z;
  data_offset_and_reserved : Z;
  th_flags : Z;
  th_window : Z;
}.

Definition TCP_FLAG_FIN : Z := Z.shiftl 1 0.
Definition TCP_FLAG_SYN : Z := Z.shiftl 1 1.
Definition TCP_FLAG_RST : Z := Z.shiftl 1 2.
Definition TCP_FLAG_ACK : Z := Z.shiftl 1 4.

Definition tcp_doff (th : tcp_header) : Z := Z.shiftr (data_offset_and_reserved th) 4.
Definition tcp_fin (th : tcp_header) : bool := negb (Z.land (th_flags th) TCP_FLAG_FIN =? 0).
Definition tcp_syn (th : tcp_header) : bool := negb (Z.land (th_flags th) TCP_FLAG_SYN =? 0).
Definition tcp_rst (th : tcp_header) : bool := negb (Z.land (th_flags th) TCP_FLAG_RST =? 0).
Definition tcp_ack (th : tcp_header) : bool := negb (Z.land (th_flags th) TCP_FLAG_ACK =? 0).

Definition SIZEOF_TCP_HEADER : Z := 20.

Definition TCP_OPTION_EOL : Z := 0.
Definition TCP_OPTION_NOOP : Z := 1.
Definition TCP_OPTION_MSS : Z := 2.
Definition TCP_OPTION_WINDOW_SCALE : Z := 3.
Definition TCP_OPTION_SACK_PERMITTED : Z := 4.
Definition TCP_OPTION_SACK_BLOCK : Z := 5.
Definition TCP_OPTION_TIMESTAMP : Z := 8.

Definition TCP_OPTS_FLAG_MSS : Z := Z.shiftl 1 0.
Definition TCP_OPTS_FLAG_TSTAMP : Z := Z.shiftl 1 1.
Definition TCP_OPTS_FLAG_WSCALE : Z := Z.shiftl 1 2.
Definition TCP_OPTS_FLAG_SACK_PERMITTED : Z := Z.shiftl 1 3.
Definition TCP_OPTS_FLAG_SACK : Z := Z.shiftl 1 4.

Definition TCP_OPTION_LEN_MSS : Z := 4.
Definition TCP_OPTION_LEN_WINDOW_SCALE : Z := 3.
Definition TCP_OPTION_LEN_SACK_PERMITTED : Z := 2.
Definition TCP_OPTION_LEN_TIMESTAMP : Z := 10.
Definition TCP_OPTION_LEN_SACK_BLOCK : Z := 8.

Definition TCP_WND_MAX : Z := 65535.
Definition TCP_MAX_WND_SCALE : Z := 14.
Definition TCP_OPTS_ALIGN : Z := 4.
Definition TCP_OPTS_MAX_SACK_BLOCKS : Z := 3.

Record sack_block := Sack {
  blk_start : Z;
  blk_end : Z;
}.

Record tcp_options := Opts {
  opt_flags : Z;
  mss : Z;
  wscale : Z;
  tsval : Z;
  tsecr : Z;
  sacks : list sack_block;
  n_sack_blocks : Z;
}.

Definition zero_options : tcp_options := Opts 0 0 0 0 0 [] 0.

Definition opts_flag (to : tcp_options) (f : Z) : bool := negb (Z.land (opt_flags to) f =? 0).
Definition tcp_opts_mss to := opts_flag to TCP_OPTS_FLAG_MSS.
Definition tcp_opts_tstamp to := opts_flag to TCP_OPTS_FLAG_TSTAMP.
Definition tcp_opts_wscale to := opts_flag to TCP_OPTS_FLAG_WSCALE.
Definition tcp_opts_sack to := opts_flag to TCP_OPTS_FLAG_SACK.
Definition tcp_opts_sack_permitted to := opts_flag to TCP_OPTS_FLAG_SACK_PERMITTED.

Definition set_flags (f : Z) (to : tcp_options) : tcp_options :=
  Opts f (mss to) (wscale to) (tsval to) (tsecr to) (sacks to) (n_sack_blocks to).
Definition add_flag (f : Z) (to : tcp_options) : tcp_options :=
  set_flags (Z.lor (opt_flags to) f) to.
Definition set_mss (m : Z) (to : tcp_options) : tcp_options :=
  Opts (opt_flags to) m (wscale to) (tsval to) (tsecr to) (sacks to) (n_sack_blocks to).
Definition set_wscale (w : Z) (to : tcp_options) : tcp_options :=
  Opts (opt_flags to) (mss to) w (tsval to) (tsecr to) (sacks to) (n_sack_blocks to).
Definition set_tstamp (v e : Z) (to : tcp_options) : tcp_options :=
  Opts (opt_flags to) (mss to) (wscale to) v e (sacks to) (n_sack_blocks to).
Definition set_sacks (bs : list sack_block) (n : Z) (to : tcp_options) : tcp_options :=
  Opts (opt_flags to) (mss to) (wscale to) (tsval to) (tsecr to) bs n.

(** ** Network byte order *)

Definition byte0 (x : Z) : Z := x `mod` 256.
Definition byte1 (x : Z) : Z := (x / 2 ^ 8) `mod` 256.
Definition byte2 (x : Z) : Z := (x / 2 ^ 16) `mod` 256.
Definition byte3 (x : Z) : Z := (x / 2 ^ 24) `mod` 256.

Definition host_to_net_u16 (x : Z) : list Z := [byte1 x; byte0 x].
Definition host_to_net_u32 (x : Z) : list Z := [byte3 x; byte2 x; byte1 x; byte0 x].

Definition be16 (a b : Z) : Z := a * 256 + b.
Definition be32 (a b c d : Z) : Z := a * 2 ^ 24 + b * 2 ^ 16 + c * 2 ^ 8 + d.

Definition net_u16 (data : list Z) (off : Z) : option Z :=
  a ← vget data off; b ← vget data (off + 1); Some (be16 a b).
Definition net_u32 (data : list Z) (off : Z) : option Z :=
  a ← vget data off; b ← vget data (off + 1);
  c ← vget data (off + 2); d ← vget data (off + 3);
  Some (be32 a b c d).

(** ** [tcp_options_parse] *)

(** The body of the loop over the blocks of a SACK option. *)
Definition read_sack (data : list Z) (bs : list sack_block) (j : Z) : option (list sack_block) :=
  s ← net_u32 data (2 + 4 * j);
  e ← net_u32 data (6 + 4 * j);
  Some (bs ++ [Sack s e]).

(** The switch on the kind of the option. *)
Definition parse_option (syn : bool) (data : list Z) (kind opt_len : Z) (to : tcp_options)
    : option tcp_options :=
  if kind =? TCP_OPTION_MSS then
    if (opt_len =? TCP_OPTION_LEN_MSS) && syn then
      m ← net_u16 data 2; Some (set_mss m (add_flag TCP_OPTS_FLAG_MSS to))
    else Some to
  else if kind =? TCP_OPTION_WINDOW_SCALE then
    if (opt_len =? TCP_OPTION_LEN_WINDOW_SCALE) && syn then
      w ← vget data 2;
      Some (set_wscale (if w >? TCP_MAX_WND_SCALE then TCP_MAX_WND_SCALE else w)
              (add_flag TCP_OPTS_FLAG_WSCALE to))
    else Some to
  else if kind =? TCP_OPTION_TIMESTAMP then
    if opt_len =? TCP_OPTION_LEN_TIMESTAMP then
      v ← net_u32 data 2; e ← net_u32 data 6;
      Some (set_tstamp v e (add_flag TCP_OPTS_FLAG_TSTAMP to))
    else Some to
  else if kind =? TCP_OPTION_SACK_PERMITTED then
    if (opt_len =? TCP_OPTION_LEN_SACK_PERMITTED) && syn then
      Some (add_flag TCP_OPTS_FLAG_SACK_PERMITTED to)
    else Some to
  else if kind =? TCP_OPTION_SACK_BLOCK then
    if negb (tcp_opts_sack_permitted to) || syn then Some to
    else if (opt_len <? 10) || negb ((opt_len - 2) `mod` TCP_OPTION_LEN_SACK_BLOCK =? 0) then Some to
    else
      let to := add_flag TCP_OPTS_FLAG_SACK to in
      let n := u8 ((opt_len - 2) / TCP_OPTION_LEN_SACK_BLOCK) in
      bs ← mfoldl (read_sack data) [] (zrange 0 n);
      Some (set_sacks bs n to)
  else Some to.

Fixpoint parse_loop (fuel : nat) (syn : bool) (data : list Z) (opts_len : Z) (to : tcp_options)
    : option tcp_options :=
  match fuel with
  | O => None
  | S fuel =>
      if opts_len =? 0 then Some to
      else
        kind ← vget data 0;
        if kind =? TCP_OPTION_EOL then Some to
        else if kind =? TCP_OPTION_NOOP then
          to ← parse_option syn data kind 1 to;
          parse_loop fuel syn (drop 1 data) (u8 (opts_len - 1)) to
        else if opts_len <? 2 then Some to
        else
          opt_len ← vget data 1;
          if (opt_len <? 2) || (opts_len <? opt_len) then Some to
          else
            to ← parse_option syn data kind opt_len to;
            parse_loop fuel syn (drop (Z.to_nat opt_len) data) (u8 (opts_len - opt_len)) to
  end.

(** Every turn of the loop consumes a byte of at most 255. *)
Definition opts_fuel : nat := 256.

Definition opts_length (th : tcp_header) : Z :=
  u8 (Z.shiftl (tcp_doff th) 2 - SIZEOF_TCP_HEADER).

Definition tcp_options_parse (th : tcp_header) (data : list Z) (to : tcp_options) : option tcp_options :=
  let to := set_flags (Z.land (opt_flags to)
                         (Z.lor TCP_OPTS_FLAG_SACK_PERMITTED TCP_OPTS_FLAG_WSCALE)) to in
  parse_loop opts_fuel (tcp_syn th) data (opts_length th) to.

(** ** [tcp_options_write]

    The state of the writer: the bytes written so far and [opts_len]. *)

Definition writer : Type := list Z * Z.
Definition put (bytes : list Z) (w : writer) : writer := (w.1 ++ bytes, w.2).
Definition count (n : Z) (w : writer) : writer := (w.1, u32 (w.2 + n)).

Definition write_block (w : writer) (b : sack_block) : writer :=
  put (host_to_net_u32 (blk_end b)) (put (host_to_net_u32 (blk_start b)) w).

Definition write_mss (opts : tcp_options) (w : writer) : writer :=
  if tcp_opts_mss opts then
    count TCP_OPTION_LEN_MSS
      (put (host_to_net_u16 (mss opts)) (put [TCP_OPTION_MSS; TCP_OPTION_LEN_MSS] w))
  else w.

Definition write_wscale (opts : tcp_options) (w : writer) : writer :=
  if tcp_opts_wscale opts then
    count TCP_OPTION_LEN_WINDOW_SCALE
      (put [TCP_OPTION_WINDOW_SCALE; TCP_OPTION_LEN_WINDOW_SCALE; wscale opts] w)
  else w.

Definition write_sack_permitted (opts : tcp_options) (w : writer) : writer :=
  if tcp_opts_sack_permitted opts then
    count TCP_OPTION_LEN_SACK_PERMITTED
      (put [TCP_OPTION_SACK_PERMITTED; TCP_OPTION_LEN_SACK_PERMITTED] w)
  else w.

Definition write_tstamp (opts : tcp_options) (w : writer) : writer :=
  if tcp_opts_tstamp opts then
    count TCP_OPTION_LEN_TIMESTAMP
      (put (host_to_net_u32 (tsecr opts)) (put (host_to_net_u32 (tsval opts))
         (put [TCP_OPTION_TIMESTAMP; TCP_OPTION_LEN_TIMESTAMP] w)))
  else w.

Definition write_sacks (opts : tcp_options) (w : writer) : writer :=
  if tcp_opts_sack opts then
    let n := Z.min (zlen (sacks opts)) TCP_OPTS_MAX_SACK_BLOCKS in
    if negb (n =? 0) then
      count (2 + n * TCP_OPTION_LEN_SACK_BLOCK)
        (foldl write_block
           (put [TCP_OPTION_SACK_BLOCK; u8 (2 + n * TCP_OPTION_LEN_SACK_BLOCK)] w)
           (take (Z.to_nat n) (sacks opts)))
    else w
  else w.

(** The padding loop makes at most three turns. *)
Fixpoint write_noops (fuel : nat) (w : writer) : option writer :=
  if w.2 `mod` 4 =? 0 then Some w
  else match fuel with
       | O => None
       | S fuel => write_noops fuel (count 1 (put [TCP_OPTION_NOOP] w))
       end.

Definition write_padding (w : writer) : option writer :=
  let w := if negb (w.2 `mod` 4 =? 0) then count 1 (put [TCP_OPTION_EOL] w) else w in
  write_noops 3 w.

Definition tcp_options_write (opts : tcp_options) : option writer :=
  write_padding
    (write_sacks opts (write_tstamp opts (write_sack_permitted opts
       (write_wscale opts (write_mss opts ([], 0)))))).

(** ** [tcp_make_syn_options] *)

Definition dummy_mtu : Z := 400.

(** Alignment of an option length kept in a [u8]. *)
Definition align_len (len : Z) : Z :=
  u8 (len + (TCP_OPTS_ALIGN - len `mod` TCP_OPTS_ALIGN) `mod` TCP_OPTS_ALIGN).

Definition tcp_make_syn_options (now : Z) (opts : tcp_options) (wnd_scale : Z) : tcp_options * Z :=
  let opts := set_mss dummy_mtu (add_flag TCP_OPTS_FLAG_MSS opts) in
  let len := u8 (0 + TCP_OPTION_LEN_MSS) in
  let opts := set_wscale wnd_scale (add_flag TCP_OPTS_FLAG_WSCALE opts) in
  let len := u8 (len + TCP_OPTION_LEN_WINDOW_SCALE) in
  let opts := set_tstamp now 0 (add_flag TCP_OPTS_FLAG_TSTAMP opts) in
  let len := u8 (len + TCP_OPTION_LEN_TIMESTAMP) in
  let opts := add_flag TCP_OPTS_FLAG_SACK_PERMITTED opts in
  let len := u8 (len + TCP_OPTION_LEN_SACK_PERMITTED) in
  (opts, align_len len).

(** ** Flags *)

(** The flag words are unions of the option flags: a test of one bit. *)
Lemma flag_testbit x n :
  0 ≤ n → negb (Z.land x (Z.shiftl 1 n) =? 0) = Z.testbit x n.
Proof.
  intros Hn. destruct (Z.testbit x n) eqn:E.
  - apply negb_true_iff, Z.eqb_neq. intros Heq.
    assert (Z.testbit (Z.land x (Z.shiftl 1 n)) n = false) as Hb.
    { by rewrite Heq, Z.bits_0. }
    rewrite Z.land_spec, E, testbit_shiftl1, Z.eqb_refl in Hb by done. done.
  - apply negb_false_iff, Z.eqb_eq, Z.bits_inj'. intros i Hi.
    rewrite Z.bits_0, Z.land_spec, testbit_shiftl1 by done.
    destruct (Z.eqb_spec i n) as [->|]; [by rewrite E|by rewrite andb_false_r].
Qed.

Lemma opts_flag_testbit to n :
  0 ≤ n → opts_flag to (Z.shiftl 1 n) = Z.testbit (opt_flags to) n.
Proof. apply flag_testbit. Qed.

Lemma flag_mss to : tcp_opts_mss to = Z.testbit (opt_flags to) 0.
Proof. by apply opts_flag_testbit. Qed.
Lemma flag_tstamp to : tcp_opts_tstamp to = Z.testbit (opt_flags to) 1.
Proof. by apply opts_flag_testbit. Qed.
Lemma flag_wscale to : tcp_opts_wscale to = Z.testbit (opt_flags to) 2.
Proof. by apply opts_flag_testbit. Qed.
Lemma flag_permitted to : tcp_opts_sack_permitted to = Z.testbit (opt_flags to) 3.
Proof. by apply opts_flag_testbit. Qed.
Lemma flag_sack to : tcp_opts_sack to = Z.testbit (opt_flags to) 4.
Proof. by apply opts_flag_testbit. Qed.

(** ** The parser stays inside of the options *)

Lemma vget_ok (data : list Z) n i : n ≤ zlen data → 0 ≤ i < n → vget data i = Some (velt 0 data i).
Proof. intros ??. apply vget_velt. lia. Qed.

Lemma net_u16_ok data n off :
  n ≤ zlen data → 0 ≤ off → off + 2 ≤ n → is_Some (net_u16 data off).
Proof. intros. unfold net_u16. rewrite !(vget_ok _ n) by lia. eauto. Qed.

Lemma net_u32_ok data n off :
  n ≤ zlen data → 0 ≤ off → off + 4 ≤ n → is_Some (net_u32 data off).
Proof. intros. unfold net_u32. rewrite !(vget_ok _ n) by lia. eauto. Qed.

Lemma read_sacks_ok data opt_len n :
  opt_len ≤ zlen data → 8 * n + 2 ≤ opt_len → 0 ≤ n →
  ∃ bs, mfoldl (read_sack data) [] (zrange 0 n) = Some bs ∧ zlen bs = n.
Proof.
  intros Hd Hn Hn0.
  destruct (mfoldl_inv (read_sack data) (λ done bs, zlen bs = zlen done) (zrange 0 n) [])
    as (bs & Hbs & Hlen).
  - done.
  - intros bs dn j Hj%elem_of_zrange Hlen. unfold read_sack.
    destruct (net_u32_ok data opt_len (2 + 4 * j)) as [s ->]; [lia..|].
    destruct (net_u32_ok data opt_len (6 + 4 * j)) as [e ->]; [lia..|].
    cbn [mbind option_bind]. eexists. split; [done|]. by rewrite !zlen_app, Hlen.
  - exists bs. split; [done|]. rewrite Hlen. unfold zlen, zrange. rewrite length_seqZ. lia.
Qed.

(** What holds of the result of a parse begun with the options [to0]. *)
Record parsed (syn : bool) (to0 to : tcp_options) : Prop := {
  parsed_wscale : wscale to0 ≤ TCP_MAX_WND_SCALE → wscale to ≤ TCP_MAX_WND_SCALE;
  parsed_syn_only : syn = false →
    mss to = mss to0 ∧ wscale to = wscale to0 ∧ tcp_opts_mss to = tcp_opts_mss to0 ∧
    tcp_opts_wscale to = tcp_opts_wscale to0 ∧
    tcp_opts_sack_permitted to = tcp_opts_sack_permitted to0;
  parsed_sack : tcp_opts_sack to = true → tcp_opts_sack to0 = false →
    syn = false ∧ tcp_opts_sack_permitted to = true ∧
    zlen (sacks to) = n_sack_blocks to ∧ 1 ≤ n_sack_blocks to ≤ 31;
}.

Create Rewrite HintDb tcpflags.
#[local] Hint Rewrite flag_mss flag_tstamp flag_wscale flag_permitted flag_sack : tcpflags.

(** Push the flag tests through [add_flag] and decide the constant bits. *)
Ltac flags_simpl :=
  autorewrite with tcpflags in *; unfold add_flag in *;
  cbn [set_flags set_mss set_wscale set_tstamp set_sacks opt_flags mss wscale tsval tsecr sacks
       n_sack_blocks] in *;
  unfold TCP_OPTS_FLAG_MSS, TCP_OPTS_FLAG_TSTAMP, TCP_OPTS_FLAG_WSCALE,
    TCP_OPTS_FLAG_SACK_PERMITTED, TCP_OPTS_FLAG_SACK in *;
  rewrite ?Z.lor_spec, ?testbit_shiftl1 in * by lia;
  cbn [Z.eqb Pos.eqb] in *; rewrite ?orb_false_r, ?orb_true_r in *.

Lemma parse_option_ok syn data kind opt_len to0 to :
  0 ≤ opt_len < 256 → opt_len ≤ zlen data → parsed syn to0 to →
  ∃ to', parse_option syn data kind opt_len to = Some to' ∧ parsed syn to0 to'.
Proof.
  intros Hr Hlen [Hw Hs Hk]. unfold parse_option.
  repeat case_cond; unfold TCP_OPTION_LEN_MSS, TCP_OPTION_LEN_WINDOW_SCALE,
    TCP_OPTION_LEN_TIMESTAMP, TCP_OPTION_LEN_SACK_PERMITTED, TCP_MAX_WND_SCALE in *; eauto using Build_parsed.
  - destruct (net_u16_ok data opt_len 2) as [m ->]; [lia..|]. eexists. split; [done|].
    subst syn. split; flags_simpl; done.
  - rewrite (vget_ok _ opt_len) by lia. eexists. split; [done|].
    subst syn. split; flags_simpl; try done.
    intros _. destruct (Z.gtb_spec (velt 0 data 2) 14); unfold TCP_MAX_WND_SCALE; lia.
  - destruct (net_u32_ok data opt_len 2) as [v ->]; [lia..|].
    destruct (net_u32_ok data opt_len 6) as [e ->]; [lia..|].
    eexists. split; [done|]. split; flags_simpl; auto.
  - eexists. split; [done|]. subst syn. split; flags_simpl; try done.
    intros Ha Hb. by destruct (Hk Ha Hb).
  - subst syn.
    assert (8 * ((opt_len - 2) / 8) = opt_len - 2) as Hdiv.
    { pose proof (Z.div_mod (opt_len - 2) 8 ltac:(lia)). unfold TCP_OPTION_LEN_SACK_BLOCK in *. lia. }
    unfold TCP_OPTION_LEN_SACK_BLOCK. rewrite u8_small by (unfold_ranges; lia).
    destruct (read_sacks_ok data opt_len ((opt_len - 2) / 8)) as (bs & -> & Hbs); [lia..|].
    eexists. split; [done|]. split; [done|by flags_simpl|].
    intros _ _. flags_simpl. split_and!; [done..| |]; lia.
Qed.

(** Whatever the bytes, the parser ends, reads only the [opts_len] bytes of the options,
    and keeps its promises on the options it records. *)
Lemma parse_loop_ok syn to0 fuel : ∀ data opts_len to,
  0 ≤ opts_len < 256 → opts_len ≤ zlen data → opts_len < Z.of_nat fuel → parsed syn to0 to →
  ∃ to', parse_loop fuel syn data opts_len to = Some to' ∧ parsed syn to0 to'.
Proof.
  induction fuel as [|fuel IH]; intros data opts_len to Hr Hlen Hfuel Hp; [lia|].
  cbn [parse_loop]. case_cond; [by eauto|]. rewrite (vget_ok _ opts_len 0) by lia. cbn [mbind option_bind].
  case_cond; [by eauto|].
  assert (∀ opt_len to', 0 < opt_len ≤ opts_len → parsed syn to0 to' → ∃ to'',
    parse_loop fuel syn (drop (Z.to_nat opt_len) data) (u8 (opts_len - opt_len)) to' = Some to'' ∧
    parsed syn to0 to'') as Hnext.
  { intros opt_len to' Hol Hp'. rewrite u8_small by (unfold_ranges; lia).
    apply IH; [lia| |lia|done]. unfold zlen in *. rewrite length_drop. lia. }
  case_cond.
  - destruct (parse_option_ok syn data (velt 0 data 0) 1 to0 to) as (to' & -> & Hp'); [lia..|done|].
    cbn [mbind option_bind]. apply (Hnext 1); [lia|done].
  - case_cond; [by eauto|]. rewrite (vget_ok _ opts_len 1) by lia. cbn [mbind option_bind].
    destruct (_ || _) eqn:Hb; [by eauto|]. apply orb_false_elim in Hb as [??]. bool_to_prop.
    destruct (parse_option_ok syn data (velt 0 data 0) (velt 0 data 1) to0 to)
      as (to' & -> & Hp'); [lia..|done|].
    cbn [mbind option_bind]. apply Hnext; [lia|done].
Qed.

(** More memory after the options does not change what is parsed. *)
Lemma vget_mono {A} (l l' : list A) i x : vget l i = Some x → vget (l ++ l') i = Some x.
Proof. intros H. rewrite vget_app_l; [done|]. apply vget_Some_range in H. lia. Qed.

Ltac invert_binds :=
  repeat match goal with
  | H : _ ≫= _ = Some _ |- _ => apply bind_Some in H as (? & ? & H)
  | H : Some _ = Some _ |- _ => apply (inj Some) in H; subst
  end.

Lemma net_u16_mono l l' off x : net_u16 l off = Some x → net_u16 (l ++ l') off = Some x.
Proof.
  unfold net_u16. intros H. invert_binds.
  repeat match goal with H : vget l _ = Some _ |- _ => apply (vget_mono l l') in H; rewrite H; clear H end.
  done.
Qed.

Lemma net_u32_mono l l' off x : net_u32 l off = Some x → net_u32 (l ++ l') off = Some x.
Proof.
  unfold net_u32. intros H. invert_binds.
  repeat match goal with H : vget l _ = Some _ |- _ => apply (vget_mono l l') in H; rewrite H; clear H end.
  done.
Qed.

Lemma read_sacks_mono l l' js : ∀ bs r,
  mfoldl (read_sack l) bs js = Some r → mfoldl (read_sack (l ++ l')) bs js = Some r.
Proof.
  induction js as [|j js IH]; intros bs r H; cbn [mfoldl] in *; [done|].
  apply bind_Some in H as (bs' & Hbs & H).
  assert (read_sack (l ++ l') bs j = Some bs') as ->.
  { unfold read_sack in *. invert_binds.
    do 2 match goal with E : net_u32 l _ = Some _ |- _ => apply (net_u32_mono l l') in E; rewrite E; clear E end.
    done. }
  cbn [mbind option_bind]. by apply IH.
Qed.

Lemma parse_option_mono syn l l' kind opt_len to r :
  parse_option syn l kind opt_len to = Some r → parse_option syn (l ++ l') kind opt_len to = Some r.
Proof.
  unfold parse_option. repeat case_cond; try done; intros Hres; invert_binds;
  repeat match goal with
  | H : net_u16 l _ = Some _ |- _ => apply (net_u16_mono l l') in H; rewrite H; clear H
  | H : net_u32 l _ = Some _ |- _ => apply (net_u32_mono l l') in H; rewrite H; clear H
  | H : vget l _ = Some _ |- _ => apply (vget_mono l l') in H; rewrite H; clear H
  | H : mfoldl (read_sack l) _ _ = Some _ |- _ => apply (read_sacks_mono l l') in H; rewrite H; clear H
  end; done.
Qed.

Lemma parse_loop_mono syn fuel : ∀ l l' opts_len to r,
  0 ≤ opts_len < 256 → opts_len ≤ zlen l →
  parse_loop fuel syn l opts_len to = Some r → parse_loop fuel syn (l ++ l') opts_len to = Some r.
Proof.
  induction fuel as [|fuel IH]; intros l l' opts_len to r Hr Hlen; cbn [parse_loop]; [done|].
  case_cond; [done|].
  assert (∀ n to', 0 ≤ n ≤ opts_len →
    parse_loop fuel syn (drop (Z.to_nat n) l) (u8 (opts_len - n)) to' = Some r →
    parse_loop fuel syn (drop (Z.to_nat n) (l ++ l')) (u8 (opts_len - n)) to' = Some r) as Hnext.
  { intros n to' Hn. rewrite u8_small by (unfold_ranges; lia).
    unfold zlen in *. rewrite drop_app_le by lia. apply IH; [lia|].
    unfold zlen. rewrite length_drop. lia. }
  intros (kind & Hk & H)%bind_Some. rewrite (vget_mono _ _ _ _ Hk). cbn [mbind option_bind].
  revert H. case_cond; [done|]. case_cond.
  - intros (to' & Ho & H)%bind_Some. rewrite (parse_option_mono _ _ _ _ _ _ _ Ho).
    cbn [mbind option_bind]. apply (Hnext 1); [lia|done].
  - case_cond; [done|]. intros (n & Hn & H)%bind_Some. rewrite (vget_mono _ _ _ _ Hn).
    cbn [mbind option_bind]. revert H. destruct (_ || _) eqn:Hb; [done|].
    apply orb_false_elim in Hb as [??]. bool_to_prop.
    intros (to' & Ho & Hres)%bind_Some. rewrite (parse_option_mono _ _ _ _ _ _ _ Ho).
    cbn [mbind option_bind]. apply Hnext; [lia|done].
Qed.

Lemma opts_length_range th : 0 ≤ opts_length th < 256.
Proof. apply u8_range. Qed.

Lemma parsed_refl syn to : tcp_opts_sack to = false → parsed syn to to.
Proof. intros Hs. split; [done..|congruence]. Qed.

(** Clearing the flags of the previous segment keeps WSCALE and SACK_PERMITTED. *)
Lemma cleared_flags to :
  let to' := set_flags (Z.land (opt_flags to)
    (Z.lor TCP_OPTS_FLAG_SACK_PERMITTED TCP_OPTS_FLAG_WSCALE)) to in
  tcp_opts_sack to' = false ∧ tcp_opts_mss to' = false ∧ tcp_opts_tstamp to' = false ∧
  tcp_opts_wscale to' = tcp_opts_wscale to ∧
  tcp_opts_sack_permitted to' = tcp_opts_sack_permitted to.
Proof.
  cbn. autorewrite with tcpflags. cbn [opt_flags set_flags]. rewrite !Z.land_spec.
  split_and!; apply andb_false_r || apply andb_true_r.
Qed.

(** C30: For every header and every sequence of bytes that is at least as long as the
    options announced by the data offset, [tcp_options_parse] ends and reads no byte after the
    options.  The window scale it records is at most 14 when it was so before; without SYN it leaves the
    MSS, the window scale and the SACK-permitted flag of the connection alone; and it
    reports SACK blocks only on a connection that negotiated SACK and not on a SYN, between
    1 and 31 of them, as many as its count says. *)
Theorem tcp_options_parse_safe (th : tcp_header) (data : list Z) (to : tcp_options)
    (Hlen : opts_length th ≤ zlen data) :
  ∃ to', tcp_options_parse th data to = Some to' ∧
    tcp_options_parse th (take (Z.to_nat (opts_length th)) data) to = Some to' ∧
    (wscale to ≤ TCP_MAX_WND_SCALE → wscale to' ≤ TCP_MAX_WND_SCALE) ∧
    (tcp_syn th = false →
      mss to' = mss to ∧ wscale to' = wscale to ∧ tcp_opts_mss to' = false ∧
      tcp_opts_wscale to' = tcp_opts_wscale to ∧
      tcp_opts_sack_permitted to' = tcp_opts_sack_permitted to) ∧
    (tcp_opts_sack to' = true →
      tcp_syn th = false ∧ tcp_opts_sack_permitted to' = true ∧
      zlen (sacks to') = n_sack_blocks to' ∧ 1 ≤ n_sack_blocks to' ≤ 31).
Proof.
  unfold tcp_options_parse. pose proof (opts_length_range th) as Hr.
  pose proof (cleared_flags to) as Hf. revert Hf.
  set (to1 := set_flags (Z.land _ _) to). cbv zeta. intros (Hs1 & Hm1 & _ & Hw1 & Hp1).
  set (data1 := take (Z.to_nat (opts_length th)) data).
  assert (zlen data1 = opts_length th) as Hlen1.
  { unfold data1, zlen in *. rewrite length_take. lia. }
  destruct (parse_loop_ok (tcp_syn th) to1 opts_fuel data1 (opts_length th) to1) as (to' & He & [Hw Hs Hk]);
    [done|lia|unfold opts_fuel; lia|by apply parsed_refl|].
  exists to'. split; [|split; [done|]].
  { rewrite <-(take_drop (Z.to_nat (opts_length th)) data). fold data1. apply parse_loop_mono; [done|lia|done]. }
  split; [done|]. split; [|by auto].
  intros Hsyn. destruct (Hs Hsyn) as (?&?&?&?&?). split_and!; congruence || done.
Qed.

Lemma tcp_options_parse_safe_witness :
  let th := Hdr 0 0 (Z.shiftl 8 4) TCP_FLAG_ACK 0 in
  let data := [1; 1; 8; 10; 0; 0; 0; 7; 0; 0; 0; 9] in
  opts_length th ≤ zlen data ∧ ∃ to', tcp_options_parse th data zero_options = Some to'.
Proof.
  cbv zeta. split; [vm_compute; discriminate|].
  destruct (tcp_options_parse_safe (Hdr 0 0 (Z.shiftl 8 4) TCP_FLAG_ACK 0)
    [1; 1; 8; 10; 0; 0; 0; 7; 0; 0; 0; 9] zero_options) as (to' & H & _); [vm_compute; discriminate|].
  by exists to'.
Defined.

(** ** What is written is what is parsed *)

(** The bytes each part of the writer appends. *)
Definition mss_bytes (opts : tcp_options) : list Z :=
  if tcp_opts_mss opts then 2 :: 4 :: host_to_net_u16 (mss opts) else [].
Definition wscale_bytes (opts : tcp_options) : list Z :=
  if tcp_opts_wscale opts then [3; 3; wscale opts] else [].
Definition permitted_bytes (opts : tcp_options) : list Z :=
  if tcp_opts_sack_permitted opts then [4; 2] else [].
Definition tstamp_bytes (opts : tcp_options) : list Z :=
  if tcp_opts_tstamp opts
  then 8 :: 10 :: host_to_net_u32 (tsval opts) ++ host_to_net_u32 (tsecr opts) else [].
Definition block_bytes (b : sack_block) : list Z :=
  host_to_net_u32 (blk_start b) ++ host_to_net_u32 (blk_end b).
Definition sack_bytes (opts : tcp_options) : list Z :=
  match take 3 (sacks opts) with
  | [] => []
  | bs => if tcp_opts_sack opts then 5 :: (2 + 8 * zlen bs) :: concat (map block_bytes bs) else []
  end.
Definition padding (n : Z) : list Z :=
  if n `mod` 4 =? 0 then [] else TCP_OPTION_EOL :: replicate (Z.to_nat (3 - n `mod` 4)) TCP_OPTION_NOOP.

Definition option_bytes (opts : tcp_options) : list Z :=
  mss_bytes opts ++ wscale_bytes opts ++ permitted_bytes opts ++ tstamp_bytes opts ++ sack_bytes opts.

Lemma foldl_write_block bs : ∀ w,
  foldl write_block w bs = put (concat (map block_bytes bs)) w.
Proof.
  induction bs as [|b bs IH]; intros [d n]; cbn [foldl concat map].
  - unfold put. by rewrite app_nil_r.
  - rewrite IH. unfold put, write_block, put, block_bytes. cbn [fst snd]. by rewrite <-!app_assoc.
Qed.

Definition appended (bytes : list Z) (w : writer) : writer := (w.1 ++ bytes, u32 (w.2 + zlen bytes)).

Lemma appended_nil w : in_u32 w.2 → appended [] w = w.
Proof. intros Hw. destruct w as [d n]. unfold appended. cbn [fst snd] in *.
  by rewrite zlen_nil, app_nil_r, Z.add_0_r, u32_small. Qed.

Lemma appended_app a b w : appended b (appended a w) = appended (a ++ b) w.
Proof. unfold appended. cbn [fst snd]. rewrite zlen_app, app_assoc. f_equal. by word_simpl; f_equal; lia. Qed.

Lemma zlen_blocks bs : zlen (concat (map block_bytes bs)) = 8 * zlen bs.
Proof.
  induction bs as [|b bs IH]; [done|].
  cbn [concat map]. rewrite zlen_app, IH, zlen_cons. unfold block_bytes.
  change (zlen (host_to_net_u32 _ ++ _)) with 8. lia.
Qed.

Lemma take_three {A} (l : list A) :
  take (Z.to_nat (Z.min (zlen l) TCP_OPTS_MAX_SACK_BLOCKS)) l = take 3 l ∧
  Z.min (zlen l) TCP_OPTS_MAX_SACK_BLOCKS = zlen (take 3 l).
Proof.
  unfold TCP_OPTS_MAX_SACK_BLOCKS. split.
  - destruct (decide (zlen l ≤ 3)); unfold zlen in *.
    + rewrite Z.min_l by lia. rewrite Nat2Z.id, !take_ge by lia. done.
    + rewrite Z.min_r by lia. done.
  - unfold zlen. rewrite length_take. lia.
Qed.

Lemma write_sacks_step opts w :
  in_u32 w.2 → write_sacks opts w = appended (sack_bytes opts) w.
Proof.
  intros Hw. unfold write_sacks, sack_bytes. destruct (take_three (sacks opts)) as [-> ->].
  assert (zlen (take 3 (sacks opts)) ≤ 3) as Hle by (unfold zlen; rewrite length_take; lia).
  destruct (take 3 (sacks opts)) as [|b bs] eqn:E; [by case_match; rewrite appended_nil|].
  case_match; [|by rewrite appended_nil].
  assert ((zlen (b :: bs) =? 0) = false) as ->.
  { rewrite zlen_cons. pose proof (zlen_nonneg bs). apply Z.eqb_neq. lia. }
  rewrite foldl_write_block. unfold put, count, appended, TCP_OPTION_LEN_SACK_BLOCK. cbn [negb fst snd].
  rewrite !(zlen_cons _ (_ :: _)), (zlen_cons _ (concat _)), zlen_blocks.
  rewrite <-app_assoc, u8_small by (pose proof (zlen_nonneg (b :: bs)); unfold_ranges; lia).
  rewrite (Z.mul_comm _ 8). cbn [app]. do 2 f_equal.
Qed.

Lemma write_steps opts w :
  in_u32 w.2 →
  write_mss opts w = appended (mss_bytes opts) w ∧
  write_wscale opts w = appended (wscale_bytes opts) w ∧
  write_sack_permitted opts w = appended (permitted_bytes opts) w ∧
  write_tstamp opts w = appended (tstamp_bytes opts) w.
Proof.
  intros Hn. unfold write_mss, write_wscale, write_sack_permitted, write_tstamp,
    mss_bytes, wscale_bytes, permitted_bytes, tstamp_bytes.
  split_and!; case_match; try (by rewrite appended_nil);
    unfold put, count, appended; cbn [fst snd]; by rewrite <-?app_assoc.
Qed.

(** [lia] with the quotients and remainders by constants. *)
Ltac div_lia := Z.to_euclidean_division_equations; lia.

Lemma write_noops_ok m : ∀ fuel w,
  (m ≤ fuel)%nat → (m < 4)%nat → in_u32 w.2 → w.2 + Z.of_nat m < 2 ^ 31 → (w.2 + Z.of_nat m) `mod` 4 = 0 →
  write_noops fuel w = Some (appended (replicate m TCP_OPTION_NOOP) w).
Proof.
  induction m as [|m IH]; intros fuel w Hf Hm Hw Hs Hmod.
  - rewrite Z.add_0_r in Hmod. destruct fuel; cbn [write_noops replicate]; by rewrite Hmod, appended_nil.
  - destruct fuel as [|fuel]; [lia|]. cbn [write_noops].
    case_cond; [exfalso; div_lia|].
    unfold_ranges. rewrite IH; [|lia|lia|..].
    + replace (replicate (S m) TCP_OPTION_NOOP) with ([TCP_OPTION_NOOP] ++ replicate m TCP_OPTION_NOOP) by done.
      rewrite <-appended_app. done.
    + apply u32_range.
    + unfold count, put. cbn [snd fst]. word.
    + unfold count, put. cbn [snd fst]. rewrite u32_small by (unfold_ranges; lia).
      rewrite <-Hmod. f_equal. lia.
Qed.

Lemma padding_ok w :
  in_u32 w.2 → w.2 < 2 ^ 30 →
  write_padding w = Some (appended (padding w.2) w) ∧ (w.2 + zlen (padding w.2)) `mod` 4 = 0.
Proof.
  intros Hn Hs. unfold write_padding, padding. unfold_ranges.
  destruct (w.2 `mod` 4 =? 0) eqn:E; bool_to_prop; cbn [negb].
  - rewrite zlen_nil, Z.add_0_r. split; [|done].
    apply (write_noops_ok 0); [lia|lia|done|cbn; lia|by rewrite Z.add_0_r].
  - pose proof (Z.mod_pos_bound w.2 4 ltac:(lia)).
    split; [|rewrite zlen_cons, zlen_replicate, Z2Nat.id by lia; div_lia].
    rewrite (write_noops_ok (Z.to_nat (3 - w.2 `mod` 4))); [|lia|lia|..].
    + change (TCP_OPTION_EOL :: ?l) with ([TCP_OPTION_EOL] ++ l). by rewrite <-appended_app.
    + apply u32_range.
    + unfold count, put. cbn [snd fst]. word.
    + unfold count, put. cbn [snd fst]. rewrite u32_small, Z2Nat.id by (unfold_ranges; lia). div_lia.
Qed.

Lemma option_bytes_le opts : 0 ≤ zlen (option_bytes opts) ≤ 45.
Proof.
  unfold option_bytes. rewrite !zlen_app.
  assert (zlen (mss_bytes opts) ≤ 4) by (unfold mss_bytes; by case_match).
  assert (zlen (wscale_bytes opts) ≤ 3) by (unfold wscale_bytes; by case_match).
  assert (zlen (permitted_bytes opts) ≤ 2) by (unfold permitted_bytes; by case_match).
  assert (zlen (tstamp_bytes opts) ≤ 10) by (unfold tstamp_bytes; by case_match).
  assert (zlen (sack_bytes opts) ≤ 26).
  { unfold sack_bytes. assert (zlen (take 3 (sacks opts)) ≤ 3) as Hle by (unfold zlen; rewrite length_take; lia).
    destruct (take 3 (sacks opts)) as [|b bs]; [done|]. case_match; [|done].
    rewrite !(zlen_cons _ (_ :: _)), (zlen_cons _ (concat _)), zlen_blocks. lia. }
  pose proof (zlen_nonneg (mss_bytes opts)). pose proof (zlen_nonneg (wscale_bytes opts)).
  pose proof (zlen_nonneg (permitted_bytes opts)). pose proof (zlen_nonneg (tstamp_bytes opts)).
  pose proof (zlen_nonneg (sack_bytes opts)). lia.
Qed.

(** The writer always succeeds; what it returns is the number of bytes it wrote. *)
Lemma write_ok opts :
  let bytes := option_bytes opts ++ padding (zlen (option_bytes opts)) in
  tcp_options_write opts = Some (bytes, zlen bytes) ∧ zlen bytes `mod` 4 = 0.
Proof.
  cbv zeta. unfold tcp_options_write.
  assert (∀ bs w, in_u32 (appended bs w).2) as Hr by (intros; apply u32_range).
  assert (in_u32 (([] : list Z), 0).2) as H0 by (cbn; unfold_ranges; lia).
  rewrite (proj1 (write_steps opts _ H0)), (proj1 (proj2 (write_steps opts _ (Hr _ _)))),
    (proj1 (proj2 (proj2 (write_steps opts _ (Hr _ _))))),
    (proj2 (proj2 (proj2 (write_steps opts _ (Hr _ _))))), write_sacks_step by apply Hr.
  rewrite !appended_app.
  pose proof (option_bytes_le opts) as Hle.
  assert (appended (mss_bytes opts ++ wscale_bytes opts ++ permitted_bytes opts ++
    tstamp_bytes opts ++ sack_bytes opts) ([], 0) = (option_bytes opts, zlen (option_bytes opts))) as Hw.
  { unfold appended. cbn [fst snd]. fold (option_bytes opts). by rewrite u32_small by (unfold_ranges; lia). }
  rewrite Hw.
  destruct (padding_ok (option_bytes opts, zlen (option_bytes opts))) as [-> Hm];
    [cbn; unfold_ranges; lia..|].
  cbn [snd fst] in Hm. rewrite zlen_app. split; [|done].
  unfold appended. cbn [fst snd]. do 2 f_equal. apply u32_small.
  assert (zlen (padding (zlen (option_bytes opts))) ≤ 3).
  { unfold padding. case_cond; [done|]. rewrite zlen_cons, zlen_replicate.
    pose proof (Z.mod_pos_bound (zlen (option_bytes opts)) 4 ltac:(lia)). lia. }
  pose proof (zlen_nonneg (padding (zlen (option_bytes opts)))). unfold_ranges. lia.
Qed.

(** The length of what is written, from the flags alone. *)
Definition sacks_len (opts : tcp_options) : Z :=
  let n := Z.min (zlen (sacks opts)) TCP_OPTS_MAX_SACK_BLOCKS in
  if tcp_opts_sack opts && negb (n =? 0) then 2 + 8 * n else 0.

Definition options_len (opts : tcp_options) : Z :=
  (if tcp_opts_mss opts then 4 else 0) + (if tcp_opts_wscale opts then 3 else 0) +
  (if tcp_opts_sack_permitted opts then 2 else 0) + (if tcp_opts_tstamp opts then 10 else 0) + sacks_len opts.

Lemma zlen_option_bytes opts : zlen (option_bytes opts) = options_len opts.
Proof.
  unfold option_bytes, options_len. rewrite !zlen_app.
  replace (zlen (mss_bytes opts)) with (if tcp_opts_mss opts then 4 else 0)
    by (unfold mss_bytes; by case_match).
  replace (zlen (wscale_bytes opts)) with (if tcp_opts_wscale opts then 3 else 0)
    by (unfold wscale_bytes; by case_match).
  replace (zlen (permitted_bytes opts)) with (if tcp_opts_sack_permitted opts then 2 else 0)
    by (unfold permitted_bytes; by case_match).
  replace (zlen (tstamp_bytes opts)) with (if tcp_opts_tstamp opts then 10 else 0)
    by (unfold tstamp_bytes; by case_match).
  assert (zlen (sack_bytes opts) = sacks_len opts) as ->; [|lia].
  unfold sack_bytes, sacks_len. rewrite (proj2 (take_three (sacks opts))).
  destruct (take 3 (sacks opts)) as [|b bs]; [by rewrite andb_false_r|].
  destruct (tcp_opts_sack opts); [|done].
  assert ((zlen (b :: bs) =? 0) = false) as ->.
  { rewrite zlen_cons. pose proof (zlen_nonneg bs). apply Z.eqb_neq. lia. }
  cbn [negb andb]. rewrite (zlen_cons 5), (zlen_cons (_ + _)), zlen_blocks. lia.
Qed.

Lemma write_length opts bytes n :
  tcp_options_write opts = Some (bytes, n) → n = zlen bytes ∧ n = align_len (options_len opts).
Proof.
  destruct (write_ok opts) as [-> _]. intros [= <- <-]. split; [done|].
  pose proof (option_bytes_le opts) as Hle. rewrite zlen_app, zlen_option_bytes in *.
  unfold align_len, padding, TCP_OPTS_ALIGN. set (n := options_len opts) in *. clearbody n.
  pose proof (Z.mod_pos_bound n 4 ltac:(lia)).
  destruct (n `mod` 4 =? 0) eqn:E; bool_to_prop.
  - rewrite E, zlen_nil. change ((4 - 0) `mod` 4) with 0. rewrite u8_small by (unfold_ranges; lia). done.
  - rewrite zlen_cons, zlen_replicate, Z2Nat.id by lia.
    assert ((4 - n `mod` 4) `mod` 4 = 4 - n `mod` 4) as -> by (apply Z.mod_small; lia).
    rewrite u8_small by (unfold_ranges; lia). lia.
Qed.

(** What the parser makes of the blocks the writer sends: it steps over them four bytes at
    a time, while a block has eight. *)
Definition sacks_seen (bs : list sack_block) : list sack_block :=
  match bs with
  | b1 :: b2 :: _ :: _ => [b1; Sack (blk_end b1) (blk_start b2); b2]
  | [b1; b2] => [b1; Sack (blk_end b1) (blk_start b2)]
  | _ => bs
  end.

(** A block as it fits the wire. *)
Definition word_block (b : sack_block) : sack_block := Sack (u32 (blk_start b)) (u32 (blk_end b)).

(** The options a connection holds after a segment with the options [opts]. *)
Definition got_mss (syn : bool) (opts to : tcp_options) : tcp_options :=
  if tcp_opts_mss opts && syn then set_mss (u16 (mss opts)) (add_flag TCP_OPTS_FLAG_MSS to) else to.
Definition got_wscale (syn : bool) (opts to : tcp_options) : tcp_options :=
  if tcp_opts_wscale opts && syn
  then set_wscale (Z.min (wscale opts) TCP_MAX_WND_SCALE) (add_flag TCP_OPTS_FLAG_WSCALE to) else to.
Definition got_permitted (syn : bool) (opts to : tcp_options) : tcp_options :=
  if tcp_opts_sack_permitted opts && syn then add_flag TCP_OPTS_FLAG_SACK_PERMITTED to else to.
Definition got_tstamp (opts to : tcp_options) : tcp_options :=
  if tcp_opts_tstamp opts then set_tstamp (u32 (tsval opts)) (u32 (tsecr opts)) (add_flag TCP_OPTS_FLAG_TSTAMP to) else to.
Definition got_sacks (syn : bool) (opts to : tcp_options) : tcp_options :=
  let bs := take 3 (sacks opts) in
  if tcp_opts_sack opts && negb (zlen bs =? 0) && tcp_opts_sack_permitted to && negb syn
  then set_sacks (sacks_seen (map word_block bs)) (zlen bs) (add_flag TCP_OPTS_FLAG_SACK to) else to.

Definition received (syn : bool) (opts to : tcp_options) : tcp_options :=
  got_sacks syn opts (got_tstamp opts (got_permitted syn opts (got_wscale syn opts (got_mss syn opts to)))).

(** [parses syn data n to to']: the parser, at [data] with [n] bytes left, ends with [to']. *)
Definition parses (syn : bool) (data : list Z) (n : Z) (to to' : tcp_options) : Prop :=
  0 ≤ n ∧ ∀ fuel, n < Z.of_nat fuel → parse_loop fuel syn data n to = Some to'.

Lemma parses_chunk syn kind chunk rest n to to1 to' :
  kind ≠ TCP_OPTION_EOL → kind ≠ TCP_OPTION_NOOP →
  zlen chunk + n < 254 →
  parse_option syn (kind :: (zlen chunk + 2) :: chunk ++ rest) kind (zlen chunk + 2) to = Some to1 →
  parses syn rest n to1 to' →
  parses syn ((kind :: (zlen chunk + 2) :: chunk) ++ rest) (zlen chunk + 2 + n) to to'.
Proof.
  intros Hk0 Hk1 Hlen Hopt [Hn Hrest]. pose proof (zlen_nonneg chunk) as Hc. split; [lia|].
  intros [|fuel] Hf; [lia|]. cbn [parse_loop app].
  assert ((zlen chunk + 2 + n =? 0) = false) as -> by (apply Z.eqb_neq; lia).
  change (vget (kind :: _) 0) with (Some kind). cbn [mbind option_bind].
  rewrite (proj2 (Z.eqb_neq _ _) Hk0), (proj2 (Z.eqb_neq _ _) Hk1).
  assert ((zlen chunk + 2 + n <? 2) = false) as -> by (apply Z.ltb_ge; lia).
  change (vget (kind :: _) 1) with (Some (zlen chunk + 2)). cbn [mbind option_bind].
  assert ((zlen chunk + 2 <? 2) || (zlen chunk + 2 + n <? zlen chunk + 2) = false) as ->.
  { apply orb_false_intro; apply Z.ltb_ge; lia. }
  rewrite Hopt. cbn [mbind option_bind]. rewrite u8_small by (unfold_ranges; lia).
  replace (zlen chunk + 2 + n - (zlen chunk + 2)) with n by lia.
  replace (Z.to_nat (zlen chunk + 2)) with (S (S (length chunk))) by (unfold zlen; lia).
  cbn [drop]. rewrite drop_app_length. apply Hrest. lia.
Qed.

Lemma parses_padding syn rest n to :
  parses syn (padding n ++ rest) (zlen (padding n)) to to.
Proof.
  unfold padding. case_cond; (split; [apply zlen_nonneg|]); intros [|fuel] Hf;
    [done|done|pose proof (zlen_nonneg (TCP_OPTION_EOL :: replicate (Z.to_nat (3 - n `mod` 4)) TCP_OPTION_NOOP)); lia|].
  cbn [parse_loop app]. case_cond; [done|].
  change (vget (TCP_OPTION_EOL :: _) 0) with (Some TCP_OPTION_EOL). done.
Qed.

Lemma host_to_net_u16_inv x : be16 (byte1 x) (byte0 x) = u16 x.
Proof. unfold be16, byte0, byte1, u16. change (2 ^ 8) with 256. change (2 ^ 16) with 65536. div_lia. Qed.

Lemma host_to_net_u32_inv x : be32 (byte3 x) (byte2 x) (byte1 x) (byte0 x) = u32 x.
Proof.
  unfold be32, byte0, byte1, byte2, byte3, u32.
  replace (x / 2 ^ 24) with (x / 2 ^ 8 / 2 ^ 8 / 2 ^ 8) by (rewrite !Z.div_div by lia; done).
  replace (x / 2 ^ 16) with (x / 2 ^ 8 / 2 ^ 8) by (rewrite !Z.div_div by lia; done).
  change (2 ^ 8) with 256. change (2 ^ 16) with 65536. change (2 ^ 24) with 16777216.
  change (2 ^ 32) with 4294967296. div_lia.
Qed.

(** Evaluate the reads of words the writer has put. *)
Ltac net_reads :=
  lazy -[be16 be32 byte0 byte1 byte2 byte3 Z.lor Z.land u16 u32];
  rewrite ?host_to_net_u16_inv, ?host_to_net_u32_inv; try done.

(** A chunk that is empty when its option is not sent. *)
Lemma parses_nil syn rest n to to' : parses syn rest n to to' → parses syn ([] ++ rest) (zlen ([] : list Z) + n) to to'.
Proof. by rewrite zlen_nil. Qed.

Lemma parses_mss syn opts rest n to to' :
  n < 100 → parses syn rest n (got_mss syn opts to) to' →
  parses syn (mss_bytes opts ++ rest) (zlen (mss_bytes opts) + n) to to'.
Proof.
  intros Hn Hrest. unfold mss_bytes, got_mss in *. destruct (tcp_opts_mss opts); [|by apply parses_nil].
  apply (parses_chunk syn 2 (host_to_net_u16 (mss opts)) rest n to
    (if true && syn then set_mss (u16 (mss opts)) (add_flag TCP_OPTS_FLAG_MSS to) else to)); [done|done| | |done].
  - change (zlen (host_to_net_u16 _)) with 2. lia.
  - unfold parse_option. destruct syn; [|done]. net_reads.
Qed.

Lemma parses_wscale syn opts rest n to to' :
  n < 100 → parses syn rest n (got_wscale syn opts to) to' →
  parses syn (wscale_bytes opts ++ rest) (zlen (wscale_bytes opts) + n) to to'.
Proof.
  intros Hn Hrest. unfold wscale_bytes, got_wscale in *. destruct (tcp_opts_wscale opts); [|by apply parses_nil].
  apply (parses_chunk syn 3 [wscale opts] rest n to
    (if true && syn then set_wscale (Z.min (wscale opts) TCP_MAX_WND_SCALE)
       (add_flag TCP_OPTS_FLAG_WSCALE to) else to)); [done|done| | |done].
  - change (zlen [wscale opts]) with 1. lia.
  - destruct syn; [|done].
    transitivity (Some (set_wscale (if wscale opts >? TCP_MAX_WND_SCALE then TCP_MAX_WND_SCALE
      else wscale opts) (add_flag TCP_OPTS_FLAG_WSCALE to))); [done|].
    do 2 f_equal. destruct (Z.gtb_spec (wscale opts) TCP_MAX_WND_SCALE); lia.
Qed.

Lemma parses_permitted syn opts rest n to to' :
  n < 100 → parses syn rest n (got_permitted syn opts to) to' →
  parses syn (permitted_bytes opts ++ rest) (zlen (permitted_bytes opts) + n) to to'.
Proof.
  intros Hn Hrest. unfold permitted_bytes, got_permitted in *.
  destruct (tcp_opts_sack_permitted opts); [|by apply parses_nil].
  apply (parses_chunk syn 4 [] rest n to
    (if true && syn then add_flag TCP_OPTS_FLAG_SACK_PERMITTED to else to)); [done|done| | |done].
  - change (zlen []) with 0. lia.
  - unfold parse_option. cbn. by destruct syn.
Qed.

Lemma parses_tstamp syn opts rest n to to' :
  n < 100 → parses syn rest n (got_tstamp opts to) to' →
  parses syn (tstamp_bytes opts ++ rest) (zlen (tstamp_bytes opts) + n) to to'.
Proof.
  intros Hn Hrest. unfold tstamp_bytes, got_tstamp in *.
  destruct (tcp_opts_tstamp opts); [|by apply parses_nil].
  apply (parses_chunk syn 8 (host_to_net_u32 (tsval opts) ++ host_to_net_u32 (tsecr opts)) rest n to
    (set_tstamp (u32 (tsval opts)) (u32 (tsecr opts)) (add_flag TCP_OPTS_FLAG_TSTAMP to))); [done|done| | |done].
  - change (zlen (host_to_net_u32 _ ++ _)) with 8. lia.
  - unfold parse_option. net_reads.
Qed.

Lemma parses_sacks syn opts rest n to to' :
  n < 100 → parses syn rest n (got_sacks syn opts to) to' →
  parses syn (sack_bytes opts ++ rest) (zlen (sack_bytes opts) + n) to to'.
Proof.
  intros Hn Hrest. unfold sack_bytes, got_sacks in *.
  assert (zlen (take 3 (sacks opts)) ≤ 3) as Hle by (unfold zlen; rewrite length_take; lia).
  destruct (take 3 (sacks opts)) as [|b bs] eqn:Hbs.
  { rewrite andb_false_r in Hrest. by apply parses_nil. }
  destruct (tcp_opts_sack opts); [|by apply parses_nil].
  rewrite (Z.add_comm 2), <-zlen_blocks.
  replace (zlen (_ :: _ :: _) + n) with (zlen (concat (map block_bytes (b :: bs))) + 2 + n)
    by (rewrite (zlen_cons 5), (zlen_cons (_ + _)); lia).
  refine (parses_chunk syn 5 (concat (map block_bytes (b :: bs))) rest n to _ to' _ _ _ _ Hrest);
    [done|done|rewrite zlen_blocks; lia|].
  assert ((zlen (b :: bs) =? 0) = false) as ->.
  { rewrite zlen_cons. pose proof (zlen_nonneg bs). apply Z.eqb_neq. lia. }
  unfold parse_option. destruct (tcp_opts_sack_permitted to), syn; try done.
  destruct bs as [|b2 [|b3 [|b4 bs]]].
  - net_reads.
  - net_reads.
  - net_reads.
  - exfalso. rewrite !zlen_cons in Hle. pose proof (zlen_nonneg bs). lia.
Qed.

(** Parsing what was written, whatever the flags. *)
Lemma write_parse syn opts to rest n :
  n = zlen (option_bytes opts ++ padding (zlen (option_bytes opts))) →
  parses syn ((option_bytes opts ++ padding (zlen (option_bytes opts))) ++ rest) n to (received syn opts to).
Proof.
  intros ->. pose proof (option_bytes_le opts) as Hle. revert Hle. unfold option_bytes at 1 2.
  set (pad := padding _). intros Hle.
  assert (zlen pad ≤ 3).
  { unfold pad, padding. case_cond; [done|]. rewrite zlen_cons, zlen_replicate.
    pose proof (Z.mod_pos_bound (zlen (option_bytes opts)) 4 ltac:(lia)). lia. }
  unfold option_bytes. rewrite !zlen_app in *. rewrite <-!app_assoc, <-!Z.add_assoc.
  pose proof (zlen_nonneg (mss_bytes opts)). pose proof (zlen_nonneg (wscale_bytes opts)).
  pose proof (zlen_nonneg (permitted_bytes opts)). pose proof (zlen_nonneg (tstamp_bytes opts)).
  pose proof (zlen_nonneg (sack_bytes opts)).
  apply parses_mss; [lia|]. apply parses_wscale; [lia|]. apply parses_permitted; [lia|].
  apply parses_tstamp; [lia|]. apply parses_sacks; [lia|]. apply parses_padding.
Qed.

Lemma write_then_parse th opts to rest bytes n :
  tcp_options_write opts = Some (bytes, n) → opts_length th = n →
  tcp_options_parse th (bytes ++ rest) to =
    Some (received (tcp_syn th) opts
            (set_flags (Z.land (opt_flags to)
               (Z.lor TCP_OPTS_FLAG_SACK_PERMITTED TCP_OPTS_FLAG_WSCALE)) to)).
Proof.
  destruct (write_ok opts) as [-> _]. intros [= <- <-] Hlen.
  unfold tcp_options_parse. pose proof (opts_length_range th).
  apply (write_parse (tcp_syn th) opts _ rest (opts_length th) Hlen).
  change (Z.of_nat opts_fuel) with 256. lia.
Qed.

(** C31: A SYN round trip.  The options [tcp_make_syn_options] prepares for a new connection
    are written in as many bytes as the length it computes for the header, a multiple of four
    that fits the option space, and the peer that parses that SYN ends up with exactly
    the options that were sent, whatever follows them in the packet. *)
Theorem tcp_syn_options_roundtrip (now wnd_scale : Z) (th : tcp_header) (rest : list Z)
    (Hsyn : tcp_syn th = true) (Hnow : in_u32 now) (Hws : 0 ≤ wnd_scale ≤ TCP_MAX_WND_SCALE)
    (Hdoff : tcp_doff th = (SIZEOF_TCP_HEADER + (tcp_make_syn_options now zero_options wnd_scale).2) / 4) :
  let '(opts, len) := tcp_make_syn_options now zero_options wnd_scale in
  len `mod` 4 = 0 ∧ len ≤ 40 ∧
  ∃ bytes, tcp_options_write opts = Some (bytes, len) ∧
    tcp_options_parse th (bytes ++ rest) zero_options = Some opts.
Proof.
  set (opts := Opts 15 400 wnd_scale now 0 [] 0).
  change (tcp_make_syn_options now zero_options wnd_scale) with (opts, 20) in *. cbn [snd] in Hdoff.
  split; [done|]. split; [done|].
  destruct (write_ok opts) as [Hw _].
  change (zlen (option_bytes opts ++ padding (zlen (option_bytes opts)))) with 20 in Hw.
  eexists. split; [exact Hw|].
  assert (opts_length th = 20) as Hlen.
  { unfold opts_length. by rewrite Hdoff. }
  rewrite (write_then_parse _ _ _ _ _ _ Hw Hlen), Hsyn.
  unfold received, got_sacks, got_tstamp, got_permitted, got_wscale, got_mss.
  change (tcp_opts_sack opts) with false. change (tcp_opts_tstamp opts) with true.
  change (tcp_opts_sack_permitted opts) with true. change (tcp_opts_wscale opts) with true.
  change (tcp_opts_mss opts) with true. cbn -[u16 u32 Z.min].
  rewrite Z.min_l, (u32_small now), (u16_small 400) by (unfold_ranges; lia). done.
Qed.

Lemma tcp_syn_options_roundtrip_witness :
  let th := Hdr 0 0 (Z.shiftl 10 4) TCP_FLAG_SYN 0 in
  tcp_syn th = true ∧
  let '(opts, len) := tcp_make_syn_options 77 zero_options 7 in
  len `mod` 4 = 0 ∧ len ≤ 40 ∧
  ∃ bytes, tcp_options_write opts = Some (bytes, len) ∧
    tcp_options_parse th (bytes ++ [1; 2; 3]) zero_options = Some opts.
Proof.
  cbv zeta. split; [done|].
  apply (tcp_syn_options_roundtrip 77 7 (Hdr 0 0 (Z.shiftl 10 4) TCP_FLAG_SYN 0) [1; 2; 3]);
    [done|unfold_ranges; lia|vm_compute; by split|done].
Defined.

(** ** The options of an established connection *)

Definition word_blocks (bs : list sack_block) : Prop :=
  Forall (λ b, in_u32 (blk_start b) ∧ in_u32 (blk_end b)) bs.

Lemma word_block_id bs : word_blocks bs → map word_block bs = bs.
Proof.
  induction 1 as [|[s e] bs [Hs He] _ IH]; [done|]. cbn [map]. rewrite IH.
  unfold word_block. cbn [blk_start blk_end] in *. by rewrite !u32_small.
Qed.

(** What a peer learns from the options of a data segment.  On a connection that
    permits SACK, the timestamps arrive as they were sent, and the peer counts at most three of
    the SACK blocks.  A single block arrives as it was sent; but the parser advances four bytes per
    block where the writer used eight, so that of several blocks the second one reported is
    always the gap between the first two, from the end of the first to the start of the second,
    and a third one is the second block again. *)
Theorem tcp_established_options_parsed (opts to : tcp_options) (th : tcp_header) (rest bytes : list Z) (n : Z)
    (Hts : in_u32 (tsval opts) ∧ in_u32 (tsecr opts))
    (Hb : word_blocks (sacks opts)) (Hperm : tcp_opts_sack_permitted to = true)
    (Hsyn : tcp_syn th = false)
    (Hw : tcp_options_write opts = Some (bytes, n)) (Hlen : opts_length th = n) :
  ∃ to', tcp_options_parse th (bytes ++ rest) to = Some to' ∧
    tcp_opts_tstamp to' = tcp_opts_tstamp opts ∧
    (tcp_opts_tstamp opts = true → tsval to' = tsval opts ∧ tsecr to' = tsecr opts) ∧
    (tcp_opts_sack opts = true → sacks opts ≠ [] →
      tcp_opts_sack to' = true ∧ n_sack_blocks to' = Z.min 3 (zlen (sacks opts)) ∧
      (∀ b, sacks opts = [b] → sacks to' = [b]) ∧
      (∀ b1 b2 bs, sacks opts = b1 :: b2 :: bs →
        sacks to' !! 0%nat = Some b1 ∧ sacks to' !! 1%nat = Some (Sack (blk_end b1) (blk_start b2)) ∧
        ∀ b, sacks to' !! 2%nat = Some b → b = b2)).
Proof.
  rewrite (write_then_parse _ _ _ _ _ _ Hw Hlen), Hsyn. eexists. split; [done|].
  destruct (cleared_flags to) as (Hs1 & _ & Ht1 & _ & Hp1). revert Hs1 Ht1 Hp1.
  set (to1 := set_flags (Z.land _ _) to). cbv zeta. intros Hs1 Ht1 Hp1.
  unfold received, got_permitted, got_wscale, got_mss. rewrite !andb_false_r.
  assert (tcp_opts_tstamp (got_tstamp opts to1) = tcp_opts_tstamp opts ∧
    tcp_opts_sack_permitted (got_tstamp opts to1) = true ∧
    (tcp_opts_tstamp opts = true →
      tsval (got_tstamp opts to1) = tsval opts ∧ tsecr (got_tstamp opts to1) = tsecr opts)) as (Ht & Hp & Hv).
  { unfold got_tstamp. destruct (tcp_opts_tstamp opts).
    - flags_simpl. rewrite !u32_small by apply Hts. split_and!; [done| |done]. congruence.
    - split_and!; [done|congruence|done]. }
  assert (∀ t, tcp_opts_tstamp (got_sacks false opts t) = tcp_opts_tstamp t ∧
    tsval (got_sacks false opts t) = tsval t ∧ tsecr (got_sacks false opts t) = tsecr t) as Hk.
  { intros t. unfold got_sacks. case_match; [|done]. by flags_simpl. }
  destruct (Hk (got_tstamp opts to1)) as (-> & -> & ->). split; [done|]. split; [done|].
  intros Hsack Hne. unfold got_sacks. rewrite Hsack, Hp.
  destruct (take_three (sacks opts)) as [_ Hmin].
  rewrite Z.min_comm. change 3 with TCP_OPTS_MAX_SACK_BLOCKS. rewrite Hmin.
  rewrite word_block_id by (by apply Forall_take).
  destruct (sacks opts) as [|b bs]; [done|].
  assert ((zlen (take 3 (b :: bs)) =? 0) = false) as ->.
  { cbn [take]. rewrite zlen_cons. pose proof (zlen_nonneg (take 2 bs)). apply Z.eqb_neq. lia. }
  cbn [andb negb]. split; [by flags_simpl|]. split; [done|]. split.
  - intros b' [= -> ->]. done.
  - intros b1 b2 bs' [= -> ->]. destruct bs' as [|b3 bs']; cbn; split_and!; try done. by intros b' [= ->].
Qed.

Lemma tcp_established_options_parsed_witness :
  let opts := Opts 18 0 0 5 6 [Sack 100 200; Sack 300 400] 2 in
  let th := Hdr 0 0 (Z.shiftl 12 4) TCP_FLAG_ACK 0 in
  let to := set_flags TCP_OPTS_FLAG_SACK_PERMITTED zero_options in
  ∃ bytes n to', tcp_options_write opts = Some (bytes, n) ∧ opts_length th = n ∧
    tcp_options_parse th (bytes ++ [0]) to = Some to' ∧ tcp_opts_tstamp to' = tcp_opts_tstamp opts.
Proof.
  cbv zeta. eexists _, _.
  destruct (tcp_established_options_parsed (Opts 18 0 0 5 6 [Sack 100 200; Sack 300 400] 2)
    (set_flags TCP_OPTS_FLAG_SACK_PERMITTED zero_options) (Hdr 0 0 (Z.shiftl 12 4) TCP_FLAG_ACK 0) [0]
    [8; 10; 0; 0; 0; 5; 0; 0; 0; 6; 5; 18; 0; 0; 0; 100; 0; 0; 0; 200; 0; 0; 1; 44; 0; 0; 1; 144] 28)
    as (to' & Hp & Ht & _);
    [split; unfold_ranges; cbn; lia|repeat constructor; unfold_ranges; cbn; lia|done..|].
  exists to'. split; [vm_compute; reflexivity|]. split; [done|]. by split.
Defined.
End TcpOpt.
