(* ===== verification/TcpConn.v ===== *)
(** * TCP connections (vnet/tcp/tcp.h, the windows, options and headers of tcp_output.c,
    the acceptance of segments and the round-trip estimate of tcp_input.c, and tcp_newreno.c)

    A connection is the record of the fields the modelled functions use.  The session of
    the connection is reached in C through its index; here its two FIFOs are fields.  A timer
    is the interval it was started with, and [None] for [TCP_TIMER_HANDLE_INVALID]; the wheel
    that runs it is [TwTimer].  The clock of [tcp_time_now] is an argument [now], in ticks of
    10 ms. *)

From S2P Require Import Prelude Bitmap Popcount Pool SvmFifo TcpOptions.

Module TcpConn.
Import ClibPool TcpOpt.

(** ** States, flags and constants *)

Inductive tcp_state :=
  | TCP_STATE_CLOSED | TCP_STATE_LISTEN | TCP_STATE_SYN_SENT | TCP_STATE_SYN_RCVD
  | TCP_STATE_ESTABLISHED | TCP_STATE_CLOSE_WAIT | TCP_STATE_FIN_WAIT_1 | TCP_STATE_LAST_ACK
  | TCP_STATE_CLOSING | TCP_STATE_FIN_WAIT_2 | TCP_STATE_TIME_WAIT.

Definition state_num (s : tcp_state) : Z :=
  match s with
  | TCP_STATE_CLOSED => 0 | TCP_STATE_LISTEN => 1 | TCP_STATE_SYN_SENT => 2
  | TCP_STATE_SYN_RCVD => 3 | TCP_STATE_ESTABLISHED => 4 | TCP_STATE_CLOSE_WAIT => 5
  | TCP_STATE_FIN_WAIT_1 => 6 | TCP_STATE_LAST_ACK => 7 | TCP_STATE_CLOSING => 8
  | TCP_STATE_FIN_WAIT_2 => 9 | TCP_STATE_TIME_WAIT => 10
  end.

#[export] Instance tcp_state_eq_dec : EqDecision tcp_state.
Proof. solve_decision. Defined.

Definition TCP_CONN_DELACK : Z := Z.shiftl 1 0.
Definition TCP_CONN_SNDACK : Z := Z.shiftl 1 1.
Definition TCP_CONN_BURSTACK : Z := Z.shiftl 1 2.
Definition TCP_CONN_FINSNT : Z := Z.shiftl 1 3.
Definition TCP_CONN_SENT_RCV_WND0 : Z := Z.shiftl 1 4.
Definition TCP_CONN_RECOVERY : Z := Z.shiftl 1 5.
Definition TCP_CONN_FAST_RECOVERY : Z := Z.shiftl 1 6.

Definition TCP_IW_N_SEGMENTS : Z := 10.
Definition TCP_MAX_RX_FIFO_SIZE : Z := Z.shiftl 2 20.
Definition TCP_DUPACK_THRESHOLD : Z := 3.
Definition TCP_MAX_SACK_BLOCKS : Z := 5.
Definition TCP_INVALID_SACK_HOLE_INDEX : Z := u32_max.

(** [THZ] is [1/10e-3], a hundred ticks per second. *)
Definition THZ : Z := 100.
Definition TCP_PAWS_IDLE : Z := 24 * 24 * 60 * 60 * THZ.
Definition TCP_RTO_MAX : Z := 60 * THZ.
Definition TCP_RTT_MAX : Z := 30 * THZ.

(** ** Sequence numbers *)

Definition seq_lt (a b : Z) : bool := i32 (a - b) <? 0.
Definition seq_leq (a b : Z) : bool := i32 (a - b) <=? 0.
Definition seq_gt (a b : Z) : bool := 0 <? i32 (a - b).
Definition seq_geq (a b : Z) : bool := 0 <=? i32 (a - b).
Definition timestamp_lt (a b : Z) : bool := i32 (a - b) <? 0.

(** ** The connection *)

Record sack_scoreboard_hole := Hole {
  hole_next : Z;
  hole_prev : Z;
  hole_start : Z;
  hole_end : Z;
}.

Record sack_scoreboard := Scoreboard {
  holes : pool sack_scoreboard_hole;
  sb_head : Z;
  sacked_bytes : Z;
}.

Record tcp_connection := Conn {
  state : tcp_state;
  flags : Z;
  snd_una : Z;
  snd_una_max : Z;
  snd_wnd : Z;
  snd_wl1 : Z;
  snd_wl2 : Z;
  snd_nxt : Z;
  rcv_nxt : Z;
  rcv_wnd : Z;
  rcv_las : Z;
  opt : tcp_options;
  rcv_wscale : Z;
  snd_wscale : Z;
  tsval_recent : Z;
  tsval_recent_age : Z;
  snd_sacks : list sack_block;
  sack_sb : sack_scoreboard;
  rcv_dupacks : Z;
  snt_dupacks : Z;
  cwnd : Z;
  ssthresh : Z;
  prev_ssthresh : Z;
  bytes_acked : Z;
  rtx_bytes : Z;
  tsecr_last_ack : Z;
  rto : Z;
  rto_boff : Z;
  srtt : Z;
  rttvar : Z;
  rtt_ts : Z;
  rtt_seq : Z;
  snd_mss : Z;
  delack_timer : option Z;
  retransmit_timer : option Z;
  server_rx_fifo : Svm.svm_fifo;
  server_tx_fifo : Svm.svm_fifo;
}.

Definition conn_eta (c : tcp_connection) : tcp_connection :=
  Conn (state c) (flags c) (snd_una c) (snd_una_max c) (snd_wnd c) (snd_wl1 c) (snd_wl2 c) (snd_nxt c)
    (rcv_nxt c) (rcv_wnd c) (rcv_las c) (opt c) (rcv_wscale c) (snd_wscale c) (tsval_recent c)
    (tsval_recent_age c) (snd_sacks c) (sack_sb c) (rcv_dupacks c) (snt_dupacks c) (cwnd c)
    (ssthresh c) (prev_ssthresh c) (bytes_acked c) (rtx_bytes c) (tsecr_last_ack c) (rto c)
    (rto_boff c) (srtt c) (rttvar c) (rtt_ts c) (rtt_seq c) (snd_mss c) (delack_timer c)
    (retransmit_timer c) (server_rx_fifo c) (server_tx_fifo c).

(** [conn_set f x c] is [c] with [x] in the field [f]. *)
Ltac conn_set f x c :=
  let t := eval unfold conn_eta in (conn_eta c) in
  match eval pattern (f c) in t with
  | ?g _ => let r := eval cbv beta in (g x) in exact r
  end.

Definition set_state (x : tcp_state) (c : tcp_connection) : tcp_connection := ltac:(conn_set state x c).
Definition set_conn_flags (x : Z) (c : tcp_connection) : tcp_connection := ltac:(conn_set flags x c).
Definition set_snd_una (x : Z) (c : tcp_connection) : tcp_connection := ltac:(conn_set snd_una x c).
Definition set_snd_wnd (x : Z) (c : tcp_connection) : tcp_connection := ltac:(conn_set snd_wnd x c).
Definition set_snd_wl1 (x : Z) (c : tcp_connection) : tcp_connection := ltac:(conn_set snd_wl1 x c).
Definition set_snd_wl2 (x : Z) (c : tcp_connection) : tcp_connection := ltac:(conn_set snd_wl2 x c).
Definition set_snd_nxt (x : Z) (c : tcp_connection) : tcp_connection := ltac:(conn_set snd_nxt x c).
Definition set_rcv_nxt (x : Z) (c : tcp_connection) : tcp_connection := ltac:(conn_set rcv_nxt x c).
Definition set_rcv_wnd (x : Z) (c : tcp_connection) : tcp_connection := ltac:(conn_set rcv_wnd x c).
Definition set_opt (x : tcp_options) (c : tcp_connection) : tcp_connection := ltac:(conn_set opt x c).
Definition set_rcv_wscale (x : Z) (c : tcp_connection) : tcp_connection := ltac:(conn_set rcv_wscale x c).
Definition set_tsval_recent (x : Z) (c : tcp_connection) : tcp_connection := ltac:(conn_set tsval_recent x c).
Definition set_tsval_recent_age (x : Z) (c : tcp_connection) : tcp_connection :=
  ltac:(conn_set tsval_recent_age x c).
Definition set_snd_sacks (x : list sack_block) (c : tcp_connection) : tcp_connection :=
  ltac:(conn_set snd_sacks x c).
Definition set_sack_sb (x : sack_scoreboard) (c : tcp_connection) : tcp_connection :=
  ltac:(conn_set sack_sb x c).
Definition set_rcv_dupacks (x : Z) (c : tcp_connection) : tcp_connection := ltac:(conn_set rcv_dupacks x c).
Definition set_snt_dupacks (x : Z) (c : tcp_connection) : tcp_connection := ltac:(conn_set snt_dupacks x c).
Definition set_cwnd (x : Z) (c : tcp_connection) : tcp_connection := ltac:(conn_set cwnd x c).
Definition set_ssthresh (x : Z) (c : tcp_connection) : tcp_connection := ltac:(conn_set ssthresh x c).
Definition set_prev_ssthresh (x : Z) (c : tcp_connection) : tcp_connection := ltac:(conn_set prev_ssthresh x c).
Definition set_bytes_acked (x : Z) (c : tcp_connection) : tcp_connection := ltac:(conn_set bytes_acked x c).
Definition set_rtx_bytes (x : Z) (c : tcp_connection) : tcp_connection := ltac:(conn_set rtx_bytes x c).
Definition set_tsecr_last_ack (x : Z) (c : tcp_connection) : tcp_connection :=
  ltac:(conn_set tsecr_last_ack x c).
Definition set_rto (x : Z) (c : tcp_connection) : tcp_connection := ltac:(conn_set rto x c).
Definition set_rto_boff (x : Z) (c : tcp_connection) : tcp_connection := ltac:(conn_set rto_boff x c).
Definition set_srtt (x : Z) (c : tcp_connection) : tcp_connection := ltac:(conn_set srtt x c).
Definition set_rttvar (x : Z) (c : tcp_connection) : tcp_connection := ltac:(conn_set rttvar x c).
Definition set_rtt_seq (x : Z) (c : tcp_connection) : tcp_connection := ltac:(conn_set rtt_seq x c).
Definition set_snd_mss (x : Z) (c : tcp_connection) : tcp_connection := ltac:(conn_set snd_mss x c).
Definition set_rx_fifo (x : Svm.svm_fifo) (c : tcp_connection) : tcp_connection :=
  ltac:(conn_set server_rx_fifo x c).
Definition set_tx_fifo (x : Svm.svm_fifo) (c : tcp_connection) : tcp_connection :=
  ltac:(conn_set server_tx_fifo x c).

Definition set_retransmit_timer (x : option Z) (c : tcp_connection) : tcp_connection :=
  ltac:(conn_set retransmit_timer x c).

Definition conn_flag (c : tcp_connection) (f : Z) : bool := negb (Z.land (flags c) f =? 0).
Definition flag_on (f : Z) (c : tcp_connection) : tcp_connection := set_conn_flags (Z.lor (flags c) f) c.
Definition flag_off (f : Z) (c : tcp_connection) : tcp_connection := set_conn_flags (Z.ldiff (flags c) f) c.

Definition tcp_fastrecovery_on (c : tcp_connection) := flag_on TCP_CONN_FAST_RECOVERY c.
Definition tcp_in_fastrecovery (c : tcp_connection) : bool := conn_flag c TCP_CONN_FAST_RECOVERY.
Definition tcp_in_recovery (c : tcp_connection) : bool :=
  conn_flag c (Z.lor TCP_CONN_FAST_RECOVERY TCP_CONN_RECOVERY).
Definition tcp_recovery_off (c : tcp_connection) :=
  flag_off (Z.lor TCP_CONN_FAST_RECOVERY TCP_CONN_RECOVERY) c.
Definition tcp_in_slowstart (c : tcp_connection) : bool := cwnd c <? ssthresh c.

(** ** Windows *)

Definition tcp_flight_size (c : tcp_connection) : Z :=
  u32 (snd_una_max c - snd_una c - sacked_bytes (sack_sb c) + rtx_bytes c).

Definition tcp_initial_cwnd (c : tcp_connection) : Z :=
  if snd_mss c >? 2190 then u32 (2 * snd_mss c)
  else if snd_mss c >? 1095 then u32 (3 * snd_mss c)
  else u32 (4 * snd_mss c).

Definition tcp_loss_wnd (c : tcp_connection) : Z := snd_mss c.
Definition tcp_available_wnd (c : tcp_connection) : Z := Z.min (cwnd c) (snd_wnd c).

Definition tcp_available_snd_space (c : tcp_connection) : Z :=
  let available_wnd := tcp_available_wnd c in
  let flight_size := tcp_flight_size c in
  if available_wnd <=? flight_size then 0 else u32 (available_wnd - flight_size).

Definition tcp_set_snd_mss (c : tcp_connection) : tcp_connection :=
  let m := if mss (opt c) <? dummy_mtu then mss (opt c) else dummy_mtu in
  let c := set_snd_mss m c in
  if snd_mss c =? 0 then set_snd_mss dummy_mtu c else c.

(** The loop of [tcp_window_compute_scale]; [wnd_scale] counts up to 14. *)
Fixpoint scale_loop (fuel : nat) (available_space wnd_scale : Z) : option Z :=
  match fuel with
  | O => None
  | S fuel =>
      if (wnd_scale <? TCP_MAX_WND_SCALE) && (Z.shiftr available_space wnd_scale >? TCP_WND_MAX)
      then scale_loop fuel available_space (u8 (wnd_scale + 1))
      else Some wnd_scale
  end.

Definition tcp_window_compute_scale (available_space : Z) : option Z := scale_loop 15 available_space 0.

Definition tcp_initial_wnd_unscaled : Z := u32 (TCP_IW_N_SEGMENTS * dummy_mtu).

Definition tcp_initial_window_to_advertise (c : tcp_connection) : option (tcp_connection * Z) :=
  s ← tcp_window_compute_scale TCP_MAX_RX_FIFO_SIZE;
  let c := set_rcv_wnd tcp_initial_wnd_unscaled (set_rcv_wscale s c) in
  Some (c, Z.min (rcv_wnd c) TCP_WND_MAX).

Definition tcp_window_to_advertise (c : tcp_connection) (st : tcp_state) : option (tcp_connection * Z) :=
  if state_num st <? state_num TCP_STATE_ESTABLISHED then tcp_initial_window_to_advertise c
  else
    let available_space := Svm.svm_fifo_max_enqueue (server_rx_fifo c) in
    let max_fifo := Svm.nitems (server_rx_fifo c) in
    _ ← Svm.assert (mss (opt c) <? max_fifo);
    let available_space :=
      if (available_space <? mss (opt c)) && (available_space <? max_fifo / 8) then 0
      else available_space in
    let c := set_rcv_wnd (Z.min available_space (u32 (Z.shiftl TCP_WND_MAX (rcv_wscale c)))) c in
    let c := if rcv_wnd c =? 0 then flag_on TCP_CONN_SENT_RCV_WND0 c else c in
    Some (c, Z.shiftr (rcv_wnd c) (rcv_wscale c)).

(** ** Options and headers of outgoing segments *)

Definition tcp_make_synack_options (now : Z) (c : tcp_connection) (opts : tcp_options) : tcp_options * Z :=
  let opts := set_mss dummy_mtu (add_flag TCP_OPTS_FLAG_MSS opts) in
  let len := u8 (0 + TCP_OPTION_LEN_MSS) in
  let '(opts, len) :=
    if tcp_opts_wscale (opt c)
    then (set_wscale (rcv_wscale c) (add_flag TCP_OPTS_FLAG_WSCALE opts), u8 (len + TCP_OPTION_LEN_WINDOW_SCALE))
    else (opts, len) in
  let '(opts, len) :=
    if tcp_opts_tstamp (opt c)
    then (set_tstamp now (tsval_recent c) (add_flag TCP_OPTS_FLAG_TSTAMP opts), u8 (len + TCP_OPTION_LEN_TIMESTAMP))
    else (opts, len) in
  let '(opts, len) :=
    if tcp_opts_sack_permitted (opt c)
    then (add_flag TCP_OPTS_FLAG_SACK_PERMITTED opts, u8 (len + TCP_OPTION_LEN_SACK_PERMITTED))
    else (opts, len) in
  (opts, align_len len).

Definition tcp_make_established_options (now : Z) (c : tcp_connection) (opts : tcp_options)
    : tcp_options * Z :=
  let opts := set_flags 0 opts in
  let len := 0 in
  let '(opts, len) :=
    if tcp_opts_tstamp (opt c)
    then (set_tstamp now (tsval_recent c) (add_flag TCP_OPTS_FLAG_TSTAMP opts), u8 (len + TCP_OPTION_LEN_TIMESTAMP))
    else (opts, len) in
  let '(opts, len) :=
    if tcp_opts_sack_permitted (opt c) && negb (zlen (snd_sacks c) =? 0) then
      let opts := set_sacks (snd_sacks c) (u8 (zlen (snd_sacks c))) (add_flag TCP_OPTS_FLAG_SACK opts) in
      (opts, u8 (len + 2 + TCP_OPTION_LEN_SACK_BLOCK * n_sack_blocks opts))
    else (opts, len) in
  (opts, align_len len).

Definition tcp_make_options (now : Z) (c : tcp_connection) (opts : tcp_options) (st : tcp_state)
    : tcp_options * Z :=
  match st with
  | TCP_STATE_ESTABLISHED | TCP_STATE_FIN_WAIT_1 => tcp_make_established_options now c opts
  | TCP_STATE_SYN_RCVD => tcp_make_synack_options now c opts
  | TCP_STATE_SYN_SENT => tcp_make_syn_options now opts (rcv_wscale c)
  | _ => (opts, 0)
  end.

Definition vlib_buffer_push_tcp (seq ack tcp_hdr_opts_len fl wnd : Z) : tcp_header :=
  Hdr seq ack (u8 (Z.shiftl (Z.shiftr tcp_hdr_opts_len 2) 4)) fl wnd.

(** A segment handed to the output node: its header, option bytes and payload. *)
Record out_segment := Out {
  out_header : tcp_header;
  out_options : list Z;
  out_payload : list Z;
}.

Definition tcp_make_ack_i (now : Z) (c : tcp_connection) (st : tcp_state) (fl : Z)
    : option (tcp_connection * out_segment) :=
  '(c, w) ← tcp_window_to_advertise c st;
  let wnd := u16 w in
  let '(snd_opts, l) := tcp_make_established_options now c zero_options in
  let tcp_opts_len := u8 l in
  let tcp_hdr_opts_len := u8 (tcp_opts_len + SIZEOF_TCP_HEADER) in
  let th := vlib_buffer_push_tcp (snd_nxt c) (rcv_nxt c) tcp_hdr_opts_len fl wnd in
  '(bytes, _) ← tcp_options_write snd_opts;
  Some (c, Out th bytes []).

Definition tcp_make_ack (now : Z) (c : tcp_connection) : option (tcp_connection * out_segment) :=
  tcp_make_ack_i now c TCP_STATE_ESTABLISHED TCP_FLAG_ACK.

(** ** Sequence numbers are positions modulo 2^32 *)

Lemma i32_diff x y : - 2 ^ 31 ≤ x - y < 2 ^ 31 → i32 (u32 x - u32 y) = x - y.
Proof.
  intros H. unfold i32, u32. rewrite <-Zminus_mod.
  destruct (decide (0 ≤ x - y)).
  - rewrite Z.mod_small by lia. case_cond; lia.
  - replace (x - y) with ((x - y + 2 ^ 32) + -1 * 2 ^ 32) by lia.
    rewrite Z.mod_add, Z.mod_small by lia. case_cond; lia.
Qed.

Section positions.
Context (x y : Z) (Hxy : - 2 ^ 31 ≤ x - y < 2 ^ 31).

Lemma seq_lt_pos : seq_lt (u32 x) (u32 y) = (x <? y).
Proof using Hxy. unfold seq_lt. rewrite i32_diff by done. apply eq_true_iff_eq. rewrite !Z.ltb_lt. lia. Qed.
Lemma seq_leq_pos : seq_leq (u32 x) (u32 y) = (x <=? y).
Proof using Hxy. unfold seq_leq. rewrite i32_diff by done. apply eq_true_iff_eq. rewrite !Z.leb_le. lia. Qed.
Lemma seq_gt_pos : seq_gt (u32 x) (u32 y) = (y <? x).
Proof using Hxy. unfold seq_gt. rewrite i32_diff by done. apply eq_true_iff_eq. rewrite !Z.ltb_lt. lia. Qed.
Lemma seq_geq_pos : seq_geq (u32 x) (u32 y) = (y <=? x).
Proof using Hxy. unfold seq_geq. rewrite i32_diff by done. apply eq_true_iff_eq. rewrite !Z.leb_le. lia. Qed.
End positions.

(** ** Connection flags *)

Lemma conn_flag_testbit c n : 0 ≤ n → conn_flag c (Z.shiftl 1 n) = Z.testbit (flags c) n.
Proof. apply flag_testbit. Qed.

Lemma conn_flag_on c n : 0 ≤ n → conn_flag (flag_on (Z.shiftl 1 n) c) (Z.shiftl 1 n) = true.
Proof.
  intros Hn. rewrite conn_flag_testbit by done. unfold flag_on. cbn [flags set_conn_flags].
  rewrite Z.lor_spec, testbit_shiftl1, Z.eqb_refl by done. apply orb_true_r.
Qed.

(** ** The windows *)

Lemma shiftr_mono a s : 0 ≤ a → 0 ≤ s → Z.shiftr a (s + 1) ≤ Z.shiftr a s.
Proof.
  intros Ha Hs. rewrite !Z.shiftr_div_pow2, Z.pow_add_r by lia. change (2 ^ 1) with 2.
  assert (0 < 2 ^ s) by (apply Z.pow_pos_nonneg; lia).
  apply Z.div_le_lower_bound; [lia|]. 
  pose proof (Z.div_mod a (2 ^ s * 2) ltac:(lia)).
  pose proof (Z.mod_pos_bound a (2 ^ s * 2) ltac:(lia)).
  assert (0 ≤ a / (2 ^ s * 2)) by (apply Z.div_pos; lia). nia.
Qed.

Lemma scale_loop_ok fuel a : ∀ s,
  0 ≤ s ≤ 14 → 14 - s < Z.of_nat fuel →
  (∀ k, 0 ≤ k < s → Z.shiftr a k > TCP_WND_MAX) →
  ∃ r, scale_loop fuel a s = Some r ∧ 0 ≤ r ≤ 14 ∧
    (Z.shiftr a r ≤ TCP_WND_MAX ∨ r = 14) ∧ (∀ k, 0 ≤ k < r → Z.shiftr a k > TCP_WND_MAX).
Proof.
  induction fuel as [|fuel IH]; intros s Hs Hf Hk; [lia|]. cbn [scale_loop].
  unfold TCP_MAX_WND_SCALE. destruct (_ && _) eqn:E.
  - apply andb_prop in E as [E1 E2]. bool_to_prop. apply Z.gtb_lt in E2.
    rewrite u8_small by (unfold_ranges; lia). apply IH; [lia..|].
    intros k Hr. destruct (decide (k = s)) as [->|]; [lia|apply Hk; lia].
  - exists s. split; [done|]. split; [done|]. split; [|done].
    apply andb_false_iff in E as [E|E]; bool_to_prop; [right; lia|left].
    rewrite Z.gtb_ltb in E. bool_to_prop. lia.
Qed.

(** The loop of [tcp_window_compute_scale] ends for every amount of space, with the
    least shift that makes the space fit the 16 bits of the window field, or with 14 when none
    up to 14 does. *)
Theorem tcp_window_compute_scale_least (available_space : Z) :
  ∃ s, tcp_window_compute_scale available_space = Some s ∧ 0 ≤ s ≤ TCP_MAX_WND_SCALE ∧
    (Z.shiftr available_space s ≤ TCP_WND_MAX ∨ s = TCP_MAX_WND_SCALE) ∧
    ∀ k, 0 ≤ k < s → Z.shiftr available_space k > TCP_WND_MAX.
Proof. apply (scale_loop_ok 15 available_space 0); lia. Qed.

(** C32: The window advertised on an established connection fits the 16-bit field of the
    header, and what it announces after scaling is at most the room of the receive FIFO and
    at most the receive window recorded, from which it is less than one unit of the scale away.  An
    announced window of zero units that comes from a full or nearly full FIFO is recorded in
    the flag [TCP_CONN_SENT_RCV_WND0]. *)
Theorem tcp_window_to_advertise_bounds (c c' : tcp_connection) (st : tcp_state) (w : Z)
    (Hst : 4 ≤ state_num st) (Hws : 0 ≤ rcv_wscale c ≤ TCP_MAX_WND_SCALE)
    (Hw : tcp_window_to_advertise c st = Some (c', w)) :
  0 ≤ w ≤ TCP_WND_MAX ∧ u16 w = w ∧
  Z.shiftl w (rcv_wscale c') ≤ Svm.svm_fifo_max_enqueue (server_rx_fifo c) ∧
  Z.shiftl w (rcv_wscale c') ≤ rcv_wnd c' < Z.shiftl (w + 1) (rcv_wscale c') ∧
  (rcv_wnd c' = 0 → conn_flag c' TCP_CONN_SENT_RCV_WND0 = true).
Proof.
  unfold tcp_window_to_advertise in Hw. rewrite (proj2 (Z.ltb_ge _ _)) in Hw by (cbn; lia).
  apply bind_Some in Hw as ([] & _ & Hw). apply (inj Some) in Hw. revert Hw.
  set (space := if (_ <? _) && (_ <? _) then 0 else _).
  assert (0 ≤ space ≤ Svm.svm_fifo_max_enqueue (server_rx_fifo c)) as Hspace.
  { pose proof (u32_range (Svm.nitems (server_rx_fifo c) - Svm.cursize (server_rx_fifo c))).
    unfold space, Svm.svm_fifo_max_enqueue in *. unfold_ranges. case_match; lia. }
  set (m := Z.min space _).
  assert (0 < 2 ^ rcv_wscale c ≤ 2 ^ 14) as Hp.
  { split; [apply Z.pow_pos_nonneg; lia|]. apply Z.pow_le_mono_r; unfold TCP_MAX_WND_SCALE in *; lia. }
  assert (0 ≤ m ≤ space ∧ m ≤ TCP_WND_MAX * 2 ^ rcv_wscale c) as [Hm Hmax].
  { unfold m. rewrite Z.shiftl_mul_pow2, u32_small by (unfold_ranges; unfold TCP_WND_MAX; lia).
    unfold TCP_WND_MAX. lia. }
  assert (∀ c0 : tcp_connection, rcv_wnd (flag_on TCP_CONN_SENT_RCV_WND0 c0) = rcv_wnd c0 ∧
    rcv_wscale (flag_on TCP_CONN_SENT_RCV_WND0 c0) = rcv_wscale c0 ∧
    conn_flag (flag_on TCP_CONN_SENT_RCV_WND0 c0) TCP_CONN_SENT_RCV_WND0 = true) as Hon.
  { intros c0. split; [done|]. split; [done|]. by apply conn_flag_on. }
  destruct (Hon (set_rcv_wnd m c)) as (Hw1 & Hs1 & Hf1).
  intros Hw. 
  assert (rcv_wnd c' = m ∧ rcv_wscale c' = rcv_wscale c ∧ w = m / 2 ^ rcv_wscale c ∧
    (m = 0 → conn_flag c' TCP_CONN_SENT_RCV_WND0 = true)) as (Hc1 & Hc2 & -> & Hc3).
  { revert Hw. case_cond; intros [= <- <-]; cbn [rcv_wnd rcv_wscale set_rcv_wnd] in *;
      rewrite ?Z.shiftr_div_pow2 by lia; split_and!; try done; intros; done. }
  rewrite Hc1, Hc2, !Z.shiftl_mul_pow2 by lia.
  pose proof (Z.div_mod m (2 ^ rcv_wscale c) ltac:(lia)).
  pose proof (Z.mod_pos_bound m (2 ^ rcv_wscale c) ltac:(lia)).
  assert (0 ≤ m / 2 ^ rcv_wscale c ≤ TCP_WND_MAX) as Hq.
  { split; [apply Z.div_pos; lia|]. apply Z.div_le_upper_bound; lia. }
  split; [done|]. split; [unfold TCP_WND_MAX in *; by rewrite u16_small by (unfold_ranges; lia)|].
  split; [lia|]. split; [lia|done].
Qed.

(** A connection with a receive FIFO of 4096 bytes. *)
Definition example_conn : tcp_connection :=
  Conn TCP_STATE_ESTABLISHED 0 1000 1000 8000 0 0 1000 500 8000 500
    (Opts 10 400 0 5 4 [] 0) 6 0 0 0 [] (Scoreboard pool_null TCP_INVALID_SACK_HOLE_INDEX 0) 0 0
    1600 8000 0 0 0 0 100 0 0 0 0 0 400 None None (Svm.svm_fifo_create 4096) (Svm.svm_fifo_create 0).

Lemma tcp_window_to_advertise_bounds_witness :
  ∃ c' w, tcp_window_to_advertise example_conn TCP_STATE_ESTABLISHED = Some (c', w) ∧ 0 ≤ w ≤ TCP_WND_MAX.
Proof.
  destruct (tcp_window_to_advertise example_conn TCP_STATE_ESTABLISHED) as [[c' w]|] eqn:E;
    [|vm_compute in E; discriminate].
  exists c', w. split; [done|].
  apply (tcp_window_to_advertise_bounds example_conn c' TCP_STATE_ESTABLISHED w); [cbn; lia|vm_compute; by split|done].
Defined.

(** ** Lengths of the options sent *)

(** What a maker of options must return for the rest to fit together. *)
Definition options_agree (r : tcp_options * Z) : Prop :=
  0 ≤ options_len r.1 ≤ 40 ∧ r.2 = align_len (options_len r.1).

(** The length of the options of a segment without SYN that carries SACK blocks. *)
Lemma options_len_sacks (ts : bool) m w v e bs n :
  0 < zlen bs ≤ 3 →
  options_len (Opts (if ts then 18 else 16) m w v e bs n) = (if ts then 12 else 2) + 8 * zlen bs.
Proof.
  intros Hb. unfold options_len, sacks_len. cbn [sacks].
  rewrite Z.min_l by (unfold TCP_OPTS_MAX_SACK_BLOCKS; lia). rewrite (proj2 (Z.eqb_neq _ _)) by lia.
  rewrite flag_mss, flag_wscale, flag_permitted, flag_tstamp, flag_sack. cbn [opt_flags].
  destruct ts; cbn -[Z.add Z.mul zlen]; lia.
Qed.

Lemma established_agree now c opts :
  zlen (snd_sacks c) ≤ 3 → options_agree (tcp_make_established_options now c opts).
Proof.
  intros Hsacks. pose proof (zlen_nonneg (snd_sacks c)) as Hn.
  unfold tcp_make_established_options, options_agree.
  destruct (zlen (snd_sacks c) =? 0) eqn:E; bool_to_prop.
  - rewrite andb_false_r. by destruct (tcp_opts_tstamp (opt c)).
  - destruct (tcp_opts_tstamp (opt c)), (tcp_opts_sack_permitted (opt c)); cbn [andb negb fst snd]; try done.
    + pose proof (options_len_sacks true (mss opts) (wscale opts) now (tsval_recent c) (snd_sacks c)
        (u8 (zlen (snd_sacks c))) ltac:(lia)) as Ho.
      match goal with |- context [options_len ?o] => change (options_len o) with (options_len
        (Opts 18 (mss opts) (wscale opts) now (tsval_recent c) (snd_sacks c) (u8 (zlen (snd_sacks c))))) end.
      rewrite Ho. split; [lia|]. f_equal. cbn [n_sack_blocks set_sacks]. unfold TCP_OPTION_LEN_TIMESTAMP, TCP_OPTION_LEN_SACK_BLOCK.
      rewrite (u8_small (0 + 10)), (u8_small (zlen _)), u8_small by (unfold_ranges; lia). lia.
    + pose proof (options_len_sacks false (mss opts) (wscale opts) (tsval opts) (tsecr opts) (snd_sacks c)
        (u8 (zlen (snd_sacks c))) ltac:(lia)) as Ho.
      match goal with |- context [options_len ?o] => change (options_len o) with (options_len
        (Opts 16 (mss opts) (wscale opts) (tsval opts) (tsecr opts) (snd_sacks c) (u8 (zlen (snd_sacks c))))) end.
      rewrite Ho. split; [lia|]. f_equal. cbn [n_sack_blocks set_sacks]. unfold TCP_OPTION_LEN_SACK_BLOCK.
      rewrite (u8_small (zlen _)), u8_small by (unfold_ranges; lia). lia.
Qed.

Lemma synack_agree now c : options_agree (tcp_make_synack_options now c zero_options).
Proof.
  unfold tcp_make_synack_options, options_agree.
  by destruct (tcp_opts_wscale (opt c)), (tcp_opts_tstamp (opt c)), (tcp_opts_sack_permitted (opt c)).
Qed.

Lemma pushed_length len seq ack fl wnd :
  0 ≤ len ≤ 40 → len `mod` 4 = 0 →
  opts_length (vlib_buffer_push_tcp seq ack (u8 (len + SIZEOF_TCP_HEADER)) fl wnd) = len.
Proof.
  intros Hlen Hm. unfold opts_length, tcp_doff, vlib_buffer_push_tcp, SIZEOF_TCP_HEADER.
  cbn [data_offset_and_reserved].
  rewrite !Z.shiftl_mul_pow2, !Z.shiftr_div_pow2 by lia. change (2 ^ 2) with 4. change (2 ^ 4) with 16.
  rewrite (u8_small (len + 20)) by (unfold_ranges; lia).
  rewrite (u8_small (_ * 16)) by (unfold_ranges; div_lia).
  rewrite Z.div_mul by lia. rewrite u8_small by (unfold_ranges; div_lia). div_lia.
Qed.

(** In each state that sends options, the length from which the header is built is the
    length the writer produces, a multiple of four of at most 40 bytes, and the data offset of
    the header announces exactly it, provided that at most three SACK blocks are kept. *)
Theorem tcp_make_options_agree (now : Z) (c : tcp_connection) (st : tcp_state) (seq ack fl wnd : Z)
    (Hst : st = TCP_STATE_ESTABLISHED ∨ st = TCP_STATE_FIN_WAIT_1 ∨ st = TCP_STATE_SYN_RCVD ∨
           st = TCP_STATE_SYN_SENT)
    (Hsacks : zlen (snd_sacks c) ≤ 3) :
  let '(opts, len) := tcp_make_options now c zero_options st in
  let th := vlib_buffer_push_tcp seq ack (u8 (len + SIZEOF_TCP_HEADER)) fl wnd in
  0 ≤ len ≤ 40 ∧ len `mod` 4 = 0 ∧ opts_length th = len ∧
  ∃ bytes, tcp_options_write opts = Some (bytes, len) ∧ zlen bytes = len.
Proof.
  assert (options_agree (tcp_make_options now c zero_options st)) as [Hr Hlen].
  { destruct Hst as [->|[->|[->| ->]]]; cbn [tcp_make_options];
      [by apply established_agree..|apply synack_agree|done]. }
  destruct (tcp_make_options now c zero_options st) as [opts len]. cbn [fst snd] in *. cbv zeta.
  destruct (write_ok opts) as [Hw Hm4].
  destruct (write_length _ _ _ Hw) as [_ Hl]. rewrite <-Hlen in Hl.
  assert (0 ≤ len ≤ 40) as Hb.
  { rewrite Hlen. unfold align_len, TCP_OPTS_ALIGN.
    rewrite u8_small by (unfold_ranges; div_lia). div_lia. }
  rewrite <-Hl in *. split; [done|]. split; [done|]. split; [by apply pushed_length|]. eauto.
Qed.

Lemma tcp_make_options_agree_witness :
  zlen (snd_sacks example_conn) ≤ 3 ∧
  let '(opts, len) := tcp_make_options 9 example_conn zero_options TCP_STATE_SYN_RCVD in
  let th := vlib_buffer_push_tcp 1 2 (u8 (len + SIZEOF_TCP_HEADER)) 16 100 in
  0 ≤ len ≤ 40 ∧ len `mod` 4 = 0 ∧ opts_length th = len ∧
  ∃ bytes, tcp_options_write opts = Some (bytes, len) ∧ zlen bytes = len.
Proof.
  split; [done|]. apply (tcp_make_options_agree 9 example_conn TCP_STATE_SYN_RCVD 1 2 16 100); [by auto|done].
Defined.

(** With five blocks kept, as [TCP_MAX_SACK_BLOCKS] allows, and timestamps, the header would
    be 72 bytes long: its data offset wraps to 2, while the writer sends three blocks. *)
Lemma tcp_five_sacks_header now seq ack fl wnd :
  let c := set_snd_sacks (replicate 5 (Sack 1 2)) example_conn in
  let '(opts, len) := tcp_make_established_options now c zero_options in
  len = 52 ∧ tcp_doff (vlib_buffer_push_tcp seq ack (u8 (len + SIZEOF_TCP_HEADER)) fl wnd) = 2 ∧
  ∃ bytes, tcp_options_write opts = Some (bytes, 36).
Proof.
  cbv zeta. change (tcp_make_established_options now _ _) with
    (Opts 18 0 0 now 0 (replicate 5 (Sack 1 2)) 5, 52). split; [done|]. split; [done|].
  destruct (write_ok (Opts 18 0 0 now 0 (replicate 5 (Sack 1 2)) 5)) as [Hw _].
  destruct (write_length _ _ _ Hw) as [_ Hl]. eexists. rewrite Hw. by rewrite Hl.
Qed.
End TcpConn.
