(* ===== verification/TcpAck.v ===== *)
(** * Acknowledgements: acceptance of segments, round-trip estimate, SACK scoreboard,
    congestion control and retransmission (vnet/tcp/tcp_input.c, tcp_newreno.c, tcp_output.c)

    [None] is a failed assertion, a null or dangling pointer, a division by zero, an undefined
    conversion or a loop that does not end. *)

From S2P Require Import Prelude Bitmap Popcount Pool SvmFifo TcpOptions TcpConn.

Module TcpAck.
Import ClibPool TcpOpt TcpConn.

(** The part of a buffer the input functions use: the fields of [vnet_buffer (b)->tcp] and
    the current data. *)
Record vlib_buffer := Buffer {
  seq_number : Z;
  seq_end : Z;
  ack_number : Z;
  payload : list Z;
}.

(** ** Acceptance of a segment *)

Definition tcp_segment_in_rcv_wnd (c : tcp_connection) (seq end_seq : Z) : bool :=
  seq_leq end_seq (u32 (rcv_las c + rcv_wnd c)) && seq_geq seq (rcv_nxt c).

Definition tcp_segment_check_paws (c : tcp_connection) : bool :=
  tcp_opts_tstamp (opt c) && negb (tsval_recent c =? 0) && timestamp_lt (tsval (opt c)) (tsval_recent c).

(** [TCP_PAWS_IDLE] is a [double], so the age is compared in floating point (exactly, at
    these magnitudes) and only then converted; the conversion is undefined out of range. *)
Definition double_to_i32 (d : Z) : option Z :=
  if (- 2 ^ 31 <=? d) && (d <? 2 ^ 31) then Some d else None.

Inductive validated :=
  | V_ACCEPT
  | V_DROP
  | V_ACK (s : out_segment)
  | V_RESET
  | V_SEND_RESET.

Definition tcp_connection_reset (c : tcp_connection) : tcp_connection :=
  if decide (state c = TCP_STATE_CLOSED) then c else set_state TCP_STATE_CLOSED c.

Definition tcp_segment_validate (now : Z) (c : tcp_connection) (b : vlib_buffer) (th : tcp_header)
    (data : list Z) : option (tcp_connection * validated) :=
  if negb (tcp_ack th) && negb (tcp_rst th) && negb (tcp_syn th) then Some (c, V_DROP)
  else
    o ← tcp_options_parse th data (opt c);
    let c := set_opt o c in
    let paws_failed := tcp_segment_check_paws c in
    '(c, drop) ←
      (if paws_failed then
         d ← double_to_i32 (tsval_recent_age c + TCP_PAWS_IDLE - now);
         if d <? 0 then Some (set_tsval_recent 0 c, None)
         else if negb (tcp_rst th) then '(c, s) ← tcp_make_ack now c; Some (c, Some (V_ACK s))
         else Some (c, None)
       else Some (c, None));
    match drop with
    | Some v => Some (c, v)
    | None =>
        if negb (tcp_segment_in_rcv_wnd c (seq_number b) (seq_end b)) then
          if negb (tcp_rst th) then '(c, s) ← tcp_make_ack now c; Some (c, V_ACK s)
          else Some (c, V_DROP)
        else if tcp_rst th then Some (tcp_connection_reset c, V_RESET)
        else if tcp_syn th then Some (c, V_SEND_RESET)
        else
          let c := if negb paws_failed
                   then set_tsval_recent_age now (set_tsval_recent (tsval (opt c)) c) else c in
          Some (c, V_ACCEPT)
    end.

(** ** Round-trip time *)

Definition tcp_estimate_rtt (c : tcp_connection) (mrtt : Z) : tcp_connection :=
  if negb (srtt c =? 0) then
    let err := i32 (mrtt - srtt c) in
    let c := set_srtt (u32 (srtt c + Z.shiftr err 3)) c in
    set_rttvar (u32 (rttvar c + Z.shiftr (u32 (Z.abs err - rttvar c)) 2)) c
  else
    set_rttvar (u32 (Z.shiftl mrtt 1)) (set_srtt mrtt c).

Definition tcp_update_rtt (now : Z) (c : tcp_connection) (ack : Z) : tcp_connection * Z :=
  let '(c, mrtt) :=
    if negb (rtt_seq c =? 0) && seq_gt ack (rtt_seq c) && (rto_boff c =? 0) then
      (set_rtt_seq 0 c, u32 (now - rtt_ts c))
    else if tcp_opts_tstamp (opt c) && negb (tsecr (opt c) =? 0) && negb (bytes_acked c =? 0) then
      (c, u32 (now - tsecr (opt c)))
    else (c, 0) in
  if (mrtt =? 0) || (mrtt >? TCP_RTT_MAX) then (c, 0)
  else
    let c := tcp_estimate_rtt c mrtt in
    (set_rto (Z.min (u32 (srtt c + u32 (Z.shiftl (rttvar c) 2))) TCP_RTO_MAX) c, 1).

Definition tcp_dequeue_acked (now : Z) (c : tcp_connection) (ack : Z) : tcp_connection :=
  let c := set_tx_fifo (Svm.svm_fifo_dequeue_drop (server_tx_fifo c) (bytes_acked c)).1 c in
  let '(c, valid) := tcp_update_rtt now c ack in
  if negb (valid =? 0) then set_rto_boff 0 c else c.

Definition tcp_ack_is_dupack (c : tcp_connection) (b : vlib_buffer) (new_snd_wnd : Z) : bool :=
  (ack_number b =? snd_una c) && seq_gt (snd_una_max c) (snd_una c) &&
  (seq_end b =? seq_number b) && (new_snd_wnd =? snd_wnd c).

(** ** The scoreboard *)

Definition hole_set_next (n : Z) (h : sack_scoreboard_hole) := Hole n (hole_prev h) (hole_start h) (hole_end h).
Definition hole_set_prev (p : Z) (h : sack_scoreboard_hole) := Hole (hole_next h) p (hole_start h) (hole_end h).
Definition hole_set_start (s : Z) (h : sack_scoreboard_hole) := Hole (hole_next h) (hole_prev h) s (hole_end h).
Definition hole_set_end (e : Z) (h : sack_scoreboard_hole) := Hole (hole_next h) (hole_prev h) (hole_start h) e.

Definition sb_with_holes (p : pool sack_scoreboard_hole) (sb : sack_scoreboard) :=
  Scoreboard p (sb_head sb) (sacked_bytes sb).
Definition sb_with_head (h : Z) (sb : sack_scoreboard) := Scoreboard (holes sb) h (sacked_bytes sb).
Definition sb_add_sacked (n : Z) (sb : sack_scoreboard) :=
  Scoreboard (holes sb) (sb_head sb) (u32 (sacked_bytes sb + n)).

Definition hole_get (sb : sack_scoreboard) (i : Z) : option sack_scoreboard_hole :=
  pool_elt_at_index (holes sb) i.
Definition hole_upd (sb : sack_scoreboard) (i : Z) (g : sack_scoreboard_hole → sack_scoreboard_hole)
    : option sack_scoreboard :=
  h ← hole_get sb i; Some (sb_with_holes (pool_set (holes sb) i (g h)) sb).

Definition valid_hole (i : Z) : bool := negb (i =? TCP_INVALID_SACK_HOLE_INDEX).

Definition scoreboard_hole_bytes (h : sack_scoreboard_hole) : Z := u32 (hole_end h - hole_start h).

(** The index of the hole that follows hole [i]. *)
Definition scoreboard_next_hole (sb : sack_scoreboard) (i : Z) : option (option Z) :=
  h ← hole_get sb i; Some (if valid_hole (hole_next h) then Some (hole_next h) else None).

Definition scoreboard_first_hole (sb : sack_scoreboard) : option Z :=
  if valid_hole (sb_head sb) then Some (sb_head sb) else None.

Definition scoreboard_remove_hole (sb : sack_scoreboard) (i : Z) : option sack_scoreboard :=
  h ← hole_get sb i;
  sb ← (if valid_hole (hole_next h) then hole_upd sb (hole_next h) (hole_set_prev (hole_prev h)) else Some sb);
  sb ← (if valid_hole (hole_prev h) then hole_upd sb (hole_prev h) (hole_set_next (hole_next h))
        else Some (sb_with_head (hole_next h) sb));
  Some (sb_with_holes (pool_put_index (holes sb) i) sb).

Definition scoreboard_insert_hole (sb : sack_scoreboard) (prev : option Z) (start e : Z)
    : option sack_scoreboard :=
  let '(p, hole_index) := pool_get (Hole 0 0 0 0) (holes sb) in
  let sb := sb_with_holes (pool_set p hole_index (Hole 0 0 start e)) sb in
  match prev with
  | Some pi =>
      p ← hole_get sb pi;
      sb ← hole_upd sb hole_index (λ h, hole_set_next (hole_next p) (hole_set_prev pi h));
      sb ← (if valid_hole (hole_next p) then hole_upd sb (hole_next p) (hole_set_prev hole_index)
            else Some sb);
      hole_upd sb pi (hole_set_next hole_index)
  | None =>
      hole_upd (sb_with_head hole_index sb) hole_index
        (λ h, hole_set_next TCP_INVALID_SACK_HOLE_INDEX (hole_set_prev TCP_INVALID_SACK_HOLE_INDEX h))
  end.

Fixpoint clear_loop (fuel : nat) (sb : sack_scoreboard) : option sack_scoreboard :=
  match scoreboard_first_hole sb with
  | None => Some sb
  | Some i =>
      match fuel with
      | O => None
      | S fuel => sb ← scoreboard_remove_hole sb i; clear_loop fuel sb
      end
  end.

(** The list of holes is at most as long as the pool. *)
Definition scoreboard_clear (sb : sack_scoreboard) : option sack_scoreboard :=
  clear_loop (Z.to_nat (pool_len (holes sb))) sb.

(** ** SACK processing *)

(** [vec_del1]: the last element takes the place of the one deleted. *)
Definition vec_del1 {A} (l : list A) (i : Z) : list A :=
  let n := Z.to_nat (zlen l - 1) in
  match vget l (zlen l - 1) with
  | Some x => take n (if i <? zlen l - 1 then vset l i x else l)
  | None => l
  end.

Definition sack_block_valid (c : tcp_connection) (ack : Z) (b : sack_block) : bool :=
  seq_lt (blk_start b) (blk_end b) && seq_gt (blk_start b) (snd_una c) &&
  seq_gt (blk_start b) ack && seq_lt (blk_end b) (snd_nxt c).

(** The [vec_foreach] that deletes from the vector it goes over. *)
Fixpoint remove_invalid (fuel : nat) (c : tcp_connection) (ack : Z) (bs : list sack_block) (i : Z)
    : option (list sack_block) :=
  match vget bs i with
  | None => Some bs
  | Some b =>
      match fuel with
      | O => None
      | S fuel =>
          if sack_block_valid c ack b then remove_invalid fuel c ack bs (i + 1)
          else remove_invalid fuel c ack (vec_del1 bs i) (i + 1)
      end
  end.

(** One turn of the inner loop that orders the blocks. *)
Definition sort_step (bs : list sack_block) (ij : Z * Z) : option (list sack_block) :=
  bi ← vget bs ij.1; bj ← vget bs ij.2;
  Some (if seq_lt (blk_start bj) (blk_start bi) then vset (vset bs ij.1 bj) ij.2 bi else bs).

Definition sort_blocks (bs : list sack_block) : option (list sack_block) :=
  mfoldl sort_step bs
    (concat (map (λ i, map (pair i) (zrange i (zlen bs))) (zrange 0 (zlen bs)))).

(** The walk over the holes with the blocks.  A hole is named by its index, which is to say
    that [pool_get] does not move the pool under the pointers the loop holds. *)
Fixpoint sack_walk (fuel : nat) (ack : Z) (bs : list sack_block) (sb : sack_scoreboard)
    (hole : option Z) (blk_index : Z) : option sack_scoreboard :=
  match hole with
  | None => Some sb
  | Some hi =>
      if blk_index <? zlen bs then
        match fuel with
        | O => None
        | S fuel =>
            blk ← vget bs blk_index; h ← hole_get sb hi;
            if seq_leq (blk_start blk) (hole_start h) then
              if seq_geq (blk_end blk) (hole_end h) then
                next_hole ← scoreboard_next_hole sb hi;
                sb ← (if seq_lt (hole_end h) ack then
                        ni ← next_hole; nh ← hole_get sb ni;
                        if seq_lt (hole_start nh) ack
                        then Some (sb_add_sacked (- u32 (hole_start nh - hole_end h)) sb)
                        else Some (sb_add_sacked (- u32 (ack - hole_end h)) sb)
                      else Some (sb_add_sacked (scoreboard_hole_bytes h) sb));
                sb ← scoreboard_remove_hole sb hi;
                sack_walk fuel ack bs sb next_hole blk_index
              else
                sb ← hole_upd (sb_add_sacked (u32 (blk_end blk - hole_start h)) sb) hi
                       (hole_set_start (blk_end blk));
                sack_walk fuel ack bs sb hole (blk_index + 1)
            else if seq_leq (blk_end blk) (hole_end h) then
              sb ← scoreboard_insert_hole (sb_add_sacked (u32 (blk_end blk - blk_start blk)) sb)
                     hole (blk_end blk) (hole_end h);
              sb ← hole_upd sb hi (hole_set_end (u32 (blk_start blk - 1)));
              sack_walk fuel ack bs sb hole (blk_index + 1)
            else
              sb ← hole_upd (sb_add_sacked (u32 (hole_end h - blk_start blk + 1)) sb) hi
                     (hole_set_end (u32 (blk_start blk - 1)));
              next_hole ← scoreboard_next_hole sb hi;
              sack_walk fuel ack bs sb next_hole blk_index
        end
      else Some sb
  end.

(** Every turn takes a block or leaves a hole; a block splits at most one hole. *)
Definition walk_fuel (bs : list sack_block) (sb : sack_scoreboard) : nat :=
  Z.to_nat (pool_len (holes sb) + 2 * zlen bs + 1).

(** [tcp_opts_sack (tc)] expands to a test of the flags of the connection, not of its
    options. *)
Definition tcp_rcv_sacks (c : tcp_connection) (ack : Z) : option tcp_connection :=
  if negb (conn_flag c TCP_OPTS_FLAG_SACK) && negb (valid_hole (sb_head (sack_sb c))) then Some c
  else
    let o := opt c in
    bs ← remove_invalid (length (sacks o)) c ack (sacks o) 0;
    let bs := if seq_gt ack (snd_una c) then bs ++ [Sack (snd_una c) ack] else bs in
    if zlen bs =? 0 then Some (set_opt (set_sacks bs (n_sack_blocks o) o) c)
    else
      bs ← sort_blocks bs;
      let c := set_opt (set_sacks bs (n_sack_blocks o) o) c in
      sb ← (if negb (valid_hole (sb_head (sack_sb c)))
            then scoreboard_insert_hole (sack_sb c) None (snd_una c) (snd_una_max c)
            else Some (sack_sb c));
      sb ← sack_walk (walk_fuel bs sb) ack bs sb (Some (sb_head sb)) 0;
      Some (set_sack_sb sb c).

Definition tcp_update_snd_wnd (c : tcp_connection) (seq ack wnd : Z) : tcp_connection :=
  if (snd_wl1 c <? seq) || ((snd_wl1 c =? seq) && (snd_wl2 c <=? ack))
  then set_snd_wl2 ack (set_snd_wl1 seq (set_snd_wnd wnd c)) else c.

(** ** Congestion control *)

Inductive tcp_cc_ack := TCP_CC_ACK | TCP_CC_DUPACK | TCP_CC_PARTIALACK.

Record tcp_cc_algorithm := CcAlgo {
  cc_rcv_ack : tcp_connection → option tcp_connection;
  cc_rcv_cong_ack : tcp_connection → tcp_cc_ack → tcp_connection;
  cc_congestion : tcp_connection → tcp_connection;
  cc_recovered : tcp_connection → tcp_connection;
  cc_init : tcp_connection → tcp_connection;
}.

Definition newreno_congestion (c : tcp_connection) : tcp_connection :=
  let c := set_prev_ssthresh (ssthresh c) c in
  set_ssthresh (Z.max (tcp_flight_size c / 2) (2 * snd_mss c)) c.

Definition newreno_recovered (c : tcp_connection) : tcp_connection := set_cwnd (ssthresh c) c.

Definition newreno_rcv_ack (c : tcp_connection) : option tcp_connection :=
  if tcp_in_slowstart c then Some (set_cwnd (u32 (cwnd c + Z.min (snd_mss c) (bytes_acked c))) c)
  else if cwnd c =? 0 then None
  else Some (set_cwnd (u32 (cwnd c + Z.max (snd_mss c * snd_mss c / cwnd c) 1)) c).

Definition newreno_rcv_cong_ack (c : tcp_connection) (ack_type : tcp_cc_ack) : tcp_connection :=
  match ack_type with
  | TCP_CC_DUPACK => set_cwnd (u32 (cwnd c + snd_mss c)) c
  | TCP_CC_PARTIALACK =>
      let c := set_cwnd (u32 (cwnd c - bytes_acked c)) c in
      if bytes_acked c >? snd_mss c then set_bytes_acked (u32 (bytes_acked c + snd_mss c)) c else c
  | TCP_CC_ACK => c
  end.

Definition newreno_conn_init (c : tcp_connection) : tcp_connection :=
  let c := set_ssthresh (snd_wnd c) c in set_cwnd (tcp_initial_cwnd c) c.

Definition tcp_newreno : tcp_cc_algorithm :=
  CcAlgo newreno_rcv_ack newreno_rcv_cong_ack newreno_congestion newreno_recovered newreno_conn_init.

(** ** Retransmission *)

Definition tcp_make_state_flags (st : tcp_state) : Z :=
  match st with
  | TCP_STATE_ESTABLISHED => TCP_FLAG_ACK
  | TCP_STATE_SYN_RCVD => Z.lor TCP_FLAG_SYN TCP_FLAG_ACK
  | TCP_STATE_SYN_SENT => TCP_FLAG_SYN
  | TCP_STATE_LAST_ACK | TCP_STATE_FIN_WAIT_1 => TCP_FLAG_FIN
  | _ => 0
  end.

(** The buffer is the bytes at its current data and its [current_length]. *)
Definition tcp_push_hdr_i (now : Z) (c : tcp_connection) (bytes : list Z) (current_length : Z)
    (next_state : tcp_state) : option (tcp_connection * out_segment) :=
  let data_len := current_length in
  let '(snd_opts, l) := tcp_make_options now c zero_options next_state in
  let tcp_opts_len := u8 l in
  let tcp_hdr_opts_len := u8 (tcp_opts_len + SIZEOF_TCP_HEADER) in
  '(c, advertise_wnd) ← tcp_window_to_advertise c next_state;
  let fl := tcp_make_state_flags next_state in
  let th := vlib_buffer_push_tcp (snd_nxt c) (rcv_nxt c) tcp_hdr_opts_len fl (u16 advertise_wnd) in
  '(opts, opts_write_len) ← tcp_options_write snd_opts;
  _ ← Svm.assert (u8 opts_write_len =? tcp_opts_len);
  let c := set_snd_nxt (u32 (snd_nxt c + data_len)) c in
  Some (c, Out th opts (take (Z.to_nat data_len) bytes)).

(** The bytes are copied into the buffer that [tcp_reuse_buffer] has emptied; nothing sets its
    [current_length] afterwards. *)
Definition tcp_prepare_retransmit_segment (now : Z) (c : tcp_connection) (max_bytes : Z)
    : option (tcp_connection * Z * option out_segment) :=
  let current_length := 0 in
  _ ← Svm.assert (state_num TCP_STATE_ESTABLISHED <=? state_num (state c));
  _ ← Svm.assert (negb (max_bytes =? 0));
  what ←
    (if tcp_opts_sack_permitted (opt c) then
       match scoreboard_first_hole (sack_sb c) with
       | None => Some None
       | Some hi =>
           h ← hole_get (sack_sb c) hi;
           let offset := u32 (hole_start h - snd_una c) in
           let hole_size := u32 (hole_end h - hole_start h) in
           _ ← Svm.assert (negb (hole_size =? 0));
           Some (Some (offset, if hole_size <? max_bytes then hole_size else max_bytes))
       end
     else if seq_geq (snd_nxt c) (snd_una_max c) then Some None
     else Some (Some (0, max_bytes)));
  match what with
  | None => Some (c, 0, None)
  | Some (offset, max_bytes) =>
      '(n, bytes) ← Svm.svm_fifo_peek (server_tx_fifo c) offset max_bytes;
      let n_bytes := u32 n in
      _ ← Svm.assert (negb (n_bytes =? 0));
      '(c, s) ← tcp_push_hdr_i now c bytes current_length (state c);
      Some (c, n_bytes, Some s)
  end.

Definition opt_list {A} (x : option A) : list A := match x with Some a => [a] | None => [] end.

Definition tcp_retransmit_first_unacked (now : Z) (c : tcp_connection)
    : option (tcp_connection * list out_segment) :=
  let saved := snd_nxt c in
  let c := set_snd_nxt (snd_una c) c in
  '(c, _, s) ← tcp_prepare_retransmit_segment now c (snd_mss c);
  let c := set_snd_nxt saved c in
  Some (set_rtx_bytes (u32 (rtx_bytes c + snd_mss c)) c, opt_list s).

Fixpoint fast_retransmit_loop (fuel : nat) (now : Z) (c : tcp_connection) (snd_space : Z)
    (out : list out_segment) : option (tcp_connection * list out_segment) :=
  if snd_space =? 0 then Some (set_snd_nxt (snd_una_max c) c, out)
  else
    match fuel with
    | O => None
    | S fuel =>
        let max_bytes := Z.min (snd_mss c) snd_space in
        '(c, n_bytes, s) ← tcp_prepare_retransmit_segment now c max_bytes;
        if n_bytes =? 0 then Some (c, out)
        else fast_retransmit_loop fuel now c (u32 (snd_space - n_bytes)) (out ++ opt_list s)
    end.

Definition tcp_fast_retransmit (now : Z) (c : tcp_connection)
    : option (tcp_connection * list out_segment) :=
  _ ← Svm.assert (tcp_in_fastrecovery c);
  let c := set_snd_nxt (snd_una c) c in
  let snd_space := tcp_available_snd_space c in
  fast_retransmit_loop (Z.to_nat snd_space) now c snd_space [].

(** ** ACK processing *)

Section cc.
Context (algo : tcp_cc_algorithm) (now : Z).

Definition tcp_cc_recover (c : tcp_connection) : tcp_connection :=
  if tcp_in_fastrecovery c then tcp_recovery_off (cc_recovered algo c)
  else if tcp_in_recovery c then
    let c := tcp_recovery_off c in set_cwnd (tcp_loss_wnd c) c
  else c.

Definition tcp_cc_rcv_ack (c : tcp_connection) : option (tcp_connection * list out_segment) :=
  '(c, out) ←
    (if tcp_in_recovery c then
       let partial_ack := seq_lt (snd_una c) (snd_una_max c) in
       if negb partial_ack then Some (tcp_cc_recover (set_rtx_bytes 0 c), [])
       else
         let c := set_rtx_bytes 0 c in
         tcp_retransmit_first_unacked now (cc_rcv_cong_ack algo c TCP_CC_PARTIALACK)
     else c ← cc_rcv_ack algo c; Some (c, []));
  Some (set_tsecr_last_ack (tsecr (opt c)) (set_rcv_dupacks 0 c), out).

Definition tcp_cc_rcv_dupack (c : tcp_connection) (ack : Z)
    : option (tcp_connection * list out_segment) :=
  _ ← Svm.assert (snd_una c =? ack);
  let c := set_rcv_dupacks (u8 (rcv_dupacks c + 1)) c in
  if rcv_dupacks c =? TCP_DUPACK_THRESHOLD then
    if negb (tsecr (opt c) =? tsecr_last_ack c) then Some (set_rcv_dupacks 0 c, [])
    else
      let c := tcp_fastrecovery_on c in
      let c := cc_congestion algo c in
      let c := cc_rcv_cong_ack algo c TCP_CC_DUPACK in
      '(c, out) ← tcp_fast_retransmit now c;
      Some (set_cwnd (u32 (ssthresh c + TCP_DUPACK_THRESHOLD * snd_mss c)) c, out)
  else if rcv_dupacks c >? TCP_DUPACK_THRESHOLD then
    _ ← Svm.assert (tcp_in_fastrecovery c);
    Some (cc_rcv_cong_ack algo c TCP_CC_DUPACK, [])
  else Some (c, []).

Inductive ack_result :=
  | ACK_OK
  | TCP_ERROR_ACK_INVALID (reply : out_segment)
  | TCP_ERROR_ACK_OLD
  | TCP_ERROR_ACK_DUP.

Definition tcp_rcv_ack (c : tcp_connection) (b : vlib_buffer) (th : tcp_header)
    : option (tcp_connection * list out_segment * ack_result) :=
  if seq_gt (ack_number b) (snd_nxt c) then
    '(c, s) ← tcp_make_ack now c; Some (c, [], TCP_ERROR_ACK_INVALID s)
  else if seq_lt (ack_number b) (snd_una c) then Some (c, [], TCP_ERROR_ACK_OLD)
  else
    c ← (if tcp_opts_sack_permitted (opt c) then tcp_rcv_sacks c (ack_number b) else Some c);
    let new_snd_wnd := u32 (Z.shiftl (th_window th) (snd_wscale c)) in
    if tcp_ack_is_dupack c b new_snd_wnd then
      '(c, out) ← tcp_cc_rcv_dupack c (ack_number b); Some (c, out, TCP_ERROR_ACK_DUP)
    else
      let c := set_bytes_acked (u32 (ack_number b - snd_una c)) c in
      let c := set_snd_una (ack_number b) c in
      let c := tcp_dequeue_acked now c (ack_number b) in
      let c := tcp_update_snd_wnd c (seq_number b) (ack_number b) new_snd_wnd in
      '(c, out) ← tcp_cc_rcv_ack c;
      let c := if snd_una c =? snd_una_max c then set_retransmit_timer None c
               else set_retransmit_timer (Some (rto c)) c in
      Some (c, out, ACK_OK).
End cc.


(** ** The retransmit timer *)

(** [rto * TCP_TICK*10] in floating point, truncated: a tenth, for every [rto] up to
    [TCP_RTO_MAX]. *)
Definition tcp_retransmit_timer_set (c : tcp_connection) : tcp_connection :=
  set_retransmit_timer (Some (Z.max (rto c / 10) 1)) c.

Definition tcp_timer_retransmit_handler_i (now : Z) (c : tcp_connection) (is_syn : bool)
    : option (tcp_connection * list out_segment) :=
  let c := set_retransmit_timer None c in
  let c := set_rto_boff (u32 (rto_boff c + 1)) c in
  let c := set_snd_nxt (snd_una c) c in
  if state_num TCP_STATE_ESTABLISHED <=? state_num (state c) then
    let c := flag_off TCP_CONN_FAST_RECOVERY c in
    let c := set_rto (Z.min (u32 (Z.shiftl (rto c) 1)) TCP_RTO_MAX) c in
    let snd_space := tcp_available_snd_space c in
    let max_bytes := Z.min (snd_mss c) snd_space in
    if max_bytes =? 0 then Some (c, [])
    else
      '(c, _, s) ← tcp_prepare_retransmit_segment now c max_bytes;
      let c := set_rtx_bytes (u32 (rtx_bytes c + max_bytes)) c in
      sb ← scoreboard_clear (sack_sb c);
      let c := set_sack_sb sb c in
      if negb is_syn then Some (tcp_retransmit_timer_set c, opt_list s)
      else None
  else
    _ ← Svm.assert (bool_decide (state c = TCP_STATE_SYN_RCVD ∨ state c = TCP_STATE_SYN_SENT));
    let c := if rto_boff c >? 3 then set_rto (Z.min (u32 (Z.shiftl (rto c) 1)) TCP_RTO_MAX) c else c in
    '(c, s) ← tcp_push_hdr_i now c [] 0 (state c);
    let c := set_snd_nxt (u32 (snd_nxt c + 1)) c in
    if negb is_syn then Some (tcp_retransmit_timer_set c, [s])
    else
      _ ← Svm.assert (bool_decide (state c = TCP_STATE_SYN_SENT));
      Some (c, [s]).

(** ** Acceptance *)

(** C33: [tcp_segment_in_rcv_wnd] on 32-bit sequence numbers decides the window on the
    positions of the stream: with the last acknowledged position, the next expected one and
    the ends of the segment within 2^31 of each other, a segment is accepted exactly when it
    starts at or after the next expected byte and ends within the window announced with the
    last acknowledgement, however often the sequence numbers have wrapped. *)
Theorem tcp_segment_in_rcv_wnd_spec (c : tcp_connection) (nxt las first last : Z)
    (Hnxt : rcv_nxt c = u32 nxt) (Hlas : rcv_las c = u32 las)
    (Hend : - 2 ^ 31 ≤ last - (las + rcv_wnd c) < 2 ^ 31) (Hstart : - 2 ^ 31 ≤ first - nxt < 2 ^ 31) :
  tcp_segment_in_rcv_wnd c (u32 first) (u32 last) =
    bool_decide (nxt ≤ first ∧ last ≤ las + rcv_wnd c).
Proof.
  unfold tcp_segment_in_rcv_wnd. rewrite Hnxt, Hlas, u32_add_l, seq_leq_pos, seq_geq_pos by done.
  apply eq_true_iff_eq. rewrite andb_true_iff, bool_decide_eq_true, !Z.leb_le. tauto.
Qed.

Lemma tcp_segment_in_rcv_wnd_spec_witness :
  tcp_segment_in_rcv_wnd example_conn (u32 (600 + 2 ^ 32)) (u32 (700 + 2 ^ 32)) =
    bool_decide (500 + 2 ^ 32 ≤ 600 + 2 ^ 32 ∧ 700 + 2 ^ 32 ≤ 500 + 2 ^ 32 + rcv_wnd example_conn).
Proof.
  apply (tcp_segment_in_rcv_wnd_spec example_conn (500 + 2 ^ 32) (500 + 2 ^ 32) (600 + 2 ^ 32) (700 + 2 ^ 32));
    done.
Defined.


(** ** The round-trip estimate *)

(** What an ACK with a timestamp makes of the estimate, the options and times staying the same. *)
Definition rtt_step (now ack : Z) (c : tcp_connection) : tcp_connection := (tcp_update_rtt now c ack).1.

Record measuring (m e : Z) (c : tcp_connection) : Prop := {
  meas_seq : rtt_seq c = 0;
  meas_opt : tcp_opts_tstamp (opt c) = true;
  meas_ecr : tsecr (opt c) = e;
  meas_acked : bytes_acked c ≠ 0;
}.

Lemma rtt_step_timestamp m e ack c :
  measuring m e c → 0 < e → 0 < m ≤ TCP_RTT_MAX → e + m < 2 ^ 32 →
  let c' := tcp_estimate_rtt c m in
  rtt_step (e + m) ack c = set_rto (Z.min (u32 (srtt c' + u32 (Z.shiftl (rttvar c') 2))) TCP_RTO_MAX) c' ∧
  measuring m e (rtt_step (e + m) ack c).
Proof.
  intros [Hs Ho He Ha] Hepos Hm Hem. unfold rtt_step, tcp_update_rtt. rewrite Hs, Ho, He. cbn [Z.eqb negb andb].
  rewrite (proj2 (Z.eqb_neq e 0)), (proj2 (Z.eqb_neq _ 0) Ha) by lia. cbn [negb andb].
  replace (e + m - e) with m by lia. unfold TCP_RTT_MAX, THZ in Hm.
  rewrite u32_small by (unfold_ranges; lia). rewrite (proj2 (Z.eqb_neq m 0)) by lia.
  destruct (Z.gtb_spec m TCP_RTT_MAX) as [?|_]; [unfold TCP_RTT_MAX, THZ in *; lia|]. cbn [orb fst].
  split; [done|]. by split; unfold tcp_estimate_rtt; case_match.
Qed.

(** The variance when the measurement equals the estimate: the deviation [0 - rttvar] is
    shifted as an unsigned word. *)
Definition steady_var (v : Z) : Z := u32 (v + Z.shiftr (u32 (0 - v)) 2).

Lemma estimate_steady c m :
  0 < m < 2 ^ 31 → srtt c = m →
  srtt (tcp_estimate_rtt c m) = m ∧ rttvar (tcp_estimate_rtt c m) = steady_var (rttvar c).
Proof.
  intros Hm Hs. unfold tcp_estimate_rtt. rewrite Hs, (proj2 (Z.eqb_neq m 0)), Z.sub_diag by lia.
  cbn [negb srtt rttvar set_rttvar set_srtt]. change (i32 0) with 0. change (Z.shiftr 0 3) with 0.
  rewrite Z.add_0_r, u32_small by (unfold_ranges; lia). done.
Qed.

(** The unsigned shift in the variance estimate.  On a path whose round-trip time does
    not vary at all (each ACK measures [m] ticks, up to the 30 seconds accepted), the first
    measurement sets the timeout to nine times [m], and the third one to the maximum of 60
    seconds, where a smoothed estimate would let it shrink towards [m]. *)
Theorem tcp_steady_rtt_reaches_max_rto (m e ack : Z) (c : tcp_connection)
    (Hc : measuring m e c) (Hfirst : srtt c = 0) (He : 0 < e) (Hm : 0 < m ≤ TCP_RTT_MAX) (Hnow : e + m < 2 ^ 32) :
  let step := rtt_step (e + m) ack in
  rto (step c) = Z.min (9 * m) TCP_RTO_MAX ∧
  rto (step (step (step c))) = TCP_RTO_MAX ∧ srtt (step (step (step c))) = m.
Proof.
  cbv zeta. assert (0 < m < 2 ^ 31) as Hm31 by (unfold TCP_RTT_MAX, THZ in *; lia).
  set (step := rtt_step (e + m) ack).
  assert (∀ c1, measuring m e c1 → measuring m e (step c1) ∧
    srtt (step c1) = srtt (tcp_estimate_rtt c1 m) ∧ rttvar (step c1) = rttvar (tcp_estimate_rtt c1 m) ∧
    rto (step c1) = Z.min (u32 (srtt (step c1) + u32 (4 * rttvar (step c1)))) TCP_RTO_MAX) as Hstep.
  { intros c1 Hc1. destruct (rtt_step_timestamp m e ack c1 Hc1 He Hm Hnow) as [Heq Hmeas].
    split; [done|]. unfold step. rewrite Heq. cbn [srtt rttvar rto set_rto].
    split; [done|]. split; [done|]. by rewrite Z.shiftl_mul_pow2, (Z.mul_comm _ (2 ^ 2)) by lia. }
  destruct (Hstep c Hc) as (Hm1 & Hs1 & Hv1 & Hr1).
  assert (srtt (step c) = m ∧ rttvar (step c) = 2 * m) as [Es1 Ev1].
  { rewrite Hs1, Hv1. unfold tcp_estimate_rtt. rewrite Hfirst. cbn [Z.eqb negb srtt rttvar set_rttvar set_srtt].
    split; [done|]. rewrite Z.shiftl_mul_pow2, u32_small by (unfold_ranges; lia). lia. }
  destruct (Hstep _ Hm1) as (Hm2 & Hs2 & Hv2 & _).
  destruct (estimate_steady (step c) m Hm31 Es1) as [E2 E2']. rewrite E2 in Hs2. rewrite E2', Ev1 in Hv2.
  destruct (Hstep _ Hm2) as (_ & Hs3 & Hv3 & Hr3).
  destruct (estimate_steady (step (step c)) m Hm31 Hs2) as [E3 E3']. rewrite E3 in Hs3. rewrite E3', Hv2 in Hv3.
  rewrite Hr1, Hr3, Es1, Ev1, Hs3, Hv3. unfold steady_var, TCP_RTO_MAX, TCP_RTT_MAX, THZ in *.
  rewrite !Z.shiftr_div_pow2 by lia. change (2 ^ 2) with 4. unfold u32.
  change (2 ^ 32) with 4294967296 in *.
  split; [|split; [|done]]; div_lia.
Qed.

Lemma tcp_steady_rtt_reaches_max_rto_witness :
  let c := set_bytes_acked 100 (set_opt (Opts 2 0 0 0 1000 [] 0) example_conn) in
  srtt c = 0 ∧ rto (rtt_step 1007 5 (rtt_step 1007 5 (rtt_step 1007 5 c))) = TCP_RTO_MAX.
Proof.
  cbv zeta. split; [done|].
  apply (tcp_steady_rtt_reaches_max_rto 7 1000 5
    (set_bytes_acked 100 (set_opt (Opts 2 0 0 0 1000 [] 0) example_conn))); [by split|done|lia|vm_compute; by split|lia].
Defined.


(** ** What sending a segment changes

    Building a header touches the receive window, its scale, the flags and [snd_nxt]. *)

Definition out_frame (c c' : tcp_connection) : Prop :=
  c' = set_snd_nxt (snd_nxt c') (set_conn_flags (flags c') (set_rcv_wnd (rcv_wnd c')
         (set_rcv_wscale (rcv_wscale c') c))).

Lemma out_frame_refl c : out_frame c c.
Proof. by destruct c. Qed.

Lemma out_frame_trans c1 c2 c3 : out_frame c1 c2 → out_frame c2 c3 → out_frame c1 c3.
Proof. unfold out_frame. intros H1 H2. rewrite H2. rewrite H1. done. Qed.

(** The fields a frame keeps. *)
Lemma out_frame_fields c c' : out_frame c c' →
  ssthresh c' = ssthresh c ∧ cwnd c' = cwnd c ∧ snd_mss c' = snd_mss c ∧ snd_wnd c' = snd_wnd c ∧
  snd_una c' = snd_una c ∧ snd_una_max c' = snd_una_max c ∧ sack_sb c' = sack_sb c.
Proof. unfold out_frame. intros ->. by repeat split. Qed.

Lemma snd_nxt_frame x c : out_frame c (set_snd_nxt x c).
Proof. by destruct c. Qed.

Lemma window_frame c st c' w : tcp_window_to_advertise c st = Some (c', w) → out_frame c c'.
Proof.
  unfold tcp_window_to_advertise, tcp_initial_window_to_advertise. case_match.
  - intros H'. apply bind_Some in H' as (s & _ & [= <- <-]). by destruct c.
  - intros H'. apply bind_Some in H' as ([] & _ & H'). apply (inj Some) in H'.
    apply (f_equal fst) in H'. cbn [fst] in H'. rewrite <-H'. case_match; by destruct c.
Qed.

Lemma push_hdr_frame now c bytes n st c' s :
  tcp_push_hdr_i now c bytes n st = Some (c', s) → out_frame c c' ∧ out_payload s = take (Z.to_nat n) bytes.
Proof.
  unfold tcp_push_hdr_i. destruct (tcp_make_options now c zero_options st) as [o l].
  intros H. apply bind_Some in H as ([c1 w] & Hw & H). apply bind_Some in H as ([bs k] & _ & H).
  apply bind_Some in H as ([] & _ & H). apply (inj Some) in H. injection H as <- <-.
  split; [|done]. eapply out_frame_trans; [by eapply window_frame|apply snd_nxt_frame].
Qed.

Lemma window_nxt c st c' w : tcp_window_to_advertise c st = Some (c', w) → snd_nxt c' = snd_nxt c.
Proof.
  unfold tcp_window_to_advertise, tcp_initial_window_to_advertise. case_match; intros Hw.
  - apply bind_Some in Hw as (s & _ & [= <- <-]). done.
  - apply bind_Some in Hw as ([] & _ & Hw). apply (inj Some) in Hw. apply (f_equal fst) in Hw.
    cbn [fst] in Hw. rewrite <-Hw. by case_match.
Qed.

Lemma push_hdr_nxt now c bytes n st c' s :
  tcp_push_hdr_i now c bytes n st = Some (c', s) → snd_nxt c' = u32 (snd_nxt c + n).
Proof.
  unfold tcp_push_hdr_i. destruct (tcp_make_options now c zero_options st) as [o l].
  intros H. apply bind_Some in H as ([c1 w] & Hw & H). apply bind_Some in H as ([bs k] & _ & H).
  apply bind_Some in H as ([] & _ & H). apply (inj Some) in H. injection H as <- <-.
  cbn [snd_nxt set_snd_nxt]. by rewrite (window_nxt _ _ _ _ Hw).
Qed.

(** A segment prepared for retransmission has no payload and does not move [snd_nxt]. *)
Lemma prepare_frame now c n c' k s :
  in_u32 (snd_nxt c) → tcp_prepare_retransmit_segment now c n = Some (c', k, s) →
  out_frame c c' ∧ snd_nxt c' = snd_nxt c ∧ Forall (λ x, out_payload x = []) (opt_list s).
Proof.
  intros Hn. unfold tcp_prepare_retransmit_segment. intros H.
  apply bind_Some in H as ([] & _ & H). apply bind_Some in H as ([] & _ & H).
  apply bind_Some in H as (what & _ & H). destruct what as [[off m]|].
  - apply bind_Some in H as ([k' bytes] & _ & H). apply bind_Some in H as ([] & _ & H).
    apply bind_Some in H as ([c1 s1] & Hp & H). apply (inj Some) in H. injection H as <- <- <-.
    destruct (push_hdr_frame _ _ _ _ _ _ _ Hp) as [Hf Hpay].
    split; [done|]. split; [|by repeat constructor].
    by rewrite (push_hdr_nxt _ _ _ _ _ _ _ Hp), Z.add_0_r, u32_small.
  - apply (inj Some) in H. injection H as <- <- <-. split; [apply out_frame_refl|]. by split; [|constructor].
Qed.

Lemma fast_retransmit_frame fuel now : ∀ c space out c' out',
  in_u32 (snd_nxt c) → fast_retransmit_loop fuel now c space out = Some (c', out') → out_frame c c'.
Proof.
  induction fuel as [|fuel IH]; intros c space out c' out' Hn; cbn [fast_retransmit_loop];
    (case_match; [intros [= <- <-]; apply snd_nxt_frame|]); [done|].
  intros Hl. apply bind_Some in Hl as ([[c1 n] s] & Hp & Hl).
  destruct (prepare_frame _ _ _ _ _ _ Hn Hp) as (Hf & Hnxt & _).
  revert Hl. case_match; [by intros [= <- <-]|]. intros Hl.
  eapply out_frame_trans; [exact Hf|]. eapply IH; [|exact Hl]. by rewrite Hnxt.
Qed.

(** The connection that goes into the fast retransmission. *)
Definition recovering (algo : tcp_cc_algorithm) (c : tcp_connection) : tcp_connection :=
  cc_rcv_cong_ack algo (cc_congestion algo (tcp_fastrecovery_on (set_rcv_dupacks 3 c))) TCP_CC_DUPACK.

Lemma dupack_third_eq algo now c ack :
  rcv_dupacks c = 2 → tsecr (opt c) = tsecr_last_ack c →
  tcp_cc_rcv_dupack algo now c ack =
    (_ ← Svm.assert (snd_una c =? ack);
     '(c', out) ← tcp_fast_retransmit now (recovering algo c);
     Some (set_cwnd (u32 (ssthresh c' + TCP_DUPACK_THRESHOLD * snd_mss c')) c', out)).
Proof.
  intros Hdup Hecr. unfold tcp_cc_rcv_dupack, recovering.
  assert (u8 (rcv_dupacks c + 1) = 3) as -> by (by rewrite Hdup).
  set (c3 := set_rcv_dupacks 3 c).
  assert (rcv_dupacks c3 = 3) as -> by done.
  assert (tsecr (opt c3) = tsecr_last_ack c3) as -> by done.
  by rewrite (Z.eqb_refl (tsecr_last_ack c3)).
Qed.

Lemma recovering_fields c :
  ssthresh (recovering tcp_newreno c) = Z.max (tcp_flight_size c / 2) (2 * snd_mss c) ∧
  snd_mss (recovering tcp_newreno c) = snd_mss c ∧ snd_wnd (recovering tcp_newreno c) = snd_wnd c ∧
  snd_una (recovering tcp_newreno c) = snd_una c.
Proof. by repeat split. Qed.

Lemma fast_retransmit_fields now c c' out :
  in_u32 (snd_una c) → tcp_fast_retransmit now c = Some (c', out) →
  ssthresh c' = ssthresh c ∧ snd_mss c' = snd_mss c ∧ snd_wnd c' = snd_wnd c.
Proof.
  unfold tcp_fast_retransmit. intros Hu Hf. apply bind_Some in Hf as ([] & _ & Hf).
  apply fast_retransmit_frame in Hf; [|done].
  apply out_frame_fields in Hf as (-> & _ & -> & -> & _). done.
Qed.

Lemma third_dupack now c ack c1 out :
  rcv_dupacks c = 2 → tsecr (opt c) = tsecr_last_ack c → in_u32 (snd_una c) →
  tcp_cc_rcv_dupack tcp_newreno now c ack = Some (c1, out) →
  ∃ c0, c1 = set_cwnd (u32 (ssthresh c0 + TCP_DUPACK_THRESHOLD * snd_mss c0)) c0 ∧
    ssthresh c0 = Z.max (tcp_flight_size c / 2) (2 * snd_mss c) ∧ snd_mss c0 = snd_mss c ∧
    snd_wnd c0 = snd_wnd c.
Proof.
  intros Hdup Hecr Hu H3. rewrite (dupack_third_eq _ _ _ _ Hdup Hecr) in H3.
  apply bind_Some in H3 as ([] & _ & H3).
  apply bind_Some in H3 as ([c0 o] & Hf & H3). apply (inj Some) in H3. injection H3 as <- _.
  destruct (recovering_fields c) as (E1 & E2 & E3 & E4).
  apply fast_retransmit_fields in Hf as (F1 & F2 & F3); [|by rewrite E4].
  exists c0. rewrite F1, F2, F3, E1, E2, E3. done.
Qed.

(** The partial acknowledgement of NewReno.  The third duplicate ACK sets the congestion
    window to half the flight (or two segments) plus three segments.  A partial ACK of more
    bytes than that, which half the flight allows as soon as more is outstanding, wraps the
    subtraction of the acknowledged bytes: the window becomes more than 2^31 bytes, and what may be
    sent is limited by the peer's window only; the segment NewReno adds back goes to
    [bytes_acked]. *)
Theorem tcp_partial_ack_wraps_cwnd (now ack a : Z) (c c1 : tcp_connection) (out : list out_segment)
    (Hdup : rcv_dupacks c = 2) (Hecr : tsecr (opt c) = tsecr_last_ack c)
    (Hmss : in_u16 (snd_mss c)) (Huna : in_u32 (snd_una c)) (Hwnd : snd_wnd c < 2 ^ 31)
    (Hflight : tcp_flight_size c < 2 ^ 30)
    (H3 : tcp_cc_rcv_dupack tcp_newreno now c ack = Some (c1, out))
    (Ha : cwnd c1 < a < 2 ^ 31) :
  cwnd c1 = Z.max (tcp_flight_size c / 2) (2 * snd_mss c) + 3 * snd_mss c ∧
  let c2 := cc_rcv_cong_ack tcp_newreno (set_bytes_acked a c1) TCP_CC_PARTIALACK in
  cwnd c2 = 2 ^ 32 - (a - cwnd c1) ∧ 2 ^ 31 < cwnd c2 ∧ tcp_available_wnd c2 = snd_wnd c ∧
  bytes_acked c2 = a + snd_mss c.
Proof.
  destruct (third_dupack _ _ _ _ _ Hdup Hecr Huna H3) as (c0 & -> & Ess & Emss & Ewnd). clear H3.
  pose proof (u32_range (snd_una_max c - snd_una c - sacked_bytes (sack_sb c) + rtx_bytes c)) as Hr.
  fold (tcp_flight_size c) in Hr. unfold_ranges.
  assert (0 ≤ tcp_flight_size c / 2 ≤ tcp_flight_size c) as Hhalf by div_lia.
  unfold TCP_DUPACK_THRESHOLD in *. cbn [cwnd set_cwnd] in *. rewrite Ess, Emss in *.
  rewrite u32_small in * by (unfold_ranges; lia).
  split; [done|]. cbv zeta. unfold tcp_newreno, newreno_rcv_cong_ack. cbn [cc_rcv_cong_ack].
  set (w := Z.max (tcp_flight_size c / 2) (2 * snd_mss c) + 3 * snd_mss c) in *.
  assert (u32 (w - a) = 2 ^ 32 - (a - w)) as Hwrap.
  { unfold u32. replace (w - a) with ((2 ^ 32 - (a - w)) + -1 * 2 ^ 32) by lia.
    rewrite Z.mod_add by lia. apply Z.mod_small. unfold w. lia. }
  cbn [bytes_acked snd_mss cwnd set_cwnd set_bytes_acked]. rewrite Emss.
  destruct (Z.gtb_spec a (snd_mss c)) as [_|?]; [|unfold w in *; lia].
  unfold tcp_available_wnd. cbn [bytes_acked snd_mss cwnd snd_wnd set_cwnd set_bytes_acked].
  rewrite Hwrap, Ewnd, u32_small by (unfold_ranges; lia).
  split; [done|]. split; [unfold w; lia|]. split; [|done]. unfold w in *. lia.
Qed.

(** A connection with 4000 bytes in flight out of 4000 sent, about to receive its third
    duplicate ACK. *)
Definition example_sender : tcp_connection :=
  Conn TCP_STATE_ESTABLISHED 0 1000 5000 8000 0 0 5000 500 8000 500
    (Opts 0 400 0 0 0 [] 0) 6 0 0 0 [] (Scoreboard pool_null TCP_INVALID_SACK_HOLE_INDEX 0) 2 0
    4000 8000 0 0 0 0 100 0 0 0 0 0 400 None (Some 10) (Svm.svm_fifo_create 512)
    (Svm.Fifo 4000 4096 0 4000 pool_null Svm.OOO_SEGMENT_INVALID_INDEX 0 (replicate 4096 7)).

Lemma tcp_partial_ack_wraps_cwnd_witness :
  ∃ c1 out, tcp_cc_rcv_dupack tcp_newreno 9 example_sender 1000 = Some (c1, out) ∧ cwnd c1 = 3200 ∧
    2 ^ 31 < cwnd (cc_rcv_cong_ack tcp_newreno (set_bytes_acked 3900 c1) TCP_CC_PARTIALACK).
Proof.
  assert (∃ c1 out, tcp_cc_rcv_dupack tcp_newreno 9 example_sender 1000 = Some (c1, out) ∧ cwnd c1 = 3200)
    as (c1 & out & Hd & Hw) by (eexists _, _; split; vm_compute; reflexivity).
  exists c1, out. split; [done|]. split; [done|].
  apply (tcp_partial_ack_wraps_cwnd 9 1000 3900 example_sender c1 out);
    [done|done|by split|by split|done|done|done|lia].
Defined.

(** ** An ACK of new data *)

(** The fields the estimate of the round-trip time and the send window leave alone. *)
Definition ack_frame (c c' : tcp_connection) : Prop :=
  snd_una c' = snd_una c ∧ snd_una_max c' = snd_una_max c ∧ cwnd c' = cwnd c ∧ ssthresh c' = ssthresh c ∧
  flags c' = flags c ∧ snd_mss c' = snd_mss c ∧ bytes_acked c' = bytes_acked c ∧
  server_tx_fifo c' = server_tx_fifo c.

Lemma ack_frame_trans c1 c2 c3 : ack_frame c1 c2 → ack_frame c2 c3 → ack_frame c1 c3.
Proof. unfold ack_frame. intuition congruence. Qed.

Lemma update_rtt_frame now c ack : ack_frame c (tcp_update_rtt now c ack).1.
Proof.
  assert (∀ m c0, ack_frame c0 (tcp_estimate_rtt c0 m)) as He.
  { intros m c0. unfold tcp_estimate_rtt. by case_match; repeat split. }
  assert (∀ r c0, ack_frame c0 (set_rto r c0)) as Hr by (by repeat split).
  unfold tcp_update_rtt.
  assert (∀ c0 m, ack_frame c c0 → ack_frame c
    (if (m =? 0) || (m >? TCP_RTT_MAX) then (c0, 0)
     else let c1 := tcp_estimate_rtt c0 m in
       (set_rto (Z.min (u32 (srtt c1 + u32 (Z.shiftl (rttvar c1) 2))) TCP_RTO_MAX) c1, 1)).1) as Hk.
  { intros c0 m H0. case_match; [done|]. cbn [fst]. eapply ack_frame_trans; [exact H0|].
    eapply ack_frame_trans; [apply He|apply Hr]. }
  destruct (negb (rtt_seq c =? 0) && _ && _); [apply Hk; by repeat split|].
  destruct (tcp_opts_tstamp (opt c) && _ && _); apply Hk; by repeat split.
Qed.

Lemma dequeue_acked_frame now c ack :
  ack_frame (set_tx_fifo (Svm.svm_fifo_dequeue_drop (server_tx_fifo c) (bytes_acked c)).1 c)
    (tcp_dequeue_acked now c ack).
Proof.
  unfold tcp_dequeue_acked. set (c1 := set_tx_fifo _ c).
  pose proof (update_rtt_frame now c1 ack) as Hf. clearbody c1.
  destruct (tcp_update_rtt now c1 ack) as [c2 v]. cbn [fst] in Hf.
  case_match; [|done]. eapply ack_frame_trans; [exact Hf|]. by repeat split.
Qed.

Lemma update_snd_wnd_frame c seq ack w : ack_frame c (tcp_update_snd_wnd c seq ack w).
Proof. unfold tcp_update_snd_wnd. case_match; by repeat split. Qed.

Lemma newreno_rcv_ack_ok c :
  0 < snd_mss c ≤ cwnd c → 0 ≤ bytes_acked c → cwnd c + snd_mss c < 2 ^ 32 →
  ∃ w, newreno_rcv_ack c = Some (set_cwnd w c) ∧ cwnd c ≤ w ≤ cwnd c + snd_mss c.
Proof.
  intros Hm Hb Hs. unfold newreno_rcv_ack. case_match.
  - eexists. split; [done|]. rewrite u32_small by (unfold_ranges; lia). lia.
  - rewrite (proj2 (Z.eqb_neq _ _)) by lia. eexists. split; [done|].
    assert (0 ≤ snd_mss c * snd_mss c / cwnd c ≤ snd_mss c) as Hq.
    { split; [apply Z.div_pos; nia|]. apply Z.div_le_upper_bound; nia. }
    rewrite u32_small by (unfold_ranges; lia). lia.
Qed.

(** An ACK of new data on a connection that is not in recovery, without SACK: it is
    accepted and answered by nothing; the acknowledged bytes are counted and dropped from the transmit
    FIFO, the left edge moves to the ACK, the congestion window grows, by at most a segment, the
    count of duplicate ACKs restarts, and the retransmit timer runs on exactly when
    something is still outstanding. *)
Theorem tcp_rcv_ack_advances (now una ack nxt sent : Z) (c : tcp_connection) (b : vlib_buffer) (th : tcp_header)
    (Hu : snd_una c = u32 una) (Hn : snd_nxt c = u32 nxt) (Hs : snd_una_max c = u32 sent)
    (Hack : ack_number b = u32 ack) (Horder : una < ack ≤ nxt ∧ ack ≤ sent)
    (Hrange : nxt - una < 2 ^ 31 ∧ sent - una < 2 ^ 31)
    (Hrec : tcp_in_recovery c = false) (Hperm : tcp_opts_sack_permitted (opt c) = false)
    (Hmss : 0 < snd_mss c ≤ cwnd c) (Hcwnd : cwnd c + snd_mss c < 2 ^ 32) :
  ∃ c', tcp_rcv_ack tcp_newreno now c b th = Some (c', [], ACK_OK) ∧
    snd_una c' = u32 ack ∧ bytes_acked c' = ack - una ∧
    server_tx_fifo c' = (Svm.svm_fifo_dequeue_drop (server_tx_fifo c) (ack - una)).1 ∧
    cwnd c ≤ cwnd c' ≤ cwnd c + snd_mss c ∧ rcv_dupacks c' = 0 ∧
    (retransmit_timer c' = None ↔ ack = sent).
Proof.
  unfold tcp_rcv_ack. rewrite Hack, Hn, Hu, seq_gt_pos, seq_lt_pos by lia.
  rewrite (proj2 (Z.ltb_ge nxt ack)), (proj2 (Z.ltb_ge ack una)), Hperm by lia. cbn [mbind option_bind].
  assert (∀ w, tcp_ack_is_dupack c b w = false) as ->.
  { intros w. unfold tcp_ack_is_dupack. rewrite Hack, Hu.
    assert ((u32 ack =? u32 una) = false) as ->; [|done].
    apply Z.eqb_neq. intros Heq. pose proof (i32_diff ack una ltac:(lia)) as Hd.
    rewrite Heq, Z.sub_diag in Hd. change (i32 0) with 0 in Hd. lia. }
  rewrite Hu. assert (u32 (u32 ack - u32 una) = ack - una) as ->.
  { rewrite u32_sub_l, u32_sub_r. apply u32_small. unfold_ranges. lia. }
  set (c1 := set_snd_una (u32 ack) (set_bytes_acked (ack - una) c)).
  assert (snd_una c1 = u32 ack ∧ bytes_acked c1 = ack - una ∧ snd_una_max c1 = u32 sent ∧ cwnd c1 = cwnd c ∧
    flags c1 = flags c ∧ snd_mss c1 = snd_mss c ∧ server_tx_fifo c1 = server_tx_fifo c)
    as (A1 & A2 & A3 & A4 & A5 & A6 & A7) by (by split_and!).
  clearbody c1.
  pose proof (dequeue_acked_frame now c1 (u32 ack)) as Hf1. set (c2 := tcp_dequeue_acked _ _ _) in *. clearbody c2.
  set (wnd := u32 (Z.shiftl _ _)). clearbody wnd.
  pose proof (update_snd_wnd_frame c2 (seq_number b) (u32 ack) wnd) as Hf2.
  set (c3 := tcp_update_snd_wnd _ _ _ _) in *. clearbody c3.
  destruct (ack_frame_trans _ _ _ Hf1 Hf2) as (B1 & B2 & B3 & _ & B5 & B6 & B7 & B8). clear Hf1 Hf2.
  cbn [snd_una snd_una_max cwnd flags snd_mss bytes_acked server_tx_fifo set_tx_fifo] in B1, B2, B3, B5, B6, B7, B8.
  unfold tcp_cc_rcv_ack.
  assert (tcp_in_recovery c3 = false) as ->.
  { unfold tcp_in_recovery, conn_flag in *. rewrite B5, A5. exact Hrec. }
  change (cc_rcv_ack tcp_newreno c3) with (newreno_rcv_ack c3).
  destruct (newreno_rcv_ack_ok c3) as (w & -> & Hw); [rewrite B6, A6, B3, A4; lia|rewrite B7, A2; lia|rewrite B3, A4, B6, A6; lia|].
  cbn [mbind option_bind]. rewrite B3, A4, B6, A6 in Hw. rewrite A2, A7 in B8. rewrite A1 in B1. rewrite A3 in B2.
  rewrite A2 in B7.
  set (c4 := set_tsecr_last_ack _ _).
  assert (snd_una c4 = u32 ack ∧ snd_una_max c4 = u32 sent ∧ bytes_acked c4 = ack - una ∧ cwnd c4 = w ∧
    rcv_dupacks c4 = 0 ∧ server_tx_fifo c4 = server_tx_fifo c3) as (C1 & C2 & C3 & C4 & C5 & C6) by (by split_and!).
  clearbody c4. rewrite C1, C2.
  assert ((u32 ack =? u32 sent) = bool_decide (ack = sent)) as ->.
  { apply eq_true_iff_eq. rewrite Z.eqb_eq, bool_decide_eq_true. split; [|by intros ->].
    intros Heq. pose proof (i32_diff ack sent ltac:(lia)) as Hd.
    rewrite Heq, Z.sub_diag in Hd. change (i32 0) with 0 in Hd. lia. }
  rewrite <-B8, <-C6, <-C5.
  case_bool_decide; eexists; (split; [reflexivity|]);
    cbn [snd_una bytes_acked server_tx_fifo cwnd rcv_dupacks retransmit_timer set_retransmit_timer];
    rewrite C1, C3, C4; split_and!; done || lia.
Qed.

Lemma tcp_rcv_ack_advances_witness :
  ∃ c', tcp_rcv_ack tcp_newreno 9 example_sender (Buffer 500 500 3000 []) (Hdr 500 3000 80 16 8000) =
      Some (c', [], ACK_OK) ∧ snd_una c' = 3000 ∧ bytes_acked c' = 2000.
Proof.
  destruct (tcp_rcv_ack_advances 9 1000 3000 5000 5000 example_sender (Buffer 500 500 3000 []) (Hdr 500 3000 80 16 8000))
    as (c' & H1 & H2 & H3 & _); [done|done|done|done|lia|lia|done|done|vm_compute; by split|vm_compute; done|].
  exists c'. by split_and!.
Defined.

(** ** After a retransmission timeout *)

Lemma handler_established now c c' segs :
  4 ≤ state_num (state c) → in_u32 (snd_una c) →
  tcp_timer_retransmit_handler_i now c false = Some (c', segs) →
  snd_nxt c' = snd_una c ∧ snd_una c' = snd_una c ∧ snd_una_max c' = snd_una_max c ∧
  Forall (λ s, out_payload s = []) segs.
Proof.
  intros Hst Hu. unfold tcp_timer_retransmit_handler_i.
  set (c1 := set_snd_nxt _ _). set (c2 := flag_off _ c1). set (c3 := set_rto _ c2).
  assert (snd_nxt c3 = snd_una c ∧ snd_una c3 = snd_una c ∧ snd_una_max c3 = snd_una_max c)
    as (En & Eu & Em) by done.
  assert (state_num (state c1) = state_num (state c)) as -> by done.
  rewrite (proj2 (Z.leb_le _ _)) by (cbn; lia). clearbody c3. clear c1 c2.
  case_match; [intros [= <- <-]; by split_and!|].
  intros Hh. apply bind_Some in Hh as ([[c4 n] s] & Hp & Hh). apply bind_Some in Hh as (sb & _ & Hh).
  apply (inj Some) in Hh. injection Hh as <- <-.
  apply prepare_frame in Hp as (Hf & Hn & Hs); [|by rewrite En].
  apply out_frame_fields in Hf as (_ & _ & _ & _ & Fu & Fm & _).
  assert (∀ x, snd_nxt (tcp_retransmit_timer_set (set_sack_sb sb (set_rtx_bytes x c4))) = snd_nxt c4 ∧
    snd_una (tcp_retransmit_timer_set (set_sack_sb sb (set_rtx_bytes x c4))) = snd_una c4 ∧
    snd_una_max (tcp_retransmit_timer_set (set_sack_sb sb (set_rtx_bytes x c4))) = snd_una_max c4) as Hk by done.
  destruct (Hk (u32 (rtx_bytes c4 + Z.min (snd_mss c3) (tcp_available_snd_space c3)))) as (-> & -> & ->).
  rewrite Hn, Fu, Fm, En, Eu, Em. by split_and!.
Qed.

(** After a retransmission timeout an established connection forgets what it has sent.
    The handler goes back to the first unacknowledged byte, sends a segment without payload (the
    buffer keeps the length zero it was emptied with), and so never advances [snd_nxt]; from then on
    every ACK of outstanding data, up to the newest byte ever sent, is refused as an ACK of data
    not yet sent, answered, and leaves the send variables as they are. *)
Theorem tcp_timeout_refuses_acks (now now' una sent ack : Z) (algo : tcp_cc_algorithm)
    (c c' : tcp_connection) (segs : list out_segment) (b : vlib_buffer) (th : tcp_header)
    (Hst : 4 ≤ state_num (state c)) (Huna : snd_una c = u32 una) (Hmax : snd_una_max c = u32 sent)
    (Hto : tcp_timer_retransmit_handler_i now c false = Some (c', segs))
    (Hack : ack_number b = u32 ack) (Hrange : una < ack ≤ sent) (Hflight : sent - una < 2 ^ 31) :
  Forall (λ s, out_payload s = []) segs ∧ snd_una_max c' = u32 sent ∧
  ∀ r, tcp_rcv_ack algo now' c' b th = Some r →
    ∃ c'' s, r = (c'', [], TCP_ERROR_ACK_INVALID s) ∧ snd_una c'' = snd_una c ∧ snd_nxt c'' = snd_una c.
Proof.
  assert (in_u32 (snd_una c)) as Hu by (rewrite Huna; apply u32_range).
  destruct (handler_established _ _ _ _ Hst Hu Hto) as (En & Eu & Em & Hp).
  split; [done|]. split; [congruence|]. intros r. unfold tcp_rcv_ack.
  rewrite Hack, En, Huna, seq_gt_pos by lia. rewrite (proj2 (Z.ltb_lt una ack)) by lia.
  unfold tcp_make_ack, tcp_make_ack_i. intros H.
  apply bind_Some in H as ([c'' s] & Hm & H). apply (inj Some) in H. subst r.
  apply bind_Some in Hm as ([c2 w] & Hw & Hm).
  destruct (tcp_make_established_options now' c2 zero_options) as [o l].
  apply bind_Some in Hm as ([bytes k] & _ & Hm). apply (inj Some) in Hm. injection Hm as -> <-.
  eexists _, _. split; [done|].
  pose proof (window_frame _ _ _ _ Hw) as Hf. apply out_frame_fields in Hf as (_ & _ & _ & _ & Fu & _).
  rewrite Fu, <-Huna. split; [done|]. rewrite <-En. by apply (window_nxt _ _ _ _ Hw).
Qed.

(** The sender of [example_sender] with a congestion window that lets it retransmit. *)
Definition stalled_sender : tcp_connection := set_cwnd 8000 example_sender.

Lemma tcp_timeout_refuses_acks_witness :
  ∃ c' segs, tcp_timer_retransmit_handler_i 10 stalled_sender false = Some (c', segs) ∧ length segs = 1%nat ∧
    ∀ r, tcp_rcv_ack tcp_newreno 11 c' (Buffer 500 500 3000 []) (Hdr 500 3000 80 16 8000) = Some r →
    ∃ c'' s, r = (c'', [], TCP_ERROR_ACK_INVALID s).
Proof.
  assert (∃ c' segs, tcp_timer_retransmit_handler_i 10 stalled_sender false = Some (c', segs) ∧ length segs = 1%nat)
    as (c' & segs & Ht & Hl) by (eexists _, _; split; vm_compute; reflexivity).
  exists c', segs. split; [exact Ht|]. split; [exact Hl|]. intros r Hr.
  destruct (tcp_timeout_refuses_acks 10 11 1000 5000 3000 tcp_newreno stalled_sender c' segs
    (Buffer 500 500 3000 []) (Hdr 500 3000 80 16 8000)) as (_ & _ & Hall);
    [vm_compute; discriminate|vm_compute; reflexivity|vm_compute; reflexivity|exact Ht|reflexivity|lia|lia|].
  destruct (Hall r Hr) as (c'' & s & Heq & _). exists c'', s. exact Heq.
Defined.

(** ** The scoreboard *)

(** SACK blocks are looked at only when a hole is already there or the connection has once
    advertised a zero window: the test meant for the options is made on the connection. *)
Lemma tcp_rcv_sacks_ignored c ack :
  conn_flag c TCP_CONN_SENT_RCV_WND0 = false → sb_head (sack_sb c) = TCP_INVALID_SACK_HOLE_INDEX →
  tcp_rcv_sacks c ack = Some c.
Proof. intros Hf Hh. unfold tcp_rcv_sacks, valid_hole. change TCP_OPTS_FLAG_SACK with TCP_CONN_SENT_RCV_WND0. by rewrite Hf, Hh. Qed.

(** An acknowledgement beyond the last hole.  When the scoreboard holds one hole and an
    ACK covers it and more (as it does when everything sent since the hole was made is acknowledged),
    the byte accounting of [tcp_rcv_sacks] reads the hole that follows it through a null
    pointer. *)
Theorem tcp_rcv_sacks_last_hole_faults (c : tcp_connection) (hi prev una first last ack : Z)
    (Hhead : sb_head (sack_sb c) = hi) (Hhi : hi ≠ TCP_INVALID_SACK_HOLE_INDEX)
    (Hhole : hole_get (sack_sb c) hi = Some (Hole TCP_INVALID_SACK_HOLE_INDEX prev (u32 first) (u32 last)))
    (Hsacks : sacks (opt c) = []) (Huna : snd_una c = u32 una)
    (Horder : una ≤ first ≤ last ∧ last < ack) (Hrange : ack - una < 2 ^ 31) :
  tcp_rcv_sacks c (u32 ack) = None.
Proof.
  unfold tcp_rcv_sacks. assert (valid_hole hi = true) as Hv by (by apply negb_true_iff, Z.eqb_neq).
  rewrite Hhead, Hv, andb_false_r, Hsacks. cbn [remove_invalid length mbind option_bind].
  change (vget [] 0) with (@None sack_block). cbn [mbind option_bind].
  rewrite Huna, seq_gt_pos, (proj2 (Z.ltb_lt una ack)) by lia. cbn [app].
  change (zlen [Sack (u32 una) (u32 ack)] =? 0) with false. cbn iota.
  assert (sort_blocks [Sack (u32 una) (u32 ack)] = Some [Sack (u32 una) (u32 ack)]) as ->.
  { unfold sort_blocks. change (concat _) with [(0, 0)]. cbn [mfoldl]. unfold sort_step.
    cbn [fst snd]. change (vget [Sack (u32 una) (u32 ack)] 0) with (Some (Sack (u32 una) (u32 ack))).
    cbn [mbind option_bind blk_start]. by rewrite seq_lt_pos, Z.ltb_irrefl by lia. }
  cbn [mbind option_bind]. cbn [sack_sb set_opt]. rewrite Hhead, Hv. cbn [negb].
  cbn [mbind option_bind]. rewrite Hhead.
  assert (∃ n, walk_fuel [Sack (u32 una) (u32 ack)] (sack_sb c) = S n) as [n ->].
  { unfold walk_fuel. pose proof (zlen_nonneg (elts (holes (sack_sb c)))). unfold pool_len.
    rewrite zlen_cons, zlen_nil. exists (Z.to_nat (zlen (elts (holes (sack_sb c))) + 2)). lia. }
  cbn [sack_walk]. change (0 <? zlen [Sack (u32 una) (u32 ack)]) with true. cbn iota.
  change (vget [Sack (u32 una) (u32 ack)] 0) with (Some (Sack (u32 una) (u32 ack))). cbn [mbind option_bind].
  rewrite Hhole. cbn [mbind option_bind blk_start blk_end hole_start hole_end].
  rewrite seq_leq_pos, seq_geq_pos, (proj2 (Z.leb_le _ _)), (proj2 (Z.leb_le _ _)) by lia.
  unfold scoreboard_next_hole. rewrite Hhole. cbn [mbind option_bind hole_next].
  change (valid_hole TCP_INVALID_SACK_HOLE_INDEX) with false. cbn iota. cbn [mbind option_bind].
  by rewrite seq_lt_pos, (proj2 (Z.ltb_lt _ _)) by lia.
Qed.

(** A sender whose peer permitted SACK, that once advertised a zero window. *)
Definition example_sack_sender (bs : list sack_block) : tcp_connection :=
  set_conn_flags TCP_CONN_SENT_RCV_WND0 (set_opt (Opts 24 400 0 0 0 bs (zlen bs)) example_sender).

Definition one_hole (first last : Z) : option sack_scoreboard :=
  scoreboard_insert_hole (sack_sb example_sender) None first last.

Lemma tcp_rcv_sacks_last_hole_faults_witness :
  ∃ sb, one_hole 1000 5000 = Some sb ∧ tcp_rcv_sacks (set_sack_sb sb (example_sack_sender [])) 6000 = None.
Proof.
  eexists. split; [vm_compute; reflexivity|].
  by apply (tcp_rcv_sacks_last_hole_faults _ 0 TCP_INVALID_SACK_HOLE_INDEX 1000 1000 5000 6000).
Defined.

(** A run that gets there: one block is reported, new data is sent, all of it is
    acknowledged. *)
Lemma tcp_sack_then_full_ack_faults :
  (c ← tcp_rcv_sacks (example_sack_sender [Sack 2000 3000]) 1000;
   Some (tcp_rcv_sacks (set_snd_nxt 6000 (set_opt (set_sacks [] 0 (opt c)) c)) 6000)) = Some None.
Proof. vm_compute. reflexivity. Qed.

End TcpAck.
