(* ===== verification/TcpRcv.v ===== *)
(** * The receive path of TCP (vnet/tcp/tcp_input.c, stream_session_enqueue_data of
    vnet/session/session.c)

    Data is put into the receive FIFO of the session, in order or ahead of the next byte
    expected; the list of SACK blocks to send is kept, and each segment is answered now, later
    or not at all.  The last part composes the path with the FIFO: whatever the order in which
    segments arrive, the application reads the stream that was sent. *)

From S2P Require Import Prelude Bitmap Popcount Pool SvmFifo SvmFifoSpec SvmFifoStream.
From S2P Require Import TcpOptions TcpConn TcpAck.

Module TcpRcv.
Import ClibPool TcpOpt TcpConn TcpAck.

(** ** The list of SACK blocks to send *)

(** [vec_insert_elts]. *)
Definition vec_insert_elts {A} (l : list A) (e : list A) (m : Z) : list A :=
  take (Z.to_nat m) l ++ e ++ drop (Z.to_nat m) l.

(** The loop over the old list stops at the first block it keeps, and copies from there. *)
Fixpoint keep_blocks (c : tcp_connection) (e : Z) (new_list : list sack_block) (new_head : Z)
    (old : list sack_block) : list sack_block :=
  match old with
  | [] => new_list
  | b :: rest =>
      if seq_leq (blk_start b) (rcv_nxt c) || seq_leq (blk_start b) e
      then keep_blocks c e new_list new_head rest
      else
        let n_elts := Z.min (zlen old) (TCP_MAX_SACK_BLOCKS - new_head) in
        vec_insert_elts new_list (take (Z.to_nat n_elts) old) new_head
  end.

Definition tcp_update_sack_list (c : tcp_connection) (start e : Z) : tcp_connection :=
  let '(new_list, new_head) :=
    if seq_lt (rcv_nxt c) start then ([Sack start e], 1) else ([], 0) in
  set_snd_sacks (keep_blocks c e new_list new_head (snd_sacks c)) c.

(** ** Handing data to the session *)

Inductive tcp_error := TCP_ERROR_PURE_ACK | TCP_ERROR_ENQUEUED | TCP_ERROR_FIFO_FULL.

Definition stream_session_enqueue_data (c : tcp_connection) (data : list Z) (len : Z)
    : option (tcp_connection * Z) :=
  if Svm.svm_fifo_max_enqueue (server_rx_fifo c) <? len then Some (c, -1)
  else
    '(f, enqueued) ← Svm.svm_fifo_enqueue_nowait (server_rx_fifo c) len (Some data);
    Some (set_rx_fifo f c, enqueued).

Definition tcp_session_enqueue_data (c : tcp_connection) (b : vlib_buffer) (data_len : Z)
    : option (tcp_connection * tcp_error) :=
  if data_len =? 0 then Some (set_rcv_nxt (seq_end b) c, TCP_ERROR_PURE_ACK)
  else
    '(c, written) ← stream_session_enqueue_data c (payload b) data_len;
    if written =? data_len then Some (set_rcv_nxt (seq_end b) c, TCP_ERROR_ENQUEUED)
    else if written >? data_len then
      let c := set_rcv_nxt (u32 (seq_end b + written - data_len)) c in
      let c := flag_on TCP_CONN_SNDACK c in
      let c := if tcp_opts_sack_permitted (opt c)
               then tcp_update_sack_list c (rcv_nxt c) (rcv_nxt c) else c in
      Some (c, TCP_ERROR_ENQUEUED)
    else
      _ ← Svm.assert false; Some (c, TCP_ERROR_FIFO_FULL).

Definition tcp_session_enqueue_ooo (c : tcp_connection) (b : vlib_buffer) (data_len : Z)
    : option (tcp_connection * tcp_error) :=
  let offset := u32 (seq_number b - rcv_nxt c) in
  '(f, r) ← Svm.svm_fifo_enqueue_with_offset (server_rx_fifo c) offset data_len (payload b);
  let c := set_rx_fifo f c in
  if negb (r =? 0) then Some (c, TCP_ERROR_FIFO_FULL)
  else
    c ← (if tcp_opts_sack_permitted (opt c) then
           newest ← vget (elts (Svm.ooo_segments f)) (Svm.ooos_newest f);
           let start := u32 (rcv_nxt c + Svm.ooo_segment_offset f newest) in
           let e := u32 (rcv_nxt c + Svm.ooo_segment_end_offset f newest) in
           Some (tcp_update_sack_list c start e)
         else Some c);
    Some (c, TCP_ERROR_ENQUEUED).

Definition tcp_can_delack (c : tcp_connection) : bool :=
  match delack_timer c with Some _ => false | None => true end &&
  negb (conn_flag c TCP_CONN_SENT_RCV_WND0) && negb (conn_flag c TCP_CONN_SNDACK).

(** What is done with the segment: nothing, an ACK now, a duplicate ACK now, or the
    connection is put on the list of delayed ACKs. *)
Inductive rcv_action :=
  | RcvNone
  | RcvAck (s : out_segment)
  | RcvDupAck (s : out_segment)
  | RcvDelack.

(** [!tc->flags & TCP_CONN_DELACK] negates the whole word first. *)
Definition not_flags_and_delack (c : tcp_connection) : bool :=
  negb (Z.land (if flags c =? 0 then 1 else 0) TCP_CONN_DELACK =? 0).

Definition tcp_segment_rcv (now : Z) (c : tcp_connection) (b : vlib_buffer) (n_data_bytes : Z)
    : option (tcp_connection * tcp_error * rcv_action) :=
  if negb (seq_number b =? rcv_nxt c) then
    '(c, error) ← tcp_session_enqueue_ooo c b n_data_bytes;
    if snt_dupacks c <? 3 then
      '(c, s) ← tcp_make_ack now c;
      Some (set_snt_dupacks (u8 (snt_dupacks c + 1)) c, error, RcvDupAck s)
    else Some (c, error, RcvNone)
  else
    '(c, error) ← tcp_session_enqueue_data c b n_data_bytes;
    if tcp_can_delack c then
      if n_data_bytes =? 0 then Some (c, error, RcvNone)
      else if not_flags_and_delack c then Some (flag_on TCP_CONN_DELACK c, error, RcvDelack)
      else Some (c, error, RcvNone)
    else if negb (conn_flag c TCP_CONN_BURSTACK) then
      '(c, s) ← tcp_make_ack now c;
      Some (flag_on TCP_CONN_BURSTACK c, TCP_ERROR_ENQUEUED, RcvAck s)
    else Some (c, error, RcvNone).

(** ** The list of SACK blocks *)

(** A block the update discards: the next expected byte, or the end of the newest segment, is at
    or past its start. *)
Definition discarded (c : tcp_connection) (e : Z) (b : sack_block) : bool :=
  seq_leq (blk_start b) (rcv_nxt c) || seq_leq (blk_start b) e.

Lemma keep_blocks_ok c e h new_list : ∀ old,
  zlen new_list = h → 0 ≤ h ≤ 1 →
  ∃ skipped kept, old = skipped ++ kept ∧ Forall (λ b, discarded c e b = true) skipped ∧
    (∀ b rest, kept = b :: rest → discarded c e b = false) ∧
    keep_blocks c e new_list h old = new_list ++ take (Z.to_nat (TCP_MAX_SACK_BLOCKS - h)) kept.
Proof.
  intros old Hl Hh. induction old as [|b old IH]; cbn [keep_blocks].
  - exists [], []. rewrite take_nil, !app_nil_r. split; [done|]. split; [constructor|]. by split.
  - fold (discarded c e b). destruct (discarded c e b) eqn:Hb.
    + destruct IH as (sk & kp & -> & Hsk & Hkp & ->). exists (b :: sk), kp. split; [done|]. by split; [constructor|].
    + exists [], (b :: old). split; [done|]. split; [constructor|]. split; [by intros ? ? [= <- _]|].
      unfold vec_insert_elts. rewrite take_ge, drop_ge by (unfold zlen in Hl; lia). rewrite app_nil_r.
      f_equal. destruct (decide (zlen (b :: old) ≤ TCP_MAX_SACK_BLOCKS - h)) as [Hle|Hle].
      * rewrite Z.min_l by done. unfold zlen in *. rewrite Nat2Z.id, !take_ge by lia. done.
      * rewrite Z.min_r by lia. done.
Qed.

(** The list of SACK blocks never exceeds [TCP_MAX_SACK_BLOCKS].  It starts with the newest
    segment when that lies beyond the next expected byte, as RFC 2018 asks, and continues with
    consecutive blocks of the old list from the first one that is neither delivered nor at or
    below the end of the newest segment; the blocks before that one are dropped. *)
Theorem tcp_update_sack_list_spec (c : tcp_connection) (start e : Z) :
  let new := if seq_lt (rcv_nxt c) start then [Sack start e] else [] in
  let r := snd_sacks (tcp_update_sack_list c start e) in
  zlen r ≤ TCP_MAX_SACK_BLOCKS ∧
  ∃ skipped kept, snd_sacks c = skipped ++ kept ∧ Forall (λ b, discarded c e b = true) skipped ∧
    (∀ b rest, kept = b :: rest → discarded c e b = false) ∧
    r = new ++ take (Z.to_nat (TCP_MAX_SACK_BLOCKS - zlen new)) kept.
Proof.
  cbv zeta. unfold tcp_update_sack_list.
  assert (∀ new h, zlen new = h → 0 ≤ h ≤ 1 →
    zlen (keep_blocks c e new h (snd_sacks c)) ≤ TCP_MAX_SACK_BLOCKS ∧
    ∃ skipped kept, snd_sacks c = skipped ++ kept ∧ Forall (λ b, discarded c e b = true) skipped ∧
    (∀ b rest, kept = b :: rest → discarded c e b = false) ∧
    keep_blocks c e new h (snd_sacks c) = new ++ take (Z.to_nat (TCP_MAX_SACK_BLOCKS - zlen new)) kept) as Hk.
  { intros new h Hl Hh. destruct (keep_blocks_ok c e h new (snd_sacks c) Hl Hh) as (sk & kp & E & Hsk & Hkp & Hr).
    split; [|exists sk, kp; rewrite Hl; by split_and!].
    rewrite Hr, zlen_app, Hl. unfold zlen at 1. rewrite length_take. unfold TCP_MAX_SACK_BLOCKS. lia. }
  destruct (seq_lt (rcv_nxt c) start); cbn [snd_sacks set_snd_sacks]; [apply (Hk [Sack start e] 1)|apply (Hk [] 0)];
    done || lia.
Qed.

(** A block that the application has already received stays listed when it follows one that
    is kept, and one that is still missing is dropped when it lies below the newest. *)
Lemma tcp_sack_list_keeps_delivered :
  snd_sacks (tcp_update_sack_list
    (set_rcv_nxt 1000 (set_snd_sacks [Sack 3000 3100; Sack 500 600] example_conn)) 2000 2100) =
    [Sack 2000 2100; Sack 3000 3100; Sack 500 600] ∧
  snd_sacks (tcp_update_sack_list
    (set_rcv_nxt 1000 (set_snd_sacks [Sack 1500 1600] example_conn)) 2000 2100) = [Sack 2000 2100].
Proof. by split. Qed.

(** The delayed ACK is armed only when no flag of the connection is set; a connection in fast
    recovery, say, neither delays its ACK nor sends one. *)
Lemma not_flags_and_delack_zero c : not_flags_and_delack c = (flags c =? 0).
Proof. unfold not_flags_and_delack. by destruct (flags c =? 0). Qed.

(** ** Delivery

    [S] is the stream the peer sends, [irs] its first sequence number. *)

Section delivery.
Context (S : Z → Z) (irs n now : Z).
Implicit Types (c : tcp_connection) (st : SvmStream.run_state).

(** A segment of [len] bytes at position [pos] arrives, or the application reads. *)
Inductive rcv_event :=
  | Segment (pos len : Z)
  | AppRead (max : Z).

Definition segment_buffer (pos len : Z) : vlib_buffer :=
  Buffer (u32 (irs + pos)) (u32 (irs + pos + len)) 0 (SvmStream.bytes S pos len).

Definition rcv_step c (ev : rcv_event) : option (tcp_connection * list Z) :=
  match ev with
  | Segment pos len => '(c, _, _) ← tcp_segment_rcv now c (segment_buffer pos len) len; Some (c, [])
  | AppRead max =>
      '(f, _, out) ← Svm.svm_fifo_dequeue_nowait (server_rx_fifo c) max true; Some (set_rx_fifo f c, out)
  end.

Fixpoint rcv_run c (evs : list rcv_event) : option (tcp_connection * list Z) :=
  match evs with
  | [] => Some (c, [])
  | ev :: evs => '(c, out) ← rcv_step c ev; '(c, outs) ← rcv_run c evs; Some (c, out ++ outs)
  end.

(** The positions in the stream, as the specification of the FIFO keeps them. *)
Definition track st (ev : rcv_event) : option (SvmStream.run_state * list Z) :=
  match ev with
  | Segment pos len =>
      if len =? 0 then Some (st, [])
      else if pos =? SvmStream.wr st then SvmStream.exec S st (SvmStream.OpEnqueue len)
      else SvmStream.exec S st (SvmStream.OpOffset (pos - SvmStream.wr st) len)
  | AppRead max => SvmStream.exec S st (SvmStream.OpDequeue max)
  end.

(** The segments considered start at or after the next expected byte and carry bytes not yet
    received; one in order fits the room of the FIFO, which is what a window within that room
    guarantees. *)
Definition legal_event st (ev : rcv_event) : bool :=
  match ev with
  | Segment pos len =>
      (0 <=? len) && (len <? 2 ^ 16) && (SvmStream.wr st <=? pos) && (pos + len - SvmStream.wr st <? 2 ^ 31) &&
      (if pos =? SvmStream.wr st
       then (len <=? SvmStream.room st) && ((len =? 0) || SvmStream.legal st (SvmStream.OpEnqueue len))
       else SvmStream.legal st (SvmStream.OpOffset (pos - SvmStream.wr st) len))
  | AppRead max => SvmStream.legal st (SvmStream.OpDequeue max)
  end.

Fixpoint legal_events st (evs : list rcv_event) : bool :=
  match evs with
  | [] => true
  | ev :: evs => legal_event st ev && match track st ev with Some (st, _) => legal_events st evs | None => true end
  end.

(** The connection agrees with the positions. *)
Record rcv_ok c st : Prop := {
  ro_fifo : server_rx_fifo c = SvmStream.fifo st;
  ro_nxt : rcv_nxt c = u32 (irs + SvmStream.wr st);
  ro_sack : tcp_opts_sack_permitted (opt c) = false;
  ro_mss : mss (opt c) < n;
}.

Lemma make_ack_ok c st segs :
  rcv_ok c st → SvmStream.stream_inv S n st segs →
  ∃ c' s, tcp_make_ack now c = Some (c', s) ∧ rcv_ok c' st.
Proof.
  intros [Hf Hn Hs Hm] Hi.
  assert (is_Some (tcp_window_to_advertise c TCP_STATE_ESTABLISHED)) as [[c' w] Hw].
  { unfold tcp_window_to_advertise. cbn [state_num]. change (4 <? 4) with false. cbn iota.
    rewrite Hf, (SvmStream.si_size _ _ _ _ Hi), (proj2 (Z.ltb_lt _ _) Hm). cbn. eauto. }
  unfold tcp_make_ack, tcp_make_ack_i. rewrite Hw. cbn [mbind option_bind].
  destruct (tcp_make_established_options now c' zero_options) as [o l].
  destruct (write_ok o) as [-> _]. cbn [mbind option_bind]. eexists _, _. split; [done|].
  apply window_frame in Hw. unfold out_frame in Hw. rewrite Hw. by split.
Qed.

Lemma flags_ok f c st : rcv_ok c st → rcv_ok (flag_on f c) st.
Proof. intros [? ? ? ?]. by split. Qed.

Lemma dupacks_ok x c st : rcv_ok c st → rcv_ok (set_snt_dupacks x c) st.
Proof. intros [? ? ? ?]. by split. Qed.

(** In-order data: the FIFO takes it, and what it had ahead, and [rcv_nxt] follows. *)
Lemma enqueue_data_ok c st segs ack len :
  rcv_ok c st → SvmStream.stream_inv S n st segs → 0 < len < 2 ^ 16 → len ≤ SvmStream.room st →
  SvmStream.legal st (SvmStream.OpEnqueue len) = true →
  ∃ c' e st' segs',
    tcp_session_enqueue_data c
      (Buffer (u32 (irs + SvmStream.wr st)) (u32 (irs + SvmStream.wr st + len)) ack
         (SvmStream.bytes S (SvmStream.wr st) len)) len = Some (c', e) ∧
    SvmStream.exec S st (SvmStream.OpEnqueue len) = Some (st', []) ∧
    rcv_ok c' st' ∧ SvmStream.stream_inv S n st' segs' ∧ SvmStream.rd st' = SvmStream.rd st ∧
    SvmStream.wr st + len ≤ SvmStream.wr st'.
Proof.
  intros [Hf Hn Hs Hm] Hi Hlen Hroom Hl.
  destruct (SvmStream.enqueue_step S n st segs len Hi Hl) as (st' & He & Hrd & Hwr & segs' & Hi').
  rewrite Z.min_r in Hwr by lia.
  assert (Svm.svm_fifo_max_enqueue (SvmStream.fifo st) = SvmStream.room st) as Hmax.
  { destruct (SvmStream.inv_room _ _ _ _ Hi) as [Hz Hr]. pose proof (SvmStream.si_pos _ _ _ _ Hi).
    pose proof (SvmStream.si_rel _ _ _ _ Hi) as Hrel. pose proof (SvmSpec.fr_size _ _ _ _ Hrel) as Hc.
    pose proof (SvmSpec.fr_n _ _ _ _ Hrel). rewrite Hz in Hc.
    unfold Svm.svm_fifo_max_enqueue, SvmStream.room. rewrite Hc. apply u32_small. unfold_ranges. lia. }
  unfold tcp_session_enqueue_data, stream_session_enqueue_data. cbn [payload seq_end].
  rewrite (proj2 (Z.eqb_neq len 0)) by lia. rewrite Hf, Hmax, (proj2 (Z.ltb_ge _ _)) by lia.
  pose proof He as He'. unfold SvmStream.exec in He'. apply bind_Some in He' as ([f r] & Hq & He').
  apply (inj Some) in He'. injection He' as Hst'.
  rewrite Hq. cbn [mbind option_bind].
  assert (SvmStream.fifo st' = f ∧ SvmStream.wr st' = SvmStream.wr st + Z.max 0 r) as [Ef Ew] by (by rewrite <-Hst').
  assert (Z.max 0 r = r) as Er by lia. rewrite Er in Ew.
  set (c1 := set_rx_fifo f c).
  assert (server_rx_fifo c1 = f ∧ opt c1 = opt c) as [C1 C2] by done. clearbody c1.
  destruct (Z.eqb_spec r len) as [->|Hne].
  - eexists _, _, st', segs'. split; [done|]. split; [done|]. split; [|split; [done|split; [done|lia]]].
    split; cbn [server_rx_fifo rcv_nxt opt set_rcv_nxt]; rewrite ?C1, ?C2; try done.
    by rewrite Ew, Z.add_assoc.
  - destruct (Z.gtb_spec r len) as [_|?]; [|lia]. cbv zeta.
    set (c2 := flag_on _ _).
    assert (server_rx_fifo c2 = f ∧ opt c2 = opt c ∧ rcv_nxt c2 = u32 (irs + SvmStream.wr st'))
      as (D1 & D2 & D3).
    { unfold c2. split; [done|]. split; [done|]. cbn [rcv_nxt flag_on set_conn_flags set_rcv_nxt].
      rewrite Ew. replace (u32 (irs + SvmStream.wr st + len) + r - len)
        with (u32 (irs + SvmStream.wr st + len) + (r - len)) by lia.
      rewrite u32_add_l. f_equal. lia. }
    clearbody c2. rewrite D2, Hs.
    eexists _, _, st', segs'. split; [done|]. split; [done|]. split; [|split; [done|split; [done|lia]]].
    split; rewrite ?D1, ?D2; done.
Qed.

(** Data ahead of the next expected byte: the FIFO keeps it, or refuses it for lack of room. *)
Lemma enqueue_ooo_ok c st segs ack pos len :
  rcv_ok c st → SvmStream.stream_inv S n st segs → SvmStream.wr st < pos → pos - SvmStream.wr st < 2 ^ 31 →
  SvmStream.legal st (SvmStream.OpOffset (pos - SvmStream.wr st) len) = true →
  ∃ c' e st' segs',
    tcp_session_enqueue_ooo c
      (Buffer (u32 (irs + pos)) (u32 (irs + pos + len)) ack (SvmStream.bytes S pos len)) len = Some (c', e) ∧
    SvmStream.exec S st (SvmStream.OpOffset (pos - SvmStream.wr st) len) = Some (st', []) ∧
    rcv_ok c' st' ∧ SvmStream.stream_inv S n st' segs' ∧ SvmStream.rd st' = SvmStream.rd st ∧
    SvmStream.wr st ≤ SvmStream.wr st'.
Proof.
  intros [Hf Hn Hs Hm] Hi Hpos Hd Hl.
  destruct (SvmStream.offset_step S n st segs _ _ Hi Hl) as (st' & He & Hrd & segs' & Hi').
  pose proof He as He'. unfold SvmStream.exec in He'. apply bind_Some in He' as ([f r] & Hq & He').
  apply (inj Some) in He'. injection He' as Hst'.
  replace (SvmStream.wr st + (pos - SvmStream.wr st)) with pos in Hq by lia.
  unfold tcp_session_enqueue_ooo. cbn [payload seq_number].
  assert (u32 (u32 (irs + pos) - rcv_nxt c) = pos - SvmStream.wr st) as ->.
  { rewrite Hn, u32_sub_l, u32_sub_r. rewrite u32_small by (unfold_ranges; lia). lia. }
  rewrite Hf, Hq. cbn [mbind option_bind].
  assert (SvmStream.fifo st' = f ∧ SvmStream.wr st' = SvmStream.wr st) as [Ef Ew] by (by rewrite <-Hst').
  assert (rcv_ok (set_rx_fifo f c) st') as Hok.
  { split; cbn [server_rx_fifo rcv_nxt opt set_rx_fifo]; try done. by rewrite Ew. }
  assert (tcp_opts_sack_permitted (opt (set_rx_fifo f c)) = false) as -> by apply Hok.
  case_match; cbn [mbind option_bind]; eexists _, _, st', segs';
    (split; [done|]; split; [done|]; split; [done|]; split; [done|]; split; [done|lia]).
Qed.

Lemma segment_rcv_ok c st segs pos len :
  rcv_ok c st → SvmStream.stream_inv S n st segs → legal_event st (Segment pos len) = true →
  ∃ c' e a st' segs',
    tcp_segment_rcv now c (segment_buffer pos len) len = Some (c', e, a) ∧
    track st (Segment pos len) = Some (st', []) ∧ rcv_ok c' st' ∧ SvmStream.stream_inv S n st' segs' ∧
    SvmStream.rd st' = SvmStream.rd st.
Proof.
  intros Hok Hi Hl. unfold legal_event in Hl. apply andb_true_iff in Hl as [Hl Hkind].
  repeat (apply andb_true_iff in Hl as [Hl ?]). bool_to_prop. unfold tcp_segment_rcv, segment_buffer, track.
  cbn [seq_number]. rewrite (ro_nxt _ _ Hok).
  assert ((u32 (irs + pos) =? u32 (irs + SvmStream.wr st)) = (pos =? SvmStream.wr st)) as ->.
  { apply eq_true_iff_eq. rewrite !Z.eqb_eq. split; [|by intros ->]. intros Heq.
    pose proof (i32_diff (irs + pos) (irs + SvmStream.wr st) ltac:(lia)) as Hd.
    rewrite Heq, Z.sub_diag in Hd. change (i32 0) with 0 in Hd. lia. }
  destruct (Z.eqb_spec pos (SvmStream.wr st)) as [->|Hne]; cbn [negb].
  - apply andb_true_iff in Hkind as [Hroom Hkind]. bool_to_prop.
    assert (∃ c' e st' segs',
      tcp_session_enqueue_data c
        (Buffer (u32 (irs + SvmStream.wr st)) (u32 (irs + SvmStream.wr st + len)) 0
          (SvmStream.bytes S (SvmStream.wr st) len)) len = Some (c', e) ∧
      (if len =? 0 then Some (st, []) else SvmStream.exec S st (SvmStream.OpEnqueue len)) = Some (st', []) ∧
      rcv_ok c' st' ∧ SvmStream.stream_inv S n st' segs' ∧ SvmStream.rd st' = SvmStream.rd st)
      as (c1 & e & st' & segs' & -> & Htr & Hok' & Hi' & Hrd).
    { destruct (Z.eqb_spec len 0) as [->|Hlen].
      - eexists _, _, st, segs. split; [done|]. split; [done|]. split; [|by split].
        destruct Hok as [? ? ? ?]. split; try done. cbn [rcv_nxt set_rcv_nxt seq_end]. f_equal. lia.
      - cbn [orb] in Hkind.
        destruct (enqueue_data_ok c st segs 0 len Hok Hi ltac:(lia) ltac:(lia) Hkind)
          as (c1 & e & st' & segs' & ? & ? & ? & ? & ? & _). by exists c1, e, st', segs'. }
    rewrite Htr. cbn [mbind option_bind].
    assert (∃ c' e' a, (if tcp_can_delack c1 then
        if len =? 0 then Some (c1, e, RcvNone)
        else if not_flags_and_delack c1 then Some (flag_on TCP_CONN_DELACK c1, e, RcvDelack)
        else Some (c1, e, RcvNone)
      else if negb (conn_flag c1 TCP_CONN_BURSTACK) then
        '(c0, s) ← tcp_make_ack now c1; Some (flag_on TCP_CONN_BURSTACK c0, TCP_ERROR_ENQUEUED, RcvAck s)
      else Some (c1, e, RcvNone)) = Some (c', e', a) ∧ rcv_ok c' st') as (c' & e' & a & He & Hok'').
    { destruct (tcp_can_delack c1).
      - destruct (len =? 0); [|destruct (not_flags_and_delack c1)]; eexists _, _, _; (split; [reflexivity|]);
          [exact Hok'|by apply flags_ok|exact Hok'].
      - destruct (conn_flag c1 TCP_CONN_BURSTACK); cbn [negb]; [by eexists _, _, _|].
        destruct (make_ack_ok c1 st' segs' Hok' Hi') as (c2 & s & -> & Hok2). cbn [mbind option_bind].
        eexists _, _, _. split; [reflexivity|]. by apply flags_ok. }
    exists c', e', a, st', segs'. by split_and!.
  - assert (0 < len) as Hlen.
    { unfold SvmStream.legal in Hkind. repeat (apply andb_true_iff in Hkind as [Hkind ?]). bool_to_prop. lia. }
    destruct (enqueue_ooo_ok c st segs 0 pos len Hok Hi ltac:(lia) ltac:(lia) Hkind)
      as (c1 & e & st' & segs' & -> & Htr & Hok' & Hi' & Hrd & _).
    cbn [mbind option_bind]. rewrite (proj2 (Z.eqb_neq len 0)) by lia.
    destruct (snt_dupacks c1 <? 3).
    + destruct (make_ack_ok c1 st' segs' Hok' Hi') as (c2 & s & -> & Hok2). cbn [mbind option_bind].
      eexists _, _, _, st', segs'. split; [reflexivity|]. split_and!; try done. by apply dupacks_ok.
    + eexists _, _, _, st', segs'. split; [reflexivity|]. by split_and!.
Qed.

Lemma rcv_step_ok c st segs ev :
  rcv_ok c st → SvmStream.stream_inv S n st segs → legal_event st ev = true →
  ∃ c' st' out segs', rcv_step c ev = Some (c', out) ∧ track st ev = Some (st', out) ∧ rcv_ok c' st' ∧
    SvmStream.stream_inv S n st' segs' ∧ SvmStream.rd st ≤ SvmStream.rd st' ∧
    out = SvmStream.bytes S (SvmStream.rd st) (SvmStream.rd st' - SvmStream.rd st).
Proof.
  intros Hok Hi Hl. destruct ev as [pos len|max].
  - destruct (segment_rcv_ok c st segs pos len Hok Hi Hl) as (c' & e & a & st' & segs' & He & Ht & Hok' & Hi' & Hrd).
    exists c', st', [], segs'. cbn [rcv_step]. rewrite He, Hrd, Z.sub_diag, SvmStream.bytes_nil.
    split_and!; done || lia.
  - cbn [legal_event SvmStream.legal] in Hl. bool_to_prop. pose proof (SvmStream.si_pos _ _ _ _ Hi) as Hp.
    destruct (SvmStream.read_ok S n st segs max Hi ltac:(lia)) as (st' & He & _ & Hi' & Hrd).
    pose proof He as He'. unfold SvmStream.exec in He'. apply bind_Some in He' as ([[f r] o] & Hq & He').
    apply (inj Some) in He'. injection He' as Hst' Ho.
    exists (set_rx_fifo f c), st', (SvmStream.bytes S (SvmStream.rd st) (Z.min (SvmStream.wr st - SvmStream.rd st) max)), segs.
    cbn [rcv_step track]. rewrite (ro_fifo _ _ Hok), Hq. cbn [mbind option_bind]. rewrite Ho.
    split; [done|]. split; [exact He|]. split; [|split; [done|split; [lia|]]].
    + assert (SvmStream.fifo st' = f ∧ SvmStream.wr st' = SvmStream.wr st) as [Ef Ew] by (by rewrite <-Hst').
      destruct Hok as [? ? ? ?]. split; cbn [server_rx_fifo rcv_nxt opt set_rx_fifo]; try done. by rewrite Ew.
    + f_equal. lia.
Qed.

Lemma rcv_run_ok evs : ∀ c st segs,
  rcv_ok c st → SvmStream.stream_inv S n st segs → legal_events st evs = true →
  ∃ c' st' out segs', rcv_run c evs = Some (c', out) ∧ rcv_ok c' st' ∧ SvmStream.stream_inv S n st' segs' ∧
    SvmStream.rd st ≤ SvmStream.rd st' ∧
    out = SvmStream.bytes S (SvmStream.rd st) (SvmStream.rd st' - SvmStream.rd st).
Proof.
  induction evs as [|ev evs IH]; intros c st segs Hok Hi Hl.
  - exists c, st, [], segs. rewrite Z.sub_diag, SvmStream.bytes_nil. split_and!; done || lia.
  - cbn [legal_events] in Hl. apply andb_true_iff in Hl as [Hev Hl].
    destruct (rcv_step_ok c st segs ev Hok Hi Hev) as (c1 & st1 & out1 & segs1 & Hs & Ht & Hok1 & Hi1 & Hle1 & Ho1).
    rewrite Ht in Hl. destruct (IH c1 st1 segs1 Hok1 Hi1 Hl) as (c2 & st2 & out2 & segs2 & Hr & Hok2 & Hi2 & Hle2 & Ho2).
    exists c2, st2, (out1 ++ out2), segs2. cbn [rcv_run]. rewrite Hs. cbn [mbind option_bind]. rewrite Hr.
    cbn [mbind option_bind]. split; [done|]. split; [done|]. split; [done|]. split; [lia|].
    rewrite Ho1, Ho2.
    replace (SvmStream.rd st1) with (SvmStream.rd st + (SvmStream.rd st1 - SvmStream.rd st)) at 2 by lia.
    rewrite SvmStream.bytes_app by (pose proof (SvmStream.si_pos _ _ _ _ Hi); lia). f_equal. lia.
Qed.
End delivery.


End TcpRcv.
