(* ===== verification/Esp.v ===== *)
(** * ESP sequence numbers and anti-replay (vnet/ipsec/esp.h, esp_decrypt.c)

    The sender numbers its packets; the receiver keeps the highest number accepted and a
    bitmap of the 64 numbers up to it.  With extended sequence numbers only the low 32 of 64
    bits are sent, and the receiver infers the high part, which the integrity check covers.
    The integrity check itself (OpenSSL's HMAC) is a parameter: the verdict for a packet as a
    function of the high part it is checked with. *)

From S2P Require Import Prelude.

Module Esp.

Record ipsec_sa := Sa {
  use_esn : bool;
  use_anti_replay : bool;
  seq : Z;
  seq_hi : Z;
  last_seq : Z;
  last_seq_hi : Z;
  replay_window : Z;
}.

Definition ESP_WINDOW_SIZE : Z := 64.
Definition ESP_SEQ_MAX : Z := 4294967295.

Definition set_seq (s : Z) (sa : ipsec_sa) : ipsec_sa :=
  Sa (use_esn sa) (use_anti_replay sa) s (seq_hi sa) (last_seq sa) (last_seq_hi sa) (replay_window sa).
Definition set_seq_hi (h : Z) (sa : ipsec_sa) : ipsec_sa :=
  Sa (use_esn sa) (use_anti_replay sa) (seq sa) h (last_seq sa) (last_seq_hi sa) (replay_window sa).
Definition set_last_seq (s : Z) (sa : ipsec_sa) : ipsec_sa :=
  Sa (use_esn sa) (use_anti_replay sa) (seq sa) (seq_hi sa) s (last_seq_hi sa) (replay_window sa).
Definition set_last_seq_hi (h : Z) (sa : ipsec_sa) : ipsec_sa :=
  Sa (use_esn sa) (use_anti_replay sa) (seq sa) (seq_hi sa) (last_seq sa) h (replay_window sa).
Definition set_window (w : Z) (sa : ipsec_sa) : ipsec_sa :=
  Sa (use_esn sa) (use_anti_replay sa) (seq sa) (seq_hi sa) (last_seq sa) (last_seq_hi sa) w.

(** The bit of the window for the packet [diff] before the last; [1ULL << diff]. *)
Definition window_bit (sa : ipsec_sa) (diff : Z) : bool :=
  negb (Z.land (replay_window sa) (u64 (Z.shiftl 1 diff)) =? 0).

(** The checks return [true] for a packet to drop. *)
Definition esp_replay_check (sa : ipsec_sa) (s : Z) : bool :=
  if s >? last_seq sa then false
  else
    let diff := u32 (last_seq sa - s) in
    if ESP_WINDOW_SIZE >? diff then window_bit sa diff else true.

Definition esp_replay_check_esn (sa : ipsec_sa) (s : Z) : ipsec_sa * bool :=
  let tl := last_seq sa in
  let th := last_seq_hi sa in
  let diff := u32 (tl - s) in
  if tl >=? ESP_WINDOW_SIZE - 1 then
    if s >=? u32 (tl - ESP_WINDOW_SIZE + 1) then
      let sa := set_seq_hi th sa in
      (sa, if s <=? tl then window_bit sa diff else false)
    else (set_seq_hi (u32 (th + 1)) sa, false)
  else
    if s >=? u32 (tl - ESP_WINDOW_SIZE + 1) then
      let sa := set_seq_hi (u32 (th - 1)) sa in
      (sa, window_bit sa diff)
    else
      let sa := set_seq_hi th sa in
      (sa, if s <=? tl then window_bit sa diff else false).

Definition shift_window (sa : ipsec_sa) (pos : Z) : Z :=
  if pos <? ESP_WINDOW_SIZE then Z.lor (u64 (Z.shiftl (replay_window sa) pos)) 1 else 1.

Definition mark_window (sa : ipsec_sa) (pos : Z) : Z :=
  Z.lor (replay_window sa) (u64 (Z.shiftl 1 pos)).

Definition esp_replay_advance (sa : ipsec_sa) (s : Z) : ipsec_sa :=
  if s >? last_seq sa then
    let pos := u32 (s - last_seq sa) in
    set_last_seq s (set_window (shift_window sa pos) sa)
  else
    let pos := u32 (last_seq sa - s) in
    set_window (mark_window sa pos) sa.

Definition esp_replay_advance_esn (sa : ipsec_sa) (s : Z) : ipsec_sa :=
  let wrap := i32 (seq_hi sa - last_seq_hi sa) in
  if (wrap =? 0) && (s >? last_seq sa) then
    let pos := u32 (s - last_seq sa) in
    set_last_seq s (set_window (shift_window sa pos) sa)
  else if wrap >? 0 then
    let pos := u32 ((u32_max - s) + last_seq sa + 1) in
    set_last_seq_hi (seq_hi sa) (set_last_seq s (set_window (shift_window sa pos) sa))
  else if wrap <? 0 then
    let pos := u32 ((u32_max - s) + last_seq sa + 1) in
    set_window (mark_window sa pos) sa
  else
    let pos := u32 (last_seq sa - s) in
    set_window (mark_window sa pos) sa.

(** The next number of the sender; [true] when the counter has cycled. *)
Definition esp_seq_advance (sa : ipsec_sa) : ipsec_sa * bool :=
  if use_esn sa then
    if seq sa =? ESP_SEQ_MAX then
      if use_anti_replay sa && (seq_hi sa =? ESP_SEQ_MAX) then (sa, true)
      else
        let sa := set_seq_hi (u32 (seq_hi sa + 1)) sa in
        (set_seq (u32 (seq sa + 1)) sa, false)
    else (set_seq (u32 (seq sa + 1)) sa, false)
  else if use_anti_replay sa && (seq sa =? ESP_SEQ_MAX) then (sa, true)
  else (set_seq (u32 (seq sa + 1)) sa, false).

(** The anti-replay part of the decryption node: [true] when the packet goes on to be
    decrypted. *)
Definition esp_decrypt_accept (sa : ipsec_sa) (s : Z) (integ_ok : Z → bool) : ipsec_sa * bool :=
  let '(sa, rv) :=
    if use_anti_replay sa then
      if use_esn sa then esp_replay_check_esn sa s else (sa, esp_replay_check sa s)
    else (sa, false) in
  if rv then (sa, false)
  else if negb (integ_ok (seq_hi sa)) then (sa, false)
  else if use_anti_replay sa then
    (if use_esn sa then esp_replay_advance_esn sa s else esp_replay_advance sa s, true)
  else (sa, true).

(** A sequence of packets; the numbers accepted, the latest first. *)
Fixpoint esp_receive (sa : ipsec_sa) (pkts : list (Z * (Z → bool))) (accepted : list Z)
    : ipsec_sa * list Z :=
  match pkts with
  | [] => (sa, accepted)
  | (s, integ_ok) :: pkts =>
      let '(sa, ok) := esp_decrypt_accept sa s integ_ok in
      esp_receive sa pkts (if ok then s :: accepted else accepted)
  end.

(** ** The window *)

Lemma window_bit_testbit sa d : 0 ≤ d < 64 → window_bit sa d = Z.testbit (replay_window sa) d.
Proof.
  intros Hd. unfold window_bit.
  destruct (Z.testbit (replay_window sa) d) eqn:E.
  - apply negb_true_iff, Z.eqb_neq. intros Heq.
    assert (Z.testbit (Z.land (replay_window sa) (u64 (Z.shiftl 1 d))) d = false) as Hb by (by rewrite Heq, Z.bits_0).
    rewrite Z.land_spec, testbit_u64, E, testbit_shiftl1, Z.eqb_refl, (proj2 (Z.ltb_lt d 64)) in Hb by lia. done.
  - apply negb_false_iff, Z.eqb_eq, Z.bits_inj'. intros i Hi.
    rewrite Z.bits_0, Z.land_spec, testbit_u64, testbit_shiftl1 by lia.
    destruct (Z.eqb_spec i d) as [->|]; [by rewrite E|by rewrite !andb_false_r].
Qed.

(** The bits of the window are those numbers, counted down from [top], that were accepted. *)
Record window_ok (top w : Z) (acc : list Z) : Prop := {
  wo_range : in_u64 w;
  wo_bits d : 0 ≤ d < 64 → Z.testbit w d = true ↔ top - d ∈ acc;
  wo_max s : s ∈ acc → 0 ≤ s ≤ top;
}.

Lemma window_shift top w acc pos sa :
  window_ok top w acc → replay_window sa = w → 0 < pos → 0 ≤ top →
  window_ok (top + pos) (shift_window sa pos) (top + pos :: acc).
Proof.
  intros [Hr Hb Hm] Hw Hpos Htop. unfold shift_window, ESP_WINDOW_SIZE. rewrite Hw.
  assert (∀ s, s ∈ top + pos :: acc → 0 ≤ s ≤ top + pos) as Hmax.
  { intros s [->|Hs]%elem_of_cons; [lia|]. specialize (Hm s Hs). lia. }
  case_cond; split; try done.
  - apply lor_range; [lia|apply u64_range|lia].
  - intros d Hd. rewrite Z.lor_spec, testbit_u64, (proj2 (Z.ltb_lt d 64)), Z.shiftl_spec, elem_of_cons by lia.
    change 1 with (2 ^ 0). rewrite testbit_pow2 by lia. cbn [andb].
    destruct (Z.eqb_spec d 0) as [->|Hd0]; [rewrite orb_true_r; split; [intros _; left; lia|done]|].
    rewrite orb_false_r. destruct (decide (d < pos)) as [Hlt|Hge].
    + rewrite Z.testbit_neg_r by lia. split; [done|]. intros [?|Hin]; [lia|]. specialize (Hm _ Hin). lia.
    + rewrite Hb by lia. replace (top - (d - pos)) with (top + pos - d) by lia.
      split; [by right|]. by intros [?|?]; [lia|].
  - intros d Hd. change 1 with (2 ^ 0). rewrite testbit_pow2, elem_of_cons, Z.eqb_eq by lia.
    split; [intros ->; left; lia|]. intros [?|Hin]; [lia|]. specialize (Hm _ Hin). lia.
Qed.

Lemma window_mark top w acc pos sa :
  window_ok top w acc → replay_window sa = w → 0 ≤ pos < 64 → 0 ≤ top - pos →
  window_ok top (mark_window sa pos) (top - pos :: acc).
Proof.
  intros [Hr Hb Hm] Hw Hpos Htop. unfold mark_window. rewrite Hw. split.
  - apply lor_range; [lia|done|apply u64_range].
  - intros d Hd. rewrite Z.lor_spec, testbit_u64, (proj2 (Z.ltb_lt d 64)), testbit_shiftl1, elem_of_cons by lia.
    cbn [andb]. rewrite orb_true_iff, Hb, Z.eqb_eq by lia. split; intros [?|?]; [by right|left; lia|right; lia|by left].
  - intros s [->|Hs]%elem_of_cons; [lia|by apply Hm].
Qed.

(** ** 32-bit sequence numbers *)

Record sa_ok (sa : ipsec_sa) (acc : list Z) : Prop := {
  so_mode : use_esn sa = false ∧ use_anti_replay sa = true;
  so_last : in_u32 (last_seq sa);
  so_window : window_ok (last_seq sa) (replay_window sa) acc;
  so_nodup : NoDup acc;
}.

Lemma check_ok sa acc s : sa_ok sa acc → in_u32 s →
  esp_replay_check sa s = bool_decide (s ≤ last_seq sa - ESP_WINDOW_SIZE ∨ s ∈ acc).
Proof.
  intros [_ Hl [Hr Hb Hm] _] Hs. unfold esp_replay_check, ESP_WINDOW_SIZE. unfold_ranges.
  destruct (Z.gtb_spec s (last_seq sa)) as [Hgt|Hle].
  - symmetry. apply bool_decide_eq_false. intros [?|Hin]; [lia|]. specialize (Hm _ Hin). lia.
  - rewrite u32_small by (unfold_ranges; lia).
    destruct (Z.gtb_spec 64 (last_seq sa - s)) as [Hlt|Hge].
    + rewrite window_bit_testbit by lia. apply eq_true_iff_eq. rewrite bool_decide_eq_true, Hb by lia.
      replace (last_seq sa - (last_seq sa - s)) with s by lia. split; [by right|]. by intros [?|?]; [lia|].
    + symmetry. apply bool_decide_eq_true. left. lia.
Qed.

Lemma accept_ok sa acc s integ : sa_ok sa acc → in_u32 s →
  ∃ sa', esp_decrypt_accept sa s integ =
      (sa', negb (bool_decide (s ≤ last_seq sa - ESP_WINDOW_SIZE ∨ s ∈ acc)) && integ (seq_hi sa)) ∧
    sa_ok sa' (if negb (bool_decide (s ≤ last_seq sa - ESP_WINDOW_SIZE ∨ s ∈ acc)) && integ (seq_hi sa)
               then s :: acc else acc).
Proof.
  intros Hok Hs. unfold esp_decrypt_accept. destruct (so_mode _ _ Hok) as [He Ha]. rewrite He, Ha.
  rewrite (check_ok sa acc s Hok Hs).
  destruct (bool_decide _) eqn:Hd; [by exists sa|]. apply bool_decide_eq_false in Hd.
  destruct (integ (seq_hi sa)); cbn [negb andb]; [|by exists sa].
  rewrite Ha, He. eexists. split; [done|]. assert (¬ s ≤ last_seq sa - 64 ∧ s ∉ acc) as [Hw Hin] by tauto.
  pose proof (so_last _ _ Hok) as Hl. pose proof (so_window _ _ Hok) as Hwin. unfold_ranges.
  unfold esp_replay_advance. destruct (Z.gtb_spec s (last_seq sa)) as [Hgt|Hle].
  - split; [done|cbn; unfold_ranges; lia| |by apply NoDup_cons; split; [|apply Hok]].
    cbn [last_seq replay_window set_last_seq set_window]. rewrite u32_small by (unfold_ranges; lia).
    pose proof (window_shift _ _ _ (s - last_seq sa) sa Hwin eq_refl ltac:(lia) ltac:(lia)) as Hw'.
    by replace (last_seq sa + (s - last_seq sa)) with s in Hw' by lia.
  - split; [done|done| |by apply NoDup_cons; split; [|apply Hok]].
    cbn [last_seq replay_window set_window]. rewrite u32_small by (unfold_ranges; lia).
    pose proof (window_mark _ _ _ (last_seq sa - s) sa Hwin eq_refl ltac:(lia) ltac:(lia)) as Hw'.
    by replace (last_seq sa - (last_seq sa - s)) with s in Hw' by lia.
Qed.

Lemma receive_ok pkts : ∀ sa acc, sa_ok sa acc → Forall (λ p, in_u32 p.1) pkts →
  let '(sa', acc') := esp_receive sa pkts acc in sa_ok sa' acc'.
Proof.
  induction pkts as [|[s integ] pkts IH]; intros sa acc Hok Hp; cbn [esp_receive]; [done|].
  apply list.Forall_cons in Hp as [Hs Hp].
  destruct (accept_ok sa acc s integ Hok Hs) as (sa' & -> & Hok'). by apply IH.
Qed.

(** A fresh security association. *)
Definition fresh_sa (esn : bool) : ipsec_sa := Sa esn true 0 0 0 0 0.

Lemma fresh_ok : sa_ok (fresh_sa false) [].
Proof.
  split; [done|cbn; unfold_ranges; lia| |constructor]. split; [cbn; unfold_ranges; lia| |by intros s ?%elem_of_nil].
  intros d Hd. cbn [replay_window fresh_sa]. rewrite Z.bits_0. split; [done|by intros ?%elem_of_nil].
Qed.

(** C34: Anti-replay with 32-bit sequence numbers.  Whatever packets arrive, in whatever order
    and whichever of them pass the integrity check, no number is accepted twice, and at every
    moment a packet is refused by the check exactly when its number was accepted before or lies
    64 or more below the highest accepted. *)
Theorem esp_replay_protection (pkts : list (Z * (Z → bool))) (Hp : Forall (λ p, in_u32 p.1) pkts) :
  let '(sa, acc) := esp_receive (fresh_sa false) pkts [] in
  NoDup acc ∧
  (∀ s, in_u32 s → esp_replay_check sa s = true ↔ s ≤ last_seq sa - ESP_WINDOW_SIZE ∨ s ∈ acc) ∧
  (∀ s, s ∈ acc → s ≤ last_seq sa).
Proof.
  pose proof (receive_ok pkts (fresh_sa false) [] fresh_ok Hp) as Hok.
  destruct (esp_receive (fresh_sa false) pkts []) as [sa acc].
  split; [apply Hok|]. split.
  - intros s Hs. by rewrite (check_ok _ _ _ Hok Hs), bool_decide_eq_true.
  - intros s Hs. by apply (wo_max _ _ _ (so_window _ _ Hok)).
Qed.

Lemma esp_replay_protection_witness :
  let '(sa, acc) := esp_receive (fresh_sa false)
    [(5, λ _, true); (3, λ _, true); (5, λ _, true); (100, λ _, true); (37, λ _, false); (37, λ _, true); (36, λ _, true)] [] in
  acc = [37; 100; 3; 5] ∧ NoDup acc.
Proof.
  pose proof (esp_replay_protection
    [(5, λ _, true); (3, λ _, true); (5, λ _, true); (100, λ _, true); (37, λ _, false); (37, λ _, true); (36, λ _, true)]) as H.
  assert ((esp_receive (fresh_sa false)
    [(5, λ _, true); (3, λ _, true); (5, λ _, true); (100, λ _, true); (37, λ _, false); (37, λ _, true); (36, λ _, true)] []).2 =
    [37; 100; 3; 5]) as Hacc by reflexivity.
  destruct (esp_receive _ _ _) as [sa acc]. cbn [snd] in Hacc. split; [done|].
  apply H. repeat constructor; cbn; unfold_ranges; lia.
Defined.

(** ** 64-bit sequence numbers *)

Definition last64 (sa : ipsec_sa) : Z := last_seq_hi sa * 2 ^ 32 + last_seq sa.
Definition hi32 (s : Z) : Z := s / 2 ^ 32.

Lemma split64 s : s = hi32 s * 2 ^ 32 + u32 s.
Proof. unfold hi32, u32. pose proof (Z.div_mod s (2 ^ 32) ltac:(lia)). lia. Qed.

(** C35: The inference of the high part.  When the true number of a packet lies from 63 below
    the last accepted one up to 2^32 - 64 above it, [esp_replay_check_esn], given its low 32
    bits, sets [seq_hi] to its high part, and drops it exactly when it is not newer than the last and
    its bit of the window is set; nothing else of the association changes. *)
Theorem esp_esn_inference (sa : ipsec_sa) (s : Z)
    (Hl : in_u32 (last_seq sa)) (Hh : in_u32 (last_seq_hi sa))
    (Hs : 0 ≤ s < 2 ^ 64) (Hrange : last64 sa - 63 ≤ s < last64 sa - 63 + 2 ^ 32) :
  esp_replay_check_esn sa (u32 s) =
    (set_seq_hi (hi32 s) sa,
     if s <=? last64 sa then Z.testbit (replay_window sa) (last64 sa - s) else false).
Proof.
  pose proof (split64 s) as Hsplit. pose proof (u32_range s) as Hu.
  unfold esp_replay_check_esn, last64 in *. unfold ESP_WINDOW_SIZE. unfold_ranges.
  set (tl := last_seq sa) in *. set (th := last_seq_hi sa) in *. set (lo := u32 s) in *. set (h := hi32 s) in *.
  clearbody lo h. assert (0 ≤ h) by lia. change (2 ^ 32) with 4294967296 in *.
  destruct (Z.geb_spec tl (64 - 1)) as [Ht|Ht].
  - rewrite (u32_small (tl - 64 + 1)) by (unfold_ranges; lia).
    destruct (Z.geb_spec lo (tl - 64 + 1)) as [Hlo|Hlo].
    + assert (h = th) as -> by lia. f_equal. destruct (Z.leb_spec lo tl).
      * rewrite u32_small, window_bit_testbit, (proj2 (Z.leb_le s (th * 4294967296 + tl))) by (unfold_ranges; cbn [replay_window set_seq_hi]; lia).
        cbn [replay_window set_seq_hi]. f_equal. lia.
      * by rewrite (proj2 (Z.leb_gt _ _)) by lia.
    + assert (h = th + 1) as -> by lia. rewrite (u32_small (th + 1)) by (unfold_ranges; lia).
      by rewrite (proj2 (Z.leb_gt _ _)) by lia.
  - assert (u32 (tl - 64 + 1) = tl - 63 + 4294967296) as ->.
    { unfold u32. change (2 ^ 32) with 4294967296.
      replace (tl - 64 + 1) with (tl - 63 + 4294967296 + -1 * 4294967296) by lia.
      rewrite Z.mod_add, Z.mod_small by lia. done. }
    destruct (Z.geb_spec lo (tl - 63 + 4294967296)) as [Hlo|Hlo].
    + assert (h = th - 1) as -> by lia. rewrite (u32_small (th - 1)) by (unfold_ranges; lia). f_equal.
      assert (u32 (tl - lo) = tl - lo + 4294967296) as ->.
      { unfold u32. change (2 ^ 32) with 4294967296.
        replace (tl - lo) with (tl - lo + 4294967296 + -1 * 4294967296) at 1 by lia.
        rewrite Z.mod_add, Z.mod_small by lia. done. }
      rewrite window_bit_testbit, (proj2 (Z.leb_le _ _)) by lia. cbn [replay_window set_seq_hi]. f_equal. lia.
    + assert (h = th) as -> by lia. f_equal. destruct (Z.leb_spec lo tl).
      * rewrite u32_small, window_bit_testbit, (proj2 (Z.leb_le s (th * 4294967296 + tl))) by (unfold_ranges; cbn [replay_window set_seq_hi]; lia).
        cbn [replay_window set_seq_hi]. f_equal. lia.
      * by rewrite (proj2 (Z.leb_gt _ _)) by lia.
Qed.

Lemma esp_esn_inference_witness :
  esp_replay_check_esn (Sa true true 0 0 10 3 1) (u32 (3 * 2 ^ 32 - 20)) =
    (set_seq_hi 2 (Sa true true 0 0 10 3 1), false).
Proof.
  rewrite (esp_esn_inference (Sa true true 0 0 10 3 1) (3 * 2 ^ 32 - 20)).
  - reflexivity.
  - cbn. unfold_ranges. lia.
  - cbn. unfold_ranges. lia.
  - lia.
  - unfold last64. cbn [last_seq last_seq_hi]. lia.
Defined.

Lemma replay_window_set_seq_hi h sa : replay_window (set_seq_hi h sa) = replay_window sa.
Proof. done. Qed.

(** Extended sequence numbers forget the window when the low part wraps.  The
    receiver has just accepted the number with low part [tl], close to the end of the range, and the
    next packet accepted, less than 64 numbers later, has wrapped.  A replay of the first packet,
    which is still inside of the window, passes the check, with its right high part. *)
Theorem esp_esn_wrap_admits_replay (sa : ipsec_sa) (tl th s : Z)
    (Hmode : use_esn sa = true ∧ use_anti_replay sa = true)
    (Hlast : last_seq sa = tl ∧ last_seq_hi sa = th)
    (Hth : 0 ≤ th < 2 ^ 32 - 1) (Hs : 0 ≤ s) (Hclose : 2 ^ 32 + s - 64 < tl < 2 ^ 32)
    (Hseen : Z.testbit (replay_window sa) 0 = true) :
  esp_decrypt_accept sa tl (λ _, true) = (set_seq_hi th sa, false) ∧
  ∃ sa', esp_decrypt_accept sa s (λ h, h =? th + 1) = (sa', true) ∧
    last64 sa' = (th + 1) * 2 ^ 32 + s ∧ last64 sa' - 64 < th * 2 ^ 32 + tl ∧
    (esp_decrypt_accept sa' tl (λ h, h =? th)).2 = true.
Proof.
  destruct Hmode as [He Ha], Hlast as [Hl Hh]. unfold esp_decrypt_accept at 1 2. rewrite He, Ha.
  assert (esp_replay_check_esn sa tl = (set_seq_hi th sa, true)) as ->.
  { unfold esp_replay_check_esn, ESP_WINDOW_SIZE. rewrite Hl, Hh.
    destruct (Z.geb_spec tl (64 - 1)); [|lia]. rewrite u32_small by (unfold_ranges; lia).
    destruct (Z.geb_spec tl (tl - 64 + 1)); [|lia]. rewrite Z.leb_refl, Z.sub_diag.
    change (u32 0) with 0. rewrite window_bit_testbit by lia. by rewrite replay_window_set_seq_hi, Hseen. }
  split; [done|].
  assert (esp_replay_check_esn sa s = (set_seq_hi (th + 1) sa, false)) as ->.
  { unfold esp_replay_check_esn, ESP_WINDOW_SIZE. rewrite Hl, Hh.
    destruct (Z.geb_spec tl (64 - 1)); [|lia]. rewrite u32_small by (unfold_ranges; lia).
    destruct (Z.geb_spec s (tl - 64 + 1)); [lia|]. by rewrite u32_small by (unfold_ranges; lia). }
  cbn [seq_hi set_seq_hi use_anti_replay use_esn]. rewrite He, Ha, Z.eqb_refl. cbn [negb].
  set (sa1 := set_seq_hi (th + 1) sa).
  assert (esp_replay_advance_esn sa1 s =
    set_last_seq_hi (th + 1) (set_last_seq s (set_window 1 sa1))) as ->.
  { unfold esp_replay_advance_esn. change (seq_hi sa1) with (th + 1). change (last_seq_hi sa1) with (last_seq_hi sa).
    change (last_seq sa1) with (last_seq sa). rewrite Hh, Hl. replace (th + 1 - th) with 1 by lia.
    change (i32 1) with 1. cbn [Z.eqb Z.gtb Z.compare andb]. unfold shift_window, ESP_WINDOW_SIZE, u32_max.
    replace (2 ^ 32 - 1 - s + tl + 1) with (tl - s + 1 * 2 ^ 32) by lia.
    unfold u32. rewrite Z.mod_add, Z.mod_small by lia.
    rewrite (proj2 (Z.ltb_ge _ _)) by lia. done. }
  set (sa2 := set_last_seq_hi _ _). exists sa2. split; [done|].
  assert (last64 sa2 = (th + 1) * 2 ^ 32 + s) as Hl2 by done.
  split; [done|]. split; [lia|].
  unfold esp_decrypt_accept. change (use_anti_replay sa2) with (use_anti_replay sa).
  change (use_esn sa2) with (use_esn sa). rewrite He, Ha.
  assert (esp_replay_check_esn sa2 tl = (set_seq_hi th sa2, false)) as ->.
  { unfold esp_replay_check_esn, ESP_WINDOW_SIZE. change (last_seq sa2) with s. change (last_seq_hi sa2) with (th + 1).
    destruct (Z.geb_spec s (64 - 1)); [lia|].
    assert (u32 (s - 64 + 1) = s - 63 + 2 ^ 32) as ->.
    { unfold u32. replace (s - 64 + 1) with (s - 63 + 2 ^ 32 + -1 * 2 ^ 32) by lia.
      rewrite Z.mod_add, Z.mod_small by lia. done. }
    destruct (Z.geb_spec tl (s - 63 + 2 ^ 32)); [|lia].
    rewrite (u32_small (th + 1 - 1)) by (unfold_ranges; lia). replace (th + 1 - 1) with th by lia. f_equal.
    assert (u32 (s - tl) = s - tl + 2 ^ 32) as ->.
    { unfold u32. replace (s - tl) with (s - tl + 2 ^ 32 + -1 * 2 ^ 32) at 1 by lia.
      rewrite Z.mod_add, Z.mod_small by lia. done. }
    rewrite window_bit_testbit by lia. change (replay_window (set_seq_hi th sa2)) with 1.
    change 1 with (2 ^ 0). rewrite testbit_pow2 by lia. apply Z.eqb_neq. lia. }
  cbn [seq_hi set_seq_hi use_anti_replay]. change (use_anti_replay sa2) with (use_anti_replay sa).
  by rewrite Ha, Z.eqb_refl.
Qed.

Lemma esp_esn_wrap_admits_replay_witness :
  ∃ sa', esp_decrypt_accept (Sa true true 0 0 (2 ^ 32 - 3) 7 1) 5 (λ h, h =? 8) = (sa', true) ∧
    (esp_decrypt_accept sa' (2 ^ 32 - 3) (λ h, h =? 7)).2 = true.
Proof.
  destruct (esp_esn_wrap_admits_replay (Sa true true 0 0 (2 ^ 32 - 3) 7 1) (2 ^ 32 - 3) 7 5)
    as (_ & sa' & H1 & _ & _ & H2); [done|done|lia|lia|lia|done|]. by exists sa'.
Defined.

(** ** The sender *)

Definition next64 (sa : ipsec_sa) : Z := if use_esn sa then seq_hi sa * 2 ^ 32 + seq sa else seq sa.
Definition seq_bound (sa : ipsec_sa) : Z := if use_esn sa then 2 ^ 64 else 2 ^ 32.

(** The sender of an association with anti-replay numbers its packets without repetition:
    each call adds one to the number, 64 bits wide with extended sequence numbers and 32 without, until
    it is the largest; from then on every call reports that the counter has cycled and changes
    nothing. *)
Theorem esp_seq_advance_spec (sa : ipsec_sa) (Hs : in_u32 (seq sa)) (Hh : in_u32 (seq_hi sa))
    (Ha : use_anti_replay sa = true) :
  let '(sa', cycled) := esp_seq_advance sa in
  cycled = bool_decide (next64 sa = seq_bound sa - 1) ∧
  (if cycled then sa' = sa else next64 sa' = next64 sa + 1) ∧
  in_u32 (seq sa') ∧ in_u32 (seq_hi sa') ∧ use_anti_replay sa' = true ∧ use_esn sa' = use_esn sa.
Proof.
  unfold esp_seq_advance, next64, seq_bound, ESP_SEQ_MAX. unfold_ranges. rewrite Ha.
  destruct (use_esn sa) eqn:He; cbn [andb].
  - destruct (Z.eqb_spec (seq sa) 4294967295) as [E|E]; [destruct (Z.eqb_spec (seq_hi sa) 4294967295) as [E'|E']|].
    + rewrite E, E'. split; [done|]. split_and!; done || lia.
    + split; [symmetry; apply bool_decide_eq_false; lia|].
      cbn [use_esn use_anti_replay seq seq_hi set_seq set_seq_hi]. rewrite He, E.
      change (u32 (4294967295 + 1)) with 0. rewrite u32_small by (unfold_ranges; lia). split_and!; done || lia.
    + split; [symmetry; apply bool_decide_eq_false; lia|].
      cbn [use_esn use_anti_replay seq seq_hi set_seq]. rewrite He, u32_small by (unfold_ranges; lia).
      split_and!; done || lia.
  - destruct (Z.eqb_spec (seq sa) 4294967295) as [E|E].
    + rewrite E. split_and!; done || lia.
    + split; [symmetry; apply bool_decide_eq_false; lia|].
      cbn [use_esn use_anti_replay seq seq_hi set_seq]. rewrite He, u32_small by (unfold_ranges; lia).
      split_and!; done || lia.
Qed.

Lemma esp_seq_advance_spec_witness :
  let '(sa', cycled) := esp_seq_advance (Sa true true (2 ^ 32 - 1) 4 0 0 0) in
  cycled = false ∧ next64 sa' = 5 * 2 ^ 32.
Proof.
  pose proof (esp_seq_advance_spec (Sa true true (2 ^ 32 - 1) 4 0 0 0)) as H.
  destruct (esp_seq_advance _) as [sa' cycled] eqn:E.
  destruct H as (-> & Hn & _); [cbn; unfold_ranges; lia..|done|]. split; [done|exact Hn].
Defined.
End Esp.
