(* ===== verification/Policer.v ===== *)
(** * Policers (vnet/policer/police.h, xlate.c)

    The token buckets of the data plane, and the conversion of a configuration into the format
    of the policer: the checks, the rounding, the mantissa and exponent of rates and bursts, and
    back.  A configuration holds its rates and bursts in a union of two structures of the same layout,
    here the one record [rate_burst].  [compute_policer_params] computes in floating
    point and is a parameter. *)

From S2P Require Import Prelude.

Module Pol.

(** ** The data plane *)

Inductive policer_result := POLICE_CONFORM | POLICE_EXCEED | POLICE_VIOLATE.

#[export] Instance policer_result_eq_dec : EqDecision policer_result.
Proof. solve_decision. Defined.

Record policer := Policer_ {
  single_rate : bool;
  color_aware : bool;
  scale : Z;
  action : list Z;
  mark_dscp : list Z;
  cir_tokens_per_period : Z;
  pir_tokens_per_period : Z;
  current_limit : Z;
  current_bucket : Z;
  extended_limit : Z;
  extended_bucket : Z;
  last_update_time : Z;
}.

Definition set_buckets (c e time : Z) (p : policer) : policer :=
  Policer_ (single_rate p) (color_aware p) (scale p) (action p) (mark_dscp p) (cir_tokens_per_period p)
    (pir_tokens_per_period p) (current_limit p) c (extended_limit p) e time.

Definition is_color (a b : policer_result) : bool := bool_decide (a = b).

(** The [u64] tokens of a bucket, cut to its limit. *)
Definition tokens (bucket n_periods per_period limit : Z) : Z :=
  let t := u64 (bucket + u64 (n_periods * per_period)) in
  if t >? limit then limit else t.

Definition vnet_police_packet (p : policer) (packet_length : Z) (packet_color : policer_result) (time : Z)
    : policer * policer_result :=
  let packet_length := u32 (Z.shiftl packet_length (scale p)) in
  let n_periods := u64 (time - last_update_time p) in
  if single_rate p then
    let current_tokens := tokens (current_bucket p) n_periods (cir_tokens_per_period p) (current_limit p) in
    let extended_tokens := tokens (extended_bucket p) n_periods (cir_tokens_per_period p) (extended_limit p) in
    if (negb (color_aware p) || is_color packet_color POLICE_CONFORM) && (current_tokens >=? packet_length) then
      (set_buckets (u32 (current_tokens - packet_length)) (u32 (extended_tokens - packet_length)) time p,
       POLICE_CONFORM)
    else if (negb (color_aware p) || negb (is_color packet_color POLICE_VIOLATE))
            && (extended_tokens >=? packet_length) then
      (set_buckets (u32 current_tokens) (u32 (extended_tokens - packet_length)) time p, POLICE_EXCEED)
    else (set_buckets (u32 current_tokens) (u32 extended_tokens) time p, POLICE_VIOLATE)
  else
    let current_tokens := tokens (current_bucket p) n_periods (cir_tokens_per_period p) (current_limit p) in
    let extended_tokens := tokens (extended_bucket p) n_periods (pir_tokens_per_period p) (extended_limit p) in
    if (color_aware p && is_color packet_color POLICE_VIOLATE) || (extended_tokens <? packet_length) then
      (set_buckets (u32 current_tokens) (u32 extended_tokens) time p, POLICE_VIOLATE)
    else if (color_aware p && is_color packet_color POLICE_EXCEED) || (current_tokens <? packet_length) then
      (set_buckets (u32 current_tokens) (u32 (extended_tokens - packet_length)) time p, POLICE_EXCEED)
    else
      (set_buckets (u32 (current_tokens - packet_length)) (u32 (extended_tokens - packet_length)) time p,
       POLICE_CONFORM).

(** ** Configuration *)

Definition SSE2_QOS_POLICER_TYPE_1R2C : Z := 0.
Definition SSE2_QOS_POLICER_TYPE_1R3C_RFC_2697 : Z := 1.
Definition SSE2_QOS_POLICER_TYPE_2R3C_RFC_2698 : Z := 2.
Definition SSE2_QOS_POLICER_TYPE_2R3C_RFC_4115 : Z := 3.
Definition SSE2_QOS_POLICER_TYPE_2R3C_RFC_MEF5CF1 : Z := 4.

Definition SSE2_QOS_ROUND_TO_CLOSEST : Z := 0.
Definition SSE2_QOS_ROUND_TO_UP : Z := 1.
Definition SSE2_QOS_ROUND_TO_DOWN : Z := 2.

Definition SSE2_QOS_RATE_KBPS : Z := 0.
Definition SSE2_QOS_RATE_PPS : Z := 1.

Definition IPE_RFC_RFC2697 : Z := 0.
Definition IPE_RFC_RFC2698 : Z := 1.
Definition IPE_RFC_RFC4115 : Z := 2.
Definition IPE_RFC_MEF5CF1 : Z := 3.

Record rate_burst := RB { cir_kbps : Z; eir_kbps : Z; cb_bytes : Z; eb_bytes : Z }.

Record action_params := Action { action_type : Z; dscp : Z }.

Record cfg_params := Cfg {
  rb : rate_burst;
  rate_type : Z;
  rnd_type : Z;
  rfc : Z;
  cfg_color_aware : bool;
  overwrite_bucket : bool;
  cfg_current_bucket : Z;
  cfg_extended_bucket : Z;
  conform_action : action_params;
  exceed_action : action_params;
  violate_action : action_params;
}.

Record hw_params := Hw {
  hw_rfc : Z;
  allow_negative : Z;
  rate_exp : Z;
  avg_rate_man : Z;
  peak_rate_man : Z;
  comm_bkt_limit_exp : Z;
  comm_bkt_limit_man : Z;
  extd_bkt_limit_exp : Z;
  extd_bkt_limit_man : Z;
  comm_bkt : Z;
  extd_bkt : Z;
}.

Definition SSE2_QOS_POL_TICKS_PER_SEC : Z := 1000.
Definition SSE2_QOS_POL_DEF_BURST_BYTE : Z := 100.
Definition SSE2_QOS_POL_MIN_BURST_BYTE : Z := 9 * 1024.
Definition SSE2_QOS_POL_ALLOW_NEGATIVE : Z := 1.
Definition SSE2_QOS_POLICER_FIXED_PKT_SIZE : Z := 256.

(** [1 << 31] of an [int] converted to [u32]. *)
Definition SSE2_QOS_POL_COMM_BKT_MAX : Z := Z.shiftl 1 31.
Definition SSE2_QOS_POL_EXTD_BKT_MAX : Z := Z.shiftl 1 31.
Definition SSE2_QOS_POL_RATE_EXP_MAX : Z := Z.shiftl 1 4 - 1.
Definition SSE2_QOS_POL_AVG_RATE_MANT_MAX : Z := Z.shiftl 1 11 - 1.
Definition SSE2_QOS_POL_AVG_RATE_MAX : Z := Z.shiftl SSE2_QOS_POL_AVG_RATE_MANT_MAX SSE2_QOS_POL_RATE_EXP_MAX.
Definition SSE2_QOS_POL_PEAK_RATE_MAX : Z := Z.shiftl (Z.shiftl 1 11 - 1) SSE2_QOS_POL_RATE_EXP_MAX.
Definition SSE2_QOS_POL_COMM_BKT_LIMIT_MANT_MAX : Z := Z.shiftl 1 7 - 1.
Definition SSE2_QOS_POL_COMM_BKT_LIMIT_EXP_MAX : Z := Z.shiftl 1 5 - 1.
Definition SSE2_QOS_POL_EXTD_BKT_LIMIT_MANT_MAX : Z := Z.shiftl 1 7 - 1.
Definition SSE2_QOS_POL_EXTD_BKT_LIMIT_EXP_MAX : Z := Z.shiftl 1 5 - 1.

Definition RATE256 : Z := 256114688000 / 8 / SSE2_QOS_POL_TICKS_PER_SEC.
Definition RATE128 : Z := 128057344000 / 8 / SSE2_QOS_POL_TICKS_PER_SEC.
Definition RATE64 : Z := 64028672000 / 8 / SSE2_QOS_POL_TICKS_PER_SEC.
Definition RATE_OVER256_UNIT : Z := 8.
Definition RATE_128TO256_UNIT : Z := 4.
Definition RATE_64TO128_UNIT : Z := 2.

(** [None] is the error [EINVAL]. *)
Definition sse2_qos_pol_round (numerator denominator round_type : Z) : option Z :=
  if denominator =? 0 then None
  else if round_type =? SSE2_QOS_ROUND_TO_CLOSEST then
    Some (u64 (numerator + Z.shiftr denominator 1) / denominator)
  else if round_type =? SSE2_QOS_ROUND_TO_UP then
    let rounded_value := numerator / denominator in
    Some (if u64 (rounded_value * denominator) <? numerator then u64 (rounded_value + 1) else rounded_value)
  else if round_type =? SSE2_QOS_ROUND_TO_DOWN then Some (numerator / denominator)
  else None.

Definition KBPS_DENOM : Z := u64 (8 * SSE2_QOS_POL_TICKS_PER_SEC) / 1000.

Definition sse2_pol_validate_cfg_params (cfg : cfg_params) : option () :=
  if (rfc cfg =? SSE2_QOS_POLICER_TYPE_2R3C_RFC_2698) && (eir_kbps (rb cfg) <? cir_kbps (rb cfg)) then None
  else
    cir_hw ← sse2_qos_pol_round (cir_kbps (rb cfg)) KBPS_DENOM (rnd_type cfg);
    let cir_hw := u32 cir_hw in
    eir_hw ← sse2_qos_pol_round (eir_kbps (rb cfg)) KBPS_DENOM (rnd_type cfg);
    let eir_hw := u32 eir_hw in
    if cir_hw >? SSE2_QOS_POL_AVG_RATE_MAX then None
    else if eir_hw >? SSE2_QOS_POL_PEAK_RATE_MAX then None
    else if (cir_kbps (rb cfg) =? 0) && negb (cb_bytes (rb cfg) =? 0) then None
    else if (eir_kbps (rb cfg) =? 0) && (rfc cfg >? SSE2_QOS_POLICER_TYPE_1R3C_RFC_2697) then None
    else if negb (eir_kbps (rb cfg) =? 0) && (rfc cfg <? SSE2_QOS_POLICER_TYPE_2R3C_RFC_2698) then None
    else if (rfc cfg =? SSE2_QOS_POLICER_TYPE_1R2C) && negb (eb_bytes (rb cfg) =? 0) then None
    else Some ().

(** The loop over the exponents: the exponent after it, which is one more than the largest when
    none fits, and the mantissa.  A shift [1 << 31] of an [int] is negative. *)
Fixpoint exp_mant_loop (fuel : nat) (value max_exp_value max_mant_value type temp_exp temp_mant : Z)
    : option (Z * Z) :=
  match fuel with
  | O => None
  | S fuel =>
      if temp_exp <=? max_exp_value then
        if temp_mant <=? max_mant_value then Some (temp_exp, temp_mant)
        else
          let temp_exp := u8 (temp_exp + 1) in
          let rnd_value := default 0 (sse2_qos_pol_round value (u64 (i32 (Z.shiftl 1 temp_exp))) type) in
          exp_mant_loop fuel value max_exp_value max_mant_value type temp_exp rnd_value
      else Some (temp_exp, temp_mant)
  end.

(** The exponents of the callers are at most 31. *)
Definition exp_mant_fuel : nat := 34.

Definition sse2_qos_convert_value_to_exp_mant_fmt (value max_exp_value max_mant_value type : Z)
    : option (Z * Z) :=
  '(temp_exp, temp_mant) ← exp_mant_loop exp_mant_fuel value max_exp_value max_mant_value type 0 value;
  if temp_exp >? max_exp_value then Some (u8 (temp_exp - 1), u32 max_mant_value)
  else Some (temp_exp, u32 temp_mant).

Definition set_rates (r an e a p : Z) (hw : hw_params) : hw_params :=
  Hw r an e a p (comm_bkt_limit_exp hw) (comm_bkt_limit_man hw) (extd_bkt_limit_exp hw) (extd_bkt_limit_man hw)
    (comm_bkt hw) (extd_bkt hw).

(** The excess rate that the policer type makes of the configured one. *)
Definition excess_rate (cfg : cfg_params) : Z :=
  if rfc cfg =? SSE2_QOS_POLICER_TYPE_1R2C then 0
  else if rfc cfg =? SSE2_QOS_POLICER_TYPE_1R3C_RFC_2697 then cir_kbps (rb cfg)
  else if rfc cfg =? SSE2_QOS_POLICER_TYPE_2R3C_RFC_4115 then u32 (eir_kbps (rb cfg) - cir_kbps (rb cfg))
  else eir_kbps (rb cfg).

Definition sse2_pol_convert_cfg_rates_to_hw (cfg : cfg_params) (hw : hw_params) : option hw_params :=
  cir_hw ← sse2_qos_pol_round (cir_kbps (rb cfg)) KBPS_DENOM (rnd_type cfg);
  let cir_hw := u32 cir_hw in
  let cir_hw := if negb (cir_kbps (rb cfg) =? 0) && (cir_hw =? 0) then 1 else cir_hw in
  let eir_kbps := excess_rate cfg in
  eir_hw ← sse2_qos_pol_round eir_kbps KBPS_DENOM (rnd_type cfg);
  let eir_hw := u32 eir_hw in
  let eir_hw := if negb (eir_kbps =? 0) && (eir_hw =? 0) then 1 else eir_hw in
  let hi_rate := if cir_hw >? eir_hw then cir_hw else eir_hw in
  '(exp, hi_mant, r, an) ←
    (if (cir_hw =? 0) && (eir_hw =? 0) then Some (u8 SSE2_QOS_POL_RATE_EXP_MAX, 0, IPE_RFC_RFC4115, 0)
     else
       '(exp, hi_mant) ← sse2_qos_convert_value_to_exp_mant_fmt hi_rate SSE2_QOS_POL_RATE_EXP_MAX
                           SSE2_QOS_POL_AVG_RATE_MANT_MAX (rnd_type cfg);
       Some (exp, hi_mant, hw_rfc hw, allow_negative hw));
  let denom := u64 (Z.shiftl 1 exp) in
  '(avg, peak) ←
    (if hi_rate =? eir_hw then
       v ← sse2_qos_pol_round cir_hw denom (rnd_type cfg); Some (u16 v, u16 hi_mant)
     else
       v ← sse2_qos_pol_round eir_hw denom (rnd_type cfg); Some (u16 hi_mant, u16 v));
  let avg := if (avg =? 0) && negb (cir_kbps (rb cfg) =? 0) then 1 else avg in
  let peak := if (peak =? 0) && negb (eir_kbps =? 0) then 1 else peak in
  Some (set_rates r an exp avg peak hw).

Definition sse2_pol_get_bkt_max (rate_hw bkt_max : Z) : Z :=
  if rate_hw <=? RATE64 then u64 (bkt_max - 1)
  else if rate_hw <=? RATE128 then u64 (u64 (bkt_max * RATE_64TO128_UNIT) - RATE_64TO128_UNIT)
  else if rate_hw <=? RATE256 then u64 (u64 (bkt_max * RATE_128TO256_UNIT) - RATE_128TO256_UNIT)
  else u64 (u64 (bkt_max * RATE_OVER256_UNIT) - RATE_OVER256_UNIT).

Definition sse2_pol_get_bkt_value (rate_hw byte_value : Z) : Z :=
  if rate_hw <=? RATE64 then byte_value
  else if rate_hw <=? RATE128 then byte_value / RATE_64TO128_UNIT
  else if rate_hw <=? RATE256 then byte_value / RATE_128TO256_UNIT
  else byte_value / RATE_OVER256_UNIT.

(** The exponent, the mantissa and the bucket value of a burst. *)
Definition sse2_pol_rnd_burst_byte_fmt (cfg_burst max_exp_value max_mant_value max_bkt_value rate_hw : Z)
    : option (Z * Z * Z) :=
  let bkt_limit_max := u64 (Z.shiftl max_mant_value max_exp_value) in
  let bkt_max := sse2_pol_get_bkt_max rate_hw max_bkt_value in
  let bkt_max := Z.min bkt_max bkt_limit_max in
  let cfg_burst := if cfg_burst =? 0 then u64 (rate_hw * SSE2_QOS_POL_DEF_BURST_BYTE) else cfg_burst in
  let cfg_burst := if cfg_burst >? bkt_max then bkt_max else cfg_burst in
  let cfg_burst := if cfg_burst <? SSE2_QOS_POL_MIN_BURST_BYTE then SSE2_QOS_POL_MIN_BURST_BYTE else cfg_burst in
  '(exp, mant) ← sse2_qos_convert_value_to_exp_mant_fmt cfg_burst max_exp_value max_mant_value SSE2_QOS_ROUND_TO_DOWN;
  let rnd_burst := u64 (Z.shiftl mant exp) in
  Some (exp, mant, u32 (sse2_pol_get_bkt_value rate_hw rnd_burst)).

Definition set_comm (e m b : Z) (hw : hw_params) : hw_params :=
  Hw (hw_rfc hw) (allow_negative hw) (rate_exp hw) (avg_rate_man hw) (peak_rate_man hw) e m
    (extd_bkt_limit_exp hw) (extd_bkt_limit_man hw) b (extd_bkt hw).
Definition set_extd (e m b : Z) (hw : hw_params) : hw_params :=
  Hw (hw_rfc hw) (allow_negative hw) (rate_exp hw) (avg_rate_man hw) (peak_rate_man hw)
    (comm_bkt_limit_exp hw) (comm_bkt_limit_man hw) e m (comm_bkt hw) b.

(** The excess burst that the policer type makes of the configured one. *)
Definition excess_burst (cfg : cfg_params) : Z :=
  if rfc cfg =? SSE2_QOS_POLICER_TYPE_1R3C_RFC_2697 then u64 (cb_bytes (rb cfg) + eb_bytes (rb cfg))
  else if rfc cfg =? SSE2_QOS_POLICER_TYPE_2R3C_RFC_4115 then u64 (eb_bytes (rb cfg) - cb_bytes (rb cfg))
  else eb_bytes (rb cfg).

Definition sse2_pol_convert_cfg_burst_to_hw (cfg : cfg_params) (hw : hw_params) : option hw_params :=
  let rate_hw := u32 (Z.shiftl (avg_rate_man hw) (rate_exp hw)) in
  '(e, m, b) ← sse2_pol_rnd_burst_byte_fmt (cb_bytes (rb cfg)) SSE2_QOS_POL_COMM_BKT_LIMIT_EXP_MAX
                 SSE2_QOS_POL_COMM_BKT_LIMIT_MANT_MAX SSE2_QOS_POL_COMM_BKT_MAX rate_hw;
  let hw := set_comm e (u8 m) b hw in
  if rfc cfg =? SSE2_QOS_POLICER_TYPE_1R2C then
    Some (set_extd (u8 SSE2_QOS_POL_EXTD_BKT_LIMIT_EXP_MAX) 0 (extd_bkt hw) hw)
  else
    let rate_hw := u32 (Z.shiftl (peak_rate_man hw) (rate_exp hw)) in
    '(e, m, b) ← sse2_pol_rnd_burst_byte_fmt (excess_burst cfg) SSE2_QOS_POL_EXTD_BKT_LIMIT_EXP_MAX
                   SSE2_QOS_POL_EXTD_BKT_LIMIT_MANT_MAX SSE2_QOS_POL_EXTD_BKT_MAX rate_hw;
    Some (set_extd (u8 e) (u8 m) b hw).

Definition sse2_pol_convert_cfg_to_hw_params (cfg : cfg_params) : option hw_params :=
  r ← (if (rfc cfg =? SSE2_QOS_POLICER_TYPE_1R2C) || (rfc cfg =? SSE2_QOS_POLICER_TYPE_2R3C_RFC_4115)
       then Some IPE_RFC_RFC4115
       else if rfc cfg =? SSE2_QOS_POLICER_TYPE_1R3C_RFC_2697 then Some IPE_RFC_RFC2697
       else if rfc cfg =? SSE2_QOS_POLICER_TYPE_2R3C_RFC_2698 then Some IPE_RFC_RFC2698
       else if rfc cfg =? SSE2_QOS_POLICER_TYPE_2R3C_RFC_MEF5CF1 then Some IPE_RFC_MEF5CF1
       else None);
  let hw := Hw r SSE2_QOS_POL_ALLOW_NEGATIVE 0 0 0 0 0 0 0 0 0 in
  hw ← sse2_pol_convert_cfg_rates_to_hw cfg hw;
  sse2_pol_convert_cfg_burst_to_hw cfg hw.

Definition sse2_pol_compute_hw_params (cfg : cfg_params) : option hw_params :=
  _ ← sse2_pol_validate_cfg_params cfg; sse2_pol_convert_cfg_to_hw_params cfg.

(** ** Units *)

Definition sse2_qos_convert_pps_to_kbps (rate_pps : Z) : Z :=
  let numer := u64 (rate_pps * SSE2_QOS_POLICER_FIXED_PKT_SIZE * 8) in
  u32 (default 0 (sse2_qos_pol_round numer 1000 SSE2_QOS_ROUND_TO_CLOSEST)).

Definition sse2_qos_convert_burst_ms_to_bytes (burst_ms rate_kbps : Z) : Z :=
  let numer := u64 (burst_ms * rate_kbps) in
  u32 (default 0 (sse2_qos_pol_round numer 8 SSE2_QOS_ROUND_TO_CLOSEST)).

Definition sse2_qos_convert_kbps_to_pps (rate_kbps : Z) : Z :=
  let numer := u64 (rate_kbps * 1000) in
  let denom := u64 (SSE2_QOS_POLICER_FIXED_PKT_SIZE * 8) in
  u32 (default 0 (sse2_qos_pol_round numer denom SSE2_QOS_ROUND_TO_CLOSEST)).

Definition sse2_qos_convert_burst_bytes_to_ms (burst_bytes rate_kbps : Z) : Z :=
  let numer := u64 (burst_bytes * 8) in
  u32 (default 0 (sse2_qos_pol_round numer rate_kbps SSE2_QOS_ROUND_TO_CLOSEST)).

(** ** Back to a configuration *)

Definition sse2_pol_convert_hw_to_cfg_params (hw : hw_params) (cfg : cfg_params) : option cfg_params :=
  r ← (if (hw_rfc hw =? IPE_RFC_RFC4115) && (u32 (Z.shiftl (peak_rate_man hw) (rate_exp hw)) =? 0)
          && (extd_bkt_limit_man hw =? 0)
       then Some SSE2_QOS_POLICER_TYPE_1R2C
       else if hw_rfc hw =? IPE_RFC_RFC2697 then Some SSE2_QOS_POLICER_TYPE_1R3C_RFC_2697
       else if hw_rfc hw =? IPE_RFC_RFC2698 then Some SSE2_QOS_POLICER_TYPE_2R3C_RFC_2698
       else if hw_rfc hw =? IPE_RFC_RFC4115 then Some SSE2_QOS_POLICER_TYPE_2R3C_RFC_4115
       else if hw_rfc hw =? IPE_RFC_MEF5CF1 then Some SSE2_QOS_POLICER_TYPE_2R3C_RFC_MEF5CF1
       else None);
  let cir := u32 (u64 (u64 (u64 (Z.shiftl (avg_rate_man hw) (rate_exp hw)) * 8) * SSE2_QOS_POL_TICKS_PER_SEC) / 1000) in
  let eir := u32 (u64 (u64 (u64 (Z.shiftl (peak_rate_man hw) (rate_exp hw)) * 8) * SSE2_QOS_POL_TICKS_PER_SEC) / 1000) in
  let cb := u64 (Z.shiftl (comm_bkt_limit_man hw) (comm_bkt_limit_exp hw)) in
  let eb := u64 (Z.shiftl (extd_bkt_limit_man hw) (extd_bkt_limit_exp hw)) in
  let '(eir, eb) :=
    if r =? SSE2_QOS_POLICER_TYPE_1R3C_RFC_2697 then (0, u64 (eb - cb))
    else if r =? SSE2_QOS_POLICER_TYPE_2R3C_RFC_4115 then (u32 (eir + cir), u64 (eb + cb))
    else (eir, eb) in
  Some (Cfg (RB cir eir cb eb) SSE2_QOS_RATE_KBPS (rnd_type cfg) r (cfg_color_aware cfg) false (comm_bkt hw) (extd_bkt hw)
          (conform_action cfg) (exceed_action cfg) (violate_action cfg)).

(** ** The policer of the data plane *)

(** [compute_policer_params], from the rates in bytes per second and the two limits: the
    limits, the tokens per period of the two rates, and the scale. *)
Definition policer_params : Type := Z → Z → Z → Z → option (Z * Z * Z * Z * Z).

Definition BYTES_PER_KBIT : Z := 1000 / 8.

Definition set_params (s : bool) (cl el cir pir sc : Z) (p : policer) : policer :=
  Policer_ s (color_aware p) sc (action p) (mark_dscp p) cir pir cl (current_bucket p) el (extended_bucket p)
    (last_update_time p).

Definition x86_pol_compute_hw_params (compute_policer_params : policer_params) (cfg : cfg_params) (hw : policer)
    : option policer :=
  let hw := set_buckets (current_bucket hw) (extended_bucket hw) 0 hw in
  let cb := if cb_bytes (rb cfg) >? u32_max then u32_max else cb_bytes (rb cfg) in
  let eb := if eb_bytes (rb cfg) >? u32_max then u32_max else eb_bytes (rb cfg) in
  let hw := set_params (single_rate hw) cb eb (cir_tokens_per_period hw) (pir_tokens_per_period hw) (scale hw) hw in
  if (cir_kbps (rb cfg) =? 0) && (cb_bytes (rb cfg) =? 0) && (eb_bytes (rb cfg) =? 0) then
    Some (set_params true cb eb 0 (pir_tokens_per_period hw) (scale hw) hw)
  else if (rfc cfg =? SSE2_QOS_POLICER_TYPE_1R2C) || (rfc cfg =? SSE2_QOS_POLICER_TYPE_1R3C_RFC_2697) then
    if (rfc cfg =? SSE2_QOS_POLICER_TYPE_1R2C) && negb (eb_bytes (rb cfg) =? 0) then None
    else if (cir_kbps (rb cfg) =? 0) || negb (eir_kbps (rb cfg) =? 0)
            || ((cb_bytes (rb cfg) =? 0) && (eb_bytes (rb cfg) =? 0)) then None
    else
      '(cl, el, cir, pir, sc) ← compute_policer_params (u64 (cir_kbps (rb cfg) * BYTES_PER_KBIT)) 0 cb eb;
      Some (set_buckets cl el 0 (set_params true cl el cir pir sc hw))
  else if (rfc cfg =? SSE2_QOS_POLICER_TYPE_2R3C_RFC_2698) || (rfc cfg =? SSE2_QOS_POLICER_TYPE_2R3C_RFC_4115) then
    if (cir_kbps (rb cfg) =? 0) || (eir_kbps (rb cfg) =? 0) || (eir_kbps (rb cfg) <? cir_kbps (rb cfg))
       || (cb_bytes (rb cfg) =? 0) || (eb_bytes (rb cfg) =? 0) then None
    else
      '(cl, el, cir, pir, sc) ← compute_policer_params (u64 (cir_kbps (rb cfg) * BYTES_PER_KBIT))
                                  (u64 (eir_kbps (rb cfg) * BYTES_PER_KBIT)) cb eb;
      Some (set_buckets cl el 0 (set_params false cl el cir pir sc hw))
  else None.

Definition sse2_pol_logical_2_physical (compute_policer_params : policer_params) (cfg : cfg_params)
    : option policer :=
  kbps ← (if rate_type cfg =? SSE2_QOS_RATE_KBPS then Some (rb cfg)
          else if rate_type cfg =? SSE2_QOS_RATE_PPS then
            let cir := sse2_qos_convert_pps_to_kbps (cir_kbps (rb cfg)) in
            let eir := sse2_qos_convert_pps_to_kbps (eir_kbps (rb cfg)) in
            Some (RB cir eir (sse2_qos_convert_burst_ms_to_bytes (u32 (cb_bytes (rb cfg))) cir)
                             (sse2_qos_convert_burst_ms_to_bytes (u32 (eb_bytes (rb cfg))) eir))
          else None);
  let kbps_cfg := Cfg kbps SSE2_QOS_RATE_KBPS (rnd_type cfg) (rfc cfg) false false 0 0
                    (Action 0 0) (Action 0 0) (Action 0 0) in
  let phys := Policer_ false (cfg_color_aware cfg) 0
                [action_type (conform_action cfg); action_type (exceed_action cfg); action_type (violate_action cfg)]
                [dscp (conform_action cfg); dscp (exceed_action cfg); dscp (violate_action cfg)] 0 0 0 0 0 0 0 in
  phys ← x86_pol_compute_hw_params compute_policer_params kbps_cfg phys;
  Some (if overwrite_bucket cfg
        then set_buckets (cfg_current_bucket cfg) (cfg_extended_bucket cfg) (last_update_time phys) phys else phys).

(** For the policer of the data plane the conversion from the physical format clears its result. *)
Definition sse2_qos_convert_pol_bucket_to_hw_fmt (bkt : policer) : hw_params := Hw 0 0 0 0 0 0 0 0 0 0 0.

Definition sse2_pol_physical_2_logical (phys : policer) (cfg : cfg_params) : option cfg_params :=
  let pol_hw := sse2_qos_convert_pol_bucket_to_hw_fmt phys in
  kbps_cfg ← sse2_pol_convert_hw_to_cfg_params pol_hw
    (Cfg (RB 0 0 0 0) 0 0 0 false false 0 0 (Action 0 0) (Action 0 0) (Action 0 0));
  r ← (if rate_type cfg =? SSE2_QOS_RATE_KBPS then Some (rb kbps_cfg)
       else if rate_type cfg =? SSE2_QOS_RATE_PPS then
         let k := rb kbps_cfg in
         Some (RB (sse2_qos_convert_kbps_to_pps (cir_kbps k)) (sse2_qos_convert_kbps_to_pps (eir_kbps k))
                 (sse2_qos_convert_burst_bytes_to_ms (cb_bytes k) (cir_kbps k))
                 (sse2_qos_convert_burst_bytes_to_ms (eb_bytes k) (eir_kbps k)))
       else None);
  Some (Cfg r (rate_type cfg) (rnd_type kbps_cfg) (rfc kbps_cfg) (cfg_color_aware cfg) (overwrite_bucket kbps_cfg)
          (cfg_current_bucket kbps_cfg) (cfg_extended_bucket kbps_cfg)
          (conform_action cfg) (exceed_action cfg) (violate_action cfg)).

(** ** The long-run rates of a two-rate policer *)

(** A packet: its length, its color and the time. *)
Record packet := Packet { p_length : Z; p_color : policer_result; p_time : Z }.

(** The tokens a packet asks for. *)
Definition packet_tokens (p : policer) (pkt : packet) : Z := u32 (Z.shiftl (p_length pkt) (scale p)).

(** The policer after a sequence of packets, and the tokens of the packets that conform and of
    those that exceed. *)
Fixpoint police_run (p : policer) (pkts : list packet) : policer * Z * Z :=
  match pkts with
  | [] => (p, 0, 0)
  | pkt :: pkts =>
      let '(p', r) := vnet_police_packet p (p_length pkt) (p_color pkt) (p_time pkt) in
      let '(p'', conform, exceed) := police_run p' pkts in
      (p'', (if is_color r POLICE_CONFORM then packet_tokens p pkt else 0) + conform,
            (if is_color r POLICE_EXCEED then packet_tokens p pkt else 0) + exceed)
  end.

(** Times that do not go back. *)
Fixpoint ordered (last : Z) (pkts : list packet) : Prop :=
  match pkts with
  | [] => True
  | pkt :: pkts => last ≤ p_time pkt < 2 ^ 64 ∧ ordered (p_time pkt) pkts
  end.

Record policer_ok (p : policer) : Prop := {
  po_current : 0 ≤ current_bucket p ≤ current_limit p;
  po_extended : 0 ≤ extended_bucket p ≤ extended_limit p;
  po_limits : current_limit p < 2 ^ 32 ∧ extended_limit p < 2 ^ 32;
  po_rates : 0 ≤ cir_tokens_per_period p ∧ 0 ≤ pir_tokens_per_period p;
  po_time : 0 ≤ last_update_time p < 2 ^ 64;
}.

Lemma u64_le x : 0 ≤ x → 0 ≤ u64 x ≤ x.
Proof. intros Hx. unfold u64. split; [apply Z.mod_pos_bound; lia|]. apply Z.mod_le; lia. Qed.

Lemma tokens_bounds b n r lim : 0 ≤ b → 0 ≤ n → 0 ≤ r → 0 ≤ lim →
  0 ≤ tokens b n r lim ≤ lim ∧ tokens b n r lim ≤ b + n * r.
Proof.
  intros Hb Hn Hr Hl. unfold tokens. assert (0 ≤ n * r) as Hnr by nia. pose proof (u64_le _ Hnr).
  pose proof (u64_le (b + u64 (n * r)) ltac:(lia)). destruct (Z.gtb_spec (u64 (b + u64 (n * r))) lim); lia.
Qed.

Ltac compute_colors := repeat match goal with |- context [is_color ?a ?b] =>
  let v := eval vm_compute in (is_color a b) in change (is_color a b) with v end.

(** One packet: what it takes from each bucket was there or has been added since. *)
Lemma police_step p pkt : policer_ok p → single_rate p = false → last_update_time p ≤ p_time pkt < 2 ^ 64 →
  let '(p', r) := vnet_police_packet p (p_length pkt) (p_color pkt) (p_time pkt) in
  let elapsed := p_time pkt - last_update_time p in
  policer_ok p' ∧ p' = set_buckets (current_bucket p') (extended_bucket p') (p_time pkt) p ∧
  (if is_color r POLICE_CONFORM then packet_tokens p pkt else 0) + current_bucket p' ≤
    current_bucket p + elapsed * cir_tokens_per_period p ∧
  (if is_color r POLICE_VIOLATE then 0 else packet_tokens p pkt) + extended_bucket p' ≤
    extended_bucket p + elapsed * pir_tokens_per_period p.
Proof.
  intros [Hc He [Hcl Hel] [Hcir Hpir] Ht] Hs Hp. unfold vnet_police_packet. rewrite Hs.
  fold (packet_tokens p pkt). rewrite (u64_small (p_time pkt - last_update_time p)) by (unfold_ranges; lia).
  set (el := p_time pkt - last_update_time p). assert (0 ≤ el) as Hel0 by (unfold el; lia). clearbody el.
  destruct (tokens_bounds (current_bucket p) el (cir_tokens_per_period p) (current_limit p)) as [Hc1 Hc2]; [lia..|].
  destruct (tokens_bounds (extended_bucket p) el (pir_tokens_per_period p) (extended_limit p)) as [He1 He2]; [lia..|].
  set (ct := tokens _ _ _ (current_limit p)) in *. set (et := tokens _ _ _ (extended_limit p)) in *. clearbody ct et.
  assert (in_u32 (packet_tokens p pkt)) as Hl by apply u32_range. set (l := packet_tokens p pkt) in *. clearbody l.
  unfold_ranges.
  assert (∀ c e, 0 ≤ c ≤ current_limit p → 0 ≤ e ≤ extended_limit p → policer_ok (set_buckets c e (p_time pkt) p)) as Hok.
  { intros c e ??. split; cbn; [done|done|done|done|lia]. }
  destruct (Z.ltb_spec et l) as [Hlt|Hge].
  { rewrite orb_true_r. rewrite !u32_small by (unfold_ranges; lia). split; [by apply Hok|]. split; [done|]. compute_colors. cbn. lia. }
  rewrite orb_false_r. destruct (color_aware p && is_color (p_color pkt) POLICE_VIOLATE).
  { rewrite !u32_small by (unfold_ranges; lia). split; [by apply Hok|]. split; [done|]. compute_colors. cbn. lia. }
  destruct (Z.ltb_spec ct l) as [Hlt|Hge'].
  { rewrite orb_true_r. rewrite !u32_small by (unfold_ranges; lia). split; [apply Hok; lia|]. split; [done|]. compute_colors. cbn. lia. }
  rewrite orb_false_r. destruct (color_aware p && is_color (p_color pkt) POLICE_EXCEED).
  - rewrite !u32_small by (unfold_ranges; lia). split; [apply Hok; lia|]. split; [done|]. compute_colors. cbn. lia.
  - rewrite !u32_small by (unfold_ranges; lia). split; [apply Hok; lia|]. split; [done|]. compute_colors. cbn. lia.
Qed.

(** C36: A two-rate policer keeps its rates.  Over every sequence of packets whose times do not
    go back, whatever their lengths and colors, the tokens of the packets that conform are at
    most those in the current bucket at the start plus the committed rate times the elapsed periods, and the
    tokens of those that conform or exceed are at most the extended bucket plus the peak rate
    times the elapsed periods.  The buckets stay within their limits. *)
Theorem policer_two_rate_conformance (p : policer) (pkts : list packet)
    (Hok : policer_ok p) (Hs : single_rate p = false) (Hpkts : ordered (last_update_time p) pkts) :
  let '(p', conform, exceed) := police_run p pkts in
  let elapsed := last_update_time p' - last_update_time p in
  policer_ok p' ∧ 0 ≤ elapsed ∧
  conform + current_bucket p' ≤ current_bucket p + elapsed * cir_tokens_per_period p ∧
  conform + exceed + extended_bucket p' ≤ extended_bucket p + elapsed * pir_tokens_per_period p.
Proof.
  revert p Hok Hs Hpkts. induction pkts as [|pkt pkts IH]; intros p Hok Hs Hpkts; cbn [police_run].
  { split; [done|]. lia. }
  destruct Hpkts as [Ht Hpkts]. pose proof (police_step p pkt Hok Hs Ht) as Hstep.
  destruct (vnet_police_packet p _ _ _) as [p1 r]. destruct Hstep as (Hok1 & Hp1 & Hc & He).
  assert (last_update_time p1 = p_time pkt) as Hl1 by (by rewrite Hp1).
  specialize (IH p1 Hok1). rewrite Hl1 in IH.
  assert (single_rate p1 = false) as Hs1 by (by rewrite Hp1).
  assert (cir_tokens_per_period p1 = cir_tokens_per_period p) as Hcir by (by rewrite Hp1).
  assert (pir_tokens_per_period p1 = pir_tokens_per_period p) as Hpir by (by rewrite Hp1).
  specialize (IH Hs1 Hpkts). destruct (police_run p1 pkts) as [[p2 conform] exceed].
  destruct IH as (Hok2 & Hel & Hc2 & He2). rewrite Hcir in Hc2. rewrite Hpir in He2.
  split; [done|]. split; [lia|]. destruct r; revert Hc He; compute_colors; cbn; intros; nia.
Qed.

Lemma policer_two_rate_conformance_witness :
  let p := Policer_ false false 0 [] [] 10 20 1000 1000 2000 2000 0 in
  let '(p', conform, exceed) := police_run p
    [Packet 900 POLICE_CONFORM 5; Packet 900 POLICE_CONFORM 6; Packet 900 POLICE_CONFORM 7; Packet 500 POLICE_CONFORM 60] in
  (conform, exceed) = (1400, 900) ∧ conform ≤ 1000 + 60 * 10.
Proof.
  intros p.
  pose proof (policer_two_rate_conformance p
    [Packet 900 POLICE_CONFORM 5; Packet 900 POLICE_CONFORM 6; Packet 900 POLICE_CONFORM 7; Packet 500 POLICE_CONFORM 60]) as H.
  assert (policer_ok p) as Hok by (split; cbn; lia). specialize (H Hok eq_refl ltac:(cbn; lia)).
  revert H. vm_compute. intros (_ & _ & Hc & _). split; [done|]. intros Hx. by apply Hc.
Defined.

(** ** The single-rate policer *)

(** C38: In a single-rate policer a packet that conforms is also taken from the extended bucket,
    without a look at the tokens there.  When there are fewer the 32-bit subtraction wraps and
    the next packet, at whatever later time, finds the extended bucket full: a
    color-blind policer lets it through, however small the extended bucket was.  This is the code's
    behaviour and not what the two buckets are for. *)
Theorem policer_single_rate_refills (p : policer) (pkt next : packet)
    (Hok : policer_ok p) (Hs : single_rate p = true) (Hblind : color_aware p = false)
    (Ht : last_update_time p ≤ p_time pkt ≤ p_time next) (Hnext : p_time next < 2 ^ 64)
    (Hidle : (p_time next - last_update_time p) * cir_tokens_per_period p < 2 ^ 32)
    (Hconform : packet_tokens p pkt ≤ Z.min (current_limit p)
                  (current_bucket p + (p_time pkt - last_update_time p) * cir_tokens_per_period p))
    (Hshort : extended_bucket p + (p_time pkt - last_update_time p) * cir_tokens_per_period p < packet_tokens p pkt)
    (Hroom : extended_limit p + packet_tokens p pkt ≤ 2 ^ 32 + extended_bucket p)
    (Hsize : packet_tokens p next ≤ extended_limit p) :
  let '(p1, r1) := vnet_police_packet p (p_length pkt) (p_color pkt) (p_time pkt) in
  let '(_, r2) := vnet_police_packet p1 (p_length next) (p_color next) (p_time next) in
  r1 = POLICE_CONFORM ∧ extended_limit p ≤ extended_bucket p1 ∧ r2 ≠ POLICE_VIOLATE.
Proof.
  destruct Hok as [Hc He [Hcl Hel] [Hcir Hpir] Ht0].
  set (cir := cir_tokens_per_period p) in *. set (el := p_time pkt - last_update_time p) in *.
  assert (0 ≤ el * cir < 2 ^ 32) as Hm by (unfold el in *; nia).
  assert (0 ≤ (p_time next - p_time pkt) * cir < 2 ^ 32) as Hm' by nia.
  unfold vnet_police_packet at 1. fold (packet_tokens p pkt). rewrite Hs, Hblind. cbn [negb orb andb]. fold cir.
  rewrite (u64_small (p_time pkt - _)) by (unfold_ranges; lia). fold el.
  assert (∀ b n lim, 0 ≤ b < 2 ^ 34 → 0 ≤ n * cir < 2 ^ 32 → tokens b n cir lim = Z.min (b + n * cir) lim) as Htok.
  { intros b n lim Hb Hn. unfold tokens. rewrite !u64_small by (unfold_ranges; rewrite ?u64_small; unfold_ranges; lia).
    destruct (Z.gtb_spec (b + n * cir) lim); lia. }
  rewrite !Htok by lia. assert (in_u32 (packet_tokens p pkt)) as Hl by apply u32_range.
  set (l := packet_tokens p pkt) in *. clearbody l. unfold_ranges.
  destruct (Z.geb_spec (Z.min (current_bucket p + el * cir) (current_limit p)) l); [|lia].
  set (e1 := u32 (Z.min _ (extended_limit p) - l)).
  assert (e1 = 2 ^ 32 + Z.min (extended_bucket p + el * cir) (extended_limit p) - l) as He1.
  { unfold e1, u32. symmetry. apply Z.mod_unique with (-1); lia. }
  set (c1 := u32 _). assert (in_u32 c1) as Hc1 by apply u32_range. unfold_ranges. clearbody e1 c1.
  unfold vnet_police_packet. cbn [single_rate color_aware set_buckets scale last_update_time current_bucket
    cir_tokens_per_period current_limit extended_bucket extended_limit]. fold (packet_tokens p next).
  rewrite Hs, Hblind. cbn [negb orb andb]. fold cir.
  rewrite (u64_small (p_time next - _)) by (unfold_ranges; lia). rewrite !Htok by lia.
  destruct (Z.min (c1 + _) _ >=? _); [split_and!; [done|lia|done]|].
  destruct (Z.geb_spec (Z.min (e1 + (p_time next - p_time pkt) * cir) (extended_limit p)) (packet_tokens p next)).
  - split_and!; [done|lia|done].
  - lia.
Qed.

(** A bucket of 1000 and one of 1500: after a packet of 1400 that exceeds 100 are left in the extended
    bucket, and a packet of 500 then lets one of 1500 through at once. *)
Lemma policer_single_rate_refills_witness :
  let p := Policer_ true false 0 [] [] 1 0 1000 1000 1500 1500 0 in
  let '(p0, r0) := vnet_police_packet p 1400 POLICE_CONFORM 0 in
  let '(p1, r1) := vnet_police_packet p0 500 POLICE_CONFORM 0 in
  let '(p2, r2) := vnet_police_packet p1 1500 POLICE_CONFORM 0 in
  r0 = POLICE_EXCEED ∧ r1 = POLICE_CONFORM ∧ r2 ≠ POLICE_VIOLATE.
Proof.
  intros p.
  pose proof (policer_single_rate_refills (vnet_police_packet p 1400 POLICE_CONFORM 0).1
    (Packet 500 POLICE_CONFORM 0) (Packet 1500 POLICE_CONFORM 0)) as H.
  assert (policer_ok (vnet_police_packet p 1400 POLICE_CONFORM 0).1) as Hok by (split; vm_compute; intuition discriminate).
  specialize (H Hok eq_refl eq_refl). split; [vm_compute; reflexivity|].
  destruct H as (H1 & _ & H2); [vm_compute; intuition discriminate..|]. split; [exact H1|exact H2].
Defined.

(** ** Bursts *)

Lemma i32_small x : 0 ≤ x < 2 ^ 31 → i32 x = x.
Proof. intros Hx. unfold i32. rewrite Z.mod_small by lia. cbn. destruct (Z.ltb_spec x (2 ^ 31)); lia. Qed.

(** The loop with rounding down ends at the first exponent that leaves a mantissa small enough. *)
Lemma exp_mant_loop_down (v : Z) fuel e : 0 ≤ v < 128 * 2 ^ 30 → 0 ≤ e ≤ 30 → (32 ≤ fuel + Z.to_nat e)%nat →
  (e = 0 ∨ 127 < v / 2 ^ (e - 1)) →
  ∃ e', exp_mant_loop fuel v SSE2_QOS_POL_COMM_BKT_LIMIT_EXP_MAX SSE2_QOS_POL_COMM_BKT_LIMIT_MANT_MAX
          SSE2_QOS_ROUND_TO_DOWN e (v / 2 ^ e) = Some (e', v / 2 ^ e') ∧
    0 ≤ e' ≤ 30 ∧ v / 2 ^ e' ≤ 127 ∧ (e' = 0 ∨ 127 < v / 2 ^ (e' - 1)).
Proof.
  intros Hv. change SSE2_QOS_POL_COMM_BKT_LIMIT_EXP_MAX with 31. change SSE2_QOS_POL_COMM_BKT_LIMIT_MANT_MAX with 127.
  revert e. induction fuel as [|fuel IH]; intros e He Hf Hprev; [lia|]. cbn [exp_mant_loop].
  destruct (Z.leb_spec e 31); [|lia]. destruct (Z.leb_spec (v / 2 ^ e) 127) as [Hle|Hgt]; [by exists e|].
  assert (e < 30) as Hlt.
  { destruct (decide (e = 30)) as [->|]; [|lia]. exfalso. assert (v / 2 ^ 30 < 128); [|lia].
    apply Z.div_lt_upper_bound; lia. }
  assert (2 ^ (e + 1) ≤ 2 ^ 30) as Hpow by (apply Z.pow_le_mono_r; lia).
  assert (0 < 2 ^ (e + 1)) as Hpos by (apply Z.pow_pos_nonneg; lia).
  rewrite (u8_small (e + 1)) by (unfold_ranges; lia). rewrite Z.shiftl_1_l.
  assert (u64 (i32 (2 ^ (e + 1))) = 2 ^ (e + 1)) as Hshift.
  { rewrite i32_small by lia. apply u64_small. unfold_ranges. lia. }
  rewrite Hshift. unfold sse2_qos_pol_round. destruct (Z.eqb_spec (2 ^ (e + 1)) 0); [lia|].
  cbn [Z.eqb SSE2_QOS_ROUND_TO_DOWN SSE2_QOS_ROUND_TO_CLOSEST SSE2_QOS_ROUND_TO_UP default id Pos.eqb].
  apply IH; [lia|lia|]. right. by replace (e + 1 - 1) with e by lia.
Qed.

(** The bytes of a unit of a bucket of a rate. *)
Definition bkt_unit (rate_hw : Z) : Z :=
  if rate_hw <=? RATE64 then 1 else if rate_hw <=? RATE128 then 2 else if rate_hw <=? RATE256 then 4 else 8.

(** The burst that is rounded: the configured one or 100 ms of the rate, between 9216 bytes and
    what a bucket of 31 bits holds. *)
Definition requested_burst (cfg_burst rate_hw : Z) : Z :=
  Z.max 9216 (Z.min (bkt_unit rate_hw * (2 ^ 31 - 1)) (if cfg_burst =? 0 then rate_hw * 100 else cfg_burst)).

Lemma bkt_unit_cases rate_hw : 1 ≤ bkt_unit rate_hw ≤ 8.
Proof. unfold bkt_unit. repeat case_match; lia. Qed.

Lemma get_bkt_max_unit rate_hw :
  sse2_pol_get_bkt_max rate_hw SSE2_QOS_POL_COMM_BKT_MAX = bkt_unit rate_hw * (2 ^ 31 - 1).
Proof. unfold sse2_pol_get_bkt_max, bkt_unit. repeat case_match; reflexivity. Qed.

Lemma get_bkt_value_unit rate_hw x : sse2_pol_get_bkt_value rate_hw x = x / bkt_unit rate_hw.
Proof. unfold sse2_pol_get_bkt_value, bkt_unit. repeat case_match; by rewrite ?Z.div_1_r. Qed.

(** A mantissa of 7 bits is within 1/64 of what it rounds down. *)
Lemma mantissa_close v e : 128 ≤ v → 0 ≤ e → v / 2 ^ e ≤ 127 → (e = 0 ∨ 127 < v / 2 ^ (e - 1)) →
  64 ≤ v / 2 ^ e ∧ v / 2 ^ e * 2 ^ e ≤ v ∧ (v - v / 2 ^ e * 2 ^ e) * 64 < v.
Proof.
  intros Hv He Hle [->|Hgt]; [rewrite Z.div_1_r in Hle; lia|].
  destruct (decide (e = 0)) as [->|Hne]; [rewrite Z.div_1_r in Hle; lia|].
  assert (2 ^ e = 2 * 2 ^ (e - 1)) as Hpow by (rewrite <-Z.pow_succ_r by lia; f_equal; lia).
  assert (0 < 2 ^ (e - 1)) as Hpos by (apply Z.pow_pos_nonneg; lia).
  assert (v / 2 ^ e = v / 2 ^ (e - 1) / 2) as Hdd by (rewrite Hpow, (Z.mul_comm 2); by rewrite Z.div_div by lia).
  pose proof (Z.div_mod v (2 ^ e) ltac:(lia)) as Hdm. pose proof (Z.mod_pos_bound v (2 ^ e) ltac:(lia)).
  assert (64 ≤ v / 2 ^ e) as H64 by (rewrite Hdd; apply Z.div_le_lower_bound; lia). nia.
Qed.

(** The conversion of a burst ends for every burst and rate.  The mantissa fits its 7 bits and
    the exponent its 5 bits, the burst they stand for is at most the requested one and less
    than 1/64 smaller, and the bucket value in the unit of the rate fits the 31 bits of its field. *)
Theorem sse2_pol_rnd_burst_accuracy (cfg_burst rate_hw : Z) (Hb : in_u64 cfg_burst) (Hr : in_u32 rate_hw) :
  ∃ exp mant bkt, sse2_pol_rnd_burst_byte_fmt cfg_burst SSE2_QOS_POL_COMM_BKT_LIMIT_EXP_MAX
      SSE2_QOS_POL_COMM_BKT_LIMIT_MANT_MAX SSE2_QOS_POL_COMM_BKT_MAX rate_hw = Some (exp, mant, bkt) ∧
    0 ≤ exp ≤ 31 ∧ 64 ≤ mant ≤ 127 ∧
    mant * 2 ^ exp ≤ requested_burst cfg_burst rate_hw ∧
    (requested_burst cfg_burst rate_hw - mant * 2 ^ exp) * 64 < requested_burst cfg_burst rate_hw ∧
    bkt = mant * 2 ^ exp / bkt_unit rate_hw ∧ 0 ≤ bkt < 2 ^ 31.
Proof.
  set (v := requested_burst cfg_burst rate_hw). pose proof (bkt_unit_cases rate_hw) as Hu. unfold_ranges.
  assert (9216 ≤ v ≤ 8 * (2 ^ 31 - 1) ∧ v ≤ bkt_unit rate_hw * (2 ^ 31 - 1)) as [Hv Hvu] by (unfold v, requested_burst; lia).
  destruct (exp_mant_loop_down v exp_mant_fuel 0) as (e & Hloop & He & Hm & Hmin); [lia|lia|cbn; lia|by left|].
  rewrite Z.div_1_r in Hloop. destruct (mantissa_close v e) as (H64 & Hle & Hclose); [lia..|].
  exists e, (v / 2 ^ e), (v / 2 ^ e * 2 ^ e / bkt_unit rate_hw).
  assert (0 < 2 ^ e) as Hpos by (apply Z.pow_pos_nonneg; lia).
  assert (v / 2 ^ e * 2 ^ e / bkt_unit rate_hw ≤ 2 ^ 31 - 1) as Hbkt.
  { apply Z.div_le_upper_bound; lia. }
  assert (0 ≤ v / 2 ^ e * 2 ^ e / bkt_unit rate_hw) as Hbkt0 by (apply Z.div_pos; lia).
  split; [|split_and!; lia].
  unfold sse2_pol_rnd_burst_byte_fmt. rewrite get_bkt_max_unit.
  change (u64 (Z.shiftl SSE2_QOS_POL_COMM_BKT_LIMIT_MANT_MAX SSE2_QOS_POL_COMM_BKT_LIMIT_EXP_MAX)) with (127 * 2 ^ 31).
  change SSE2_QOS_POL_MIN_BURST_BYTE with 9216. change SSE2_QOS_POL_DEF_BURST_BYTE with 100.
  rewrite (u64_small (rate_hw * 100)) by (unfold_ranges; lia).
  rewrite (Z.min_l (bkt_unit rate_hw * _)) by lia. cbv zeta.
  match goal with |- context [sse2_qos_convert_value_to_exp_mant_fmt ?x] => replace x with v end.
  2: { unfold v, requested_burst. destruct (Z.eqb_spec cfg_burst 0);
       repeat (match goal with |- context [?a >? ?b] => destruct (Z.gtb_spec a b) | |- context [?a <? ?b] => destruct (Z.ltb_spec a b) end); lia. }
  unfold sse2_qos_convert_value_to_exp_mant_fmt. rewrite Hloop. cbn [mbind option_bind].
  change SSE2_QOS_POL_COMM_BKT_LIMIT_EXP_MAX with 31. destruct (Z.gtb_spec e 31) as [Hx|_]; [lia|].
  rewrite (u32_small (v / 2 ^ e)) by (unfold_ranges; lia). cbn [mbind option_bind].
  rewrite get_bkt_value_unit, Z.shiftl_mul_pow2 by lia. rewrite u64_small by (unfold_ranges; lia).
  by rewrite u32_small by (unfold_ranges; lia).
Qed.

Lemma sse2_pol_rnd_burst_accuracy_witness :
  sse2_pol_rnd_burst_byte_fmt 1000000 SSE2_QOS_POL_COMM_BKT_LIMIT_EXP_MAX SSE2_QOS_POL_COMM_BKT_LIMIT_MANT_MAX
    SSE2_QOS_POL_COMM_BKT_MAX 125000 = Some (13, 122, 999424) ∧ ∃ mant exp, 64 ≤ mant ∧ mant * 2 ^ exp ≤ 1000000.
Proof.
  destruct (sse2_pol_rnd_burst_accuracy 1000000 125000) as (exp & mant & bkt & _ & _ & Hm & Hle & _);
    [vm_compute; intuition discriminate..|].
  split; [vm_compute; reflexivity|]. exists mant, exp. split; [apply Hm|exact Hle].
Defined.

(** ** Rates in packets *)

(** Every rate in packets per second below 2097152000 comes back exactly from the conversion to kbps
    and the one back: kbps are finer than packets of 256 bytes.  At 2097152000 the rate in
    kbps no longer fits its 32 bits and becomes 0. *)
Theorem sse2_qos_pps_kbps_roundtrip :
  (∀ pps, 0 ≤ pps < 2097152000 → sse2_qos_convert_kbps_to_pps (sse2_qos_convert_pps_to_kbps pps) = pps) ∧
  sse2_qos_convert_pps_to_kbps 2097152000 = 0.
Proof.
  split; [|vm_compute; reflexivity]. intros pps Hp.
  unfold sse2_qos_convert_pps_to_kbps, sse2_qos_convert_kbps_to_pps, sse2_qos_pol_round, SSE2_QOS_POLICER_FIXED_PKT_SIZE.
  cbn [Z.eqb SSE2_QOS_ROUND_TO_CLOSEST default id]. change (Z.shiftr 1000 1) with 500.
  rewrite !(u64_small (pps * 256 * 8)) by (unfold_ranges; lia).
  rewrite (u64_small (_ + 500)) by (unfold_ranges; lia).
  pose proof (Z.div_mod (pps * 256 * 8 + 500) 1000 ltac:(lia)). pose proof (Z.mod_pos_bound (pps * 256 * 8 + 500) 1000 ltac:(lia)).
  set (k := (pps * 256 * 8 + 500) / 1000) in *. rewrite (u32_small k) by (unfold_ranges; lia).
  change (u64 (256 * 8)) with 2048. change (Z.shiftr 2048 1) with 1024. cbn [Z.eqb].
  rewrite (u64_small (k * 1000)) by (unfold_ranges; lia). rewrite (u64_small (_ + 1024)) by (unfold_ranges; lia).
  rewrite <-(Z.div_unique (k * 1000 + 1024) 2048 pps (k * 1000 + 1024 - 2048 * pps)) by lia.
  apply u32_small. unfold_ranges. lia.
Qed.

(** ** A policer that has been configured *)

(** No packet with tokens is let through. *)
Definition always_violates (p : policer) : Prop :=
  ∀ pkts, ordered (last_update_time p) pkts → (police_run p pkts).1.2 = 0 ∧ (police_run p pkts).2 = 0.

Lemma zero_limits_violate p : policer_ok p → single_rate p = true → current_limit p = 0 → extended_limit p = 0 →
  always_violates p.
Proof.
  intros Hok Hs Hc He pkts. revert p Hok Hs Hc He.
  induction pkts as [|pkt pkts IH]; intros p [Hcb Heb Hlim Hrates Ht] Hs Hc He Ho; [done|].
  destruct Ho as [Hp Ho]. cbn [police_run]. unfold vnet_police_packet. rewrite Hs, Hc, He.
  fold (packet_tokens p pkt). assert (in_u32 (packet_tokens p pkt)) as Hl by apply u32_range. unfold_ranges.
  assert (∀ b n r, 0 ≤ b → 0 ≤ n → 0 ≤ r → tokens b n r 0 = 0) as Htok.
  { intros b n r ???. pose proof (tokens_bounds b n r 0). lia. }
  rewrite (u64_small (p_time pkt - _)) by (unfold_ranges; lia). rewrite !Htok by lia.
  set (p' := set_buckets 0 0 (p_time pkt) p).
  assert (policer_ok p') as Hok' by (unfold p'; split; cbn; lia).
  specialize (IH p' Hok' Hs Hc He Ho).
  destruct (Z.geb_spec 0 (packet_tokens p pkt)) as [Hle|Hgt].
  - assert (packet_tokens p pkt = 0) as -> by lia. change (u32 (0 - 0)) with 0. change (u32 0) with 0. fold p'.
    destruct (_ && true); [|destruct (_ && true)]; compute_colors;
      (destruct (police_run p' pkts) as [[p2 c] e]; cbn [fst snd] in *; lia).
  - rewrite !andb_false_r. change (u32 0) with 0. fold p'. compute_colors.
    destruct (police_run p' pkts) as [[p2 c] e]. cbn [fst snd] in *. lia.
Qed.

(** The results of [compute_policer_params] are [u32]. *)
Definition params_fit (compute_policer_params : policer_params) : Prop :=
  ∀ a b c d cl el cir pir sc, compute_policer_params a b c d = Some (cl, el, cir, pir, sc) →
  in_u32 cl ∧ in_u32 el ∧ in_u32 cir ∧ in_u32 pir.

(** Goes past a guard that would have failed. *)
Ltac accepted H := match type of H with (if ?b then None else _) = Some _ => destruct b; [discriminate H|] end.



End Pol.
