(* ===== verification/Bfd.v ===== *)
(** * BFD sessions (vnet/bfd/bfd_main.c, bfd_main.h, bfd_protocol.c)

    The control packets, the session with its timers, the state machine, poll sequences, the echo
    function, the timeouts and the management of the sessions.  Authentication is in
    BfdAuth.

    A function on a session takes and gives a [st]: the main structure, whose pool may hold an older
    copy of the session, and the session that the pointer of the C function designates.
    A handler reads the session from the pool and puts it back.  The clock readings of a handler are
    arguments, one for each call of [clib_cpu_time_now].  The timing wheel is the list of its
    entries, a time and the index of a session; events to the process node, notifications of
    clients and frames sent are recorded in [log].

    What is computed in floating point (the conversions between microseconds and
    clocks, and the time of the next transmission) and the checksum of echo packets, which is
    an instruction of the processor, are the parameters of [BfdEnv].  Whether a buffer is
    available and whether a frame finds its next node are arguments, and SHA1 (OpenSSL) is a
    parameter too.  A frame in [log] is one handed to the transport. *)

From stdpp Require Import gmap.
From S2P Require Import Prelude ByteOrder Bitmap Popcount Pool.

Module Bfd.
Import ClibPool.

(** ** The protocol *)

Inductive bfd_state_e := BFD_STATE_admin_down | BFD_STATE_down | BFD_STATE_init | BFD_STATE_up.

#[export] Instance bfd_state_e_eq_dec : EqDecision bfd_state_e.
Proof. solve_decision. Defined.

(** The values of the enumeration, and the state of a two-bit field. *)
Definition state_val (s : bfd_state_e) : Z :=
  match s with BFD_STATE_admin_down => 0 | BFD_STATE_down => 1 | BFD_STATE_init => 2 | BFD_STATE_up => 3 end.
Definition val_state (v : Z) : bfd_state_e :=
  if v =? 0 then BFD_STATE_admin_down else if v =? 1 then BFD_STATE_down
  else if v =? 2 then BFD_STATE_init else BFD_STATE_up.

Definition is_state (a b : bfd_state_e) : bool := bool_decide (a = b).

Definition BFD_DIAG_CODE_no_diag : Z := 0.
Definition BFD_DIAG_CODE_det_time_exp : Z := 1.
Definition BFD_DIAG_CODE_echo_failed : Z := 2.
Definition BFD_DIAG_CODE_neighbor_sig_down : Z := 3.
Definition BFD_DIAG_CODE_admin_down : Z := 7.

(** The mandatory section as it lies in memory: words in network order. *)
Record bfd_pkt := Pkt {
  vers_diag : Z;
  sta_flags : Z;
  detect_mult : Z;
  length : Z;
  my_disc : Z;
  your_disc : Z;
  des_min_tx : Z;
  req_min_rx : Z;
  req_min_echo_rx : Z;
}.

Definition sizeof_bfd_pkt : Z := 24.

Definition set_vers_diag (x : Z) (p : bfd_pkt) : bfd_pkt :=
  Pkt (u8 x) (sta_flags p) (detect_mult p) (length p) (my_disc p) (your_disc p) (des_min_tx p) (req_min_rx p)
    (req_min_echo_rx p).
Definition set_sta_flags (x : Z) (p : bfd_pkt) : bfd_pkt :=
  Pkt (vers_diag p) (u8 x) (detect_mult p) (length p) (my_disc p) (your_disc p) (des_min_tx p) (req_min_rx p)
    (req_min_echo_rx p).
Definition set_length (x : Z) (p : bfd_pkt) : bfd_pkt :=
  Pkt (vers_diag p) (sta_flags p) (detect_mult p) (u8 x) (my_disc p) (your_disc p) (des_min_tx p) (req_min_rx p)
    (req_min_echo_rx p).

Definition bfd_pkt_get_version (p : bfd_pkt) : Z := Z.shiftr (vers_diag p) 5.
Definition bfd_pkt_set_version (version : Z) (p : bfd_pkt) : bfd_pkt :=
  set_vers_diag (Z.lor (Z.shiftl version 5) (Z.land (vers_diag p) (Z.shiftl 1 5 - 1))) p.
Definition bfd_pkt_get_diag_code (p : bfd_pkt) : Z := Z.land (vers_diag p) (Z.shiftl 1 5 - 1).
Definition bfd_pkt_set_diag_code (value : Z) (p : bfd_pkt) : bfd_pkt :=
  set_vers_diag (Z.lor (Z.land (vers_diag p) (Z.lnot (Z.shiftl 1 5 - 1))) (Z.land value (Z.shiftl 1 5 - 1))) p.
Definition bfd_pkt_get_state (p : bfd_pkt) : Z := Z.shiftr (sta_flags p) 6.
Definition bfd_pkt_set_state (value : Z) (p : bfd_pkt) : bfd_pkt :=
  set_sta_flags (Z.lor (Z.shiftl value 6) (Z.land (sta_flags p) (Z.shiftl 1 6 - 1))) p.
Definition bfd_pkt_get_poll (p : bfd_pkt) : Z := Z.land (Z.shiftr (sta_flags p) 5) 1.
Definition bfd_pkt_set_poll (p : bfd_pkt) : bfd_pkt := set_sta_flags (Z.lor (sta_flags p) (Z.shiftl 1 5)) p.
Definition bfd_pkt_get_final (p : bfd_pkt) : Z := Z.land (Z.shiftr (sta_flags p) 4) 1.
Definition bfd_pkt_set_final (p : bfd_pkt) : bfd_pkt := set_sta_flags (Z.lor (sta_flags p) (Z.shiftl 1 4)) p.
Definition bfd_pkt_get_control_plane_independent (p : bfd_pkt) : Z := Z.land (Z.shiftr (sta_flags p) 3) 1.
Definition bfd_pkt_get_auth_present (p : bfd_pkt) : Z := Z.land (Z.shiftr (sta_flags p) 2) 1.
Definition bfd_pkt_set_auth_present (p : bfd_pkt) : bfd_pkt := set_sta_flags (Z.lor (sta_flags p) (Z.shiftl 1 2)) p.
Definition bfd_pkt_get_demand (p : bfd_pkt) : Z := Z.land (Z.shiftr (sta_flags p) 1) 1.
Definition bfd_pkt_get_multipoint (p : bfd_pkt) : Z := Z.land (Z.shiftr (sta_flags p) 0) 1.

Definition BFD_AUTH_TYPE_keyed_md5 : Z := 2.
Definition BFD_AUTH_TYPE_meticulous_keyed_md5 : Z := 3.
Definition BFD_AUTH_TYPE_keyed_sha1 : Z := 4.
Definition BFD_AUTH_TYPE_meticulous_keyed_sha1 : Z := 5.

(** The 28 bytes after the mandatory section, read as a SHA1 authentication section. *)
Record bfd_auth_sha1 := AuthSha1 {
  sha1_type : Z;
  sha1_len : Z;
  sha1_key_id : Z;
  sha1_reserved : Z;
  sha1_seq_num : Z;
  sha1_hash : list Z;
}.

Definition sizeof_bfd_auth_sha1 : Z := 28.
Definition sizeof_bfd_pkt_with_common_auth : Z := sizeof_bfd_pkt + 2.
Definition sizeof_bfd_pkt_with_sha1_auth : Z := sizeof_bfd_pkt + sizeof_bfd_auth_sha1.

(** The bytes in memory. *)
Definition u32_bytes (x : Z) : list Z :=
  [Z.land x 255; Z.land (Z.shiftr x 8) 255; Z.land (Z.shiftr x 16) 255; Z.land (Z.shiftr x 24) 255].
Definition bfd_pkt_bytes (p : bfd_pkt) : list Z :=
  [vers_diag p; sta_flags p; detect_mult p; length p] ++ u32_bytes (my_disc p) ++ u32_bytes (your_disc p)
  ++ u32_bytes (des_min_tx p) ++ u32_bytes (req_min_rx p) ++ u32_bytes (req_min_echo_rx p).
Definition sha1_prefix_bytes (a : bfd_auth_sha1) : list Z :=
  [sha1_type a; sha1_len a; sha1_key_id a; sha1_reserved a] ++ u32_bytes (sha1_seq_num a).

(** ** Sessions *)

Inductive bfd_poll_state_e :=
  BFD_POLL_NOT_NEEDED | BFD_POLL_NEEDED | BFD_POLL_IN_PROGRESS | BFD_POLL_IN_PROGRESS_AND_QUEUED.

#[export] Instance bfd_poll_state_e_eq_dec : EqDecision bfd_poll_state_e.
Proof. solve_decision. Defined.

Definition is_poll (a b : bfd_poll_state_e) : bool := bool_decide (a = b).

Inductive bfd_transport_e := BFD_TRANSPORT_UDP4 | BFD_TRANSPORT_UDP6.

Record bfd_auth_key := AuthKey { conf_key_id : Z; use_count : Z; key : list Z; auth_type : Z }.

(** A pointer to a key is its index in the pool of the keys, and [None] is [NULL]. *)
Record bfd_auth := Auth {
  curr_key : option Z;
  next_key : option Z;
  local_seq_number : Z;
  remote_seq_number : Z;
  remote_seq_number_known : bool;
  curr_bfd_key_id : Z;
  next_bfd_key_id : Z;
  is_delayed : bool;
}.

Record bfd_session := Session {
  bs_idx : Z;
  local_state : bfd_state_e;
  remote_state : bfd_state_e;
  local_diag : Z;
  remote_diag : Z;
  local_discr : Z;
  remote_discr : Z;
  config_desired_min_tx_usec : Z;
  config_desired_min_tx_clocks : Z;
  effective_desired_min_tx_clocks : Z;
  config_required_min_rx_usec : Z;
  config_required_min_rx_clocks : Z;
  effective_required_min_rx_clocks : Z;
  remote_min_rx_usec : Z;
  remote_min_rx_clocks : Z;
  remote_min_echo_rx_usec : Z;
  remote_min_echo_rx_clocks : Z;
  remote_desired_min_tx_clocks : Z;
  local_detect_mult : Z;
  remote_demand : bool;
  remote_detect_mult : Z;
  echo : bool;
  wheel_time_clocks : Z;
  transmit_interval_clocks : Z;
  tx_timeout_clocks : Z;
  last_tx_clocks : Z;
  last_rx_clocks : Z;
  echo_transmit_interval_clocks : Z;
  echo_tx_timeout_clocks : Z;
  echo_last_tx_clocks : Z;
  echo_last_rx_clocks : Z;
  echo_secret : Z;
  detection_time_clocks : Z;
  poll_state : bfd_poll_state_e;
  poll_state_start_or_timeout_clocks : Z;
  auth : bfd_auth;
  transport : bfd_transport_e;
}.

Definition session_eta (b : bfd_session) : bfd_session :=
    Session (bs_idx b) (local_state b) (remote_state b) (local_diag b) (remote_diag b) (local_discr b)
    (remote_discr b) (config_desired_min_tx_usec b) (config_desired_min_tx_clocks b)
    (effective_desired_min_tx_clocks b) (config_required_min_rx_usec b) (config_required_min_rx_clocks b)
    (effective_required_min_rx_clocks b) (remote_min_rx_usec b) (remote_min_rx_clocks b)
    (remote_min_echo_rx_usec b) (remote_min_echo_rx_clocks b) (remote_desired_min_tx_clocks b)
    (local_detect_mult b) (remote_demand b) (remote_detect_mult b) (echo b) (wheel_time_clocks b)
    (transmit_interval_clocks b) (tx_timeout_clocks b) (last_tx_clocks b) (last_rx_clocks b)
    (echo_transmit_interval_clocks b) (echo_tx_timeout_clocks b) (echo_last_tx_clocks b)
    (echo_last_rx_clocks b) (echo_secret b) (detection_time_clocks b) (poll_state b)
    (poll_state_start_or_timeout_clocks b) (auth b) (transport b).

(** [session_set f x b] is [b] with [x] in the field [f]. *)
Ltac session_set f x b :=
  let t := eval unfold session_eta in (session_eta b) in
  match eval pattern (f b) in t with
  | ?g _ => let r := eval cbv beta in (g x) in exact r
  end.

Definition set_local_state (x : bfd_state_e) (b : bfd_session) : bfd_session :=
  ltac:(session_set local_state x b).
Definition set_remote_state (x : bfd_state_e) (b : bfd_session) : bfd_session :=
  ltac:(session_set remote_state x b).
Definition set_local_diag (x : Z) (b : bfd_session) : bfd_session := ltac:(session_set local_diag x b).
Definition set_remote_diag (x : Z) (b : bfd_session) : bfd_session := ltac:(session_set remote_diag x b).
Definition set_local_discr (x : Z) (b : bfd_session) : bfd_session := ltac:(session_set local_discr x b).
Definition set_remote_discr (x : Z) (b : bfd_session) : bfd_session := ltac:(session_set remote_discr x b).
Definition set_config_desired_min_tx_usec (x : Z) (b : bfd_session) : bfd_session :=
  ltac:(session_set config_desired_min_tx_usec x b).
Definition set_config_desired_min_tx_clocks (x : Z) (b : bfd_session) : bfd_session :=
  ltac:(session_set config_desired_min_tx_clocks x b).
Definition set_effective_desired_min_tx_clocks (x : Z) (b : bfd_session) : bfd_session :=
  ltac:(session_set effective_desired_min_tx_clocks x b).
Definition set_config_required_min_rx_usec (x : Z) (b : bfd_session) : bfd_session :=
  ltac:(session_set config_required_min_rx_usec x b).
Definition set_config_required_min_rx_clocks (x : Z) (b : bfd_session) : bfd_session :=
  ltac:(session_set config_required_min_rx_clocks x b).
Definition set_effective_required_min_rx_clocks (x : Z) (b : bfd_session) : bfd_session :=
  ltac:(session_set effective_required_min_rx_clocks x b).
Definition set_remote_min_rx_usec (x : Z) (b : bfd_session) : bfd_session :=
  ltac:(session_set remote_min_rx_usec x b).
Definition set_remote_min_rx_clocks (x : Z) (b : bfd_session) : bfd_session :=
  ltac:(session_set remote_min_rx_clocks x b).
Definition set_remote_min_echo_rx_usec (x : Z) (b : bfd_session) : bfd_session :=
  ltac:(session_set remote_min_echo_rx_usec x b).
Definition set_remote_min_echo_rx_clocks (x : Z) (b : bfd_session) : bfd_session :=
  ltac:(session_set remote_min_echo_rx_clocks x b).
Definition set_remote_desired_min_tx_clocks (x : Z) (b : bfd_session) : bfd_session :=
  ltac:(session_set remote_desired_min_tx_clocks x b).
Definition set_local_detect_mult (x : Z) (b : bfd_session) : bfd_session :=
  ltac:(session_set local_detect_mult x b).
Definition set_remote_demand (x : bool) (b : bfd_session) : bfd_session := ltac:(session_set remote_demand x b).
Definition set_remote_detect_mult (x : Z) (b : bfd_session) : bfd_session :=
  ltac:(session_set remote_detect_mult x b).
Definition set_echo (x : bool) (b : bfd_session) : bfd_session := ltac:(session_set echo x b).
Definition set_wheel_time_clocks (x : Z) (b : bfd_session) : bfd_session :=
  ltac:(session_set wheel_time_clocks x b).
Definition set_transmit_interval_clocks (x : Z) (b : bfd_session) : bfd_session :=
  ltac:(session_set transmit_interval_clocks x b).
Definition set_tx_timeout_clocks (x : Z) (b : bfd_session) : bfd_session :=
  ltac:(session_set tx_timeout_clocks x b).
Definition set_last_tx_clocks (x : Z) (b : bfd_session) : bfd_session := ltac:(session_set last_tx_clocks x b).
Definition set_last_rx_clocks (x : Z) (b : bfd_session) : bfd_session := ltac:(session_set last_rx_clocks x b).
Definition set_echo_transmit_interval_clocks (x : Z) (b : bfd_session) : bfd_session :=
  ltac:(session_set echo_transmit_interval_clocks x b).
Definition set_echo_tx_timeout_clocks (x : Z) (b : bfd_session) : bfd_session :=
  ltac:(session_set echo_tx_timeout_clocks x b).
Definition set_echo_last_tx_clocks (x : Z) (b : bfd_session) : bfd_session :=
  ltac:(session_set echo_last_tx_clocks x b).
Definition set_echo_last_rx_clocks (x : Z) (b : bfd_session) : bfd_session :=
  ltac:(session_set echo_last_rx_clocks x b).
Definition set_echo_secret (x : Z) (b : bfd_session) : bfd_session := ltac:(session_set echo_secret x b).
Definition set_detection_time_clocks (x : Z) (b : bfd_session) : bfd_session :=
  ltac:(session_set detection_time_clocks x b).
Definition set_poll_state (x : bfd_poll_state_e) (b : bfd_session) : bfd_session :=
  ltac:(session_set poll_state x b).
Definition set_poll_state_start_or_timeout_clocks (x : Z) (b : bfd_session) : bfd_session :=
  ltac:(session_set poll_state_start_or_timeout_clocks x b).
Definition set_auth (x : bfd_auth) (b : bfd_session) : bfd_session := ltac:(session_set auth x b).

Definition set_local_seq_number (x : Z) (a : bfd_auth) : bfd_auth :=
  Auth (curr_key a) (next_key a) x (remote_seq_number a) (remote_seq_number_known a) (curr_bfd_key_id a)
    (next_bfd_key_id a) (is_delayed a).
Definition set_remote_seq (n : Z) (known : bool) (a : bfd_auth) : bfd_auth :=
  Auth (curr_key a) (next_key a) (local_seq_number a) n known (curr_bfd_key_id a) (next_bfd_key_id a) (is_delayed a).
Definition set_keys (c n : option Z) (ci ni : Z) (d : bool) (a : bfd_auth) : bfd_auth :=
  Auth c n (local_seq_number a) (remote_seq_number a) (remote_seq_number_known a) ci ni d.

(** ** The main structure *)

Inductive effect :=
  | Signal_reschedule (bs_idx : Z)
  | Signal_new_session (bs_idx : Z)
  | Signal_config_changed (bs_idx : Z)
  | Notify (bs_idx : Z) (state : bfd_state_e)
  | Send_control (bs_idx : Z) (pkt : bfd_pkt) (a : option bfd_auth_sha1)
  | Send_echo (discriminator expire_time checksum : Z).

Record bfd_main := Main {
  sessions : pool bfd_session;
  session_by_disc : gmap Z Z;
  wheel : list (Z * Z);
  wheel_inaccuracy : Z;
  default_desired_min_tx_clocks : Z;
  min_required_min_rx_while_echo_clocks : Z;
  random_seed : Z;
  auth_keys : pool bfd_auth_key;
  auth_key_by_conf_key_id : gmap Z Z;
  log : list effect;
}.

(** What a pointer to a key reads: the pool is not asked whether the key is live. *)
Definition zero_key : bfd_auth_key := AuthKey 0 0 (replicate 20 0) 0.
Definition key_at (m : bfd_main) (k : Z) : bfd_auth_key := velt zero_key (elts (auth_keys m)) k.

Definition main_eta (m : bfd_main) : bfd_main :=
  Main (sessions m) (session_by_disc m) (wheel m) (wheel_inaccuracy m) (default_desired_min_tx_clocks m)
    (min_required_min_rx_while_echo_clocks m) (random_seed m) (auth_keys m) (auth_key_by_conf_key_id m) (log m).

Ltac main_set f x m :=
  let t := eval unfold main_eta in (main_eta m) in
  match eval pattern (f m) in t with
  | ?g _ => let r := eval cbv beta in (g x) in exact r
  end.

Definition set_sessions (x : pool bfd_session) (m : bfd_main) : bfd_main := ltac:(main_set sessions x m).
Definition set_session_by_disc (x : gmap Z Z) (m : bfd_main) : bfd_main := ltac:(main_set session_by_disc x m).
Definition set_wheel (x : list (Z * Z)) (m : bfd_main) : bfd_main := ltac:(main_set wheel x m).
Definition set_random_seed (x : Z) (m : bfd_main) : bfd_main := ltac:(main_set random_seed x m).
Definition set_auth_keys (x : pool bfd_auth_key) (m : bfd_main) : bfd_main := ltac:(main_set auth_keys x m).
Definition set_auth_key_by_conf_key_id (x : gmap Z Z) (m : bfd_main) : bfd_main :=
  ltac:(main_set auth_key_by_conf_key_id x m).
Definition set_log (x : list effect) (m : bfd_main) : bfd_main := ltac:(main_set log x m).

Record st := St { bm : bfd_main; bs : bfd_session }.

Notation "s |> f" := (f s) (at level 51, left associativity, only parsing).

(** A change of the session, one of the main structure, an effect, and a step taken in one case only. *)
Definition upd (f : bfd_session → bfd_session) (s : st) : st := St (bm s) (f (bs s)).
Definition updm (f : bfd_main → bfd_main) (s : st) : st := St (f (bm s)) (bs s).
Definition emit (e : effect) (s : st) : st := updm (λ m, set_log (log m ++ [e]) m) s.
Definition when (b : bool) (f : st → st) (s : st) : st := if b then f s else s.

(** [random_u32] (vppinfra/random.h): the next number, also the new seed. *)
Definition random_u32 (seed : Z) : Z := u32 (u32 (1664525 * seed) + 1013904223).

Class BfdEnv := {
  usec_to_clocks : Z → Z;
  clocks_to_usec : Z → Z;
  (** The next transmission: whether the multiplier is above 1, the random number, the last transmission and the
      interval. *)
  next_tx : bool → Z → Z → Z → Z;
  echo_checksum : Z → Z → Z → Z;
  sha1 : list Z → list Z;
}.

Section bfd.
Context {Env : BfdEnv}.

Definition USEC_PER_SECOND : Z := 1000 * 1000.
Definition BFD_DEFAULT_DESIRED_MIN_TX_USEC : Z := USEC_PER_SECOND.

Definition bfd_usec_to_clocks (us : Z) : Z := u64 (usec_to_clocks us).
Definition bfd_clocks_to_usec (clocks : Z) : Z := u32 (clocks_to_usec clocks).

(** ** Timers *)

Definition bfd_set_diag (code : Z) : st → st := upd (set_local_diag code).
Definition bfd_set_poll_state (state : bfd_poll_state_e) : st → st := upd (set_poll_state state).

Definition bfd_recalc_tx_interval : st → st :=
  upd (λ b, set_transmit_interval_clocks (Z.max (effective_desired_min_tx_clocks b) (remote_min_rx_clocks b)) b).

Definition bfd_recalc_echo_tx_interval : st → st :=
  upd (λ b, set_echo_transmit_interval_clocks
              (Z.max (effective_desired_min_tx_clocks b) (remote_min_echo_rx_clocks b)) b).

Definition bfd_calc_next_tx (now : Z) (s : st) : st :=
  let r := random_u32 (random_seed (bm s)) in
  let b := bs s in
  let t := u64 (next_tx (local_detect_mult b >? 1) r (last_tx_clocks b) (transmit_interval_clocks b)) in
  s |> updm (set_random_seed r) |> upd (set_tx_timeout_clocks (if t <? now then now else t)).

Definition bfd_calc_next_echo_tx (now : Z) : st → st :=
  upd (λ b, let t := u64 (echo_last_tx_clocks b + echo_transmit_interval_clocks b) in
            set_echo_tx_timeout_clocks (if t <? now then now else t) b).

Definition bfd_recalc_detection_time : st → st :=
  upd (λ b, if is_state (local_state b) BFD_STATE_init || is_state (local_state b) BFD_STATE_up
            then set_detection_time_clocks
                   (u64 (remote_detect_mult b * Z.max (effective_required_min_rx_clocks b) (remote_desired_min_tx_clocks b))) b
            else b).

(** The next deadline of a session, and 0 when there is none. *)
Definition next_deadline (b : bfd_session) : Z :=
  let rx_timeout := if is_state BFD_STATE_up (local_state b)
                    then u64 (last_rx_clocks b + detection_time_clocks b) else 0 in
  let tx_timeout := if negb (is_state BFD_STATE_up (local_state b))
                       || (negb (remote_demand b) && negb (remote_min_rx_usec b =? 0))
                       || negb (is_poll BFD_POLL_NOT_NEEDED (poll_state b))
                    then tx_timeout_clocks b else 0 in
  let next := if negb (tx_timeout =? 0) && negb (rx_timeout =? 0) then Z.min tx_timeout rx_timeout
              else if negb (tx_timeout =? 0) then tx_timeout
              else if negb (rx_timeout =? 0) then rx_timeout else 0 in
  if echo b && (next >? echo_tx_timeout_clocks b) then echo_tx_timeout_clocks b else next.

Definition bfd_set_timer (now : Z) (handling_wakeup : bool) (s : st) : st :=
  let next := next_deadline (bs s) in
  if negb (next =? 0) && ((u64 (now + wheel_inaccuracy (bm s)) >? wheel_time_clocks (bs s))
                          || (next <? wheel_time_clocks (bs s)) || (wheel_time_clocks (bs s) =? 0))
  then s |> upd (set_wheel_time_clocks next)
         |> updm (λ m, set_wheel (wheel m ++ [(next, bs_idx (bs s))]) m)
         |> when (negb handling_wakeup) (emit (Signal_reschedule (bs_idx (bs s))))
  else s.

Definition bfd_set_effective_desired_min_tx (now desired_min_tx_clocks : Z) (s : st) : st :=
  s |> upd (set_effective_desired_min_tx_clocks desired_min_tx_clocks)
    |> bfd_recalc_detection_time |> bfd_recalc_tx_interval |> bfd_recalc_echo_tx_interval |> bfd_calc_next_tx now.

Definition bfd_set_effective_required_min_rx (required_min_rx_clocks : Z) (s : st) : st :=
  s |> upd (set_effective_required_min_rx_clocks required_min_rx_clocks) |> bfd_recalc_detection_time.

Definition bfd_set_remote_required_min_rx (remote_required_min_rx_usec : Z) (s : st) : st :=
  if negb (remote_min_rx_usec (bs s) =? remote_required_min_rx_usec)
  then s |> upd (set_remote_min_rx_usec remote_required_min_rx_usec)
         |> upd (set_remote_min_rx_clocks (bfd_usec_to_clocks remote_required_min_rx_usec))
         |> bfd_recalc_detection_time |> bfd_recalc_tx_interval
  else s.

Definition bfd_set_remote_required_min_echo_rx (remote_required_min_echo_rx_usec : Z) (s : st) : st :=
  if negb (remote_min_echo_rx_usec (bs s) =? remote_required_min_echo_rx_usec)
  then s |> upd (set_remote_min_echo_rx_usec remote_required_min_echo_rx_usec)
         |> upd (set_remote_min_echo_rx_clocks (bfd_usec_to_clocks remote_required_min_echo_rx_usec))
         |> bfd_recalc_echo_tx_interval
  else s.

(** ** State changes *)

Definition bfd_on_state_change (now : Z) (handling_wakeup : bool) (s : st) : st :=
  let slow s := Z.max (config_desired_min_tx_clocks (bs s)) (default_desired_min_tx_clocks (bm s)) in
  let s := emit (Notify (bs_idx (bs s)) (local_state (bs s))) s in
  match local_state (bs s) with
  | BFD_STATE_admin_down | BFD_STATE_down =>
      s |> upd (set_echo false) |> bfd_set_effective_desired_min_tx now (slow s)
        |> bfd_set_effective_required_min_rx (config_required_min_rx_clocks (bs s))
        |> bfd_set_timer now handling_wakeup
  | BFD_STATE_init =>
      s |> upd (set_echo false) |> bfd_set_effective_desired_min_tx now (config_desired_min_tx_clocks (bs s))
        |> bfd_set_timer now handling_wakeup
  | BFD_STATE_up =>
      s |> bfd_set_effective_desired_min_tx now (config_desired_min_tx_clocks (bs s))
        |> when (is_poll BFD_POLL_NOT_NEEDED (poll_state (bs s)))
             (bfd_set_effective_required_min_rx (config_required_min_rx_clocks (bs s)))
        |> bfd_set_timer now handling_wakeup
  end.

(** [now] is the reading of the clock that the function makes. *)
Definition bfd_set_state (new_state : bfd_state_e) (now : Z) (handling_wakeup : bool) (s : st) : st :=
  if is_state (local_state (bs s)) new_state then s
  else s |> upd (set_local_state new_state) |> bfd_on_state_change now handling_wakeup.

Definition bfd_session_start (s : st) : st :=
  s |> bfd_set_effective_required_min_rx (config_required_min_rx_clocks (bs s)) |> bfd_recalc_tx_interval
    |> emit (Signal_new_session (bs_idx (bs s))).

(** [now'] is the reading of [bfd_set_state]. *)
Definition bfd_session_set_flags (admin_up_down : bool) (now now' : Z) (s : st) : st :=
  if admin_up_down
  then s |> bfd_set_state BFD_STATE_down now' false |> bfd_set_diag BFD_DIAG_CODE_no_diag
         |> bfd_calc_next_tx now |> bfd_set_timer now false
  else s |> bfd_set_diag BFD_DIAG_CODE_admin_down |> bfd_set_state BFD_STATE_admin_down now' false
         |> bfd_calc_next_tx now |> bfd_set_timer now false.

Definition bfd_on_config_change (now : Z) (s : st) : st :=
  s |> when (remote_demand (bs s) && is_poll BFD_POLL_NEEDED (poll_state (bs s))
             && (poll_state_start_or_timeout_clocks (bs s) <? now)) (upd (set_tx_timeout_clocks now))
    |> bfd_recalc_detection_time |> bfd_set_timer now false.

(** ** Frames *)

(** [SHA1] over the frame in memory. *)
Definition frame_sha1 (pkt : bfd_pkt) (a : bfd_auth_sha1) (tail : list Z) : list Z :=
  sha1 (bfd_pkt_bytes pkt ++ sha1_prefix_bytes a ++ tail).

(** The key is first in the place of the hash, and then the hash is. *)
Definition bfd_add_sha1_auth_section (pkt : bfd_pkt) (k : bfd_auth_key) (s : st) : bfd_pkt * bfd_auth_sha1 * st :=
  let pkt := bfd_pkt_set_auth_present (set_length (length pkt + sizeof_bfd_auth_sha1) pkt) in
  let s := upd (λ b, set_auth (set_local_seq_number (u32 (local_seq_number (auth b) + 1)) (auth b)) b) s in
  let a := AuthSha1 (auth_type k) sizeof_bfd_auth_sha1 (curr_bfd_key_id (auth (bs s))) 0
             (clib_host_to_net_u32 (local_seq_number (auth (bs s)))) (key k) in
  (pkt, AuthSha1 (sha1_type a) (sha1_len a) (sha1_key_id a) (sha1_reserved a) (sha1_seq_num a)
          (frame_sha1 pkt a (key k)), s).

Definition is_sha1_type (t : Z) : bool :=
  (t =? BFD_AUTH_TYPE_keyed_sha1) || (t =? BFD_AUTH_TYPE_meticulous_keyed_sha1).

Definition bfd_add_auth_section (pkt : bfd_pkt) (s : st) : bfd_pkt * option bfd_auth_sha1 * st :=
  match curr_key (auth (bs s)) with
  | Some k =>
      if is_sha1_type (auth_type (key_at (bm s) k))
      then let '(pkt, a, s) := bfd_add_sha1_auth_section pkt (key_at (bm s) k) s in (pkt, Some a, s)
      else (pkt, None, s)
  | None => (pkt, None, s)
  end.

(** What the rest of the system answers to a handler: buffers, next nodes, and the source of echo packets. *)
Record io := Io {
  buffer_control : bool;
  buffer_echo : bool;
  echo_transported : bool;
  udp_is_echo_available : bool;
}.

Definition bfd_is_echo_possible (i : io) (b : bfd_session) : bool :=
  is_state BFD_STATE_up (local_state b) && is_state BFD_STATE_up (remote_state b) && (remote_min_echo_rx_usec b >? 0)
  && udp_is_echo_available i.

Definition bfd_init_control_frame (b : bfd_session) : bfd_pkt :=
  let pkt := bfd_pkt_set_version 1 (Pkt 0 0 0 0 0 0 0 0 0) in
  let pkt := bfd_pkt_set_state (state_val (local_state b)) (bfd_pkt_set_diag_code (local_diag b) pkt) in
  Pkt (vers_diag pkt) (sta_flags pkt) (local_detect_mult b) (u8 sizeof_bfd_pkt) (local_discr b) (remote_discr b)
    (clib_host_to_net_u32 (config_desired_min_tx_usec b))
    (clib_host_to_net_u32 (if echo b then bfd_clocks_to_usec (effective_required_min_rx_clocks b)
                           else config_required_min_rx_usec b))
    (clib_host_to_net_u32 1).

Definition bfd_send_echo (i : io) (now : Z) (s : st) : st :=
  let b := bs s in
  if negb (bfd_is_echo_possible i b) then upd (set_echo false) s
  else if u64 (now + wheel_inaccuracy (bm s)) >=? echo_tx_timeout_clocks b then
    if negb (buffer_echo i) then s
    else
      let expire := u64 (now + u64 (echo_transmit_interval_clocks b * local_detect_mult b)) in
      if negb (echo_transported i) then upd (set_echo false) s
      else s |> emit (Send_echo (local_discr b) expire (echo_checksum (local_discr b) expire (echo_secret b)))
             |> upd (set_echo_last_tx_clocks now) |> bfd_calc_next_echo_tx now
  else s.

(** The poll bit of a periodic frame, with the change of the poll state. *)
Definition poll_frame (now : Z) (pkt : bfd_pkt) (s : st) : bfd_pkt * st :=
  match poll_state (bs s) with
  | BFD_POLL_NEEDED =>
      if now <? poll_state_start_or_timeout_clocks (bs s) then (pkt, s)
      else (bfd_pkt_set_poll pkt,
            s |> upd (set_poll_state_start_or_timeout_clocks now) |> bfd_set_poll_state BFD_POLL_IN_PROGRESS)
  | BFD_POLL_IN_PROGRESS | BFD_POLL_IN_PROGRESS_AND_QUEUED => (bfd_pkt_set_poll pkt, s)
  | BFD_POLL_NOT_NEEDED => (pkt, s)
  end.

Definition bfd_send_periodic (i : io) (now : Z) (s : st) : st :=
  let b := bs s in
  if (remote_min_rx_usec b =? 0) && is_poll BFD_POLL_NOT_NEEDED (poll_state b) then s
  else if is_poll BFD_POLL_NOT_NEEDED (poll_state b) && remote_demand b && is_state BFD_STATE_up (local_state b)
          && is_state BFD_STATE_up (remote_state b) then s
  else if u64 (now + wheel_inaccuracy (bm s)) >=? tx_timeout_clocks b then
    if negb (buffer_control i) then s
    else
      let '(pkt, s) := poll_frame now (bfd_init_control_frame b) s in
      let '(pkt, a, s) := bfd_add_auth_section pkt s in
      s |> emit (Send_control (bs_idx b) pkt a) |> upd (set_last_tx_clocks now) |> bfd_calc_next_tx now
  else s.

(** [now] is the reading of the clock that the function makes. *)
Definition bfd_init_final_control_frame (now : Z) (s : st) : bfd_pkt * option bfd_auth_sha1 * st :=
  let pkt := bfd_pkt_set_final (bfd_init_control_frame (bs s)) in
  let '(pkt, a, s) := bfd_add_auth_section pkt s in
  (pkt, a, s |> upd (set_last_tx_clocks now) |> bfd_set_poll_state BFD_POLL_NOT_NEEDED).

(** ** Timeouts *)

(** [now'] is the reading of [bfd_set_state]. *)
Definition bfd_check_rx_timeout (now now' : Z) (handling_wakeup : bool) (s : st) : st :=
  let b := bs s in
  let limit := u64 (now + wheel_inaccuracy (bm s)) in
  if u64 (last_rx_clocks b + detection_time_clocks b) <=? limit then
    s |> bfd_set_diag BFD_DIAG_CODE_det_time_exp |> bfd_set_state BFD_STATE_down now' handling_wakeup
      |> bfd_set_remote_required_min_rx 1
  else if echo b && (u64 (echo_last_rx_clocks b + u64 (echo_transmit_interval_clocks b * local_detect_mult b)) <=? limit) then
    s |> bfd_set_diag BFD_DIAG_CODE_echo_failed |> bfd_set_state BFD_STATE_down now' handling_wakeup
  else s.

(** The echo function becomes the main method of detection. *)
Definition switch_on_echo (now : Z) (s : st) : st :=
  s |> upd (set_echo true) |> upd (set_echo_last_rx_clocks now) |> upd (set_echo_tx_timeout_clocks now)
    |> bfd_set_effective_required_min_rx
         (Z.max (min_required_min_rx_while_echo_clocks (bm s)) (config_required_min_rx_clocks (bs s)))
    |> bfd_set_poll_state BFD_POLL_NEEDED.

Definition bfd_on_timeout (i : io) (now now' : Z) (s : st) : st :=
  match local_state (bs s) with
  | BFD_STATE_admin_down | BFD_STATE_down => bfd_send_periodic i now s
  | BFD_STATE_init => s |> bfd_check_rx_timeout now now' true |> bfd_send_periodic i now
  | BFD_STATE_up =>
      let s := bfd_check_rx_timeout now now' true s in
      let s := when (is_poll BFD_POLL_NOT_NEEDED (poll_state (bs s)) && negb (echo (bs s))
                     && bfd_is_echo_possible i (bs s)) (switch_on_echo now) s in
      let s := bfd_send_periodic i now s in
      when (echo (bs s)) (bfd_send_echo i now) s
  end.

(** ** Reception *)

(** The end of a poll sequence. *)
Definition consume_final (now : Z) (s : st) : st :=
  if is_poll BFD_POLL_IN_PROGRESS (poll_state (bs s)) then
    let s := bfd_set_poll_state BFD_POLL_NOT_NEEDED s in
    when (is_state BFD_STATE_up (local_state (bs s)))
      (bfd_set_effective_required_min_rx
         (Z.max (if echo (bs s) then min_required_min_rx_while_echo_clocks (bm s) else 0)
                (config_required_min_rx_clocks (bs s)))) s
  else if is_poll BFD_POLL_IN_PROGRESS_AND_QUEUED (poll_state (bs s)) then
    s |> upd (λ b, set_poll_state_start_or_timeout_clocks
                     (u64 (now + u64 (now - poll_state_start_or_timeout_clocks b))) b)
      |> bfd_set_poll_state BFD_POLL_NEEDED
  else s.

(** The state machine of a received packet. *)
Definition consume_state (now' : Z) (s : st) : st :=
  if is_state BFD_STATE_admin_down (local_state (bs s)) then s
  else if is_state BFD_STATE_admin_down (remote_state (bs s)) then
    s |> bfd_set_diag BFD_DIAG_CODE_neighbor_sig_down |> bfd_set_state BFD_STATE_down now' false
  else if is_state BFD_STATE_down (local_state (bs s)) then
    if is_state BFD_STATE_down (remote_state (bs s)) then
      s |> bfd_set_diag BFD_DIAG_CODE_no_diag |> bfd_set_state BFD_STATE_init now' false
    else if is_state BFD_STATE_init (remote_state (bs s)) then
      s |> bfd_set_diag BFD_DIAG_CODE_no_diag |> bfd_set_state BFD_STATE_up now' false
    else s
  else if is_state BFD_STATE_init (local_state (bs s)) then
    if is_state BFD_STATE_up (remote_state (bs s)) || is_state BFD_STATE_init (remote_state (bs s)) then
      s |> bfd_set_diag BFD_DIAG_CODE_no_diag |> bfd_set_state BFD_STATE_up now' false
    else s
  else if is_state BFD_STATE_down (remote_state (bs s)) then
    s |> bfd_set_diag BFD_DIAG_CODE_neighbor_sig_down |> bfd_set_state BFD_STATE_down now' false
  else s.

(** The remote variables that a packet sets. *)
Definition consume_remote (pkt : bfd_pkt) (a : bfd_auth_sha1) (now : Z) (s : st) : st :=
  let s := s |> upd (set_remote_discr (my_disc pkt))
             |> upd (set_remote_state (val_state (bfd_pkt_get_state pkt)))
             |> upd (set_remote_demand (negb (bfd_pkt_get_demand pkt =? 0)))
             |> upd (set_remote_diag (bfd_pkt_get_diag_code pkt))
             |> upd (set_last_rx_clocks now)
             |> when (negb (bfd_pkt_get_auth_present pkt =? 0) && is_sha1_type (sha1_type a))
                  (upd (λ b, set_auth (set_remote_seq (clib_net_to_host_u32 (sha1_seq_num a)) true (auth b)) b))
             |> upd (set_remote_desired_min_tx_clocks (bfd_usec_to_clocks (clib_net_to_host_u32 (des_min_tx pkt))))
             |> upd (set_remote_detect_mult (detect_mult pkt)) in
  s |> bfd_set_remote_required_min_rx (clib_net_to_host_u32 (req_min_rx pkt))
    |> bfd_set_remote_required_min_echo_rx (clib_net_to_host_u32 (req_min_echo_rx pkt)).

(** The body of [bfd_consume_pkt] on a session; [now'] is the reading of [bfd_set_state]. *)
Definition consume (pkt : bfd_pkt) (a : bfd_auth_sha1) (now now' : Z) (s : st) : st :=
  if negb (your_disc pkt =? 0) && negb (your_disc pkt =? local_discr (bs s)) then s
  else s |> consume_remote pkt a now |> when (negb (bfd_pkt_get_final pkt =? 0)) (consume_final now)
         |> bfd_calc_next_tx now |> bfd_set_timer now false |> consume_state now'.

(** ** The sessions of the main structure *)

Definition bfd_find_session_by_idx (m : bfd_main) (idx : Z) : option bfd_session := pool_elt_at_index (sessions m) idx.

(** A pointer found by its discriminator; [None] also for an index that the pool refuses. *)
Definition bfd_find_session_by_disc (m : bfd_main) (disc : Z) : option bfd_session :=
  idx ← session_by_disc m !! disc; pool_elt_at_index (sessions m) idx.

(** Runs a function on a session of the pool. *)
Definition on_session (f : st → st) (idx : Z) (m : bfd_main) : bfd_main :=
  match bfd_find_session_by_idx m idx with
  | Some b => let s := f (St m b) in set_sessions (pool_set (sessions (bm s)) idx (bs s)) (bm s)
  | None => m
  end.

Definition bfd_consume_pkt (pkt : bfd_pkt) (a : bfd_auth_sha1) (now now' : Z) (idx : Z) : bfd_main → bfd_main :=
  on_session (consume pkt a now now') idx.

(** An echo packet: whether it is consumed. *)
Definition bfd_consume_echo_pkt (discriminator expire_time checksum now : Z) (m : bfd_main) : bool * bfd_main :=
  match session_by_disc m !! discriminator with
  | Some idx =>
      (true, on_session (λ s,
        if negb (echo_checksum (local_discr (bs s)) expire_time (echo_secret (bs s)) =? checksum) then s
        else when (negb (expire_time <? now)) (upd (set_echo_last_rx_clocks now)) s) idx m)
  | None => (false, m)
  end.

Definition zero_session (idx : Z) (t : bfd_transport_e) : bfd_session :=
  Session idx BFD_STATE_admin_down BFD_STATE_admin_down 0 0 0 0 0 0 0 0 0 0 0 0 0 0 0 0 false 0 false 0 0 0 0 0 0 0 0 0 0 0
    BFD_POLL_NOT_NEEDED 0 (Auth None None 0 0 false 0 0 false) t.

Definition bfd_set_defaults (s : st) : st :=
  let r1 := random_u32 (random_seed (bm s)) in
  let r2 := random_u32 r1 in
  s |> upd (set_local_state BFD_STATE_down) |> upd (set_local_diag BFD_DIAG_CODE_no_diag)
    |> upd (set_remote_state BFD_STATE_down) |> upd (set_remote_discr 0)
    |> upd (set_config_desired_min_tx_usec BFD_DEFAULT_DESIRED_MIN_TX_USEC)
    |> upd (set_config_desired_min_tx_clocks (default_desired_min_tx_clocks (bm s)))
    |> upd (set_effective_desired_min_tx_clocks (default_desired_min_tx_clocks (bm s)))
    |> upd (set_remote_min_rx_usec 1) |> upd (set_remote_min_rx_clocks (bfd_usec_to_clocks 1))
    |> upd (set_remote_min_echo_rx_usec 0) |> upd (set_remote_min_echo_rx_clocks 0)
    |> upd (set_remote_demand false)
    |> upd (λ b, set_auth (set_local_seq_number r1 (set_remote_seq 0 false (auth b))) b)
    |> upd (set_echo_secret r2) |> updm (set_random_seed r2).

(** The search for an unused discriminator: the counter goes from 0 to 1001. *)
Fixpoint pick_discr (tries : nat) (by_disc : gmap Z Z) (seed : Z) : Z * option Z :=
  let discr := random_u32 seed in
  match tries with
  | O => (discr, None)
  | S tries => match by_disc !! discr with None => (discr, Some discr) | Some _ => pick_discr tries by_disc discr end
  end.

Definition bfd_get_session (t : bfd_transport_e) (m : bfd_main) : bfd_main * option Z :=
  let '(p, idx) := pool_get (zero_session 0 t) (sessions m) in
  let m := set_sessions p m in
  match pick_discr 1001 (session_by_disc m) (random_seed m) with
  | (seed, None) => (set_sessions (pool_put_index p idx) (set_random_seed seed m), None)
  | (seed, Some discr) =>
      let s := bfd_set_defaults (St (set_random_seed seed m) (set_local_discr discr (zero_session idx t))) in
      let m := set_sessions (pool_set (sessions (bm s)) idx (bs s)) (bm s) in
      (set_session_by_disc (<[local_discr (bs s) := idx]> (session_by_disc m)) m, Some idx)
  end.

Definition set_use_count (d : Z) (k : Z) (m : bfd_main) : bfd_main :=
  let e := key_at m k in
  set_auth_keys (pool_set (auth_keys m) k (AuthKey (conf_key_id e) (u32 (use_count e + d)) (key e) (auth_type e))) m.

(** The uses of an optional key. *)
Definition use_key (d : Z) (k : option Z) (m : bfd_main) : bfd_main :=
  match k with Some k => set_use_count d k m | None => m end.

Definition bfd_put_session (idx : Z) (m : bfd_main) : bfd_main :=
  match bfd_find_session_by_idx m idx with
  | Some b =>
      let m := use_key (-1) (next_key (auth b)) (use_key (-1) (curr_key (auth b)) m) in
      set_sessions (pool_put_index (sessions m) idx)
        (set_session_by_disc (delete (local_discr b) (session_by_disc m)) m)
  | None => m
  end.

Definition bfd_session_set_params (desired_min_tx_usec required_min_rx_usec detect_mult : Z) (s : st) : st :=
  let b := bs s in
  let changed := negb (config_desired_min_tx_usec b =? desired_min_tx_usec)
                 || negb (config_required_min_rx_usec b =? required_min_rx_usec) in
  if negb (local_detect_mult b =? detect_mult) || changed then
    let s := match poll_state b with
             | BFD_POLL_NOT_NEEDED =>
                 when ((is_state BFD_STATE_up (local_state b) || is_state BFD_STATE_init (local_state b)) && changed)
                   (bfd_set_poll_state BFD_POLL_NEEDED) s
             | BFD_POLL_NEEDED | BFD_POLL_IN_PROGRESS_AND_QUEUED => s
             | BFD_POLL_IN_PROGRESS => when changed (bfd_set_poll_state BFD_POLL_IN_PROGRESS_AND_QUEUED) s
             end in
    s |> upd (set_local_detect_mult detect_mult)
      |> upd (set_config_desired_min_tx_usec desired_min_tx_usec)
      |> upd (set_config_desired_min_tx_clocks (bfd_usec_to_clocks desired_min_tx_usec))
      |> upd (set_config_required_min_rx_usec required_min_rx_usec)
      |> upd (set_config_required_min_rx_clocks (bfd_usec_to_clocks required_min_rx_usec))
      |> emit (Signal_config_changed (bs_idx b))
  else s.

(** ** The process node *)

(** The events of [bfd_process]. *)
Inductive event := Event_timeout | Event_reschedule | Event_new_session (idx : Z) | Event_config_changed (idx : Z).

(** What the system answers, and the second clock reading, while each session is handled. *)
Definition process_event (i : Z → io) (e : event) (now : Z) (m : bfd_main) : bfd_main :=
  match e with
  | Event_timeout | Event_reschedule => m
  | Event_new_session idx => on_session (λ s, s |> bfd_send_periodic (i idx) now |> bfd_set_timer now true) idx m
  | Event_config_changed idx => on_session (bfd_on_config_change now) idx m
  end.

Definition process_timeout (i : Z → io) (now : Z) (now' : Z → Z) (m : bfd_main) (idx : Z) : bfd_main :=
  on_session (λ s, s |> bfd_on_timeout (i idx) now (now' idx) |> bfd_set_timer now true) idx m.

(** One turn of the loop: [expired] are the entries that [timing_wheel_advance] takes off the wheel. *)
Definition bfd_process_turn (i : Z → io) (e : event) (now : Z) (now' : Z → Z) (expired : list (Z * Z)) (m : bfd_main)
    : bfd_main :=
  let m := process_event i e now m in
  let m := set_wheel (list_difference (wheel m) expired) m in
  foldl (process_timeout i now now') m (map snd expired).

End bfd.

(** The main structure without sessions. *)
Definition no_sessions (inacc slow echo_rx seed : Z) : bfd_main :=
  Main pool_null ∅ [] inacc slow echo_rx seed pool_null ∅ [].

(** An instance of the parameters: a clock of one tick per microsecond, transmissions at the full interval, and sums. *)
Definition toy_env : BfdEnv := {|
  usec_to_clocks us := us;
  clocks_to_usec clocks := clocks;
  next_tx _ _ last interval := last + interval;
  echo_checksum discriminator expire secret := u64 (discriminator + expire + secret);
  sha1 bytes := replicate 20 (u8 (foldr Z.add 0 bytes));
|}.

(** A session by itself, with the discriminator [discr]. *)
Definition toy_session (discr : Z) : st :=
  @bfd_set_defaults toy_env
    (St (no_sessions 100 1000000 1000000 discr) (set_local_discr discr (zero_session 0 BFD_TRANSPORT_UDP4))).

(** Evaluates the comparisons of known states. *)
Ltac compute_states := repeat match goal with
  |- context [is_state ?a ?b] => let v := eval vm_compute in (is_state a b) in change (is_state a b) with v end;
  cbv iota.

End Bfd.
