(* ===== verification/BfdFrame.v ===== *)
(** * BFD: what the handlers of a session leave alone

    The state machine and the timers of Bfd keep the configuration of a session, its keys, and all of the main
    structure except the wheel, the log and the random seed.  A handler with this property is
    [steady]; one that also sends or receives authenticated frames changes the sequence
    numbers and is [steady'].  The hints of the database [steady] compose them. *)

From stdpp Require Import gmap.
From S2P Require Import Prelude ByteOrder Bitmap Popcount Pool Bfd.

Module BfdFrame.
Import ClibPool Bfd.

(** The configuration of a session. *)
Definition config (b : bfd_session) :=
  (bs_idx b, local_discr b, config_desired_min_tx_usec b, config_desired_min_tx_clocks b,
   config_required_min_rx_usec b, config_required_min_rx_clocks b, local_detect_mult b, echo_secret b, transport b).

(** The authentication without the sequence numbers. *)
Definition keys_of (a : bfd_auth) := (curr_key a, next_key a, curr_bfd_key_id a, next_bfd_key_id a, is_delayed a).

Definition tables (m : bfd_main) :=
  (sessions m, session_by_disc m, wheel_inaccuracy m, default_desired_min_tx_clocks m,
   min_required_min_rx_while_echo_clocks m, auth_keys m, auth_key_by_conf_key_id m).

Definition frame (s : st) := (config (bs s), auth (bs s), tables (bm s)).
Definition frame' (s : st) := (config (bs s), keys_of (auth (bs s)), tables (bm s)).

Lemma frame'_of s : frame' s = let '(c, a, t) := frame s in (c, keys_of a, t).
Proof. done. Qed.
Lemma frame'_parts s s' : frame' s = frame' s' →
  config (bs s) = config (bs s') ∧ keys_of (auth (bs s)) = keys_of (auth (bs s')) ∧ tables (bm s) = tables (bm s').
Proof.
  intros H. split; [exact (f_equal (λ x, x.1.1) H)|]. split; [exact (f_equal (λ x, x.1.2) H)|exact (f_equal snd H)].
Qed.
Lemma frame'_sessions s s' : frame' s = frame' s' → sessions (bm s) = sessions (bm s').
Proof. intros H. exact (f_equal (λ x, x.2.1.1.1.1.1.1) H). Qed.
Lemma frame_parts s s' : frame s = frame s' →
  config (bs s) = config (bs s') ∧ auth (bs s) = auth (bs s') ∧ tables (bm s) = tables (bm s').
Proof.
  intros H. split; [exact (f_equal (λ x, x.1.1) H)|]. split; [exact (f_equal (λ x, x.1.2) H)|exact (f_equal snd H)].
Qed.
Lemma frame_frame' s s' : frame s = frame s' → frame' s = frame' s'.
Proof. intros H. by rewrite !frame'_of, H. Qed.

Create HintDb steady.

Section bfd.
Context {Env : BfdEnv}.

Definition steady (f : st → st) : Prop := ∀ s, frame (f s) = frame s.
Definition steady' (f : st → st) : Prop := ∀ s, frame' (f s) = frame' s.

Lemma steady_steady' f : steady f → steady' f.
Proof. intros H s. by apply frame_frame'. Qed.

Lemma steady_when b f : steady f → steady (when b f).
Proof. intros H s. by destruct b. Qed.

End bfd.

#[export] Hint Resolve steady_steady' : steady.

(** The last handler of a chain, when it is steady by the hints or by definition. *)
Ltac steady_step := match goal with
  | |- frame (_ ?s) = frame ?s => reflexivity
  | |- frame (when _ _ _) = _ => etrans; [apply steady_when; solve [auto with steady]|]
  | |- frame (upd _ ?s) = _ => transitivity (frame s); [reflexivity|]
  | |- frame (emit _ ?s) = _ => transitivity (frame s); [reflexivity|]
  | |- frame (?f ?s) = _ => etrans; [refine ((_ : steady f) s); solve [auto with steady]|]
  | |- frame' (upd _ ?s) = _ => transitivity (frame' s); [reflexivity|]
  | |- frame' (emit _ ?s) = _ => transitivity (frame' s); [reflexivity|]
  | |- frame' (?f ?s) = _ => etrans; [refine ((_ : steady' f) s); solve [auto with steady]|]
  end.
Ltac steady_chain := repeat first [done | steady_step].

Section handlers.
Context {Env : BfdEnv}.

Tactic Notation "steady" reference(f) :=
  intros s; unfold f, upd, updm, emit, when; cbn [bs bm];
  repeat (match goal with |- context [if ?b then _ else _] => destruct b end; cbn [bs bm]); done.

Lemma steady_diag x : steady (bfd_set_diag x). Proof. done. Qed.
Lemma steady_poll_state x : steady (bfd_set_poll_state x). Proof. done. Qed.
Lemma steady_calc_next_tx now : steady (bfd_calc_next_tx now). Proof. done. Qed.
Lemma steady_calc_next_echo_tx now : steady (bfd_calc_next_echo_tx now). Proof. done. Qed.
Lemma steady_recalc_tx : steady bfd_recalc_tx_interval. Proof. done. Qed.
Lemma steady_recalc_echo_tx : steady bfd_recalc_echo_tx_interval. Proof. done. Qed.
Lemma steady_recalc_detection : steady bfd_recalc_detection_time.
Proof. steady bfd_recalc_detection_time. Qed.
Lemma steady_set_timer now hw : steady (bfd_set_timer now hw).
Proof. intros s. unfold bfd_set_timer. cbv zeta. destruct (_ && _), hw; done. Qed.
#[local] Hint Resolve steady_diag steady_poll_state steady_calc_next_tx steady_calc_next_echo_tx steady_recalc_tx
  steady_recalc_echo_tx steady_recalc_detection steady_set_timer : steady.

Lemma steady_required_min_rx x : steady (bfd_set_effective_required_min_rx x).
Proof. intros s. unfold bfd_set_effective_required_min_rx. steady_chain. Qed.
Lemma steady_desired_min_tx now x : steady (bfd_set_effective_desired_min_tx now x).
Proof. intros s. unfold bfd_set_effective_desired_min_tx. steady_chain. Qed.
Lemma steady_remote_min_rx x : steady (bfd_set_remote_required_min_rx x).
Proof. intros s. unfold bfd_set_remote_required_min_rx. case_match; steady_chain. Qed.
Lemma steady_remote_min_echo_rx x : steady (bfd_set_remote_required_min_echo_rx x).
Proof. intros s. unfold bfd_set_remote_required_min_echo_rx. case_match; steady_chain. Qed.
#[local] Hint Resolve steady_required_min_rx steady_desired_min_tx steady_remote_min_rx steady_remote_min_echo_rx : steady.

Lemma steady_on_state_change now hw : steady (bfd_on_state_change now hw).
Proof. intros s. unfold bfd_on_state_change. cbv zeta. case_match; steady_chain. Qed.
#[local] Hint Resolve steady_on_state_change : steady.

Lemma steady_set_state x now hw : steady (bfd_set_state x now hw).
Proof. intros s. unfold bfd_set_state. case_match; steady_chain. Qed.
#[local] Hint Resolve steady_set_state : steady.

Lemma steady_session_start : steady bfd_session_start.
Proof. intros s. unfold bfd_session_start. steady_chain. Qed.
Lemma steady_set_flags up now now' : steady (bfd_session_set_flags up now now').
Proof. intros s. unfold bfd_session_set_flags. case_match; steady_chain. Qed.
Lemma steady_config_change now : steady (bfd_on_config_change now).
Proof. intros s. unfold bfd_on_config_change. steady_chain. Qed.
Lemma steady_check_rx now now' hw : steady (bfd_check_rx_timeout now now' hw).
Proof. intros s. unfold bfd_check_rx_timeout. cbv zeta. repeat case_match; steady_chain. Qed.
Lemma steady_switch_on_echo now : steady (switch_on_echo now).
Proof. intros s. unfold switch_on_echo. steady_chain. Qed.
Lemma steady_consume_final now : steady (consume_final now).
Proof. intros s. unfold consume_final. cbv zeta. repeat case_match; steady_chain. Qed.
Lemma steady_consume_state now : steady (consume_state now).
Proof. intros s. unfold consume_state. repeat case_match; steady_chain. Qed.
Lemma steady_send_echo i now : steady (bfd_send_echo i now).
Proof. intros s. unfold bfd_send_echo. cbv zeta. repeat case_match; steady_chain. Qed.
#[local] Hint Resolve steady_consume_final steady_consume_state : steady.

(** The poll bit; the authentication section counts the sequence number up. *)
Lemma frame_poll_frame now pkt s : frame (poll_frame now pkt s).2 = frame s.
Proof. unfold poll_frame. repeat case_match; steady_chain. Qed.

Lemma frame_add_auth pkt s : frame' (bfd_add_auth_section pkt s).2 = frame' s.
Proof. unfold bfd_add_auth_section. destruct (curr_key _); [|done]. by destruct (is_sha1_type _). Qed.

Lemma steady_send_periodic i now : steady' (bfd_send_periodic i now).
Proof.
  intros s. unfold bfd_send_periodic. cbv zeta. do 2 (case_match; [done|]). case_match; [|done]. case_match; [done|].
  pose proof (frame_poll_frame now (bfd_init_control_frame (bs s)) s) as Hf.
  destruct (poll_frame _ _ _) as [pkt s1]. pose proof (frame_add_auth pkt s1) as Ha.
  destruct (bfd_add_auth_section _ _) as [[pkt' a] s2]. cbn [snd] in *.
  steady_chain. rewrite Ha. by apply frame_frame'.
Qed.

Lemma steady_final now : steady' (λ s, (bfd_init_final_control_frame now s).2).
Proof.
  intros s. unfold bfd_init_final_control_frame. pose proof (frame_add_auth (bfd_pkt_set_final (bfd_init_control_frame (bs s))) s) as H.
  destruct (bfd_add_auth_section _ _) as [[pkt a] s1]. cbn [snd] in *. steady_chain.
Qed.

(** The authentication after the remote variables are set. *)
Definition auth_heard (pkt : bfd_pkt) (a : bfd_auth_sha1) (x : bfd_auth) : bfd_auth :=
  if negb (bfd_pkt_get_auth_present pkt =? 0) && is_sha1_type (sha1_type a)
  then set_remote_seq (clib_net_to_host_u32 (sha1_seq_num a)) true x else x.

Lemma frame_consume_remote pkt a now s :
  frame (consume_remote pkt a now s) = (config (bs s), auth_heard pkt a (auth (bs s)), tables (bm s)).
Proof. unfold consume_remote, auth_heard. cbv zeta. steady_chain. by destruct (_ && _). Qed.

Lemma frame_consume pkt a now now' s :
  frame (consume pkt a now now' s) =
    (config (bs s), (if negb (your_disc pkt =? 0) && negb (your_disc pkt =? local_discr (bs s)) then auth (bs s)
                     else auth_heard pkt a (auth (bs s))), tables (bm s)).
Proof. unfold consume. case_match; [done|]. steady_chain. by rewrite frame_consume_remote. Qed.

Lemma steady_consume pkt a now now' : steady' (consume pkt a now now').
Proof.
  intros s. rewrite frame'_of, frame_consume. case_match; [done|]. unfold auth_heard. by case_match.
Qed.
End handlers.

#[export] Hint Resolve steady_diag steady_poll_state steady_calc_next_tx steady_calc_next_echo_tx steady_recalc_tx
  steady_recalc_echo_tx steady_recalc_detection steady_set_timer steady_required_min_rx steady_desired_min_tx
  steady_remote_min_rx steady_remote_min_echo_rx steady_on_state_change steady_set_state steady_session_start
  steady_set_flags steady_config_change steady_check_rx steady_switch_on_echo steady_consume_final
  steady_consume_state steady_send_echo steady_send_periodic steady_consume : steady.

Section timeouts.
Context {Env : BfdEnv}.

Lemma steady_on_timeout i now now' : steady' (bfd_on_timeout i now now').
Proof.
  intros s. unfold bfd_on_timeout. cbv zeta. destruct (local_state (bs s)); steady_chain.
  etrans; [apply frame_frame', steady_when; auto with steady|]. steady_chain.
  etrans; [apply frame_frame', steady_when; auto with steady|]. steady_chain.
Qed.

End timeouts.

#[export] Hint Resolve steady_on_timeout : steady.

End BfdFrame.
