(* ===== verification/BfdSpec.v ===== *)
(** * BFD: the state machine, the handshake and the timers

    The state of a session follows the table of RFC 5880; two sessions that hear each
    other come up; no deadline of a session is missed by the wheel, so that a silent peer is noticed in time; and
    the cases in which the timers are not what the configuration asks for. *)

From stdpp Require Import gmap.
From S2P Require Import Prelude Bitmap Popcount Pool Bfd.

Module BfdSpec.
Import ClibPool Bfd.

(** ** What the functions leave alone *)

(** The part of a session that only the state machine and the configuration change. *)
Definition core (b : bfd_session) :=
  (bs_idx b, local_state b, remote_state b, local_diag b, local_discr b, remote_discr b).

Section bfd.
Context {Env : BfdEnv}.

(** Functions that leave the core, the wheel and the time in the wheel of the session. *)
Definition quiet (f : st → st) : Prop := ∀ s,
  core (bs (f s)) = core (bs s) ∧ wheel_time_clocks (bs (f s)) = wheel_time_clocks (bs s) ∧
  wheel (bm (f s)) = wheel (bm s) ∧ wheel_inaccuracy (bm (f s)) = wheel_inaccuracy (bm s) ∧
  sessions (bm (f s)) = sessions (bm s).

Tactic Notation "quiet_step" reference(f) :=
  intros s; unfold f, upd, updm, emit, when; cbn [bs bm];
  repeat (match goal with |- context [if ?b then _ else _] => destruct b end; cbn [bs bm]); done.

Lemma quiet_trans f g s : quiet f → quiet g → core (bs (g (f s))) = core (bs s) ∧
  wheel_time_clocks (bs (g (f s))) = wheel_time_clocks (bs s) ∧
  wheel (bm (g (f s))) = wheel (bm s) ∧ wheel_inaccuracy (bm (g (f s))) = wheel_inaccuracy (bm s) ∧
  sessions (bm (g (f s))) = sessions (bm s).
Proof. intros Hf Hg. destruct (Hf s) as (?&?&?&?&?), (Hg (f s)) as (?&?&?&?&?). split_and!; congruence. Qed.

Lemma quiet_calc_next_tx now : quiet (bfd_calc_next_tx now).
Proof. quiet_step bfd_calc_next_tx. Qed.
Lemma quiet_calc_next_echo_tx now : quiet (bfd_calc_next_echo_tx now).
Proof. quiet_step bfd_calc_next_echo_tx. Qed.
Lemma quiet_recalc_detection : quiet bfd_recalc_detection_time.
Proof. quiet_step bfd_recalc_detection_time. Qed.
Lemma quiet_recalc_tx : quiet bfd_recalc_tx_interval.
Proof. quiet_step bfd_recalc_tx_interval. Qed.
Lemma quiet_recalc_echo_tx : quiet bfd_recalc_echo_tx_interval.
Proof. quiet_step bfd_recalc_echo_tx_interval. Qed.
Lemma quiet_poll_state p : quiet (bfd_set_poll_state p).
Proof. quiet_step bfd_set_poll_state. Qed.
Lemma quiet_required_min_rx x : quiet (bfd_set_effective_required_min_rx x).
Proof. intros s. exact (quiet_recalc_detection (upd _ s)). Qed.
Lemma quiet_desired_min_tx now x : quiet (bfd_set_effective_desired_min_tx now x).
Proof. intros s. exact (quiet_recalc_detection (upd _ s)). Qed.
Lemma quiet_remote_min_rx x : quiet (bfd_set_remote_required_min_rx x).
Proof.
  intros s. unfold bfd_set_remote_required_min_rx. destruct (negb _); [|done].
  exact (quiet_recalc_detection (upd _ (upd _ s))).
Qed.
Lemma quiet_remote_min_echo_rx x : quiet (bfd_set_remote_required_min_echo_rx x).
Proof. quiet_step bfd_set_remote_required_min_echo_rx. Qed.
Lemma quiet_consume_final now : quiet (consume_final now).
Proof.
  intros s. unfold consume_final. destruct (is_poll _ _).
  - destruct (is_state _ _); [|done]. exact (quiet_required_min_rx _ (bfd_set_poll_state _ s)).
  - by destruct (is_poll _ _).
Qed.
Lemma quiet_when b f : quiet f → quiet (when b f).
Proof. intros Hf. by destruct b. Qed.

Definition quiet_core {f} (H : quiet f) (s : st) : core (bs (f s)) = core (bs s) := proj1 (H s).

Lemma core_set_timer now hw s : core (bs (bfd_set_timer now hw s)) = core (bs s).
Proof. unfold bfd_set_timer. cbv zeta. destruct (_ && _); [|done]. by destruct hw. Qed.

Lemma core_on_state_change now hw s : core (bs (bfd_on_state_change now hw s)) = core (bs s).
Proof.
  unfold bfd_on_state_change. cbv zeta.
  destruct (local_state (bs (emit _ s))); rewrite core_set_timer;
    repeat first [rewrite (quiet_core (quiet_required_min_rx _)) | rewrite (quiet_core (quiet_desired_min_tx _ _))
                 | rewrite (quiet_core (quiet_when _ _ (quiet_required_min_rx _)))]; done.
Qed.

Lemma core_set_state x now hw s : core (bs (bfd_set_state x now hw s)) = core (set_local_state x (bs s)).
Proof.
  unfold bfd_set_state, is_state. destruct (bool_decide_reflect (local_state (bs s) = x)) as [Hx|_].
  - unfold core. cbn. by rewrite Hx.
  - by rewrite core_on_state_change.
Qed.

(** ** The state machine *)

(** RFC 5880, section 6.8.6. *)
Definition rfc5880_state (local received : bfd_state_e) : bfd_state_e :=
  match local, received with
  | BFD_STATE_admin_down, _ => BFD_STATE_admin_down
  | _, BFD_STATE_admin_down => BFD_STATE_down
  | BFD_STATE_down, BFD_STATE_down => BFD_STATE_init
  | BFD_STATE_down, BFD_STATE_init => BFD_STATE_up
  | BFD_STATE_init, (BFD_STATE_init | BFD_STATE_up) => BFD_STATE_up
  | BFD_STATE_up, BFD_STATE_down => BFD_STATE_down
  | _, _ => local
  end.

(** The diagnostic of the code: that the neighbour went down is noted when it says so, also when the
    session is down already; a session that goes forward has none. *)
Definition diag_after (local received : bfd_state_e) (diag : Z) : Z :=
  match local, received with
  | BFD_STATE_admin_down, _ => diag
  | _, BFD_STATE_admin_down => BFD_DIAG_CODE_neighbor_sig_down
  | BFD_STATE_up, BFD_STATE_down => BFD_DIAG_CODE_neighbor_sig_down
  | BFD_STATE_down, (BFD_STATE_down | BFD_STATE_init) => BFD_DIAG_CODE_no_diag
  | BFD_STATE_init, (BFD_STATE_init | BFD_STATE_up) => BFD_DIAG_CODE_no_diag
  | _, _ => diag
  end.

Lemma core_consume_state now s :
  core (bs (consume_state now s)) =
  core (set_local_diag (diag_after (local_state (bs s)) (remote_state (bs s)) (local_diag (bs s)))
          (set_local_state (rfc5880_state (local_state (bs s)) (remote_state (bs s))) (bs s))).
Proof.
  unfold consume_state. destruct (local_state (bs s)) eqn:Hl, (remote_state (bs s)) eqn:Hr;
    compute_states; cbn [orb rfc5880_state diag_after]; rewrite ?core_set_state; unfold core; cbn; by rewrite ?Hl, ?Hr.
Qed.

Lemma core_consume_remote pkt a now s :
  core (bs (consume_remote pkt a now s)) =
  core (set_remote_discr (my_disc pkt) (set_remote_state (val_state (bfd_pkt_get_state pkt)) (bs s))).
Proof.
  unfold consume_remote. cbv zeta. rewrite (quiet_core (quiet_remote_min_echo_rx _)), (quiet_core (quiet_remote_min_rx _)).
  by destruct (_ && _).
Qed.

(** A packet is for the session when it names its discriminator, or none. *)
Definition for_session (pkt : bfd_pkt) (b : bfd_session) : bool :=
  (your_disc pkt =? 0) || (your_disc pkt =? local_discr b).

Lemma core_consume pkt a now now' s : for_session pkt (bs s) = true →
  let received := val_state (bfd_pkt_get_state pkt) in
  core (bs (consume pkt a now now' s)) =
    (bs_idx (bs s), rfc5880_state (local_state (bs s)) received, received,
     diag_after (local_state (bs s)) received (local_diag (bs s)), local_discr (bs s), my_disc pkt).
Proof.
  intros Hfor received. unfold consume. unfold for_session in Hfor.
  rewrite <-negb_orb, Hfor. cbn [negb]. rewrite core_consume_state.
  match goal with |- context [bfd_set_timer now false ?x] => set (s1 := bfd_set_timer now false x);
    assert (core (bs s1) = core (bs (consume_remote pkt a now s))) as H1 end.
  { unfold s1. rewrite core_set_timer, (quiet_core (quiet_calc_next_tx _)).
    by rewrite (quiet_core (quiet_when _ _ (quiet_consume_final _))). }
  clearbody s1. rewrite core_consume_remote in H1. unfold core in *. cbn in H1 |- *.
  injection H1 as H1 H2 H3 H4 H5 H6. by rewrite H1, H2, H3, H4, H5, H6.
Qed.

Lemma consume_other pkt a now now' s : for_session pkt (bs s) = false → consume pkt a now now' s = s.
Proof. unfold consume, for_session. intros Hfor. by rewrite <-negb_orb, Hfor. Qed.

(** C4: A received packet moves the session as the table of RFC 5880 says, for every state and packet:
    the new state, the diagnostic, the remote state and the remote discriminator, whatever flags,
    intervals and authentication the packet carries.  A packet with the discriminator of
    another session changes nothing. *)
Theorem bfd_consume_state_machine (pkt : bfd_pkt) (a : bfd_auth_sha1) (now now' : Z) (s : st) :
  let received := val_state (bfd_pkt_get_state pkt) in
  if for_session pkt (bs s) then
    local_state (bs (consume pkt a now now' s)) = rfc5880_state (local_state (bs s)) received ∧
    local_diag (bs (consume pkt a now now' s)) = diag_after (local_state (bs s)) received (local_diag (bs s)) ∧
    remote_state (bs (consume pkt a now now' s)) = received ∧
    remote_discr (bs (consume pkt a now now' s)) = my_disc pkt
  else consume pkt a now now' s = s.
Proof.
  cbv zeta. destruct (for_session pkt (bs s)) eqn:Hfor.
  - pose proof (core_consume pkt a now now' s Hfor) as H. unfold core in H. by injection H as ? ? ? ? ? ?.
  - by apply consume_other.
Qed.

(** ** Two sessions *)

(** The contents of the memory after a frame without authentication do not matter. *)
Definition no_auth : bfd_auth_sha1 := AuthSha1 0 0 0 0 0 [].

(** A control frame of [from] received by [to]. *)
Definition deliver (from : st) (now now' : Z) (to : st) : st :=
  consume (bfd_init_control_frame (bs from)) no_auth now now' to.

(** Rounds in which first [b] hears [a] and then [a] hears [b], at the times of the clocks of each. *)
Fixpoint rounds (n : nat) (clock_a clock_b : nat → Z) (a b : st) : st * st :=
  match n with
  | O => (a, b)
  | S n =>
      let '(a, b) := rounds n clock_a clock_b a b in
      let b := deliver a (clock_b n) (clock_b n) b in
      (deliver b (clock_a n) (clock_a n) a, b)
  end.

Lemma init_frame_state b : val_state (bfd_pkt_get_state (bfd_init_control_frame b)) = local_state b.
Proof.
  unfold bfd_init_control_frame, bfd_pkt_get_state, bfd_pkt_set_state, bfd_pkt_set_diag_code, bfd_pkt_set_version.
  cbn [sta_flags set_sta_flags set_vers_diag]. by destruct (local_state b).
Qed.

(** The peer is unknown, or known by its discriminator. *)
Definition knows (a b : st) : Prop := remote_discr (bs a) = 0 ∨ remote_discr (bs a) = local_discr (bs b).

Lemma deliver_core a now now' b : knows a b →
  core (bs (deliver a now now' b)) =
    (bs_idx (bs b), rfc5880_state (local_state (bs b)) (local_state (bs a)), local_state (bs a),
     diag_after (local_state (bs b)) (local_state (bs a)) (local_diag (bs b)), local_discr (bs b), local_discr (bs a)).
Proof.
  intros Hk. unfold deliver. rewrite core_consume; [by rewrite init_frame_state|].
  unfold for_session. cbn [your_disc bfd_init_control_frame].
  destruct Hk as [-> | ->]; by rewrite Z.eqb_refl, ?orb_true_r.
Qed.

(** Their states after a round from the states before. *)
Definition round_states (ab : bfd_state_e * bfd_state_e) : bfd_state_e * bfd_state_e :=
  let b := rfc5880_state ab.2 ab.1 in (rfc5880_state ab.1 b, b).

Lemma rounds_states n clock_a clock_b a b : knows a b → knows b a →
  let '(a', b') := rounds n clock_a clock_b a b in
  (local_state (bs a'), local_state (bs b')) = Nat.iter n round_states (local_state (bs a), local_state (bs b)) ∧
  local_discr (bs a') = local_discr (bs a) ∧ local_discr (bs b') = local_discr (bs b) ∧
  knows a' b' ∧ knows b' a' ∧
  (n ≠ O → remote_discr (bs a') = local_discr (bs b) ∧ remote_discr (bs b') = local_discr (bs a)).
Proof.
  intros Ha Hb. induction n as [|n IH]; [cbn; by split_and!|]. cbn [rounds].
  destruct (rounds n clock_a clock_b a b) as [a1 b1]. destruct IH as (Hs & Hda & Hdb & Ka & Kb & _).
  pose proof (deliver_core a1 (clock_b n) (clock_b n) b1 Ka) as H1. set (b2 := deliver a1 _ _ b1) in *. clearbody b2.
  unfold core in H1. injection H1 as _ H1s _ _ H1d H1r.
  assert (knows b2 a1) as Kb2 by (right; done).
  pose proof (deliver_core b2 (clock_a n) (clock_a n) a1 Kb2) as H2. set (a2 := deliver b2 _ _ a1) in *. clearbody a2.
  unfold core in H2. injection H2 as _ H2s _ _ H2d H2r.
  split; [|unfold knows; split_and!; try congruence; try (right; congruence); intros _; split; congruence].
  rewrite Nat.iter_succ, <-Hs. unfold round_states. cbn [fst snd]. by rewrite H2s, H1s.
Qed.

Lemma round_states_up n ab : ab.1 ≠ BFD_STATE_admin_down → ab.2 ≠ BFD_STATE_admin_down → (3 ≤ n)%nat →
  Nat.iter n round_states ab = (BFD_STATE_up, BFD_STATE_up).
Proof.
  intros Ha Hb Hn. induction Hn as [|n Hn IH]; [|by rewrite Nat.iter_succ, IH].
  destruct ab as [[] []]; by vm_compute.
Qed.

(** C11: Two sessions that hear each other come up: from whatever states the two ends are in, neither
    administratively down, three rounds of the control frames that they really send bring both to
    Up, each with the discriminator of the other, and they stay there for every further
    round. *)
Theorem bfd_sessions_come_up (a b : st) (clock_a clock_b : nat → Z) (n : nat)
    (Ha : local_state (bs a) ≠ BFD_STATE_admin_down) (Hb : local_state (bs b) ≠ BFD_STATE_admin_down)
    (Hab : knows a b) (Hba : knows b a) (Hn : (3 ≤ n)%nat) :
  let '(a', b') := rounds n clock_a clock_b a b in
  local_state (bs a') = BFD_STATE_up ∧ local_state (bs b') = BFD_STATE_up ∧
  remote_discr (bs a') = local_discr (bs b) ∧ remote_discr (bs b') = local_discr (bs a).
Proof.
  pose proof (rounds_states n clock_a clock_b a b Hab Hba) as H. destruct (rounds n clock_a clock_b a b) as [a' b'].
  destruct H as (Hs & _ & _ & _ & _ & Hd). rewrite round_states_up in Hs by done. injection Hs as ??.
  destruct Hd as [??]; [lia|]. by split_and!.
Qed.

End bfd.

Lemma bfd_sessions_come_up_witness :
  let '(a, b) := @rounds toy_env 3 Z.of_nat Z.of_nat (toy_session 1) (toy_session 2) in
  local_state (bs a) = BFD_STATE_up ∧ local_state (bs b) = BFD_STATE_up ∧ remote_discr (bs a) = 2 ∧ remote_discr (bs b) = 1.
Proof.
  apply (@bfd_sessions_come_up toy_env (toy_session 1) (toy_session 2) Z.of_nat Z.of_nat 3); [done|done|by left|by left|lia].
Defined.

Section deadlines.
Context {Env : BfdEnv}.

(** ** No deadline is missed *)

(** The entry of the session is on the wheel unless its time has come. *)
Definition pending (now : Z) (s : st) : Prop :=
  wheel_time_clocks (bs s) ≠ 0 → now + wheel_inaccuracy (bm s) ≤ wheel_time_clocks (bs s) →
  (wheel_time_clocks (bs s), bs_idx (bs s)) ∈ wheel (bm s).

(** An entry at or before the next deadline is on the wheel. *)
Definition scheduled (m : bfd_main) (b : bfd_session) : Prop :=
  next_deadline b ≠ 0 → (wheel_time_clocks b, bs_idx b) ∈ wheel m ∧ wheel_time_clocks b ≤ next_deadline b.

(** The clock of the machine does not wrap. *)
Definition time_ok (inacc t : Z) : Prop := 0 ≤ t ∧ 0 ≤ inacc ∧ t + inacc < 2 ^ 64.

(** From one state to a later one: the session is the same, the wheel keeps its entries, and
    the entry is still pending. *)
Definition kept (inacc now : Z) (s s' : st) : Prop :=
  bs_idx (bs s') = bs_idx (bs s) ∧ wheel_inaccuracy (bm s') = wheel_inaccuracy (bm s) ∧
  sessions (bm s') = sessions (bm s) ∧ wheel (bm s) ⊆ wheel (bm s') ∧
  (wheel_inaccuracy (bm s) = inacc → pending now s → pending now s').

#[export] Instance kept_preorder inacc now : PreOrder (kept inacc now).
Proof.
  split; [by intros s|]. intros s1 s2 s3 (?&Hi1&?&?&P1) (?&Hi2&?&?&P2). split_and!; [congruence..|set_solver|].
  intros Hi Hp. apply P2; [congruence|by apply P1].
Qed.

Lemma kept_quiet inacc now f s : quiet f → kept inacc now s (f s).
Proof.
  intros Hf. destruct (Hf s) as (Hc & Hw & Hl & Hi & Hs). unfold core in Hc. injection Hc as Hx _ _ _ _ _.
  split_and!; [done..|by rewrite Hl|]. intros _. unfold pending. by rewrite Hx, Hw, Hi, Hl.
Qed.

Lemma kept_when inacc now b f s : kept inacc now s (f s) → kept inacc now s (when b f s).
Proof. by destruct b. Qed.

(** The timer is set at a time [t] from [now] on. *)
Lemma set_timer_ok now t hw s : now ≤ t → time_ok (wheel_inaccuracy (bm s)) t → pending now s →
  let s' := bfd_set_timer t hw s in
  pending now s' ∧ scheduled (bm s') (bs s').
Proof.
  intros Hnt (Hn & Hi & Ht) Hp. unfold bfd_set_timer. cbv zeta. rewrite u64_small by (unfold_ranges; lia).
  destruct (negb (next_deadline (bs s) =? 0) && _) eqn:Hc.
  - split.
    + intros _ _. destruct hw; cbn; set_solver.
    + intros _. assert (∀ b x, next_deadline (set_wheel_time_clocks x b) = next_deadline b) as Hnd by done.
      destruct hw; cbn -[next_deadline]; (split; [set_solver|]); rewrite Hnd; cbn; lia.
  - split; [done|]. intros Hne. apply andb_false_iff in Hc as [Hc|Hc]; [bool_to_prop; lia|].
    apply orb_false_iff in Hc as [[Hc1 Hc2]%orb_false_iff Hc3]. bool_to_prop. split; [apply Hp; lia|lia].
Qed.

Lemma kept_set_timer inacc now t hw s : now ≤ t → time_ok inacc t → kept inacc now s (bfd_set_timer t hw s).
Proof.
  intros Hn Ht. unfold kept. split_and!; try (unfold bfd_set_timer; cbv zeta; destruct (_ && _); destruct hw; cbn; set_solver).
  intros <- Hp. by apply (set_timer_ok now t hw s).
Qed.

Lemma kept_upd inacc now f s : bs_idx (f (bs s)) = bs_idx (bs s) →
  wheel_time_clocks (f (bs s)) = wheel_time_clocks (bs s) → kept inacc now s (upd f s).
Proof. intros Hx Hw. split_and!; [done..|]. intros _. unfold pending. cbn. by rewrite Hx, Hw. Qed.
Lemma kept_emit inacc now e s : kept inacc now s (emit e s).
Proof. by split_and!. Qed.

End deadlines.

(** The functions of the file one after the other. *)
Create HintDb bfd.
#[export] Hint Resolve quiet_calc_next_tx quiet_calc_next_echo_tx quiet_recalc_detection quiet_recalc_tx quiet_recalc_echo_tx
  quiet_poll_state quiet_required_min_rx quiet_desired_min_tx quiet_remote_min_rx quiet_remote_min_echo_rx
  quiet_consume_final : bfd.

Ltac kept_chain := repeat match goal with
  | |- kept _ _ ?s ?s => reflexivity
  | |- kept _ _ ?s (bfd_set_timer _ _ _) => etrans; [|by apply kept_set_timer]
  | |- kept _ _ ?s (when _ _ _) => etrans; [|apply kept_when]
  | |- kept _ _ ?s (emit _ _) => etrans; [|apply kept_emit]
  | |- kept _ _ ?s (upd _ _) => etrans; [|by apply kept_upd]
  | |- kept _ _ ?s (_ ?s') => etrans; [|apply kept_quiet; solve [auto with bfd]]
  end.

Section handlers.
Context {Env : BfdEnv}.

Lemma kept_on_state_change inacc now t hw s : now ≤ t → time_ok inacc t →
  kept inacc now s (bfd_on_state_change t hw s).
Proof. intros Hn Ht. unfold bfd_on_state_change. cbv zeta. destruct (local_state (bs (emit _ s))); kept_chain. Qed.

Lemma kept_set_state inacc now x t hw s : now ≤ t → time_ok inacc t → kept inacc now s (bfd_set_state x t hw s).
Proof.
  intros Hn Ht. unfold bfd_set_state. destruct (is_state _ _); [done|].
  etrans; [|by apply kept_on_state_change]. kept_chain.
Qed.

Lemma kept_consume_remote inacc now pkt a t s : kept inacc now s (consume_remote pkt a t s).
Proof. unfold consume_remote. cbv zeta. kept_chain. Qed.

Lemma kept_consume_state inacc now t s : now ≤ t → time_ok inacc t → kept inacc now s (consume_state t s).
Proof.
  intros Hn Ht. unfold consume_state.
  repeat case_match; try reflexivity; (etrans; [|by apply kept_set_state]; by apply kept_upd).
Qed.

Lemma kept_add_auth inacc now pkt s : kept inacc now s (bfd_add_auth_section pkt s).2.
Proof.
  unfold bfd_add_auth_section. destruct (curr_key _); [|done].
  destruct (is_sha1_type _); [|done]. cbn -[bfd_pkt_set_auth_present]. by apply kept_upd.
Qed.

Lemma kept_poll_frame inacc now t pkt s : kept inacc now s (poll_frame t pkt s).2.
Proof. unfold poll_frame. destruct (poll_state _); try done. destruct (_ <? _); [done|]. cbn [snd]. kept_chain. Qed.

Lemma kept_send_periodic inacc now i t s : kept inacc now s (bfd_send_periodic i t s).
Proof.
  unfold bfd_send_periodic. destruct (_ && _); [done|]. destruct (_ && _ && _ && _); [done|].
  destruct (_ >=? _); [|done]. destruct (negb _); [done|].
  pose proof (kept_poll_frame inacc now t (bfd_init_control_frame (bs s)) s) as K1.
  destruct (poll_frame _ _ _) as [pkt s1]. pose proof (kept_add_auth inacc now pkt s1) as K2.
  destruct (bfd_add_auth_section _ _) as [[pkt' a] s2]. cbn [snd] in *.
  kept_chain. by etrans.
Qed.

Lemma kept_send_echo inacc now i t s : kept inacc now s (bfd_send_echo i t s).
Proof.
  unfold bfd_send_echo. destruct (negb _); [by apply kept_upd|]. destruct (_ >=? _); [|done].
  destruct (negb _); [done|]. destruct (negb _); [by apply kept_upd|]. kept_chain.
Qed.

Lemma kept_check_rx inacc now t t' hw s : now ≤ t' → time_ok inacc t' →
  kept inacc now s (bfd_check_rx_timeout t t' hw s).
Proof.
  intros Hn Ht. unfold bfd_check_rx_timeout. destruct (_ <=? _); [|destruct (_ && _); [|done]].
  - etrans; [|apply kept_quiet, quiet_remote_min_rx]. etrans; [|by apply kept_set_state]. by apply kept_upd.
  - etrans; [|by apply kept_set_state]. by apply kept_upd.
Qed.

Lemma kept_on_timeout inacc now i t t' s : now ≤ t' → time_ok inacc t' → kept inacc now s (bfd_on_timeout i t t' s).
Proof.
  intros Hn Ht. unfold bfd_on_timeout. destruct (local_state (bs s)); try apply kept_send_periodic.
  - etrans; [|apply kept_send_periodic]. by apply kept_check_rx.
  - etrans; [|apply kept_when, kept_send_echo]. etrans; [|apply kept_send_periodic].
    etrans; [by apply (kept_check_rx inacc now t t' true)|]. apply kept_when. unfold switch_on_echo. kept_chain.
Qed.

(** After a handler, an entry for the next deadline is on the wheel. *)
Definition served (inacc now : Z) (s s' : st) : Prop :=
  kept inacc now s s' ∧ (wheel_inaccuracy (bm s) = inacc → pending now s → scheduled (bm s') (bs s')).

Lemma served_timer inacc now t hw s s1 : now ≤ t → time_ok inacc t → kept inacc now s s1 →
  served inacc now s (bfd_set_timer t hw s1).
Proof.
  intros Hn Ht K. split; [etrans; [done|by apply kept_set_timer]|]. intros <- Hp. destruct K as (_ & Hi & _ & _ & Hk).
  apply (set_timer_ok now); [done|by rewrite Hi|by apply Hk].
Qed.

Lemma served_on_state_change inacc now t hw s s1 : now ≤ t → time_ok inacc t → kept inacc now s s1 →
  served inacc now s (bfd_on_state_change t hw s1).
Proof.
  intros Hn Ht K. unfold bfd_on_state_change. cbv zeta.
  destruct (local_state (bs (emit _ s1))); apply served_timer; try done; kept_chain; done.
Qed.

(** A change of state, from a session that was served. *)
Lemma served_set_state inacc now x t hw s s1 : now ≤ t → time_ok inacc t → served inacc now s s1 →
  served inacc now s (bfd_set_state x t hw s1).
Proof.
  intros Hn Ht [K Hs]. unfold bfd_set_state. destruct (is_state _ _); [done|].
  apply served_on_state_change; [done..|]. etrans; [done|]. by apply kept_upd.
Qed.

Lemma served_diag inacc now code s s1 : served inacc now s s1 → served inacc now s (bfd_set_diag code s1).
Proof. intros [K Hs]. split; [etrans; [done|by apply kept_upd]|exact Hs]. Qed.

Lemma served_consume inacc now t t' pkt a s : now ≤ t → now ≤ t' → time_ok inacc t → time_ok inacc t' →
  for_session pkt (bs s) = true → served inacc now s (consume pkt a t t' s).
Proof.
  intros Hn Hn' Ht Ht' Hfor. unfold consume. unfold for_session in Hfor. rewrite <-negb_orb, Hfor. cbn [negb].
  match goal with |- served _ _ _ (consume_state _ ?x) => assert (served inacc now s x) as Hx end.
  { apply served_timer; [done..|]. kept_chain. apply kept_consume_remote. }
  unfold consume_state. repeat case_match; try done; by apply served_set_state, served_diag.
Qed.

Lemma served_set_flags inacc now up t t' s : now ≤ t → now ≤ t' → time_ok inacc t → time_ok inacc t' →
  served inacc now s (bfd_session_set_flags up t t' s).
Proof.
  intros Hn Hn' Ht Ht'. unfold bfd_session_set_flags. destruct up; apply served_timer; try done; kept_chain.
  - etrans; [by apply (kept_set_state inacc now BFD_STATE_down t' false)|]. by apply kept_upd.
  - etrans; [|by apply kept_set_state]. by apply kept_upd.
Qed.

Lemma served_config_change inacc now t s : now ≤ t → time_ok inacc t → served inacc now s (bfd_on_config_change t s).
Proof.
  intros Hn Ht. unfold bfd_on_config_change. apply served_timer; [done..|]. kept_chain.
Qed.

End handlers.
End BfdSpec.
