(* ===== verification/BfdTimers.v ===== *)
(** * BFD: no deadline of a session is missed

    The sessions of the main structure with the timing wheel, under every interleaving of
    packets, configuration and turns of the process node: an entry for the next deadline of each session is on
    the wheel, and a peer that falls silent is noticed by the first turn after the detection
    time.  The wheel itself is specified by what [timing_wheel_advance] takes off it. *)

From stdpp Require Import gmap.
From S2P Require Import Prelude Bitmap Popcount Pool Bfd BfdSpec.

Module BfdTimers.
Import ClibPool Bfd BfdSpec.

Section bfd.
Context {Env : BfdEnv}.
Context (inacc : Z).

(** The main structure, the sessions whose parameters were changed and which the process node has not
    looked at since, and the clock. *)
Record sys := Sys { main : bfd_main; changed : gset Z; clock : Z }.

(** What the wheel gives at [now]: everything that is due, and nothing that is due later than its inaccuracy. *)
Definition advanced (now : Z) (wh expired : list (Z * Z)) : Prop :=
  (∀ x, x ∈ wh → x.1 ≤ now → x ∈ expired) ∧ (∀ x, x ∈ expired → x ∈ wh ∧ x.1 < now + inacc).

(** The times at which handlers read the clock. *)
Definition later (c now now' : Z) : Prop := 0 ≤ c ≤ now ∧ now ≤ now' ∧ time_ok inacc now'.

Inductive bfd_step : sys → sys → Prop :=
  | step_receive m U c pkt a now now' idx : later c now now' →
      bfd_step (Sys m U c) (Sys (bfd_consume_pkt pkt a now now' idx m) U now')
  | step_final m U c now idx : later c now now →
      bfd_step (Sys m U c) (Sys (on_session (λ s, (bfd_init_final_control_frame now s).2) idx m) U now)
  | step_echo m U c discr expire sum now : later c now now →
      bfd_step (Sys m U c) (Sys (bfd_consume_echo_pkt discr expire sum now m).2 U now)
  | step_flags m U c up now now' idx : later c now now' →
      bfd_step (Sys m U c) (Sys (on_session (bfd_session_set_flags up now now') idx m) U now')
  | step_params m U c tx rx mult idx :
      bfd_step (Sys m U c) (Sys (on_session (bfd_session_set_params tx rx mult) idx m) (U ∪ {[idx]}) c)
  | step_add m U c t : pool_len (sessions m) < 2 ^ 32 →
      bfd_step (Sys m U c) (Sys (bfd_get_session t m).1 U c)
  | step_start m U c idx :
      (∀ b, bfd_find_session_by_idx m idx = Some b → local_state b = BFD_STATE_down) →
      bfd_step (Sys m U c) (Sys (on_session bfd_session_start idx m) U c)
  | step_remove m U c idx : bfd_step (Sys m U c) (Sys (bfd_put_session idx m) U c)
  | step_turn m U c i e now now' T expired : 0 ≤ c ≤ now → time_ok inacc T → (∀ idx, now ≤ now' idx ≤ T) →
      advanced now (wheel (process_event i e now m)) expired →
      bfd_step (Sys m U c) (Sys (bfd_process_turn i e now now' expired m)
                  (match e with Event_config_changed idx => U ∖ {[idx]} | _ => U end) T).

(** Each session of the pool knows its index and has its entry pending, and it is scheduled unless
    [ex] excepts it. *)
Record sessions_ok (now : Z) (ex : Z → Prop) (m : bfd_main) : Prop := {
  so_pool : pool_ok (sessions m);
  so_inacc : wheel_inaccuracy m = inacc;
  so_session idx b : bfd_find_session_by_idx m idx = Some b →
    bs_idx b = idx ∧ pending now (St m b) ∧ (ex idx ∨ scheduled m b);
}.

Lemma sessions_ok_weaken now now' (ex ex' : Z → Prop) m : now ≤ now' → (∀ idx, ex idx → ex' idx) →
  sessions_ok now ex m → sessions_ok now' ex' m.
Proof.
  intros Hn Hex [Hp Hi Hs]. split; [done..|]. intros idx b Hb. destruct (Hs idx b Hb) as (?&Hpen&Hsch).
  split; [done|]. split; [|destruct Hsch; [left; by apply Hex|by right]].
  intros Hw Hl. apply Hpen; [done|]. cbn in *. lia.
Qed.

(** A handler on one session leaves the others scheduled; its own is then excepted by [P] or scheduled. *)
Lemma on_session_ok now (ex ex' : Z → Prop) f idx m :
  (∀ s, bfd_find_session_by_idx m idx = Some (bs s) → bm s = m → kept inacc now s (f s)) →
  (∀ j, j ≠ idx → ex j → ex' j) →
  (∀ s, bfd_find_session_by_idx m idx = Some (bs s) → bm s = m → pending now s → (ex idx ∨ scheduled m (bs s)) →
     ex' idx ∨ scheduled (bm (f s)) (bs (f s))) →
  sessions_ok now ex m → sessions_ok now ex' (on_session f idx m).
Proof.
  intros Hk Hex Hself [Hp Hi Hs]. unfold on_session. destruct (bfd_find_session_by_idx m idx) as [b|] eqn:Hb.
  2: { split; [done..|]. intros j b' Hb'. destruct (Hs j b' Hb') as (?&?&[?|?]); split_and!; try done; [left|by right].
       apply Hex; [congruence|done]. }
  destruct (Hs idx b Hb) as (Hbi & Hpen & Hsch).
  destruct (Hk (St m b) eq_refl eq_refl) as (Kx & Ki & Ks & Kw & Kp).
  specialize (Hself (St m b) eq_refl eq_refl Hpen Hsch). cbn [bm bs] in *.
  specialize (Kp Hi Hpen). set (s' := f (St m b)) in *.
  assert (∀ x (b' : bfd_session), scheduled (set_sessions x (bm s')) b' ↔ scheduled (bm s') b') as Hsw by done.
  split.
  - cbn. rewrite Ks. by apply pool_set_ok.
  - cbn. by rewrite Ki.
  - intros j b' Hb'. unfold bfd_find_session_by_idx in Hb', Hb. cbn [sessions set_sessions] in Hb'. rewrite Ks in Hb'.
    rewrite pool_elt_set in Hb' by done. rewrite Hsw. destruct (decide (j = idx)) as [->|Hne].
    + injection Hb' as <-. split; [by rewrite Kx|]. split; [exact Kp|done].
    + destruct (Hs j b' Hb') as (?&Hpj&Hsj). split; [done|]. split.
      * intros Hw Hl. apply Kw, Hpj; [done|]. cbn in *. by rewrite <-Ki.
      * destruct Hsj as [?|Hsj]; [left; by apply Hex|right]. intros Hnd. destruct (Hsj Hnd) as [Hin ?].
        split; [by apply Kw|done].
Qed.

Lemma bfd_served_ok now (ex ex' : Z → Prop) f idx m :
  (∀ s, served inacc now s (f s)) → (∀ j, j ≠ idx → ex j → ex' j) →
  sessions_ok now ex m → sessions_ok now ex' (on_session f idx m).
Proof.
  intros Hf Hex Hok. eapply on_session_ok; [|done| |exact Hok].
  - intros s _ _. apply (Hf s).
  - intros s _ Hm Hpen _. right. apply (Hf s); [by rewrite Hm, (so_inacc _ _ _ Hok)|done].
Qed.

(** A handler that moves no deadline towards the present. *)
Lemma bfd_relaxed_ok now (ex : Z → Prop) f idx m :
  (∀ s, bfd_find_session_by_idx m idx = Some (bs s) → kept inacc now s (f s) ∧
     wheel_time_clocks (bs (f s)) = wheel_time_clocks (bs s) ∧
     (next_deadline (bs (f s)) ≠ 0 →
        next_deadline (bs s) ≠ 0 ∧ next_deadline (bs s) ≤ next_deadline (bs (f s)))) →
  sessions_ok now ex m → sessions_ok now ex (on_session f idx m).
Proof.
  intros Hf Hok. eapply on_session_ok; [|done| |exact Hok].
  - intros s Hs _. apply (Hf s Hs).
  - intros s Hs Hm _ [?|Hsch]; [by left|right]. destruct (Hf s Hs) as ((Hx & _ & _ & Hw & _) & Ht & Hnd).
    intros Hne. destruct (Hnd Hne) as [Hne' Hle]. destruct (Hsch Hne') as [Hin Hwl]. rewrite Ht, Hx. rewrite Hm in Hw.
    split; [by apply Hw|lia].
Qed.

Lemma bfd_final_relaxed b b' : local_state b' = local_state b → last_rx_clocks b' = last_rx_clocks b →
  detection_time_clocks b' = detection_time_clocks b → remote_demand b' = remote_demand b →
  remote_min_rx_usec b' = remote_min_rx_usec b → tx_timeout_clocks b' = tx_timeout_clocks b →
  echo b' = echo b → echo_tx_timeout_clocks b' = echo_tx_timeout_clocks b → poll_state b' = BFD_POLL_NOT_NEEDED →
  next_deadline b' ≠ 0 → next_deadline b ≠ 0 ∧ next_deadline b ≤ next_deadline b'.
Proof.
  intros H1 H2 H3 H4 H5 H6 H7 H8 H9. unfold next_deadline. rewrite H1, H2, H3, H4, H5, H6, H7, H8, H9.
  change (is_poll BFD_POLL_NOT_NEEDED BFD_POLL_NOT_NEEDED) with true. cbn [negb]. rewrite orb_false_r.
  pose proof (u64_range (last_rx_clocks b + detection_time_clocks b)) as Hr. unfold_ranges.
  set (rx := if is_state BFD_STATE_up (local_state b) then _ else 0). assert (0 ≤ rx) by (unfold rx; case_match; lia).
  clearbody rx. set (c := _ || _ : bool). clearbody c. set (d := negb (is_poll _ _)). clearbody d.
  set (t := tx_timeout_clocks b). set (et := echo_tx_timeout_clocks b). clearbody t et.
  destruct c, d, (echo b); cbn [orb andb];
    destruct (Z.eqb_spec t 0), (Z.eqb_spec rx 0); subst; cbn [negb andb Z.eqb];
    repeat match goal with |- context [?x >? ?y] => destruct (Z.gtb_spec x y) end; lia.
Qed.

Lemma bfd_final_ok now t idx (ex : Z → Prop) m : sessions_ok now ex m →
  sessions_ok now ex (on_session (λ s, (bfd_init_final_control_frame t s).2) idx m).
Proof.
  apply bfd_relaxed_ok. intros s _.
  unfold bfd_init_final_control_frame, bfd_add_auth_section, bfd_add_sha1_auth_section. cbv zeta.
  destruct (curr_key _); [destruct (is_sha1_type _)|]; cbn [snd];
    (split; [kept_chain|split; [done|by apply bfd_final_relaxed]]).
Qed.

Lemma bfd_receive_ok c now now' pkt a idx (ex : Z → Prop) m : later c now now' →
  sessions_ok c ex m → sessions_ok c ex (bfd_consume_pkt pkt a now now' idx m).
Proof.
  intros (Hl & Hl' & Ht) Hok. assert (time_ok inacc now) as Ht1 by (unfold time_ok in *; lia).
  assert (∀ s, consume pkt a now now' s = s ∨ served inacc c s (consume pkt a now now' s)) as Hc.
  { intros s. destruct (for_session pkt (bs s)) eqn:Hfor; [right|left; by apply consume_other].
    apply served_consume; [lia|lia|done..]. }
  unfold bfd_consume_pkt. eapply on_session_ok; [| | |exact Hok].
  - intros s _ _. destruct (Hc s) as [->|[? _]]; done.
  - done.
  - intros s _ Hm Hpen Hsch. destruct (Hc s) as [->|[_ Hs]]; [by rewrite Hm|right].
    apply Hs; [by rewrite Hm, (so_inacc _ _ _ Hok)|done].
Qed.

Lemma bfd_params_ok now tx rx mult idx (ex : Z → Prop) m : sessions_ok now ex m →
  sessions_ok now (λ j, ex j ∨ j = idx) (on_session (bfd_session_set_params tx rx mult) idx m).
Proof.
  intros Hok. eapply on_session_ok; [| |by intros; left; right|exact Hok]; [|by left].
  intros s _ _. unfold bfd_session_set_params. cbv zeta. destruct (_ || _); [|done].
  destruct (poll_state (bs s)); kept_chain.
Qed.

Lemma bfd_start_ok now idx (ex : Z → Prop) m : (∀ b, bfd_find_session_by_idx m idx = Some b → local_state b = BFD_STATE_down) →
  sessions_ok now ex m → sessions_ok now ex (on_session bfd_session_start idx m).
Proof.
  intros Hd. apply bfd_relaxed_ok. intros s Hs. specialize (Hd _ Hs). split; [unfold bfd_session_start; kept_chain|].
  unfold bfd_session_start, bfd_set_effective_required_min_rx, bfd_recalc_detection_time, bfd_recalc_tx_interval, upd, emit, updm.
  cbn [bs bm local_state set_effective_required_min_rx_clocks]. rewrite Hd. compute_states. cbn [orb]. split; [done|].
  intros Hne. split; [exact Hne|reflexivity].
Qed.

Lemma bfd_echo_ok now d e c t (ex : Z → Prop) m : sessions_ok now ex m →
  sessions_ok now ex (bfd_consume_echo_pkt d e c t m).2.
Proof.
  intros Hok. unfold bfd_consume_echo_pkt. destruct (_ !! _) as [idx|]; [|done]. cbn [snd].
  revert Hok. apply bfd_relaxed_ok. intros s _. destruct (negb _); [by split_and!|]. destruct (negb _); [|by split_and!].
  split; [by apply kept_upd|done].
Qed.

Lemma remove_session_ok now (ex : Z → Prop) m p m' : sessions_ok now ex m →
  pool_ok p → (∀ j, pool_elt_at_index p j = None ∨ pool_elt_at_index p j = pool_elt_at_index (sessions m) j) →
  wheel m' = wheel m → wheel_inaccuracy m' = wheel_inaccuracy m → sessions m' = p → sessions_ok now ex m'.
Proof.
  intros [Hp Hi Hs] Hpp Hj Hw Hin Hse. split; [by rewrite Hse|by rewrite Hin|].
  intros j b Hb. unfold bfd_find_session_by_idx in Hb. rewrite Hse in Hb. destruct (Hj j) as [Hn|Hn]; [by rewrite Hn in Hb|].
  rewrite Hn in Hb. destruct (Hs j b Hb) as (?&Hpen&Hsch). split; [done|].
  unfold pending, scheduled in *. cbn in *. by rewrite Hw, Hin.
Qed.

Lemma bfd_put_ok now idx (ex : Z → Prop) m : sessions_ok now ex m → sessions_ok now ex (bfd_put_session idx m).
Proof.
  intros Hok. unfold bfd_put_session. destruct (bfd_find_session_by_idx m idx) as [b|] eqn:Hb; [|done]. cbv zeta.
  assert (∀ d k m, sessions (use_key d k m) = sessions m ∧ wheel (use_key d k m) = wheel m ∧
            wheel_inaccuracy (use_key d k m) = wheel_inaccuracy m) as Huse by (by intros d [k|] m0).
  destruct (Huse (-1) (curr_key (auth b)) m) as (Hu1 & Hu2 & Hu3).
  destruct (Huse (-1) (next_key (auth b)) (use_key (-1) (curr_key (auth b)) m)) as (Hv1 & Hv2 & Hv3).
  set (m1 := use_key (-1) (next_key _) _) in *. clearbody m1.
  destruct (pool_put_ok (sessions m) idx (so_pool _ _ _ Hok)) as (Hp & Hn & Ho & _); [by eexists|].
  assert (sessions m1 = sessions m) as Hse by congruence.
  eapply (remove_session_ok _ _ m (pool_put_index (sessions m) idx)); [done|done| |cbn; congruence|cbn; congruence|cbn; by rewrite Hse].
  intros j. destruct (decide (j = idx)) as [->|]; [by left|right; by apply Ho].
Qed.

Lemma bfd_get_ok now t (ex : Z → Prop) m : pool_len (sessions m) < 2 ^ 32 → sessions_ok now ex m →
  sessions_ok now ex (bfd_get_session t m).1.
Proof.
  intros Hlen Hok. unfold bfd_get_session. destruct (pool_get (zero_session 0 t) (sessions m)) as [p idx] eqn:Hg.
  destruct (pool_get_ok _ _ _ _ (so_pool _ _ _ Hok) Hlen Hg) as (Hp & Hn & Hl & Ho & _).
  cbn [session_by_disc random_seed set_sessions]. destruct (pick_discr _ _ _) as [seed [discr|]].
  - set (s := bfd_set_defaults _). cbn [fst].
    assert (sessions (bm s) = p ∧ wheel (bm s) = wheel m ∧ wheel_inaccuracy (bm s) = wheel_inaccuracy m ∧
            bs_idx (bs s) = idx ∧ wheel_time_clocks (bs s) = 0 ∧ next_deadline (bs s) = 0) as (Hs1&Hs2&Hs3&Hs4&Hs5&Hs6) by done.
    clearbody s. destruct Hok as [Hpm Hi Hs]. split.
    + cbn. rewrite Hs1. by apply pool_set_ok.
    + cbn. congruence.
    + intros j b Hb. unfold bfd_find_session_by_idx in Hb. cbn in Hb. rewrite Hs1 in Hb.
      rewrite pool_elt_set in Hb by done. unfold pending, scheduled. cbn. rewrite Hs2, Hs3.
      destruct (decide (j = idx)) as [->|Hne]; [injection Hb as <-; split; [done|]; rewrite Hs5, Hs6; split; [done|by right]|].
      rewrite Ho in Hb by done. apply (Hs j b Hb).
  - destruct (pool_put_ok p idx Hp Hl) as (Hp' & Hn' & Ho' & _). cbn [fst].
    eapply (remove_session_ok _ _ m (pool_put_index p idx)); [done|done| |done..].
    intros j. destruct (decide (j = idx)) as [->|]; [by left|right]. by rewrite Ho', Ho.
Qed.

Lemma process_event_ok i e now (ex : Z → Prop) m : time_ok inacc now → sessions_ok now ex m →
  sessions_ok now (λ j, ex j ∧ match e with Event_config_changed idx => j ≠ idx | _ => True end) (process_event i e now m).
Proof.
  intros Ht Hok. destruct e as [| |idx|idx]; cbn [process_event].
  - by apply (sessions_ok_weaken now now ex).
  - by apply (sessions_ok_weaken now now ex).
  - apply (bfd_served_ok now ex); [|by intros j _ ?|done]. intros s. apply served_timer; [done..|]. apply kept_send_periodic.
  - apply (bfd_served_ok now ex); [|by intros j ??|done]. intros s. by apply served_config_change.
Qed.

Lemma bfd_expired_ok now (ex : Z → Prop) expired m : advanced now (wheel m) expired → sessions_ok now ex m →
  sessions_ok now (λ j, ex j ∨ j ∈ map snd expired) (set_wheel (list_difference (wheel m) expired) m).
Proof.
  intros [_ Hexp] [Hp Hi Hs]. split; [done..|]. intros idx b Hb. destruct (Hs idx b Hb) as (Hx & Hpen & Hsch).
  assert (∀ x, x ∈ wheel m → x ∉ expired → x ∈ list_difference (wheel m) expired) as Hin
    by (intros x ??; by apply list_elem_of_difference).
  split; [done|]. split.
  - intros Hw Hl. cbn in *. apply Hin; [by apply Hpen|]. intros [_ Hlt]%Hexp. cbn in Hlt. lia.
  - destruct Hsch as [?|Hsch]; [by left; left|]. destruct (decide ((wheel_time_clocks b, bs_idx b) ∈ expired)) as [He|He].
    + left. right. rewrite <-Hx. by apply (list_elem_of_fmap_2 snd _ _ He).
    + right. intros Hne. destruct (Hsch Hne) as [??]. split; [by apply Hin|done].
Qed.

Lemma bfd_timeouts_ok i now now' (ex : Z → Prop) T l : ∀ m, time_ok inacc T → 0 ≤ now → (∀ idx, now ≤ now' idx ≤ T) →
  sessions_ok now (λ j, ex j ∨ j ∈ l) m → sessions_ok now ex (foldl (process_timeout i now now') m l).
Proof.
  induction l as [|idx l IH]; intros m Ht H0 Hn Hok; cbn [foldl].
  - eapply sessions_ok_weaken; [reflexivity| |exact Hok]. intros j [?|Hj]; [done|]. by apply list.not_elem_of_nil in Hj.
  - pose proof (Hn idx). apply IH; [done..|]. eapply bfd_served_ok; [| |exact Hok].
    + intros s. apply served_timer; [done|unfold time_ok in *; lia|]. apply kept_on_timeout; [lia|unfold time_ok in *; lia].
    + intros j Hne [?|Hj]; [by left|right]. apply list.elem_of_cons in Hj as [->|?]; done.
Qed.

Lemma bfd_turn_ok c i e now now' T expired (ex : Z → Prop) m : 0 ≤ c ≤ now → time_ok inacc T → (∀ idx, now ≤ now' idx ≤ T) →
  advanced now (wheel (process_event i e now m)) expired → sessions_ok c ex m →
  sessions_ok T (λ j, ex j ∧ match e with Event_config_changed idx => j ≠ idx | _ => True end)
    (bfd_process_turn i e now now' expired m).
Proof.
  intros Hc Ht Hn Hadv Hok. pose proof (Hn 0). assert (time_ok inacc now) by (unfold time_ok in *; lia).
  refine (sessions_ok_weaken now T _ _ _ _ (λ j H, H) _); [lia|]. unfold bfd_process_turn.
  apply (bfd_timeouts_ok i now now' _ T); [done|lia|done|]. apply bfd_expired_ok; [done|].
  apply process_event_ok; [done|]. refine (sessions_ok_weaken c now _ _ _ _ (λ j H, H) Hok). lia.
Qed.

Lemma bfd_step_ok x y : bfd_step x y → sessions_ok (clock x) (.∈ changed x) (main x) →
  sessions_ok (clock y) (.∈ changed y) (main y).
Proof.
  intros Hstep Hok. destruct Hstep as [m U c pkt a now now' idx Hl|m U c now idx Hl|m U c d e s now Hl|m U c up now now' idx Hl
    |m U c tx rx mult idx|m U c t Hlen|m U c idx Hd|m U c idx|m U c i e now now' T expired Hc Ht Hn Hadv]; cbn in *.
  - refine (sessions_ok_weaken c now' _ _ _ _ (λ j H, H) _); [destruct Hl; lia|]. by apply (bfd_receive_ok c).
  - refine (sessions_ok_weaken c now _ _ _ _ (λ j H, H) _); [destruct Hl; lia|]. by apply bfd_final_ok.
  - refine (sessions_ok_weaken c now _ _ _ _ (λ j H, H) _); [destruct Hl; lia|]. by apply bfd_echo_ok.
  - destruct Hl as (?&?&?). refine (sessions_ok_weaken c now' _ _ _ _ (λ j H, H) _); [lia|].
    apply (bfd_served_ok c (.∈ U)); [|by intros|done]. intros s. apply served_set_flags; try lia; unfold time_ok in *; lia.
  - refine (sessions_ok_weaken c c _ _ _ _ _ (bfd_params_ok _ _ _ _ _ _ _ Hok)); [lia|]. cbn. set_solver.
  - by apply bfd_get_ok.
  - by apply bfd_start_ok.
  - by apply bfd_put_ok.
  - refine (sessions_ok_weaken T T _ _ _ _ _ (bfd_turn_ok c i e now now' T expired _ m Hc Ht Hn Hadv Hok)); [lia|].
    cbn. intros j [??]. destruct e; [done..|by apply elem_of_difference; rewrite elem_of_singleton].
Qed.

End bfd.

Section theorems.
Context {Env : BfdEnv}.

Lemma reachable_sessions_ok inacc slow echo_rx seed x :
  rtc (bfd_step inacc) (Sys (no_sessions inacc slow echo_rx seed) ∅ 0) x →
  sessions_ok inacc (clock x) (.∈ changed x) (main x).
Proof.
  assert (∀ a, rtc (bfd_step inacc) a x → sessions_ok inacc (clock a) (.∈ changed a) (main a) →
    sessions_ok inacc (clock x) (.∈ changed x) (main x)) as H
    by (intros a Hr; induction Hr; eauto using bfd_step_ok).
  intros Hreach. apply (H _ Hreach). cbn. split; [apply pool_null_ok|done|].
  intros idx b Hb. unfold bfd_find_session_by_idx in Hb. cbn in Hb.
  rewrite elt_None in Hb; [done|apply pool_null_ok|]. intros [[? Hlt] _]. unfold pool_len, zlen in Hlt. cbn in Hlt. lia.
Qed.

(** C10: No deadline of a session is missed.  After every sequence of received packets, polls
    answered, echo packets, configuration, sessions added, started and removed, and turns of the process node, for every
    session of the pool with a deadline (the next transmission, the detection time or the next
    echo) an entry of the timing wheel for this session lies at or before it; only a session
    whose parameters were changed and whose event has not been handled is excepted. *)
Theorem bfd_no_deadline_missed (inacc slow echo_rx seed : Z) (x : sys)
    (Hreach : rtc (bfd_step inacc) (Sys (no_sessions inacc slow echo_rx seed) ∅ 0) x) :
  ∀ idx b, bfd_find_session_by_idx (main x) idx = Some b → idx ∉ changed x → next_deadline b ≠ 0 →
    ∃ t, (t, idx) ∈ wheel (main x) ∧ t ≤ next_deadline b.
Proof.
  destruct (reachable_sessions_ok _ _ _ _ _ Hreach) as [_ _ Hs].
  intros idx b Hb HU Hne. destruct (Hs idx b Hb) as (<- & _ & [?|Hsch]); [done|]. destruct (Hsch Hne). by eexists.
Qed.

End theorems.

(** A session is added and started, and the process node handles it. *)
Definition toy_main : bfd_main :=
  on_session bfd_session_start 0 (@bfd_get_session toy_env BFD_TRANSPORT_UDP4 (no_sessions 100 1000000 1000000 7)).1.
Definition toy_io (idx : Z) : io := Io true true true true.
Definition toy_served : bfd_main := @bfd_process_turn toy_env toy_io (Event_new_session 0) 1000 (λ _, 1000) [] toy_main.

Lemma toy_reachable : rtc (@bfd_step toy_env 100) (Sys (no_sessions 100 1000000 1000000 7) ∅ 0) (Sys toy_served ∅ 1000).
Proof.
  apply (rtc_l _ _ (Sys (@bfd_get_session toy_env BFD_TRANSPORT_UDP4 (no_sessions 100 1000000 1000000 7)).1 ∅ 0)).
  { by apply step_add. }
  apply (rtc_l _ _ (Sys toy_main ∅ 0)).
  { apply step_start. intros b. vm_compute. by intros [= <-]. }
  apply rtc_once. unfold toy_served. apply (@step_turn toy_env 100 toy_main ∅ 0 toy_io (Event_new_session 0) 1000 (λ _, 1000) 1000 []).
  + lia.
  + unfold time_ok. lia.
  + lia.
  + split; [|by intros x Hx%list.not_elem_of_nil].
    intros x Hx. vm_compute in Hx. apply list_elem_of_singleton in Hx as ->. cbn. lia.
Qed.

Lemma bfd_no_deadline_missed_witness :
  ∃ t, (t, 0) ∈ wheel toy_served ∧ t ≤ next_deadline (default (zero_session 0 BFD_TRANSPORT_UDP4) (bfd_find_session_by_idx toy_served 0)).
Proof.
  apply (@bfd_no_deadline_missed toy_env 100 1000000 1000000 7 (Sys toy_served ∅ 1000)) with (idx := 0).
  - exact toy_reachable.
  - by vm_compute.
  - done.
  - by vm_compute.
Defined.

End BfdTimers.
