(* ===== verification/BfdDetect.v ===== *)
(** * BFD: failures are detected

    A session whose peer is silent for the detection time is Down after one turn of the process
    node, and one that heard its peer within it is not taken down; and two cases in which the timers of the code are
    not those of the protocol: the detection time after a change of the peer's interval, and the
    transmission of a session whose peer does not want packets. *)

From stdpp Require Import gmap.
From S2P Require Import Prelude ByteOrder Bitmap Popcount Pool Bfd BfdFrame BfdSpec BfdTimers.

Module BfdDetect.
Import ClibPool Bfd BfdFrame BfdSpec BfdTimers.

(** What the reception timeout looks at. *)
Definition watch (b : bfd_session) :=
  (local_state b, local_diag b, echo b, remote_min_echo_rx_usec b, last_rx_clocks b, detection_time_clocks b).

Section bfd.
Context {Env : BfdEnv}.

Lemma watch_set_timer now hw s : watch (bs (bfd_set_timer now hw s)) = watch (bs s).
Proof. unfold bfd_set_timer. cbv zeta. by destruct (_ && _), hw. Qed.

Lemma watch_send_periodic i now s : watch (bs (bfd_send_periodic i now s)) = watch (bs s).
Proof.
  unfold bfd_send_periodic. cbv zeta. do 2 (case_match; [done|]). case_match; [|done]. case_match; [done|].
  assert (watch (bs (poll_frame now (bfd_init_control_frame (bs s)) s).2) = watch (bs s)) as Hp
    by (unfold poll_frame; by repeat case_match).
  destruct (poll_frame _ _ _) as [pkt s1]. cbn [snd] in Hp. rewrite <-Hp.
  assert (watch (bs (bfd_add_auth_section pkt s1).2) = watch (bs s1)) as Ha
    by (unfold bfd_add_auth_section; destruct (curr_key _); [by destruct (is_sha1_type _)|done]).
  by destruct (bfd_add_auth_section _ _) as [[pkt' a] s2].
Qed.

(** ** One turn of the process node, seen from a session *)

Definition on_timeout_and_timer (i : io) (now now' : Z) (s : st) : st :=
  s |> bfd_on_timeout i now now' |> bfd_set_timer now true.

Lemma sessions_steady f s : steady' f → sessions (bm (f s)) = sessions (bm s).
Proof. intros Hf. destruct (frame'_parts _ _ (Hf s)) as (_ & _ & Ht). by injection Ht. Qed.

Lemma find_on_session f j m k : pool_ok (sessions m) → (∀ s, sessions (bm (f s)) = sessions (bm s)) →
  bfd_find_session_by_idx (on_session f j m) k =
    if decide (k = j) then (λ b, bs (f (St m b))) <$> bfd_find_session_by_idx m k else bfd_find_session_by_idx m k.
Proof.
  intros Hok Hf. unfold on_session. destruct (bfd_find_session_by_idx m j) as [b|] eqn:Hj.
  - cbv zeta. unfold bfd_find_session_by_idx in *. cbn [sessions set_sessions]. rewrite Hf. cbn [bm].
    rewrite pool_elt_set by done. destruct (decide (k = j)) as [->|]; [|done]. by rewrite Hj.
  - destruct (decide (k = j)) as [->|]; [|done]. by rewrite Hj.
Qed.

Lemma on_session_pool f j m : pool_ok (sessions m) → (∀ s, sessions (bm (f s)) = sessions (bm s)) →
  pool_ok (sessions (on_session f j m)).
Proof.
  intros Hok Hf. unfold on_session. destruct (bfd_find_session_by_idx m j); [|done]. cbv zeta.
  cbn [sessions set_sessions]. rewrite Hf. by apply pool_set_ok.
Qed.

Lemma on_timeout_sessions i now now' s : sessions (bm (on_timeout_and_timer i now now' s)) = sessions (bm s).
Proof.
  unfold on_timeout_and_timer. rewrite (sessions_steady (bfd_set_timer now true)) by auto with steady.
  apply (sessions_steady (bfd_on_timeout i now now')). auto with steady.
Qed.

Lemma on_timeout_inacc i now now' s : wheel_inaccuracy (bm (on_timeout_and_timer i now now' s)) = wheel_inaccuracy (bm s).
Proof.
  assert (steady' (λ s, s |> bfd_on_timeout i now now' |> bfd_set_timer now true)) as H
    by (intros s1; steady_chain).
  destruct (frame'_parts _ _ (H s)) as (_ & _ & Ht). by injection Ht.
Qed.

Lemma process_timeout_frame i now now' m j :
  pool_ok (sessions m) →
  pool_ok (sessions (process_timeout i now now' m j)) ∧
  wheel_inaccuracy (process_timeout i now now' m j) = wheel_inaccuracy m ∧
  ∀ k, bfd_find_session_by_idx (process_timeout i now now' m j) k =
    if decide (k = j) then (λ b, bs (on_timeout_and_timer (i j) now (now' j) (St m b))) <$> bfd_find_session_by_idx m k
    else bfd_find_session_by_idx m k.
Proof.
  intros Hok. split_and!.
  - apply on_session_pool; [done|intros; apply on_timeout_sessions].
  - unfold process_timeout, on_session. destruct (bfd_find_session_by_idx m j); [|done].
    apply (on_timeout_inacc (i j) now (now' j) (St m _)).
  - intros k. apply find_on_session; [done|intros; apply on_timeout_sessions].
Qed.

(** The timeouts of a session at one turn. *)
Definition turn_step (P Q : bfd_session → Prop) (i : Z → io) (now : Z) (now' : Z → Z) (c idx : Z) : Prop :=
  ∀ m b, wheel_inaccuracy m = c → P b → Q (bs (on_timeout_and_timer (i idx) now (now' idx) (St m b))).

Lemma timeouts_keep P i now now' c idx l : turn_step P P i now now' c idx → ∀ m b,
  pool_ok (sessions m) → wheel_inaccuracy m = c → bfd_find_session_by_idx m idx = Some b → P b →
  ∃ b', bfd_find_session_by_idx (foldl (process_timeout i now now') m l) idx = Some b' ∧ P b'.
Proof.
  intros Hstep. induction l as [|j l IH]; intros m b Hok Hc Hf HP; cbn [foldl]; [by eexists|].
  destruct (process_timeout_frame i now now' m j Hok) as (Hok1 & Hc1 & Hf1). specialize (Hf1 idx). rewrite Hf in Hf1.
  destruct (decide (idx = j)) as [<-|Hne]; eapply IH; try done; try congruence. by apply Hstep.
Qed.

(** What the first timeout of the session brings about, when it is in the list. *)
Lemma timeouts_reach P Q i now now' c idx l : turn_step P Q i now now' c idx → turn_step Q Q i now now' c idx → ∀ m b,
  pool_ok (sessions m) → wheel_inaccuracy m = c → bfd_find_session_by_idx m idx = Some b → P b → idx ∈ l →
  ∃ b', bfd_find_session_by_idx (foldl (process_timeout i now now') m l) idx = Some b' ∧ Q b'.
Proof.
  intros Hstep Hkeep. induction l as [|j l IH]; intros m b Hok Hc Hf HP Hl; [by apply list.not_elem_of_nil in Hl|].
  cbn [foldl]. destruct (process_timeout_frame i now now' m j Hok) as (Hok1 & Hc1 & Hf1). specialize (Hf1 idx). rewrite Hf in Hf1.
  destruct (decide (idx = j)) as [<-|Hne].
  - eapply timeouts_keep; [exact Hkeep|done|congruence|exact Hf1|by apply Hstep].
  - apply list.elem_of_cons in Hl as [?|Hl]; [done|]. eapply IH; [done|congruence|exact Hf1|done|done].
Qed.

(** ** The reception timeout *)

Definition failed (b : bfd_session) : Prop := local_state b = BFD_STATE_down ∧ local_diag b = BFD_DIAG_CODE_det_time_exp.

Lemma failed_watch b b' : watch b' = watch b → failed b → failed b'.
Proof. unfold failed. intros [= -> -> _ _ _ _]. done. Qed.

Lemma failed_send_periodic i now s : failed (bs s) → failed (bs (bfd_send_periodic i now s)).
Proof. apply failed_watch, watch_send_periodic. Qed.

Lemma failed_kept i now now' c idx : turn_step failed failed i now now' c idx.
Proof.
  intros m b _ Hb. unfold on_timeout_and_timer. eapply failed_watch; [apply watch_set_timer|].
  unfold bfd_on_timeout. cbn [bs]. destruct Hb as [Hl Hd]. rewrite Hl. by apply failed_send_periodic.
Qed.

Lemma failed_check_rx now now' hw s :
  u64 (last_rx_clocks (bs s) + detection_time_clocks (bs s)) ≤ u64 (now + wheel_inaccuracy (bm s)) →
  failed (bs (bfd_check_rx_timeout now now' hw s)).
Proof.
  intros Hle. unfold bfd_check_rx_timeout. cbv zeta. rewrite (proj2 (Z.leb_le _ _) Hle).
  set (s1 := bfd_set_state _ _ _ _). pose proof (quiet_core (quiet_remote_min_rx 1) s1) as Hc.
  pose proof (core_set_state BFD_STATE_down now' hw (bfd_set_diag BFD_DIAG_CODE_det_time_exp s)) as Hc1. fold s1 in Hc1.
  rewrite Hc1 in Hc. by injection Hc as _ ? _ ? _ _.
Qed.

Lemma echo_not_possible i b : local_state b = BFD_STATE_down → bfd_is_echo_possible i b = false.
Proof. unfold bfd_is_echo_possible. by intros ->. Qed.

Lemma silent_fails (i : Z → io) now now' c idx :
  turn_step (λ b, local_state b = BFD_STATE_up ∧ u64 (last_rx_clocks b + detection_time_clocks b) ≤ u64 (now + c)) failed i now now' c idx.
Proof.
  intros m b <- [Hup Hle]. unfold on_timeout_and_timer. eapply failed_watch; [apply watch_set_timer|].
  unfold bfd_on_timeout. cbn [bs]. rewrite Hup. cbv zeta.
  pose proof (failed_check_rx now (now' idx) true (St m b) Hle) as Hf. set (s1 := bfd_check_rx_timeout _ _ _ _) in *. clearbody s1.
  rewrite (echo_not_possible _ (bs s1)) by apply Hf. rewrite andb_false_r. cbn [when].
  apply (failed_send_periodic (i idx) now) in Hf. set (s2 := bfd_send_periodic _ _ _) in *. clearbody s2.
  destruct (echo (bs s2)); [|done]. cbn [when]. unfold bfd_send_echo. cbv zeta. by rewrite echo_not_possible by apply Hf.
Qed.

(** Up, and heard lately; the peer does not take echo packets. *)
Definition alive (now c : Z) (b : bfd_session) : Prop :=
  local_state b = BFD_STATE_up ∧ echo b = false ∧ remote_min_echo_rx_usec b = 0 ∧
  u64 (now + c) < u64 (last_rx_clocks b + detection_time_clocks b).

Lemma alive_watch now c b b' : watch b' = watch b → alive now c b → alive now c b'.
Proof. unfold alive. by intros [= -> _ -> -> -> ->]. Qed.

Lemma alive_kept i now now' c idx : turn_step (alive now c) (alive now c) i now now' c idx.
Proof.
  intros m b <- Hb. unfold on_timeout_and_timer. eapply alive_watch; [apply watch_set_timer|].
  unfold bfd_on_timeout. cbn [bs]. pose proof Hb as (-> & He & Hre & Hlt). cbv zeta.
  assert (bfd_check_rx_timeout now (now' idx) true (St m b) = St m b) as ->.
  { unfold bfd_check_rx_timeout. cbn [bs bm]. rewrite (proj2 (Z.leb_gt _ _) Hlt), He. done. }
  cbn [bs]. assert (bfd_is_echo_possible (i idx) b = false) as ->.
  { unfold bfd_is_echo_possible. rewrite Hre. cbn. by rewrite andb_false_r. }
  rewrite andb_false_r. cbn [when]. pose proof (watch_send_periodic (i idx) now (St m b)) as Hw.
  set (s2 := bfd_send_periodic _ _ _) in *. clearbody s2.
  assert (alive now (wheel_inaccuracy m) (bs s2)) as Ha by (by apply (alive_watch _ _ b)).
  pose proof Ha as (_ & He2 & _). rewrite He2. done.
Qed.

(** ** A turn *)

(** The event is for another session, or for none. *)
Definition event_spares (e : event) (idx : Z) : Prop :=
  match e with Event_new_session j | Event_config_changed j => j ≠ idx | _ => True end.

Lemma process_event_frame i e now m idx : pool_ok (sessions m) → event_spares e idx →
  let m1 := process_event i e now m in
  pool_ok (sessions m1) ∧ bfd_find_session_by_idx m1 idx = bfd_find_session_by_idx m idx.
Proof.
  intros Hok He. destruct e as [| |j|j]; cbn [process_event]; try done; cbn in He.
  - assert (∀ s, sessions (bm (bfd_set_timer now true (bfd_send_periodic (i j) now s))) = sessions (bm s)) as Hf.
    { intros s. rewrite (sessions_steady (bfd_set_timer now true)) by auto with steady.
      apply (sessions_steady (bfd_send_periodic (i j) now)). auto with steady. }
    split; [by apply on_session_pool|]. rewrite find_on_session by done. by rewrite decide_False.
  - assert (∀ s, sessions (bm (bfd_on_config_change now s)) = sessions (bm s)) as Hf.
    { intros s. apply (sessions_steady (bfd_on_config_change now)). auto with steady. }
    split; [by apply on_session_pool|]. rewrite find_on_session by done. by rewrite decide_False.
Qed.

(** The reception deadline of a session that is up bounds its next deadline. *)
Lemma rx_deadline b : local_state b = BFD_STATE_up → 0 < last_rx_clocks b + detection_time_clocks b < 2 ^ 64 →
  (echo b = true → echo_tx_timeout_clocks b ≠ 0) →
  next_deadline b ≠ 0 ∧ next_deadline b ≤ last_rx_clocks b + detection_time_clocks b.
Proof.
  intros Hup Hr He. unfold next_deadline. rewrite Hup. compute_states. rewrite u64_small by (unfold_ranges; lia).
  set (rx := last_rx_clocks b + detection_time_clocks b) in *. cbn [negb orb]. set (tx := if _ : bool then _ else 0). clearbody tx rx.
  set (et := echo_tx_timeout_clocks b) in *. clearbody et. rewrite (proj2 (Z.eqb_neq rx 0)) by lia. cbn [negb]. rewrite andb_true_r.
  destruct (echo b); [specialize (He eq_refl)|clear He]; destruct (Z.eqb_spec tx 0); cbn [negb andb];
    repeat match goal with |- context [?x >? ?y] => destruct (Z.gtb_spec x y) end; lia.
Qed.


(** ** Timers that are not those of the protocol *)

Lemma detection_remote_min_rx x s : clib_net_to_host_u32 x = remote_min_rx_usec (bs s) →
  bfd_set_remote_required_min_rx (clib_net_to_host_u32 x) s = s.
Proof. intros Hx. unfold bfd_set_remote_required_min_rx. by rewrite Hx, Z.eqb_refl. Qed.

(** What a packet leaves of the reception timers of a session that stays up. *)
Lemma consume_up pkt a now now' s : local_state (bs s) = BFD_STATE_up → for_session pkt (bs s) = true →
  val_state (bfd_pkt_get_state pkt) = BFD_STATE_up → bfd_pkt_get_final pkt = 0 →
  clib_net_to_host_u32 (req_min_rx pkt) = remote_min_rx_usec (bs s) →
  let b' := bs (consume pkt a now now' s) in
  local_state b' = BFD_STATE_up ∧ last_rx_clocks b' = now ∧ detection_time_clocks b' = detection_time_clocks (bs s) ∧
  remote_desired_min_tx_clocks b' = bfd_usec_to_clocks (clib_net_to_host_u32 (des_min_tx pkt)) ∧
  remote_detect_mult b' = detect_mult pkt.
Proof.
  intros Hup Hfor Hst Hfin Hrx. unfold consume. unfold for_session in Hfor. rewrite <-negb_orb, Hfor, Hfin. cbn [negb when].
  set (s1 := consume_remote pkt a now s). change (0 =? 0) with true. cbn [negb when].
  assert (local_state (bs s1) = BFD_STATE_up ∧ remote_state (bs s1) = BFD_STATE_up ∧ last_rx_clocks (bs s1) = now ∧
    detection_time_clocks (bs s1) = detection_time_clocks (bs s) ∧
    remote_desired_min_tx_clocks (bs s1) = bfd_usec_to_clocks (clib_net_to_host_u32 (des_min_tx pkt)) ∧
    remote_detect_mult (bs s1) = detect_mult pkt) as (H1 & H2 & H3 & H4 & H5 & H6).
  { unfold s1, consume_remote. cbv zeta. rewrite detection_remote_min_rx by (by destruct (_ && _)).
    unfold bfd_set_remote_required_min_echo_rx. destruct (negb (remote_min_echo_rx_usec _ =? _)), (_ && _); cbn; by rewrite Hst. }
  clearbody s1. set (s2 := bfd_set_timer _ _ _).
  assert (local_state (bs s2) = local_state (bs s1) ∧ remote_state (bs s2) = remote_state (bs s1) ∧
    last_rx_clocks (bs s2) = last_rx_clocks (bs s1) ∧ detection_time_clocks (bs s2) = detection_time_clocks (bs s1) ∧
    remote_desired_min_tx_clocks (bs s2) = remote_desired_min_tx_clocks (bs s1) ∧
    remote_detect_mult (bs s2) = remote_detect_mult (bs s1)) as (G1 & G2 & G3 & G4 & G5 & G6)
    by (unfold s2, bfd_set_timer; cbv zeta; by destruct (_ && _)).
  clearbody s2. unfold consume_state. rewrite G1, G2, H1, H2. compute_states. by split_and!; congruence.
Qed.

(** C14: The detection time is not updated: when the peer of a session that is up announces another interval or another
    multiplier, and nothing else changes, the session notes both and keeps the detection time of before.  A
    peer that slows down is declared down after the old detection time, whatever it announced. *)
Theorem bfd_detection_time_stale (pkt : bfd_pkt) (a : bfd_auth_sha1) (now now' : Z) (s : st)
    (Hup : local_state (bs s) = BFD_STATE_up) (Hfor : for_session pkt (bs s) = true)
    (Hst : val_state (bfd_pkt_get_state pkt) = BFD_STATE_up) (Hfin : bfd_pkt_get_final pkt = 0)
    (Hrx : clib_net_to_host_u32 (req_min_rx pkt) = remote_min_rx_usec (bs s)) :
  let s' := consume pkt a now now' s in
  remote_desired_min_tx_clocks (bs s') = bfd_usec_to_clocks (clib_net_to_host_u32 (des_min_tx pkt)) ∧
  remote_detect_mult (bs s') = detect_mult pkt ∧
  detection_time_clocks (bs s') = detection_time_clocks (bs s) ∧
  ∀ i t t', u64 (now + detection_time_clocks (bs s)) ≤ u64 (t + wheel_inaccuracy (bm s)) →
    failed (bs (bfd_set_timer t true (bfd_on_timeout i t t' s'))).
Proof.
  cbv zeta. destruct (consume_up pkt a now now' s Hup Hfor Hst Hfin Hrx) as (H1 & H2 & H3 & H4 & H5). split_and!; [done..|].
  intros i t t' Ht. pose proof (frame_consume pkt a now now' s) as Hf.
  assert (wheel_inaccuracy (bm (consume pkt a now now' s)) = wheel_inaccuracy (bm s)) as Hi
    by exact (f_equal (λ x, x.2.1.1.1.1.2) Hf).
  set (s' := consume _ _ _ _ _) in *. clearbody s'. destruct s' as [m' b']. cbn [bm bs] in *.
  apply (silent_fails (λ _, i) t (λ _, t') (wheel_inaccuracy m') 0 m' b' eq_refl).
  split; [done|]. by rewrite H2, H3, Hi.
Qed.

(** A session that is not up, whose peer wants no packets, and that has no poll to make, after the time of its next transmission. *)
Definition stuck (now : Z) (s : st) : Prop :=
  (local_state (bs s) = BFD_STATE_down ∨ local_state (bs s) = BFD_STATE_admin_down) ∧ remote_min_rx_usec (bs s) = 0 ∧
  poll_state (bs s) = BFD_POLL_NOT_NEEDED ∧ echo (bs s) = false ∧ 0 < tx_timeout_clocks (bs s) ≤ now.

(** The process node does not sleep: when the peer of a session that is down has announced that it wants no packets
    (a required interval of 0), then once the time of the next transmission has come, each timeout sends nothing,
    leaves that time as it is and puts the session on the wheel again at that time,
    which has passed.  So the next turn follows at once, with the same result, and without end.  ([timing_wheel_insert] asserts
    that its argument is not in the past.) *)
Theorem bfd_wheel_spins (i : io) (now now' : Z) (s : st) (Hs : stuck now s) (Hi : 0 < wheel_inaccuracy (bm s))
    (Htime : now + wheel_inaccuracy (bm s) < 2 ^ 64) :
  let s' := on_timeout_and_timer i now now' s in
  wheel (bm s') = wheel (bm s) ++ [(tx_timeout_clocks (bs s), bs_idx (bs s))] ∧ log (bm s') = log (bm s) ∧
  bs s' = set_wheel_time_clocks (tx_timeout_clocks (bs s)) (bs s) ∧ ∀ later, now ≤ later → stuck later s'.
Proof.
  destruct Hs as (Hl & Hrx & Hpoll & Hecho & Htx). cbv zeta. unfold on_timeout_and_timer.
  assert (bfd_on_timeout i now now' s = s) as ->.
  { assert (bfd_send_periodic i now s = s) as Hp by (unfold bfd_send_periodic; cbv zeta; by rewrite Hrx, Hpoll).
    unfold bfd_on_timeout. by destruct Hl as [-> | ->]. }
  assert (next_deadline (bs s) = tx_timeout_clocks (bs s)) as Hnd.
  { unfold next_deadline. rewrite Hecho. destruct Hl as [-> | ->]; compute_states; cbn [negb orb andb];
      rewrite (proj2 (Z.eqb_neq (tx_timeout_clocks (bs s)) 0)) by lia; done. }
  unfold bfd_set_timer. rewrite Hnd. cbv zeta. rewrite u64_small by (unfold_ranges; lia).
  assert (negb (tx_timeout_clocks (bs s) =? 0) && ((now + wheel_inaccuracy (bm s) >? wheel_time_clocks (bs s))
            || (tx_timeout_clocks (bs s) <? wheel_time_clocks (bs s)) || (wheel_time_clocks (bs s) =? 0)) = true) as -> by lia.
  cbn [negb when]. split_and!; try done. intros t Ht. unfold stuck. cbn. split_and!; try done; lia.
Qed.

End bfd.

(** ** Example *)

(** Control frames of a peer in a state. *)
Definition toy_hello (state : bfd_state_e) : bfd_pkt :=
  Pkt 32 (Z.shiftl (state_val state) 6) 3 24 2 0 (clib_host_to_net_u32 1000) (clib_host_to_net_u32 1000) 0.
Definition toy_init : bfd_main := @bfd_consume_pkt toy_env (toy_hello BFD_STATE_down) no_auth 2000 2000 0 toy_served.
Definition toy_up : bfd_main := @bfd_consume_pkt toy_env (toy_hello BFD_STATE_init) no_auth 3000 3000 0 toy_init.

Lemma toy_up_reachable : rtc (@bfd_step toy_env 100) (Sys (no_sessions 100 1000000 1000000 7) ∅ 0) (Sys toy_up ∅ 3000).
Proof.
  etrans; [exact toy_reachable|].
  apply (rtc_l _ _ (Sys toy_init ∅ 2000)).
  { unfold toy_init. apply (@step_receive toy_env 100). unfold later, time_ok. lia. }
  apply rtc_once. unfold toy_up. apply (@step_receive toy_env 100). unfold later, time_ok. lia.
Qed.

Lemma advanced_all inacc now wh : forallb (λ x, x.1 <? now + inacc) wh = true → advanced inacc now wh wh.
Proof.
  intros Hall%Is_true_true_2%forallb_True. rewrite Forall_forall in Hall. split; [done|]. intros x Hx.
  split; [done|]. apply Hall, Is_true_true_1 in Hx. lia.
Qed.

Definition toy_up_sys : sys := Sys toy_up ∅ 3000.
Definition toy_expired : list (Z * Z) := wheel (@process_event toy_env toy_io Event_timeout 10000000 (main toy_up_sys)).


(** The peer slows down from a millisecond to ten seconds. *)
Definition toy_slow : bfd_pkt :=
  Pkt 32 (Z.shiftl (state_val BFD_STATE_up) 6) 3 24 2 0 (clib_host_to_net_u32 10000000) (clib_host_to_net_u32 1000) 0.
Definition toy_up_st : st := St toy_up (default (zero_session 0 BFD_TRANSPORT_UDP4) (bfd_find_session_by_idx toy_up 0)).

Lemma bfd_detection_time_stale_witness :
  let s' := @consume toy_env toy_slow no_auth 4000 4000 toy_up_st in
  remote_desired_min_tx_clocks (bs s') = 10000000 ∧ detection_time_clocks (bs s') = 3000.
Proof.
  destruct (@bfd_detection_time_stale toy_env toy_slow no_auth 4000 4000 toy_up_st) as (Htx & _ & Hdet & _);
    [by vm_compute..|]. split; [exact Htx|exact Hdet].
Defined.

(** A session that is down hears a peer that is administratively down and wants no packets. *)
Definition toy_stuck : st :=
  @consume toy_env (Pkt 32 0 3 24 2 0 0 0 0) no_auth 2000 2000
    (St toy_served (default (zero_session 0 BFD_TRANSPORT_UDP4) (bfd_find_session_by_idx toy_served 0))).

Lemma bfd_wheel_spins_witness :
  stuck 5000000 toy_stuck ∧
  wheel (bm (@on_timeout_and_timer toy_env (toy_io 0) 5000000 5000000 toy_stuck)) =
    wheel (bm toy_stuck) ++ [(tx_timeout_clocks (bs toy_stuck), bs_idx (bs toy_stuck))].
Proof.
  assert (stuck 5000000 toy_stuck) as Hs by (split; [by left; vm_compute|by vm_compute]).
  split; [exact Hs|]. apply (@bfd_wheel_spins toy_env (toy_io 0) 5000000 5000000 toy_stuck Hs); by vm_compute.
Defined.

End BfdDetect.
