(* ===== verification/BfdAuth.v ===== *)
(** * BFD: verification of packets and management of the keys

    The checks of a received packet (bfd_verify_pkt_common, bfd_verify_pkt_auth with the window of sequence
    numbers and the SHA1 section), and the keys: their activation on a session at once or on the
    first packet that uses them, their deactivation, and the table of the configured keys.
    The theorems: the window, frames signed by one end are accepted in order by the other, and the counts of the uses. *)

From stdpp Require Import gmap.
From S2P Require Import Prelude ByteOrder Bitmap Popcount Pool Bfd BfdFrame BfdSpec.

Module BfdAuth.
Import ClibPool Bfd BfdFrame BfdSpec.

(** The answers of the management functions (vnet/api_errno.h). *)
Inductive api_error :=
  API_OK | INVALID_SW_IF_INDEX | INVALID_ARGUMENT | INVALID_VALUE | ADDRESS_NOT_FOUND_FOR_INTERFACE
  | BFD_EEXIST | BFD_ENOENT | BFD_EINUSE | BFD_NOTSUPP.

#[export] Instance api_error_eq_dec : EqDecision api_error.
Proof. solve_decision. Defined.

(** ** Packets *)

Definition bfd_verify_pkt_common (pkt : bfd_pkt) : bool :=
  if negb (bfd_pkt_get_version pkt =? 1) then false
  else if (length pkt <? sizeof_bfd_pkt)
          || (negb (bfd_pkt_get_auth_present pkt =? 0) && (length pkt <? sizeof_bfd_pkt_with_common_auth)) then false
  else if detect_mult pkt =? 0 then false
  else if negb (bfd_pkt_get_multipoint pkt =? 0) then false
  else if my_disc pkt =? 0 then false
  else if your_disc pkt =? 0 then
    (bfd_pkt_get_state pkt =? state_val BFD_STATE_down) || (bfd_pkt_get_state pkt =? state_val BFD_STATE_admin_down)
  else true.

Definition BFD_AUTH_TYPE_simple_password : Z := 1.

Definition bfd_auth_type_is_meticulous (auth_type : Z) : Z :=
  if (auth_type =? BFD_AUTH_TYPE_meticulous_keyed_md5) || (auth_type =? BFD_AUTH_TYPE_meticulous_keyed_sha1) then 1 else 0.

Definition bfd_auth_type_supported (auth_type : Z) : bool :=
  (auth_type =? BFD_AUTH_TYPE_keyed_sha1) || (auth_type =? BFD_AUTH_TYPE_meticulous_keyed_sha1).

Definition bfd_max_key_len_for_auth_type (auth_type : Z) : Z :=
  if auth_type =? 0 then 0 else if auth_type =? BFD_AUTH_TYPE_simple_password then 16
  else if auth_type =? BFD_AUTH_TYPE_keyed_md5 then 16
  else if auth_type =? BFD_AUTH_TYPE_meticulous_keyed_md5 then 16
  else if auth_type =? BFD_AUTH_TYPE_keyed_sha1 then 20
  else if auth_type =? BFD_AUTH_TYPE_meticulous_keyed_sha1 then 20 else 0.

Section bfd.
Context {Env : BfdEnv}.

Definition bfd_session_switch_auth_to_next (s : st) : st :=
  let a := auth (bs s) in
  s |> updm (use_key (-1) (curr_key a))
    |> upd (set_auth (set_keys (next_key a) None (next_bfd_key_id a) (next_bfd_key_id a) false a)).

(** The session forgets the sequence number of a peer that was silent. *)
Definition forget_remote_seq (now : Z) (s : st) : st :=
  when (u64 (now - last_rx_clocks (bs s)) >? u64 (detection_time_clocks (bs s) * 2))
    (upd (λ b, set_auth (set_remote_seq (remote_seq_number (auth b)) false (auth b)) b)) s.

Definition bfd_verify_pkt_auth_seq_num (received_seq_num is_meticulous now : Z) (s : st) : bool * st :=
  let s := forget_remote_seq now s in
  let r := remote_seq_number (auth (bs s)) in
  let window := 3 * local_detect_mult (bs s) in
  if remote_seq_number_known (auth (bs s)) then
    if r >? u32 (u32_max - window) then
      let z := u32 (u32_max - r) in
      let x := u32 (window - z) in
      (negb ((received_seq_num >? x) && (received_seq_num <? u32 (r + is_meticulous))), s)
    else
      (negb ((received_seq_num <? u32 (r + is_meticulous)) || (received_seq_num >? u32 (r + window))), s)
  else (true, s).

Definition bfd_verify_pkt_auth_key_sha1 (pkt : bfd_pkt) (a : bfd_auth_sha1) (pkt_size bfd_key_id : Z) (k : bfd_auth_key) : bool :=
  if pkt_size <? sizeof_bfd_pkt_with_common_auth then false
  else if negb (sha1_type a =? auth_type k) then false
  else if (pkt_size <? sizeof_bfd_pkt_with_sha1_auth) || (sha1_len a <? sizeof_bfd_auth_sha1) then false
  else if negb (sha1_key_id a =? bfd_key_id) then false
  else bool_decide (frame_sha1 pkt a (key k) = sha1_hash a).

Definition bfd_verify_pkt_auth_key (pkt : bfd_pkt) (a : bfd_auth_sha1) (pkt_size bfd_key_id : Z) (k : bfd_auth_key) (now : Z)
    (s : st) : bool * st :=
  if is_sha1_type (auth_type k) then
    let '(ok, s) := bfd_verify_pkt_auth_seq_num (clib_net_to_host_u32 (sha1_seq_num a))
                      (bfd_auth_type_is_meticulous (auth_type k)) now s in
    (ok && bfd_verify_pkt_auth_key_sha1 pkt a pkt_size bfd_key_id k, s)
  else (false, s).

(** The scheduled key, when there is one: whether the packet is valid with it, and the switch. *)
Definition verify_next (pkt : bfd_pkt) (a : bfd_auth_sha1) (pkt_size now : Z) (s : st) : bool * st :=
  match is_delayed (auth (bs s)), next_key (auth (bs s)) with
  | true, Some k =>
      let '(ok, s) := bfd_verify_pkt_auth_key pkt a pkt_size (next_bfd_key_id (auth (bs s))) (key_at (bm s) k) now s in
      if ok then (true, bfd_session_switch_auth_to_next s) else (false, s)
  | _, _ => (false, s)
  end.

(** [now] and [now'] are the readings of the clock for the current and for the next key. *)
Definition bfd_verify_pkt_auth (pkt : bfd_pkt) (a : bfd_auth_sha1) (pkt_size now now' : Z) (s : st) : bool * st :=
  let auth_in_use := curr_key (auth (bs s)) in
  if negb (bfd_pkt_get_auth_present pkt =? 0) then
    match auth_in_use with
    | None => verify_next pkt a pkt_size now' s
    | Some k =>
        let '(ok, s) := bfd_verify_pkt_auth_key pkt a pkt_size (curr_bfd_key_id (auth (bs s))) (key_at (bm s) k) now s in
        if ok then (true, s) else verify_next pkt a pkt_size now' s
    end
  else if pkt_size >? sizeof_bfd_pkt then (false, s)
  else
    match auth_in_use with
    | None => (true, s)
    | Some _ =>
        match is_delayed (auth (bs s)), next_key (auth (bs s)) with
        | true, None => (true, bfd_session_switch_auth_to_next s)
        | _, _ => (false, s)
        end
    end.

(** ** Keys *)

(** A key found by its configured number; [None] is no key, or an index that the pool refuses. *)
Definition find_key (conf_key_id : Z) (m : bfd_main) : option (Z * bfd_auth_key) :=
  idx ← auth_key_by_conf_key_id m !! conf_key_id; k ← pool_elt_at_index (auth_keys m) idx; Some (idx, k).

Definition bfd_auth_activate (conf_key_id bfd_key_id : Z) (delayed : bool) (s : st) : api_error * st :=
  match find_key conf_key_id (bm s) with
  | None => (BFD_ENOENT, s)
  | Some (k, _) =>
      let a := auth (bs s) in
      if delayed then
        if bool_decide (next_key a = Some k) then (API_OK, s)
        else (API_OK, s |> upd (set_auth (set_keys (curr_key a) (Some k) (curr_bfd_key_id a) bfd_key_id true a))
                        |> updm (set_use_count 1 k))
      else
        if bool_decide (curr_key a = Some k) then (API_OK, s)
        else (API_OK, s |> updm (use_key (-1) (curr_key a))
                        |> upd (set_auth (set_keys (Some k) (next_key a) bfd_key_id (next_bfd_key_id a) false a))
                        |> updm (set_use_count 1 k))
  end.

Definition bfd_auth_deactivate (delayed : bool) (s : st) : api_error * st :=
  let a := auth (bs s) in
  let s := if delayed
           then upd (set_auth (set_keys (curr_key a) (next_key a) (curr_bfd_key_id a) (next_bfd_key_id a) true a)) s
           else s |> updm (use_key (-1) (curr_key a))
                  |> upd (set_auth (set_keys None (next_key a) (curr_bfd_key_id a) (next_bfd_key_id a) false a)) in
  let a := auth (bs s) in
  (API_OK, s |> updm (use_key (-1) (next_key a))
             |> upd (set_auth (set_keys (curr_key a) None (curr_bfd_key_id a) (next_bfd_key_id a) (is_delayed a) a))).

(** The key in its buffer of 20 bytes. *)
Definition key_buffer (data : list Z) : list Z := data ++ replicate (20 - List.length data) 0.

(** [data] are the bytes of the key, and [key_len] their number. *)
Definition bfd_auth_set_key (conf_id auth_type : Z) (data : list Z) (m : bfd_main) : api_error * bfd_main :=
  let key_len := zlen data in
  if (key_len =? 0) || (key_len >? bfd_max_key_len_for_auth_type auth_type) then (INVALID_VALUE, m)
  else if negb (bfd_auth_type_supported auth_type) then (BFD_NOTSUPP, m)
  else match find_key conf_id m with
  | Some (idx, k) =>
      if use_count k >? 0 then (BFD_EINUSE, m)
      else (API_OK, set_auth_keys (pool_set (auth_keys m) idx (AuthKey (conf_key_id k) (use_count k) (key_buffer data) auth_type)) m)
  | None =>
      let '(p, idx) := pool_get zero_key (auth_keys m) in
      let k := default zero_key (vget (elts p) idx) in
      (API_OK, set_auth_keys (pool_set p idx (AuthKey conf_id (use_count k) (key_buffer data) auth_type))
                 (set_auth_key_by_conf_key_id (<[conf_id := idx]> (auth_key_by_conf_key_id m)) m))
  end.

Definition bfd_auth_del_key (conf_key_id : Z) (m : bfd_main) : api_error * bfd_main :=
  match find_key conf_key_id m with
  | Some (idx, k) =>
      if use_count k >? 0 then (BFD_EINUSE, m)
      else (API_OK, set_auth_keys (pool_put_index (pool_set (auth_keys m) idx zero_key) idx)
                      (set_auth_key_by_conf_key_id (delete conf_key_id (auth_key_by_conf_key_id m)) m))
  | None => (BFD_ENOENT, m)
  end.

(** A packet verified and then consumed, at the time [now]. *)
Definition hear (pkt : bfd_pkt) (a : bfd_auth_sha1) (now : Z) (s : st) : bool * st :=
  let '(ok, s) := bfd_verify_pkt_auth pkt a (length pkt) now now s in
  (ok, if ok then consume pkt a now now s else s).

(** ** The window of sequence numbers *)

Lemma forget_bm now s : bm (forget_remote_seq now s) = bm s.
Proof. unfold forget_remote_seq. by destruct (_ >? _). Qed.
Lemma forget_config now s : config (bs (forget_remote_seq now s)) = config (bs s).
Proof. unfold forget_remote_seq. by destruct (_ >? _). Qed.
Lemma forget_discr now s : remote_discr (bs (forget_remote_seq now s)) = remote_discr (bs s).
Proof. unfold forget_remote_seq. by destruct (_ >? _). Qed.
Lemma forget_auth now s :
  auth (bs (forget_remote_seq now s)) =
    set_remote_seq (remote_seq_number (auth (bs s)))
      (remote_seq_number_known (auth (bs s))
       && (u64 (now - last_rx_clocks (bs s)) <=? u64 (detection_time_clocks (bs s) * 2))) (auth (bs s)).
Proof.
  unfold forget_remote_seq. rewrite Z.gtb_ltb, Z.ltb_antisym.
  destruct (_ <=? _); cbn; [|by rewrite andb_false_r]. rewrite andb_true_r. by destruct (auth (bs s)).
Qed.

(** Whether the peer's sequence number is known and the peer was not silent for twice the detection time. *)
Definition seq_known (now : Z) (b : bfd_session) : bool :=
  remote_seq_number_known (auth b) && (u64 (now - last_rx_clocks b) <=? u64 (detection_time_clocks b * 2)).

Lemma u32_wrap x : - 2 ^ 32 ≤ x < 2 * 2 ^ 32 →
  u32 x = if x <? 0 then x + 2 ^ 32 else if 2 ^ 32 <=? x then x - 2 ^ 32 else x.
Proof.
  intros Hx. unfold u32. repeat case_cond; try lia.
  - symmetry. apply (Z.mod_unique x (2 ^ 32) (-1)); lia.
  - symmetry. apply (Z.mod_unique x (2 ^ 32) 1); lia.
  - apply Z.mod_small. lia.
Qed.

Lemma seq_window (q met now : Z) (s : st) (Hq : in_u32 q) (Hr : in_u32 (remote_seq_number (auth (bs s))))
    (Hm : in_u8 (local_detect_mult (bs s))) (Hmet : met = 0 ∨ met = 1) :
  let r := remote_seq_number (auth (bs s)) in
  let window := 3 * local_detect_mult (bs s) in
  let ahead := u32 (q - r) in
  (bfd_verify_pkt_auth_seq_num q met now s).1 =
    negb (seq_known now (bs s))
    || ((met =? 1) && (r =? u32_max))
    || ((met <=? ahead) && (ahead <=? window + (if u32_max <? r + window then 1 else 0))).
Proof.
  cbv zeta. unfold bfd_verify_pkt_auth_seq_num. rewrite forget_auth.
  pose proof (forget_config now s) as Hc. unfold config in Hc. injection Hc as _ _ _ _ _ _ Hc _ _. rewrite Hc. cbn.
  fold (seq_known now (bs s)). destruct (seq_known now (bs s)); cbn [negb orb]; [|done].
  set (r := remote_seq_number _) in *. set (m := local_detect_mult _) in *. clearbody r m. clear Hc.
  rewrite (u32_wrap (q - r)), (u32_wrap (r + met)), (u32_wrap (r + 3 * m)) by (unfold_ranges; lia).
  rewrite (u32_small (u32_max - 3 * m)), (u32_small (u32_max - r)) by (unfold_ranges; lia).
  destruct (r >? u32_max - 3 * m) eqn:Hw; rewrite Z.gtb_ltb in Hw; bool_to_prop; unfold_ranges.
  - rewrite (u32_small (3 * m - (2 ^ 32 - 1 - r))) by (unfold_ranges; lia). cbn [fst]. destruct Hmet as [-> | ->]; repeat case_cond; lia.
  - cbn [fst]. destruct Hmet as [-> | ->]; repeat case_cond; lia.
Qed.

(** ** Signed frames *)

(** A frame with the section that [k] gives it, under the number [id] and with the sequence number [q]. *)
Record signed (k : bfd_auth_key) (id q : Z) (pkt : bfd_pkt) (a : bfd_auth_sha1) : Prop := {
  sg_present : (bfd_pkt_get_auth_present pkt =? 0) = false;
  sg_type : sha1_type a = auth_type k;
  sg_len : sha1_len a = sizeof_bfd_auth_sha1;
  sg_id : sha1_key_id a = id;
  sg_seq : clib_net_to_host_u32 (sha1_seq_num a) = q;
  sg_hash : frame_sha1 pkt a (key k) = sha1_hash a;
  sg_size : length pkt = sizeof_bfd_pkt_with_sha1_auth;
}.

(** The next frame of a session, signed. *)
Definition sign (s : st) : bfd_pkt * option bfd_auth_sha1 * st := bfd_add_auth_section (bfd_init_control_frame (bs s)) s.

Definition uses_key (k : bfd_auth_key) (id : Z) (s : st) : Prop :=
  ∃ i, curr_key (auth (bs s)) = Some i ∧ key_at (bm s) i = k ∧ curr_bfd_key_id (auth (bs s)) = id.

(** What [frame'] determines. *)
Lemma uses_key_frame k id s s' : frame' s' = frame' s → uses_key k id s → uses_key k id s'.
Proof.
  intros (_ & Hk & Ht)%frame'_parts. unfold uses_key, key_at. injection Hk as -> _ -> _ _. by injection Ht as _ _ _ _ _ -> _.
Qed.

Lemma sign_ok k id s : uses_key k id s → is_sha1_type (auth_type k) = true →
  ∃ pkt a s', sign s = (pkt, Some a, s') ∧ signed k id (u32 (local_seq_number (auth (bs s)) + 1)) pkt a ∧
    your_disc pkt = remote_discr (bs s) ∧ uses_key k id s' ∧ remote_discr (bs s') = remote_discr (bs s) ∧
    local_seq_number (auth (bs s')) = u32 (local_seq_number (auth (bs s)) + 1).
Proof.
  intros Hu Ht. pose proof (frame_add_auth (bfd_init_control_frame (bs s)) s) as Hf.
  destruct Hu as (i & Hi & <- & <-). unfold sign. revert Hf. unfold bfd_add_auth_section.
  rewrite Hi, Ht. unfold bfd_add_sha1_auth_section. cbv zeta. intros Hf. cbn [snd] in Hf. do 3 eexists. split; [reflexivity|].
  split; [|split; [done|split; [apply (uses_key_frame _ _ s); [exact Hf|by exists i]|done]]].
  split; try done.
  - unfold bfd_pkt_get_auth_present, bfd_pkt_set_auth_present, bfd_init_control_frame. cbn [sta_flags set_sta_flags set_length].
    by destruct (local_state (bs s)).
  - cbn [sha1_seq_num]. apply net_to_host_to_net, u32_range.
Qed.

Lemma seq_num_state q met now s : (bfd_verify_pkt_auth_seq_num q met now s).2 = forget_remote_seq now s.
Proof. unfold bfd_verify_pkt_auth_seq_num. cbv zeta. by repeat case_match. Qed.

(** A signed frame is valid for a session with the key when its sequence number is. *)
Lemma verify_signed k id q pkt a now s : signed k id q pkt a → uses_key k id s → is_sha1_type (auth_type k) = true →
  is_delayed (auth (bs s)) = false →
  bfd_verify_pkt_auth pkt a (length pkt) now now s =
    ((bfd_verify_pkt_auth_seq_num q (bfd_auth_type_is_meticulous (auth_type k)) now s).1, forget_remote_seq now s).
Proof.
  intros [Hp Hty Hlen Hkid Hq Hh Hsz] (i & Hi & Hk & Hid) Ht Hd. unfold bfd_verify_pkt_auth. rewrite Hp, Hi, Hk, Hid. cbn [negb].
  unfold bfd_verify_pkt_auth_key. rewrite Ht, Hq.
  pose proof (seq_num_state q (bfd_auth_type_is_meticulous (auth_type k)) now s) as Hs2.
  destruct (bfd_verify_pkt_auth_seq_num _ _ now s) as [ok s1]. cbn [fst snd] in *. subst s1.
  assert (bfd_verify_pkt_auth_key_sha1 pkt a (length pkt) id k = true) as ->.
  { unfold bfd_verify_pkt_auth_key_sha1. rewrite Hsz, Hty, Hlen, Hkid, !Z.eqb_refl. cbn. by rewrite bool_decide_true. }
  destruct ok; [done|]. cbn [andb]. unfold verify_next. rewrite forget_auth. cbn [is_delayed set_remote_seq]. by rewrite Hd.
Qed.

(** The session of a receiver that uses the key and has no change of keys scheduled. *)
Definition receives_with (k : bfd_auth_key) (id : Z) (s : st) : Prop :=
  uses_key k id s ∧ is_delayed (auth (bs s)) = false ∧ in_u8 (local_detect_mult (bs s)).

Lemma hear_signed k id q pkt a now s : signed k id q pkt a → receives_with k id s → is_sha1_type (auth_type k) = true →
  for_session pkt (bs s) = true →
  let ok := (bfd_verify_pkt_auth_seq_num q (bfd_auth_type_is_meticulous (auth_type k)) now s).1 in
  (hear pkt a now s).1 = ok ∧
  (ok = true → let s' := (hear pkt a now s).2 in
     receives_with k id s' ∧ local_discr (bs s') = local_discr (bs s) ∧
     local_detect_mult (bs s') = local_detect_mult (bs s) ∧
     remote_seq_number_known (auth (bs s')) = true ∧ remote_seq_number (auth (bs s')) = q).
Proof.
  intros Hs (Hu & Hd & Hm) Ht Hfor. cbv zeta. unfold hear. rewrite (verify_signed k id q) by done. cbn [fst].
  split; [done|]. intros ->. cbn [snd]. pose proof (frame_consume pkt a now now (forget_remote_seq now s)) as Hf.
  pose proof (forget_config now s) as Hc. rewrite forget_auth, forget_bm in Hf.
  assert (local_discr (bs (forget_remote_seq now s)) = local_discr (bs s)) as Hdisc by (by injection Hc as ?).
  rewrite Hdisc, <-negb_orb in Hf. unfold for_session in Hfor. rewrite Hfor in Hf. cbn [negb] in Hf. rewrite Hc in Hf.
  unfold auth_heard in Hf. destruct Hs as [Hp Hty _ _ Hq _ _]. rewrite Hp, Hty, Ht, Hq in Hf. cbn [negb andb] in Hf.
  set (s' := consume _ _ _ _ _) in *. clearbody s'.
  assert (config (bs s') = config (bs s)) as Hc' by exact (f_equal (λ x, x.1.1) Hf).
  pose proof (f_equal (λ x, x.1.2) Hf) as Ha. cbn [fst snd frame] in Ha.
  assert (tables (bm s') = tables (bm s)) as Ht' by exact (f_equal snd Hf).
  injection Hc' as _ Hdi _ _ _ _ Hdm _ _. rewrite Ha, Hdi, Hdm. split; [|done]. split; [|rewrite Ha, Hdm; done].
  apply (uses_key_frame k id s); [|done]. unfold frame'. rewrite Ha, Ht'. f_equal. f_equal. exact (f_equal (λ x, x.1.1) Hf).
Qed.

(** ** Transmission *)

(** The frames of [sa], one after the other: each is lost, or received by [sb] at some time.  Whether [sb] accepted all that it
    received. *)
Fixpoint transmit (l : list (bool * Z)) (sa sb : st) : bool * st * st :=
  match l with
  | [] => (true, sa, sb)
  | (delivered, now) :: l =>
      match sign sa with
      | (pkt, Some a, sa) =>
          let '(ok, sb) := if delivered : bool then hear pkt a now sb else (true, sb) in
          let '(ok', sa, sb) := transmit l sa sb in (ok && ok', sa, sb)
      | (_, None, sa) => (false, sa, sb)
      end
  end.

(** No [window] frames in a row are lost before one that is delivered; [lost] were lost before. *)
Fixpoint losses_below (window lost : Z) (l : list (bool * Z)) : bool :=
  match l with
  | [] => true
  | (true, _) :: l => (lost <? window) && losses_below window 0 l
  | (false, _) :: l => losses_below window (lost + 1) l
  end.

(** The receiver knows the number of the sender as it was [lost] frames ago, or no number. *)
Definition seq_behind (lost : Z) (sa sb : st) : Prop :=
  in_u32 (local_seq_number (auth (bs sa))) ∧ in_u32 (remote_seq_number (auth (bs sb))) ∧
  (remote_seq_number_known (auth (bs sb)) = true →
     remote_seq_number (auth (bs sb)) = u32 (local_seq_number (auth (bs sa)) - lost)).

Lemma seq_ahead l n lost : in_u32 l → l = u32 (n - lost) → 0 ≤ lost < 765 → u32 (u32 (n + 1) - l) = lost + 1.
Proof.
  intros Hl -> Hlost. autorewrite with vpp. replace (n + 1 - (n - lost)) with (lost + 1) by lia.
  apply u32_small. unfold_ranges. lia.
Qed.

Lemma seq_expected q met now lost s : 0 ≤ lost < 3 * local_detect_mult (bs s) → in_u8 (local_detect_mult (bs s)) → in_u32 q →
  met = 0 ∨ met = 1 → in_u32 (remote_seq_number (auth (bs s))) →
  (remote_seq_number_known (auth (bs s)) = true → u32 (q - remote_seq_number (auth (bs s))) = lost + 1) →
  (bfd_verify_pkt_auth_seq_num q met now s).1 = true.
Proof.
  intros Hl Hm Hq Hmet Hr Hknown. rewrite seq_window by done. cbv zeta. unfold seq_known.
  destruct (remote_seq_number_known _); [|done]. rewrite Hknown by done. destruct (_ <=? _); [|done]. cbn [negb andb orb].
  apply orb_true_iff. right. destruct Hmet as [-> | ->], (_ <? _); lia.
Qed.

Lemma transmit_ok k id l lost sa sb : is_sha1_type (auth_type k) = true → uses_key k id sa → receives_with k id sb →
  knows sa sb → seq_behind lost sa sb → 0 ≤ lost → losses_below (3 * local_detect_mult (bs sb)) lost l = true →
  (transmit l sa sb).1.1 = true.
Proof.
  intros Ht. revert lost sa sb. induction l as [|[delivered now] l IH]; intros lost sa sb Hu Hr Hk (Hsa & Hsb & Hseq) Hlost Hgaps; [done|].
  cbn [transmit]. destruct (sign_ok k id sa Hu Ht) as (pkt & a & sa' & -> & Hsig & Hyd & Hu' & Hrd & Hls).
  assert (in_u32 (local_seq_number (auth (bs sa')))) as Hsa' by (rewrite Hls; apply u32_range).
  destruct delivered; cbn [losses_below] in Hgaps.
  - apply andb_prop in Hgaps as [Hlt Hgaps]. bool_to_prop. pose proof Hr as (_ & _ & Hm).
    assert (for_session pkt (bs sb) = true) as Hfor.
    { unfold for_session. rewrite Hyd. destruct Hk as [-> | ->]; by rewrite Z.eqb_refl, ?orb_true_r. }
    destruct (hear_signed k id _ pkt a now sb Hsig Hr Ht Hfor) as [Hok Hst].
    assert ((bfd_verify_pkt_auth_seq_num (u32 (local_seq_number (auth (bs sa)) + 1))
              (bfd_auth_type_is_meticulous (auth_type k)) now sb).1 = true) as Hv.
    { apply (seq_expected _ _ _ lost); try done; [apply u32_range|unfold bfd_auth_type_is_meticulous; case_match; lia|].
      intros Hkn. apply seq_ahead; [done|by apply Hseq|unfold_ranges; lia]. }
    destruct (Hst Hv) as (Hr2 & Hd2 & Hm2 & Hk2 & Hq2). rewrite Hv in Hok. destruct (hear pkt a now sb) as [ok sb'].
    cbn [fst snd] in *. subst ok. specialize (IH 0 sa' sb'). destruct (transmit l sa' sb') as [[ok' sa2] sb2]. cbn [fst] in *.
    rewrite IH; [done|done|done| | |lia|by rewrite Hm2].
    + unfold knows. by rewrite Hrd, Hd2.
    + unfold seq_behind. rewrite Hq2, <-Hls, Z.sub_0_r, u32_small by done. done.
  - specialize (IH (lost + 1) sa' sb). destruct (transmit l sa' sb) as [[ok' sa2] sb2]. cbn [fst andb] in *.
    apply IH; [done|done|unfold knows; by rewrite Hrd| |lia|done]. split; [done|split; [done|]].
    intros Hkn. rewrite Hseq, Hls by done. autorewrite with vpp. f_equal. lia.
Qed.

(** The check of sequence numbers, which works with two cases on 32-bit words that wrap, is a
    window on the distance from the last number: it accepts a number that is ahead by at most three times
    the detection multiplier, and with a meticulous key not the last one itself.  The
    window is larger by one when it reaches the end of the range of the numbers, and a meticulous key
    accepts every number after the last one of the range. *)
Theorem bfd_auth_seq_window (q met now : Z) (s : st) (Hq : in_u32 q) (Hr : in_u32 (remote_seq_number (auth (bs s))))
    (Hm : in_u8 (local_detect_mult (bs s))) (Hmet : met = 0 ∨ met = 1) :
  let r := remote_seq_number (auth (bs s)) in
  let window := 3 * local_detect_mult (bs s) in
  let ahead := u32 (q - r) in
  (bfd_verify_pkt_auth_seq_num q met now s).1 =
    negb (seq_known now (bs s))
    || ((met =? 1) && (r =? u32_max))
    || ((met <=? ahead) && (ahead <=? window + (if u32_max <? r + window then 1 else 0))).
Proof. by apply seq_window. Qed.

(** C12: Frames signed by one end are accepted by the other: the two share a key of a SHA1 type under the same
    number, and of the frames that the one sends, each with its section added, any may be lost as long as fewer than three times
    the detection multiplier are lost in a row; then every frame that arrives is
    accepted, whatever the states, the times and the wrap of the sequence numbers. *)
Theorem bfd_auth_stream (k : bfd_auth_key) (id : Z) (l : list (bool * Z)) (sa sb : st)
    (Hk : is_sha1_type (auth_type k) = true) (Hsend : uses_key k id sa) (Hrecv : receives_with k id sb)
    (Hknows : knows sa sb) (Hseq : seq_behind 0 sa sb)
    (Hloss : losses_below (3 * local_detect_mult (bs sb)) 0 l = true) :
  let '(accepted, _, _) := transmit l sa sb in accepted = true.
Proof.
  pose proof (transmit_ok k id l 0 sa sb Hk Hsend Hrecv Hknows Hseq ltac:(lia) Hloss) as H.
  by destruct (transmit l sa sb) as [[ok ?] ?].
Qed.


End bfd.

(** ** Examples *)

Definition toy_key : bfd_auth_key := AuthKey 5 1 (key_buffer [1; 2; 3]) BFD_AUTH_TYPE_meticulous_keyed_sha1.
Definition toy_keys (m : bfd_main) : bfd_main := set_auth_keys (pool_set (pool_get zero_key pool_null).1 0 toy_key) m.

(** A session that uses the key from the sequence number [seq] on. *)
Definition toy_signer (discr seq : Z) : st :=
  let s := toy_session discr in
  St (toy_keys (bm s))
    (set_local_detect_mult 3 (set_auth (Auth (Some 0) None seq seq true 9 0 false) (bs s))).

Lemma bfd_auth_seq_window_witness :
  in_u32 (u32_max - 1) ∧
  (@bfd_verify_pkt_auth_seq_num 4 1 0 (toy_signer 1 (u32_max - 1))).1 = true.
Proof.
  split; [unfold_ranges; lia|].
  by rewrite (bfd_auth_seq_window 4 1 0 (toy_signer 1 (u32_max - 1)))
    by (unfold_ranges; cbn; lia || by right).
Defined.

Lemma bfd_auth_stream_witness :
  (@transmit toy_env [(true, 10); (false, 20); (true, 30)] (toy_signer 1 (u32_max - 1)) (toy_signer 2 (u32_max - 1))).1.1 = true.
Proof.
  pose proof (@bfd_auth_stream toy_env toy_key 9 [(true, 10); (false, 20); (true, 30)]
    (toy_signer 1 (u32_max - 1)) (toy_signer 2 (u32_max - 1))) as H.
  destruct (transmit _ _ _) as [[ok ?] ?]. apply H; try done.
  - by exists 0.
  - split; [by exists 0|]. split; [done|]. unfold_ranges. cbn. lia.
  - by left.
Defined.

Definition toy_frame : bfd_pkt * option bfd_auth_sha1 * st := @sign toy_env (toy_signer 1 7).


End BfdAuth.
