(* ===== verification/BfdKeys.v ===== *)
(** * BFD: the uses of the keys

    The count of the uses of a key against the sessions that refer to it, seen from one session: the
    rest of the references, [ext], is the other sessions'.  Every function that changes the keys of
    a session keeps the count of each key at or above its references. *)

From stdpp Require Import gmap.
From S2P Require Import Prelude ByteOrder Bitmap Popcount Pool Bfd BfdFrame BfdSpec BfdAuth.

Module BfdKeys.
Import ClibPool Bfd BfdFrame BfdSpec BfdAuth.

(** Whether the key [k] is allocated. *)
Definition live (m : bfd_main) (k : Z) : Prop := is_Some (pool_elt_at_index (auth_keys m) k).

Definition is_key (x : option Z) (k : Z) : Z := if decide (x = Some k) then 1 else 0.

(** The references of a session to the key [k]. *)
Definition uses (a : bfd_auth) (k : Z) : Z := is_key (curr_key a) k + is_key (next_key a) k.

Lemma is_key_range x k : 0 ≤ is_key x k ≤ 1.
Proof. unfold is_key. case_decide; lia. Qed.
Lemma uses_range a k : 0 ≤ uses a k ≤ 2.
Proof. unfold uses. pose proof (is_key_range (curr_key a) k). pose proof (is_key_range (next_key a) k). lia. Qed.
Lemma is_key_None k : is_key None k = 0.
Proof. done. Qed.
Lemma is_key_Some j k : is_key (Some j) k = if decide (j = k) then 1 else 0.
Proof. unfold is_key. repeat case_decide; congruence. Qed.

(** The table of the keys is in order: the configured numbers are those of the allocated keys, and a free key has no uses. *)
Record key_table_ok (m : bfd_main) : Prop := {
  kt_pool : pool_ok (auth_keys m);
  kt_conf c k : auth_key_by_conf_key_id m !! c = Some k → live m k ∧ conf_key_id (key_at m k) = c;
  kt_live k : live m k → auth_key_by_conf_key_id m !! conf_key_id (key_at m k) = Some k;
  kt_free k : ¬ live m k → use_count (key_at m k) = 0;
}.

(** The counts cover the references of the session with those of the others, [ext], and are at most [n]. *)
Definition counted (n : Z) (ext : Z → Z) (m : bfd_main) (a : bfd_auth) : Prop :=
  ∀ k, 0 ≤ ext k ∧ uses a k + ext k ≤ use_count (key_at m k) ≤ n ∧ (0 < uses a k + ext k → live m k).

Lemma key_at_live m k : pool_ok (auth_keys m) → live m k → pool_elt_at_index (auth_keys m) k = Some (key_at m k).
Proof.
  intros Hok Hl. pose proof Hl as Hr. unfold live in Hr. rewrite elt_Some in Hr by done. destruct Hr as [Hr Hn].
  rewrite elt_vget by done. by apply vget_velt.
Qed.

Lemma live_range m k : pool_ok (auth_keys m) → live m k → 0 ≤ k < pool_len (auth_keys m).
Proof. intros Hok Hl. unfold live in Hl. rewrite elt_Some in Hl by done. apply Hl. Qed.

(** ** The store of a count *)

Lemma live_set_key m i x k : live m i → live (set_auth_keys (pool_set (auth_keys m) i x) m) k ↔ live m k.
Proof.
  intros Hi. unfold live. cbn [auth_keys set_auth_keys]. rewrite pool_elt_set by done.
  destruct (decide (k = i)) as [->|]; [|done]. split; [done|by eexists].
Qed.

Lemma key_at_set_key m i x k : pool_ok (auth_keys m) → live m i →
  key_at (set_auth_keys (pool_set (auth_keys m) i x) m) k = if decide (k = i) then x else key_at m k.
Proof.
  intros Hok Hi. pose proof (live_range m i Hok Hi) as Hr. unfold key_at. cbn.
  destruct (decide (k = i)) as [->|Hne]; [by apply velt_vset_eq|by apply velt_vset_ne].
Qed.

(** A change of the count alone keeps the table. *)
Lemma set_use_count_table d k m : key_table_ok m → live m k → key_table_ok (set_use_count d k m).
Proof.
  intros [Hp Hc Hl Hf] Hk. unfold set_use_count. cbv zeta.
  split; [by apply pool_set_ok|..]; intros; rewrite ?live_set_key, ?key_at_set_key in * by done.
  - destruct (Hc _ _ H) as [? <-]. split; [done|]. by case_decide; subst.
  - cbn [auth_key_by_conf_key_id set_auth_keys]. case_decide as Hd; cbn; [subst k0|]; by apply Hl.
  - case_decide; [by subst|by apply Hf].
Qed.

Lemma set_use_count_live d k m j : live m k → live (set_use_count d k m) j ↔ live m j.
Proof. intros Hk. unfold set_use_count. by apply live_set_key. Qed.

Lemma set_use_count_at d k m j : pool_ok (auth_keys m) → live m k →
  use_count (key_at (set_use_count d k m) j) =
    if decide (j = k) then u32 (use_count (key_at m k) + d) else use_count (key_at m j).
Proof. intros Hok Hk. unfold set_use_count. rewrite key_at_set_key by done. by case_decide. Qed.

(** The table after a function that may change counts: the same keys are allocated. *)
Definition same_keys (m m' : bfd_main) : Prop :=
  key_table_ok m' ∧ sessions m' = sessions m ∧ session_by_disc m' = session_by_disc m ∧ (∀ k, live m' k ↔ live m k).

Lemma use_key_same d x m : key_table_ok m → (∀ k, x = Some k → live m k) → same_keys m (use_key d x m).
Proof.
  intros Hok Hx. destruct x as [k|]; [|done]. specialize (Hx k eq_refl). cbn.
  split; [by apply set_use_count_table|]. split; [done|]. split; [done|]. intros j. by apply set_use_count_live.
Qed.

Lemma same_keys_trans m1 m2 m3 : same_keys m1 m2 → same_keys m2 m3 → same_keys m1 m3.
Proof.
  intros (_ & H1 & H2 & H3) (Hok & H4 & H5 & H6). split; [done|]. split; [congruence|]. split; [congruence|].
  intros k. by rewrite H6.
Qed.

Lemma use_key_at d x m j : key_table_ok m → (∀ k, x = Some k → live m k) → in_u32 (use_count (key_at m j) + d * is_key x j) →
  in_u32 (use_count (key_at m j)) → use_count (key_at (use_key d x m) j) = use_count (key_at m j) + d * is_key x j.
Proof.
  intros Hok Hx Hr Hr'. destruct x as [k|]; cbn [use_key]; [|rewrite is_key_None; lia].
  rewrite set_use_count_at by (try apply Hok; by apply Hx). rewrite is_key_Some in *.
  destruct (decide (j = k)) as [->|Hne]; [rewrite decide_True in Hr |- * by done|rewrite decide_False by congruence; lia].
  rewrite u32_small by (by rewrite Z.mul_1_r in Hr). lia.
Qed.

(** One reference less, or one more. *)
Lemma counted_drop n ext m a a' x : key_table_ok m → n < 2 ^ 32 → counted n ext m a →
  (∀ k, 0 ≤ uses a' k ≤ uses a k - is_key x k) →
  same_keys m (use_key (-1) x m) ∧ counted n ext (use_key (-1) x m) a'.
Proof.
  intros Hok Hn Hc Ha. assert (∀ k, x = Some k → live m k) as Hx.
  { intros k ->. destruct (Hc k) as (? & ? & Hl). apply Hl. specialize (Ha k). rewrite is_key_Some, decide_True in Ha by done. lia. }
  split; [by apply use_key_same|]. intros k. destruct (Hc k) as (He & Hu & Hl). specialize (Ha k). split; [done|].
  pose proof (is_key_range x k). rewrite use_key_at by (try done; unfold_ranges; lia). split; [lia|].
  intros Hpos. apply (use_key_same (-1) x m Hok Hx). apply Hl. lia.
Qed.

Lemma counted_take n ext m a a' x : key_table_ok m → n + 1 < 2 ^ 32 → counted n ext m a → live m x →
  (∀ k, 0 ≤ uses a' k ≤ uses a k + is_key (Some x) k) →
  same_keys m (set_use_count 1 x m) ∧ counted (n + 1) ext (set_use_count 1 x m) a'.
Proof.
  intros Hok Hn Hc Hx Ha. assert (∀ k, Some x = Some k → live m k) as Hx' by congruence.
  split; [by apply (use_key_same 1 (Some x))|]. intros k. destruct (Hc k) as (He & Hu & Hl). specialize (Ha k). split; [done|].
  pose proof (is_key_range (Some x) k). pose proof (uses_range a k).
  change (set_use_count 1 x m) with (use_key 1 (Some x) m). rewrite use_key_at by (try done; unfold_ranges; lia). split; [lia|].
  intros Hpos. apply (use_key_same 1 (Some x) m Hok Hx'). rewrite is_key_Some in *. case_decide; [congruence|]. apply Hl. lia.
Qed.

Lemma counted_weaken n n' ext m a a' : n ≤ n' → (∀ k, uses a' k = uses a k) → counted n ext m a → counted n' ext m a'.
Proof. intros Hn Ha Hc k. destruct (Hc k) as (? & ? & ?). rewrite Ha. split; [done|split; [lia|done]]. Qed.

(** ** The functions that change the keys of a session *)

Section bfd.
Context {Env : BfdEnv}.

(** The session and the table after a function on the session [s]. *)
Definition keys_kept (n n' : Z) (ext : Z → Z) (s s' : st) : Prop :=
  bs_idx (bs s') = bs_idx (bs s) ∧ local_discr (bs s') = local_discr (bs s) ∧
  same_keys (bm s) (bm s') ∧ counted n' ext (bm s') (auth (bs s')).

Lemma emit_keys n n' ext s s' e : keys_kept n n' ext s s' → keys_kept n n' ext s (emit e s').
Proof.
  intros (Hi & Hd & ([K1 K2 K3 K4] & Hs) & Hc). split; [done|]. split; [done|]. split; [|done]. split; [by split|done].
Qed.

Lemma find_key_live m c k e : key_table_ok m → find_key c m = Some (k, e) → live m k ∧ e = key_at m k ∧ conf_key_id (key_at m k) = c.
Proof.
  intros Hok. unfold find_key. destruct (auth_key_by_conf_key_id m !! c) as [i|] eqn:Hc; [|done]. cbn.
  destruct (pool_elt_at_index (auth_keys m) i) as [e'|] eqn:He; [|done]. cbn. intros [= <- <-].
  destruct (kt_conf m Hok c i Hc) as [Hl Hid]. split; [done|]. split; [|done].
  rewrite key_at_live in He by (try apply Hok; done). by injection He.
Qed.

Lemma switch_keys n ext s : key_table_ok (bm s) → n < 2 ^ 32 → counted n ext (bm s) (auth (bs s)) →
  keys_kept n n ext s (bfd_session_switch_auth_to_next s).
Proof.
  intros Hok Hn Hc. split; [done|]. split; [done|]. apply (counted_drop n ext (bm s) (auth (bs s))); [done..|].
  intros k. unfold uses. cbn. rewrite is_key_None. pose proof (is_key_range (next_key (auth (bs s))) k). lia.
Qed.

Lemma activate_keys n ext c id delayed s : key_table_ok (bm s) → n + 1 < 2 ^ 32 → counted n ext (bm s) (auth (bs s)) →
  keys_kept n (n + 1) ext s (bfd_auth_activate c id delayed s).2.
Proof.
  intros Hok Hn Hc. assert (keys_kept n (n + 1) ext s s) as Hsame.
  { split; [done|]. split; [done|]. split; [done|]. eapply counted_weaken; [|done|exact Hc]. lia. }
  unfold bfd_auth_activate. destruct (find_key c (bm s)) as [[k e]|] eqn:Hk; [|done].
  destruct (find_key_live _ _ _ _ Hok Hk) as (Hl & _ & _). cbv zeta. destruct delayed; case_bool_decide; [done| |done|].
  - split; [done|]. split; [done|]. apply (counted_take n ext (bm s) (auth (bs s))); [done..|].
    intros j. unfold uses. cbn. pose proof (is_key_range (curr_key (auth (bs s))) j).
    pose proof (is_key_range (next_key (auth (bs s))) j). pose proof (is_key_range (Some k) j). lia.
  - split; [done|]. split; [done|]. cbn [snd bm bs updm upd].
    set (a1 := set_keys None (next_key (auth (bs s))) 0 0 false (auth (bs s))).
    assert (∀ j, 0 ≤ uses a1 j ≤ uses (auth (bs s)) j - is_key (curr_key (auth (bs s))) j) as Ha1.
    { intros j. unfold uses. cbn. rewrite is_key_None. pose proof (is_key_range (next_key (auth (bs s))) j). lia. }
    destruct (counted_drop n ext (bm s) (auth (bs s)) a1 (curr_key (auth (bs s))) Hok ltac:(lia) Hc Ha1) as [Hs1 Hc1].
    destruct (counted_take n ext (use_key (-1) (curr_key (auth (bs s))) (bm s)) a1
      (set_keys (Some k) (next_key (auth (bs s))) id (next_bfd_key_id (auth (bs s))) false (auth (bs s))) k) as [Hs2 Hc2];
      [apply Hs1|lia|done|by apply Hs1| |].
    { intros j. unfold uses. cbn. rewrite is_key_None. pose proof (is_key_range (next_key (auth (bs s))) j).
      pose proof (is_key_range (Some k) j). lia. }
    split; [by eapply same_keys_trans|exact Hc2].
Qed.

Lemma deactivate_keys n ext delayed s : key_table_ok (bm s) → n < 2 ^ 32 → counted n ext (bm s) (auth (bs s)) →
  keys_kept n n ext s (bfd_auth_deactivate delayed s).2.
Proof.
  intros Hok Hn Hc. unfold bfd_auth_deactivate. cbv zeta. cbn [snd].
  set (s1 := if delayed then _ else _).
  assert (same_keys (bm s) (bm s1) ∧ counted n ext (bm s1) (auth (bs s1)) ∧ bs_idx (bs s1) = bs_idx (bs s) ∧
    local_discr (bs s1) = local_discr (bs s)) as (Hs1 & Hc1 & Hi & Hd).
  { unfold s1. destruct delayed.
    - split; [done|]. split; [|done]. eapply counted_weaken; [reflexivity| |exact Hc]. done.
    - match goal with |- _ ∧ counted _ _ _ ?a ∧ _ =>
        destruct (counted_drop n ext (bm s) (auth (bs s)) a (curr_key (auth (bs s))) Hok Hn Hc) as [Hs2 Hc2] end; [|done].
      intros j. unfold uses. cbn. rewrite is_key_None. pose proof (is_key_range (next_key (auth (bs s))) j). lia. }
  clearbody s1. split; [exact Hi|]. split; [exact Hd|]. cbn [bm bs updm upd].
  match goal with |- _ ∧ counted _ _ _ ?a =>
    destruct (counted_drop n ext (bm s1) (auth (bs s1)) a (next_key (auth (bs s1))) (proj1 Hs1) Hn Hc1) as [Hs2 Hc2] end.
  { intros j. unfold uses. cbn. rewrite is_key_None. pose proof (is_key_range (curr_key (auth (bs s1))) j). lia. }
  split; [by eapply same_keys_trans|exact Hc2].
Qed.

(** The verification of a packet may switch to the scheduled key. *)
Lemma forget_keys now s : frame' (forget_remote_seq now s) = frame' s.
Proof. unfold forget_remote_seq. by destruct (_ >? _). Qed.

Lemma verify_key_frame pkt a sz id k now s : frame' (bfd_verify_pkt_auth_key pkt a sz id k now s).2 = frame' s.
Proof.
  unfold bfd_verify_pkt_auth_key. destruct (is_sha1_type _); [|done].
  pose proof (seq_num_state (clib_net_to_host_u32 (sha1_seq_num a)) (bfd_auth_type_is_meticulous (auth_type k)) now s) as Hs.
  destruct (bfd_verify_pkt_auth_seq_num _ _ _ _) as [ok s1]. cbn [snd] in *. subst s1. apply forget_keys.
Qed.

Lemma uses_keys_of a a' k : keys_of a' = keys_of a → uses a' k = uses a k.
Proof. unfold keys_of, uses. by intros [= -> -> _ _ _]. Qed.

(** What [frame'] determines of the keys. *)
Lemma keys_kept_frame n ext s s' : key_table_ok (bm s) → counted n ext (bm s) (auth (bs s)) → frame' s' = frame' s →
  keys_kept n n ext s s'.
Proof.
  intros Hok Hc (Hcfg & Hk & Ht)%frame'_parts. injection Hcfg as Hi Hd _ _ _ _ _ _ _.
  injection Ht as Hses Hdisc _ _ _ Hkeys Hconf.
  assert (∀ k, live (bm s') k ↔ live (bm s) k) as Hl by (intros k; unfold live; by rewrite Hkeys).
  assert (∀ k, key_at (bm s') k = key_at (bm s) k) as Hat by (intros k; unfold key_at; by rewrite Hkeys).
  split; [done|]. split; [done|]. split.
  - split; [|done]. destruct Hok as [Hp Hcf Hlv Hfr]. split; [by rewrite Hkeys|..]; intros *; rewrite ?Hconf, ?Hl, ?Hat; auto.
  - intros k. rewrite (uses_keys_of (auth (bs s)) (auth (bs s'))), Hat, Hl by done. apply Hc.
Qed.

Lemma keys_kept_trans n1 n2 n3 ext s1 s2 s3 : keys_kept n1 n2 ext s1 s2 → keys_kept n2 n3 ext s2 s3 → keys_kept n1 n3 ext s1 s3.
Proof.
  intros (H1 & H2 & H3 & _) (H4 & H5 & H6 & H7). split; [congruence|]. split; [congruence|].
  split; [by eapply same_keys_trans|done].
Qed.

Lemma verify_next_keys n ext pkt a sz now s : key_table_ok (bm s) → n < 2 ^ 32 → counted n ext (bm s) (auth (bs s)) →
  keys_kept n n ext s (verify_next pkt a sz now s).2.
Proof.
  intros Hok Hn Hc. unfold verify_next. destruct (is_delayed (auth (bs s))), (next_key (auth (bs s))) as [k|]; try by apply keys_kept_frame.
  pose proof (verify_key_frame pkt a sz (next_bfd_key_id (auth (bs s))) (key_at (bm s) k) now s) as Hf.
  destruct (bfd_verify_pkt_auth_key _ _ _ _ _ _ _) as [ok s1]. cbn [snd] in Hf.
  pose proof (keys_kept_frame n ext s s1 Hok Hc Hf) as K. destruct ok; [|done]. cbn [snd].
  eapply keys_kept_trans; [exact K|]. destruct K as (_ & _ & [K1 _] & K2). by apply switch_keys.
Qed.

Lemma verify_keys n ext pkt a sz now now' s : key_table_ok (bm s) → n < 2 ^ 32 → counted n ext (bm s) (auth (bs s)) →
  keys_kept n n ext s (bfd_verify_pkt_auth pkt a sz now now' s).2.
Proof.
  intros Hok Hn Hc. assert (keys_kept n n ext s s) as Hs by (by apply keys_kept_frame).
  unfold bfd_verify_pkt_auth. cbv zeta. destruct (negb _).
  - destruct (curr_key (auth (bs s))) as [k|]; [|by apply verify_next_keys].
    pose proof (verify_key_frame pkt a sz (curr_bfd_key_id (auth (bs s))) (key_at (bm s) k) now s) as Hf.
    destruct (bfd_verify_pkt_auth_key _ _ _ _ _ _ _) as [ok s1]. cbn [snd] in Hf.
    pose proof (keys_kept_frame n ext s s1 Hok Hc Hf) as K. destruct ok; [done|].
    eapply keys_kept_trans; [exact K|]. destruct K as (_ & _ & [K1 _] & K2). by apply verify_next_keys.
  - destruct (_ >? _); [done|]. destruct (curr_key _); [|done]. destruct (is_delayed (auth (bs s))); [|done].
    destruct (next_key (auth (bs s))); [done|]. by apply switch_keys.
Qed.

(** It leaves the configuration. *)
Lemma verify_next_config pkt a sz now s : config (bs (verify_next pkt a sz now s).2) = config (bs s).
Proof.
  unfold verify_next. destruct (is_delayed (auth (bs s))), (next_key (auth (bs s))) as [k|]; try done.
  pose proof (verify_key_frame pkt a sz (next_bfd_key_id (auth (bs s))) (key_at (bm s) k) now s) as Hf.
  destruct (bfd_verify_pkt_auth_key _ _ _ _ _ _ _) as [ok s1]. apply frame'_parts in Hf as (<- & _). by destruct ok.
Qed.

Lemma verify_config pkt a sz now now' s : config (bs (bfd_verify_pkt_auth pkt a sz now now' s).2) = config (bs s).
Proof.
  unfold bfd_verify_pkt_auth. cbv zeta. destruct (negb _).
  - destruct (curr_key (auth (bs s))) as [k|]; [|apply verify_next_config].
    pose proof (verify_key_frame pkt a sz (curr_bfd_key_id (auth (bs s))) (key_at (bm s) k) now s) as Hf.
    destruct (bfd_verify_pkt_auth_key _ _ _ _ _ _ _) as [ok s1]. apply frame'_parts in Hf as (<- & _).
    destruct ok; [done|apply verify_next_config].
  - destruct (_ >? _); [done|]. destruct (curr_key _); [|done]. destruct (is_delayed (auth (bs s))); [|done].
    by destruct (next_key (auth (bs s))).
Qed.

End bfd.
End BfdKeys.
