(* ===== verification/BfdUdp.v ===== *)
(** * BFD over UDP (vnet/bfd/bfd_udp.c)

    The management of the sessions by their interface and addresses, and the checks of a received packet: its headers, its session
    by the discriminator or by the addresses, its authentication, and its source and hop limit.
    A packet that passes is handed to the main thread, which consumes it later.

    The transport of a session, a part of its structure in the code, is an entry of the map [udp] under the index of the
    session.  The addresses of the interfaces and the adjacency that the FIB gives for a
    neighbour are arguments. *)

From stdpp Require Import gmap gmultiset.
From S2P Require Import Prelude Bitmap Popcount Pool Bfd BfdAuth.

Module BfdUdp.
Import ClibPool Bfd BfdAuth.

(** ** Addresses and keys *)

(** [ip46_address_t] as its two 64-bit words; an IPv4 address is in the upper half of the second. *)
Record ip46_address := Ip46 { as_u64_0 : Z; as_u64_1 : Z }.

#[export] Instance ip46_address_eq_dec : EqDecision ip46_address.
Proof. solve_decision. Defined.
#[export] Instance ip46_address_countable : Countable ip46_address.
Proof. apply (inj_countable' (λ a, (as_u64_0 a, as_u64_1 a)) (λ p, Ip46 p.1 p.2)). by intros []. Defined.

Definition ip4_of (a : ip46_address) : Z := Z.shiftr (as_u64_1 a) 32.
Definition ip46_of_ip4 (a : Z) : ip46_address := Ip46 0 (Z.shiftl a 32).
Definition ip46_address_is_ip4 (a : ip46_address) : bool :=
  (as_u64_0 a =? 0) && (Z.land (as_u64_1 a) u32_max =? 0).

Record bfd_udp_key := UdpKey { sw_if_index : Z; local_addr : ip46_address; peer_addr : ip46_address }.

#[export] Instance bfd_udp_key_eq_dec : EqDecision bfd_udp_key.
Proof. solve_decision. Defined.
#[export] Instance bfd_udp_key_countable : Countable bfd_udp_key.
Proof.
  apply (inj_countable' (λ k, (sw_if_index k, local_addr k, peer_addr k)) (λ p, UdpKey p.1.1 p.1.2 p.2)). by intros [].
Defined.

Record bfd_udp_session := UdpSession { udp_key : bfd_udp_key; adj_index : Z }.

Record bfd_udp_main := UdpMain {
  bfd : bfd_main;
  bfd_session_idx_by_bfd_key : gmap bfd_udp_key Z;
  udp : gmap Z bfd_udp_session;
  adj_locks : gmultiset Z;
}.

Definition with_bfd (m : bfd_main) (u : bfd_udp_main) : bfd_udp_main :=
  UdpMain m (bfd_session_idx_by_bfd_key u) (udp u) (adj_locks u).

(** The addresses of an interface. *)
Record iface := Iface { ip4_addresses : list Z; ip6_addresses : list ip46_address }.

(** What the rest of the stack tells: the interface under an index, when there is one, and the adjacency of a neighbour. *)
Record stack := Stack { vnet_get_sw_interface_safe : Z → option iface; adj_nbr_add_or_lock : bfd_udp_key → Z }.

Section bfd.
Context {Env : BfdEnv}.

Definition bfd_lookup_session (u : bfd_udp_main) (k : bfd_udp_key) : option Z :=
  idx ← bfd_session_idx_by_bfd_key u !! k; _ ← bfd_find_session_by_idx (bfd u) idx; Some idx.

(** ** Sessions *)

Definition bfd_udp_validate_api_input (n : stack) (k : bfd_udp_key) : api_error :=
  match vnet_get_sw_interface_safe n (sw_if_index k) with
  | None => INVALID_SW_IF_INDEX
  | Some i =>
      if ip46_address_is_ip4 (local_addr k) then
        if negb (ip46_address_is_ip4 (peer_addr k)) then INVALID_ARGUMENT
        else if bool_decide (ip4_of (local_addr k) ∈ ip4_addresses i) then API_OK else ADDRESS_NOT_FOUND_FOR_INTERFACE
      else
        if ip46_address_is_ip4 (peer_addr k) then INVALID_ARGUMENT
        else if bool_decide (local_addr k ∈ ip6_addresses i) then API_OK else ADDRESS_NOT_FOUND_FOR_INTERFACE
  end.

Definition bfd_api_verify_common (n : stack) (k : bfd_udp_key) (desired_min_tx_usec detect_mult : Z) : api_error :=
  match bfd_udp_validate_api_input n k with
  | API_OK => if detect_mult <? 1 then INVALID_ARGUMENT else if desired_min_tx_usec <? 1 then INVALID_ARGUMENT else API_OK
  | rv => rv
  end.

(** The session of a request, or the error. *)
Definition bfd_udp_find_session_by_api_input (n : stack) (k : bfd_udp_key) (u : bfd_udp_main) : api_error + Z :=
  match bfd_udp_validate_api_input n k with
  | API_OK => match bfd_lookup_session u k with Some idx => inr idx | None => inl BFD_ENOENT end
  | rv => inl rv
  end.

(** Runs a function with an answer on a session of the pool. *)
Definition ask_session (f : st → api_error * st) (idx : Z) (u : bfd_udp_main) : api_error * bfd_udp_main :=
  match bfd_find_session_by_idx (bfd u) idx with
  | Some b =>
      let '(rv, s) := f (St (bfd u) b) in
      (rv, with_bfd (set_sessions (pool_set (sessions (bm s)) idx (bs s)) (bm s)) u)
  | None => (BFD_ENOENT, u)
  end.

Definition on_bfd (f : bfd_main → bfd_main) (u : bfd_udp_main) : bfd_udp_main := with_bfd (f (bfd u)) u.

(** [None] is the access through the null pointer when no discriminator was found; the answer has the
    index of the session when it was added. *)
Definition bfd_udp_add_session_internal (n : stack) (k : bfd_udp_key) (desired_min_tx_usec required_min_rx_usec detect_mult : Z)
    (u : bfd_udp_main) : option (api_error * option Z * bfd_udp_main) :=
  let t := if ip46_address_is_ip4 (local_addr k) then BFD_TRANSPORT_UDP4 else BFD_TRANSPORT_UDP6 in
  match bfd_get_session t (bfd u) with
  | (_, None) => None
  | (m, Some idx) =>
      let u := with_bfd m u in
      match bfd_lookup_session u k with
      | Some _ => Some (BFD_EEXIST, None, on_bfd (bfd_put_session idx) u)
      | None =>
          let adj := adj_nbr_add_or_lock n k in
          let u := UdpMain (bfd u) (<[k := idx]> (bfd_session_idx_by_bfd_key u)) (<[idx := UdpSession k adj]> (udp u))
                     ({[+ adj +]} ⊎ adj_locks u) in
          Some (API_OK, Some idx, on_bfd (on_session (bfd_session_set_params desired_min_tx_usec required_min_rx_usec detect_mult) idx) u)
      end
  end.

Definition bfd_udp_del_session_internal (idx : Z) (u : bfd_udp_main) : bfd_udp_main :=
  match udp u !! idx with
  | Some s =>
      UdpMain (bfd_put_session idx (bfd u)) (delete (udp_key s) (bfd_session_idx_by_bfd_key u)) (delete idx (udp u))
        (adj_locks u ∖ {[+ adj_index s +]})
  | None => u
  end.

(** [auth] is the number of the configured key and the number in packets, when the session is authenticated. *)
Definition bfd_udp_add_session (n : stack) (k : bfd_udp_key) (desired_min_tx_usec required_min_rx_usec detect_mult : Z)
    (auth : option (Z * Z)) (u : bfd_udp_main) : option (api_error * bfd_udp_main) :=
  match bfd_api_verify_common n k desired_min_tx_usec detect_mult with
  | API_OK =>
      match bfd_udp_add_session_internal n k desired_min_tx_usec required_min_rx_usec detect_mult u with
      | Some (API_OK, Some idx, u) =>
          let '(rv, u) := match auth with
                          | Some (conf_key_id, bfd_key_id) => ask_session (bfd_auth_activate conf_key_id bfd_key_id false) idx u
                          | None => (API_OK, u)
                          end in
          match rv with
          | API_OK => Some (API_OK, on_bfd (on_session bfd_session_start idx) u)
          | rv => Some (rv, bfd_udp_del_session_internal idx u)
          end
      | Some (rv, _, u) => Some (rv, u)
      | None => None
      end
  | rv => Some (rv, u)
  end.

(** Runs a function on the session of a request. *)
Definition on_request (n : stack) (k : bfd_udp_key) (f : Z → bfd_udp_main → api_error * bfd_udp_main) (u : bfd_udp_main)
    : api_error * bfd_udp_main :=
  match bfd_udp_find_session_by_api_input n k u with inl rv => (rv, u) | inr idx => f idx u end.

Definition bfd_udp_mod_session (n : stack) (k : bfd_udp_key) (desired_min_tx_usec required_min_rx_usec detect_mult : Z)
    : bfd_udp_main → api_error * bfd_udp_main :=
  on_request n k (ask_session (λ s, (API_OK, bfd_session_set_params desired_min_tx_usec required_min_rx_usec detect_mult s))).

Definition bfd_udp_del_session (n : stack) (k : bfd_udp_key) : bfd_udp_main → api_error * bfd_udp_main :=
  on_request n k (λ idx u, (API_OK, bfd_udp_del_session_internal idx u)).

Definition bfd_udp_session_set_flags (n : stack) (k : bfd_udp_key) (admin_up_down : bool) (now now' : Z)
    : bfd_udp_main → api_error * bfd_udp_main :=
  on_request n k (ask_session (λ s, (API_OK, bfd_session_set_flags admin_up_down now now' s))).

Definition bfd_udp_auth_activate (n : stack) (k : bfd_udp_key) (conf_key_id key_id : Z) (is_delayed : bool)
    : bfd_udp_main → api_error * bfd_udp_main :=
  on_request n k (ask_session (bfd_auth_activate conf_key_id key_id is_delayed)).

Definition bfd_udp_auth_deactivate (n : stack) (k : bfd_udp_key) (is_delayed : bool) : bfd_udp_main → api_error * bfd_udp_main :=
  on_request n k (ask_session (bfd_auth_deactivate is_delayed)).

(** The source port of a session. *)
Definition bfd_udp_bs_idx_to_sport (bs_idx : Z) : Z := u16 (49152 + bs_idx `mod` (65535 - 49152 + 1)).

(** ** Reception *)

(** A buffer at the BFD payload: the places of the IP header and of the payload relative to the data, the headers, and the
    payload.  The length in the UDP header is read as it lies in memory. *)
Record buffer := Buffer {
  current_length : Z;
  start_of_ip_header : Z;
  current_data : Z;
  rx_sw_if_index : Z;
  ip_src : ip46_address;
  ip_dst : ip46_address;
  ip_ttl : Z;
  ip_protocol : Z;
  udp_length : Z;
  payload : bfd_pkt;
  payload_auth : bfd_auth_sha1;
}.

Definition sizeof_pre_data : Z := 128.
Definition IP_PROTOCOL_UDP : Z := 17.

(** Whether the headers are found.  The comparison with the size of [pre_data] is one of unsigned numbers. *)
Definition bfd_udp4_find_headers (b : buffer) : bool :=
  if (start_of_ip_header b <? 0) && (u64 (start_of_ip_header b) <? sizeof_pre_data) then false
  else negb (start_of_ip_header b >? current_data b).

Definition bfd_udp6_find_headers (b : buffer) : bool :=
  bfd_udp4_find_headers b && (ip_protocol b =? IP_PROTOCOL_UDP).

Definition bfd_udp4_verify_transport (b : buffer) (k : bfd_udp_key) : bool :=
  if negb (ip4_of (ip_src b) =? ip4_of (peer_addr k)) then false
  else if negb (ip4_of (ip_dst b) =? ip4_of (local_addr k)) then false
  else ip_ttl b =? 255.

Definition bfd_udp6_verify_transport (b : buffer) (k : bfd_udp_key) : bool :=
  if negb (as_u64_0 (ip_src b) =? as_u64_0 (peer_addr k)) && negb (as_u64_1 (ip_src b) =? as_u64_1 (peer_addr k)) then false
  else if negb (as_u64_0 (ip_dst b) =? as_u64_0 (local_addr k)) && negb (as_u64_1 (ip_dst b) =? as_u64_1 (local_addr k)) then false
  else ip_ttl b =? 255.

(** A session to be updated by the main thread, with its packet; when the packet says that it is shorter than its
    authentication section, the rest is what lies behind the copy. *)
Record rpc := Rpc { rpc_bs_idx : Z; rpc_pkt : bfd_pkt; rpc_auth : bfd_auth_sha1 }.

Definition bfd_rpc_update_session (idx : Z) (pkt : bfd_pkt) (a beyond : bfd_auth_sha1) : rpc :=
  Rpc idx pkt (if length pkt <? sizeof_bfd_pkt_with_sha1_auth
               then AuthSha1 (sha1_type a) (sha1_len a) (sha1_key_id beyond) (sha1_reserved beyond) (sha1_seq_num beyond) (sha1_hash beyond)
               else a).

(** The session that a packet is for. *)
Definition scan_lookup (is_ipv6 : bool) (b : buffer) (u : bfd_udp_main) : option Z :=
  if negb (your_disc (payload b) =? 0) then
    idx ← session_by_disc (bfd u) !! your_disc (payload b); _ ← bfd_find_session_by_idx (bfd u) idx; Some idx
  else
    bfd_lookup_session u
      (if is_ipv6 then UdpKey (rx_sw_if_index b) (ip_dst b) (ip_src b)
       else UdpKey (rx_sw_if_index b) (ip46_of_ip4 (ip4_of (ip_dst b))) (ip46_of_ip4 (ip4_of (ip_src b)))).

(** [bfd_udp4_scan] and [bfd_udp6_scan]: the update of the session, when the packet is good.  The times are readings of the clock. *)
Definition bfd_udp_scan (is_ipv6 : bool) (b : buffer) (beyond : bfd_auth_sha1) (now now' : Z) (u : bfd_udp_main)
    : option rpc * bfd_udp_main :=
  let pkt := payload b in
  if sizeof_bfd_pkt >? current_length b then (None, u)
  else if negb (if is_ipv6 then bfd_udp6_find_headers b else bfd_udp4_find_headers b) then (None, u)
  else if length pkt >? u32 (udp_length b - 8) then (None, u)
  else if negb (bfd_verify_pkt_common pkt) then (None, u)
  else
    match scan_lookup is_ipv6 b u with
    | None => (None, u)
    | Some idx =>
        match bfd_find_session_by_idx (bfd u) idx with
        | None => (None, u)
        | Some bs =>
            let '(ok, s) := bfd_verify_pkt_auth pkt (payload_auth b) (current_length b) now now' (St (bfd u) bs) in
            let u := with_bfd (set_sessions (pool_set (sessions (bm s)) idx (Bfd.bs s)) (bm s)) u in
            if negb ok then (None, u)
            else match udp u !! idx with
                 | Some x =>
                     if (if is_ipv6 then bfd_udp6_verify_transport b (udp_key x) else bfd_udp4_verify_transport b (udp_key x))
                     then (Some (bfd_rpc_update_session idx pkt (payload_auth b) beyond), u) else (None, u)
                 | None => (None, u)
                 end
        end
    end.

(** The main thread consumes an update. *)
Definition bfd_rpc_update_session_cb (r : rpc) (now now' : Z) : bfd_udp_main → bfd_udp_main :=
  on_bfd (bfd_consume_pkt (rpc_pkt r) (rpc_auth r) now now' (rpc_bs_idx r)).

End bfd.
End BfdUdp.
