(* ===== verification/BfdSystem.v ===== *)
(** * BFD: the sessions and keys of the whole component

    The invariant of the tables under every interleaving of the calls of the API, received packets, and turns of the
    process node: discriminators and addresses name the sessions uniquely, every session holds its
    adjacency, and a key that a session refers to is allocated and counted, so that it can neither be changed nor
    deleted.  The API implements a table of sessions by addresses. *)

From stdpp Require Import gmap gmultiset.
From S2P Require Import Prelude Bitmap Popcount Pool Bfd BfdFrame BfdSpec BfdAuth BfdKeys BfdUdp.

Module BfdSystem.
Import ClibPool Bfd BfdFrame BfdSpec BfdAuth BfdKeys BfdUdp.

(** ** Sums over the sessions *)

Fixpoint sumf (f : nat → Z) (n : nat) : Z := match n with O => 0 | S n => sumf f n + f n end.

Lemma sumf_ext f g n : (∀ i, (i < n)%nat → f i = g i) → sumf f n = sumf g n.
Proof. induction n as [|n IH]; cbn; [done|]. intros H. rewrite IH, H; [done|lia|]. intros i Hi. apply H. lia. Qed.

Lemma sumf_update f g n i : (i < n)%nat → (∀ j, j ≠ i → g j = f j) → sumf g n = sumf f n + g i - f i.
Proof.
  induction n as [|n IH]; cbn; [lia|]. intros Hi H. destruct (decide (i = n)) as [->|Hne].
  - rewrite (sumf_ext g f n); [lia|]. intros j Hj. apply H. lia.
  - rewrite IH, (H n) by (done || lia). lia.
Qed.

Lemma sumf_ge f n i : (∀ j, 0 ≤ f j) → (i < n)%nat → f i ≤ sumf f n.
Proof.
  intros Hf. assert (∀ n, 0 ≤ sumf f n) as H0 by (induction n0; cbn; [lia|]; specialize (Hf n0); lia).
  induction n as [|n IH]; cbn; [lia|]. intros Hi. destruct (decide (i = n)) as [->|Hne]; [specialize (H0 n); lia|].
  specialize (Hf n). assert (f i ≤ sumf f n) by (apply IH; lia). lia.
Qed.

(** The indices of a pool; the number is sealed, since as a [nat] it is not to be computed. *)
Lemma max_sessions_sealed : { n : nat | Z.of_nat n = 2 ^ 32 }.
Proof. exists (Z.to_nat (2 ^ 32)). by rewrite Z2Nat.id. Qed.
Definition max_sessions : nat := proj1_sig max_sessions_sealed.
Lemma max_sessions_spec : Z.of_nat max_sessions = 2 ^ 32.
Proof. exact (proj2_sig max_sessions_sealed). Qed.

Abbreviation find := bfd_find_session_by_idx.

Definition session_uses (m : bfd_main) (k : Z) (i : nat) : Z :=
  match find m (Z.of_nat i) with Some b => uses (auth b) k | None => 0 end.

(** The references of all sessions to the key [k]. *)
Definition refs (m : bfd_main) (k : Z) : Z := sumf (session_uses m k) max_sessions.

Lemma find_range m i b : pool_ok (sessions m) → find m i = Some b → 0 ≤ i < 2 ^ 32.
Proof.
  intros Hok Hf. assert (is_Some (pool_elt_at_index (sessions m) i)) as Hs by (by exists b).
  rewrite elt_Some in Hs by done. pose proof (ok_len _ Hok). lia.
Qed.

Lemma session_uses_nonneg m k i : 0 ≤ session_uses m k i.
Proof. unfold session_uses. case_match; [|lia]. apply uses_range. Qed.

Lemma refs_ge m k i b : pool_ok (sessions m) → find m i = Some b → uses (auth b) k ≤ refs m k.
Proof.
  intros Hok Hf. pose proof (find_range m i b Hok Hf) as Hr.
  assert (session_uses m k (Z.to_nat i) = uses (auth b) k) as <- by (unfold session_uses; by rewrite Z2Nat.id, Hf by lia).
  apply sumf_ge; [apply session_uses_nonneg|]. pose proof max_sessions_spec. lia.
Qed.

(** The references of one session change. *)
Definition uses_at (m : bfd_main) (i k : Z) : Z := match find m i with Some b => uses (auth b) k | None => 0 end.

Lemma refs_update m m' i k : 0 ≤ i < 2 ^ 32 → (∀ j, j ≠ i → find m' j = find m j) →
  refs m' k = refs m k + uses_at m' i k - uses_at m i k.
Proof.
  intros Hi Hj. unfold refs. rewrite (sumf_update (session_uses m k) (session_uses m' k) max_sessions (Z.to_nat i)).
  - unfold session_uses, uses_at. by rewrite Z2Nat.id by lia.
  - pose proof max_sessions_spec. lia.
  - intros j Hne. unfold session_uses. rewrite Hj; [done|]. intros <-. by rewrite Nat2Z.id in Hne.
Qed.

Lemma refs_same m m' k : (∀ j, find m' j = find m j) → refs m' k = refs m k.
Proof. intros H. apply sumf_ext. intros i _. unfold session_uses. by rewrite H. Qed.

(** ** The invariant *)

Record bfd_ok (n : Z) (m : bfd_main) : Prop := {
  bo_pool : pool_ok (sessions m);
  bo_keys : key_table_ok m;
  bo_count k : refs m k ≤ use_count (key_at m k) ≤ n ∧ (0 < refs m k → live m k);
  bo_idx i b : find m i = Some b → bs_idx b = i;
  bo_disc d i : session_by_disc m !! d = Some i ↔ ∃ b, find m i = Some b ∧ local_discr b = d;
}.

(** The adjacencies that the sessions hold. *)
Definition held (u : gmap Z bfd_udp_session) : gmultiset Z := list_to_set_disj (adj_index ∘ snd <$> map_to_list u).

Record udp_ok (u : bfd_udp_main) : Prop := {
  uo_udp i : is_Some (find (bfd u) i) ↔ is_Some (udp u !! i);
  uo_key k i : bfd_session_idx_by_bfd_key u !! k = Some i ↔ ∃ x, udp u !! i = Some x ∧ udp_key x = k;
  uo_locks : adj_locks u = held (udp u);
}.

Definition sys_ok (n : Z) (u : bfd_udp_main) : Prop := bfd_ok n (bfd u) ∧ udp_ok u.

Lemma bfd_ok_weaken n n' m : n ≤ n' → bfd_ok n m → bfd_ok n' m.
Proof. intros Hn [H1 H2 H3 H4 H5]. split; [done..| |done|done]. intros k. destruct (H3 k). split; [lia|done]. Qed.

(** The references of the other sessions. *)
Definition others (m : bfd_main) (b : bfd_session) (k : Z) : Z := refs m k - uses (auth b) k.

Lemma bfd_ok_counted n m i b : bfd_ok n m → find m i = Some b → counted n (others m b) m (auth b).
Proof.
  intros Hok Hf k. destruct (bo_count n m Hok k) as [Hc Hl]. pose proof (refs_ge m k i b (bo_pool n m Hok) Hf).
  unfold others. split; [lia|]. split; [lia|]. intros Hp. apply Hl. lia.
Qed.

Definition same_sessions (m m' : bfd_main) : Prop := ∀ i, is_Some (find m' i) ↔ is_Some (find m i).

Definition store (idx : Z) (s : st) : bfd_main := set_sessions (pool_set (sessions (bm s)) idx (bs s)) (bm s).

Lemma find_store m idx b s j : find m idx = Some b → sessions (bm s) = sessions m →
  find (store idx s) j = if decide (j = idx) then Some (bs s) else find m j.
Proof.
  intros Hf Hs. unfold store, bfd_find_session_by_idx in *. cbn [sessions set_sessions]. rewrite Hs. apply pool_elt_set. by exists b.
Qed.

(** A function on a session that accounts for its keys. *)
Lemma session_step n n' m idx b s : n ≤ n' → bfd_ok n m → find m idx = Some b →
  keys_kept n n' (others m b) (St m b) s → bfd_ok n' (store idx s) ∧ same_sessions m (store idx s).
Proof.
  intros Hn Hok Hf (Hi & Hd & (Hk & Hses & Hdisc & Hlive) & Hc). cbn [bm bs] in *.
  assert (∀ j, find (store idx s) j = if decide (j = idx) then Some (bs s) else find m j) as Hfs
    by (intros j; by apply (find_store m idx b)).
  pose proof (find_range m idx b (bo_pool n m Hok) Hf) as Hr.
  assert (∀ k, refs (store idx s) k = others m b k + uses (auth (bs s)) k) as Hrefs.
  { intros k. rewrite (refs_update m (store idx s) idx k) by first [exact Hr|intros j Hj; by rewrite Hfs, decide_False].
    unfold uses_at, others. rewrite Hfs, decide_True, Hf by done. lia. }
  split; [split|].
  - unfold store. cbn. rewrite Hses. apply pool_set_ok, (bo_pool n m Hok).
  - destruct Hk as [K1 K2 K3 K4]. by split.
  - intros k. rewrite Hrefs. destruct (Hc k) as (? & ? & Hlv). change (key_at (store idx s) k) with (key_at (bm s) k).
    split; [lia|]. intros Hp. change (live (bm s) k). apply Hlv. lia.
  - intros j b'. rewrite Hfs. case_decide as Hj; [|apply (bo_idx n m Hok)]. intros [= <-]. rewrite Hi, Hj. by apply (bo_idx n m Hok).
  - intros d j. cbn. rewrite Hdisc, (bo_disc n m Hok). rewrite Hfs. case_decide as Hj; [|done]. subst j. rewrite Hf.
    split; intros (b' & [= <-] & Hb'); eexists; (split; [reflexivity|congruence]).
  - intros j. rewrite Hfs. case_decide as Hj; [|done]. subst j. rewrite Hf. split; intros _; by eexists.
Qed.

Section bfd.
Context {Env : BfdEnv}.

Lemma frame_step n m idx b s : bfd_ok n m → find m idx = Some b → frame' s = frame' (St m b) →
  bfd_ok n (store idx s) ∧ same_sessions m (store idx s).
Proof.
  intros Hok Hf Hs. apply (session_step n n m idx b s); [lia|done|done|].
  apply keys_kept_frame; [apply Hok|by apply (bfd_ok_counted n m idx)|done].
Qed.

(** Only the tables matter. *)
Lemma tables_step n m m' : tables m' = tables m → bfd_ok n m → bfd_ok n m' ∧ same_sessions m m'.
Proof.
  intros Ht [B1 [K1 K2 K3 K4] B3 B4 B5]. unfold tables in Ht. injection Ht as Hs Hd _ _ _ Hk Hc.
  assert (∀ i, find m' i = find m i) as Hf by (intros i; unfold bfd_find_session_by_idx; by rewrite Hs).
  assert (∀ k, live m' k ↔ live m k) as Hl by (intros k; unfold live; by rewrite Hk).
  assert (∀ k, key_at m' k = key_at m k) as Hat by (intros k; unfold key_at; by rewrite Hk).
  split; [|intros i; by rewrite Hf]. split.
  - by rewrite Hs.
  - split; [by rewrite Hk|intros c k; rewrite Hc, Hl, Hat; apply K2|intros k; rewrite Hc, Hl, Hat; apply K3|].
    intros k. rewrite Hl, Hat. apply K4.
  - intros k. rewrite Hl, Hat, (refs_same m m' k Hf). apply B3.
  - intros i b. rewrite Hf. apply B4.
  - intros d i. rewrite Hd, B5. by rewrite Hf.
Qed.

(** Handlers that keep the configuration, and the parameters. *)
Lemma steady_session n m idx f : (∀ s, frame' (f s) = frame' s) → bfd_ok n m →
  bfd_ok n (on_session f idx m) ∧ same_sessions m (on_session f idx m).
Proof.
  intros Hf Hok. unfold on_session. destruct (find m idx) as [b|] eqn:Hb; [|done]. by apply (frame_step n m idx b).
Qed.

Lemma set_params_kept n m idx b tx rx mult : bfd_ok n m → find m idx = Some b →
  keys_kept n n (others m b) (St m b) (bfd_session_set_params tx rx mult (St m b)).
Proof.
  intros Hok Hb. pose proof (bfd_ok_counted n m idx b Hok Hb) as Hc. pose proof (bo_keys n m Hok) as Hk.
  unfold bfd_session_set_params. cbv zeta. destruct (_ || _); [|by split].
  set (s1 := match poll_state (bs (St m b)) with BFD_POLL_NOT_NEEDED => _ | _ => _ end).
  assert (frame s1 = frame (St m b)) as H1 by (unfold s1; cbn [bs]; destruct (poll_state b); steady_chain).
  pose proof (keys_kept_frame n (others m b) (St m b) s1 Hk Hc (frame_frame' _ _ H1)) as K. clearbody s1. apply emit_keys. exact K.
Qed.

Lemma set_params_step n m idx tx rx mult : bfd_ok n m →
  bfd_ok n (on_session (bfd_session_set_params tx rx mult) idx m) ∧ same_sessions m (on_session (bfd_session_set_params tx rx mult) idx m).
Proof.
  intros Hok. unfold on_session. destruct (find m idx) as [b|] eqn:Hb; [|done].
  apply (session_step n n m idx b); [lia|done|done|by apply (set_params_kept n m idx)].
Qed.

(** A timeout or an event of the process node. *)
Lemma process_turn_step n m i e now now' expired : bfd_ok n m →
  bfd_ok n (bfd_process_turn i e now now' expired m) ∧ same_sessions m (bfd_process_turn i e now now' expired m).
Proof.
  intros Hok. unfold bfd_process_turn. cbv zeta.
  assert (bfd_ok n (process_event i e now m) ∧ same_sessions m (process_event i e now m)) as [Hok1 Hs1].
  { destruct e; cbn [process_event]; [done|done|apply steady_session|apply steady_session]; try done; intros s.
    - etrans; [apply frame_frame', (steady_set_timer now true)|]. apply steady_send_periodic.
    - apply frame_frame', steady_config_change. }
  set (m1 := process_event i e now m) in *. clearbody m1.
  set (m2 := set_wheel _ m1). assert (bfd_ok n m2 ∧ same_sessions m m2) as [Hok2 Hs2]
    by (destruct (tables_step n m1 m2 eq_refl Hok1) as [? Hs2]; split; [done|intros j; by rewrite (Hs2 j)]).
  clearbody m2. clear Hok1 Hs1 m1. revert m2 Hok2 Hs2. induction (map snd expired) as [|idx l IH]; intros m2 Hok2 Hs2; [done|].
  cbn [foldl]. unfold process_timeout at 2 4.
  destruct (steady_session n m2 idx (λ s, s |> bfd_on_timeout (i idx) now (now' idx) |> bfd_set_timer now true)) as [Hok3 Hs3]; [|done|].
  - intros s. etrans; [apply frame_frame', (steady_set_timer now true)|]. apply steady_on_timeout.
  - apply IH; [done|]. intros j. by rewrite (Hs3 j).
Qed.

(** ** Sessions come and go *)

Lemma pick_discr_fresh tries by_disc seed seed' d : pick_discr tries by_disc seed = (seed', Some d) → by_disc !! d = None.
Proof.
  revert seed. induction tries as [|tries IH]; intros seed; cbn; [done|].
  destruct (by_disc !! random_u32 seed) eqn:Hd; [apply IH|]. intros [= _ <-]. done.
Qed.

Lemma get_session_step n t m m' idx : bfd_ok n m → pool_len (sessions m) < 2 ^ 32 → bfd_get_session t m = (m', Some idx) →
  bfd_ok n m' ∧ find m idx = None ∧ (∃ b, find m' idx = Some b ∧ curr_key (auth b) = None) ∧
  (∀ j, j ≠ idx → find m' j = find m j) ∧ auth_key_by_conf_key_id m' = auth_key_by_conf_key_id m.
Proof.
  intros Hok Hlen. unfold bfd_get_session. destruct (pool_get (zero_session 0 t) (sessions m)) as [p i] eqn:Hg.
  destruct (pool_get_ok _ _ _ _ (bo_pool n m Hok) Hlen Hg) as (Hp & Hn & Hl & Ho & Hir & _).
  cbn [session_by_disc random_seed set_sessions]. destruct (pick_discr _ _ _) as [seed [d|]] eqn:Hd; [|done].
  apply pick_discr_fresh in Hd. set (s := bfd_set_defaults _).
  assert (sessions (bm s) = p ∧ session_by_disc (bm s) = session_by_disc m ∧ auth_keys (bm s) = auth_keys m ∧
    auth_key_by_conf_key_id (bm s) = auth_key_by_conf_key_id m ∧ bs_idx (bs s) = i ∧ local_discr (bs s) = d ∧
    curr_key (auth (bs s)) = None ∧ next_key (auth (bs s)) = None) as (S1 & S2 & S3 & S4 & S5 & S6 & S7 & S8) by done.
  clearbody s. intros [= <- <-]. set (m' := set_session_by_disc _ _).
  assert (∀ j, find m' j = if decide (j = i) then Some (bs s) else find m j) as Hf.
  { intros j. unfold m', bfd_find_session_by_idx. cbn. rewrite S1, pool_elt_set by done.
    case_decide; [done|]. by apply Ho. }
  assert (∀ k, refs m' k = refs m k) as Hrefs.
  { intros k. rewrite (refs_update m m' i k) by first [exact Hir|intros j Hj; by rewrite Hf, decide_False].
    unfold uses_at. rewrite Hf, decide_True by done. unfold bfd_find_session_by_idx. rewrite Hn.
    unfold uses. rewrite S7, S8, !is_key_None. lia. }
  assert (∀ k, live m' k ↔ live m k) as Hlive by (intros k; unfold live, m'; cbn; by rewrite S3).
  assert (∀ k, key_at m' k = key_at m k) as Hat by (intros k; unfold key_at, m'; cbn; by rewrite S3).
  split; [|split; [done|split; [|split; [|cbn; congruence]]]].
  - split.
    + cbn. rewrite S1. by apply pool_set_ok.
    + destruct (bo_keys n m Hok) as [K1 K2 K3 K4]. split; [cbn; by rewrite S3|..]; intros *; rewrite ?Hlive, ?Hat; cbn; rewrite ?S4; auto.
    + intros k. rewrite Hrefs, Hat, Hlive. apply (bo_count n m Hok).
    + intros j b. rewrite Hf. case_decide; [|apply (bo_idx n m Hok)]. intros [= <-]. congruence.
    + intros e j. cbn. rewrite S2, S6. rewrite lookup_insert_Some. rewrite Hf. case_decide as Hj.
      * subst j. split.
        -- intros [[-> _]|[Hne He]]; [by exists (bs s)|].
           apply (bo_disc n m Hok) in He as (b & Hb & _). unfold bfd_find_session_by_idx in Hb. by rewrite Hn in Hb.
        -- intros (b & [= <-] & Hb). left. split; [congruence|done].
      * rewrite (bo_disc n m Hok). split.
        -- intros [[-> ->]|[Hne He]]; [done|exact He].
        -- intros (b & Hb & He). right. split; [|by exists b]. intros ->.
           assert (session_by_disc m !! e = Some j) as Hx by (apply (bo_disc n m Hok); by exists b). congruence.
  - exists (bs s). by rewrite Hf, decide_True.
  - intros j Hj. by rewrite Hf, decide_False.
Qed.

Lemma put_session_step n m idx b : bfd_ok n m → n < 2 ^ 32 → find m idx = Some b →
  bfd_ok n (bfd_put_session idx m) ∧ find (bfd_put_session idx m) idx = None ∧
  (∀ j, j ≠ idx → find (bfd_put_session idx m) j = find m j) ∧
  auth_key_by_conf_key_id (bfd_put_session idx m) = auth_key_by_conf_key_id m.
Proof.
  intros Hok Hn Hb. unfold bfd_put_session. rewrite Hb. cbv zeta.
  pose proof (bfd_ok_counted n m idx b Hok Hb) as Hc. set (a := auth b) in *.
  set (a1 := set_keys None (next_key a) 0 0 false a). set (a2 := set_keys None None 0 0 false a).
  destruct (counted_drop n (others m b) m a a1 (curr_key a) (bo_keys n m Hok) Hn Hc) as [Hs1 Hc1].
  { intros k. unfold uses. cbn. rewrite is_key_None. pose proof (is_key_range (next_key a) k). lia. }
  destruct (counted_drop n (others m b) _ a1 a2 (next_key a) (proj1 Hs1) Hn Hc1) as [Hs2 Hc2].
  { intros k. unfold uses. cbn. rewrite !is_key_None. lia. }
  destruct (same_keys_trans _ _ _ Hs1 Hs2) as (Hk & Hses & Hdisc & Hlive).
  assert (auth_key_by_conf_key_id (use_key (-1) (next_key a) (use_key (-1) (curr_key a) m)) = auth_key_by_conf_key_id m) as Hconf
    by (by destruct (curr_key a), (next_key a)).
  set (m2 := use_key (-1) (next_key a) _) in *. clearbody m2. set (m' := set_sessions _ _).
  destruct (pool_put_ok (sessions m) idx (bo_pool n m Hok)) as (Hp & Hnone & Ho & _); [by exists b|].
  assert (∀ j, find m' j = if decide (j = idx) then None else find m j) as Hf.
  { intros j. unfold m', bfd_find_session_by_idx. cbn. rewrite Hses. case_decide as Hj; [by subst|by apply Ho]. }
  split; [|split; [by rewrite Hf, decide_True|split; [|exact Hconf]]].
  2: { intros j Hj. by rewrite Hf, decide_False. }
  assert (∀ k, refs m' k = others m b k) as Hrefs.
  { intros k. rewrite (refs_update m m' idx k).
    - unfold uses_at, others. rewrite Hf, decide_True, Hb by done. lia.
    - by apply (find_range m idx b (bo_pool n m Hok)).
    - intros j Hj. by rewrite Hf, decide_False. }
  split.
  - unfold m'. cbn. by rewrite Hses.
  - destruct Hk. by split.
  - intros k. rewrite Hrefs. destruct (Hc2 k) as (? & ? & Hl). unfold uses in *. cbn in *. rewrite !is_key_None in *.
    change (key_at m' k) with (key_at m2 k). split; [lia|]. intros Hp'. apply Hl. lia.
  - intros j b'. rewrite Hf. case_decide; [done|]. apply (bo_idx n m Hok).
  - intros d j. cbn. rewrite Hdisc, lookup_delete_Some, (bo_disc n m Hok), Hf. case_decide as Hj.
    + subst j. split; [|by intros (? & [=] & _)]. intros [Hne (b' & Hb' & Hd)]. congruence.
    + split; [by intros [_ ?]|]. intros (b' & Hb' & Hd). split; [|by exists b']. intros Hd'.
      assert (session_by_disc m !! d = Some idx) as H1 by (apply (bo_disc n m Hok); by exists b).
      assert (session_by_disc m !! d = Some j) as H2 by (apply (bo_disc n m Hok); by exists b'). congruence.
Qed.

(** ** The table of the keys *)

Lemma and_append (A B C : Prop) : A ∧ B → C → A ∧ B ∧ C.
Proof. tauto. Qed.

Lemma refs_nonneg m k : 0 ≤ refs m k.
Proof.
  unfold refs. assert (∀ n, 0 ≤ sumf (session_uses m k) n) as H; [|apply H].
  induction n as [|n IH]; cbn; [lia|]. pose proof (session_uses_nonneg m k n). lia.
Qed.

(** The keys of [m'] are those of [m] with [x] in the place of the key [i], and the sessions are the same. *)
Lemma replace_keys_step n m m' i x :
  sessions m' = sessions m → session_by_disc m' = session_by_disc m → key_table_ok m' →
  (∀ k, key_at m' k = if decide (k = i) then x else key_at m k) → (∀ k, k ≠ i → live m k → live m' k) →
  use_count x = 0 → refs m i = 0 → bfd_ok n m → bfd_ok n m' ∧ same_sessions m m'.
Proof.
  intros Hs Hd Hk Hat Hl Hx Hr [B1 B2 B3 B4 B5].
  assert (∀ j, find m' j = find m j) as Hf by (intros j; unfold bfd_find_session_by_idx; by rewrite Hs).
  split; [|intros j; by rewrite Hf]. split; [by rewrite Hs|done|..].
  - intros k. rewrite Hat, (refs_same m m' k Hf). destruct (B3 k) as [Hc Hlv]. case_decide as Hki; [subst k; lia|].
    split; [done|]. intros Hp. by apply Hl, Hlv.
  - intros j b. rewrite Hf. apply B4.
  - intros d j. rewrite Hd, B5. by rewrite Hf.
Qed.

Lemma find_key_None n m c : bfd_ok n m → find_key c m = None ↔ auth_key_by_conf_key_id m !! c = None.
Proof.
  intros Hok. unfold find_key. destruct (auth_key_by_conf_key_id m !! c) as [i|] eqn:Hc; [|done]. cbn. split; [|done].
  destruct (kt_conf m (bo_keys n m Hok) c i Hc) as [[e He] _]. by rewrite He.
Qed.

(** A key that is in the table and not in use. *)
Lemma unused_key n m c i e : bfd_ok n m → find_key c m = Some (i, e) → use_count e >? 0 = false →
  live m i ∧ e = key_at m i ∧ conf_key_id e = c ∧ use_count e = 0 ∧ refs m i = 0.
Proof.
  intros Hok Hf Hu. destruct (find_key_live m c i e (bo_keys n m Hok) Hf) as (Hl & -> & Hc).
  destruct (bo_count n m Hok i) as [Hr _]. pose proof (refs_nonneg m i). rewrite Z.gtb_ltb in Hu. bool_to_prop.
  split_and!; [done..|lia|lia].
Qed.

Lemma set_key_step n m c t data : bfd_ok n m → pool_len (auth_keys m) < 2 ^ 32 →
  let m' := (bfd_auth_set_key c t data m).2 in bfd_ok n m' ∧ same_sessions m m' ∧ sessions m' = sessions m.
Proof.
  intros Hok Hlen. cbv zeta. unfold bfd_auth_set_key. cbv zeta. destruct (_ || _); [done|]. destruct (negb _); [done|].
  destruct (find_key c m) as [[i e]|] eqn:Hf.
  - destruct (use_count e >? 0) eqn:Hu; [done|]. cbn [snd].
    destruct (unused_key n m c i e Hok Hf Hu) as (Hl & -> & Hc & Hu0 & Hr). apply and_append; [|done].
    set (x := AuthKey _ _ _ _). pose proof (bo_keys n m Hok) as Hkt.
    pose proof (λ k, live_set_key m i x k Hl) as Hlive. pose proof (λ k, key_at_set_key m i x k (kt_pool m Hkt) Hl) as Hat.
    apply (replace_keys_step n m _ i x); try done; [|by intros k _; rewrite Hlive].
    destruct Hkt as [K1 K2 K3 K4]. split; [by apply pool_set_ok|..]; cbn [auth_key_by_conf_key_id set_auth_keys].
    + intros c' k Hc'. rewrite Hlive, Hat. destruct (K2 c' k Hc') as [? <-]. split; [done|]. by case_decide; subst.
    + intros k. rewrite Hlive, Hat. intros Hk. case_decide; subst; by apply K3.
    + intros k. rewrite Hlive, Hat. intros Hk. case_decide; subst; by apply K4.
  - rewrite (find_key_None n) in Hf by done. destruct (pool_get zero_key (auth_keys m)) as [p i] eqn:Hg. cbn [snd].
    apply and_append; [|done]. pose proof (bo_keys n m Hok) as Hkt. destruct Hkt as [K1 K2 K3 K4].
    destruct (pool_get_ok _ _ _ _ K1 Hlen Hg) as (Hp & Hn & Hl & Ho & Hir & _).
    assert (¬ live m i) as Hnl by (unfold live; rewrite Hn; by intros [??]).
    assert (∀ k, velt zero_key (elts p) k = key_at m k) as Hel.
    { intros k. unfold key_at. revert Hg. unfold pool_get. destruct (0 <? _); intros [= <- _]; [done|]. cbn.
      destruct (Z_lt_le_dec k (pool_len (auth_keys m))) as [Hk|Hk]; [unfold velt; by rewrite vget_app_l|].
      rewrite (velt_out _ (elts (auth_keys m))) by (right; exact Hk). unfold velt. rewrite vget_app_r by exact Hk.
      unfold vget. case_cond; [|done]. by destruct (Z.to_nat _). }
    assert (use_count (default zero_key (vget (elts p) i)) = 0) as Hu0 by (fold (velt zero_key (elts p) i); rewrite Hel; by apply K4).
    set (x := AuthKey c _ _ _). set (m' := set_auth_keys _ _).
    assert (0 ≤ i < pool_len p) as Hrange by (rewrite elt_Some in Hl by done; apply Hl).
    assert (∀ k, key_at m' k = if decide (k = i) then x else key_at m k) as Hat.
    { intros k. unfold key_at at 1, m'. cbn. case_decide as Hk; [subst k; by apply velt_vset_eq|]. rewrite velt_vset_ne by done. apply Hel. }
    assert (∀ k, live m' k ↔ live m k ∨ k = i) as Hlive.
    { intros k. unfold live, m'. cbn. rewrite pool_elt_set by done. case_decide as Hk; [subst k; split; [by right|by eexists]|].
      rewrite Ho by done. split; [by left|by intros [?|?]]. }
    apply (replace_keys_step n m m' i x); try done.
    + split; cbn [auth_keys auth_key_by_conf_key_id m' set_auth_keys set_auth_key_by_conf_key_id].
      * by apply pool_set_ok.
      * intros c' k. rewrite lookup_insert_Some, Hlive, Hat. intros [[<- <-]|[Hne Hc']].
        -- rewrite decide_True by done. by split; [right|].
        -- destruct (K2 c' k Hc') as [? <-]. split; [by left|]. case_decide; [by subst|done].
      * intros k. rewrite Hlive, Hat. intros [Hk| ->]; [|by rewrite decide_True, lookup_insert_eq].
        case_decide as Hki; [by subst|]. rewrite lookup_insert_ne; [by apply K3|]. intros He.
        pose proof (K3 k Hk) as K. rewrite <-He in K. congruence.
      * intros k. rewrite Hlive, Hat. intros Hk. case_decide; [exfalso; tauto|]. apply K4. tauto.
    + intros k Hk Hlk. rewrite Hlive. by left.
    + destruct (bo_count n m Hok i) as [_ Hlv]. pose proof (refs_nonneg m i). destruct (Z.eq_dec (refs m i) 0); [done|].
      destruct Hnl. apply Hlv. lia.
Qed.

Lemma del_key_step n m c : bfd_ok n m →
  let m' := (bfd_auth_del_key c m).2 in bfd_ok n m' ∧ same_sessions m m' ∧ sessions m' = sessions m.
Proof.
  intros Hok. cbv zeta. unfold bfd_auth_del_key. destruct (find_key c m) as [[i e]|] eqn:Hf; [|done].
  destruct (use_count e >? 0) eqn:Hu; [done|]. cbn [snd].
  destruct (unused_key n m c i e Hok Hf Hu) as (Hl & -> & Hc & Hu0 & Hr). apply and_append; [|done].
  pose proof (bo_keys n m Hok) as Hkt. destruct Hkt as [K1 K2 K3 K4].
  destruct (pool_put_ok (pool_set (auth_keys m) i zero_key) i) as (Hp & Hnone & Ho & _);
    [by apply pool_set_ok|rewrite pool_elt_set, decide_True by done; by eexists|].
  set (m' := set_auth_keys _ _).
  assert (∀ k, key_at m' k = if decide (k = i) then zero_key else key_at m k) as Hat
    by (exact (λ k, key_at_set_key m i zero_key k K1 Hl)).
  assert (∀ k, live m' k ↔ live m k ∧ k ≠ i) as Hlive.
  { intros k. unfold live, m'. cbn. destruct (decide (k = i)) as [->|Hk]; [rewrite Hnone; split; [by intros [??]|tauto]|].
    rewrite Ho, pool_elt_set, decide_False by done. tauto. }
  apply (replace_keys_step n m m' i zero_key); try done; [|intros k Hk Hlk; by rewrite Hlive].
  split; cbn [auth_keys auth_key_by_conf_key_id m' set_auth_keys set_auth_key_by_conf_key_id].
  - done.
  - intros c' k. rewrite lookup_delete_Some, Hlive, Hat. intros [Hne Hc']. destruct (K2 c' k Hc') as [? <-].
    assert (k ≠ i) as Hki by (intros ->; congruence). by rewrite decide_False.
  - intros k. rewrite Hlive, Hat. intros [Hk Hki]. rewrite decide_False by done. rewrite lookup_delete_ne; [by apply K3|].
    intros He. pose proof (K3 k Hk) as Kk. rewrite <-He, <-Hc, (K3 i Hl) in Kk. congruence.
  - intros k. rewrite Hlive, Hat. intros Hk. case_decide; [done|]. apply K4. tauto.
Qed.

(** ** The functions of bfd_udp.c *)

(** What the API shows of a session. *)
Definition params (b : bfd_session) : Z * Z * Z :=
  (config_desired_min_tx_usec b, config_required_min_rx_usec b, local_detect_mult b).

(** The sessions by their addresses. *)
Definition table (u : bfd_udp_main) : gmap bfd_udp_key (Z * Z * Z) :=
  omap (λ i, params <$> find (bfd u) i) (bfd_session_idx_by_bfd_key u).

#[local] Arguments table : simpl never.

Lemma table_lookup u k : table u !! k = (bfd_session_idx_by_bfd_key u !! k ≫= λ i, params <$> find (bfd u) i).
Proof. apply lookup_omap. Qed.

(** The same tables over other sessions with the same parameters. *)
Definition same_params (m m' : bfd_main) : Prop := ∀ i, params <$> find m' i = params <$> find m i.

Lemma same_params_sessions m m' : same_params m m' → same_sessions m m'.
Proof. intros H i. specialize (H i). destruct (find m' i), (find m i); cbn in H; try done; split; intros [??]; by eexists. Qed.

Lemma udp_ok_with m u : udp_ok u → same_sessions (bfd u) m → udp_ok (with_bfd m u).
Proof. intros [H1 H2 H3] Hs. split; [|done|done]. intros i. cbn. by rewrite (Hs i). Qed.

Lemma table_with m u : same_params (bfd u) m → table (with_bfd m u) = table u.
Proof.
  intros Hs. apply map_eq. intros k. rewrite !table_lookup. cbn. destruct (_ !! k); [|done]. cbn. apply Hs.
Qed.

Lemma sys_ok_with n n' m u : sys_ok n u → bfd_ok n' m ∧ same_sessions (bfd u) m → sys_ok n' (with_bfd m u).
Proof. intros [_ Hu] [Hm Hs]. split; [done|by apply udp_ok_with]. Qed.

Lemma sys_ok_weaken n n' u : n ≤ n' → sys_ok n u → sys_ok n' u.
Proof. intros Hn [H Hu]. split; [by apply (bfd_ok_weaken n)|done]. Qed.

Lemma lookup_session_spec u k : udp_ok u → bfd_lookup_session u k = bfd_session_idx_by_bfd_key u !! k.
Proof.
  intros Hu. unfold bfd_lookup_session. destruct (_ !! k) as [i|] eqn:Hk; [|done]. cbn.
  apply (uo_key u Hu) in Hk as (x & Hx & _). assert (is_Some (find (bfd u) i)) as [b Hb] by (apply (uo_udp u Hu); by exists x).
  by rewrite Hb.
Qed.

Lemma table_dom u k : udp_ok u → table u !! k = None ↔ bfd_session_idx_by_bfd_key u !! k = None.
Proof.
  intros Hu. rewrite table_lookup. destruct (_ !! k) as [i|] eqn:Hk; [|done]. cbn. split; [|done].
  apply (uo_key u Hu) in Hk as (x & Hx & _). assert (is_Some (find (bfd u) i)) as [b Hb] by (apply (uo_udp u Hu); by exists x).
  by rewrite Hb.
Qed.

(** A change of one session in the table. *)
Lemma table_update u m idx k b' : udp_ok u → bfd_session_idx_by_bfd_key u !! k = Some idx → find m idx = Some b' →
  (∀ j, j ≠ idx → find m j = find (bfd u) j) → table (with_bfd m u) = <[k := params b']> (table u).
Proof.
  intros Hu Hk Hb Hj. apply map_eq. intros k'. rewrite table_lookup. cbn.
  destruct (decide (k' = k)) as [->|Hne]; [by rewrite lookup_insert_eq, Hk; cbn; rewrite Hb|].
  rewrite lookup_insert_ne, table_lookup by done. destruct (_ !! k') as [i|] eqn:Hk'; [|done]. cbn. rewrite Hj; [done|].
  intros ->. apply (uo_key u Hu) in Hk as (x & Hx & <-). apply (uo_key u Hu) in Hk' as (x' & Hx' & <-). congruence.
Qed.

(** A function on the session of a request. *)
Lemma ask_step n n' u idx f : n ≤ n' → sys_ok n u →
  (∀ b, find (bfd u) idx = Some b → keys_kept n n' (others (bfd u) b) (St (bfd u) b) (f (St (bfd u) b)).2 ∧
     params (bs (f (St (bfd u) b)).2) = params b) →
  sys_ok n' (ask_session f idx u).2 ∧ table (ask_session f idx u).2 = table u.
Proof.
  intros Hn [Hm Hu] Hf. unfold ask_session. destruct (find (bfd u) idx) as [b|] eqn:Hb.
  2: { split; [|done]. by apply (sys_ok_weaken n). }
  destruct (Hf b eq_refl) as [Hk Hp]. destruct (f (St (bfd u) b)) as [rv s]. cbn [snd] in *.
  pose proof (session_step n n' (bfd u) idx b s Hn Hm Hb Hk) as [Hok Hss]. fold (store idx s).
  split; [apply (sys_ok_with n); [done|by split]|]. apply table_with. intros j.
  rewrite (find_store (bfd u) idx b s j Hb) by apply Hk. case_decide as Hj; [|done]. subst j. rewrite Hb. cbn. by rewrite Hp.
Qed.

Lemma params_frame s s' : frame' s' = frame' s → params (bs s') = params (bs s).
Proof. intros (Hc & _)%frame'_parts. unfold params. injection Hc as _ _ -> _ -> _ -> _ _. done. Qed.

Lemma activate_params c id d s : params (bs (bfd_auth_activate c id d s).2) = params (bs s).
Proof. unfold bfd_auth_activate. destruct (find_key _ _) as [[k e]|]; [|done]. cbv zeta. destruct d; by case_bool_decide. Qed.
Lemma deactivate_params d s : params (bs (bfd_auth_deactivate d s).2) = params (bs s).
Proof. unfold bfd_auth_deactivate. by destruct d. Qed.
Lemma set_params_params tx rx mult s : params (bs (bfd_session_set_params tx rx mult s)) = (tx, rx, mult).
Proof.
  unfold bfd_session_set_params. cbv zeta. destruct (_ || _) eqn:Hc; [done|]. bool_to_prop. unfold params. congruence.
Qed.

Lemma activate_step n u c id d idx : n + 1 < 2 ^ 32 → sys_ok n u →
  sys_ok (n + 1) (ask_session (bfd_auth_activate c id d) idx u).2 ∧ table (ask_session (bfd_auth_activate c id d) idx u).2 = table u.
Proof.
  intros Hn [Hm Hu]. apply (ask_step n); [lia|done|]. intros b Hb. split; [|apply activate_params].
  apply activate_keys; [apply Hm|done|by apply (bfd_ok_counted n _ idx)].
Qed.

Lemma deactivate_step n u d idx : n < 2 ^ 32 → sys_ok n u →
  sys_ok n (ask_session (bfd_auth_deactivate d) idx u).2 ∧ table (ask_session (bfd_auth_deactivate d) idx u).2 = table u.
Proof.
  intros Hn [Hm Hu]. apply (ask_step n); [lia|done|]. intros b Hb. split; [|apply deactivate_params].
  apply deactivate_keys; [apply Hm|done|by apply (bfd_ok_counted n _ idx)].
Qed.

Lemma flags_step n u up now now' idx : sys_ok n u →
  let f := λ s, (API_OK, bfd_session_set_flags up now now' s) in
  sys_ok n (ask_session f idx u).2 ∧ table (ask_session f idx u).2 = table u.
Proof.
  intros [Hm Hu]. cbv zeta. apply (ask_step n); [lia|done|]. intros b Hb. cbn [snd].
  pose proof (steady_set_flags up now now' (St (bfd u) b)) as Hf. split; [|by apply (params_frame (St (bfd u) b)), frame_frame'].
  apply keys_kept_frame; [apply Hm|by apply (bfd_ok_counted n _ idx)|by apply frame_frame'].
Qed.

Lemma mod_step n u k tx rx mult idx : sys_ok n u → bfd_session_idx_by_bfd_key u !! k = Some idx →
  let u' := (ask_session (λ s, (API_OK, bfd_session_set_params tx rx mult s)) idx u).2 in
  sys_ok n u' ∧ table u' = <[k := (tx, rx, mult)]> (table u).
Proof.
  intros [Hm Hu] Hk. cbv zeta. unfold ask_session. pose proof Hk as Hk'. apply (uo_key u Hu) in Hk' as (x & Hx & _).
  assert (is_Some (find (bfd u) idx)) as [b Hb] by (apply (uo_udp u Hu); by exists x). rewrite Hb. cbn [snd].
  set (s := bfd_session_set_params tx rx mult (St (bfd u) b)). fold (store idx s).
  pose proof (set_params_kept n (bfd u) idx b tx rx mult Hm Hb) as Hkept. fold s in Hkept.
  destruct (session_step n n (bfd u) idx b s ltac:(lia) Hm Hb Hkept) as [Hok Hss].
  split; [by apply (sys_ok_with n)|]. pose proof (find_store (bfd u) idx b s) as Hfs.
  rewrite (table_update u (store idx s) idx k (bs s)); [by unfold s; rewrite set_params_params|done|done| |].
  - rewrite Hfs by (done || apply Hkept). by rewrite decide_True.
  - intros j Hj. rewrite Hfs by (done || apply Hkept). by rewrite decide_False.
Qed.

Lemma release_lock (a : Z) (X : gmultiset Z) : ({[+ a +]} ⊎ X) ∖ {[+ a +]} = X.
Proof. apply gmultiset_eq. intros y. rewrite multiplicity_difference, multiplicity_disj_union. lia. Qed.

(** The deletion of a session. *)
Lemma del_step n u k idx x : n < 2 ^ 32 → sys_ok n u → udp u !! idx = Some x → udp_key x = k →
  sys_ok n (bfd_udp_del_session_internal idx u) ∧ table (bfd_udp_del_session_internal idx u) = delete k (table u) ∧
  auth_key_by_conf_key_id (bfd (bfd_udp_del_session_internal idx u)) = auth_key_by_conf_key_id (bfd u).
Proof.
  intros Hn [Hm Hu] Hx <-. unfold bfd_udp_del_session_internal. rewrite Hx.
  assert (is_Some (find (bfd u) idx)) as [b Hb] by (apply (uo_udp u Hu); by exists x).
  destruct (put_session_step n (bfd u) idx b Hm Hn Hb) as (Hok & Hnone & Ho & Hconf).
  assert (∀ k i, bfd_session_idx_by_bfd_key u !! k = Some i → k ≠ udp_key x → i ≠ idx) as Hne.
  { intros k i Hk Hkx ->. apply (uo_key u Hu) in Hk as (x' & Hx' & Hk). congruence. }
  split; [split; [done|split]|split; [|done]]; cbn.
  - intros i. destruct (decide (i = idx)) as [->|Hi].
    + rewrite Hnone, lookup_delete_eq. split; by intros [??].
    + rewrite Ho, lookup_delete_ne by done. apply (uo_udp u Hu).
  - intros k i. rewrite lookup_delete_Some, (uo_key u Hu). split.
    + intros [Hk (x' & Hx' & Hk')]. exists x'. split; [|done]. rewrite lookup_delete_ne; [done|]. intros <-. congruence.
    + intros (x' & [Hi Hx']%lookup_delete_Some & Hk'). split; [|by exists x'].
      intros Hkx. assert (bfd_session_idx_by_bfd_key u !! k = Some i) as H1 by (apply (uo_key u Hu); by exists x').
      assert (bfd_session_idx_by_bfd_key u !! k = Some idx) as H2 by (apply (uo_key u Hu); by exists x). congruence.
  - rewrite (uo_locks u Hu). unfold held. rewrite <-(map_to_list_delete (udp u) idx x Hx). apply release_lock.
  - apply map_eq. intros k. rewrite table_lookup. cbn. destruct (decide (k = udp_key x)) as [->|Hk].
    + by rewrite !lookup_delete_eq.
    + rewrite !lookup_delete_ne, table_lookup by done. destruct (_ !! k) as [i|] eqn:Hi; [|done]. cbn.
      by rewrite Ho by (by apply (Hne k)).
Qed.

End bfd.
End BfdSystem.
