(* ===== verification/BfdApi.v ===== *)
(** * BFD: the API implements a table of sessions

    The whole component as a transition system: calls of the API, the management of the keys, packets with
    their updates handed to the main thread, and turns of the process node, in any order.  Every call
    answers as a table of sessions by addresses does, and the invariants of BfdSystem hold in every state. *)

From stdpp Require Import gmap gmultiset.
From S2P Require Import Prelude Bitmap Popcount Pool Bfd BfdFrame BfdSpec BfdAuth BfdKeys BfdUdp BfdSystem.

Module BfdApi.
Import ClibPool Bfd BfdFrame BfdSpec BfdAuth BfdKeys BfdUdp BfdSystem.

(** ** The calls and their specification *)

Inductive api_op :=
  | Add_session (k : bfd_udp_key) (tx rx mult : Z) (auth : option (Z * Z))
  | Mod_session (k : bfd_udp_key) (tx rx mult : Z)
  | Del_session (k : bfd_udp_key)
  | Set_flags (k : bfd_udp_key) (admin_up_down : bool) (now now' : Z)
  | Auth_activate (k : bfd_udp_key) (conf_key_id key_id : Z) (delayed : bool)
  | Auth_deactivate (k : bfd_udp_key) (delayed : bool).

(** A table of the parameters by addresses.  [keys] are the configured keys. *)
Definition with_session (n : stack) (k : bfd_udp_key) (t : gmap bfd_udp_key (Z * Z * Z))
    (r : api_error * gmap bfd_udp_key (Z * Z * Z)) : api_error * gmap bfd_udp_key (Z * Z * Z) :=
  match bfd_udp_validate_api_input n k with
  | API_OK => match t !! k with Some _ => r | None => (BFD_ENOENT, t) end
  | rv => (rv, t)
  end.

Definition spec_op (n : stack) (keys : gset Z) (op : api_op) (t : gmap bfd_udp_key (Z * Z * Z))
    : api_error * gmap bfd_udp_key (Z * Z * Z) :=
  match op with
  | Add_session k tx rx mult auth =>
      match bfd_api_verify_common n k tx mult with
      | API_OK =>
          match t !! k, auth with
          | Some _, _ => (BFD_EEXIST, t)
          | None, Some (c, _) => if decide (c ∈ keys) then (API_OK, <[k := (tx, rx, mult)]> t) else (BFD_ENOENT, t)
          | None, None => (API_OK, <[k := (tx, rx, mult)]> t)
          end
      | rv => (rv, t)
      end
  | Mod_session k tx rx mult => with_session n k t (API_OK, <[k := (tx, rx, mult)]> t)
  | Del_session k => with_session n k t (API_OK, delete k t)
  | Set_flags k _ _ _ | Auth_deactivate k _ => with_session n k t (API_OK, t)
  | Auth_activate k c _ _ => with_session n k t (if decide (c ∈ keys) then API_OK else BFD_ENOENT, t)
  end.

Section bfd.
Context {Env : BfdEnv}.

Definition api_run (n : stack) (op : api_op) (u : bfd_udp_main) : option (api_error * bfd_udp_main) :=
  match op with
  | Add_session k tx rx mult auth => bfd_udp_add_session n k tx rx mult auth u
  | Mod_session k tx rx mult => Some (bfd_udp_mod_session n k tx rx mult u)
  | Del_session k => Some (bfd_udp_del_session n k u)
  | Set_flags k up now now' => Some (bfd_udp_session_set_flags n k up now now' u)
  | Auth_activate k c id d => Some (bfd_udp_auth_activate n k c id d u)
  | Auth_deactivate k d => Some (bfd_udp_auth_deactivate n k d u)
  end.

Definition conf_keys (u : bfd_udp_main) : gset Z := dom (auth_key_by_conf_key_id (bfd u)).

(** ** Each call *)

Lemma conf_keys_step c u n : sys_ok n u → (find_key c (bfd u) = None ↔ c ∉ conf_keys u).
Proof. intros [Hm _]. unfold conf_keys. by rewrite not_elem_of_dom, (find_key_None n) by done. Qed.

(** The addition of a session whose addresses are taken, or not. *)
Lemma add_internal_step c n k tx rx mult u res : sys_ok c u → c < 2 ^ 32 → pool_len (sessions (bfd u)) < 2 ^ 32 →
  bfd_udp_add_session_internal n k tx rx mult u = Some res →
  match table u !! k with
  | Some _ => ∃ u', res = (BFD_EEXIST, None, u') ∧ sys_ok c u' ∧ table u' = table u
  | None => ∃ idx u' x, res = (API_OK, Some idx, u') ∧ sys_ok c u' ∧ udp u' !! idx = Some x ∧ udp_key x = k ∧
      table u' = <[k := (tx, rx, mult)]> (table u) ∧ conf_keys u' = conf_keys u
  end.
Proof.
  intros [Hm Hu] Hc Hlen. unfold bfd_udp_add_session_internal. cbv zeta.
  destruct (bfd_get_session _ (bfd u)) as [m [idx|]] eqn:Hg; [|done].
  destruct (get_session_step c _ (bfd u) m idx Hm Hlen Hg) as (Hok & Hnone & (b & Hb & _) & Ho & Hconf).
  assert (∀ k i, bfd_session_idx_by_bfd_key u !! k = Some i → i ≠ idx ∧ is_Some (find (bfd u) i)) as Hkey.
  { intros k' i (x & Hx & _)%(uo_key u Hu). assert (is_Some (find (bfd u) i)) as Hs by (apply (uo_udp u Hu); by exists x).
    split; [|done]. intros ->. rewrite Hnone in Hs. by destruct Hs. }
  assert (bfd_lookup_session (with_bfd m u) k = bfd_session_idx_by_bfd_key u !! k) as ->.
  { unfold bfd_lookup_session. cbn. destruct (_ !! k) as [i|] eqn:Hk; [|done]. cbn.
    destruct (Hkey k i Hk) as [Hi [b' Hb']]. by rewrite Ho, Hb' by done. }
  destruct (bfd_session_idx_by_bfd_key u !! k) as [i|] eqn:Hk.
  - intros [= <-]. destruct (table u !! k) eqn:Ht; [|by apply (table_dom u k Hu) in Ht; congruence].
    eexists. split; [reflexivity|]. unfold on_bfd. cbn [bfd with_bfd].
    destruct (put_session_step c m idx b Hok Hc Hb) as (Hok' & Hn' & Ho' & _).
    assert (∀ j, find (bfd_put_session idx m) j = find (bfd u) j) as Hf.
    { intros j. destruct (decide (j = idx)) as [->|Hj]; [by rewrite Hn', Hnone|by rewrite Ho', Ho]. }
    change (with_bfd (bfd_put_session idx m) (with_bfd m u)) with (with_bfd (bfd_put_session idx m) u).
    split; [apply (sys_ok_with c c); [done|split; [done|intros j; by rewrite Hf]]|].
    apply table_with. intros j. by rewrite Hf.
  - apply (table_dom u k Hu) in Hk as Ht. rewrite Ht. intros [= <-]. unfold on_bfd. cbn [bfd].
    destruct (set_params_step c m idx tx rx mult Hok) as [Hok2 Hss].
    assert (on_session (bfd_session_set_params tx rx mult) idx m = store idx (bfd_session_set_params tx rx mult (St m b))) as Hst
      by (unfold on_session; by rewrite Hb).
    pose proof (set_params_kept c m idx b tx rx mult Hok Hb) as Hkept.
    set (s := bfd_session_set_params tx rx mult (St m b)) in *. rewrite Hst in *.
    pose proof (λ j, find_store m idx b s j Hb (proj1 (proj2 (proj1 (proj2 (proj2 Hkept)))))) as Hf.
    assert (udp u !! idx = None) as Hun.
    { apply eq_None_not_Some. intros Hs. apply (uo_udp u Hu) in Hs. rewrite Hnone in Hs. by destruct Hs. }
    set (x := UdpSession k _). exists idx. eexists. exists x. split; [reflexivity|]. split; [split; [exact Hok2|]|].
    { split; cbn [bfd udp bfd_session_idx_by_bfd_key adj_locks with_bfd].
      - intros i. rewrite (Hss i). destruct (decide (i = idx)) as [->|Hi].
        + rewrite Hb, lookup_insert_eq. split; intros _; by eexists.
        + rewrite Ho, lookup_insert_ne by done. apply (uo_udp u Hu).
      - intros k' i. rewrite lookup_insert_Some. split.
        + intros [[<- <-]|[Hne (x' & Hx' & <-)%(uo_key u Hu)]].
          * exists x. by rewrite lookup_insert_eq.
          * exists x'. split; [|done]. rewrite lookup_insert_ne; [done|]. congruence.
        + intros (x' & [[<- <-]|[Hi Hx']]%lookup_insert_Some & <-); [by left|right].
          assert (bfd_session_idx_by_bfd_key u !! udp_key x' = Some i) as Hki by (apply (uo_key u Hu); by exists x').
          split; [|done]. intros Hke. cbn in Hke. congruence.
      - rewrite (uo_locks u Hu). unfold held. by rewrite (map_to_list_insert (udp u) idx x Hun). }
    cbn [udp with_bfd]. split; [by rewrite lookup_insert_eq|]. split; [done|]. split.
    + apply map_eq. intros k'. rewrite table_lookup. cbn [bfd bfd_session_idx_by_bfd_key with_bfd].
      destruct (decide (k' = k)) as [->|Hk'].
      * rewrite !lookup_insert_eq. cbn. rewrite Hf, decide_True by done. cbn [fmap option_fmap option_map]. f_equal. apply set_params_params.
      * rewrite !lookup_insert_ne, table_lookup by done. destruct (_ !! k') as [i|] eqn:Hi; [|done]. cbn.
        destruct (Hkey k' i Hi) as [Hne _]. by rewrite Hf, decide_False, Ho by done.
    + unfold conf_keys. cbn [bfd with_bfd]. f_equal. unfold store. cbn. unfold s, bfd_session_set_params. cbv zeta.
      destruct (_ || _); [|exact Hconf]. cbn. destruct (poll_state b); cbn; [by destruct (_ && _)|done|by destruct (_ || _)|done].
Qed.

(** A handler of one session that keeps its configuration and its keys. *)
Lemma steady_step c u idx f : sys_ok c u → (∀ s, frame' (f s) = frame' s) →
  sys_ok c (on_bfd (on_session f idx) u) ∧ table (on_bfd (on_session f idx) u) = table u.
Proof.
  intros [Hm Hu] Hf. unfold on_bfd. split; [apply (sys_ok_with c); [done|by apply steady_session]|]. apply table_with. intros j.
  unfold on_session. destruct (find (bfd u) idx) as [b|] eqn:Hb; [|done]. fold (store idx (f (St (bfd u) b))).
  rewrite (find_store (bfd u) idx b); [|done|exact (frame'_sessions _ _ (Hf (St (bfd u) b)))].
  case_decide as Hj; [|done]. subst j. rewrite Hb. cbn [fmap option_fmap option_map]. f_equal. apply (params_frame (St (bfd u) b)), Hf.
Qed.

Lemma ask_udp f idx u : udp (ask_session f idx u).2 = udp u.
Proof. unfold ask_session. destruct (find (bfd u) idx); [|done]. by destruct (f _). Qed.

Lemma activate_answer c u idx cf id d x : sys_ok c u → udp u !! idx = Some x →
  (ask_session (bfd_auth_activate cf id d) idx u).1 = if decide (cf ∈ conf_keys u) then API_OK else BFD_ENOENT.
Proof.
  intros Hok Hx. unfold ask_session. assert (is_Some (find (bfd u) idx)) as [b Hb] by (apply (uo_udp u (proj2 Hok)); by exists x).
  rewrite Hb. pose proof (conf_keys_step cf u c Hok) as Hk. unfold bfd_auth_activate. cbn [bm].
  destruct (find_key cf (bfd u)) as [[k e]|].
  - rewrite decide_True; [cbv zeta; by destruct d; case_bool_decide|]. destruct (decide (cf ∈ conf_keys u)) as [|Hn]; [done|].
    by apply Hk in Hn.
  - rewrite decide_False; [done|]. by apply Hk.
Qed.

Lemma add_step c n k tx rx mult auth u rv u' : sys_ok c u → c + 1 < 2 ^ 32 → pool_len (sessions (bfd u)) < 2 ^ 32 →
  bfd_udp_add_session n k tx rx mult auth u = Some (rv, u') →
  sys_ok (c + 1) u' ∧ spec_op n (conf_keys u) (Add_session k tx rx mult auth) (table u) = (rv, table u').
Proof.
  intros Hok Hc Hlen. unfold bfd_udp_add_session. cbn [spec_op].
  destruct (bfd_api_verify_common n k tx mult); try (intros [= <- <-]; split; [apply (sys_ok_weaken c); [lia|done]|done]).
  destruct (bfd_udp_add_session_internal n k tx rx mult u) as [res|] eqn:Hadd; [|done].
  pose proof (add_internal_step c n k tx rx mult u res Hok ltac:(lia) Hlen Hadd) as Hstep.
  destruct (table u !! k) eqn:Ht.
  { destruct Hstep as (u1 & -> & Hok1 & Ht1). intros [= <- <-]. split; [apply (sys_ok_weaken c); [lia|done]|by rewrite Ht1]. }
  destruct Hstep as (idx & u1 & x & -> & Hok1 & Hx & Hkx & Ht1 & Hkeys).
  assert (∀ c u, sys_ok c u → sys_ok c (on_bfd (on_session bfd_session_start idx) u) ∧
    table (on_bfd (on_session bfd_session_start idx) u) = table u) as Hstart
    by (intros; apply steady_step; [done|intros s; apply frame_frame', steady_session_start]).
  destruct auth as [[cf id]|].
  - destruct (activate_step c u1 cf id false idx Hc Hok1) as [Hok2 Ht2].
    pose proof (activate_answer c u1 idx cf id false x Hok1 Hx) as Hrv. rewrite Hkeys in Hrv.
    pose proof (ask_udp (bfd_auth_activate cf id false) idx u1) as Hudp.
    destruct (decide (cf ∈ conf_keys u)) as [Hin|Hin].
    + destruct (ask_session _ idx u1) as [rv2 u2]. cbn [fst snd] in *. subst rv2. intros [= <- <-].
      destruct (Hstart _ _ Hok2) as [Hok3 Ht3]. split; [done|]. by rewrite Ht3, Ht2, Ht1.
    + destruct (ask_session _ idx u1) as [rv2 u2]. cbn [fst snd] in *. subst rv2. intros [= <- <-].
      rewrite <-Hudp in Hx. destruct (del_step (c + 1) u2 k idx x Hc Hok2 Hx Hkx) as (Hok3 & Ht3 & _).
      split; [done|]. by rewrite Ht3, Ht2, Ht1, delete_insert_id.
  - intros [= <- <-]. destruct (Hstart _ _ Hok1) as [Hok3 Ht3]. split; [apply (sys_ok_weaken c); [lia|done]|]. by rewrite Ht3, Ht1.
Qed.

(** The session of a request, when the addresses are valid and known. *)
Lemma request_step n k f u (P : api_error * bfd_udp_main → Prop) : udp_ok u →
  (∀ rv, bfd_udp_validate_api_input n k = rv → rv ≠ API_OK → P (rv, u)) →
  (bfd_udp_validate_api_input n k = API_OK → table u !! k = None → P (BFD_ENOENT, u)) →
  (∀ idx x, bfd_udp_validate_api_input n k = API_OK → is_Some (table u !! k) → bfd_session_idx_by_bfd_key u !! k = Some idx →
     udp u !! idx = Some x → udp_key x = k → P (f idx u)) →
  P (on_request n k f u).
Proof.
  intros Hu Herr Hno Hyes. unfold on_request, bfd_udp_find_session_by_api_input.
  destruct (bfd_udp_validate_api_input n k) eqn:Hv; try (by apply Herr). rewrite lookup_session_spec by done.
  destruct (bfd_session_idx_by_bfd_key u !! k) as [idx|] eqn:Hk.
  - pose proof Hk as Hk'. apply (uo_key u Hu) in Hk' as (x & Hx & Hkx). apply (Hyes idx x); try done.
    apply not_eq_None_Some. intros Ht. apply (table_dom u k Hu) in Ht. congruence.
  - apply Hno; [done|]. by apply table_dom.
Qed.

Lemma with_session_step c n k f u r : sys_ok c u →
  (∀ idx x, is_Some (table u !! k) → bfd_session_idx_by_bfd_key u !! k = Some idx → udp u !! idx = Some x → udp_key x = k →
     sys_ok (c + 1) (f idx u).2 ∧ r = ((f idx u).1, table (f idx u).2)) →
  sys_ok (c + 1) (on_request n k f u).2 ∧ with_session n k (table u) r = ((on_request n k f u).1, table (on_request n k f u).2).
Proof.
  intros Hok Hf. assert (sys_ok (c + 1) u) as Hok1 by (apply (sys_ok_weaken c); [lia|done]). unfold with_session.
  apply (request_step n k f u (λ x, sys_ok (c + 1) x.2 ∧ _ = (x.1, table x.2))); [apply Hok|..].
  - intros rv -> Hrv. split; [done|]. by destruct rv.
  - intros -> ->. done.
  - intros idx x -> Hs Hk Hx Hkx. destruct (Hf idx x Hs Hk Hx Hkx) as [Hok2 ->]. split; [done|]. by destruct Hs as [? ->].
Qed.

Lemma answered {A B} (r : A * B) x y : Some r = Some (x, y) → x = r.1 ∧ y = r.2.
Proof. by intros [= ->]. Qed.

Lemma api_step c n op u rv u' : sys_ok c u → c + 1 < 2 ^ 32 → pool_len (sessions (bfd u)) < 2 ^ 32 →
  api_run n op u = Some (rv, u') → sys_ok (c + 1) u' ∧ spec_op n (conf_keys u) op (table u) = (rv, table u').
Proof.
  intros Hok Hc Hlen. destruct op as [k tx rx mult auth|k tx rx mult|k|k up now now'|k cf id d|k d]; cbn [api_run spec_op].
  - by apply add_step.
  - intros Hr. apply answered in Hr as [-> ->]. apply with_session_step; [done|].
    intros idx x _ Hk Hx Hkx. destruct (mod_step c u k tx rx mult idx Hok Hk) as [Hok1 Ht].
    split; [apply (sys_ok_weaken c); [lia|done]|]. rewrite Ht. unfold ask_session.
    assert (is_Some (find (bfd u) idx)) as [b ->] by (apply (uo_udp u (proj2 Hok)); by exists x). done.
  - intros Hr. apply answered in Hr as [-> ->]. apply with_session_step; [done|]. intros idx x _ Hk Hx Hkx. cbn [fst snd].
    destruct (del_step c u k idx x ltac:(lia) Hok Hx Hkx) as (Hok1 & -> & _).
    split; [apply (sys_ok_weaken c); [lia|done]|done].
  - intros Hr. apply answered in Hr as [-> ->]. apply with_session_step; [done|]. intros idx x _ Hk Hx Hkx.
    destruct (flags_step c u up now now' idx Hok) as [Hok1 ->]. split; [apply (sys_ok_weaken c); [lia|done]|].
    unfold ask_session. assert (is_Some (find (bfd u) idx)) as [b ->] by (apply (uo_udp u (proj2 Hok)); by exists x). done.
  - intros Hr. apply answered in Hr as [-> ->]. apply with_session_step; [done|]. intros idx x _ Hk Hx Hkx.
    destruct (activate_step c u cf id d idx Hc Hok) as [Hok1 ->]. split; [done|]. by rewrite (activate_answer c u idx cf id d x).
  - intros Hr. apply answered in Hr as [-> ->]. apply with_session_step; [done|]. intros idx x _ Hk Hx Hkx.
    destruct (deactivate_step c u d idx ltac:(lia) Hok) as [Hok1 ->]. split; [apply (sys_ok_weaken c); [lia|done]|].
    unfold ask_session. assert (is_Some (find (bfd u) idx)) as [b ->] by (apply (uo_udp u (proj2 Hok)); by exists x). done.
Qed.

(** ** The component as a transition system *)

(** A call with its answer, or a step of the component itself. *)
Inductive label := Call (n : stack) (op : api_op) (rv : api_error) | Internal.

(** The updates that wait for the main thread are in order. *)
Inductive udp_step : label → bfd_udp_main * list rpc → bfd_udp_main * list rpc → Prop :=
  | us_call n op rv u u' l : pool_len (sessions (bfd u)) < 2 ^ 32 → api_run n op u = Some (rv, u') →
      udp_step (Call n op rv) (u, l) (u', l)
  | us_set_key c t data u l : pool_len (auth_keys (bfd u)) < 2 ^ 32 →
      udp_step Internal (u, l) (on_bfd (λ m, (bfd_auth_set_key c t data m).2) u, l)
  | us_del_key c u l : udp_step Internal (u, l) (on_bfd (λ m, (bfd_auth_del_key c m).2) u, l)
  | us_scan is_ipv6 b beyond now now' r u u' l : bfd_udp_scan is_ipv6 b beyond now now' u = (r, u') →
      udp_step Internal (u, l) (u', l ++ option_list r)
  | us_update r now now' u l : udp_step Internal (u, r :: l) (bfd_rpc_update_session_cb r now now' u, l)
  | us_final idx now u l : udp_step Internal (u, l) (on_bfd (on_session (λ s, (bfd_init_final_control_frame now s).2) idx) u, l)
  | us_echo d e c now u l : udp_step Internal (u, l) (on_bfd (λ m, (bfd_consume_echo_pkt d e c now m).2) u, l)
  | us_turn i e now now' expired u l : udp_step Internal (u, l) (on_bfd (bfd_process_turn i e now now' expired) u, l).

(** The verification of a packet. *)
Lemma scan_step c is_ipv6 b beyond now now' u : sys_ok c u → c < 2 ^ 32 →
  let u' := (bfd_udp_scan is_ipv6 b beyond now now' u).2 in sys_ok c u' ∧ table u' = table u.
Proof.
  intros [Hm Hu] Hc. cbv zeta. unfold bfd_udp_scan. cbv zeta.
  destruct (sizeof_bfd_pkt >? _); [by split|]. destruct (negb (if is_ipv6 then _ else _)); [by split|].
  destruct (length _ >? _); [by split|]. destruct (negb (bfd_verify_pkt_common _)); [by split|].
  destruct (scan_lookup is_ipv6 b u) as [idx|]; [|by split]. destruct (find (bfd u) idx) as [x|] eqn:Hx; [|by split].
  pose proof (verify_keys c (others (bfd u) x) (payload b) (payload_auth b) (current_length b) now now' (St (bfd u) x)
    (bo_keys c _ Hm) Hc (bfd_ok_counted c _ idx x Hm Hx)) as Hk.
  pose proof (verify_config (payload b) (payload_auth b) (current_length b) now now' (St (bfd u) x)) as Hcf.
  destruct (bfd_verify_pkt_auth _ _ _ _ _ _) as [ok s]. cbn [snd] in *. fold (store idx s).
  assert (sys_ok c (with_bfd (store idx s) u) ∧ table (with_bfd (store idx s) u) = table u) as Hr.
  { split; [apply (sys_ok_with c); [by split|by apply (session_step c c (bfd u) idx x)]|]. apply table_with. intros j.
    rewrite (find_store (bfd u) idx x) by (done || apply Hk). case_decide as Hj; [|done]. subst j. rewrite Hx.
    cbn [fmap option_fmap option_map]. f_equal. unfold params. cbn in Hcf. by injection Hcf as _ _ -> _ -> _ -> _ _. }
  destruct (negb ok); [done|]. destruct (_ !! idx); [|done]. by case_match; case_match.
Qed.

(** A function on the main structure alone. *)
Lemma on_bfd_step c u f : sys_ok c u → (bfd_ok c (bfd u) → bfd_ok c (f (bfd u)) ∧ same_params (bfd u) (f (bfd u))) →
  sys_ok c (on_bfd f u) ∧ table (on_bfd f u) = table u.
Proof.
  intros [Hm Hu] Hf. destruct (Hf Hm) as [Hm' Hp]. unfold on_bfd.
  split; [apply (sys_ok_with c); [by split|split; [done|by apply same_params_sessions]]|by apply table_with].
Qed.

Lemma same_finds_params m m' : sessions m' = sessions m → same_params m m'.
Proof. intros Hs i. unfold bfd_find_session_by_idx. by rewrite Hs. Qed.

(** The process node, session by session. *)
Lemma steady_params c idx m f : bfd_ok c m → (∀ s, frame' (f s) = frame' s) →
  bfd_ok c (on_session f idx m) ∧ same_params m (on_session f idx m).
Proof.
  intros Hok Hf. split; [by apply steady_session|]. intros j. unfold on_session.
  destruct (find m idx) as [b|] eqn:Hb; [|done]. fold (store idx (f (St m b))).
  rewrite (find_store m idx b); [|done|exact (frame'_sessions _ _ (Hf (St m b)))].
  case_decide as Hj; [|done]. subst j. rewrite Hb. cbn [fmap option_fmap option_map]. f_equal. apply (params_frame (St m b)), Hf.
Qed.

Lemma turn_params c i e now now' expired m : bfd_ok c m →
  bfd_ok c (bfd_process_turn i e now now' expired m) ∧ same_params m (bfd_process_turn i e now now' expired m).
Proof.
  intros Hok. split; [by apply process_turn_step|]. unfold bfd_process_turn. cbv zeta.
  assert (bfd_ok c (process_event i e now m) ∧ same_params m (process_event i e now m)) as [Hok1 Hs1].
  { destruct e; cbn [process_event]; [done|done|apply steady_params|apply steady_params]; try done; intros s.
    - etrans; [apply frame_frame', (steady_set_timer now true)|]. apply steady_send_periodic.
    - apply frame_frame', steady_config_change. }
  set (m1 := process_event i e now m) in *. clearbody m1. set (m2 := set_wheel _ m1).
  assert (bfd_ok c m2 ∧ same_params m m2) as [Hok2 Hs2] by (split; [by apply (tables_step c m1)|exact Hs1]).
  clearbody m2. clear Hok1 Hs1 m1. revert m2 Hok2 Hs2. induction (map snd expired) as [|idx l IH]; intros m2 Hok2 Hs2; [done|].
  cbn [foldl]. unfold process_timeout at 2.
  destruct (steady_params c idx m2 (λ s, s |> bfd_on_timeout (i idx) now (now' idx) |> bfd_set_timer now true)) as [Hok3 Hs3]; [done| |].
  - intros s. etrans; [apply frame_frame', (steady_set_timer now true)|]. apply steady_on_timeout.
  - apply IH; [done|]. intros j. by rewrite (Hs3 j).
Qed.

(** A step of the component: the invariant, and the table. *)
Lemma udp_step_ok c lbl x y : udp_step lbl x y → sys_ok c x.1 → c + 1 < 2 ^ 32 →
  sys_ok (c + 1) y.1 ∧
  match lbl with
  | Call n op rv => spec_op n (conf_keys x.1) op (table x.1) = (rv, table y.1)
  | Internal => table y.1 = table x.1
  end.
Proof.
  intros Hstep Hok Hc. assert (∀ u, sys_ok c u ∧ table u = table x.1 → sys_ok (c + 1) u ∧ table u = table x.1) as Hw.
  { intros u [Hu Ht]. split; [apply (sys_ok_weaken c); [lia|done]|done]. }
  destruct Hstep; cbn [fst] in *; try apply Hw.
  - by apply (api_step c n op u rv u').
  - apply on_bfd_step; [done|]. intros Hm. destruct (set_key_step c (bfd u) c0 t data Hm H) as (? & _ & Hs).
    split; [done|by apply same_finds_params].
  - apply on_bfd_step; [done|]. intros Hm. destruct (del_key_step c (bfd u) c0 Hm) as (? & _ & Hs).
    split; [done|by apply same_finds_params].
  - pose proof (scan_step c is_ipv6 b beyond now now' u Hok ltac:(lia)) as Hs. by rewrite H in Hs.
  - apply on_bfd_step; [done|]. intros Hm. apply steady_params; [done|]. apply steady_consume.
  - apply on_bfd_step; [done|]. intros Hm. apply steady_params; [done|]. apply steady_final.
  - apply on_bfd_step; [done|]. intros Hm. unfold bfd_consume_echo_pkt. destruct (_ !! _) as [idx|]; [|done]. cbn [snd].
    apply steady_params; [done|]. intros s. destruct (negb _); [done|]. by destruct (negb _).
  - apply on_bfd_step; [done|]. intros Hm. by apply turn_params.
Qed.

(** The states reached in a number of steps from no sessions. *)
Inductive reaches (inacc slow echo_rx seed : Z) : Z → bfd_udp_main * list rpc → Prop :=
  | reaches_start : reaches inacc slow echo_rx seed 0 (UdpMain (no_sessions inacc slow echo_rx seed) ∅ ∅ ∅, [])
  | reaches_step c lbl x y : reaches inacc slow echo_rx seed c x → udp_step lbl x y →
      reaches inacc slow echo_rx seed (c + 1) y.

Lemma start_ok inacc slow echo_rx seed : sys_ok 0 (UdpMain (no_sessions inacc slow echo_rx seed) ∅ ∅ ∅).
Proof.
  assert (∀ i, find (no_sessions inacc slow echo_rx seed) i = None) as Hn.
  { intros i. apply elt_None; [apply pool_null_ok|]. unfold pool_len, zlen. cbn. lia. }
  assert (∀ k, ¬ live (no_sessions inacc slow echo_rx seed) k) as Hl.
  { intros k. unfold live. rewrite elt_None; [by intros [??]|apply pool_null_ok|]. unfold pool_len, zlen. cbn. lia. }
  assert (∀ k, use_count (key_at (no_sessions inacc slow echo_rx seed) k) = 0) as Hk
    by (intros k; unfold key_at, velt, vget; cbn; destruct (0 <=? k); [by destruct (Z.to_nat k)|done]).
  assert (∀ k, refs (no_sessions inacc slow echo_rx seed) k = 0) as Hr.
  { intros k. unfold refs. rewrite (sumf_ext _ (λ _, 0)); [by induction max_sessions; cbn; [|lia]|].
    intros i _. unfold session_uses. by rewrite Hn. }
  split; split.
  - apply pool_null_ok.
  - split; [apply pool_null_ok|done|intros k Hlv; by apply Hl in Hlv|intros k _; apply Hk].
  - intros k. rewrite Hr, Hk. lia.
  - intros i b. by rewrite Hn.
  - intros d i. cbn. split; [done|]. intros (b & Hb & _). by rewrite Hn in Hb.
  - intros i. cbn. rewrite Hn. split; by intros [??].
  - intros k i. cbn. split; [done|]. by intros (x & Hx & _).
  - done.
Qed.

Lemma reaches_ok inacc slow echo_rx seed c x : reaches inacc slow echo_rx seed c x → c < 2 ^ 32 → 0 ≤ c ∧ sys_ok c x.1.
Proof.
  induction 1 as [|c lbl x y Hr IH Hs]; intros Hc; [split; [done|apply start_ok]|].
  destruct IH as [H0 Hok]; [lia|]. split; [lia|]. by apply (udp_step_ok c lbl x).
Qed.

End bfd.

(** ** Received packets *)

Section reception.
Context {Env : BfdEnv}.

(** Why a packet was accepted for a session: neither has authentication, or authentication is to be
    turned off, or its hash is that of the current or of the scheduled key. *)
Definition authenticated (m : bfd_main) (x : bfd_auth) (pkt : bfd_pkt) (a : bfd_auth_sha1) : Prop :=
  bfd_pkt_get_auth_present pkt = 0 ∧ (curr_key x = None ∨ is_delayed x = true ∧ next_key x = None) ∨
  ∃ k, (curr_key x = Some k ∨ is_delayed x = true ∧ next_key x = Some k) ∧
    bfd_pkt_get_auth_present pkt ≠ 0 ∧ frame_sha1 pkt a (key (key_at m k)) = sha1_hash a.

Lemma verify_key_true pkt a sz id k now s :
  (bfd_verify_pkt_auth_key pkt a sz id k now s).1 = true → frame_sha1 pkt a (key k) = sha1_hash a.
Proof.
  unfold bfd_verify_pkt_auth_key. destruct (is_sha1_type _); [|done].
  destruct (bfd_verify_pkt_auth_seq_num _ _ _ _) as [ok s1]. cbn [fst]. intros [_ Hv]%andb_prop. revert Hv.
  unfold bfd_verify_pkt_auth_key_sha1. repeat (case_match; [done|]). by intros Hv%bool_decide_eq_true.
Qed.

Lemma verify_next_true pkt a sz now s : (verify_next pkt a sz now s).1 = true →
  ∃ k, is_delayed (auth (bs s)) = true ∧ next_key (auth (bs s)) = Some k ∧
    frame_sha1 pkt a (key (key_at (bm s) k)) = sha1_hash a.
Proof.
  unfold verify_next. destruct (is_delayed (auth (bs s))), (next_key (auth (bs s))) as [k|]; try done.
  pose proof (verify_key_true pkt a sz (next_bfd_key_id (auth (bs s))) (key_at (bm s) k) now s) as Hv.
  destruct (bfd_verify_pkt_auth_key _ _ _ _ _ _ _) as [ok s1]. cbn [fst] in Hv. destruct ok; [|done]. intros _. exists k. auto.
Qed.

Lemma verify_true pkt a sz now now' s : (bfd_verify_pkt_auth pkt a sz now now' s).1 = true →
  authenticated (bm s) (auth (bs s)) pkt a.
Proof.
  unfold bfd_verify_pkt_auth, authenticated. cbv zeta. destruct (bfd_pkt_get_auth_present pkt =? 0) eqn:Hp; bool_to_prop; cbn [negb].
  - destruct (_ >? _); [done|]. destruct (curr_key (auth (bs s))) as [k|]; [|intros _; left; split; [done|by left]].
    destruct (is_delayed (auth (bs s))); [|done]. destruct (next_key (auth (bs s))); [done|]. intros _. left. split; [done|by right].
  - destruct (curr_key (auth (bs s))) as [k|] eqn:Hc.
    + pose proof (verify_key_true pkt a sz (curr_bfd_key_id (auth (bs s))) (key_at (bm s) k) now s) as Hv.
      pose proof (verify_key_frame pkt a sz (curr_bfd_key_id (auth (bs s))) (key_at (bm s) k) now s) as Hf.
      destruct (bfd_verify_pkt_auth_key _ _ _ _ _ _ _) as [ok s1]. cbn [fst snd] in Hv, Hf. destruct ok.
      * intros _. right. exists k. split; [by left|auto].
      * intros (k' & Hd & Hn & Hh)%verify_next_true. right. exists k'.
        apply frame'_parts in Hf as (_ & Hk & Ht). injection Hk as _ Hn' _ _ Hd'. rewrite <-Hd', <-Hn'.
        split; [by right|]. split; [done|]. rewrite <-Hh. unfold key_at. by injection Ht as _ _ _ _ _ -> _.
    + intros (k' & Hd & Hn & Hh)%verify_next_true. right. exists k'. split; [by right|done].
Qed.

(** The steps of a scan that ends in an update. *)
Lemma scan_update is_ipv6 b beyond now now' u r u' : bfd_udp_scan is_ipv6 b beyond now now' u = (Some r, u') →
  ∃ s e, scan_lookup is_ipv6 b u = Some (rpc_bs_idx r) ∧ find (bfd u) (rpc_bs_idx r) = Some s ∧ udp u !! rpc_bs_idx r = Some e ∧
    bfd_verify_pkt_common (payload b) = true ∧ authenticated (bfd u) (auth s) (payload b) (payload_auth b) ∧
    (if is_ipv6 then bfd_udp6_verify_transport b (udp_key e) else bfd_udp4_verify_transport b (udp_key e)) = true ∧
    rpc_pkt r = payload b.
Proof.
  unfold bfd_udp_scan. cbv zeta. destruct (_ >? current_length b); [done|]. destruct (negb (if is_ipv6 then _ else _)); [done|].
  destruct (length _ >? _); [done|]. destruct (bfd_verify_pkt_common (payload b)); [|done]. cbn [negb].
  destruct (scan_lookup is_ipv6 b u) as [idx|]; [|done]. destruct (find (bfd u) idx) as [s|] eqn:Hs; [|done].
  pose proof (verify_true (payload b) (payload_auth b) (current_length b) now now' (St (bfd u) s)) as Hv.
  destruct (bfd_verify_pkt_auth _ _ _ _ _ _) as [ok s1]. cbn [fst bm bs] in Hv. destruct ok; [|done]. cbn [negb udp with_bfd].
  destruct (udp u !! idx) as [e|] eqn:He; [|done]. destruct (if is_ipv6 then _ else _) eqn:Ht; [|done].
  intros [= <- _]. exists s, e. split_and!; try done. by apply Hv.
Qed.

End reception.

Section theorems.
Context {Env : BfdEnv}.
Context (inacc slow echo_rx seed : Z).

(** C5: The calls of the API implement a table of sessions by addresses: in every state that fewer than 2^32 calls, packets, updates, echo
    packets, key changes and turns of the process node reach, each call answers, with the error code of every
    case, and changes the table as the specification does, and nothing else that happens changes the
    table. *)
Theorem bfd_udp_refines_table (c : Z) (lbl : label) (x y : bfd_udp_main * list rpc)
    (Hreach : reaches inacc slow echo_rx seed c x) (Hc : c + 1 < 2 ^ 32) (Hstep : udp_step lbl x y) :
  match lbl with
  | Call n op rv => spec_op n (conf_keys x.1) op (table x.1) = (rv, table y.1)
  | Internal => table y.1 = table x.1
  end.
Proof.
  destruct (reaches_ok _ _ _ _ c x Hreach) as [_ Hok]; [lia|]. by apply (udp_step_ok c lbl x y Hstep Hok).
Qed.

(** C6: The tables of the sessions agree: in every reachable state, a discriminator finds exactly the session that has it, and the
    interface with the two addresses exactly the session that was added with them, so that both name a session
    uniquely; and the component holds one lock of an adjacency for each session. *)
Theorem bfd_tables_agree (c : Z) (x : bfd_udp_main * list rpc)
    (Hreach : reaches inacc slow echo_rx seed c x) (Hc : c < 2 ^ 32) :
  let u := x.1 in
  (∀ d i, session_by_disc (bfd u) !! d = Some i ↔ ∃ b, find (bfd u) i = Some b ∧ local_discr b = d) ∧
  (∀ k i, bfd_session_idx_by_bfd_key u !! k = Some i ↔
     ∃ b s, find (bfd u) i = Some b ∧ udp u !! i = Some s ∧ udp_key s = k) ∧
  adj_locks u = held (udp u).
Proof.
  destruct (reaches_ok _ _ _ _ c x Hreach Hc) as [_ [Hm Hu]]. split; [apply (bo_disc c _ Hm)|]. split; [|apply (uo_locks _ Hu)].
  intros k i. rewrite (uo_key _ Hu). split; [|by intros (b & s & _ & ?); exists s].
  intros (s & Hs & Hk). assert (is_Some (find (bfd x.1) i)) as [b Hb] by (apply (uo_udp _ Hu); by exists s). by exists b, s.
Qed.

(** C7: A key in use is protected: in every reachable state, a key that a session uses or is about to switch to is
    allocated, and neither a change nor the deletion of it goes through. *)
Theorem bfd_used_key_protected (c : Z) (x : bfd_udp_main * list rpc) (idx k : Z) (b : bfd_session)
    (Hreach : reaches inacc slow echo_rx seed c x) (Hc : c < 2 ^ 32)
    (Hb : find (bfd x.1) idx = Some b) (Hk : curr_key (auth b) = Some k ∨ next_key (auth b) = Some k) :
  ∃ e, pool_elt_at_index (auth_keys (bfd x.1)) k = Some e ∧
    (∀ t data, (bfd_auth_set_key (conf_key_id e) t data (bfd x.1)).2 = bfd x.1) ∧
    bfd_auth_del_key (conf_key_id e) (bfd x.1) = (BFD_EINUSE, bfd x.1).
Proof.
  destruct (reaches_ok _ _ _ _ c x Hreach Hc) as [_ [Hm _]].
  assert (1 ≤ uses (auth b) k) as Hu.
  { unfold uses. pose proof (is_key_range (curr_key (auth b)) k). pose proof (is_key_range (next_key (auth b)) k).
    destruct Hk as [Hk|Hk]; rewrite Hk, is_key_Some, decide_True in * by done; lia. }
  pose proof (refs_ge (bfd x.1) k idx b (bo_pool c _ Hm) Hb) as Hr. destruct (bo_count c _ Hm k) as [Hcnt Hl].
  assert (live (bfd x.1) k) as Hlive by (apply Hl; lia). pose proof (bo_keys c _ Hm) as Hkt.
  exists (key_at (bfd x.1) k). split; [by apply key_at_live; [apply Hkt|]|].
  assert (find_key (conf_key_id (key_at (bfd x.1) k)) (bfd x.1) = Some (k, key_at (bfd x.1) k)) as Hf.
  { unfold find_key. rewrite (kt_live _ Hkt k Hlive). cbn. by rewrite (key_at_live _ k) by (done || apply Hkt). }
  assert (use_count (key_at (bfd x.1) k) >? 0 = true) as Hpos by lia.
  split; [|unfold bfd_auth_del_key; by rewrite Hf, Hpos]. intros t data. unfold bfd_auth_set_key. cbv zeta.
  destruct (_ || _); [done|]. destruct (negb _); [done|]. by rewrite Hf, Hpos.
Qed.


(** The source of an IPv6 packet is not checked: the two halves of an address are compared with a conjunction of the differences, so
    that a packet from any source whose lower half is that of the peer is handed on, here to a session without authentication
    that the packet names by its discriminator. *)
Theorem bfd_udp6_source_spoofed (u : bfd_udp_main) (b : buffer) (beyond : bfd_auth_sha1) (now now' idx : Z) (s : bfd_session)
    (e : bfd_udp_session) (Hdisc : session_by_disc (bfd u) !! your_disc (payload b) = Some idx)
    (Hs : find (bfd u) idx = Some s) (He : udp u !! idx = Some e) (Hauth : curr_key (auth s) = None)
    (Hyour : your_disc (payload b) ≠ 0) (Hcom : bfd_verify_pkt_common (payload b) = true)
    (Hpresent : bfd_pkt_get_auth_present (payload b) = 0) (Hlen : current_length b = sizeof_bfd_pkt)
    (Hplen : length (payload b) ≤ u32 (udp_length b - 8)) (Hhdr : bfd_udp6_find_headers b = true)
    (Hlow : as_u64_1 (ip_src b) = as_u64_1 (peer_addr (udp_key e))) (Hdst : ip_dst b = local_addr (udp_key e))
    (Httl : ip_ttl b = 255) :
  (bfd_udp_scan true b beyond now now' u).1 = Some (bfd_rpc_update_session idx (payload b) (payload_auth b) beyond).
Proof.
  unfold bfd_udp_scan. cbv zeta. rewrite Hlen, Hhdr, Hcom. change (sizeof_bfd_pkt >? sizeof_bfd_pkt) with false. cbn [negb].
  assert (length (payload b) >? u32 (udp_length b - 8) = false) as -> by lia.
  unfold scan_lookup. rewrite (proj2 (Z.eqb_neq _ _) Hyour), Hdisc. cbn [negb mbind option_bind]. rewrite Hs. cbn [mbind option_bind]. rewrite Hs.
  unfold bfd_verify_pkt_auth. rewrite Hpresent. cbn [bs]. rewrite Hauth. cbn. rewrite He.
  unfold bfd_udp6_verify_transport. rewrite Hlow, Hdst, Httl, !Z.eqb_refl. cbn. by rewrite andb_false_r.
Qed.

(** A use of a key is lost: a second key that is scheduled for a session replaces the first one without giving its use back.  The
    session then refers to the first key no more, and its count is as it was. *)
Theorem bfd_scheduled_key_leaks (s : st) (k1 k2 conf id : Z) (e : bfd_auth_key) (Hne : k1 ≠ k2)
    (Hnext : next_key (auth (bs s)) = Some k1) (Hk : find_key conf (bm s) = Some (k2, e)) (Hcurr : curr_key (auth (bs s)) ≠ Some k1) :
  let s' := (bfd_auth_activate conf id true s).2 in
  uses (auth (bs s)) k1 = 1 ∧ uses (auth (bs s')) k1 = 0 ∧ use_count (key_at (bm s') k1) = use_count (key_at (bm s) k1).
Proof.
  cbv zeta. unfold bfd_auth_activate. rewrite Hk. cbv zeta. rewrite Hnext, bool_decide_false by congruence. cbn [snd bm bs updm upd].
  assert (is_key (curr_key (auth (bs s))) k1 = 0) as Hc by (unfold is_key; by rewrite decide_False).
  unfold uses. cbn. rewrite Hnext, Hc, !is_key_Some, decide_True, decide_False by done. split; [done|]. split; [done|].
  unfold set_use_count, key_at. cbn. rewrite velt_vset_ne by done. done.
Qed.

End theorems.
(** ** Examples *)

Definition toy_stack : stack :=
  Stack (λ i, if i =? 1 then Some (Iface [1] [Ip46 1 1]) else None) (λ _, 7).
Definition toy_addrs : bfd_udp_key := UdpKey 1 (ip46_of_ip4 1) (ip46_of_ip4 2).
Definition toy_addrs6 : bfd_udp_key := UdpKey 1 (Ip46 1 1) (Ip46 2 2).

Definition toy_start : bfd_udp_main := UdpMain (no_sessions 100 1000000 1000000 7) ∅ ∅ ∅.
Definition toy_call (op : api_op) (u : bfd_udp_main) : bfd_udp_main :=
  match @api_run toy_env toy_stack op u with Some (_, u) => u | None => u end.

(** A key, and a session that uses it; a session without authentication over IPv4, and one over IPv6. *)
Definition toy_keyed : bfd_udp_main := on_bfd (λ m, (bfd_auth_set_key 5 BFD_AUTH_TYPE_keyed_sha1 [1; 2; 3] m).2) toy_start.
Definition toy_added : bfd_udp_main := toy_call (Add_session toy_addrs 1000 1000 3 (Some (5, 9))) toy_keyed.
Definition toy_plain : bfd_udp_main := toy_call (Add_session toy_addrs 1000 1000 3 None) toy_start.
Definition toy_plain6 : bfd_udp_main := toy_call (Add_session toy_addrs6 1000 1000 3 None) toy_start.

Abbreviation toy_reaches := (@reaches toy_env 100 1000000 1000000 7).

Lemma toy_added_reached : toy_reaches 2 (toy_added, []).
Proof.
  apply (reaches_step _ _ _ _ 1 (Call toy_stack (Add_session toy_addrs 1000 1000 3 (Some (5, 9))) API_OK) (toy_keyed, [])).
  - apply (reaches_step _ _ _ _ 0 Internal (toy_start, [])); [apply reaches_start|]. by apply us_set_key.
  - apply us_call; by vm_compute.
Qed.

Lemma toy_plain_reached : toy_reaches 1 (toy_plain, []).
Proof.
  apply (reaches_step _ _ _ _ 0 (Call toy_stack (Add_session toy_addrs 1000 1000 3 None) API_OK) (toy_start, [])); [apply reaches_start|].
  apply us_call; by vm_compute.
Qed.

Lemma bfd_udp_refines_table_witness :
  spec_op toy_stack (conf_keys toy_added) (Mod_session toy_addrs 2000 1000 3) (table toy_added) =
    (API_OK, table (toy_call (Mod_session toy_addrs 2000 1000 3) toy_added)).
Proof.
  apply (@bfd_udp_refines_table toy_env 100 1000000 1000000 7 2 (Call toy_stack (Mod_session toy_addrs 2000 1000 3) API_OK)
    (toy_added, []) (toy_call (Mod_session toy_addrs 2000 1000 3) toy_added, [])).
  - exact toy_added_reached.
  - done.
  - apply us_call; by vm_compute.
Defined.

Lemma bfd_tables_agree_witness : bfd_session_idx_by_bfd_key toy_added !! toy_addrs = Some 0 ∧ adj_locks toy_added = held (udp toy_added).
Proof.
  destruct (@bfd_tables_agree toy_env 100 1000000 1000000 7 2 (toy_added, []) toy_added_reached) as (_ & Hkey & Hlocks); [done|].
  split; [by vm_compute|exact Hlocks].
Defined.

Lemma bfd_used_key_protected_witness : bfd_auth_del_key 5 (bfd toy_added) = (BFD_EINUSE, bfd toy_added).
Proof.
  destruct (@bfd_used_key_protected toy_env 100 1000000 1000000 7 2 (toy_added, []) 0 0
    (default (zero_session 0 BFD_TRANSPORT_UDP4) (find (bfd toy_added) 0)) toy_added_reached) as (e & He & _ & Hdel).
  - done.
  - by vm_compute.
  - left. by vm_compute.
  - vm_compute in He. injection He as <-. exact Hdel.
Defined.

(** Two more keys are scheduled for the session, one after the other. *)
Definition toy_more : bfd_udp_main :=
  on_bfd (λ m, (bfd_auth_set_key 8 BFD_AUTH_TYPE_keyed_sha1 [8] m).2)
    (toy_call (Auth_activate toy_addrs 6 1 true) (on_bfd (λ m, (bfd_auth_set_key 6 BFD_AUTH_TYPE_keyed_sha1 [6] m).2) toy_added)).
Definition toy_scheduled : st := Eval vm_compute in St (bfd toy_more) (default (zero_session 0 BFD_TRANSPORT_UDP4) (find (bfd toy_more) 0)).

Lemma bfd_scheduled_key_leaks_witness :
  let s' := (bfd_auth_activate 8 1 true toy_scheduled).2 in
  uses (auth (bs s')) 1 = 0 ∧ use_count (key_at (bm s') 1) = 1.
Proof.
  destruct (bfd_scheduled_key_leaks toy_scheduled 1 2 8 1 (AuthKey 8 0 (key_buffer [8]) BFD_AUTH_TYPE_keyed_sha1)) as (_ & Hu & Hc).
  - done.
  - by vm_compute.
  - by vm_compute.
  - by vm_compute.
  - split; [exact Hu|]. etrans; [exact Hc|]. by vm_compute.
Defined.

Definition toy_packet : buffer :=
  Buffer 24 0 28 1 (ip46_of_ip4 2) (ip46_of_ip4 1) 255 17 32 (Pkt 32 64 3 24 2 0 0 0 0) no_auth.


Definition toy_discr : Z := local_discr (default (zero_session 0 BFD_TRANSPORT_UDP6) (find (bfd toy_plain6) 0)).

(** A packet whose source differs from the peer in its upper half. *)
Definition toy_spoofed : buffer :=
  Buffer 24 0 48 1 (Ip46 12345 2) (Ip46 1 1) 255 17 32 (Pkt 32 64 3 24 2 toy_discr 0 0 0) no_auth.

Lemma bfd_udp6_source_spoofed_witness :
  ∃ r, (@bfd_udp_scan toy_env true toy_spoofed no_auth 10 10 toy_plain6).1 = Some r ∧ rpc_bs_idx r = 0 ∧
    as_u64_0 (ip_src toy_spoofed) ≠ as_u64_0 (peer_addr toy_addrs6).
Proof.
  eexists. split; [|split; [|done]].
  - apply (@bfd_udp6_source_spoofed toy_env toy_plain6 toy_spoofed no_auth 10 10 0
      (default (zero_session 0 BFD_TRANSPORT_UDP6) (find (bfd toy_plain6) 0)) (UdpSession toy_addrs6 7)); by vm_compute.
  - done.
Defined.

End BfdApi.
