(* ===== verification/Ptclosure.v ===== *)
(** * The transitive closure of vppinfra/ptclosure.c

    A relation on [0 .. n-1] is a square matrix of bytes, as rows.  [clib_ptclosure] is Warshall's
    algorithm with two matrices; it is proved to compute the transitive closure. *)

From S2P Require Import Prelude.
Open Scope Z_scope.

Module Ptclosure.

(** ** The code *)

Definition matrix : Type := list (list Z).

(** [m[i][j]] and [m[i][j] = x]. *)
Definition cell (m : matrix) (i j : Z) : Z := velt 0 (velt [] m i) j.
Definition set_cell (m : matrix) (i j x : Z) : matrix := vset m i (vset (velt [] m i) j x).

(** [None] is the failed assertion that the relation has an element. *)
Definition clib_ptclosure_alloc (n : Z) : option matrix :=
  if 0 <? n then Some (replicate (Z.to_nat n) (replicate (Z.to_nat n) 0)) else None.

(** The rows have [n] bytes copied, where [n] is the number of rows of the destination. *)
Definition clib_ptclosure_copy (dst src : matrix) : matrix :=
  let n := zlen dst in
  foldl (λ d i, vset d i (take (Z.to_nat n) (velt [] src i) ++ drop (Z.to_nat n) (velt [] d i))) dst (zrange 0 n).

(** One element of a row, one row, and one intermediate element [k] of the three nested loops. *)
Definition closure_cell (prev : matrix) (k i j : Z) : Z :=
  if negb (cell prev i j =? 0) || (negb (cell prev i k =? 0) && negb (cell prev k j =? 0)) then 1 else 0.
Definition closure_row (n : Z) (prev : matrix) (k : Z) (cur : matrix) (i : Z) : matrix :=
  foldl (λ cur j, set_cell cur i j (closure_cell prev k i j)) cur (zrange 0 n).
Definition closure_round (n : Z) (pc : matrix * matrix) (k : Z) : matrix * matrix :=
  let '(prev, cur) := pc in
  let cur := foldl (closure_row n prev k) cur (zrange 0 n) in
  (clib_ptclosure_copy prev cur, cur).

Definition clib_ptclosure (orig : matrix) : option matrix :=
  let n := zlen orig in
  prev ← clib_ptclosure_alloc n;
  cur ← clib_ptclosure_alloc n;
  Some (foldl (closure_round n) (clib_ptclosure_copy prev orig, cur) (zrange 0 n)).2.

(** ** Matrices *)

Definition square (n : Z) (m : matrix) : Prop := zlen m = n ∧ ∀ i, 0 ≤ i < n → zlen (velt [] m i) = n.

(** The relation that a matrix stands for. *)
Definition related (n : Z) (m : matrix) (i j : Z) : Prop := 0 ≤ i < n ∧ 0 ≤ j < n ∧ cell m i j ≠ 0.

Section matrices.
Context (n : Z).

Lemma square_set_cell m i j x : square n m → square n (set_cell m i j x).
Proof.
  intros [Hl Hr]. split; [by unfold set_cell; rewrite zlen_vset|].
  intros i' Hi'. unfold set_cell. destruct (decide (i' = i)) as [->|Hne].
  - rewrite velt_vset_eq by lia. rewrite zlen_vset. by apply Hr.
  - rewrite velt_vset_ne by done. by apply Hr.
Qed.

Lemma cell_set_cell m i j x i' j' :
  square n m → 0 ≤ i < n → 0 ≤ j < n →
  cell (set_cell m i j x) i' j' = if (i' =? i) && (j' =? j) then x else cell m i' j'.
Proof.
  intros [Hl Hr] Hi Hj. unfold cell, set_cell. destruct (Z.eqb_spec i' i) as [->|Hne]; cbn [andb].
  - rewrite velt_vset_eq by lia. destruct (Z.eqb_spec j' j) as [->|Hne].
    + apply velt_vset_eq. rewrite Hr; lia.
    + by apply velt_vset_ne.
  - by rewrite velt_vset_ne.
Qed.

(** A loop that sets the cells of one row. *)
Lemma row_loop (f : Z → Z) (i : Z) (l : list Z) (m : matrix) :
  square n m → 0 ≤ i < n → (∀ j, j ∈ l → 0 ≤ j < n) →
  let m' := foldl (λ m j, set_cell m i j (f j)) m l in
  square n m' ∧ ∀ i' j', cell m' i' j' = if (i' =? i) && bool_decide (j' ∈ l) then f j' else cell m i' j'.
Proof.
  intros Hsq Hi. revert m Hsq. induction l as [|j l IH]; intros m Hsq Hin; cbn.
  - split; [done|]. intros. rewrite bool_decide_false by apply not_elem_of_nil. by rewrite andb_false_r.
  - destruct (IH (set_cell m i j (f j))) as [Hs Hc].
    { by apply square_set_cell. } { intros. apply Hin. by right. }
    split; [done|]. intros i' j'. rewrite Hc, cell_set_cell by (try done; apply Hin; by left).
    destruct (Z.eqb_spec i' i) as [->|]; [|done]. cbn [andb]. rewrite (bool_decide_ext (j' ∈ j :: l) (j' = j ∨ j' ∈ l)) by apply list.elem_of_cons.
    destruct (decide (j' ∈ l)) as [Hl|Hl]; [by rewrite !bool_decide_true by auto|]. rewrite (bool_decide_false (j' ∈ l)) by done.
    destruct (Z.eqb_spec j' j) as [->|Hj]; [by rewrite bool_decide_true by (by left)|by rewrite bool_decide_false by tauto].
Qed.

(** A loop over the rows. *)
Lemma rows_loop (f : Z → Z → Z) (step : matrix → Z → matrix) (l : list Z) (m : matrix) :
  (∀ m i, square n m → 0 ≤ i < n → square n (step m i) ∧
     ∀ i' j', 0 ≤ j' < n → cell (step m i) i' j' = if i' =? i then f i j' else cell m i' j') →
  square n m → (∀ i, i ∈ l → 0 ≤ i < n) →
  let m' := foldl step m l in
  square n m' ∧ ∀ i' j', 0 ≤ j' < n → cell m' i' j' = if bool_decide (i' ∈ l) then f i' j' else cell m i' j'.
Proof.
  intros Hstep. revert m. induction l as [|i l IH]; intros m Hsq Hin; cbn.
  - split; [done|]. intros. by rewrite bool_decide_false by apply not_elem_of_nil.
  - destruct (Hstep m i Hsq) as [Hs Hc]; [apply Hin; by left|].
    destruct (IH (step m i) Hs) as [Hs' Hc']; [intros; apply Hin; by right|]. split; [done|].
    intros i' j' Hj'. rewrite Hc', Hc by done. rewrite (bool_decide_ext (i' ∈ i :: l) (i' = i ∨ i' ∈ l)) by apply list.elem_of_cons.
    destruct (decide (i' ∈ l)) as [Hl|Hl]; [by rewrite !bool_decide_true by auto|]. rewrite (bool_decide_false (i' ∈ l)) by done.
    destruct (Z.eqb_spec i' i) as [->|Hi]; [by rewrite bool_decide_true by (by left)|by rewrite bool_decide_false by tauto].
Qed.

Lemma alloc_ok : 0 < n → ∃ m, clib_ptclosure_alloc n = Some m ∧ square n m ∧ ∀ i j, cell m i j = 0.
Proof.
  intros Hn. unfold clib_ptclosure_alloc. case_cond; [|lia]. eexists. split; [done|].
  assert (∀ A (d x : A) i, velt d (replicate (Z.to_nat n) x) i = if (0 <=? i) && (i <? n) then x else d) as Hv.
  { intros A d x i. unfold velt, vget. case_cond; cbn [andb]; [|done]. destruct (Z.ltb_spec i n).
    - by rewrite lookup_replicate_2 by lia.
    - rewrite lookup_ge_None_2; [done|]. rewrite length_replicate. lia. }
  split; [split|].
  - rewrite zlen_replicate. lia.
  - intros i Hi. rewrite Hv. repeat case_cond; cbn [andb]; try lia. rewrite zlen_replicate. lia.
  - intros i j. unfold cell. rewrite Hv. destruct (_ && _).
    + rewrite Hv. by destruct (_ && _).
    + unfold velt, vget. by destruct (0 <=? j).
Qed.

Lemma copy_ok dst src :
  square n dst → square n src →
  let m := clib_ptclosure_copy dst src in
  square n m ∧ ∀ i j, 0 ≤ i < n → 0 ≤ j < n → cell m i j = cell src i j.
Proof.
  intros Hd Hs. unfold clib_ptclosure_copy. rewrite (proj1 Hd).
  destruct (rows_loop (cell src)
    (λ d i, vset d i (take (Z.to_nat n) (velt [] src i) ++ drop (Z.to_nat n) (velt [] d i))) (zrange 0 n) dst) as [Hsq Hc]; try done.
  - intros m i Hm Hi. rewrite take_ge, drop_ge, app_nil_r.
    2,3: (destruct Hm as [_ Hm], Hs as [_ Hs]; specialize (Hm i Hi); specialize (Hs i Hi); unfold zlen in *; lia).
    split.
    + split; [by rewrite zlen_vset; apply Hm|]. intros i' Hi'. destruct (decide (i' = i)) as [->|Hne].
      * rewrite velt_vset_eq by (destruct Hm; lia). by apply Hs.
      * rewrite velt_vset_ne by done. by apply Hm.
    + intros i' j' Hj'. unfold cell. destruct (Z.eqb_spec i' i) as [->|Hne].
      * by rewrite velt_vset_eq by (destruct Hm; lia).
      * by rewrite velt_vset_ne.
  - intros i Hi. by apply elem_of_zrange in Hi.
  - split; [done|]. intros i j Hi Hj. rewrite Hc by done. rewrite bool_decide_true; [done|]. by apply elem_of_zrange.
Qed.

(** ** Warshall's invariant *)

Context (R : Z → Z → Prop).

(** A path whose intermediate elements are below [k]. *)
Inductive path_below (k : Z) : Z → Z → Prop :=
  | pb_edge i j : R i j → path_below k i j
  | pb_join i m j : 0 ≤ m < k → path_below k i m → path_below k m j → path_below k i j.

Lemma path_below_succ k i j :
  0 ≤ k → path_below (k + 1) i j ↔ path_below k i j ∨ (path_below k i k ∧ path_below k k j).
Proof.
  intros Hk. assert (∀ a b, path_below k a b → path_below (k + 1) a b) as Hmono.
  { intros a b. induction 1 as [|a m b Hm]; [by apply pb_edge|]. apply pb_join with m; [lia|done..]. }
  split.
  - induction 1 as [i j Hij|i m j Hm _ IH1 _ IH2]; [left; by apply pb_edge|].
    destruct (decide (m = k)) as [->|Hne]; [right; tauto|].
    assert (0 ≤ m < k) by lia. destruct IH1 as [H1|[H1 H1']], IH2 as [H2|[H2 H2']].
    + left. by apply pb_join with m.
    + right. split; [by apply pb_join with m|done].
    + right. split; [done|by apply pb_join with m].
    + by right.
  - intros [H|[H1 H2]]; [by apply Hmono|]. apply pb_join with k; [lia|by apply Hmono..].
Qed.

Lemma path_below_tc i j : (∀ a b, R a b → 0 ≤ a < n ∧ 0 ≤ b < n) → path_below n i j ↔ tc R i j.
Proof.
  intros HR. split.
  - induction 1 as [i j Hij|i m j _ _ IH1 _ IH2]; [by apply tc_once|]. by etrans.
  - induction 1 as [i j Hij|i m j Hij _ IH]; [by apply pb_edge|].
    apply pb_join with m; [by destruct (HR _ _ Hij)|by apply pb_edge|done].
Qed.

Lemma round_ok k prev cur :
  0 ≤ k < n → square n prev → square n cur →
  let '(prev', cur') := closure_round n (prev, cur) k in
  square n prev' ∧ square n cur' ∧ ∀ i j, 0 ≤ i < n → 0 ≤ j < n →
    cell prev' i j = cell cur' i j ∧
    (cell cur' i j ≠ 0 ↔ cell prev i j ≠ 0 ∨ (cell prev i k ≠ 0 ∧ cell prev k j ≠ 0)).
Proof.
  intros Hk Hp Hc. unfold closure_round.
  destruct (rows_loop (closure_cell prev k) (closure_row n prev k) (zrange 0 n) cur) as [Hsq Hcell]; try done.
  - intros m i Hm Hi. unfold closure_row.
    destruct (row_loop (closure_cell prev k i) i (zrange 0 n) m) as [Hs Hr]; try done.
    { intros j Hj. by apply elem_of_zrange in Hj. }
    split; [done|]. intros i' j' Hj'. rewrite Hr, bool_decide_true by by apply elem_of_zrange. by rewrite andb_true_r.
  - intros i Hi. by apply elem_of_zrange in Hi.
  - destruct (copy_ok prev _ Hp Hsq) as [Hsq' Hcopy]. split; [done|]. split; [done|]. intros i j Hi Hj.
    split; [by apply Hcopy|]. rewrite Hcell, bool_decide_true by (try done; by apply elem_of_zrange).
    unfold closure_cell. destruct (Z.eqb_spec (cell prev i j) 0), (Z.eqb_spec (cell prev i k) 0), (Z.eqb_spec (cell prev k j) 0);
      cbn; split; intros; try tauto; lia.
Qed.

Lemma rounds_ok (k : nat) (prev cur : matrix) :
  (∀ i j, R i j ↔ related n prev i j) → (Z.of_nat k ≤ n) → square n prev → square n cur →
  let '(prev', cur') := foldl (closure_round n) (prev, cur) (zrange 0 (Z.of_nat k)) in
  square n prev' ∧ square n cur' ∧
  (∀ i j, 0 ≤ i < n → 0 ≤ j < n → (cell prev' i j ≠ 0 ↔ path_below (Z.of_nat k) i j)) ∧
  ((0 < k)%nat → ∀ i j, 0 ≤ i < n → 0 ≤ j < n → cell prev' i j = cell cur' i j).
Proof.
  intros HR Hk Hp Hc. induction k as [|k IH].
  - rewrite zrange_nil by lia. cbn. split_and!; [done..| |lia]. intros i j Hi Hj. split.
    + intros Hne. apply pb_edge, HR. by split_and!; try lia.
    + induction 1 as [i j Hij|]; [by apply HR in Hij as (_ & _ & ?)|lia].
  - replace (Z.of_nat (S k)) with (Z.of_nat k + 1) by lia. rewrite zrange_snoc, foldl_app by lia.
    specialize (IH ltac:(lia)). destruct (foldl _ _ _) as [prev' cur']. destruct IH as (Hp' & Hc' & Hpath & _).
    pose proof (round_ok (Z.of_nat k) prev' cur' ltac:(lia) Hp' Hc') as Hround. cbn [foldl].
    destruct (closure_round _ _ _) as [p2 c2]. destruct Hround as (Hp2 & Hc2 & Hcell). split_and!; try done.
    + intros i j Hi Hj. destruct (Hcell i j Hi Hj) as [-> ->]. rewrite !Hpath by (try done; lia).
      symmetry. apply path_below_succ. lia.
    + intros _ i j Hi Hj. by apply Hcell.
Qed.
End matrices.

Lemma clib_ptclosure_closure (n : Z) (orig : matrix) (Hn : 0 < n) (Hsq : square n orig) :
  ∃ m, clib_ptclosure orig = Some m ∧ square n m ∧ ∀ i j, related n m i j ↔ tc (related n orig) i j.
Proof.
  unfold clib_ptclosure. rewrite (proj1 Hsq). destruct (alloc_ok n Hn) as (z & -> & Hz & Hzero). cbn [mbind option_bind].
  destruct (copy_ok n z orig Hz Hsq) as [Hp Hcopy].
  assert (∀ i j, related n orig i j ↔ related n (clib_ptclosure_copy z orig) i j) as HR.
  { intros i j. unfold related. split; intros (Hi & Hj & Hne); (split_and!; [lia..|]).
    - by rewrite Hcopy.
    - by rewrite <- Hcopy. }
  pose proof (rounds_ok n (related n orig) (Z.to_nat n) _ z HR ltac:(lia) Hp Hz) as Hr.
  rewrite Z2Nat.id in Hr by lia. destruct (foldl _ _ _) as [p c]. destruct Hr as (_ & Hc & Hpath & Heq).
  exists c. split_and!; [done..|]. intros i j. rewrite <- (path_below_tc n) by (by intros a b (? & ? & _)). split.
  - intros (Hi & Hj & Hne). apply Hpath; [done..|]. by rewrite (Heq ltac:(lia) i j Hi Hj).
  - intros Hij. assert (0 ≤ i < n ∧ 0 ≤ j < n) as [Hi Hj].
    { clear -Hij. induction Hij as [i j (? & ? & _)|i m j _ _ [? _] _ [_ ?] ]; lia. }
    split_and!; [lia..|]. rewrite <- (Heq ltac:(lia) i j Hi Hj). by apply Hpath.
Qed.

(** C23: Warshall's algorithm with its two matrices computes the transitive closure: of a relation on at least one
    element it returns a matrix, whose nonzero cells are exactly the pairs that a chain of one or
    more pairs of the relation connects. *)
Theorem clib_ptclosure_correct (n : Z) (orig : matrix) (Hn : 0 < n) (Hsq : square n orig) :
  ∃ m, clib_ptclosure orig = Some m ∧ square n m ∧ ∀ i j, related n m i j ↔ tc (related n orig) i j.
Proof. by apply clib_ptclosure_closure. Qed.

(** ** Examples *)

Lemma clib_ptclosure_correct_witness :
  ∃ m, clib_ptclosure [[0; 1; 0]; [0; 0; 1]; [0; 0; 0]] = Some m ∧ related 3 m 0 2 ∧ ¬ related 3 m 2 0.
Proof.
  destruct (clib_ptclosure_correct 3 [[0; 1; 0]; [0; 0; 1]; [0; 0; 0]]) as (m & Hm & _ & Hrel).
  - done.
  - split; [done|]. intros i Hi. assert (i = 0 ∨ i = 1 ∨ i = 2) as [-> | [-> | ->] ] by lia; done.
  - exists m. split; [done|]. split.
    + apply Hrel. apply tc_l with 1; [|apply tc_once]; (split_and!; [lia..|done]).
    + intros (_ & _ & Hne). vm_compute in Hm. injection Hm as <-. by apply Hne.
Defined.

End Ptclosure.
