(* ===== verification/FeatureOrder.v ===== *)
(** * The order of the features of an arc (vnet/feature/registration.c)

    The features of an arc are registered with the names of the features that they run before and after.
    [vnet_feature_arc_init] collects the constraints, closes them with Ptclosure and sorts the features.  The
    tables by name and by index are a map and the list of the registrations. *)

From Stdlib Require Import Ascii.
From stdpp Require Import gmap strings.
From S2P Require Import Prelude Ptclosure.
Open Scope Z_scope.

Module FeatureOrder.
Import Ptclosure.Ptclosure.

(** ** The code *)

Record vnet_feature_registration := Registration {
  node_name : string;
  runs_before : list string;
  runs_after : list string;
}.

Inductive arc_error :=
  | comma_split_failed
  | feature_node_not_found (name : string)
  | no_partial_order.

(** The two parts around the first comma. *)
Fixpoint comma_split (s : string) : option (string * string) :=
  match s with
  | EmptyString => None
  | String c s =>
      if bool_decide (c = ","%char) then Some (""%string, s)
      else ab ← comma_split s; Some (String c ab.1, ab.2)
  end.

Definition constraint_tuple (a b : string) : string := (a +:+ "," +:+ b)%string.

(** Pass 1 over the registrations. *)
Record pass1 := Pass1 {
  node_names : list string;
  index_by_name : gmap string Z;
  constraints : list string;
}.

Definition collect (p : pass1) (r : vnet_feature_registration) : pass1 :=
  Pass1 (node_names p ++ [node_name r]) (<[node_name r := zlen (node_names p)]> (index_by_name p))
    (constraints p ++ map (constraint_tuple (node_name r)) (runs_before r)
                   ++ map (λ a, constraint_tuple a (node_name r)) (runs_after r)).

Definition add_constraint (index : gmap string Z) (orig : matrix) (c : string) : arc_error + matrix :=
  match comma_split c with
  | None => inl comma_split_failed
  | Some (a_name, b_name) =>
      match index !! a_name with
      | None => inl (feature_node_not_found a_name)
      | Some a_index =>
          match index !! b_name with
          | None => inl (feature_node_not_found b_name)
          | Some b_index => inr (set_cell orig a_index b_index 1)
          end
      end
  end.

Fixpoint add_constraints (index : gmap string Z) (orig : matrix) (cs : list string) : arc_error + matrix :=
  match cs with
  | [] => inr orig
  | c :: cs => match add_constraint index orig c with inl e => inl e | inr orig => add_constraints index orig cs end
  end.

(** Whether an item is constrained, and the first that is not. *)
Definition item_constrained (n : Z) (closure : matrix) (i : Z) : bool :=
  existsb (λ j, negb (cell closure i j =? 0)) (zrange 0 n).
Definition first_item (n : Z) (closure : matrix) : option Z :=
  List.find (λ i, negb (item_constrained n closure i)) (zrange 0 n).

(** The constraints to an item that is output are dropped, and one that holds it back for ever is added. *)
Definition output_item (n : Z) (closure : matrix) (i : Z) : matrix :=
  set_cell (foldl (λ closure k, set_cell closure k i 0) closure (zrange 0 n)) i i 1.

(** The loop at the label [again]; [None] if it did not end with the fuel. *)
Fixpoint order_loop (fuel : nat) (n : Z) (closure : matrix) (result : list Z) : option (list Z) :=
  match first_item n closure with
  | None => Some result
  | Some i =>
      match fuel with
      | O => None
      | S fuel => order_loop fuel n (output_item n closure i) (result ++ [i])
      end
  end.

(** The index variables, and the names in their order. *)
Definition bind_index (regs : list vnet_feature_registration) (result : list Z) (out : list Z * list string) (i : Z)
    : option (list Z * list string) :=
  r ← vget result i;
  this_reg ← vget regs r;
  Some (vset out.1 r (zlen regs - (i + 1)), out.2 ++ [node_name this_reg]).

Record feature_arc := FeatureArc {
  feature_index : list Z;
  feature_nodes : list string;
}.

(** Up to the set-up of the configuration (see Config). *)
Definition vnet_feature_arc_init (regs : list vnet_feature_registration) : option (arc_error + feature_arc) :=
  let p := foldl collect (Pass1 [] ∅ []) regs in
  let n_features := zlen (node_names p) in
  orig ← clib_ptclosure_alloc n_features;
  match add_constraints (index_by_name p) orig (constraints p) with
  | inl e => Some (inl e)
  | inr orig =>
      closure ← clib_ptclosure orig;
      result ← order_loop (Z.to_nat n_features) n_features closure [];
      if negb (zlen result =? n_features) then Some (inl no_partial_order)
      else out ← mfoldl (bind_index regs result) (replicate (Z.to_nat n_features) 0, []) (reverse (zrange 0 n_features));
           Some (inr (FeatureArc out.1 out.2))
  end.

(** ** What it promises *)

(** "[a] runs before [b]". *)
Definition before (regs : list vnet_feature_registration) (a b : string) : Prop :=
  ∃ r, r ∈ regs ∧ ((node_name r = a ∧ b ∈ runs_before r) ∨ (node_name r = b ∧ a ∈ runs_after r)).

Definition no_comma (s : string) : Prop := comma_split s = None.

(** The registrations of an arc: at least one, with names of their own, and no name has a comma. *)
Definition regs_ok (regs : list vnet_feature_registration) : Prop :=
  regs ≠ [] ∧ NoDup (node_name <$> regs) ∧ ∀ a b, before regs a b → no_comma a ∧ no_comma b.

Definition precedes {A} (l : list A) (a b : A) : Prop := ∃ i j, (i < j)%nat ∧ l !! i = Some a ∧ l !! j = Some b.

(** ** Strings *)

Lemma comma_split_tuple a b : no_comma a → comma_split (constraint_tuple a b) = Some (a, b).
Proof.
  unfold no_comma. induction a as [|c a IH]; [done|].
  change (constraint_tuple (String c a) b) with (String c (constraint_tuple a b)). cbn [comma_split].
  case_bool_decide; [done|]. destruct (comma_split a) eqn:Ha; [done|]. intros _. by rewrite IH.
Qed.

(** ** Pass 1 *)

Lemma collect_ok regs :
  let p := foldl collect (Pass1 [] ∅ []) regs in
  node_names p = node_name <$> regs ∧
  (∀ c, c ∈ constraints p ↔ ∃ a b, before regs a b ∧ c = constraint_tuple a b) ∧
  (∀ a, is_Some (index_by_name p !! a) ↔ a ∈ node_name <$> regs) ∧
  ∀ a i, index_by_name p !! a = Some i → vget (node_name <$> regs) i = Some a.
Proof.
  induction regs as [|r regs IH] using rev_ind.
  { cbn. split_and!; [done| | |].
    - intros c. split; [by intros ?%not_elem_of_nil|]. by intros (a & b & (r & ?%not_elem_of_nil & _) & _).
    - intros a. rewrite lookup_empty. split; [by intros [? ?]|by intros ?%not_elem_of_nil].
    - done. }
  rewrite foldl_snoc, fmap_app. destruct IH as (Hn & Hc & Hd & Hi). set (p := foldl _ _ _) in *. cbn. rewrite Hn. split_and!; [done| | |].
  - intros c. rewrite !elem_of_app, Hc, !(list_elem_of_In (map _ _)), !in_map_iff. split.
    + intros [(a & b & (r' & Hr' & Hab) & ->)|[(b & <- & Hb)|(a & <- & Ha)]].
      * exists a, b. split; [|done]. exists r'. rewrite elem_of_app. auto.
      * exists (node_name r), b. split; [|done]. exists r. rewrite elem_of_app. split; [right; by left|]. left. by rewrite list_elem_of_In.
      * exists a, (node_name r). split; [|done]. exists r. rewrite elem_of_app. split; [right; by left|]. right. by rewrite list_elem_of_In.
    + intros (a & b & (r' & Hr' & Hab) & ->). apply elem_of_app in Hr' as [Hr'|Hr'%list_elem_of_singleton].
      * left. exists a, b. split; [|done]. by exists r'.
      * subst r'. right. destruct Hab as [[<- Hb]|[<- Ha]]; [left; exists b|right; exists a]; (split; [done|by apply list_elem_of_In]).
  - intros a. rewrite elem_of_app, <- Hd, list_elem_of_singleton. destruct (decide (a = node_name r)) as [->|Hne].
    + rewrite lookup_insert_eq. split; eauto.
    + rewrite lookup_insert_ne by done. tauto.
  - intros a i. destruct (decide (a = node_name r)) as [->|Hne].
    + rewrite lookup_insert_eq. intros [= <-]. rewrite vget_app_r by lia. by rewrite Z.sub_diag.
    + rewrite lookup_insert_ne by done. intros Ha%Hi. rewrite vget_app_l; [done|]. apply vget_Some_range in Ha. lia.
Qed.

Lemma add_constraints_ok n index orig cs :
  square n orig → (∀ a i, index !! a = Some i → 0 ≤ i < n) → (∀ c, c ∈ cs → ∃ a b, c = constraint_tuple a b ∧ no_comma a) →
  match add_constraints index orig cs with
  | inr m => square n m ∧ (∀ a b, no_comma a → constraint_tuple a b ∈ cs → is_Some (index !! a) ∧ is_Some (index !! b)) ∧
             ∀ i j, cell m i j ≠ 0 ↔ cell orig i j ≠ 0 ∨
               ∃ a b, no_comma a ∧ constraint_tuple a b ∈ cs ∧ index !! a = Some i ∧ index !! b = Some j
  | inl e => ∃ a b x, no_comma a ∧ constraint_tuple a b ∈ cs ∧ e = feature_node_not_found x ∧ (x = a ∨ x = b) ∧ index !! x = None
  end.
Proof.
  intros Hsq Hidx. revert orig Hsq. induction cs as [|c cs IH]; intros orig Hsq Hcs; cbn.
  - split; [done|]. split; [by intros a b _ ?%not_elem_of_nil|]. intros i j. split; [by left|].
    by intros [?|(a & b & _ & ?%not_elem_of_nil & _)].
  - destruct (Hcs c) as (a & b & -> & Ha); [by left|]. unfold add_constraint. rewrite comma_split_tuple by done.
    destruct (index !! a) as [i|] eqn:Hi; [|by exists a, b, a; split_and!; [..|by left|done|by left|]].
    destruct (index !! b) as [j|] eqn:Hj; [|by exists a, b, b; split_and!; [..|by left|done|by right|]].
    specialize (IH (set_cell orig i j 1)). destruct (add_constraints _ _ _) as [e|m].
    + destruct IH as (a' & b' & x & Ha' & Hin & He); [by apply square_set_cell|intros; apply Hcs; by right|].
      exists a', b', x. destruct He as (-> & Hx & Hnone). split_and!; [done|by right|done..].
    + destruct IH as (Hm & Hknown & Hcell); [by apply square_set_cell|intros; apply Hcs; by right|]. split; [done|]. split.
      { intros a' b' Ha' [Heq|Hin]%list.elem_of_cons; [|by apply Hknown]. apply (f_equal comma_split) in Heq.
        rewrite !comma_split_tuple in Heq by done. simplify_eq. eauto. }
      intros i' j'. rewrite Hcell, (cell_set_cell n) by eauto. setoid_rewrite list.elem_of_cons. split.
      * intros [Hne|(a' & b' & Ha' & Hin & Hi' & Hj')]; [|right; exists a', b'; auto].
        destruct (Z.eqb_spec i' i) as [Hii|]; [subst i'|by left]. destruct (Z.eqb_spec j' j) as [Hjj|]; [subst j'|by left].
        right. exists a, b. auto.
      * intros [Hne|(a' & b' & Ha' & [Heq|Hin] & Hi' & Hj')].
        -- left. by destruct (_ && _).
        -- left. assert (comma_split (constraint_tuple a' b') = comma_split (constraint_tuple a b)) as Hs by by rewrite Heq.
           rewrite !comma_split_tuple in Hs by done. injection Hs as -> ->. simplify_eq. by rewrite !Z.eqb_refl.
        -- right. exists a', b'. auto.
Qed.

(** ** The sort *)

Section sort.
Context (n : Z) (C : Z → Z → Prop).
Hypothesis C_trans : ∀ i j k, C i j → C j k → C i k.
Hypothesis C_range : ∀ i j, C i j → 0 ≤ i < n ∧ 0 ≤ j < n.

(** What the matrix is when the items of [result] are output: each of them comes after those that it precedes. *)
Record sorting (closure : matrix) (result : list Z) : Prop := {
  so_square : square n closure;
  so_cell : ∀ i j, 0 ≤ i < n → 0 ≤ j < n → cell closure i j ≠ 0 ↔ (i = j ∧ i ∈ result) ∨ (C i j ∧ j ∉ result);
  so_nodup : NoDup result;
  so_range : ∀ i, i ∈ result → 0 ≤ i < n;
  so_order : ∀ l1 i l2, result = l1 ++ i :: l2 → ∀ j, C i j → j ∈ l1;
}.

Lemma item_constrained_spec closure i :
  item_constrained n closure i = true ↔ ∃ j, 0 ≤ j < n ∧ cell closure i j ≠ 0.
Proof.
  unfold item_constrained. rewrite existsb_exists. setoid_rewrite <- list_elem_of_In. setoid_rewrite elem_of_zrange.
  setoid_rewrite negb_true_iff. by setoid_rewrite Z.eqb_neq.
Qed.

Lemma first_item_some closure i :
  first_item n closure = Some i → 0 ≤ i < n ∧ ∀ j, 0 ≤ j < n → cell closure i j = 0.
Proof.
  intros [Hin Hc]%find_some. apply list_elem_of_In, elem_of_zrange in Hin. split; [done|]. intros j Hj.
  destruct (decide (cell closure i j = 0)) as [|Hne]; [done|]. apply negb_true_iff in Hc.
  by rewrite (proj2 (item_constrained_spec closure i)) in Hc by eauto.
Qed.

Lemma first_item_none closure i :
  first_item n closure = None → 0 ≤ i < n → ∃ j, 0 ≤ j < n ∧ cell closure i j ≠ 0.
Proof.
  intros Hnone Hi. apply item_constrained_spec. eapply find_none in Hnone; [by apply negb_false_iff in Hnone|].
  by apply list_elem_of_In, elem_of_zrange.
Qed.

Lemma column_loop m i l :
  square n m → 0 ≤ i < n → (∀ k, k ∈ l → 0 ≤ k < n) →
  let m' := foldl (λ m k, set_cell m k i 0) m l in
  square n m' ∧ ∀ i' j', cell m' i' j' = if (j' =? i) && bool_decide (i' ∈ l) then 0 else cell m i' j'.
Proof.
  intros Hsq Hi. revert m Hsq. induction l as [|k l IH]; intros m Hsq Hl; cbn.
  - split; [done|]. intros. rewrite bool_decide_false by apply not_elem_of_nil. by rewrite andb_false_r.
  - destruct (IH (set_cell m k i 0)) as [Hs Hc]; [by apply square_set_cell|intros; apply Hl; by right|].
    split; [done|]. intros i' j'. rewrite Hc, (cell_set_cell n) by (try done; apply Hl; by left).
    rewrite (bool_decide_ext (i' ∈ k :: l) (i' = k ∨ i' ∈ l)) by apply list.elem_of_cons.
    destruct (Z.eqb_spec j' i) as [->|]; cbn [andb]; [|by rewrite andb_false_r].
    destruct (decide (i' ∈ l)) as [Hin|Hin]; [by rewrite !bool_decide_true by auto|]. rewrite (bool_decide_false (i' ∈ l)) by done.
    destruct (Z.eqb_spec i' k) as [->|Hk]; [by rewrite bool_decide_true by (by left)|by rewrite bool_decide_false by tauto].
Qed.

Lemma output_item_cell closure i :
  square n closure → 0 ≤ i < n →
  square n (output_item n closure i) ∧ ∀ i' j', 0 ≤ i' < n →
  cell (output_item n closure i) i' j' = if j' =? i then (if i' =? i then 1 else 0) else cell closure i' j'.
Proof.
  intros Hsq Hi. unfold output_item. destruct (column_loop closure i (zrange 0 n)) as [Hs Hc]; try done.
  { intros k Hk. by apply elem_of_zrange in Hk. }
  split; [by apply square_set_cell|]. intros i' j' Hi'. rewrite (cell_set_cell n), Hc by done.
  rewrite bool_decide_true by by apply elem_of_zrange. by destruct (i' =? i), (j' =? i).
Qed.

Lemma sorting_start closure :
  square n closure → (∀ i j, C i j ↔ related n closure i j) → sorting closure [].
Proof.
  intros Hsq HC. constructor; [done| |constructor|by intros i ?%not_elem_of_nil|by intros [|??]].
  intros i j Hi Hj. rewrite HC. unfold related. split; [intros Hne; right; split_and!; (done || lia || apply not_elem_of_nil)|].
  by intros [[_ ?%not_elem_of_nil]|[(_ & _ & Hne) _]].
Qed.

Lemma sorting_step closure result i :
  sorting closure result → first_item n closure = Some i → i ∉ result ∧ sorting (output_item n closure i) (result ++ [i]).
Proof.
  intros Hs [Hi Hzero]%first_item_some. destruct (output_item_cell closure i (so_square _ _ Hs) Hi) as [Hsq Hcell].
  assert (i ∉ result) as Hnew.
  { intros Hin. apply (so_cell _ _ Hs i i Hi Hi); [by left|]. by apply Hzero. }
  assert (∀ j, C i j → j ∈ result) as Hbefore.
  { intros j Hij. destruct (decide (j ∈ result)) as [|Hj]; [done|]. destruct (C_range _ _ Hij) as [_ Hjr].
    exfalso. apply (so_cell _ _ Hs i j Hi Hjr); [by right|by apply Hzero]. }
  split; [done|]. constructor; [done| | | |].
  - intros i' j' Hi' Hj'. rewrite Hcell by done. rewrite !elem_of_app, !list_elem_of_singleton.
    destruct (Z.eqb_spec j' i) as [->|Hji]; [destruct (Z.eqb_spec i' i) as [->|Hii]|].
    + split; [intros _; left; auto|done].
    + split; [done|]. intros [[? _]|[_ Hno] ]; [done|]. exfalso. apply Hno. by right.
    + rewrite (so_cell _ _ Hs) by done. split.
      * intros [[-> H]|[H1 H2] ]; [left; auto|right; split; [done|tauto]].
      * intros [[-> [H|H]]|[H1 H2] ]; [left; auto|done|right; tauto].
  - apply NoDup_app. split_and!; [apply (so_nodup _ _ Hs)| |apply NoDup_singleton].
    by intros x Hx ->%list_elem_of_singleton.
  - intros x [Hx| ->%list_elem_of_singleton]%elem_of_app; [by apply (so_range _ _ Hs)|done].
  - intros l1 x l2 Heq j Hj. destruct l2 as [|y l2 _] using rev_ind.
    + apply app_inj_tail in Heq as [<- <-]. by apply Hbefore.
    + rewrite app_comm_cons, app_assoc in Heq. apply app_inj_tail in Heq as [Heq <-]. by apply (so_order _ _ Hs _ _ _ Heq).
Qed.

Lemma sorting_length closure result : sorting closure result → 0 ≤ n → zlen result ≤ n.
Proof.
  intros Hs Hn. assert (length result ≤ length (zrange 0 n))%nat as Hle.
  { apply submseteq_length, NoDup_submseteq; [apply (so_nodup _ _ Hs)|]. intros i Hi. by apply elem_of_zrange, (so_range _ _ Hs). }
  unfold zrange in Hle. rewrite length_seqZ in Hle. unfold zlen. lia.
Qed.

(** The loop ends, and every item was output or is held back. *)
Lemma order_loop_ok fuel closure result :
  0 ≤ n → sorting closure result → n ≤ zlen result + Z.of_nat fuel →
  ∃ closure' result', order_loop fuel n closure result = Some result' ∧ sorting closure' result' ∧ first_item n closure' = None.
Proof.
  intros Hn. revert closure result. induction fuel as [|fuel IH]; intros closure result Hs Hfuel; cbn;
    (destruct (first_item n closure) as [i|] eqn:Hi; [|by exists closure, result]);
    destruct (sorting_step _ _ _ Hs Hi) as [_ Hs'].
  - apply sorting_length in Hs'; [|done]. rewrite zlen_app, zlen_cons, zlen_nil in Hs'. lia.
  - apply IH; [done|]. rewrite zlen_app, zlen_cons, zlen_nil. lia.
Qed.

Lemma sorting_full closure result :
  sorting closure result → zlen result = n → result ≡ₚ zrange 0 n.
Proof.
  intros Hs Hlen. apply submseteq_length_Permutation.
  - apply NoDup_submseteq; [apply (so_nodup _ _ Hs)|]. intros i Hi. by apply elem_of_zrange, (so_range _ _ Hs).
  - unfold zrange. rewrite length_seqZ. unfold zlen in Hlen. lia.
Qed.
End sort.

(** A transitive relation without cycles has an element without successors in every list. *)
Lemma maximal_element {A} (C : A → A → Prop) (l : list A) :
  (∀ i j k, C i j → C j k → C i k) → (∀ i, ¬ C i i) → (∀ i j, Decision (C i j)) → l ≠ [] →
  ∃ i, i ∈ l ∧ ∀ j, j ∈ l → ¬ C i j.
Proof.
  intros Htr Hirr Hdec. induction l as [|x l IH]; [done|]. intros _. destruct (decide (l = [])) as [->|Hl].
  - exists x. split; [by left|]. by intros j ->%list_elem_of_singleton.
  - destruct (IH Hl) as (m & Hm & Hmax). destruct (decide (C m x)) as [Hmx|Hmx].
    + exists x. split; [by left|]. intros j [->|Hj]%list.elem_of_cons; [done|]. intros Hxj. by apply (Hmax j Hj), (Htr _ x).
    + exists m. split; [by right|]. intros j [->|Hj]%list.elem_of_cons; [done|]. by apply Hmax.
Qed.

Lemma sorting_cycle n C closure result :
  (∀ i j k, C i j → C j k → C i k) → (∀ i j, Decision (C i j)) → 0 ≤ n →
  sorting n C closure result → first_item n closure = None → zlen result ≠ n → ∃ i, 0 ≤ i < n ∧ C i i.
Proof.
  intros Htr Hdec Hn Hs Hnone Hlen. set (rest := filter (λ i, i ∉ result) (zrange 0 n)).
  assert (∀ i, i ∈ rest ↔ i ∉ result ∧ 0 ≤ i < n) as Hrest by (intros i; unfold rest; by rewrite list_elem_of_filter, elem_of_zrange).
  destruct (decide (Exists (λ i, C i i) rest)) as [Hex|Hnex].
  { apply Exists_exists in Hex as (i & Hi%Hrest & Hc). exists i. tauto. }
  exfalso. destruct (maximal_element (λ i j, C i j ∧ i ∈ rest) rest) as (m & Hm & Hmax);
    [by intros i j k [? ?] [? ?]; split; [by apply (Htr _ j)|]| |intros; apply _| |].
  - intros i [Hii Hi]. apply Hnex, Exists_exists. eauto.
  - intros Hnil. apply Hlen. apply (Z.le_antisymm (zlen result) n); [by apply (sorting_length _ _ _ _ Hs)|].
    assert (length (zrange 0 n) ≤ length result)%nat as Hle.
    { apply submseteq_length, NoDup_submseteq; [apply NoDup_seqZ|]. intros i Hi%elem_of_zrange.
      destruct (decide (i ∈ result)) as [|Hno]; [done|]. exfalso. apply (list.not_elem_of_nil i). rewrite <- Hnil. by apply Hrest. }
    unfold zrange in Hle. rewrite length_seqZ in Hle. unfold zlen. lia.
  - pose proof (proj1 (Hrest m) Hm) as [Hno Hr]. destruct (first_item_none _ _ _ Hnone Hr) as (j & Hj & Hne).
    apply (so_cell _ _ _ _ Hs m j Hr Hj) in Hne as [[_ ?]|[Hmj Hjno] ]; [done|]. apply (Hmax j); [by apply Hrest|done].
Qed.

(** ** The indices *)

Lemma bind_index_ok regs result (k : nat) :
  result ≡ₚ zrange 0 (zlen regs) → Z.of_nat k ≤ zlen regs →
  ∃ out, mfoldl (bind_index regs result) (replicate (Z.to_nat (zlen regs)) 0, [])
           (reverse (zrange (zlen regs - Z.of_nat k) (zlen regs))) = Some out ∧ zlen out.1 = zlen regs ∧ length out.2 = k ∧
    ∀ p r, (p < k)%nat → reverse result !! p = Some r →
      vget out.1 r = Some (Z.of_nat p) ∧ ∃ reg, vget regs r = Some reg ∧ out.2 !! p = Some (node_name reg).
Proof.
  intros Hperm. set (n := zlen regs) in *. assert (zlen result = n) as Hlen.
  { unfold zlen. rewrite Hperm. unfold zrange. rewrite length_seqZ. unfold n, zlen. lia. }
  induction k as [|k IH]; intros Hk.
  - rewrite zrange_nil by lia. cbn. eexists. split_and!; [done| |done|lia]. cbn. rewrite zlen_replicate. unfold n, zlen. lia.
  - destruct IH as (out & Hout & Hl1 & Hl2 & Hspec); [lia|].
    rewrite zrange_cons by lia. replace (n - Z.of_nat (S k) + 1) with (n - Z.of_nat k) by lia.
    rewrite reverse_cons, mfoldl_snoc, Hout. cbn [mbind option_bind]. unfold bind_index.
    destruct (vget_in_range result (n - Z.of_nat (S k))) as [r Hr]; [lia|]. rewrite Hr. cbn [mbind option_bind].
    assert (reverse result !! k = Some r) as Hrk.
    { rewrite reverse_lookup by (unfold zlen in Hlen; lia). unfold vget in Hr. destruct (0 <=? _) eqn:?; [|done]. rewrite <- Hr. f_equal. unfold zlen in Hlen. lia. }
    assert (0 ≤ r < n) as Hrange by (apply elem_of_zrange; rewrite <- Hperm; by apply vget_elem in Hr).
    destruct (vget_in_range regs r) as [reg Hreg]; [done|]. rewrite Hreg. cbn [mbind option_bind]. eexists. split_and!; [done|cbn; by rewrite zlen_vset|cbn; rewrite length_app; cbn; lia|].
    intros p r' Hp Hr'. cbn. destruct (decide (p = k)) as [->|Hne].
    + simplify_eq. rewrite vget_vset_eq by lia. split; [f_equal; lia|]. exists reg. split; [done|].
      rewrite lookup_app_r by lia. by rewrite Nat.sub_diag.
    + destruct (Hspec p r') as (H1 & reg' & H2 & H3); [lia|done|]. rewrite vget_vset_ne, H1.
      * split; [done|]. exists reg'. split; [done|]. rewrite lookup_app_l by lia. done.
      * intros ->. apply Hne. eapply NoDup_lookup; [|exact Hr'|exact Hrk]. rewrite reverse_Permutation, Hperm. apply NoDup_seqZ.
Qed.

(** ** The result *)

Lemma precedes_fmap {A B} (f : A → option B) (l : list A) (l' : list B) a b a' b' :
  (∀ p x, l !! p = Some x → l' !! p = f x) → f a = Some a' → f b = Some b' → precedes l a b → precedes l' a' b'.
Proof. intros Hf Ha Hb (i & j & Hij & Hi & Hj). exists i, j. by rewrite (Hf _ _ Hi), (Hf _ _ Hj). Qed.

Lemma precedes_reverse {A} (l1 l2 : list A) a b : a ∈ l1 → precedes (reverse (l1 ++ b :: l2)) b a.
Proof.
  intros Ha. rewrite reverse_app, reverse_cons. apply elem_of_reverse in Ha.
  apply list_elem_of_lookup in Ha as [j Hj]. exists (length l2), (length l2 + 1 + j)%nat. split; [lia|]. split.
  - rewrite lookup_app_l by (rewrite length_app, length_reverse; cbn; lia).
    rewrite lookup_app_r by (by rewrite length_reverse). by rewrite length_reverse, Nat.sub_diag.
  - rewrite lookup_app_r by (rewrite length_app, length_reverse; cbn; lia).
    rewrite length_app, length_reverse. cbn. rewrite <- Hj. f_equal. lia.
Qed.

Lemma regs_pos regs : regs_ok regs → 0 < zlen regs.
Proof. intros (Hne & _). destruct regs; [done|]. unfold zlen. cbn. lia. Qed.

Section arc.
Context (regs : list vnet_feature_registration) (Hregs : regs_ok regs).
Local Abbreviation n := (zlen regs).
Local Abbreviation names := (node_name <$> regs).

(** The constraints by index. *)
Definition edge (i j : Z) : Prop := ∃ a b, before regs a b ∧ vget names i = Some a ∧ vget names j = Some b.

Lemma edge_cycle i j : tc edge i j → ∃ a b, vget names i = Some a ∧ vget names j = Some b ∧ tc (before regs) a b.
Proof.
  induction 1 as [i j (a & b & Hab & Ha & Hb)|i m j (a & b & Hab & Ha & Hb) _ (b' & c & Hb' & Hc & Hbc)].
  - exists a, b. split_and!; [done..|by apply tc_once].
  - simplify_eq. exists a, c. split_and!; [done..|]. by eapply tc_l.
Qed.

Lemma zlen_names : zlen names = n.
Proof. unfold zlen. by rewrite length_fmap. Qed.

(** What the two passes leave: the matrix of the constraints, or a name that is not registered. *)
Lemma passes_ok :
  let p := foldl collect (Pass1 [] ∅ []) regs in
  ∃ orig, clib_ptclosure_alloc (zlen (node_names p)) = Some orig ∧
    match add_constraints (index_by_name p) orig (constraints p) with
    | inr m => square n m ∧ (∀ a b, before regs a b → a ∈ names ∧ b ∈ names) ∧ ∀ i j, related n m i j ↔ edge i j
    | inl e => ∃ x y, e = feature_node_not_found x ∧ x ∉ names ∧ (before regs x y ∨ before regs y x)
    end.
Proof.
  destruct Hregs as (Hne & Hnodup & Hcomma). destruct (collect_ok regs) as (Hn & Hc & Hd & Hi). set (p := foldl _ _ _) in *. cbn.
  pose proof (regs_pos regs Hregs) as Hpos.
  rewrite Hn, zlen_names. destruct (alloc_ok n Hpos) as (orig & -> & Hsq & Hzero). exists orig. split; [done|].
  pose proof (add_constraints_ok n (index_by_name p) orig (constraints p) Hsq) as Hadd.
  destruct (add_constraints _ _ _) as [e|m].
  - destruct Hadd as (a & b & x & Ha & Hab & -> & Hx & Hnone).
    + intros x i Hx%Hi%vget_Some_range. by rewrite zlen_names in Hx.
    + intros c (a & b & Hab & ->)%Hc. exists a, b. split; [done|]. by apply (Hcomma a b).
    + apply Hc in Hab as (a' & b' & Hab & Heq). assert (no_comma a') as Ha' by by apply (Hcomma a' b').
      apply (f_equal comma_split) in Heq. rewrite !comma_split_tuple in Heq by done. simplify_eq.
      assert (x ∉ names) as Hno by (rewrite <- Hd, Hnone; by intros [? ?]).
      destruct Hx as [->| ->]; [exists a', b'|exists b', a']; auto.
  - destruct Hadd as (Hm & Hknown & Hcell).
    + intros x i Hx%Hi%vget_Some_range. by rewrite zlen_names in Hx.
    + intros c (a & b & Hab & ->)%Hc. exists a, b. split; [done|]. by apply (Hcomma a b).
    + split; [done|]. split.
      { intros a b Hab. rewrite <- !Hd. apply Hknown; [by apply (Hcomma a b)|]. apply Hc. eauto. }
      assert (∀ a i, index_by_name p !! a = Some i ↔ vget names i = Some a) as Hidx.
      { intros a i. split; [apply Hi|]. intros Ha. destruct (proj2 (Hd a)) as [i' Hi']; [by apply vget_elem in Ha|].
        rewrite Hi'. apply Hi in Hi'. f_equal. unfold vget in Ha, Hi'. repeat case_match; try done.
        assert (Z.to_nat i' = Z.to_nat i) by by eapply NoDup_lookup. bool_to_prop. lia. }
      intros i j. unfold related, edge. rewrite Hcell, Hzero. split.
      * intros (_ & _ & [?|(a & b & Ha & Hab & Hai & Hbj)]); [done|]. apply Hc in Hab as (a' & b' & Hab & Heq).
        assert (no_comma a') as Ha' by by apply (Hcomma a' b').
        apply (f_equal comma_split) in Heq. rewrite !comma_split_tuple in Heq by done. simplify_eq.
        exists a', b'. by rewrite <- !Hidx.
      * intros (a & b & Hab & Ha & Hb). pose proof (vget_Some_range _ _ _ Ha) as Hri. pose proof (vget_Some_range _ _ _ Hb) as Hrj.
        rewrite zlen_names in Hri, Hrj. split_and!; [lia..|]. right. exists a, b. rewrite !Hidx, Hc.
        split_and!; [by apply (Hcomma a b)| |done..]. by exists a, b.
Qed.

(** The sort of an acyclic relation, and its indices. *)
Lemma arc_sorted m closure result :
  (∀ i j, related n m i j ↔ tc edge i j) → sorting n (related n m) closure result → zlen result = n →
  ∃ out, mfoldl (bind_index regs result) (replicate (Z.to_nat n) 0, []) (reverse (zrange 0 n)) = Some out ∧
    out.2 ≡ₚ names ∧ (∀ a b, before regs a b → a ∈ names → b ∈ names → precedes out.2 a b) ∧
    ∀ k r, regs !! k = Some r → ∃ p, vget out.1 (Z.of_nat k) = Some p ∧ vget out.2 p = Some (node_name r).
Proof.
  intros Hm Hs Hlen. pose proof (sorting_full _ _ _ _ Hs Hlen) as Hperm.
  destruct (bind_index_ok regs result (length regs) Hperm) as (out & Hout & _ & Hl2 & Hspec); [unfold zlen; lia|].
  replace (n - Z.of_nat (length regs)) with 0 in Hout by (unfold zlen; lia). exists out. split; [done|].
  assert (∀ p r, reverse result !! p = Some r → (p < length regs)%nat) as Hlt.
  { intros p r Hp%lookup_lt_Some. rewrite length_reverse in Hp. unfold zlen in Hlen. lia. }
  assert (∀ p r, reverse result !! p = Some r → out.2 !! p = vget names r) as Hnodes.
  { intros p r Hp. destruct (Hspec p r (Hlt _ _ Hp) Hp) as (_ & reg & Hreg & ->). unfold vget in *.
    destruct (0 <=? r); [|done]. by rewrite list_lookup_fmap, Hreg. }
  split_and!.
  - assert (out.2 = (λ i, default ""%string (vget names i)) <$> reverse result) as ->.
    { apply list_eq. intros p. rewrite list_lookup_fmap. destruct (reverse result !! p) as [r|] eqn:Hr; cbn.
      - rewrite (Hnodes _ _ Hr). destruct (Hspec p r (Hlt _ _ Hr) Hr) as (_ & reg & Hreg & H). rewrite (Hnodes _ _ Hr) in H. by rewrite H.
      - apply lookup_ge_None in Hr. rewrite length_reverse in Hr. apply lookup_ge_None. unfold zlen in Hlen. lia. }
    rewrite reverse_Permutation, Hperm. match goal with |- ?a ≡ₚ ?b => assert (a = b) as ->; [|done] end.
    apply list_eq. intros p. rewrite list_lookup_fmap. unfold zrange.
    destruct (decide (p < length regs)%nat) as [Hp|Hp].
    + rewrite lookup_seqZ_lt by (unfold zlen; lia). cbn. rewrite Z.add_0_l, vget_of_nat. destruct (lookup_lt_is_Some_2 names p) as [x Hx]; [by rewrite length_fmap|]. by rewrite Hx.
    + rewrite lookup_seqZ_ge by (unfold zlen; lia). cbn. symmetry. apply lookup_ge_None. rewrite length_fmap. lia.
  - intros a b Hab [i Ha]%elem_vget [j Hb]%elem_vget.
    assert (related n m i j) as Hij by (apply Hm, tc_once; by exists a, b).
    assert (i ∈ result) as Hi.
    { rewrite Hperm. apply elem_of_zrange. by destruct Hij. }
    apply list_elem_of_split in Hi as (l1 & l2 & Heq). pose proof (so_order _ _ _ _ Hs _ _ _ Heq j Hij) as Hj.
    apply (precedes_fmap (vget names) (reverse result) _ i j); [done..|]. rewrite Heq. by apply precedes_reverse.
  - intros k r Hk. assert (Z.of_nat k ∈ reverse result) as Hin.
    { rewrite elem_of_reverse, Hperm. apply elem_of_zrange. apply lookup_lt_Some in Hk. unfold zlen. lia. }
    apply list_elem_of_lookup in Hin as [p Hp]. destruct (Hspec p _ (Hlt _ _ Hp) Hp) as (H1 & reg & H2 & H3).
    exists (Z.of_nat p). split; [done|]. rewrite vget_of_nat in H2. rewrite vget_of_nat. by simplify_eq.
Qed.
End arc.

Definition arc_initialised (regs : list vnet_feature_registration) (r : option (arc_error + feature_arc)) : Prop :=
  match r with
  | Some (inr arc) =>
      feature_nodes arc ≡ₚ node_name <$> regs ∧ (∀ a b, before regs a b → precedes (feature_nodes arc) a b) ∧
      ∀ k r, regs !! k = Some r →
        ∃ i, vget (feature_index arc) (Z.of_nat k) = Some i ∧ vget (feature_nodes arc) i = Some (node_name r)
  | Some (inl (feature_node_not_found x)) => x ∉ node_name <$> regs ∧ ∃ y, before regs x y ∨ before regs y x
  | Some (inl no_partial_order) => ∃ a, tc (before regs) a a
  | Some (inl comma_split_failed) | None => False
  end.

Lemma arc_init_ok regs : regs_ok regs → arc_initialised regs (vnet_feature_arc_init regs).
Proof.
  intros Hregs. unfold arc_initialised.
  pose proof (collect_ok regs) as (Hn & _). destruct (passes_ok regs Hregs) as (orig & Horig & Hadd).
  unfold vnet_feature_arc_init. rewrite Horig. cbn [mbind option_bind]. rewrite Hn, zlen_names in *.
  destruct (add_constraints _ _ _) as [e|m]; [destruct Hadd as (x & y & -> & Hx & Hy); eauto|].
  destruct Hadd as (Hm & Hknown & Hedge). pose proof (regs_pos regs Hregs) as Hpos.
  destruct (clib_ptclosure_closure (zlen regs) m Hpos Hm) as (c & -> & Hc & Hrel). cbn [mbind option_bind].
  assert (∀ i j, related (zlen regs) c i j ↔ tc (edge regs) i j) as Htc.
  { intros i j. rewrite Hrel. split; apply tc_congruence with (f := id); intros; by apply Hedge. }
  assert (∀ i j k, related (zlen regs) c i j → related (zlen regs) c j k → related (zlen regs) c i k) as Htr.
  { intros i j k. rewrite !Htc. apply transitivity. }
  destruct (order_loop_ok (zlen regs) (related (zlen regs) c) ltac:(by intros i j (? & ? & _)) (Z.to_nat (zlen regs)) c []) as (c' & result & -> & Hs & Hnone);
    [lia|by apply sorting_start|rewrite zlen_nil; lia|]. cbn [mbind option_bind].
  destruct (Z.eqb_spec (zlen result) (zlen regs)) as [Hlen|Hlen]; cbn [negb].
  - destruct (arc_sorted regs c c' result Htc Hs Hlen) as (out & -> & Hperm & Horder & Hidx). cbn. split_and!; [done| |done].
    intros a b Hab. apply Horder; [done|by apply Hknown in Hab as [? ?]..].
  - destruct (sorting_cycle (zlen regs) (related (zlen regs) c) c' result Htr ltac:(intros; unfold related; apply _) ltac:(lia) Hs Hnone Hlen) as (i & Hi & Hii).
    apply Htc, edge_cycle in Hii as (a & b & Ha & Hb & Hab). simplify_eq. eauto.
Qed.

(** C17: The features of an arc are put into an order that keeps every constraint: whatever is registered, the
    initialisation of the arc ends.  Either it returns the names of all features, each once, with every feature after those
    that it runs after and before those that it runs before, and each registration has the position of its
    feature; or it names a feature that a constraint mentions and that is not registered; or it
    reports that there is no order, and then the constraints have a cycle. *)
Theorem vnet_feature_arc_init_spec (regs : list vnet_feature_registration) (Hregs : regs_ok regs) :
  match vnet_feature_arc_init regs with
  | Some (inr arc) =>
      feature_nodes arc ≡ₚ node_name <$> regs ∧ (∀ a b, before regs a b → precedes (feature_nodes arc) a b) ∧
      ∀ k r, regs !! k = Some r →
        ∃ i, vget (feature_index arc) (Z.of_nat k) = Some i ∧ vget (feature_nodes arc) i = Some (node_name r)
  | Some (inl (feature_node_not_found x)) => x ∉ node_name <$> regs ∧ ∃ y, before regs x y ∨ before regs y x
  | Some (inl no_partial_order) => ∃ a, tc (before regs) a a
  | Some (inl comma_split_failed) | None => False
  end.
Proof. apply (arc_init_ok regs Hregs). Qed.

(** ** Examples *)

Definition toy_regs : list vnet_feature_registration :=
  [Registration "ip4-lookup" [] []; Registration "nat" ["ip4-lookup"] ["acl"]; Registration "acl" ["ip4-lookup"] []]%string.

Lemma toy_regs_ok : regs_ok toy_regs.
Proof.
  split; [done|]. split; [by apply (bool_decide_unpack _); vm_compute|]. intros a b (r & Hr & Hab).
  unfold toy_regs in Hr. rewrite !list.elem_of_cons in Hr.
  destruct Hr as [-> | [-> | [-> | ?%not_elem_of_nil] ] ]; [..|done]; cbn in Hab; destruct Hab as [[<- Hb]|[<- Hb] ];
    repeat (apply list.elem_of_cons in Hb as [-> | Hb]; [split; reflexivity|]); by apply not_elem_of_nil in Hb.
Qed.

Definition toy_arc : feature_arc := FeatureArc [2; 1; 0] ["acl"; "nat"; "ip4-lookup"]%string.

Lemma toy_arc_made : vnet_feature_arc_init toy_regs = Some (inr toy_arc).
Proof. vm_compute. reflexivity. Qed.

Lemma vnet_feature_arc_init_spec_witness : precedes (feature_nodes toy_arc) "acl"%string "nat"%string.
Proof.
  pose proof (vnet_feature_arc_init_spec toy_regs toy_regs_ok) as H. rewrite toy_arc_made in H. apply H.
  exists (Registration "nat" ["ip4-lookup"] ["acl"])%string. split.
  - right. by left.
  - right. split; [done|by left].
Defined.

Example order_of_cycle :
  vnet_feature_arc_init [Registration "a" ["b"] []; Registration "b" ["a"] []]%string = Some (inl no_partial_order).
Proof. reflexivity. Qed.

End FeatureOrder.
