(* ===== verification/Graph.v ===== *)
(** * The arcs of the node graph (vlib/node.c)

    A node has a vector of next nodes and a table of their slots.  Siblings have the same next nodes: a next node that is
    added to one is added to the others by recursion.  [NodeGraph] is what the users of the graph rely on, and
    the nodes of vlib are its instance.  The runtime copies of the vectors, the frames and the registration of nodes are
    not modelled. *)

From stdpp Require Import gmap.
From S2P Require Import Prelude Bitmap.
Open Scope Z_scope.

(** ** The interface *)

Class NodeGraph := {
  graph : Type;
  (** The node in a slot of a node, and the number of slots. *)
  next_node : graph → Z → Z → option Z;
  n_slots : graph → Z → Z;
  is_node : graph → Z → Prop;
  (** The nodes that have the next nodes of a node. *)
  sibling : graph → Z → Z → Prop;
  vlib_node_add_next : graph → Z → Z → option (graph * Z);
}.

(** Two nodes, perhaps of two graphs, have the same slots. *)
Definition same_slots `{NodeGraph} (g g' : graph) (x x' : Z) : Prop :=
  n_slots g x = n_slots g' x' ∧ ∀ s, next_node g x s = next_node g' x' s.

Class NodeGraphLaws (Net : NodeGraph) := {
  graph_ok : graph → Prop;
  next_node_inj g x s s' y : graph_ok g → next_node g x s = Some y → next_node g x s' = Some y → s = s';
  next_node_bound g x s y : graph_ok g → next_node g x s = Some y → 0 ≤ s < n_slots g x;
  add_next_ok g x y : graph_ok g → is_node g x → is_node g y → n_slots g x < u32_max →
    ∃ g' s, vlib_node_add_next g x y = Some (g', s) ∧ graph_ok g' ∧ (∀ z, is_node g' z ↔ is_node g z) ∧
      (∀ z w, sibling g' z w ↔ sibling g z w) ∧
      next_node g' x s = Some y ∧ s ≤ n_slots g x ∧
      (** The slot is the one that [y] has, or the first new one. *)
      (next_node g x s = Some y ∧ g' = g ∨
       (∀ s', next_node g x s' ≠ Some y) ∧ s = n_slots g x ∧ n_slots g' x = s + 1 ∧
       (∀ s', s' ≠ s → next_node g' x s' = next_node g x s')) ∧
      (** Another node stays as it is, or is a sibling and has the slots of [x] before and after. *)
      ∀ z, same_slots g g' z z ∨ (sibling g x z ∧ same_slots g g z x ∧ same_slots g' g' z x);
}.

Module Graph.
Import ClibBitmap.

(** ** The code *)

Record vlib_node := Node {
  next_nodes : list Z;
  next_slot_by_node : gmap Z Z;
  sibling_bitmap : bitmap;
  prev_node_bitmap : bitmap;
}.

Definition node_0 : vlib_node := Node [] ∅ [] [].
Definition NONE : Z := u64_max.

(** The next node in its slot; empty slots are [~0]. *)
Definition put_next (next_node_index slot : Z) (n : vlib_node) : vlib_node :=
  Node (vset (vec_validate NONE (next_nodes n) slot) slot next_node_index)
    (<[next_node_index := slot]> (next_slot_by_node n)) (sibling_bitmap n) (prev_node_bitmap n).
Definition put_prev (node_index : Z) (n : vlib_node) : vlib_node :=
  Node (next_nodes n) (next_slot_by_node n) (sibling_bitmap n) (clib_bitmap_ori (prev_node_bitmap n) node_index).

Definition vlib_node_get_next (nodes : list vlib_node) (node_index next_node_index : Z) : option Z :=
  n ← vget nodes node_index;
  Some (default NONE (next_slot_by_node n !! next_node_index)).

(** [None] is a failed assertion, or recursion deeper than the fuel. *)
Fixpoint vlib_node_add_next_with_slot (fuel : nat) (nodes : list vlib_node) (node_index next_node_index slot : Z)
    : option (list vlib_node * Z) :=
  match fuel with
  | O => None
  | S fuel =>
      node ← vget nodes node_index;
      _ ← vget nodes next_node_index;
      match next_slot_by_node node !! next_node_index with
      | Some p => if negb (slot =? NONE) && negb (slot =? p) then None else Some (nodes, p)
      | None =>
          let slot := if slot =? NONE then zlen (next_nodes node) else slot in
          let nodes := vset nodes node_index (put_next next_node_index slot node) in
          next ← vget nodes next_node_index;
          let nodes := vset nodes next_node_index (put_prev node_index next) in
          nodes ← mfoldl (λ nodes sib_node_index,
              if sib_node_index =? node_index then Some nodes
              else out ← vlib_node_add_next_with_slot fuel nodes sib_node_index next_node_index slot;
                   if negb (out.2 =? slot) then None else Some out.1)
            nodes (clib_bitmap_foreach (sibling_bitmap node));
          Some (nodes, slot)
      end
  end.

(** One level of recursion for each node, and one for the answer of a node that has the next node already. *)
Definition add_next (nodes : list vlib_node) (node next_node : Z) : option (list vlib_node * Z) :=
  vlib_node_add_next_with_slot (S (length nodes)) nodes node next_node NONE.

Definition siblings (nodes : list vlib_node) (x y : Z) : Prop := bit (sibling_bitmap (velt node_0 nodes x)) y = true.

#[export] Instance vlib_graph : NodeGraph := {
  graph := list vlib_node;
  next_node nodes x s := y ← vget nodes x ≫= λ n, vget (next_nodes n) s; if y =? NONE then None else Some y;
  n_slots nodes x := match vget nodes x with Some n => zlen (next_nodes n) | None => 0 end;
  is_node nodes x := 0 ≤ x < zlen nodes;
  sibling nodes x z := rtc (siblings nodes) x z;
  vlib_node_add_next := add_next;
}.

(** ** The invariant *)

Record node_ok (nodes : list vlib_node) (n : vlib_node) : Prop := {
  no_wf : wf (sibling_bitmap n);
  no_next : ∀ y s, next_slot_by_node n !! y = Some s ↔ vget (next_nodes n) s = Some y ∧ y ≠ NONE;
  no_sibling : ∀ y, bit (sibling_bitmap n) y = true → 0 ≤ y < zlen nodes;
  no_slots : zlen (next_nodes n) < NONE;
}.

(** The tables that siblings share. *)
Definition tables (n : vlib_node) : list Z * gmap Z Z := (next_nodes n, next_slot_by_node n).

Record nodes_ok (nodes : list vlib_node) : Prop := {
  ns_len : zlen nodes < NONE;
  ns_node : ∀ x n, vget nodes x = Some n → node_ok nodes n;
  ns_sym : ∀ x y, 0 ≤ x < zlen nodes → siblings nodes x y → siblings nodes y x;
  ns_same : ∀ x y, 0 ≤ x < zlen nodes → siblings nodes x y → tables (velt node_0 nodes x) = tables (velt node_0 nodes y);
}.

(** ** Adding a next node *)

Lemma foreach_bits a w : wf a → 0 ≤ w → w ∈ clib_bitmap_foreach a ↔ bit a w = true.
Proof.
  intros Ha Hw. rewrite clib_bitmap_foreach_set_bits by done. rewrite list_elem_of_filter, elem_of_zrange, get_bit.
  split; [tauto|]. intros Hb. split; [done|]. split; [done|]. destruct (decide (w < zlen a * BITS)) as [|Hlt]; [done|].
  exfalso. unfold bit in Hb. rewrite velt_out, Z.bits_0 in Hb; [done|]. right. apply Z.div_le_lower_bound; [done|]. lia.
Qed.

Lemma foreach_nonneg a w : wf a → w ∈ clib_bitmap_foreach a → 0 ≤ w.
Proof. intros Ha. rewrite clib_bitmap_foreach_set_bits by done. rewrite list_elem_of_filter, elem_of_zrange. tauto. Qed.

Section add.
Context (nodes0 : list vlib_node) (Hok : nodes_ok nodes0) (y s : Z) (Hy : 0 ≤ y < zlen nodes0) (Hs : 0 ≤ s < NONE).
Local Abbreviation sib := (siblings nodes0).
Local Abbreviation tables0 x := (tables (velt node_0 nodes0 x)).

(** The state while the nodes of [D] have the new next node. *)
Definition added (D : gset Z) (nodes : list vlib_node) : Prop :=
  zlen nodes = zlen nodes0 ∧ ∀ x, 0 ≤ x < zlen nodes0 →
    sibling_bitmap (velt node_0 nodes x) = sibling_bitmap (velt node_0 nodes0 x) ∧
    tables (velt node_0 nodes x) = if decide (x ∈ D) then tables (put_next y s (velt node_0 nodes0 x)) else tables0 x.

Lemma added_start : added ∅ nodes0.
Proof. split; [done|]. intros x Hx. split; [done|]. by rewrite decide_False by set_solver. Qed.

Lemma added_one D nodes x :
  added D nodes → 0 ≤ x < zlen nodes0 → x ∉ D →
  let nodes1 := vset nodes x (put_next y s (velt node_0 nodes x)) in
  added ({[x]} ∪ D) (vset nodes1 y (put_prev x (velt node_0 nodes1 y))).
Proof.
  intros [Hl Hd] Hx Hno nodes1. assert (added ({[x]} ∪ D) nodes1) as [Hl1 Hd1].
  { split; [unfold nodes1; by rewrite zlen_vset|]. intros z Hz. unfold nodes1. destruct (decide (z = x)) as [->|Hne].
    - rewrite velt_vset_eq, decide_True by (lia || set_solver). destruct (Hd x Hx) as [Hsb Ht]. rewrite decide_False in Ht by done.
      split; [done|]. unfold tables in *. injection Ht as Hn Hh. unfold put_next. cbn. by rewrite Hn, Hh.
    - rewrite velt_vset_ne by done. destruct (Hd z Hz) as [Hsb Ht]. split; [done|]. rewrite Ht.
      destruct (decide (z ∈ D)); [by rewrite decide_True by set_solver|by rewrite decide_False by set_solver]. }
  split; [by rewrite zlen_vset|]. intros z Hz. destruct (decide (z = y)) as [->|Hne]; [|rewrite velt_vset_ne by done; by apply Hd1].
  rewrite velt_vset_eq by lia. by apply Hd1.
Qed.

Definition closed (D D' : gset Z) : Prop := ∀ z, z ∈ D' → z ∉ D → 0 ≤ z < zlen nodes0 ∧ ∀ w, sib z w → w ∈ D'.

Lemma closed_trans D1 D2 D3 : closed D1 D2 → closed D2 D3 → D2 ⊆ D3 → closed D1 D3.
Proof.
  intros H12 H23 Hsub z Hz Hno. destruct (decide (z ∈ D2)) as [Hz2|Hz2]; [|by apply H23].
  destruct (H12 z Hz2 Hno) as [? Hw]. split; [done|]. intros w Hzw. by apply Hsub, Hw.
Qed.

Lemma added_size (D : gset Z) : (∀ z, z ∈ D → 0 ≤ z < zlen nodes0) → (size D ≤ length nodes0)%nat.
Proof.
  intros HD. assert (D ⊆ list_to_set (zrange 0 (zlen nodes0))) as Hsub.
  { intros z Hz. apply elem_of_list_to_set, elem_of_zrange. by apply HD. }
  apply subseteq_size in Hsub. rewrite size_list_to_set in Hsub by apply NoDup_seqZ.
  unfold zrange in Hsub. rewrite length_seqZ in Hsub. unfold zlen in Hsub. lia.
Qed.

(** The nodes that get the next node are reached from the first one, so that they have its tables. *)
Definition alike (x : Z) (D D' : gset Z) : Prop := ∀ z, z ∈ D' → z ∉ D → rtc sib x z.

Lemma rtc_tables x z : 0 ≤ x < zlen nodes0 → rtc sib x z → tables0 z = tables0 x.
Proof.
  intros Hx. induction 1 as [x|x w z Hw _ IH]; [done|]. rewrite IH; [symmetry; by apply (ns_same _ Hok)|].
  apply (no_sibling _ (velt node_0 nodes0 x)); [|done]. apply (ns_node _ Hok x), vget_velt. lia.
Qed.

Lemma add_all fuel x slot D nodes :
  added D nodes → 0 ≤ x < zlen nodes0 → next_slot_by_node (velt node_0 nodes0 x) !! y = None →
  (x ∈ D ∧ slot = s ∨ x ∉ D ∧ (slot = s ∨ slot = NONE ∧ s = zlen (next_nodes (velt node_0 nodes0 x)))) →
  (∀ z, z ∈ D → 0 ≤ z < zlen nodes0) → (length nodes0 - size D < fuel)%nat →
  ∃ nodes' D', vlib_node_add_next_with_slot fuel nodes x y slot = Some (nodes', s) ∧ added D' nodes' ∧
    D ⊆ D' ∧ x ∈ D' ∧ closed D D' ∧ alike x D D'.
Proof.
  revert x slot D nodes. induction fuel as [|fuel IH]; [lia|]. intros x slot D nodes Hadd Hx Hnone Hslot HD Hfuel.
  destruct Hadd as [Hl Hd] eqn:Heq. clear Heq. destruct (Hd x Hx) as [Hsb Ht]. cbn [vlib_node_add_next_with_slot].
  rewrite !(vget_velt node_0) by lia. cbn [mbind option_bind].
  destruct Hslot as [[HxD ->]|[HxD Hslot]].
  { rewrite decide_True in Ht by done. apply (f_equal snd) in Ht. cbn in Ht. rewrite Ht, lookup_insert_eq.
    rewrite Z.eqb_refl, andb_false_r. exists nodes, D. split_and!; try done; by intros z ? ?. }
  rewrite decide_False in Ht by done. unfold tables in Ht. injection Ht as Hn Hh. rewrite Hh, Hnone.
  set (slot' := if slot =? NONE then _ else slot).
  assert (slot' = s) as ->.
  { unfold slot'. destruct Hslot as [->|[-> ->] ]; [by destruct (Z.eqb_spec s NONE); [lia|]|by rewrite Z.eqb_refl, Hn]. }
  rewrite (vget_velt node_0) by (rewrite zlen_vset; lia). cbn [mbind option_bind].
  pose proof (added_one D nodes x Hadd Hx HxD) as Hadd1. cbn zeta in Hadd1. set (nodes1 := vset (vset nodes x _) y _) in *.
  assert (node_ok nodes0 (velt node_0 nodes0 x)) as Hnx by (apply (ns_node _ Hok x), vget_velt; lia).
  assert (∀ w, w ∈ clib_bitmap_foreach (sibling_bitmap (velt node_0 nodes x)) ↔ 0 ≤ w ∧ sib x w) as Hsibs.
  { intros w. rewrite Hsb. pose proof (no_wf _ _ Hnx) as Hwf. unfold siblings. split.
    - intros Hw. assert (0 ≤ w) by by eapply foreach_nonneg. split; [done|]. by apply foreach_bits in Hw.
    - intros [Hw Hb]. by apply foreach_bits. }
  destruct (mfoldl_inv (λ ns w, if w =? x then Some ns
              else out ← vlib_node_add_next_with_slot fuel ns w y s; if negb (out.2 =? s) then None else Some out.1)
      (λ done ns, ∃ D1, added D1 ns ∧ {[x]} ∪ D ⊆ D1 ∧ (∀ w, w ∈ done → w ∈ D1) ∧ closed ({[x]} ∪ D) D1 ∧
         alike x ({[x]} ∪ D) D1 ∧ ∀ z, z ∈ D1 → 0 ≤ z < zlen nodes0)
      (clib_bitmap_foreach (sibling_bitmap (velt node_0 nodes x))) nodes1) as (ns & Hfold & D1 & Hadd' & Hsub & Hdone & Hcl & Hal & Hr).
  - exists ({[x]} ∪ D). split_and!; [done|done|by intros w ?%not_elem_of_nil|by intros z ? ?|by intros z ? ?|]. set_solver.
  - intros ns done w [Hw0 Hw]%Hsibs (D1 & Hadd' & Hsub & Hdone & Hcl & Hal & Hr).
    destruct (Z.eqb_spec w x) as [->|Hne].
    { exists ns. split; [trivial|]. exists D1. split_and!; try trivial. intros w [Hw'| ->%list_elem_of_singleton]%elem_of_app; [by apply Hdone|].
      apply Hsub, elem_of_union_l. by apply elem_of_singleton. }
    pose proof (no_sibling _ _ Hnx w Hw) as Hwr. pose proof (ns_same _ Hok x w Hx Hw) as Hsame.
    destruct (IH w s D1 ns) as (ns' & D2 & Heq & Hadd2 & Hsub2 & Hw2 & Hcl2 & Hal2); try trivial.
    + change ((tables0 w).2 !! y = None). by rewrite <- Hsame.
    + destruct (decide (w ∈ D1)); tauto.
    + pose proof (added_size D1 Hr). assert (size ({[x]} ∪ D) ≤ size D1)%nat as Hsz by by apply subseteq_size.
      rewrite size_union, size_singleton in Hsz by set_solver. lia.
    + rewrite Heq. cbn [mbind option_bind fst snd]. rewrite Z.eqb_refl. exists ns'. split; [trivial|]. exists D2. split_and!.
      * done.
      * clear -Hsub Hsub2. set_solver.
      * intros w' [Hw'| ->%list_elem_of_singleton]%elem_of_app; [by apply Hsub2, Hdone|done].
      * by apply closed_trans with D1.
      * intros z Hz Hno. destruct (decide (z ∈ D1)); [by apply Hal|]. apply rtc_l with w; [done|by apply Hal2].
      * intros z Hz. destruct (decide (z ∈ D1)); [by apply Hr|by apply Hcl2].
  - rewrite Hfold. cbn [mbind option_bind]. exists ns, D1. split_and!; [done|done|clear -Hsub; set_solver|clear -Hsub; set_solver| |].
    + intros z Hz Hno. destruct (decide (z = x)) as [->|Hne].
      * split; [done|]. intros w Hw. apply Hdone, Hsibs. split; [|done]. apply (no_sibling _ _ Hnx) in Hw. lia.
      * apply Hcl; [done|clear -Hne Hno; set_solver].
    + intros z Hz Hno. destruct (decide (z = x)) as [->|Hne]; [done|]. apply Hal; [done|]. rewrite elem_of_union, elem_of_singleton. tauto.
Qed.
(** A slot that no next node has. *)
Definition free_slot (n : vlib_node) : Prop := vget (next_nodes n) s = None ∨ vget (next_nodes n) s = Some NONE.

Lemma vget_put n t :
  vget (next_nodes (put_next y s n)) t =
    if t =? s then Some y else if (zlen (next_nodes n) <=? t) && (t <? s) then Some NONE else vget (next_nodes n) t.
Proof.
  cbn. destruct (Z.eqb_spec t s) as [->|Hne]; [apply vget_vset_eq; rewrite zlen_validate; lia|]. rewrite vget_vset_ne by done.
  unfold vec_validate. pose proof (zlen_nonneg (next_nodes n)).
  destruct (Z.leb_spec (zlen (next_nodes n)) t); cbn [andb]; [|by rewrite vget_app_l by lia]. rewrite vget_app_r by lia.
  unfold vget at 1. destruct (Z.leb_spec 0 (t - zlen (next_nodes n))); [|lia]. destruct (Z.ltb_spec t s).
  - apply lookup_replicate_2. unfold zlen in *. lia.
  - rewrite (vget_out (next_nodes n)) by lia. apply lookup_ge_None. rewrite length_replicate. unfold zlen in *. lia.
Qed.

Lemma put_next_ok n z t :
  node_ok nodes0 n → next_slot_by_node n !! y = None → free_slot n →
  next_slot_by_node (put_next y s n) !! z = Some t ↔ vget (next_nodes (put_next y s n)) t = Some z ∧ z ≠ NONE.
Proof.
  intros Hn Hnone Hfree. pose proof (ns_len _ Hok). rewrite vget_put. cbn [put_next next_slot_by_node].
  destruct (decide (z = y)) as [->|Hzy]; [rewrite lookup_insert_eq|rewrite lookup_insert_ne by done].
  - split; [intros [= <-]; rewrite Z.eqb_refl; split; [done|lia]|]. intros [Ht _]. destruct (Z.eqb_spec t s) as [->|]; [done|].
    exfalso. destruct (_ && _); [injection Ht; lia|]. assert (next_slot_by_node n !! y = Some t) as Hs' by (apply (no_next _ _ Hn); split; [done|lia]).
    congruence.
  - rewrite (no_next _ _ Hn). split; intros [Ht Hz]; (split; [|done]).
    + destruct (Z.eqb_spec t s) as [->|]; [destruct Hfree; congruence|]. pose proof (vget_Some_range _ _ _ Ht).
      destruct (Z.leb_spec (zlen (next_nodes n)) t); [lia|done].
    + destruct (Z.eqb_spec t s) as [->|]; [congruence|]. destruct (_ && _); [congruence|done].
Qed.

Lemma tables_put n n' : tables n = tables n' → tables (put_next y s n) = tables (put_next y s n').
Proof. destruct n, n'. unfold tables. cbn. by intros [= -> ->]. Qed.

(** The graph after all siblings have the new next node. *)
Lemma added_ok x D nodes :
  added D nodes → closed ∅ D → alike x ∅ D → x ∈ D → 0 ≤ x < zlen nodes0 → s < u32_max →
  next_slot_by_node (velt node_0 nodes0 x) !! y = None → free_slot (velt node_0 nodes0 x) →
  nodes_ok nodes.
Proof.
  intros [Hl Hd] Hcl Hal HxD Hx Hs1 Hnone Hfree.
  assert (∀ z, 0 ≤ z < zlen nodes0 → node_ok nodes0 (velt node_0 nodes0 z)) as Hn0.
  { intros z Hz. apply (ns_node _ Hok z), vget_velt. lia. }
  assert (∀ z w, 0 ≤ z < zlen nodes0 → siblings nodes z w ↔ sib z w) as Hsib.
  { intros z w Hz. unfold siblings. by rewrite (proj1 (Hd z Hz)). }
  assert (∀ z w, 0 ≤ z < zlen nodes0 → sib z w → z ∈ D ↔ w ∈ D) as Hboth.
  { intros z w Hz Hzw. split; intros HD; (edestruct (Hcl _ HD) as [Hr Hc]; [by apply not_elem_of_empty|]).
    - by apply Hc.
    - by apply Hc, (ns_sym _ Hok). }
  constructor.
  - rewrite Hl. apply (ns_len _ Hok).
  - intros z n Hz. assert (0 ≤ z < zlen nodes0) as Hr by (rewrite <- Hl; by apply vget_Some_range in Hz).
    assert (n = velt node_0 nodes z) as -> by (unfold velt; by rewrite Hz). destruct (Hd z Hr) as [Hsb Ht].
    constructor; rewrite ?Hsb, ?Hl; [apply (no_wf _ _ (Hn0 z Hr))| |apply (no_sibling _ _ (Hn0 z Hr))|].
    + intros w t. unfold tables in Ht. destruct (decide (z ∈ D)) as [HzD|HzD]; injection Ht as -> ->; [|apply (no_next _ _ (Hn0 z Hr))].
      pose proof (rtc_tables x z Hx (Hal z HzD (not_elem_of_empty _))) as Hsame. unfold tables in Hsame. injection Hsame as Hn Hh.
      apply put_next_ok; [by apply Hn0|by rewrite Hh|unfold free_slot; by rewrite Hn].
    + unfold tables in Ht. pose proof (no_slots _ _ (Hn0 z Hr)). destruct (decide (z ∈ D)); injection Ht as -> _; [|done].
      rewrite zlen_vset, zlen_validate by lia. unfold u32_max, NONE, u64_max in *. lia.
  - intros z w Hz Hzw. rewrite Hl in Hz. apply Hsib in Hzw; [|done]. apply Hsib.
    + by apply (no_sibling _ _ (Hn0 z Hz)) in Hzw.
    + by apply (ns_sym _ Hok).
  - intros z w Hz Hzw. rewrite Hl in Hz. apply Hsib in Hzw; [|done]. pose proof (no_sibling _ _ (Hn0 z Hz) w Hzw) as Hw.
    rewrite (proj2 (Hd z Hz)), (proj2 (Hd w Hw)). pose proof (ns_same _ Hok z w Hz Hzw) as Hsame.
    destruct (decide (z ∈ D)) as [HD|HD].
    + rewrite decide_True by by rewrite <- (Hboth z w Hz Hzw). by apply tables_put.
    + rewrite decide_False by by rewrite <- (Hboth z w Hz Hzw). done.
Qed.
End add.

Lemma next_node_slot nodes x s y :
  nodes_ok nodes → next_node (NodeGraph := vlib_graph) nodes x s = Some y ↔
    0 ≤ x < zlen nodes ∧ next_slot_by_node (velt node_0 nodes x) !! y = Some s.
Proof.
  intros Hok. cbn. destruct (decide (0 ≤ x < zlen nodes)) as [Hx|Hx]; [|rewrite vget_out by lia; split; [done|tauto]].
  rewrite (vget_velt node_0) by done. cbn. rewrite (no_next _ _ (ns_node _ Hok x _ (vget_velt node_0 _ _ Hx))).
  destruct (vget (next_nodes _) s) as [y'|]; cbn; [|by split; [|intros (_ & ? & _)]].
  destruct (Z.eqb_spec y' NONE) as [->|]; (split; [intros [= <-]|intros (_ & [= ->] & ?)]; done).
Qed.

Lemma n_slots_in nodes x : 0 ≤ x < zlen nodes → n_slots (NodeGraph := vlib_graph) nodes x = zlen (next_nodes (velt node_0 nodes x)).
Proof. intros Hx. cbn. by rewrite (vget_velt node_0). Qed.

Lemma next_node_in nodes x s : 0 ≤ x < zlen nodes →
  next_node (NodeGraph := vlib_graph) nodes x s = vget (next_nodes (velt node_0 nodes x)) s ≫= λ y, if y =? NONE then None else Some y.
Proof. intros Hx. cbn. by rewrite (vget_velt node_0). Qed.

Lemma same_slots_list nodes nodes' x x' :
  0 ≤ x < zlen nodes → 0 ≤ x' < zlen nodes' → next_nodes (velt node_0 nodes x) = next_nodes (velt node_0 nodes' x') →
  same_slots (H := vlib_graph) nodes nodes' x x'.
Proof.
  intros Hx Hx' Heq. unfold same_slots. cbn. rewrite !(vget_velt node_0) by done. cbn. by rewrite Heq.
Qed.

Lemma same_slots_out nodes nodes' x :
  ¬ 0 ≤ x < zlen nodes → zlen nodes' = zlen nodes → same_slots (H := vlib_graph) nodes nodes' x x.
Proof. intros Hx Hl. unfold same_slots. cbn. by rewrite !vget_out by lia. Qed.

#[export] Program Instance vlib_graph_laws : NodeGraphLaws vlib_graph := {
  graph_ok := nodes_ok;
}.
Next Obligation.
  intros g x s s' y Hok H1 H2. apply next_node_slot in H1 as [_ H1]; [|done]. apply next_node_slot in H2 as [_ H2]; [|done]. congruence.
Qed.
Next Obligation.
  intros g x s y Hok H. apply next_node_slot in H as [Hx H]; [|done]. cbn. rewrite (vget_velt node_0) by done.
  apply (no_next _ _ (ns_node _ Hok x _ (vget_velt node_0 _ _ Hx))) in H as [H _]. by apply vget_Some_range in H.
Qed.
Next Obligation.
  intros g x y Hok Hx Hy Hslots. change (0 ≤ x < zlen g) in Hx. change (0 ≤ y < zlen g) in Hy. rewrite n_slots_in in Hslots |- * by done.
  destruct (next_slot_by_node (velt node_0 g x) !! y) as [p|] eqn:Hp.
  - pose proof Hp as Hnext. apply (no_next _ _ (ns_node _ Hok x _ (vget_velt node_0 _ _ Hx))) in Hnext as [Hnext _].
    apply vget_Some_range in Hnext. exists g, p. split_and!; [|done|done|done| |lia| |].
    + cbn. unfold add_next. cbn [vlib_node_add_next_with_slot].
      rewrite !(vget_velt node_0) by done. cbn [mbind option_bind]. by rewrite Hp.
    + by apply next_node_slot.
    + left. split; [by apply next_node_slot|done].
    + intros z. by left.
  - assert (zlen (next_nodes (velt node_0 g x)) < NONE) as Hbig by (unfold u32_max, NONE, u64_max in *; lia).
    pose proof (zlen_nonneg (next_nodes (velt node_0 g x))) as Hnn.
    destruct (add_all g Hok y (zlen (next_nodes (velt node_0 g x))) Hy ltac:(lia) (S (length g)) x NONE ∅ g) as
      (g' & D & Hadd & Hd & _ & HxD & Hcl & Hal); [apply added_start; (done || lia)|done|done| |by intros z ?%not_elem_of_empty|lia|].
    { right. split; [apply not_elem_of_empty|by right]. }
    assert (free_slot (zlen (next_nodes (velt node_0 g x))) (velt node_0 g x)) as Hfree by (left; apply vget_out; lia).
    pose proof (added_ok g Hok y (zlen (next_nodes (velt node_0 g x))) Hy ltac:(lia) x D g' Hd Hcl Hal HxD Hx Hslots Hp Hfree) as Hok'.
    destruct Hd as [Hl Hd]. pose proof (proj2 (Hd x Hx)) as Ht. rewrite decide_True in Ht by done.
    assert (∀ a, sibling_bitmap (velt node_0 g' a) = sibling_bitmap (velt node_0 g a)) as Hsib.
    { intros a. destruct (decide (0 ≤ a < zlen g)) as [Ha|Ha]; [by apply Hd|]. by rewrite !velt_out by lia. }
    pose proof (f_equal fst Ht) as Hn. pose proof (f_equal snd Ht) as Hh. cbn [tables fst snd] in Hn, Hh.
    exists g', (zlen (next_nodes (velt node_0 g x))). split_and!; [done|done|by cbn; rewrite Hl| | |lia| |].
    + intros z w. cbn. split; apply rtc_subrel; intros a b; unfold siblings; by rewrite Hsib.
    + apply (next_node_slot g' x _ y Hok'). rewrite Hl, Hh. split; [done|]. cbn. by rewrite lookup_insert_eq.
    + right. split_and!; [|done| |].
      * intros s' Hs'. apply (next_node_slot g x s' y Hok) in Hs' as [_ Hs']. congruence.
      * rewrite n_slots_in, Hn by lia. cbn. rewrite zlen_vset, zlen_validate by lia. lia.
      * intros s' Hs'. rewrite !next_node_in, Hn, vget_put by (done || lia). destruct (Z.eqb_spec s' (zlen (next_nodes (velt node_0 g x)))); [done|].
        case_cond; [lia|done].
    + intros z. destruct (decide (0 ≤ z < zlen g)) as [Hz|Hz]; [|left; apply same_slots_out; [lia|lia]].
      destruct (decide (z ∈ D)) as [HD|HD].
      * right. pose proof (rtc_tables g Hok x z Hx (Hal z HD (not_elem_of_empty _))) as Hsame. pose proof (proj2 (Hd z Hz)) as Hz'. rewrite decide_True in Hz' by done.
        rewrite (tables_put y _ _ _ Hsame) in Hz'. unfold tables in Hsame, Hz'. injection Hsame as Hzn _. injection Hz' as Hzn' _.
        split_and!; [by apply (Hal z HD (not_elem_of_empty _))|apply same_slots_list; [lia|lia|done]|].
        apply same_slots_list; [lia|lia|]. by rewrite Hzn', Hn.
      * left. pose proof (proj2 (Hd z Hz)) as Hz'. rewrite decide_False in Hz' by done. injection Hz' as Hz' _. apply same_slots_list; [lia|lia|done].
Qed.

End Graph.
