(* ===== verification/HeapAlloc.v ===== *)
(** * What the users of a heap of words rely on

    The class [HeapAlloc] has the operations of vppinfra/heap.h on a heap of 32-bit words, and [HeapAllocLaws] the laws.
    Config is a user; HeapSystem shows that the heap of vppinfra has the laws. *)

From stdpp Require Import gmap.
From S2P Require Import Prelude.
Open Scope Z_scope.

(** A heap: a vector of words and blocks in it.  A block is found by its handle. *)
Class HeapAlloc := {
  heap : Type;
  heap_empty : heap;
  heap_words : heap → list Z;
  heap_blocks : heap → gmap Z (Z * Z);
  heap_store : heap → Z → Z → heap;
  heap_alloc : heap → Z → option (heap * Z * Z);
  heap_dealloc : heap → Z → option heap;
}.

(** The words of a block. *)
Definition block `{HeapAlloc} (h : heap) (o n : Z) : list Z := take (Z.to_nat n) (drop (Z.to_nat o) (heap_words h)).

Class HeapAllocLaws (Heap : HeapAlloc) := {
  heap_ok : heap → Prop;
  (** The largest block, and the largest number of words. *)
  heap_max_size : Z;
  heap_limit : Z;
  heap_limit_small : heap_limit < 2 ^ 32;
  heap_max_nonneg : 0 ≤ heap_max_size;
  heap_empty_ok : heap_ok heap_empty ∧ heap_blocks heap_empty = ∅ ∧ heap_words heap_empty = [];
  heap_block_range h k o n : heap_ok h → heap_blocks h !! k = Some (o, n) → 0 ≤ o ∧ 0 < n ∧ o + n ≤ zlen (heap_words h);
  heap_block_disjoint h k o n k' o' n' : heap_ok h → heap_blocks h !! k = Some (o, n) → heap_blocks h !! k' = Some (o', n') →
    k ≠ k' → o + n ≤ o' ∨ o' + n' ≤ o;
  heap_store_ok h k o n i x : heap_ok h → heap_blocks h !! k = Some (o, n) → o ≤ i < o + n →
    heap_ok (heap_store h i x) ∧ heap_blocks (heap_store h i x) = heap_blocks h ∧
    heap_words (heap_store h i x) = vset (heap_words h) i x;
  heap_alloc_ok h n : heap_ok h → 0 < n ≤ heap_max_size → zlen (heap_words h) + n ≤ heap_limit →
    ∃ h' o k, heap_alloc h n = Some (h', o, k) ∧ heap_ok h' ∧ heap_blocks h !! k = None ∧
      heap_blocks h' = <[k := (o, n)]> (heap_blocks h) ∧ zlen (heap_words h') ≤ zlen (heap_words h) + n ∧
      ∀ k' o' n', heap_blocks h !! k' = Some (o', n') → block h' o' n' = block h o' n';
  heap_dealloc_ok h k b : heap_ok h → heap_blocks h !! k = Some b →
    ∃ h', heap_dealloc h k = Some h' ∧ heap_ok h' ∧ heap_blocks h' = delete k (heap_blocks h) ∧
      zlen (heap_words h') ≤ zlen (heap_words h) ∧
      ∀ k' o' n', k' ≠ k → heap_blocks h !! k' = Some (o', n') → block h' o' n' = block h o' n';
}.
