(* ===== verification/Config.v ===== *)
(** * The configurations of feature arcs (vnet/config.c, vnet/config.h)

    A configuration is a sorted vector of features.  It is written as a string of words, the slot of the next node
    before the data of each feature, into a heap, where packets read it as they go from node to node.
    Equal strings are shared and counted.  The graph is a [NodeGraph]; the heap
    of vppinfra is the class [HeapAlloc], [qsort] of the C library is the class [Qsort]. *)

From stdpp Require Import gmap strings sorting.
From S2P Require Import Prelude Bitmap Pool Graph HeapAlloc.
Open Scope Z_scope.

(** ** The interfaces *)

(** [qsort] of the C library, here of a type with the difference of [Z] keys as its comparison. *)
Class Qsort := { qsort : ∀ {A}, (A → Z) → list A → list A }.
Class QsortLaws (Sort : Qsort) := {
  qsort_perm {A} (f : A → Z) l : qsort f l ≡ₚ l;
  qsort_sorted {A} (f : A → Z) l : Sorted (λ a b, f a ≤ f b) (qsort f l);
}.

Module Config.
Import ClibPool.

Section config.
Context `{Heap : HeapAlloc} `{Net : NodeGraph} `{Sort : Qsort}.

(** ** The code *)

Record vnet_config_feature := Feature {
  feature_index : Z;
  node_index : Z;
  next_index : Z;
  feature_config : list Z;
}.

Record vnet_config := Config {
  features : list vnet_config_feature;
  config_string_vector : list Z;
  config_string_heap_index : Z;
  config_string_heap_handle : Z;
  index : Z;
  reference_count : Z;
}.

Record vnet_config_main := ConfigMain {
  config_pool : pool vnet_config;
  config_string_hash : gmap (list Z) Z;
  config_string_heap : heap;
  start_node_indices : list Z;
  end_node_index : Z;
  node_index_by_feature_index : list Z;
  config_pool_index_by_user_index : list Z;
}.

Definition config_0 : vnet_config := Config [] [] 0 0 0 0.

(** [~0] for an index that stands for nothing. *)
Definition NO_INDEX : Z := u32_max.

Definition set_next (next : Z) (f : vnet_config_feature) : vnet_config_feature :=
  Feature (feature_index f) (node_index f) next (feature_config f).
Definition set_refs (n : Z) (c : vnet_config) : vnet_config :=
  Config (features c) (config_string_vector c) (config_string_heap_index c) (config_string_heap_handle c) (index c) n.
Definition set_pool (p : pool vnet_config) (cm : vnet_config_main) : vnet_config_main :=
  ConfigMain p (config_string_hash cm) (config_string_heap cm) (start_node_indices cm) (end_node_index cm)
    (node_index_by_feature_index cm) (config_pool_index_by_user_index cm).
Definition set_hash (h : gmap (list Z) Z) (cm : vnet_config_main) : vnet_config_main :=
  ConfigMain (config_pool cm) h (config_string_heap cm) (start_node_indices cm) (end_node_index cm)
    (node_index_by_feature_index cm) (config_pool_index_by_user_index cm).
Definition set_heap (h : heap) (cm : vnet_config_main) : vnet_config_main :=
  ConfigMain (config_pool cm) (config_string_hash cm) h (start_node_indices cm) (end_node_index cm)
    (node_index_by_feature_index cm) (config_pool_index_by_user_index cm).
Definition set_users (l : list Z) (cm : vnet_config_main) : vnet_config_main :=
  ConfigMain (config_pool cm) (config_string_hash cm) (config_string_heap cm) (start_node_indices cm) (end_node_index cm)
    (node_index_by_feature_index cm) l.

(** [by_name] is the lookup of nodes.  The node of the last feature ends the arc; a feature without a node is [~0]. *)
Definition vnet_config_init (by_name : string → option Z) (start_node_names feature_node_names : list string)
    : option vnet_config_main :=
  if negb (1 <=? zlen feature_node_names) then None
  else
    starts ← mapM by_name start_node_names;
    let nodes := map (λ name, default NO_INDEX (by_name name)) feature_node_names in
    Some (ConfigMain pool_null ∅ heap_empty starts (default 0 (last feature_node_names ≫= by_name)) nodes []).

(** The loop of [add_next] over the start nodes: the first slot, which the others must agree on. *)
Fixpoint add_to_starts (g : graph) (starts : list Z) (this_node_index ni : Z) : option (graph * Z) :=
  match starts with
  | [] => Some (g, ni)
  | x :: starts =>
      out ← vlib_node_add_next g x this_node_index;
      let ni := if ni =? NO_INDEX then u32 out.2 else ni in
      if negb (ni =? u32 out.2) then None else add_to_starts out.1 starts this_node_index ni
  end.

Definition add_next (cm : vnet_config_main) (g : graph) (last_node_index this_node_index : Z) : option (graph * Z) :=
  if negb (last_node_index =? NO_INDEX) then
    out ← vlib_node_add_next g last_node_index this_node_index;
    Some (out.1, u32 out.2)
  else add_to_starts g (start_node_indices cm) this_node_index NO_INDEX.

(** The loop over the features: the features with their slots, the string and the last node. *)
Fixpoint connect_features (cm : vnet_config_main) (g : graph) (last_node_index : Z) (fs : list vnet_config_feature)
    : option (graph * list vnet_config_feature * list Z * Z) :=
  match fs with
  | [] => Some (g, [], [], last_node_index)
  | f :: fs =>
      out ← add_next cm g last_node_index (node_index f);
      rest ← connect_features cm out.1 (node_index f) fs;
      let '(g, fs, s, last) := rest in
      Some (g, set_next out.2 f :: fs, out.2 :: feature_config f ++ s, last)
  end.

(** A loop of stores. *)
Definition copy_words (h : heap) (o : Z) (l : list Z) : heap := (foldl (λ hi x, (heap_store hi.1 hi.2 x, hi.2 + 1)) (h, o) l).1.

(** The string that is looked for, with the slot of the end node unless the last feature is there. *)
Definition make_string (cm : vnet_config_main) (g : graph) (fs : list vnet_config_feature)
    : option (graph * list vnet_config_feature * list Z) :=
  out ← connect_features cm g NO_INDEX fs;
  let '(g, fs, s, last) := out in
  out ← (if (last =? NO_INDEX) || negb (last =? end_node_index cm)
         then e ← add_next cm g last (end_node_index cm); Some (e.1, s ++ [e.2]) else Some (g, s));
  Some (out.1, fs, out.2).

(** Returns the index of the configuration in the pool. *)
Definition find_config_with_features (cm : vnet_config_main) (g : graph) (fs : list vnet_config_feature)
    : option (vnet_config_main * graph * Z) :=
  out ← make_string cm g fs;
  let '(g, fs, config_string) := out in
  match config_string_hash cm !! config_string with
  | Some i => if pool_is_free_index (config_pool cm) i then None else Some (cm, g, i)
  | None =>
      let '(p, c) := pool_get config_0 (config_pool cm) in
      a ← heap_alloc (config_string_heap cm) (zlen config_string + 1);
      let '(h, o, handle) := a in
      let h := copy_words (heap_store h o c) (o + 1) config_string in
      let p := pool_set p c (Config fs config_string o handle c 0) in
      Some (set_hash (<[config_string := c]> (config_string_hash cm)) (set_heap h (set_pool p cm)), g, c)
  end.

(** [None] is the failed assertion that the count is positive. *)
Definition remove_reference (cm : vnet_config_main) (i : Z) : option vnet_config_main :=
  c ← pool_elt_at_index (config_pool cm) i;
  if negb (0 <? reference_count c) then None
  else
    let n := u32 (reference_count c - 1) in
    let p := pool_set (config_pool cm) i (set_refs n c) in
    if n =? 0 then
      h ← heap_dealloc (config_string_heap cm) (config_string_heap_handle c);
      Some (set_hash (delete (config_string_vector c) (config_string_hash cm)) (set_heap h (set_pool (pool_put_index p i) cm)))
    else Some (set_pool p cm).

Definition vnet_get_config_heap (cm : vnet_config_main) (ci : Z) : option Z := vget (heap_words (config_string_heap cm)) ci.

(** The configuration of a user: the word before its index holds the pool index. *)
Definition config_of_user (cm : vnet_config_main) (ci : Z) : option (Z * vnet_config) :=
  i ← vnet_get_config_heap cm (ci - 1);
  c ← pool_elt_at_index (config_pool cm) i;
  Some (i, c).

(** The count of a configuration that got a user, and the index that the user keeps. *)
Definition take_reference (cm : vnet_config_main) (i : Z) : option (vnet_config_main * Z) :=
  c ← pool_elt_at_index (config_pool cm) i;
  let cm := set_pool (pool_set (config_pool cm) i (set_refs (u32 (reference_count c + 1)) c)) cm in
  let ci := u32 (config_string_heap_index c + 1) in
  Some (set_users (vset (vec_validate 0 (config_pool_index_by_user_index cm) ci) ci i) cm, ci).

(** The data of a feature is a vector of words: [n_feature_config_bytes] is taken for a multiple of 4. *)
Definition vnet_config_add_feature (cm : vnet_config_main) (g : graph) (ci fi : Z) (data : list Z)
    : option (vnet_config_main * graph * Z) :=
  node_index ← vget (node_index_by_feature_index cm) fi;
  if node_index =? NO_INDEX then Some (cm, g, ci)
  else
    old ← (if ci =? NO_INDEX then Some None
           else c ← config_of_user cm ci; Some (Some c));
    let new_features := match old with Some (_, c) => features c | None => [] end ++ [Feature fi node_index 0 data] in
    let new_features := if 1 <? zlen new_features then qsort feature_index new_features else new_features in
    cm ← (match old with Some (i, _) => remove_reference cm i | None => Some cm end);
    out ← find_config_with_features cm g new_features;
    let '(cm, g, i) := out in
    out ← take_reference cm i;
    Some (out.1, g, out.2).

(** The position of the first feature with this index and this data. *)
Definition same_feature (fi : Z) (data : list Z) (f : vnet_config_feature) : bool :=
  (feature_index f =? fi) && bool_decide (feature_config f = data).

Definition vnet_config_del_feature (cm : vnet_config_main) (g : graph) (ci fi : Z) (data : list Z)
    : option (vnet_config_main * graph * Z) :=
  old ← config_of_user cm ci;
  let '(i, c) := old in
  match list_find (λ f, same_feature fi data f = true) (features c) with
  | None => Some (cm, g, ci)
  | Some (k, _) =>
      let new_features := list_delete k (features c) in
      cm ← remove_reference cm i;
      out ← find_config_with_features cm g new_features;
      let '(cm, g, i) := out in
      out ← take_reference cm i;
      Some (out.1, g, out.2)
  end.

(** The data of this feature, the slot of the next node, and the index for the next node. *)
Definition vnet_get_config_data (cm : vnet_config_main) (config_index n : Z) : option (list Z * Z * Z) :=
  next ← vget (heap_words (config_string_heap cm)) (config_index + n);
  Some (block (config_string_heap cm) config_index n, next, u32 (config_index + n + 1)).
End config.

End Config.
