(* ===== verification/ConfigHeap.v ===== *)
(** * Blocks of the heap of configurations

    What stores into a block do to the block and to the others, from the laws of [HeapAlloc]. *)

From stdpp Require Import gmap sorting.
From S2P Require Import Prelude Bitmap Pool Graph HeapAlloc Config.
Open Scope Z_scope.

Module ConfigHeap.
Import Config.

Section blocks.
Context {Heap : HeapAlloc} {HL : HeapAllocLaws Heap}.
Implicit Types (h : heap) (l : list Z).

Lemma block_lookup h o n k :
  0 ≤ o → block h o n !! k = if decide (Z.of_nat k < n) then vget (heap_words h) (o + Z.of_nat k) else None.
Proof.
  intros Ho. unfold block. case_decide as Hk.
  - rewrite lookup_take_lt by lia. rewrite lookup_drop. unfold vget. destruct (Z.leb_spec 0 (o + Z.of_nat k)); [|lia]. f_equal. lia.
  - apply lookup_take_ge. lia.
Qed.

Lemma block_ext h h' o n :
  0 ≤ o → (∀ j, o ≤ j < o + n → vget (heap_words h') j = vget (heap_words h) j) → block h' o n = block h o n.
Proof.
  intros Ho Heq. apply list_eq. intros k. rewrite !block_lookup by done. case_decide; [|done]. apply Heq. lia.
Qed.

(** The word at the start of a block, and a later one. *)
Lemma block_word h o n l k x : 0 ≤ o → block h o n = l → l !! k = Some x → vget (heap_words h) (o + Z.of_nat k) = Some x.
Proof. intros Ho <- Hk. rewrite block_lookup in Hk by done. by case_decide. Qed.

(** A loop of stores inside of a block. *)
Lemma copy_words_ok h k o n p l :
  heap_ok h → heap_blocks h !! k = Some (o, n) → o ≤ p → p + zlen l ≤ o + n →
  let h' := copy_words h p l in
  heap_ok h' ∧ heap_blocks h' = heap_blocks h ∧ zlen (heap_words h') = zlen (heap_words h) ∧
  (∀ j, j < p ∨ p + zlen l ≤ j → vget (heap_words h') j = vget (heap_words h) j) ∧
  ∀ i x, l !! i = Some x → vget (heap_words h') (p + Z.of_nat i) = Some x.
Proof.
  unfold copy_words. revert h p. induction l as [|x l IH]; intros h p Hok Hb Hp Hl; cbn [foldl fst snd].
  - by split_and!.
  - rewrite zlen_cons in *. pose proof (zlen_nonneg l). destruct (heap_block_range h k o n Hok Hb) as (Ho & _ & Hr).
    destruct (heap_store_ok h k o n p x Hok Hb ltac:(lia)) as (Hok1 & Hb1 & Hw1).
    destruct (IH (heap_store h p x) (p + 1) Hok1) as (Hok2 & Hb2 & Hz2 & Hsame & Hnew); [by rewrite Hb1|lia|lia|]. split_and!; [done|by rewrite Hb2| | |].
    + by rewrite Hz2, Hw1, zlen_vset.
    + intros j Hj. rewrite Hsame by lia. rewrite Hw1. apply vget_vset_ne. lia.
    + intros [|i] y Hi.
      * cbn in Hi. injection Hi as ->. rewrite Z.add_0_r, Hsame by lia. rewrite Hw1. apply vget_vset_eq. lia.
      * replace (p + Z.of_nat (S i)) with (p + 1 + Z.of_nat i) by lia. by apply Hnew.
Qed.

(** An allocated block is filled, and the other blocks keep their words. *)
Lemma fill_block h n l h' o k x :
  heap_ok h → 0 < n ≤ heap_max_size → zlen (heap_words h) + n ≤ heap_limit → n = zlen l + 1 → heap_alloc h n = Some (h', o, k) →
  let h2 := copy_words (heap_store h' o x) (o + 1) l in
  heap_ok h2 ∧ heap_blocks h !! k = None ∧ heap_blocks h2 = <[k := (o, n)]> (heap_blocks h) ∧
  zlen (heap_words h2) ≤ zlen (heap_words h) + n ∧ block h2 o n = x :: l ∧ 0 ≤ o ∧ o + n ≤ zlen (heap_words h2) ∧
  ∀ k' o' n', heap_blocks h !! k' = Some (o', n') → block h2 o' n' = block h o' n'.
Proof.
  intros Hok Hn Hlim -> Heq. destruct (heap_alloc_ok h (zlen l + 1) Hok Hn Hlim) as (h1 & o1 & k1 & Heq1 & Hok1 & Hfresh & Hb1 & Hz1 & Hsame1).
  rewrite Heq in Heq1. injection Heq1 as <- <- <-. assert (heap_blocks h' !! k = Some (o, zlen l + 1)) as Hk by (by rewrite Hb1, lookup_insert_eq).
  destruct (heap_block_range h' k _ _ Hok1 Hk) as (Ho & _ & Hr). pose proof (zlen_nonneg l).
  destruct (heap_store_ok h' k o (zlen l + 1) o x Hok1 Hk ltac:(lia)) as (Hok2 & Hb2 & Hw2).
  destruct (copy_words_ok (heap_store h' o x) k o (zlen l + 1) (o + 1) l Hok2) as (Hok3 & Hb3 & Hz3 & Hsame3 & Hnew3); [by rewrite Hb2|lia|lia|].
  cbn zeta. rewrite Hw2, zlen_vset in Hz3. split_and!; [done|done|by rewrite Hb3, Hb2|lia| |done|lia|].
  - apply list_eq. intros [|i].
    + rewrite block_lookup by done. rewrite decide_True by lia. rewrite Z.add_0_r, Hsame3 by lia. rewrite Hw2. apply vget_vset_eq. lia.
    + cbn. rewrite block_lookup by done. case_decide as Hi.
      * destruct (lookup_lt_is_Some_2 l i) as [y Hy]; [unfold zlen in *; lia|]. replace (o + Z.of_nat (S i)) with (o + 1 + Z.of_nat i) by lia. by rewrite (Hnew3 i y Hy).
      * symmetry. apply lookup_ge_None. unfold zlen in *. lia.
  - intros k' o' n' Hk'. rewrite <- (Hsame1 k' o' n' Hk').
    assert (heap_blocks h' !! k' = Some (o', n')) as Hk1 by (rewrite Hb1, lookup_insert_ne; [done|congruence]).
    destruct (heap_block_range h' k' _ _ Hok1 Hk1) as (Ho' & _). assert (k ≠ k') as Hne by congruence.
    pose proof (heap_block_disjoint h' _ _ _ _ _ _ Hok1 Hk Hk1 Hne). apply block_ext; [done|]. intros j Hj.
    rewrite Hsame3 by lia. rewrite Hw2. apply vget_vset_ne. lia.
Qed.
End blocks.

End ConfigHeap.
