(* ===== verification/ConfigWire.v ===== *)
(** * Strings of a configuration and the graph

    [wired] says what a string of a configuration is: slots that lead from the start nodes through the nodes of the
    features to the end node, each before the data of its node.  [find_config_with_features] makes such strings, they stay
    wired when the graph grows, and they determine the features. *)

From stdpp Require Import gmap sorting.
From S2P Require Import Prelude Bitmap Pool Graph HeapAlloc Config.
Open Scope Z_scope.

Module ConfigWire.
Import ClibPool Config.

Section wire.
Context {Heap : HeapAlloc} {HL : HeapAllocLaws Heap} {Net : NodeGraph} {NL : NodeGraphLaws Net}.
Implicit Types (cm : vnet_config_main) (g : graph) (f : vnet_config_feature) (fs : list vnet_config_feature).

(** The nodes of an arc: one for each feature at most, and the last feature is at its end. *)
Record arc_ok cm : Prop := {
  ao_starts : start_node_indices cm ≠ [];
  ao_inj i j x : vget (node_index_by_feature_index cm) i = Some x → vget (node_index_by_feature_index cm) j = Some x →
    x ≠ NO_INDEX → i = j;
  ao_last i : vget (node_index_by_feature_index cm) i = Some (end_node_index cm) → i = zlen (node_index_by_feature_index cm) - 1;
  ao_end : end_node_index cm ≠ NO_INDEX;
}.

(** The nodes in the arc after its start. *)
Definition inner cm y : Prop := y = end_node_index cm ∨ (y ≠ NO_INDEX ∧ ∃ i, vget (node_index_by_feature_index cm) i = Some y).

(** The start nodes have the same slots, and none of them is a sibling of an inner node. *)
Record net_ok cm g : Prop := {
  no_graph : graph_ok g;
  no_starts x : x ∈ start_node_indices cm → is_node g x;
  no_inner y : inner cm y → is_node g y;
  no_agree x x' : x ∈ start_node_indices cm → x' ∈ start_node_indices cm → same_slots g g x x';
  no_apart x y : x ∈ start_node_indices cm → inner cm y → ¬ sibling g y x;
}.

Definition slots_below g (N : Z) : Prop := ∀ x, n_slots g x ≤ N.

Definition grows g g' : Prop := ∀ x s y, next_node g x s = Some y → next_node g' x s = Some y.

#[export] Instance grows_preorder : PreOrder grows.
Proof. split; [by intros g x s y|]. intros g1 g2 g3 H12 H23 x s y Hs. by apply H23, H12. Qed.

Lemma same_slots_sym g g' x x' : same_slots g g' x x' → same_slots g' g x' x.
Proof. intros [H1 H2]. by split. Qed.

Lemma same_slots_trans g1 g2 g3 x y z : same_slots g1 g2 x y → same_slots g2 g3 y z → same_slots g1 g3 x z.
Proof. intros [H1 H2] [H3 H4]. split; [by rewrite H1|]. intros s. by rewrite H2. Qed.

(** Adding a next node to one node. *)
Lemma add_one g x y N :
  graph_ok g → is_node g x → is_node g y → slots_below g N → N < u32_max →
  ∃ g' s, vlib_node_add_next g x y = Some (g', s) ∧ graph_ok g' ∧ (∀ z, is_node g' z ↔ is_node g z) ∧
    (∀ z w, sibling g' z w ↔ sibling g z w) ∧ next_node g' x s = Some y ∧ 0 ≤ s ≤ N ∧ grows g g' ∧ slots_below g' (N + 1) ∧
    (next_node g x s = Some y ∧ g' = g ∨
       (∀ s', next_node g x s' ≠ Some y) ∧ s = n_slots g x ∧ n_slots g' x = s + 1 ∧ ∀ s', s' ≠ s → next_node g' x s' = next_node g x s') ∧
    ∀ z, same_slots g g' z z ∨ (sibling g x z ∧ same_slots g g z x ∧ same_slots g' g' z x).
Proof.
  intros Hok Hx Hy HN Hmax. pose proof (HN x). destruct (add_next_ok g x y Hok Hx Hy ltac:(lia)) as
    (g' & s & Heq & Hok' & Hnode & Hsib & Hnext & Hs & Hcase & Hother).
  pose proof (next_node_bound _ _ _ _ Hok' Hnext).
  assert (∀ s' y', next_node g x s' = Some y' → next_node g' x s' = Some y') as Hx'.
  { destruct Hcase as [[_ ->]|(Hno & -> & _ & Hsame)]; [done|]. intros s' y' Hs'. rewrite Hsame; [done|].
    intros ->. apply next_node_bound in Hs'; [lia|done]. }
  exists g', s. split_and!; try done; [lia|lia| |].
  - intros z s' y' Hz. destruct (Hother z) as [[_ Hsame]|(_ & [_ H1] & [_ H2])]; [by rewrite <- Hsame|].
    rewrite H2. apply Hx'. by rewrite <- H1.
  - intros z. destruct (Hother z) as [[Hsame _]|(_ & [H1 _] & [H2 _])].
    + rewrite <- Hsame. pose proof (HN z). lia.
    + rewrite H2. destruct Hcase as [[_ ->]|(_ & -> & -> & _)]; [pose proof (HN x)|]; lia.
Qed.

(** The start nodes while one after the other gets a next node that they do not have: [z] has the slots of before or the new one. *)
Definition start_new g0 g y sl z : Prop :=
  n_slots g z = sl + 1 ∧ next_node g z sl = Some y ∧ ∀ s', s' ≠ sl → next_node g z s' = next_node g0 z s'.

Lemma add_to_starts_new cm g0 y sl starts g ni N :
  graph_ok g → (∀ z, z ∈ start_node_indices cm → is_node g z) → is_node g y → (∀ z, z ∈ starts → z ∈ start_node_indices cm) →
  (∀ z, z ∈ start_node_indices cm → n_slots g0 z = sl ∧ (∀ s', next_node g0 z s' ≠ Some y)) →
  (∀ z z', z ∈ start_node_indices cm → z' ∈ start_node_indices cm → same_slots g0 g0 z z') →
  (∀ z, z ∈ start_node_indices cm → same_slots g0 g z z ∨ start_new g0 g y sl z) →
  (∀ z, z ∈ start_node_indices cm → z ∉ starts → start_new g0 g y sl z) →
  (ni = NO_INDEX ∨ ni = sl) → (starts = [] → ni = sl) → 0 ≤ sl < u32_max →
  slots_below g N → N + zlen starts < u32_max →
  ∃ g', add_to_starts g starts y ni = Some (g', sl) ∧ graph_ok g' ∧ grows g g' ∧ (∀ z, is_node g' z ↔ is_node g z) ∧
    (∀ z w, sibling g' z w ↔ sibling g z w) ∧ slots_below g' (N + zlen starts) ∧
    ∀ z, z ∈ start_node_indices cm → start_new g0 g' y sl z.
Proof.
  revert g ni N. induction starts as [|x starts IH]; intros g ni N Hok Hst Hy Hin H0 Hagree Hstat Hdone Hni Hnil Hsl HN Hmax.
  { exists g. rewrite (Hnil eq_refl), zlen_nil, Z.add_0_r. split_and!; try done. intros z Hz. apply Hdone; [done|apply not_elem_of_nil]. }
  rewrite zlen_cons in *. pose proof (zlen_nonneg starts). assert (x ∈ start_node_indices cm) as Hx by (apply Hin; by left).
  destruct (add_one g x y N Hok (Hst x Hx) Hy HN ltac:(lia)) as (g' & s & Heq & Hok' & Hnode & Hsib & Hnext & Hsr & Hgr & HN' & Hcase & Hother).
  destruct (H0 x Hx) as [Hn0 Hno0].
  assert (s = sl ∧ start_new g0 g' y sl x) as [-> Hxnew].
  { destruct (Hstat x Hx) as [[Hsn Hss]|Hnew].
    - destruct Hcase as [[Hs _]|(_ & -> & Hlen & Hrest)]; [rewrite <- Hss in Hs; by apply Hno0 in Hs|].
      rewrite <- Hsn, Hn0 in *. split; [done|]. split_and!; [done..|]. intros s' Hs'. by rewrite Hrest, Hss.
    - destruct Hcase as [[Hs ->]|(Hno & _)]; [|by destruct Hnew as (_ & Hs & _); apply Hno in Hs].
      split; [|done]. destruct Hnew as (_ & Hs' & _). by apply (next_node_inj g x s sl y). }
  cbn [add_to_starts]. rewrite Heq. cbn [mbind option_bind fst snd].
  rewrite (u32_small sl) by (unfold in_u32; unfold u32_max in *; lia).
  replace (if ni =? NO_INDEX then sl else ni) with sl by (destruct Hni as [->| ->]; [done|by case_cond]).
  rewrite Z.eqb_refl. cbn [negb].
  assert (∀ z, z ∈ start_node_indices cm → same_slots g0 g' z z ∨ start_new g0 g' y sl z) as Hstat'.
  { intros z Hz. destruct (Hother z) as [[Hsn Hss]|(_ & _ & [Hsn Hss])].
    - destruct (Hstat z Hz) as [[H1 H2]|(H1 & H2 & H3)]; [left; split; [by rewrite H1|intros; by rewrite H2]|right].
      split_and!; [by rewrite <- Hsn|by rewrite <- Hss|]. intros s' Hs'. by rewrite <- Hss, H3.
    - right. destruct Hxnew as (H1 & H2 & H3). split_and!; [by rewrite Hsn|by rewrite Hss|]. intros s' Hs'.
      rewrite Hss, H3 by done. by apply (Hagree x z). }
  destruct (IH g' sl (N + 1)) as (g2 & Heq2 & Hok2 & Hgr2 & Hnode2 & Hsib2 & HN2 & Hall2); try done.
  - intros z Hz. by apply Hnode, Hst.
  - by apply Hnode.
  - intros z Hz. apply Hin. by right.
  - intros z Hz Hno. destruct (Hstat' z Hz) as [[Hsn Hss]|]; [|done]. destruct (decide (z = x)) as [->|Hne]; [done|].
    destruct (Hdone z Hz) as (H1 & H2 & H3); [by rewrite list.elem_of_cons; intros [?|?]|]. apply Hgr in H2. rewrite <- Hss in H2. by apply (proj2 (H0 z Hz)) in H2.
  - by right.
  - lia.
  - exists g2. split_and!; [done|done|by etrans| | | |done].
    + intros z. by rewrite Hnode2.
    + intros z w. by rewrite Hsib2.
    + intros z. pose proof (HN2 z). lia.
Qed.
(** ** One slot of a configuration *)

(** [last] and [y] are nodes: [NO_INDEX] stands for every start node. *)
Definition leads cm g (last s y : Z) : Prop :=
  if last =? NO_INDEX then ∀ x, x ∈ start_node_indices cm → next_node g x s = Some y else next_node g last s = Some y.

Lemma leads_grows cm g g' last s y : grows g g' → leads cm g last s y → leads cm g' last s y.
Proof. intros Hg. unfold leads. case_cond; intros H; [intros x Hx|]; by apply Hg; auto. Qed.

Lemma leads_det cm g last s y y' : start_node_indices cm ≠ [] → leads cm g last s y → leads cm g last s y' → y = y'.
Proof.
  intros Hne. unfold leads. case_cond; intros H1 H2; [|congruence]. destruct (start_node_indices cm) as [|x l]; [done|].
  specialize (H1 x ltac:(by left)). specialize (H2 x ltac:(by left)). congruence.
Qed.

Lemma inner_index cm y : arc_ok cm → inner cm y → y ≠ NO_INDEX.
Proof. intros Hao [->|[? _] ]; [apply (ao_end _ Hao)|done]. Qed.

Lemma net_ok_step cm g g' (starts : ∀ x x', x ∈ start_node_indices cm → x' ∈ start_node_indices cm → same_slots g' g' x x') :
  net_ok cm g → graph_ok g' → (∀ z, is_node g' z ↔ is_node g z) → (∀ z w, sibling g' z w ↔ sibling g z w) → net_ok cm g'.
Proof.
  intros Hn Hok Hnode Hsib. constructor; [done|..]; intros.
  - by apply Hnode, (no_starts _ _ Hn).
  - by apply Hnode, (no_inner _ _ Hn).
  - by apply starts.
  - rewrite Hsib. by apply (no_apart _ _ Hn).
Qed.

(** The bound on the slots that one step adds. *)
Definition step_slots cm : Z := 1 + zlen (start_node_indices cm).

Lemma step_slots_pos cm : 1 ≤ step_slots cm.
Proof. unfold step_slots. pose proof (zlen_nonneg (start_node_indices cm)). lia. Qed.

Lemma add_to_starts_old g y sl starts ni N :
  graph_ok g → (∀ z, z ∈ starts → is_node g z ∧ next_node g z sl = Some y) → is_node g y → slots_below g N → N < u32_max →
  (ni = NO_INDEX ∨ ni = sl) → (starts = [] → ni = sl) → 0 ≤ sl < u32_max → add_to_starts g starts y ni = Some (g, sl).
Proof.
  revert ni. induction starts as [|x starts IH]; intros ni Hok Hst Hy HN Hmax Hni Hnil Hsl; [by cbn; rewrite (Hnil eq_refl)|].
  destruct (Hst x) as [Hx Hnx]; [by left|]. destruct (add_one g x y N Hok Hx Hy HN Hmax) as (g' & s & Heq & _ & _ & _ & _ & _ & _ & _ & Hcase & _).
  destruct Hcase as [[Hs ->]|(Hno & _)]; [|by apply Hno in Hnx]. pose proof (next_node_inj _ _ _ _ _ Hok Hs Hnx) as ->.
  cbn [add_to_starts]. rewrite Heq. cbn [mbind option_bind fst snd]. rewrite (u32_small sl) by (unfold in_u32, u32_max in *; lia).
  replace (if ni =? NO_INDEX then sl else ni) with sl by (destruct Hni as [->| ->]; [done|by case_cond]).
  rewrite Z.eqb_refl. cbn [negb]. apply IH; try done; [|by right]. intros z Hz. apply Hst. by right.
Qed.

Lemma add_starts_ok cm g y N :
  arc_ok cm → net_ok cm g → inner cm y → slots_below g N → 0 ≤ N → N + step_slots cm < u32_max →
  ∃ g' s, add_to_starts g (start_node_indices cm) y NO_INDEX = Some (g', s) ∧ net_ok cm g' ∧ grows g g' ∧
    (∀ x, x ∈ start_node_indices cm → next_node g' x s = Some y) ∧ slots_below g' (N + step_slots cm).
Proof.
  intros Hao Hn Hy HN HN0 Hmax. unfold step_slots in *. pose proof (no_inner _ _ Hn y Hy) as Hyn. pose proof (no_graph _ _ Hn) as Hok.
  assert (∃ x, x ∈ start_node_indices cm) as [x Hx].
  { pose proof (ao_starts _ Hao). destruct (start_node_indices cm) as [|x l]; [done|]. exists x. by left. }
  pose proof (zlen_nonneg (start_node_indices cm)) as Hpos.
  destruct (add_one g x y N Hok (no_starts _ _ Hn x Hx) Hyn HN ltac:(lia)) as (g1 & s & _ & _ & _ & _ & _ & Hs & _ & _ & Hcase & _).
  destruct Hcase as [[Hold _]|(Hno & Hsl & _)].
  - assert (∀ z, z ∈ start_node_indices cm → next_node g z s = Some y) as Hall.
    { intros z Hz. by rewrite (proj2 (no_agree _ _ Hn z x Hz Hx)). }
    exists g, s. split_and!; [|done..|intros z; pose proof (HN z); lia].
    apply (add_to_starts_old g y s _ _ N); try done; [|lia|by left|by intros Hnil; rewrite Hnil in Hx; apply not_elem_of_nil in Hx|lia].
    intros z Hz. split; [by apply (no_starts _ _ Hn)|by apply Hall].
  - destruct (add_to_starts_new cm g y s (start_node_indices cm) g NO_INDEX N) as (g' & Heq & Hok' & Hgr & Hnode & Hsib & HN' & Hall);
      try done; [apply (no_starts _ _ Hn)| |apply (no_agree _ _ Hn)|by left|by left|by intros Hnil; rewrite Hnil in Hx; apply not_elem_of_nil in Hx|lia|lia|].
    + intros z Hz. destruct (no_agree _ _ Hn z x Hz Hx) as [H1 H2]. split; [by rewrite H1|]. intros s'. rewrite H2. apply Hno.
    + exists g', s. split_and!; [done| |done|by intros z Hz; apply Hall|intros z; pose proof (HN' z); lia].
      apply (net_ok_step cm g); try done. intros z z' Hz Hz'. destruct (Hall z Hz) as (H1 & H2 & H3), (Hall z' Hz') as (H1' & H2' & H3').
      split; [by rewrite H1, H1'|]. intros s'. destruct (decide (s' = s)) as [->|Hne]; [by rewrite H2, H2'|].
      rewrite H3, H3' by done. by apply (no_agree _ _ Hn).
Qed.

Lemma config_add_next_ok cm g last y N :
  arc_ok cm → net_ok cm g → (last = NO_INDEX ∨ inner cm last) → inner cm y → slots_below g N → 0 ≤ N → N + step_slots cm < u32_max →
  ∃ g' s, add_next cm g last y = Some (g', s) ∧ net_ok cm g' ∧ grows g g' ∧ leads cm g' last s y ∧ slots_below g' (N + step_slots cm).
Proof.
  intros Hao Hn Hlast Hy HN HN0 Hmax. unfold add_next, leads. pose proof (step_slots_pos cm). destruct (Z.eqb_spec last NO_INDEX) as [->|Hne]; cbn [negb].
  { by apply add_starts_ok. }
  destruct Hlast as [|Hlast]; [done|]. destruct (add_one g last y N (no_graph _ _ Hn) (no_inner _ _ Hn _ Hlast) (no_inner _ _ Hn _ Hy) HN ltac:(lia)) as
    (g' & s & -> & Hok' & Hnode & Hsib & Hnext & Hs & Hgr & HN' & _ & Hother).
  cbn [mbind option_bind fst snd]. rewrite u32_small by (unfold in_u32, u32_max in *; lia). exists g', s. split_and!; [done| |done|done|].
  - apply (net_ok_step cm g); try done. intros x x' Hx Hx'.
    assert (∀ z, z ∈ start_node_indices cm → same_slots g g' z z) as Hsame.
    { intros z Hz. destruct (Hother z) as [|(Hz' & _)]; [done|]. by apply (no_apart _ _ Hn z last) in Hz'. }
    apply (same_slots_trans _ g _ _ x); [by apply same_slots_sym, Hsame|]. apply (same_slots_trans _ g _ _ x'); [by apply (no_agree _ _ Hn)|by apply Hsame].
  - intros z. pose proof (HN' z). lia.
Qed.

(** ** Wired strings *)

Fixpoint wired cm g (last : Z) fs (str : list Z) : Prop :=
  match fs with
  | [] => if last =? end_node_index cm then str = [] else ∃ e, str = [e] ∧ leads cm g last e (end_node_index cm)
  | f :: fs => ∃ rest, str = next_index f :: feature_config f ++ rest ∧ leads cm g last (next_index f) (node_index f) ∧
                 wired cm g (node_index f) fs rest
  end.

Lemma wired_grows cm g g' last fs str : grows g g' → wired cm g last fs str → wired cm g' last fs str.
Proof.
  intros Hg. revert last str. induction fs as [|f fs IH]; intros last str; cbn.
  - case_cond; [done|]. intros (e & -> & He). exists e. split; [done|]. by apply (leads_grows cm g).
  - intros (rest & -> & Hl & Hr). exists rest. split; [done|]. split; [by apply (leads_grows cm g)|by apply IH].
Qed.

(** The features without the slots. *)
Definition feature_key f : Z * Z * list Z := (feature_index f, node_index f, feature_config f).

Lemma connect_ok cm fs g last N :
  arc_ok cm → net_ok cm g → (last = NO_INDEX ∨ inner cm last) → (∀ f, f ∈ fs → inner cm (node_index f)) →
  slots_below g N → 0 ≤ N → N + step_slots cm * zlen fs < u32_max →
  ∃ g' fs' str last', connect_features cm g last fs = Some (g', fs', str, last') ∧ net_ok cm g' ∧ grows g g' ∧
    slots_below g' (N + step_slots cm * zlen fs) ∧ map feature_key fs' = map feature_key fs ∧ (last' = NO_INDEX ∨ inner cm last') ∧
    ∀ g2 rest, grows g' g2 → wired cm g2 last' [] rest → wired cm g2 last fs' (str ++ rest).
Proof.
  intros Hao. revert g last N. induction fs as [|f fs IH]; intros g last N Hn Hlast Hin HN HN0 Hmax; cbn [connect_features].
  - exists g, [], [], last. rewrite zlen_nil, Z.mul_0_r, Z.add_0_r in *. by split_and!.
  - rewrite zlen_cons in *. pose proof (zlen_nonneg fs). pose proof (step_slots_pos cm).
    destruct (config_add_next_ok cm g last (node_index f) N) as (g1 & s & -> & Hn1 & Hg1 & Hl1 & HN1); try done; [apply Hin; by left|nia|].
    cbn [mbind option_bind fst snd].
    destruct (IH g1 (node_index f) (N + step_slots cm)) as (g2 & fs' & str & last' & -> & Hn2 & Hg2 & HN2 & Hkey & Hlast2 & Hw); try done;
      [right; apply Hin; by left|intros f' Hf'; apply Hin; by right|lia|nia|].
    cbn [mbind option_bind]. exists g2, (set_next s f :: fs'), (s :: feature_config f ++ str), last'. split_and!; try done.
    + by etrans.
    + intros z. pose proof (HN2 z). nia.
    + cbn. by rewrite Hkey.
    + intros g3 rest Hg3 Hrest. cbn. exists (str ++ rest). split; [by rewrite app_assoc|]. split; [|by apply Hw].
      apply (leads_grows cm g1); [by etrans|done].
Qed.

Lemma make_string_ok cm fs g N :
  arc_ok cm → net_ok cm g → (∀ f, f ∈ fs → inner cm (node_index f)) → slots_below g N → 0 ≤ N →
  N + step_slots cm * (zlen fs + 1) < u32_max →
  ∃ g' fs' str, make_string cm g fs = Some (g', fs', str) ∧ net_ok cm g' ∧ grows g g' ∧
    slots_below g' (N + step_slots cm * (zlen fs + 1)) ∧ map feature_key fs' = map feature_key fs ∧ wired cm g' NO_INDEX fs' str.
Proof.
  intros Hao Hn Hin HN HN0 Hmax. pose proof (zlen_nonneg fs). pose proof (step_slots_pos cm).
  destruct (connect_ok cm fs g NO_INDEX N) as (g1 & fs' & str & last & Heq & Hn1 & Hg1 & HN1 & Hkey & Hlast & Hw); try done; [by left|nia|].
  unfold make_string. rewrite Heq. cbn [mbind option_bind].
  destruct ((last =? NO_INDEX) || negb (last =? end_node_index cm)) eqn:Hend.
  - destruct (config_add_next_ok cm g1 last (end_node_index cm) (N + step_slots cm * zlen fs)) as (g2 & e & -> & Hn2 & Hg2 & Hl2 & HN2);
      try done; [by left|nia|nia|]. cbn [mbind option_bind fst snd]. exists g2, fs', (str ++ [e]). split_and!; try done.
    + by etrans.
    + intros z. pose proof (HN2 z). nia.
    + apply Hw; [done|]. cbn. destruct (Z.eqb_spec last (end_node_index cm)) as [->|Hne]; [|by exists e].
      cbn in Hend. rewrite orb_false_r in Hend. apply Z.eqb_eq in Hend. by destruct (ao_end _ Hao).
  - cbn [mbind option_bind fst snd]. exists g1, fs', str. split_and!; try done.
    + intros z. pose proof (HN1 z). nia.
    + rewrite <- (app_nil_r str). apply Hw; [done|]. cbn. apply orb_false_iff in Hend as [_ Hend]. by destruct (last =? end_node_index cm).
Qed.
(** ** What a string says *)

(** The words that a node reads. *)
Context (node_words : Z → Z).

Definition feature_ok cm f : Prop :=
  vget (node_index_by_feature_index cm) (feature_index f) = Some (node_index f) ∧ node_index f ≠ NO_INDEX ∧
  zlen (feature_config f) = node_words (node_index f).

Record features_ok cm fs : Prop := {
  fo_features : ∀ f, f ∈ fs → feature_ok cm f;
  fo_sorted : Sorted (λ a b, feature_index a ≤ feature_index b) fs;
}.

(** The features that packets meet, each with its data: those at the end node are left out. *)
Definition on_path cm fs : list vnet_config_feature := filter (λ f, node_index f ≠ end_node_index cm) fs.
Definition view cm fs : list (Z * list Z) := map (λ f, (feature_index f, feature_config f)) (on_path cm fs).

Lemma features_tail cm f fs : features_ok cm (f :: fs) → features_ok cm fs.
Proof. intros [Hf Hs]. constructor; [intros f' Hf'; apply Hf; by right|by inv Hs]. Qed.

Lemma all_at_end cm fs : (∀ f, f ∈ fs → node_index f = end_node_index cm) → view cm fs = [].
Proof.
  intros Hall. unfold view, on_path. induction fs as [|f fs IH]; [done|]. rewrite filter_cons_False; [|intros Hne; apply Hne, Hall; by left].
  apply IH. intros f' Hf'. apply Hall. by right.
Qed.

(** The end node has the largest index: what comes after it is at the end, too. *)
Lemma after_end cm f fs :
  arc_ok cm → features_ok cm (f :: fs) → node_index f = end_node_index cm → view cm (f :: fs) = [].
Proof.
  intros Hao [Hf Hs] Hend. apply all_at_end. intros f' [->|Hf']%list.elem_of_cons; [done|].
  destruct (Hf f ltac:(by left)) as (Hi & _). destruct (Hf f' ltac:(by right)) as (Hi' & _).
  pose proof Hi as Hlast. rewrite Hend in Hlast. apply (ao_last _ Hao) in Hlast. pose proof (vget_Some_range _ _ _ Hi') as Hr.
  assert (feature_index f ≤ feature_index f') as Hle.
  { apply Sorted_StronglySorted in Hs; [|intros x y z; lia]. inv Hs as [|? ? _ Hall]. rewrite list.Forall_forall in Hall. by apply Hall. }
  assert (feature_index f' = feature_index f) as Heq by lia. rewrite Heq in Hi'. congruence.
Qed.

Lemma view_cons cm f fs :
  view cm (f :: fs) = if decide (node_index f = end_node_index cm) then view cm fs else (feature_index f, feature_config f) :: view cm fs.
Proof.
  unfold view, on_path. case_decide as Hf; [by rewrite filter_cons_False by tauto|by rewrite filter_cons_True].
Qed.

(** A string of no features is one of features at the end only. *)
Lemma wired_nil_view cm g last f fs str :
  arc_ok cm → features_ok cm (f :: fs) → wired cm g last [] str → wired cm g last (f :: fs) str → view cm (f :: fs) = [].
Proof.
  intros Hao Hfs Hw (rest & -> & Hl & _). cbn in Hw. destruct (_ =? _); [done|]. destruct Hw as (e & Heq & He).
  injection Heq as <- _. apply after_end; [done..|]. symmetry. by eapply leads_det; [apply (ao_starts _ Hao)|..].
Qed.

(** The string determines the features on the path: two features of a string with the same slot are at the same node. *)
Lemma wired_view cm g last fs fs' str :
  arc_ok cm → features_ok cm fs → features_ok cm fs' → wired cm g last fs str → wired cm g last fs' str → view cm fs = view cm fs'.
Proof.
  intros Hao. pose proof (ao_starts _ Hao) as Hst. revert last fs' str.
  induction fs as [|f fs IH]; intros last fs' str Hfs Hfs' Hw Hw'.
  - destruct fs' as [|f' fs']; [done|]. symmetry. by eapply wired_nil_view.
  - destruct fs' as [|f' fs']; [by eapply wired_nil_view|]. destruct Hw as (rest & -> & Hl & Hw), Hw' as (rest' & Heq & Hl' & Hw').
    injection Heq as Hnext Hdata. rewrite <- Hnext in Hl'. pose proof (leads_det _ _ _ _ _ _ Hst Hl Hl') as Hnode.
    destruct (fo_features _ _ Hfs f ltac:(by left)) as (Hi & Hne & Hlen), (fo_features _ _ Hfs' f' ltac:(by left)) as (Hi' & _ & Hlen').
    rewrite <- Hnode in Hi', Hlen', Hw'. pose proof (ao_inj _ Hao _ _ _ Hi Hi' Hne) as Hidx.
    apply app_inj_1 in Hdata as [Hd Hr]; [|unfold zlen in *; lia]. subst rest'.
    rewrite !view_cons, <- Hnode, <- Hidx, <- Hd, (IH (node_index f) fs' rest); [done|by eapply features_tail|by eapply features_tail|done..].
Qed.

(** ** What packets meet *)

(** From node [x], which reads [n] words at the index, to the end node: the nodes, each with its data.  [None] if the end is not
    reached with the fuel. *)
Fixpoint walk (fuel : nat) cm g (x n ci : Z) : option (list (Z * list Z)) :=
  match fuel with
  | O => None
  | S fuel =>
      out ← vnet_get_config_data cm ci n;
      let '(data, slot, ci) := out in
      y ← next_node g x slot;
      if y =? end_node_index cm then Some [(x, data)]
      else rest ← walk fuel cm g y (node_words y) ci; Some ((x, data) :: rest)
  end.

Lemma leads_from cm g last x s y :
  last = NO_INDEX ∧ x ∈ start_node_indices cm ∨ last = x ∧ x ≠ NO_INDEX ∧ x ≠ end_node_index cm → leads cm g last s y → next_node g x s = Some y.
Proof.
  unfold leads. intros [[-> Hx]|(-> & Hne & _)]; [rewrite Z.eqb_refl; auto|]. by destruct (Z.eqb_spec x NO_INDEX).
Qed.

(** The string from an index on. *)
Definition reads cm (ci : Z) (str : list Z) : Prop := ∀ k x, str !! k = Some x → vget (heap_words (config_string_heap cm)) (ci + Z.of_nat k) = Some x.

Lemma reads_app cm ci s1 s2 : reads cm ci (s1 ++ s2) → reads cm (ci + zlen s1) s2.
Proof.
  intros H k x Hk. replace (ci + zlen s1 + Z.of_nat k) with (ci + Z.of_nat (length s1 + k)) by (unfold zlen; lia).
  apply H. rewrite lookup_app_r by lia. by replace (length s1 + k - length s1)%nat with k by lia.
Qed.

Lemma reads_block cm ci s1 s2 : 0 ≤ ci → reads cm ci (s1 ++ s2) → block (config_string_heap cm) ci (zlen s1) = s1.
Proof.
  intros Hci H. unfold block. apply list_eq. intros k. destruct (decide (k < length s1)%nat) as [Hk|Hk].
  - rewrite lookup_take_lt by (unfold zlen; lia). rewrite lookup_drop. destruct (lookup_lt_is_Some_2 s1 k Hk) as [x Hx].
    specialize (H k x). rewrite lookup_app_l in H by done. specialize (H Hx). rewrite Hx, <- H. unfold vget.
    destruct (Z.leb_spec 0 (ci + Z.of_nat k)); [|lia]. f_equal. lia.
  - rewrite lookup_take_ge by (unfold zlen; lia). symmetry. apply lookup_ge_None. lia.
Qed.

Lemma get_data_ok cm ci data slot rest :
  0 ≤ ci → ci + zlen data + 1 < 2 ^ 32 → reads cm ci (data ++ slot :: rest) →
  vnet_get_config_data cm ci (zlen data) = Some (data, slot, ci + zlen data + 1).
Proof.
  intros Hci Hb Hr. pose proof (zlen_nonneg data). unfold vnet_get_config_data. pose proof (reads_app _ _ _ _ Hr 0%nat slot eq_refl) as Hs.
  rewrite Z.add_0_r in Hs. rewrite Hs. cbn [mbind option_bind].
  rewrite (reads_block cm ci data _ Hci Hr). by rewrite u32_small by (unfold in_u32; lia).
Qed.

Lemma walk_ok cm g fs x data ci str :
  arc_ok cm → features_ok cm fs → 0 ≤ ci → ci + zlen data + zlen str < 2 ^ 32 → reads cm ci (data ++ str) →
  (∃ last, (last = NO_INDEX ∧ x ∈ start_node_indices cm ∨ last = x ∧ x ≠ NO_INDEX ∧ x ≠ end_node_index cm) ∧ wired cm g last fs str) →
  walk (S (length fs)) cm g x (zlen data) ci = Some ((x, data) :: map (λ f, (node_index f, feature_config f)) (on_path cm fs)).
Proof.
  intros Hao. revert x data ci str. induction fs as [|f fs IH]; intros x data ci str Hfs Hci Hb Hr (last & Hlast & Hw); cbn [walk].
  - assert (∃ e, str = [e] ∧ next_node g x e = Some (end_node_index cm)) as (e & -> & He).
    { cbn in Hw. destruct (Z.eqb_spec last (end_node_index cm)) as [->|Hne].
      - destruct Hlast as [[Hl _]|(-> & _ & Hl)]; [by destruct (ao_end _ Hao)|done].
      - destruct Hw as (e & -> & He). exists e. split; [done|]. by apply (leads_from cm g last). }
    cbn [length app] in *. rewrite (get_data_ok cm ci data e []) by (done || rewrite zlen_cons, zlen_nil in Hb; lia).
    cbn [mbind option_bind]. rewrite He. cbn [mbind option_bind]. by rewrite Z.eqb_refl.
  - destruct Hw as (rest & -> & Hl & Hw). apply (leads_from cm g last x) in Hl; [|done]. rewrite zlen_cons, zlen_app in Hb.
    pose proof (zlen_nonneg (feature_config f)). pose proof (zlen_nonneg rest). pose proof (zlen_nonneg data).
    rewrite (get_data_ok cm ci data (next_index f) (feature_config f ++ rest)) by (done || lia). cbn [mbind option_bind]. rewrite Hl. cbn [mbind option_bind].
    unfold on_path. destruct (Z.eqb_spec (node_index f) (end_node_index cm)) as [Hend|Hend].
    + pose proof (after_end cm f fs Hao Hfs Hend) as Hv. unfold view, on_path in Hv. by rewrite (map_eq_nil _ _ Hv).
    + rewrite filter_cons_True by done. destruct (fo_features _ _ Hfs f ltac:(by left)) as (_ & Hne & Hlen). rewrite <- Hlen.
      change (length (f :: fs)) with (S (length fs)). rewrite (IH (node_index f) (feature_config f) (ci + zlen data + 1) rest).
      * done.
      * by eapply features_tail.
      * lia.
      * lia.
      * replace (ci + zlen data + 1) with (ci + zlen (data ++ [next_index f])) by (rewrite zlen_app, zlen_cons, zlen_nil; lia).
        apply reads_app. by rewrite <- app_assoc.
      * exists (node_index f). split; [by right|done].
Qed.
End wire.

End ConfigWire.
