(* ===== verification/ConfigSpec.v ===== *)
(** * The configurations: the invariant and the operations

    [inv] relates the pool of configurations, the table of strings, the heap, the graph and the indices that the users hold.
    Adding and deleting a feature keep it, change the view of one user as a specification on lists of features says, and
    no other user's. *)

From stdpp Require Import gmap sorting.
From S2P Require Import Prelude Bitmap Pool Graph HeapAlloc Config ConfigHeap ConfigWire.
Open Scope Z_scope.

Module ConfigSpec.
Import ClibPool Config ConfigHeap ConfigWire.

(** The number of users of an index. *)
Definition users (held : list Z) (ci : Z) : Z := Z.of_nat (length (filter (λ x, x = ci) held)).

Lemma users_cons x held ci : users (x :: held) ci = (if decide (x = ci) then 1 else 0) + users held ci.
Proof. unfold users. rewrite filter_cons. case_decide; cbn [length]; lia. Qed.

Lemma users_in held ci : ci ∈ held ↔ 0 < users held ci.
Proof.
  unfold users. induction held as [|x held IH]; [split; intros Hin; [by apply not_elem_of_nil in Hin|by cbn in Hin]|].
  rewrite list.elem_of_cons, filter_cons, IH. case_decide; cbn [length]; split; intros; lia.
Qed.

Lemma users_le held ci : users held ci ≤ zlen held.
Proof. unfold users, zlen. apply inj_le, length_filter. Qed.

Lemma users_perm l l' ci : l ≡ₚ l' → users l ci = users l' ci.
Proof. intros H. unfold users. by rewrite H. Qed.

Section inv.
Context {Heap : HeapAlloc} {HL : HeapAllocLaws Heap} {Net : NodeGraph} {NL : NodeGraphLaws Net}.
Context (node_words : Z → Z).
(** The slots that nodes have at the start. *)
Context (n0 : Z).
Implicit Types (cm : vnet_config_main) (g : graph) (f : vnet_config_feature) (fs : list vnet_config_feature) (c : vnet_config).

(** The words of the features, at most one less than those of their string. *)
Definition features_words fs : Z := foldr (λ f n, 1 + zlen (feature_config f) + n) 0 fs.

Record config_at cm g (held : list Z) (i : Z) c : Prop := {
  ca_index : index c = i;
  ca_block : heap_blocks (config_string_heap cm) !! config_string_heap_handle c =
    Some (config_string_heap_index c, zlen (config_string_vector c) + 1);
  ca_words : block (config_string_heap cm) (config_string_heap_index c) (zlen (config_string_vector c) + 1) = i :: config_string_vector c;
  ca_hash : config_string_hash cm !! config_string_vector c = Some i;
  ca_wired : wired cm g NO_INDEX (features c) (config_string_vector c);
  ca_features : features_ok node_words cm (features c);
  ca_fits : features_words (features c) + 2 ≤ heap_max_size;
  ca_refs : reference_count c = users held (config_string_heap_index c + 1);
}.

(** [free] is a configuration that may be without users. [n] is the number of operations that were done. *)
Record inv (free : option Z) (n : Z) cm g (held : list Z) : Prop := {
  iv_arc : arc_ok cm;
  iv_net : net_ok cm g;
  iv_heap : heap_ok (config_string_heap cm);
  iv_pool : pool_ok (config_pool cm);
  iv_slots : slots_below g (n0 + n * (step_slots cm * heap_max_size));
  iv_words : zlen (heap_words (config_string_heap cm)) ≤ n * heap_max_size;
  iv_len : pool_len (config_pool cm) ≤ n;
  iv_held : zlen held ≤ n;
  iv_at i c : pool_elt_at_index (config_pool cm) i = Some c → config_at cm g held i c;
  iv_live i c : pool_elt_at_index (config_pool cm) i = Some c → free ≠ Some i → 0 < reference_count c;
  iv_hash str i : config_string_hash cm !! str = Some i →
    ∃ c, pool_elt_at_index (config_pool cm) i = Some c ∧ config_string_vector c = str;
  iv_users ci : ci ∈ held → ∃ i c, pool_elt_at_index (config_pool cm) i = Some c ∧ ci = config_string_heap_index c + 1;
}.

(** Room for one more operation. *)
Definition room cm (n : Z) : Prop :=
  0 ≤ n0 ∧ 0 ≤ n ∧ n0 + (n + 1) * (step_slots cm * heap_max_size) < u32_max ∧ (n + 1) * heap_max_size ≤ heap_limit ∧ n + 1 < 2 ^ 32.

(** What does not change. *)
Definition same_arc cm cm' : Prop :=
  start_node_indices cm' = start_node_indices cm ∧ end_node_index cm' = end_node_index cm ∧
  node_index_by_feature_index cm' = node_index_by_feature_index cm.

(** The features of a user. *)
Definition user_features cm (ci : Z) : option (list vnet_config_feature) := ic ← config_of_user cm ci; Some (features ic.2).

Definition users_kept cm cm' (held : list Z) : Prop := ∀ ci, ci ∈ held → user_features cm' ci = user_features cm ci.

Lemma arc_same cm cm' : same_arc cm cm' → arc_ok cm → arc_ok cm'.
Proof.
  intros (Hs & He & Ht) [H1 H2 H3 H4]. constructor.
  - by rewrite Hs.
  - intros i j x. rewrite Ht. apply H2.
  - intros i. rewrite Ht, He. apply H3.
  - by rewrite He.
Qed.

Lemma net_same cm cm' g : same_arc cm cm' → net_ok cm g → net_ok cm' g.
Proof.
  intros (Hs & He & Ht) [H1 H2 H3 H4 H5]. constructor; unfold inner in *; rewrite ?Hs, ?He, ?Ht; auto.
Qed.

Lemma wired_same cm cm' g last fs str : same_arc cm cm' → wired cm g last fs str → wired cm' g last fs str.
Proof.
  intros (Hs & He & Ht). revert last str. induction fs as [|f fs IH]; intros last str; cbn; unfold leads; rewrite Hs, ?He; [done|].
  intros (rest & -> & Hl & Hw). exists rest. split_and!; [done|done|by apply IH].
Qed.

Lemma features_same cm cm' fs : same_arc cm cm' → features_ok node_words cm fs → features_ok node_words cm' fs.
Proof. intros (Hs & He & Ht) [Hf Hso]. constructor; [|done]. intros f Hin. specialize (Hf f Hin). unfold feature_ok in *. by rewrite Ht. Qed.

Lemma features_words_pos fs : zlen fs ≤ features_words fs.
Proof.
  induction fs as [|f fs IH]; [done|]. cbn [features_words foldr]. fold (features_words fs). rewrite zlen_cons.
  pose proof (zlen_nonneg (feature_config f)). lia.
Qed.

Lemma features_words_perm fs fs' : fs ≡ₚ fs' → features_words fs = features_words fs'.
Proof. induction 1; cbn [features_words foldr]; fold features_words in *; unfold features_words in *; lia. Qed.

Lemma features_words_key fs fs' : map feature_key fs = map feature_key fs' → features_words fs = features_words fs'.
Proof.
  revert fs'. induction fs as [|f fs IH]; intros [|f' fs']; try done. cbn [map]. intros H. injection H as _ _ Hc Hr.
  apply IH in Hr. unfold features_words in *. cbn. by rewrite Hc, Hr.
Qed.

Lemma wired_length cm g last fs str : wired cm g last fs str → zlen str ≤ features_words fs + 1.
Proof.
  revert last str. induction fs as [|f fs IH]; intros last str; cbn [wired features_words foldr].
  - case_cond; [intros ->; done|]. by intros (e & -> & _).
  - intros (rest & -> & _ & Hw). apply IH in Hw. fold (features_words fs). rewrite zlen_cons, zlen_app. unfold features_words in *. lia.
Qed.

Lemma features_key cm fs fs' : map feature_key fs' = map feature_key fs → features_ok node_words cm fs → features_ok node_words cm fs'.
Proof.
  intros Hk [Hf Hs]. constructor.
  - intros f Hin. assert (feature_key f ∈ map feature_key fs) as Hkf by (rewrite <- Hk; apply list_elem_of_fmap; eauto).
    apply list_elem_of_fmap in Hkf as (f0 & Heq & Hin0). specialize (Hf f0 Hin0). unfold feature_ok, feature_key in *. by injection Heq as -> -> ->.
  - clear Hf. revert fs' Hk. induction Hs as [|f fs Hs IH Hhd]; intros [|f' fs'] Hk; try done. cbn in Hk. injection Hk as Hi _ _ Hk.
    constructor; [by apply IH|]. destruct Hhd as [|f1 fs Hle]; destruct fs' as [|f1' fs']; try done. constructor. cbn in Hk. injection Hk as Hi1 _ _ _. lia.
Qed.

Lemma view_key cm fs fs' : map feature_key fs' = map feature_key fs → view cm fs' = view cm fs.
Proof.
  revert fs'. induction fs as [|f fs IH]; intros [|f' fs'] Hk; try done. cbn in Hk. injection Hk as Hi Hn Hc Hk.
  rewrite !view_cons, Hi, Hn, Hc. by rewrite IH.
Qed.

(** ** Users *)

Section state.
Context (free : option Z) (n : Z) cm g (held : list Z) (Hinv : inv free n cm g held).

Lemma at_range i c : pool_elt_at_index (config_pool cm) i = Some c →
  0 ≤ config_string_heap_index c ∧ config_string_heap_index c + zlen (config_string_vector c) + 1 ≤ zlen (heap_words (config_string_heap cm)).
Proof.
  intros Hc. pose proof (iv_at _ _ _ _ _ Hinv i c Hc) as Ha. destruct (heap_block_range _ _ _ _ (iv_heap _ _ _ _ _ Hinv) (ca_block _ _ _ _ _ Ha)). lia.
Qed.

Lemma at_word i c : pool_elt_at_index (config_pool cm) i = Some c → vget (heap_words (config_string_heap cm)) (config_string_heap_index c) = Some i.
Proof.
  intros Hc. pose proof (ca_words _ _ _ _ _ (iv_at _ _ _ _ _ Hinv i c Hc)) as Hw. destruct (at_range i c Hc) as [Ho _].
  rewrite <- (Z.add_0_r (config_string_heap_index c)). by apply (block_word _ _ _ _ 0%nat i Ho Hw).
Qed.

Lemma user_config i c : pool_elt_at_index (config_pool cm) i = Some c → config_of_user cm (config_string_heap_index c + 1) = Some (i, c).
Proof.
  intros Hc. unfold config_of_user, vnet_get_config_heap. replace (config_string_heap_index c + 1 - 1) with (config_string_heap_index c) by lia.
  rewrite (at_word i c Hc). cbn [mbind option_bind]. by rewrite Hc.
Qed.

(** Two configurations with one place in the heap are the same. *)
Lemma at_inj i c i' c' : pool_elt_at_index (config_pool cm) i = Some c → pool_elt_at_index (config_pool cm) i' = Some c' →
  config_string_heap_index c = config_string_heap_index c' → i = i' ∧ c = c'.
Proof. intros Hc Hc' Heq. pose proof (at_word i c Hc) as H1. pose proof (at_word i' c' Hc') as H2. rewrite Heq in H1. split; congruence. Qed.

Lemma handle_inj i c i' c' : pool_elt_at_index (config_pool cm) i = Some c → pool_elt_at_index (config_pool cm) i' = Some c' →
  config_string_heap_handle c = config_string_heap_handle c' → i = i'.
Proof.
  intros Hc Hc' Heq. pose proof (ca_block _ _ _ _ _ (iv_at _ _ _ _ _ Hinv i c Hc)) as H1. pose proof (ca_block _ _ _ _ _ (iv_at _ _ _ _ _ Hinv i' c' Hc')) as H2.
  rewrite Heq, H2 in H1. apply (at_inj i c i' c' Hc Hc'). congruence.
Qed.

Lemma held_config ci : ci ∈ held → ∃ i c, config_of_user cm ci = Some (i, c) ∧ pool_elt_at_index (config_pool cm) i = Some c ∧ ci = config_string_heap_index c + 1.
Proof. intros Hin. destruct (iv_users _ _ _ _ _ Hinv ci Hin) as (i & c & Hc & ->). exists i, c. split; [by apply user_config|done]. Qed.

Lemma reads_config i c : pool_elt_at_index (config_pool cm) i = Some c → reads cm (config_string_heap_index c + 1) (config_string_vector c).
Proof.
  intros Hc k x Hk. destruct (at_range i c Hc) as [Ho _]. replace (config_string_heap_index c + 1 + Z.of_nat k) with (config_string_heap_index c + Z.of_nat (S k)) by lia.
  by apply (block_word _ _ _ _ _ _ Ho (ca_words _ _ _ _ _ (iv_at _ _ _ _ _ Hinv i c Hc))).
Qed.
End state.
(** ** The operations *)

Lemma config_at_frame cm g held cm' g' held' i c n' :
  config_at cm g held i c → same_arc cm cm' → grows g g' →
  heap_blocks (config_string_heap cm') !! config_string_heap_handle c = heap_blocks (config_string_heap cm) !! config_string_heap_handle c →
  block (config_string_heap cm') (config_string_heap_index c) (zlen (config_string_vector c) + 1) =
    block (config_string_heap cm) (config_string_heap_index c) (zlen (config_string_vector c) + 1) →
  config_string_hash cm' !! config_string_vector c = Some i → n' = users held' (config_string_heap_index c + 1) →
  config_at cm' g' held' i (set_refs n' c).
Proof.
  intros [H1 H2 H3 H4 H5 H6 H7 H8] Hsame Hg Hb Hw Hh Hn. constructor; cbn; [done|by rewrite Hb|by rewrite Hw|done| | |done|done].
  - apply (wired_same cm); [done|]. by apply (wired_grows cm g).
  - by apply (features_same cm).
Qed.

Lemma set_refs_id c : set_refs (reference_count c) c = c.
Proof. by destruct c. Qed.

(** What a state shares with the one before when configuration [i] alone is changed. *)
Lemma kept_from cm cm' n g held free i :
  inv free n cm' g held → (∀ j, j ≠ i → pool_elt_at_index (config_pool cm') j = pool_elt_at_index (config_pool cm) j) →
  (∀ c', pool_elt_at_index (config_pool cm') i = Some c' → config_string_heap_index c' + 1 ∈ held →
     ∃ c, pool_elt_at_index (config_pool cm) i = Some c ∧ features c' = features c ∧
     config_string_heap_index c' = config_string_heap_index c) →
  ∀ n2 g2 held2 free2, inv free2 n2 cm g2 held2 → users_kept cm cm' held.
Proof.
  intros Hinv' Hne Hi n2 g2 held2 free2 Hinv ci Hci. destruct (held_config _ _ _ _ _ Hinv' ci Hci) as (j & c' & Hu & Hc' & ->).
  unfold user_features. rewrite Hu. destruct (decide (j = i)) as [->|Hj].
  - destruct (Hi c' Hc' Hci) as (c & Hc & Hf & Hh). rewrite Hh, (user_config _ _ _ _ _ Hinv i c Hc). cbn. by rewrite Hf.
  - rewrite Hne in Hc' by done. by rewrite (user_config _ _ _ _ _ Hinv j c' Hc').
Qed.

(** A change of configuration [i], with the others as they were. *)
Record changed (i : Z) (free' : option Z) (n' : Z) cm cm' g g' (held held' : list Z) : Prop := {
  ch_arc : same_arc cm cm';
  ch_net : net_ok cm' g';
  ch_grows : grows g g';
  ch_heap : heap_ok (config_string_heap cm');
  ch_pool : pool_ok (config_pool cm');
  ch_slots : slots_below g' (n0 + n' * (step_slots cm' * heap_max_size));
  ch_words : zlen (heap_words (config_string_heap cm')) ≤ n' * heap_max_size;
  ch_len : pool_len (config_pool cm') ≤ n';
  ch_held : zlen held' ≤ n';
  ch_other j : j ≠ i → pool_elt_at_index (config_pool cm') j = pool_elt_at_index (config_pool cm) j;
  ch_at j c : j ≠ i → pool_elt_at_index (config_pool cm) j = Some c →
    heap_blocks (config_string_heap cm') !! config_string_heap_handle c = heap_blocks (config_string_heap cm) !! config_string_heap_handle c ∧
    block (config_string_heap cm') (config_string_heap_index c) (zlen (config_string_vector c) + 1) =
      block (config_string_heap cm) (config_string_heap_index c) (zlen (config_string_vector c) + 1) ∧
    config_string_hash cm' !! config_string_vector c = Some j ∧
    users held' (config_string_heap_index c + 1) = users held (config_string_heap_index c + 1);
  ch_i c : pool_elt_at_index (config_pool cm') i = Some c → config_at cm' g' held' i c ∧ (free' ≠ Some i → 0 < reference_count c);
  ch_hash str j : config_string_hash cm' !! str = Some j → j ≠ i → config_string_hash cm !! str = Some j;
  ch_hash_i str : config_string_hash cm' !! str = Some i → ∃ c, pool_elt_at_index (config_pool cm') i = Some c ∧ config_string_vector c = str;
  ch_users ci : ci ∈ held' → (∃ c, pool_elt_at_index (config_pool cm') i = Some c ∧ ci = config_string_heap_index c + 1) ∨
    ∃ j c, j ≠ i ∧ pool_elt_at_index (config_pool cm) j = Some c ∧ ci = config_string_heap_index c + 1;
}.

Lemma inv_changed free i free' n n' cm cm' g g' held held' :
  inv free n cm g held → (free = None ∨ free = Some i) → changed i free' n' cm cm' g g' held held' → inv free' n' cm' g' held'.
Proof.
  intros Hinv Hfree Hch. pose proof (ch_other _ _ _ _ _ _ _ _ _ Hch) as Hpj. constructor; try apply Hch.
  - apply (arc_same cm); [apply Hch|apply Hinv].
  - intros j c Hj. destruct (decide (j = i)) as [->|Hne]; [by apply (ch_i _ _ _ _ _ _ _ _ _ Hch)|]. rewrite Hpj in Hj by done.
    destruct (ch_at _ _ _ _ _ _ _ _ _ Hch j c Hne Hj) as (H1 & H2 & H3 & H4). pose proof (iv_at _ _ _ _ _ Hinv j c Hj) as Ha.
    rewrite <- (set_refs_id c). apply (config_at_frame cm g held); try done; [apply Hch|apply Hch|]. by rewrite (ca_refs _ _ _ _ _ Ha), H4.
  - intros j c Hj Hf. destruct (decide (j = i)) as [->|Hne]; [by apply (ch_i _ _ _ _ _ _ _ _ _ Hch)|]. rewrite Hpj in Hj by done.
    apply (iv_live _ _ _ _ _ Hinv j c Hj). destruct Hfree; congruence.
  - intros str j Hj. destruct (decide (j = i)) as [->|Hne]; [by apply (ch_hash_i _ _ _ _ _ _ _ _ _ Hch)|].
    apply (ch_hash _ _ _ _ _ _ _ _ _ Hch) in Hj; [|done]. rewrite Hpj by done. by apply (iv_hash _ _ _ _ _ Hinv).
  - intros ci Hci. destruct (ch_users _ _ _ _ _ _ _ _ _ Hch ci Hci) as [(c & Hc & ->)|(j & c & Hne & Hc & ->)]; [by exists i, c|].
    exists j, c. by rewrite Hpj.
Qed.

(** The count of configuration [i] alone is changed, with its users. *)
Lemma changed_count free free' n cm g held held' i c u :
  inv free n cm g held → pool_elt_at_index (config_pool cm) i = Some c → u = users held' (config_string_heap_index c + 1) →
  (free' ≠ Some i → 0 < u) → zlen held' ≤ n →
  (∀ ci, ci ≠ config_string_heap_index c + 1 → users held' ci = users held ci) →
  let cm' := set_pool (pool_set (config_pool cm) i (set_refs u c)) cm in
  changed i free' n cm cm' g g held held'.
Proof.
  intros Hinv Hc Hu Hlive Hlen Husers cm'. pose proof (iv_at _ _ _ _ _ Hinv i c Hc) as Ha.
  assert (∀ j, j ≠ i → pool_elt_at_index (config_pool cm') j = pool_elt_at_index (config_pool cm) j) as Hpj.
  { intros j Hj. apply pool_elt_set_ne; [by eexists|done]. }
  assert (pool_elt_at_index (config_pool cm') i = Some (set_refs u c)) as Hpi by (apply pool_elt_set_eq; by eexists).
  constructor; try done; try apply Hinv.
  - apply (net_same cm); [done|apply Hinv].
  - apply pool_set_ok, Hinv.
  - unfold cm'. cbn. rewrite pool_set_len. apply Hinv.
  - intros j c' Hj Hc'. pose proof (iv_at _ _ _ _ _ Hinv j c' Hc') as Ha'. split_and!; [done|done|apply Ha'|].
    apply Husers. intros Heq. apply Hj. apply (at_inj _ _ _ _ _ Hinv j c' i c Hc' Hc). lia.
  - intros c' Hc'. rewrite Hpi in Hc'. injection Hc' as <-. split; [|exact Hlive].
    apply (config_at_frame cm g held); try done. apply Ha.
  - intros str Hstr. destruct (iv_hash _ _ _ _ _ Hinv str i Hstr) as (c' & Hc' & Heq). exists (set_refs u c). split; [done|]. cbn. congruence.
  - intros ci Hci. destruct (decide (ci = config_string_heap_index c + 1)) as [->|Hne]; [left; by exists (set_refs u c)|right].
    apply users_in in Hci. rewrite (Husers ci Hne) in Hci. apply users_in in Hci. destruct (iv_users _ _ _ _ _ Hinv ci Hci) as (j & c' & Hc' & ->).
    exists j, c'. split; [|done]. intros ->. congruence.
Qed.

(** Configuration [i] is freed. *)
Lemma changed_free n cm g held held' i c h u :
  inv None n cm g held → pool_elt_at_index (config_pool cm) i = Some c → users held' (config_string_heap_index c + 1) = 0 → zlen held' ≤ n →
  (∀ ci, ci ≠ config_string_heap_index c + 1 → users held' ci = users held ci) →
  heap_dealloc (config_string_heap cm) (config_string_heap_handle c) = Some h →
  let cm' := set_hash (delete (config_string_vector c) (config_string_hash cm))
               (set_heap h (set_pool (pool_put_index (pool_set (config_pool cm) i (set_refs u c)) i) cm)) in
  changed i None n cm cm' g g held held' ∧ pool_elt_at_index (config_pool cm') i = None.
Proof.
  intros Hinv Hc Hu Hlen Husers Hdealloc cm'. pose proof (iv_at _ _ _ _ _ Hinv i c Hc) as Ha. pose proof (iv_pool _ _ _ _ _ Hinv) as Hpool.
  destruct (heap_dealloc_ok _ _ _ (iv_heap _ _ _ _ _ Hinv) (ca_block _ _ _ _ _ Ha)) as (h' & Heq & Hh & Hhb & Hhw & Hhk).
  rewrite Hdealloc in Heq. injection Heq as <-.
  destruct (pool_put_ok (pool_set (config_pool cm) i (set_refs u c)) i) as (Hp & Hpi & Hpo & Hpl);
    [by apply pool_set_ok|rewrite pool_elt_set_eq; by eexists|]. rewrite pool_set_len in Hpl.
  split; [|done]. assert (∀ j, j ≠ i → pool_elt_at_index (config_pool cm') j = pool_elt_at_index (config_pool cm) j) as Hpj.
  { intros j Hj. unfold cm'. cbn. rewrite Hpo by done. apply pool_elt_set_ne; [by eexists|done]. }
  constructor; try done; try apply Hinv.
  - apply (net_same cm); [done|apply Hinv].
  - unfold cm'. cbn. pose proof (iv_words _ _ _ _ _ Hinv). lia.
  - unfold cm'. cbn. rewrite Hpl. apply Hinv.
  - intros j c' Hj Hc'. pose proof (iv_at _ _ _ _ _ Hinv j c' Hc') as Ha'.
    assert (config_string_heap_handle c' ≠ config_string_heap_handle c) as Hhandle by (intros Heq; apply Hj; by eapply (handle_inj _ _ _ _ _ Hinv)).
    unfold cm'. cbn. split_and!.
    + rewrite Hhb. by apply lookup_delete_ne.
    + by apply (Hhk _ _ _ Hhandle (ca_block _ _ _ _ _ Ha')).
    + rewrite lookup_delete_ne; [apply Ha'|]. intros Heq. pose proof (ca_hash _ _ _ _ _ Ha') as H1. rewrite <- Heq, (ca_hash _ _ _ _ _ Ha) in H1. congruence.
    + apply Husers. intros Heq. apply Hj. apply (at_inj _ _ _ _ _ Hinv j c' i c Hc' Hc). lia.
  - intros c' Hc'. unfold cm' in Hc'. cbn in Hc'. by rewrite Hpi in Hc'.
  - intros str j Hj _. unfold cm' in Hj. cbn in Hj. by apply lookup_delete_Some in Hj as [_ Hj].
  - intros str Hj. unfold cm' in Hj. cbn in Hj. apply lookup_delete_Some in Hj as [Hne Hj]. destruct (iv_hash _ _ _ _ _ Hinv str i Hj) as (c' & Hc' & Heq). congruence.
  - intros ci Hci. right. assert (ci ≠ config_string_heap_index c + 1) as Hne by (intros ->; apply users_in in Hci; lia).
    apply users_in in Hci. rewrite (Husers ci Hne) in Hci. apply users_in in Hci. destruct (iv_users _ _ _ _ _ Hinv ci Hci) as (j & c' & Hc' & ->).
    exists j, c'. split; [|done]. intros ->. congruence.
Qed.

Lemma remove_reference_ok n cm g held i c :
  inv None n cm g (config_string_heap_index c + 1 :: held) → room cm n → pool_elt_at_index (config_pool cm) i = Some c →
  ∃ cm', remove_reference cm i = Some cm' ∧ inv None n cm' g held ∧ same_arc cm cm' ∧ users_kept cm cm' held.
Proof.
  intros Hinv (_ & _ & _ & _ & Hn) Hc. pose proof (iv_at _ _ _ _ _ Hinv i c Hc) as Ha. pose proof (ca_refs _ _ _ _ _ Ha) as Hrefs.
  rewrite users_cons, decide_True in Hrefs by done. pose proof (iv_held _ _ _ _ _ Hinv) as Hheld. rewrite zlen_cons in Hheld.
  pose proof (users_le held (config_string_heap_index c + 1)) as Hle. assert (0 ≤ users held (config_string_heap_index c + 1)) as Hpos by (unfold users; lia).
  unfold remove_reference. rewrite Hc. cbn [mbind option_bind]. replace (0 <? reference_count c) with true by (symmetry; apply Z.ltb_lt; lia). cbn [negb].
  replace (u32 (reference_count c - 1)) with (users held (config_string_heap_index c + 1)) by (rewrite u32_small; unfold in_u32; lia).
  assert (∀ ci, ci ≠ config_string_heap_index c + 1 → users held ci = users (config_string_heap_index c + 1 :: held) ci) as Husers.
  { intros ci Hne. rewrite users_cons, decide_False; [done|congruence]. }
  destruct (Z.eqb_spec (users held (config_string_heap_index c + 1)) 0) as [Hu|Hu].
  - destruct (heap_dealloc_ok _ _ _ (iv_heap _ _ _ _ _ Hinv) (ca_block _ _ _ _ _ Ha)) as (h & Hdealloc & _). rewrite Hdealloc. cbn [mbind option_bind].
    destruct (changed_free n cm g _ held i c h (users held (config_string_heap_index c + 1)) Hinv Hc Hu ltac:(lia) Husers Hdealloc) as [Hch Hnone].
    pose proof (inv_changed _ _ _ _ _ _ _ _ _ _ _ Hinv (or_introl eq_refl) Hch) as Hinv'. eexists. split_and!; [reflexivity|done|done|].
    eapply (kept_from cm _ n g held None i Hinv'); [apply Hch| |exact Hinv]. intros c' Hc'. by rewrite Hnone in Hc'.
  - pose proof (changed_count None None n cm g _ held i c _ Hinv Hc eq_refl ltac:(lia) ltac:(lia) Husers) as Hch.
    pose proof (inv_changed _ _ _ _ _ _ _ _ _ _ _ Hinv (or_introl eq_refl) Hch) as Hinv'. eexists. split_and!; [reflexivity|done|done|].
    eapply (kept_from cm _ n g held None i Hinv'); [apply Hch| |exact Hinv]. intros c' Hc'. cbn in Hc'. rewrite pool_elt_set_eq in Hc' by by eexists.
    injection Hc' as <-. intros _. by exists c.
Qed.
Lemma inv_graph free n cm g g' held :
  inv free n cm g held → net_ok cm g' → grows g g' → slots_below g' (n0 + (n + 1) * (step_slots cm * heap_max_size)) → 0 ≤ heap_max_size →
  inv free (n + 1) cm g' held.
Proof.
  intros Hinv Hnet Hg Hs Hmax. pose proof (iv_words _ _ _ _ _ Hinv). pose proof (iv_len _ _ _ _ _ Hinv). pose proof (iv_held _ _ _ _ _ Hinv).
  constructor; try done; try apply Hinv; [lia|lia|lia|]. intros i c Hc. destruct (iv_at _ _ _ _ _ Hinv i c Hc).
  constructor; try done. by apply (wired_grows cm g).
Qed.

Lemma inv_free n cm g held i : inv None n cm g held → inv (Some i) n cm g held.
Proof. intros Hinv. constructor; try apply Hinv. intros j c Hc _. by apply (iv_live _ _ _ _ _ Hinv j c Hc). Qed.

Lemma wired_nonempty cm g fs str : arc_ok cm → wired cm g NO_INDEX fs str → 1 ≤ zlen str.
Proof.
  intros Hao. pose proof (ao_end _ Hao) as Hend. destruct fs as [|f fs]; cbn [wired].
  - destruct (Z.eqb_spec NO_INDEX (end_node_index cm)); [congruence|]. by intros (e & -> & _).
  - intros (rest & -> & _). rewrite zlen_cons. pose proof (zlen_nonneg (feature_config f ++ rest)). lia.
Qed.

Lemma features_inner cm fs f : features_ok node_words cm fs → f ∈ fs → inner cm (node_index f).
Proof. intros Hf Hin. destruct (fo_features _ _ _ Hf f Hin) as (Hi & Hne & _). right. split; [done|]. by exists (feature_index f). Qed.

Lemma view_same cm cm' fs : same_arc cm cm' → view cm' fs = view cm fs.
Proof. intros (_ & He & _). unfold view, on_path. by rewrite He. Qed.

(** A new configuration in the pool, the heap and the table. *)
Lemma changed_new n cm g g' held fs str p i h o k :
  inv None n cm g held → room cm n → net_ok cm g' → grows g g' → slots_below g' (n0 + (n + 1) * (step_slots cm * heap_max_size)) →
  wired cm g' NO_INDEX fs str → features_ok node_words cm fs → features_words fs + 2 ≤ heap_max_size →
  config_string_hash cm !! str = None → pool_get config_0 (config_pool cm) = (p, i) →
  heap_alloc (config_string_heap cm) (zlen str + 1) = Some (h, o, k) →
  let c := Config fs str o k i 0 in
  let cm' := set_hash (<[str := i]> (config_string_hash cm)) (set_heap (copy_words (heap_store h o i) (o + 1) str) (set_pool (pool_set p i c) cm)) in
  changed i (Some i) (n + 1) cm cm' g g' held held ∧ pool_elt_at_index (config_pool cm) i = None ∧ pool_elt_at_index (config_pool cm') i = Some c.
Proof.
  intros Hinv Hroom Hnet Hg Hslots Hw Hf Hfit Hnone Hget Halloc c cm'. pose proof (wired_length _ _ _ _ _ Hw) as Hlen.
  destruct Hroom as (_ & Hn & _ & Hlim & Hn32). pose proof (iv_words _ _ _ _ _ Hinv) as Hwords. pose proof (iv_len _ _ _ _ _ Hinv) as Hplen.
  pose proof (zlen_nonneg str). pose proof (iv_held _ _ _ _ _ Hinv) as Hheld.
  destruct (fill_block _ (zlen str + 1) str h o k i (iv_heap _ _ _ _ _ Hinv) ltac:(lia) ltac:(nia) eq_refl Halloc) as (Hh & Hfresh & Hb & Hz & Hblk & Ho & Hr & Hkeep).
  destruct (pool_get_ok _ _ _ _ (iv_pool _ _ _ _ _ Hinv) ltac:(lia) Hget) as (Hp & Hi & Hpi & Hpo & _ & Hpl & _).
  assert (pool_elt_at_index (config_pool cm') i = Some c) as Hc by by apply pool_elt_set_eq.
  split; [|done]. constructor; try done.
  - apply (net_same cm); done.
  - by apply pool_set_ok.
  - cbn. nia.
  - unfold cm'. cbn. rewrite pool_set_len. lia.
  - lia.
  - intros j Hj. unfold cm'. cbn. rewrite pool_elt_set_ne by done. by apply Hpo.
  - intros j c' Hj Hc'. pose proof (iv_at _ _ _ _ _ Hinv j c' Hc') as Ha'. pose proof (ca_block _ _ _ _ _ Ha') as Hb'. unfold cm'. cbn. split_and!.
    + rewrite Hb. apply lookup_insert_ne. congruence.
    + by apply (Hkeep _ _ _ Hb').
    + rewrite lookup_insert_ne; [apply Ha'|]. intros Heq. pose proof (ca_hash _ _ _ _ _ Ha'). congruence.
    + done.
  - intros c' Hc'. rewrite Hc in Hc'. injection Hc' as <-. split; [|done]. constructor; cbn; try done.
    + by rewrite Hb, lookup_insert_eq.
    + by rewrite lookup_insert_eq.
    + by apply (wired_same cm).
    + by apply (features_same cm).
    + assert (¬ 0 < users held (o + 1)) as Hno; [|unfold users in *; lia]. intros Hin. apply users_in in Hin.
      destruct (iv_users _ _ _ _ _ Hinv _ Hin) as (j & c' & Hc' & Heq). pose proof (iv_at _ _ _ _ _ Hinv j c' Hc') as Ha'. pose proof (ca_block _ _ _ _ _ Ha') as Hb'.
      assert (k ≠ config_string_heap_handle c') as Hk by congruence. pose proof (zlen_nonneg (config_string_vector c')).
      assert (heap_blocks (copy_words (heap_store h o i) (o + 1) str) !! k = Some (o, zlen str + 1)) as B1 by by rewrite Hb, lookup_insert_eq.
      assert (heap_blocks (copy_words (heap_store h o i) (o + 1) str) !! config_string_heap_handle c' = Some (config_string_heap_index c', zlen (config_string_vector c') + 1)) as B2
        by by rewrite Hb, lookup_insert_ne.
      pose proof (heap_block_disjoint _ _ _ _ _ _ _ Hh B1 B2 Hk). lia.
  - intros str' j Hj Hne. unfold cm' in Hj. cbn in Hj. destruct (decide (str' = str)) as [->|Hstr]; [rewrite lookup_insert_eq in Hj; congruence|].
    by rewrite lookup_insert_ne in Hj.
  - intros str' Hj. exists c. split; [done|]. unfold cm' in Hj. cbn in Hj. destruct (decide (str' = str)) as [->|Hstr]; [done|].
    rewrite lookup_insert_ne in Hj by done. destruct (iv_hash _ _ _ _ _ Hinv str' i Hj) as (c' & Hc' & _). congruence.
  - intros ci Hci. right. destruct (iv_users _ _ _ _ _ Hinv ci Hci) as (j & c' & Hc' & ->). exists j, c'. split; [|done]. intros ->. congruence.
Qed.

Lemma find_config_ok n cm g held fs :
  inv None n cm g held → room cm n → features_ok node_words cm fs → features_words fs + 2 ≤ heap_max_size →
  ∃ cm' g' i c, find_config_with_features cm g fs = Some (cm', g', i) ∧ pool_elt_at_index (config_pool cm') i = Some c ∧
    view cm (features c) = view cm fs ∧ inv (Some i) (n + 1) cm' g' held ∧ same_arc cm cm' ∧ users_kept cm cm' held.
Proof.
  intros Hinv Hroom Hf Hfit. pose proof Hroom as (Hn0 & Hn & Hslots & _). pose proof (features_words_pos fs) as Hfw. pose proof (zlen_nonneg fs).
  pose proof (step_slots_pos cm) as Hstep. pose proof (iv_arc _ _ _ _ _ Hinv) as Hao.
  assert (0 ≤ step_slots cm * (zlen fs + 1) ≤ step_slots cm * heap_max_size) as Hone.
  { split; [lia|apply Z.mul_le_mono_nonneg_l; lia]. }
  assert (0 ≤ n * (step_slots cm * heap_max_size)) as Hmany by (apply Z.mul_nonneg_nonneg; lia).
  assert ((n + 1) * (step_slots cm * heap_max_size) = n * (step_slots cm * heap_max_size) + step_slots cm * heap_max_size) as Hnext by lia.
  destruct (make_string_ok cm fs g (n0 + n * (step_slots cm * heap_max_size)) Hao (iv_net _ _ _ _ _ Hinv)) as
    (g' & fs' & str & Hmake & Hnet & Hg & Hbelow & Hkey & Hw); [intros f Hin; by eapply features_inner|apply Hinv|lia|lia|].
  assert (slots_below g' (n0 + (n + 1) * (step_slots cm * heap_max_size))) as Hbelow' by (intros x; pose proof (Hbelow x); lia).
  pose proof (features_key cm _ _ Hkey Hf) as Hf'. pose proof (features_words_key _ _ Hkey) as Hfw'. pose proof (view_key cm _ _ Hkey) as Hview.
  unfold find_config_with_features. rewrite Hmake. cbn [mbind option_bind].
  destruct (config_string_hash cm !! str) as [i|] eqn:Hhash.
  - destruct (iv_hash _ _ _ _ _ Hinv str i Hhash) as (c & Hc & Hstr). replace (pool_is_free_index (config_pool cm) i) with false.
    2: { symmetry. unfold pool_elt_at_index in Hc. by destruct (pool_is_free_index _ _). }
    pose proof (inv_graph _ _ _ _ _ _ Hinv Hnet Hg Hbelow' ltac:(lia)) as Hinv'. exists cm, g', i, c. split_and!; try done; [|by apply inv_free].
    pose proof (iv_at _ _ _ _ _ Hinv' i c Hc) as Ha. rewrite <- Hview. pose proof (ca_wired _ _ _ _ _ Ha) as Hwc. rewrite Hstr in Hwc.
    by apply (wired_view node_words cm g' NO_INDEX _ _ str Hao (ca_features _ _ _ _ _ Ha) Hf').
  - destruct (pool_get config_0 (config_pool cm)) as [p i] eqn:Hget.
    pose proof (wired_length _ _ _ _ _ Hw) as Hlen. pose proof (zlen_nonneg str). pose proof (iv_words _ _ _ _ _ Hinv). pose proof Hroom as (_ & _ & _ & Hlim & _).
    assert (zlen str + 1 ≤ heap_max_size) as Hsize by (rewrite Hfw' in Hlen; lia).
    assert (zlen (heap_words (config_string_heap cm)) + (zlen str + 1) ≤ heap_limit) as Hlimit by lia.
    destruct (heap_alloc_ok (config_string_heap cm) (zlen str + 1) (iv_heap _ _ _ _ _ Hinv) ltac:(lia) Hlimit) as (h & o & k & Halloc & _).
    rewrite Halloc. cbn [mbind option_bind].
    destruct (changed_new n cm g g' held fs' str p i h o k) as (Hch & Hnone & Hc); try done; [lia|].
    pose proof (inv_changed _ _ _ _ _ _ _ _ _ _ _ Hinv (or_introl eq_refl) Hch) as Hinv'. eexists _, g', i, _. split_and!; [reflexivity|exact Hc|done|done|done|].
    eapply (kept_from cm _ (n + 1) g' held (Some i) i Hinv'); [apply Hch| |exact Hinv]. intros c' Hc' Hin. exfalso.
    pose proof (iv_at _ _ _ _ _ Hinv' i c' Hc') as Ha. apply users_in in Hin. rewrite <- (ca_refs _ _ _ _ _ Ha) in Hin.
    rewrite Hc in Hc'. injection Hc' as <-. cbn in Hin. lia.
Qed.

Lemma same_arc_trans cm1 cm2 cm3 : same_arc cm1 cm2 → same_arc cm2 cm3 → same_arc cm1 cm3.
Proof. intros (H1 & H2 & H3) (H4 & H5 & H6). split_and!; congruence. Qed.

Lemma inv_users_vec free n cm g held l : inv free n cm g held → inv free n (set_users l cm) g held.
Proof.
  intros Hinv. constructor; try apply Hinv.
  - apply (arc_same cm); [done|apply Hinv].
  - apply (net_same cm); [done|apply Hinv].
  - intros i c Hc. rewrite <- (set_refs_id c). pose proof (iv_at _ _ _ _ _ Hinv i c Hc) as Ha.
    apply (config_at_frame cm g held); try done; apply Ha.
Qed.

Lemma take_reference_ok n cm g held i c :
  inv (Some i) n cm g held → pool_elt_at_index (config_pool cm) i = Some c → zlen held + 1 ≤ n → n < 2 ^ 32 → n * heap_max_size ≤ heap_limit →
  ∃ cm', take_reference cm i = Some (cm', config_string_heap_index c + 1) ∧ inv None n cm' g (config_string_heap_index c + 1 :: held) ∧
    same_arc cm cm' ∧ users_kept cm cm' (config_string_heap_index c + 1 :: held) ∧ config_string_heap_index c + 1 < NO_INDEX.
Proof.
  intros Hinv Hc Hlen Hn Hlim. pose proof (iv_at _ _ _ _ _ Hinv i c Hc) as Ha. destruct (at_range _ _ _ _ _ Hinv i c Hc) as [Ho Hr].
  pose proof (wired_nonempty _ _ _ _ (iv_arc _ _ _ _ _ Hinv) (ca_wired _ _ _ _ _ Ha)) as Hne. pose proof (iv_words _ _ _ _ _ Hinv) as Hw.
  pose proof heap_limit_small as Hsmall. set (ci := config_string_heap_index c + 1). assert (ci < NO_INDEX) as Hci by (unfold ci, NO_INDEX, u32_max; lia).
  pose proof (users_le held ci) as Hle. assert (0 ≤ users held ci) as Hpos by (unfold users; lia).
  assert (u32 (reference_count c + 1) = users (ci :: held) ci) as Hu.
  { rewrite (ca_refs _ _ _ _ _ Ha), users_cons, decide_True by done. fold ci. rewrite u32_small; unfold in_u32; lia. }
  assert (changed i None n cm (set_pool (pool_set (config_pool cm) i (set_refs (users (ci :: held) ci) c)) cm) g g held (ci :: held)) as Hch.
  { apply (changed_count (Some i) None); try done.
    - intros _. rewrite users_cons, decide_True by done. lia.
    - rewrite zlen_cons. lia.
    - intros ci' Hne'. rewrite users_cons, decide_False; [done|]. unfold ci. congruence. }
  pose proof (inv_changed _ _ _ _ _ _ _ _ _ _ _ Hinv (or_intror eq_refl) Hch) as Hinv'.
  unfold take_reference. rewrite Hc. cbn [mbind option_bind]. fold ci. rewrite Hu, (u32_small ci) by (unfold in_u32, NO_INDEX, u32_max in *; unfold ci in *; lia).
  eexists. split_and!; [reflexivity|by apply inv_users_vec|done| |done].
  intros ci' Hin. change (user_features (set_pool (pool_set (config_pool cm) i (set_refs (users (ci :: held) ci) c)) cm) ci' = user_features cm ci').
  revert ci' Hin. change (users_kept cm (set_pool (pool_set (config_pool cm) i (set_refs (users (ci :: held) ci) c)) cm) (ci :: held)).
  eapply (kept_from cm _ n g _ None i Hinv'); [apply Hch| |exact Hinv]. intros c' Hc' _. cbn in Hc'. rewrite pool_elt_set_eq in Hc' by by eexists.
  injection Hc' as <-. by exists c.
Qed.
End inv.

End ConfigSpec.
