(* ===== verification/ConfigOps.v ===== *)
(** * The configurations: adding and deleting features

    The users of an arc hold indices of configurations.  [vnet_config_add_feature] and [vnet_config_del_feature] give the
    user that calls them the index of a configuration with the feature added or deleted, whether it is shared with other
    users or new, and no other user's features change.  Packets that start with an index of the arc meet the features of
    its user on the path, each with its data. *)

From stdpp Require Import gmap gmultiset sorting.
From S2P Require Import Prelude Bitmap Pool Graph HeapAlloc Config ConfigHeap ConfigWire ConfigSpec.
Open Scope Z_scope.

Module ConfigOps.
Import ClibPool Config ConfigHeap ConfigWire ConfigSpec.

(** The features as a multiset. *)
Definition features_set (l : list (Z * list Z)) : gmultiset (Z * list Z) := list_to_set_disj l.

Section ops.
Context {Heap : HeapAlloc} {HL : HeapAllocLaws Heap} {Net : NodeGraph} {NL : NodeGraphLaws Net} {Sort : Qsort} {SL : QsortLaws Sort}.
Context (node_words : Z → Z) (n0 : Z).
Implicit Types (cm : vnet_config_main) (g : graph) (f : vnet_config_feature) (fs : list vnet_config_feature) (c : vnet_config).

#[local] Abbreviation inv := (inv node_words n0).
#[local] Abbreviation features_ok := (features_ok node_words).

Lemma inv_perm free n cm g held held' : held ≡ₚ held' → inv free n cm g held → inv free n cm g held'.
Proof.
  intros Hp Hinv. constructor; try apply Hinv.
  - unfold zlen. rewrite <- Hp. apply Hinv.
  - intros i c Hc. destruct (iv_at _ _ _ _ _ _ _ Hinv i c Hc). constructor; try done. by rewrite <- (users_perm _ _ _ Hp).
  - intros ci. rewrite <- Hp. apply Hinv.
Qed.

Lemma inv_later free n cm g held : inv free n cm g held → inv free (n + 1) cm g held.
Proof.
  intros Hinv. pose proof heap_max_nonneg. pose proof (step_slots_pos cm).
  assert (0 ≤ step_slots cm * heap_max_size) by (apply Z.mul_nonneg_nonneg; lia).
  apply (inv_graph _ _ _ _ _ g); try done; [apply Hinv|]. intros x. pose proof (iv_slots _ _ _ _ _ _ _ Hinv x). lia.
Qed.

Lemma users_kept_trans cm1 cm2 cm3 held held' :
  held ⊆ held' → users_kept cm1 cm2 held → users_kept cm2 cm3 held' → users_kept cm1 cm3 held.
Proof. intros Hs H1 H2 ci Hci. rewrite H2 by by apply Hs. by apply H1. Qed.

(** The state after a user took the configuration with the features [fs]. *)
Record taken n cm g held cm' g' ci' fs : Prop := {
  tk_inv : inv None (n + 1) cm' g' (ci' :: held);
  tk_index : ci' < NO_INDEX;
  tk_features : ∃ fs', user_features cm' ci' = Some fs' ∧ view cm' fs' = view cm fs;
  tk_arc : same_arc cm cm';
  tk_kept : users_kept cm cm' held;
}.

Lemma configure_ok n cm g held fs :
  inv None n cm g held → room n0 cm n → features_ok cm fs → features_words fs + 2 ≤ heap_max_size →
  ∃ cm1 g' i cm' ci', find_config_with_features cm g fs = Some (cm1, g', i) ∧ take_reference cm1 i = Some (cm', ci') ∧
    taken n cm g held cm' g' ci' fs.
Proof.
  intros Hinv Hroom Hf Hfit. pose proof (iv_held _ _ _ _ _ _ _ Hinv) as Hheld.
  destruct (find_config_ok node_words n0 n cm g held fs Hinv Hroom Hf Hfit) as (cm1 & g' & i & c & Hfind & Hc & Hview & Hinv1 & Hs1 & Hk1).
  destruct Hroom as (_ & Hn & _ & Hlim & Hn32).
  destruct (take_reference_ok node_words n0 (n + 1) cm1 g' held i c Hinv1 Hc ltac:(lia) ltac:(lia) Hlim) as (cm' & Htake & Hinv2 & Hs2 & Hk2 & Hci).
  exists cm1, g', i, cm', (config_string_heap_index c + 1). split_and!; [done|done|]. constructor; try done.
  - exists (features c). rewrite (view_same cm cm') by (by eapply same_arc_trans). split; [|done].
    rewrite Hk2 by by left. unfold user_features. by rewrite (user_config _ _ _ _ _ _ _ Hinv1 i c Hc).
  - by eapply same_arc_trans.
  - eapply users_kept_trans; [|exact Hk1|exact Hk2]. intros x Hx. by right.
Qed.

(** ** Adding a feature *)

(** The user: a new one without an index, or one with the features [fs]. *)
Definition user_at cm (ci : Z) fs (held held' : list Z) : Prop :=
  (ci = NO_INDEX ∧ fs = [] ∧ held' = held) ∨ (ci ≠ NO_INDEX ∧ user_features cm ci = Some fs ∧ held' = ci :: held).

Lemma user_config_held n cm g held ci fs :
  inv None n cm g (ci :: held) → user_features cm ci = Some fs →
  ∃ i c, config_of_user cm ci = Some (i, c) ∧ pool_elt_at_index (config_pool cm) i = Some c ∧ features c = fs ∧
    ci = config_string_heap_index c + 1 ∧ features_ok cm fs ∧ features_words fs + 2 ≤ heap_max_size.
Proof.
  intros Hinv Hu. destruct (held_config _ _ _ _ _ _ _ Hinv ci ltac:(by left)) as (i & c & Hcu & Hc & Heq).
  unfold user_features in Hu. rewrite Hcu in Hu. injection Hu as Hu. pose proof (iv_at _ _ _ _ _ _ _ Hinv i c Hc) as Ha. subst fs.
  exists i, c. split_and!; try done; apply Ha.
Qed.

(** The features before [qsort] and after. *)
Definition sorted_with fs f : list vnet_config_feature :=
  if 1 <? zlen (fs ++ [f]) then qsort feature_index (fs ++ [f]) else fs ++ [f].

Lemma sorted_with_perm fs f : sorted_with fs f ≡ₚ f :: fs.
Proof. trans (fs ++ [f]); [unfold sorted_with; case_cond; [apply qsort_perm|done]|symmetry; apply Permutation_cons_append]. Qed.

Lemma sorted_with_ok cm fs f : features_ok cm fs → feature_ok node_words cm f → features_ok cm (sorted_with fs f).
Proof.
  intros [Hfs _] Hf. constructor.
  - intros f'. rewrite sorted_with_perm. intros [->|Hin]%list.elem_of_cons; [done|by apply Hfs].
  - unfold sorted_with. destruct (Z.ltb_spec 1 (zlen (fs ++ [f]))) as [Hlen|Hlen]; [apply qsort_sorted|]. rewrite zlen_app, zlen_cons, zlen_nil in Hlen.
    destruct fs as [|f0 fs]; [repeat constructor|]. rewrite zlen_cons in Hlen. pose proof (zlen_nonneg fs). lia.
Qed.

Lemma features_ok_nil cm : features_ok cm [].
Proof. constructor; [|constructor]. by intros f Hf%not_elem_of_nil. Qed.

(** What the features of a user are after an addition. *)
Definition added cm (fi x : Z) (data : list Z) fs : list (Z * list Z) :=
  (if decide (x = end_node_index cm) then [] else [(fi, data)]) ++ view cm fs.

Lemma view_perm cm fs fs' : fs ≡ₚ fs' → view cm fs ≡ₚ view cm fs'.
Proof. intros Hp. unfold view, on_path. by rewrite Hp. Qed.

Lemma view_added cm fi x data fs : view cm (sorted_with fs (Feature fi x 0 data)) ≡ₚ added cm fi x data fs.
Proof. rewrite (view_perm cm _ _ (sorted_with_perm _ _)), view_cons. unfold added. cbn. by case_decide. Qed.

Lemma add_feature_ok n cm g held held0 ci fi x data fs :
  inv None n cm g held0 → user_at cm ci fs held held0 → room n0 cm n →
  vget (node_index_by_feature_index cm) fi = Some x → x ≠ NO_INDEX → zlen data = node_words x →
  features_words fs + 1 + zlen data + 2 ≤ heap_max_size →
  ∃ cm' g' ci', vnet_config_add_feature cm g ci fi data = Some (cm', g', ci') ∧
    taken n cm g held cm' g' ci' (sorted_with fs (Feature fi x 0 data)).
Proof.
  intros Hinv Hu Hroom Hx Hne Hlen Hfit. set (f := Feature fi x 0 data).
  assert (features_ok cm fs → features_ok cm (sorted_with fs f)) as Hok by (intros; apply sorted_with_ok; done).
  assert (features_words (sorted_with fs f) + 2 ≤ heap_max_size) as Hfit'.
  { rewrite (features_words_perm _ _ (sorted_with_perm fs f)). cbn. fold (features_words fs). lia. }
  unfold vnet_config_add_feature. rewrite Hx. cbn [mbind option_bind]. replace (x =? NO_INDEX) with false by lia.
  destruct Hu as [(-> & -> & ->)|(Hci & Hu & ->)].
  - rewrite Z.eqb_refl. cbn [mbind option_bind app]. fold f.
    destruct (configure_ok n cm g held (sorted_with [] f)) as (cm1 & g' & i & cm' & ci' & Hfind & Htake & Hr); try done; [apply Hok, features_ok_nil|].
    change (if 1 <? zlen [f] then qsort feature_index [f] else [f]) with (sorted_with [] f). rewrite Hfind. cbn [mbind option_bind]. rewrite Htake. by exists cm', g', ci'.
  - replace (ci =? NO_INDEX) with false by lia. destruct (user_config_held _ _ _ _ _ _ Hinv Hu) as (i & c & Hcu & Hc & <- & -> & Hfs & _).
    rewrite Hcu. cbn [mbind option_bind]. fold f. fold (sorted_with (features c) f).
    destruct (remove_reference_ok node_words n0 n cm g held i c Hinv Hroom Hc) as (cm1 & Hrm & Hinv1 & Hs1 & Hk1). rewrite Hrm. cbn [mbind option_bind].
    destruct (configure_ok n cm1 g held (sorted_with (features c) f)) as (cm2 & g' & j & cm' & ci' & Hfind & Htake & [Hr1 Hr2 Hr3 Hr4 Hr5]); try done.
    { by unfold room, step_slots in *; destruct Hs1 as (-> & _ & _). }
    { apply (features_same node_words cm); [done|by apply Hok]. }
    rewrite Hfind. cbn [mbind option_bind]. rewrite Htake. exists cm', g', ci'. split; [done|]. constructor; try done.
    + destruct Hr3 as (fs' & Hfs' & Hv). exists fs'. split; [done|]. by rewrite Hv, (view_same cm).
    + by eapply same_arc_trans.
    + by eapply users_kept_trans; [..|exact Hr5].
Qed.

(** ** Deleting a feature *)

Definition deleted (fi : Z) (data : list Z) fs : list vnet_config_feature :=
  match list_find (λ f, same_feature fi data f = true) fs with
  | Some (k, _) => list_delete k fs
  | None => fs
  end.

Lemma deleted_sub fi data fs f : f ∈ deleted fi data fs → f ∈ fs.
Proof.
  unfold deleted. destruct (list_find _ fs) as [[k x]|]; [|done].
  change (list_delete k fs) with (delete k fs). rewrite list.delete_take_drop. intros [Hin|Hin]%list.elem_of_app.
  - apply list_elem_of_lookup in Hin as [i Hi]. apply lookup_take_Some in Hi as [Hi _]. by eapply list_elem_of_lookup_2.
  - apply list_elem_of_lookup in Hin as [i Hi]. rewrite lookup_drop in Hi. by eapply list_elem_of_lookup_2.
Qed.

Lemma deleted_sorted fi data fs : Sorted (λ f f', feature_index f ≤ feature_index f') fs → Sorted (λ f f', feature_index f ≤ feature_index f') (deleted fi data fs).
Proof.
  intros Hs. unfold deleted. destruct (list_find _ fs) as [[k x]|]; [|done]. change (list_delete k fs) with (delete k fs).
  apply Sorted_StronglySorted in Hs; [|intros a b c; lia]. apply StronglySorted_Sorted. rewrite list.delete_take_drop.
  rewrite <- (take_drop k fs) in Hs. apply StronglySorted_app in Hs as (Hlt & H1 & H2).
  apply StronglySorted_app. split_and!; [|done|].
  - intros a b Ha Hb. apply Hlt; [done|]. replace (S k) with (k + 1)%nat in Hb by lia. rewrite <- drop_drop in Hb.
    apply list_elem_of_lookup in Hb as [i Hi]. rewrite lookup_drop in Hi. by eapply list_elem_of_lookup_2.
  - replace (S k) with (k + 1)%nat by lia. rewrite <- drop_drop. destruct (drop k fs) as [|y l]; [done|]. cbn. rewrite drop_0. by inv H2.
Qed.

Lemma deleted_ok cm fi data fs : features_ok cm fs → features_ok cm (deleted fi data fs).
Proof. intros [Hf Hs]. constructor; [|by apply deleted_sorted]. intros f Hin. by apply Hf, (deleted_sub fi data). Qed.

Lemma deleted_words fi data fs : features_words (deleted fi data fs) ≤ features_words fs.
Proof.
  unfold deleted. destruct (list_find _ fs) as [[k f]|] eqn:Hfind; [|done]. apply list_find_Some in Hfind as (Hk & _).
  rewrite (features_words_perm _ _ (delete_Permutation _ _ _ Hk)). cbn. pose proof (zlen_nonneg (feature_config f)). unfold features_words, delete in *. lia.
Qed.

Lemma view_elem cm fs fi data : (fi, data) ∈ view cm fs ↔ ∃ f, f ∈ fs ∧ node_index f ≠ end_node_index cm ∧ feature_index f = fi ∧ feature_config f = data.
Proof.
  unfold view, on_path. rewrite list_elem_of_fmap. setoid_rewrite list_elem_of_filter. split.
  - intros (f & Heq & Hne & Hin). injection Heq as -> ->. by exists f.
  - intros (f & Hin & Hne & <- & <-). by exists f.
Qed.

Lemma view_deleted cm fi data fs : features_ok cm fs →
  features_set (view cm (deleted fi data fs)) = features_set (view cm fs) ∖ {[+ (fi, data) +]}.
Proof.
  intros [Hf _]. unfold deleted, features_set. destruct (list_find _ fs) as [[k f]|] eqn:Hfind.
  - apply list_find_Some in Hfind as (Hk & Heq & _). apply andb_true_iff in Heq as [<-%Z.eqb_eq <-%bool_decide_eq_true].
    rewrite (view_perm cm _ _ (delete_Permutation _ _ _ Hk)), view_cons. change (list_delete k fs) with (delete k fs). case_decide as Hend.
    + assert ((feature_index f, feature_config f) ∉ (list_to_set_disj (view cm (delete k fs)) : gmultiset _)); [|multiset_solver].
      rewrite elem_of_list_to_set_disj, view_elem. intros (f' & Hin & Hne & Hi & _). apply Hne. rewrite <- Hend.
      destruct (Hf f) as (Hx & _); [by eapply list_elem_of_lookup_2|].
      destruct (Hf f') as (Hx' & _); [rewrite (delete_Permutation _ _ _ Hk); by right|]. rewrite Hi, Hx in Hx'. by injection Hx'.
    + rewrite list_to_set_disj_cons. multiset_solver.
  - apply list_find_None in Hfind. assert ((fi, data) ∉ (list_to_set_disj (view cm fs) : gmultiset _)); [|multiset_solver].
    rewrite elem_of_list_to_set_disj, view_elem. intros (f & Hin & _ & Hi & Hd). rewrite list.Forall_forall in Hfind. apply (Hfind f Hin).
    unfold same_feature. rewrite Hi, Z.eqb_refl. by apply bool_decide_eq_true.
Qed.

Lemma del_feature_ok n cm g held ci fi data fs :
  inv None n cm g (ci :: held) → user_features cm ci = Some fs → room n0 cm n →
  ∃ cm' g' ci', vnet_config_del_feature cm g ci fi data = Some (cm', g', ci') ∧ taken n cm g held cm' g' ci' (deleted fi data fs).
Proof.
  intros Hinv Hu Hroom. destruct (user_config_held _ _ _ _ _ _ Hinv Hu) as (i & c & Hcu & Hc & <- & -> & Hfs & Hfit).
  pose proof (deleted_words fi data (features c)) as Hless. pose proof (deleted_ok cm fi data _ Hfs) as Hok.
  unfold vnet_config_del_feature, deleted in *. rewrite Hcu. cbn [mbind option_bind].
  destruct (list_find _ (features c)) as [[k f]|] eqn:Hfind; cbn [mbind option_bind].
  - destruct (remove_reference_ok node_words n0 n cm g held i c Hinv Hroom Hc) as (cm1 & Hrm & Hinv1 & Hs1 & Hk1). rewrite Hrm. cbn [mbind option_bind].
    destruct (configure_ok n cm1 g held (list_delete k (features c))) as (cm2 & g' & j & cm' & ci' & Hfind' & Htake & [Hr1 Hr2 Hr3 Hr4 Hr5]); try done; [| |lia|].
    { by unfold room, step_slots in *; destruct Hs1 as (-> & _ & _). }
    { by apply (features_same node_words cm). }
    rewrite Hfind'. cbn [mbind option_bind]. rewrite Htake. exists cm', g', ci'. split; [done|]. constructor; try done.
    + destruct Hr3 as (fs' & Hfs' & Hv). exists fs'. split; [done|]. by rewrite Hv, (view_same cm).
    + by eapply same_arc_trans.
    + by eapply users_kept_trans; [..|exact Hr5].
  - exists cm, g, (config_string_heap_index c + 1). split; [done|]. destruct Hroom as (_ & Hn & _ & Hlim & Hn32).
    pose proof (iv_words _ _ _ _ _ _ _ Hinv). pose proof heap_limit_small. pose proof heap_max_nonneg. constructor; try done.
    + by apply inv_later.
    + destruct (at_range _ _ _ _ _ _ _ Hinv i c Hc). pose proof (wired_nonempty _ _ _ _ (iv_arc _ _ _ _ _ _ _ Hinv) (ca_wired _ _ _ _ _ _ (iv_at _ _ _ _ _ _ _ Hinv i c Hc))).
      unfold NO_INDEX, u32_max. lia.
    + by exists (features c).
Qed.

(** ** The packets of a user *)

Lemma packet_walk free n cm g held ci fs x :
  inv free n cm g held → ci ∈ held → user_features cm ci = Some fs → n * heap_max_size ≤ heap_limit → x ∈ start_node_indices cm →
  walk node_words (S (length fs)) cm g x 0 ci = Some ((x, []) :: map (λ f, (node_index f, feature_config f)) (on_path cm fs)).
Proof.
  intros Hinv Hci Hu Hlim Hx. destruct (held_config _ _ _ _ _ _ _ Hinv ci Hci) as (i & c & Hcu & Hc & ->).
  unfold user_features in Hu. rewrite Hcu in Hu. injection Hu as <-. pose proof (iv_at _ _ _ _ _ _ _ Hinv i c Hc) as Ha.
  destruct (at_range _ _ _ _ _ _ _ Hinv i c Hc) as [Ho Hr]. pose proof (iv_words _ _ _ _ _ _ _ Hinv). pose proof heap_limit_small.
  apply (walk_ok node_words cm g (features c) x [] _ (config_string_vector c)).
  - apply Hinv.
  - apply Ha.
  - lia.
  - rewrite zlen_nil. lia.
  - by apply (reads_config _ _ _ _ _ _ _ Hinv i c).
  - exists NO_INDEX. split; [by left|apply Ha].
Qed.
End ops.
End ConfigOps.
