(* ===== verification/Feature.v ===== *)
(** * The feature arcs of interfaces (vnet/feature/feature.c, vnet/feature/feature.h)

    The arcs with their features, the configuration of every interface on every arc, the number of features that were
    enabled there and the bitmap of the interfaces that have some; how features are enabled and disabled, and how packets
    start on an arc and go on.  The arcs come from FeatureOrder, the configurations from Config.  The calls of
    [adj_feature_update], which is in vnet/adj, are kept as a list. *)

From stdpp Require Import gmap strings.
From S2P Require Import Prelude Bitmap Pool Graph FeatureOrder HeapAlloc Config.
Open Scope Z_scope.

Module Feature.
Import ClibBitmap ClibPool Config.
Import FeatureOrder(vnet_feature_registration, node_name, arc_error, vnet_feature_arc_init, feature_arc).

Section feature.
Context `{Heap : HeapAlloc} `{Net : NodeGraph} `{Sort : Qsort}.

Record vnet_feature_config_main := FeatureConfigMain {
  config_main : vnet_config_main;
  config_index_by_sw_if_index : list Z;
}.

Record vnet_feature_main := FeatureMain {
  arc_index_by_name : gmap string Z;
  (** The index of a feature for its node, by arc. *)
  next_feature_by_name : list (gmap string Z);
  feature_config_mains : list vnet_feature_config_main;
  sw_if_index_has_features : list bitmap;
  feature_count_by_sw_if_index : list (list Z);
  (** The calls of [adj_feature_update]: interface, arc, and whether it has features. *)
  adj_feature_updates : list (Z * Z * bool);
}.

(** ** The initialisation *)

Record vnet_feature_arc_registration := ArcRegistration {
  arc_name : string;
  start_nodes : list string;
}.

Inductive init_error :=
  | unknown_feature_arc (name : string)
  | feature_arc_error (e : arc_error).

Definition index_arcs (arcs : list vnet_feature_arc_registration) : gmap string Z :=
  (foldl (λ '(m, i) a, (<[arc_name a := u8 i]> m, i + 1)) (∅, 0) arcs).1.

(** Each registration goes before those of its arc. *)
Fixpoint features_by_arc (index : gmap string Z) (fregs : list (string * vnet_feature_registration)) (by_arc : list (list vnet_feature_registration))
    : init_error + list (list vnet_feature_registration) :=
  match fregs with
  | [] => inr by_arc
  | (arc, r) :: fregs =>
      match index !! arc with
      | None => inl (unknown_feature_arc arc)
      | Some i => features_by_arc index fregs (vset by_arc i (r :: velt [] by_arc i))
      end
  end.

(** The table of the features of an arc: a later registration of a node replaces an earlier one. *)
Definition feature_table (regs : list vnet_feature_registration) (indices : list Z) : gmap string Z :=
  foldl (λ m ri, <[node_name ri.1 := ri.2]> m) ∅ (zip regs indices).

(** The body of the last loop, on the lists of configurations and tables. *)
Definition init_arc (by_name : string → option Z) (by_arc : list (list vnet_feature_registration)) (index : gmap string Z)
    (out : list vnet_feature_config_main * list (gmap string Z)) (a : vnet_feature_arc_registration)
    : option (init_error + list vnet_feature_config_main * list (gmap string Z)) :=
  i ← index !! arc_name a;
  regs ← vget by_arc i;
  made ← vnet_feature_arc_init regs;
  match made with
  | inl e => Some (inl (feature_arc_error e))
  | inr arc =>
      cm ← vnet_config_init by_name (start_nodes a) (FeatureOrder.feature_nodes arc);
      Some (inr (vset out.1 i (FeatureConfigMain cm []), vset out.2 i (feature_table regs (FeatureOrder.feature_index arc))))
  end.

Fixpoint init_arcs (by_name : string → option Z) (by_arc : list (list vnet_feature_registration)) (index : gmap string Z)
    (arcs : list vnet_feature_arc_registration) (out : list vnet_feature_config_main * list (gmap string Z))
    : option (init_error + list vnet_feature_config_main * list (gmap string Z)) :=
  match arcs with
  | [] => Some (inr out)
  | a :: arcs =>
      r ← init_arc by_name by_arc index out a;
      match r with
      | inl e => Some (inl e)
      | inr out => init_arcs by_name by_arc index arcs out
      end
  end.

Definition config_main_0 : vnet_config_main := ConfigMain pool_null ∅ heap_empty [] 0 [] [].

Definition vnet_feature_init (by_name : string → option Z) (arcs : list vnet_feature_arc_registration)
    (fregs : list (string * vnet_feature_registration)) : option (init_error + vnet_feature_main) :=
  if negb (0 <? zlen arcs) then None
  else
    let n := length arcs in
    let index := index_arcs arcs in
    match features_by_arc index fregs (replicate n []) with
    | inl e => Some (inl e)
    | inr by_arc =>
        r ← init_arcs by_name by_arc index arcs (replicate n (FeatureConfigMain config_main_0 []), replicate n ∅);
        Some match r with
             | inl e => inl e
             | inr (mains, tables) => inr (FeatureMain index tables mains (replicate n []) (replicate n []) [])
             end
    end.

(** ** Enabling and disabling *)

Definition VNET_API_ERROR_INVALID_VALUE : Z := -7.
Definition VNET_API_ERROR_INVALID_VALUE_2 : Z := -8.
Definition NO_ARC : Z := 255.
Definition i16 (z : Z) : Z := (z + 2 ^ 15) `mod` 2 ^ 16 - 2 ^ 15.

Definition vnet_get_feature_arc_index (fm : vnet_feature_main) (s : string) : Z := default NO_ARC (arc_index_by_name fm !! s).

Definition vnet_get_feature_index (fm : vnet_feature_main) (arc : Z) (s : string) : option Z :=
  table ← vget (next_feature_by_name fm) arc;
  Some (default NO_INDEX (table !! s)).

Definition set_arc (a : Z) (fc : vnet_feature_config_main) (has : bitmap) (counts : list Z) (updates : list (Z * Z * bool))
    (fm : vnet_feature_main) : vnet_feature_main :=
  FeatureMain (arc_index_by_name fm) (next_feature_by_name fm) (vset (feature_config_mains fm) a fc)
    (vset (sw_if_index_has_features fm) a has) (vset (feature_count_by_sw_if_index fm) a counts) (adj_feature_updates fm ++ updates).

(** [None] is a failed assertion or an access that is out of range. *)
Definition vnet_feature_enable_disable_with_index (fm : vnet_feature_main) (g : graph)
    (arc_index feature_index sw_if_index enable_disable : Z) (data : list Z) : option (vnet_feature_main * graph * Z) :=
  if arc_index =? NO_ARC then Some (fm, g, VNET_API_ERROR_INVALID_VALUE)
  else if feature_index =? NO_INDEX then Some (fm, g, VNET_API_ERROR_INVALID_VALUE_2)
  else
    fc ← vget (feature_config_mains fm) arc_index;
    has ← vget (sw_if_index_has_features fm) arc_index;
    counts ← vget (feature_count_by_sw_if_index fm) arc_index;
    let indices := vec_validate NO_INDEX (config_index_by_sw_if_index fc) sw_if_index in
    let ci := velt NO_INDEX indices sw_if_index in
    let counts := vec_validate 0 counts sw_if_index in
    let feature_count := velt 0 counts sw_if_index in
    if (enable_disable =? 0) && (feature_count <? 1)
    then Some (set_arc arc_index (FeatureConfigMain (config_main fc) indices) has counts [] fm, g, 0)
    else
      out ← (if negb (enable_disable =? 0) then vnet_config_add_feature else vnet_config_del_feature)
              (config_main fc) g ci feature_index data;
      let '(cm, g, ci) := out in
      let indices := vset indices sw_if_index ci in
      let feature_count := i16 (feature_count + if 0 <? enable_disable then 1 else -1) in
      if negb (0 <=? feature_count) then None
      else
        let on := 0 <? feature_count in
        let has := clib_bitmap_set has sw_if_index (if on then 1 else 0) in
        Some (set_arc arc_index (FeatureConfigMain cm indices) has (vset counts sw_if_index feature_count)
                [(sw_if_index, arc_index, on)] fm, g, 0).

Definition vnet_feature_enable_disable (fm : vnet_feature_main) (g : graph) (arc_name node_name : string)
    (sw_if_index enable_disable : Z) (data : list Z) : option (vnet_feature_main * graph * Z) :=
  let arc_index := vnet_get_feature_arc_index fm arc_name in
  if arc_index =? NO_ARC then Some (fm, g, VNET_API_ERROR_INVALID_VALUE)
  else
    feature_index ← vnet_get_feature_index fm arc_index node_name;
    vnet_feature_enable_disable_with_index fm g arc_index feature_index sw_if_index enable_disable data.

(** ** Packets *)

(** What a buffer holds of its way on the arc. *)
Record vlib_buffer := Buffer {
  feature_arc_index : Z;
  current_config_index : Z;
}.

Definition vnet_have_features (fm : vnet_feature_main) (arc sw_if_index : Z) : option bool :=
  has ← vget (sw_if_index_has_features fm) arc;
  Some (clib_bitmap_get has sw_if_index).

(** The buffer, the next node, and the data of the feature if there is one. *)
Definition vnet_feature_arc_start_with_data (fm : vnet_feature_main) (arc sw_if_index next : Z) (b : vlib_buffer) (n : Z)
    : option (vlib_buffer * Z * option (list Z)) :=
  fc ← vget (feature_config_mains fm) arc;
  have ← vnet_have_features fm arc sw_if_index;
  if have : bool then
    ci ← vget (config_index_by_sw_if_index fc) sw_if_index;
    out ← vnet_get_config_data (config_main fc) ci n;
    let '(data, next, ci) := out in
    Some (Buffer arc ci, next, Some data)
  else Some (b, next, None).

Definition vnet_feature_next_with_data (fm : vnet_feature_main) (b : vlib_buffer) (n : Z) : option (vlib_buffer * Z * list Z) :=
  fc ← vget (feature_config_mains fm) (feature_arc_index b);
  out ← vnet_get_config_data (config_main fc) (current_config_index b) n;
  let '(data, next, ci) := out in
  Some (Buffer (feature_arc_index b) ci, next, data).

(** The nodes that a packet visits from node [x] on, each of which reads its words with [vnet_feature_next_with_data], and
    the end node.  [None] if the end is not reached with the fuel. *)
Fixpoint feature_path (fuel : nat) (fm : vnet_feature_main) (g : graph) (node_words : Z → Z) (last : Z) (x : Z) (b : vlib_buffer)
    : option (list (Z * list Z)) :=
  if x =? last then Some []
  else
    match fuel with
    | O => None
    | S fuel =>
        out ← vnet_feature_next_with_data fm b (node_words x);
        let '(b, slot, data) := out in
        y ← next_node g x slot;
        rest ← feature_path fuel fm g node_words last y b;
        Some ((x, data) :: rest)
    end.

(** A packet at start node [x]: [None] within for one that does not enter the arc and goes to [next]. *)
Definition packet_path (fuel : nat) (fm : vnet_feature_main) (g : graph) (node_words : Z → Z) (arc sw_if_index x next : Z) (b : vlib_buffer)
    : option (option (list (Z * list Z))) :=
  fc ← vget (feature_config_mains fm) arc;
  out ← vnet_feature_arc_start_with_data fm arc sw_if_index next b 0;
  let '(b, slot, data) := out in
  match data with
  | None => Some None
  | Some _ =>
      y ← next_node g x slot;
      path ← feature_path fuel fm g node_words (end_node_index (config_main fc)) y b;
      Some (Some path)
  end.
End feature.

End Feature.
