(* ===== verification/FeatureSpec.v ===== *)
(** * The feature arcs: what interfaces are promised

    [arc_spec] gives every interface of an arc a number and a multiset of features with their data.  [represents] relates it
    to the state of the arc.  Enabling and disabling refine the operations on the specification, and packets of an
    interface visit its features in the order of the arc. *)

From stdpp Require Import gmap gmultiset sorting functions.
From S2P Require Import Prelude Bitmap Pool Graph HeapAlloc Config ConfigHeap ConfigWire ConfigSpec ConfigOps Feature.
Open Scope Z_scope.

Module FeatureSpec.
Import ClibBitmap ClibPool Config ConfigHeap ConfigWire ConfigSpec ConfigOps Feature.

(** ** The specification *)

(** What was enabled on an interface less what was disabled. *)
Record intf := Intf {
  count : Z;
  enabled : gmultiset (Z * list Z);
}.

Abbreviation arc_spec := (Z → intf).

Inductive op :=
  | Enable (sw_if_index feature_index : Z) (data : list Z)
  | Disable (sw_if_index feature_index : Z) (data : list Z).

Definition spec_step (S : arc_spec) (o : op) : arc_spec :=
  match o with
  | Enable sw fi data => <[sw := Intf (count (S sw) + 1) ({[+ (fi, data) +]} ⊎ enabled (S sw))]> S
  | Disable sw fi data =>
      if count (S sw) <? 1 then S else <[sw := Intf (count (S sw) - 1) (enabled (S sw) ∖ {[+ (fi, data) +]})]> S
  end.

(** The words of the features in a configuration. *)
Definition list_words (l : list (Z * list Z)) : Z := foldr (λ d n, 1 + zlen d.2 + n) 0 l.
Definition set_words (M : gmultiset (Z * list Z)) : Z := list_words (elements M).

Lemma list_words_perm l l' : l ≡ₚ l' → list_words l = list_words l'.
Proof. induction 1; cbn [list_words foldr]; fold list_words in *; unfold list_words in *; lia. Qed.

Lemma elements_features_set l : elements (features_set l) ≡ₚ l.
Proof.
  unfold features_set. induction l as [|x l IH]; [done|]. by rewrite list_to_set_disj_cons, gmultiset_elements_disj_union, gmultiset_elements_singleton, IH.
Qed.

(** The last call of [adj_feature_update] for an interface and an arc. *)
Definition adj_flag (updates : list (Z * Z * bool)) (sw arc : Z) : bool :=
  default false (snd <$> last (filter (λ u, u.1 = (sw, arc)) updates)).

#[global] Arguments adj_flag : simpl never.

(** The indices that interfaces have. *)
Definition held (indices : list Z) : list Z := filter (λ ci, ci ≠ NO_INDEX) indices.

Lemma held_validate l i : held (vec_validate NO_INDEX l i) = held l.
Proof.
  unfold held, vec_validate. rewrite filter_app. assert (∀ k, filter (λ ci, ci ≠ NO_INDEX) (replicate k NO_INDEX) = []) as ->.
  { induction k as [|k IH]; [done|]. cbn [replicate]. by rewrite filter_cons_False by tauto. }
  apply app_nil_r.
Qed.

Lemma held_split l i x : vget l i = Some x → held l ≡ₚ held [x] ++ held (delete (Z.to_nat i) l).
Proof.
  unfold vget. case_cond; [|done]. intros Hx. unfold held. rewrite (delete_Permutation _ _ _ Hx) at 1. by rewrite <- filter_app.
Qed.

Lemma delete_insert_same {A} (l : list A) k x : delete k (<[k := x]> l) = delete k l.
Proof. revert k. induction l as [|y l IH]; intros [|k]; cbn; [done..|]. f_equal. apply IH. Qed.

Lemma held_vset l i x : 0 ≤ i < zlen l → held (vset l i x) ≡ₚ held [x] ++ held (delete (Z.to_nat i) l).
Proof.
  intros Hi. rewrite (held_split (vset l i x) i x) by by apply vget_vset_eq. unfold vset. case_cond; [|lia].
  by rewrite delete_insert_same.
Qed.

Section spec.
Context {Heap : HeapAlloc} {HL : HeapAllocLaws Heap} {Net : NodeGraph} {NL : NodeGraphLaws Net} {Sort : Qsort} {SL : QsortLaws Sort}.
(** The words that the nodes read; less than none for nodes that are no features, like the end of the arc. *)
Context (node_words : Z → Z).
Context (n0 : Z).
Implicit Types (cm : vnet_config_main) (g : graph) (fm : vnet_feature_main) (S : arc_spec).

(** The features of an index: none, or those of the configuration. *)
Definition index_features cm (ci : Z) (v : intf) : Prop :=
  (ci = NO_INDEX ∧ v = Intf 0 ∅) ∨
  (ci ≠ NO_INDEX ∧ ∃ fs, user_features cm ci = Some fs ∧ features_set (view cm fs) = enabled v).

Record represents (n : Z) cm g (indices : list Z) (has : bitmap) (counts : list Z) S : Prop := {
  rp_inv : inv node_words n0 None n cm g (held indices);
  rp_end : node_words (end_node_index cm) < 0;
  rp_index sw : 0 ≤ sw → index_features cm (velt NO_INDEX indices sw) (S sw);
  rp_wf : wf has;
  rp_count sw : 0 ≤ sw → velt 0 counts sw = count (S sw) ∧ 0 ≤ count (S sw) < 2 ^ 15;
  rp_has sw : 0 ≤ sw → clib_bitmap_get has sw = (0 <? count (S sw));
}.

(** The state of arc [a] represents [S]. *)
Definition arc_rep (a n : Z) fm g S : Prop :=
  ∃ fc has counts, vget (feature_config_mains fm) a = Some fc ∧ vget (sw_if_index_has_features fm) a = Some has ∧
    vget (feature_count_by_sw_if_index fm) a = Some counts ∧
    represents n (config_main fc) g (config_index_by_sw_if_index fc) has counts S ∧
    ∀ sw, 0 ≤ sw → adj_flag (adj_feature_updates fm) sw a = (0 <? count (S sw)).

Definition op_ok cm S (o : op) : Prop :=
  match o with
  | Enable sw fi data => 0 ≤ sw ∧ count (S sw) < 2 ^ 15 - 1 ∧ fi ≠ NO_INDEX ∧
      ∃ x, vget (node_index_by_feature_index cm) fi = Some x ∧ x ≠ NO_INDEX ∧ zlen data = node_words x ∧
        set_words (enabled (S sw)) + zlen data + 3 ≤ heap_max_size
  | Disable sw fi data => 0 ≤ sw ∧ fi ≠ NO_INDEX
  end.

Definition run_op (a : Z) fm g (o : op) : option (vnet_feature_main * graph * Z) :=
  match o with
  | Enable sw fi data => vnet_feature_enable_disable_with_index fm g a fi sw 1 data
  | Disable sw fi data => vnet_feature_enable_disable_with_index fm g a fi sw 0 data
  end.

(** ** The configurations of an arc whose end is no feature *)

Lemma on_path_all cm fs : node_words (end_node_index cm) < 0 → features_ok node_words cm fs → on_path cm fs = fs.
Proof.
  intros Hend [Hf _]. unfold on_path.
  assert (∀ f, f ∈ fs → node_index f ≠ end_node_index cm) as Hne; [intros f Hin Heq|].
  - destruct (Hf f Hin) as (_ & _ & Hlen). rewrite Heq in Hlen. pose proof (zlen_nonneg (feature_config f)). lia.
  - clear Hf. induction fs as [|f fs IH]; [done|]. rewrite filter_cons_True by (apply Hne; by left). f_equal. apply IH. intros f' Hin. apply Hne. by right.
Qed.

Lemma features_words_view cm fs : node_words (end_node_index cm) < 0 → features_ok node_words cm fs →
  features_words fs = set_words (features_set (view cm fs)).
Proof.
  intros Hend Hfs. unfold set_words. rewrite (list_words_perm _ _ (elements_features_set _)). unfold view. rewrite on_path_all by done.
  clear. induction fs as [|f fs IH]; [done|].
  change (features_words (f :: fs)) with (1 + zlen (feature_config f) + features_words fs). by rewrite IH.
Qed.
(** ** One operation *)

Lemma elem_delete (l : list Z) i j x : 0 ≤ i → vget l j = Some x → i ≠ j → x ∈ delete (Z.to_nat i) l.
Proof.
  intros Hi. unfold vget. case_cond; [|done]. intros Hx Hne. apply list_elem_of_lookup.
  destruct (decide (j < i)); [exists (Z.to_nat j)|exists (Z.to_nat j - 1)%nat].
  - by rewrite list_lookup_delete_lt by lia.
  - rewrite list_lookup_delete_ge by lia. by replace (S (Z.to_nat j - 1)) with (Z.to_nat j) by lia.
Qed.

(** The indices of the other interfaces. *)
Definition others (indices : list Z) (sw : Z) : list Z := held (delete (Z.to_nat sw) (vec_validate NO_INDEX indices sw)).

Lemma validated indices sw : 0 ≤ sw →
  vget (vec_validate NO_INDEX indices sw) sw = Some (velt NO_INDEX indices sw) ∧ 0 ≤ sw < zlen (vec_validate NO_INDEX indices sw).
Proof.
  intros Hsw. assert (0 ≤ sw < zlen (vec_validate NO_INDEX indices sw)) as Hr by (rewrite zlen_validate by done; lia).
  split; [|done]. by rewrite (vget_velt NO_INDEX), velt_validate.
Qed.

Lemma held_others indices sw : 0 ≤ sw → held indices ≡ₚ held [velt NO_INDEX indices sw] ++ others indices sw.
Proof. intros Hsw. rewrite <- (held_validate indices sw). apply held_split, validated, Hsw. Qed.

(** An interface that is new or has features is a user that gets a configuration. *)
Lemma user_of n cm g indices has counts S sw : represents n cm g indices has counts S → 0 ≤ sw →
  ∃ fs, user_at cm (velt NO_INDEX indices sw) fs (others indices sw) (held [velt NO_INDEX indices sw] ++ others indices sw) ∧
    inv node_words n0 None n cm g (held [velt NO_INDEX indices sw] ++ others indices sw) ∧ features_set (view cm fs) = enabled (S sw).
Proof.
  intros Hr Hsw. pose proof (inv_perm _ _ _ _ _ _ _ _ (held_others indices sw Hsw) (rp_inv _ _ _ _ _ _ _ Hr)) as Hinv.
  destruct (rp_index _ _ _ _ _ _ _ Hr sw Hsw) as [[Hci ->]|(Hci & fs & Hu & Hv)].
  - exists []. rewrite Hci in *. split; [by left|done].
  - exists fs. unfold held in *. rewrite filter_cons_True in * by done. split; [by right|done].
Qed.

Lemma represents_taken n cm g indices has counts S sw cm' g' ci' fs v :
  represents n cm g indices has counts S → 0 ≤ sw → taken node_words n0 n cm g (others indices sw) cm' g' ci' fs →
  features_set (view cm fs) = enabled v → 0 ≤ count v < 2 ^ 15 →
  represents (n + 1) cm' g' (vset (vec_validate NO_INDEX indices sw) sw ci') (clib_bitmap_set has sw (if 0 <? count v then 1 else 0))
    (vset (vec_validate 0 counts sw) sw (count v)) (<[sw := v]> S).
Proof.
  intros Hr Hsw [Hinv Hci (fs' & Hfs' & Hv') Harc Hkept] Hv Hcount. destruct (validated indices sw Hsw) as [Hget Hlen]. constructor.
  - apply (inv_perm _ _ _ _ _ _ (ci' :: others indices sw)); [|done]. unfold others. rewrite held_vset by done.
    unfold held. by rewrite filter_cons_True by lia.
  - destruct Harc as (_ & -> & _). by apply (rp_end _ _ _ _ _ _ _ Hr).
  - intros sw' Hsw'. destruct (decide (sw' = sw)) as [->|Hne].
    + rewrite velt_vset_eq, fn_lookup_insert by done. right. split; [lia|]. exists fs'. split; [done|]. by rewrite (view_same cm) in * by done; rewrite Hv'.
    + rewrite velt_vset_ne, velt_validate, fn_lookup_insert_ne by done.
      destruct (rp_index _ _ _ _ _ _ _ Hr sw' Hsw') as [?|(Hci' & fs'' & Hu & Hw)]; [by left|right]. split; [done|]. exists fs''.
      rewrite (view_same cm) by done. split; [|done]. rewrite Hkept; [done|]. unfold others, held. apply list_elem_of_filter. split; [done|].
      apply (elem_delete _ _ sw'); [done| |done]. rewrite (vget_velt NO_INDEX), velt_validate; [done|].
      rewrite zlen_validate by done. destruct (decide (sw' < zlen indices)); [lia|]. by rewrite velt_out in Hci' by lia.
  - apply wf_set, (rp_wf _ _ _ _ _ _ _ Hr).
  - intros sw' Hsw'. destruct (decide (sw' = sw)) as [->|Hne].
    + rewrite velt_vset_eq, fn_lookup_insert by (rewrite zlen_validate by done; lia). done.
    + rewrite velt_vset_ne, velt_validate, fn_lookup_insert_ne by done. by apply (rp_count _ _ _ _ _ _ _ Hr).
  - intros sw' Hsw'. rewrite get_bit, bit_set by (done || apply (rp_wf _ _ _ _ _ _ _ Hr)). destruct (Z.eqb_spec sw' sw) as [->|Hne].
    + rewrite fn_lookup_insert. by destruct (0 <? count v).
    + rewrite fn_lookup_insert_ne, <- get_bit by done. by apply (rp_has _ _ _ _ _ _ _ Hr).
Qed.
(** Arc [b] is as it was. *)
Definition arc_kept (b : Z) fm fm' : Prop :=
  vget (feature_config_mains fm') b = vget (feature_config_mains fm) b ∧
  vget (sw_if_index_has_features fm') b = vget (sw_if_index_has_features fm) b ∧
  vget (feature_count_by_sw_if_index fm') b = vget (feature_count_by_sw_if_index fm) b ∧
  ∀ sw, adj_flag (adj_feature_updates fm') sw b = adj_flag (adj_feature_updates fm) sw b.

(** What an operation on arc [a] leaves as it is. *)
Definition elsewhere (a : Z) fm fm' : Prop :=
  arc_index_by_name fm' = arc_index_by_name fm ∧ next_feature_by_name fm' = next_feature_by_name fm ∧ ∀ b, b ≠ a → arc_kept b fm fm'.

Lemma adj_flag_snoc l sw a b sw' a' : adj_flag (l ++ [(sw, a, b)]) sw' a' = if decide ((sw, a) = (sw', a')) then b else adj_flag l sw' a'.
Proof.
  unfold adj_flag. rewrite filter_app, filter_cons, filter_nil. cbn [fst]. case_decide; [by rewrite last_snoc|by rewrite app_nil_r].
Qed.

Lemma set_arc_elsewhere a fc has counts fm updates : (∀ u, u ∈ updates → u.1.2 = a) → (length updates ≤ 1)%nat → elsewhere a fm (set_arc a fc has counts updates fm).
Proof.
  intros Hu Hl. split; [done|]. split; [done|]. intros b Hb. unfold arc_kept. cbn. rewrite !vget_vset_ne by done. split_and!; try done. intros sw.
  destruct updates as [|[ [sw' a'] on] [|? ?]]; [by rewrite app_nil_r| |cbn in Hl; lia]. rewrite adj_flag_snoc, decide_False; [done|].
  specialize (Hu (sw', a', on) ltac:(by left)). cbn in Hu. subst. congruence.
Qed.

(** The state of arc [a] after it is written. *)
Lemma arc_rep_set a n fm g S S' cm' indices has counts updates :
  is_Some (vget (feature_config_mains fm) a) → is_Some (vget (sw_if_index_has_features fm) a) → is_Some (vget (feature_count_by_sw_if_index fm) a) →
  represents n cm' g indices has counts S' → (∀ sw, 0 ≤ sw → adj_flag (adj_feature_updates fm ++ updates) sw a = (0 <? count (S' sw))) →
  arc_rep a n (set_arc a (FeatureConfigMain cm' indices) has counts updates fm) g S'.
Proof.
  intros [? H1%vget_Some_range] [? H2%vget_Some_range] [? H3%vget_Some_range] Hr Hadj.
  exists (FeatureConfigMain cm' indices), has, counts. cbn. rewrite !vget_vset_eq by done. done.
Qed.

Lemma represents_later n cm g indices has counts S sw : 0 ≤ sw → represents n cm g indices has counts S →
  represents (n + 1) cm g (vec_validate NO_INDEX indices sw) has (vec_validate 0 counts sw) S.
Proof.
  intros Hsw [H1 H2 H3 H4 H5 H6]. constructor; try done.
  - rewrite held_validate. by apply inv_later.
  - intros sw'. rewrite velt_validate. apply H3.
  - intros sw'. rewrite velt_validate. apply H5.
Qed.

(** An operation that got configuration [ci'] for the interface. *)
Lemma arc_rep_taken a n fm g S sw cm' g' ci' fs v fc has counts :
  vget (feature_config_mains fm) a = Some fc → vget (sw_if_index_has_features fm) a = Some has → vget (feature_count_by_sw_if_index fm) a = Some counts →
  represents n (config_main fc) g (config_index_by_sw_if_index fc) has counts S →
  (∀ sw, 0 ≤ sw → adj_flag (adj_feature_updates fm) sw a = (0 <? count (S sw))) → 0 ≤ sw →
  taken node_words n0 n (config_main fc) g (others (config_index_by_sw_if_index fc) sw) cm' g' ci' fs →
  features_set (view (config_main fc) fs) = enabled v → 0 ≤ count v < 2 ^ 15 →
  arc_rep a (n + 1) (set_arc a (FeatureConfigMain cm' (vset (vec_validate NO_INDEX (config_index_by_sw_if_index fc) sw) sw ci'))
    (clib_bitmap_set has sw (if 0 <? count v then 1 else 0)) (vset (vec_validate 0 counts sw) sw (count v)) [(sw, a, 0 <? count v)] fm) g' (<[sw := v]> S).
Proof.
  intros H1 H2 H3 Hr Hadj Hsw Htaken Hv Hcount. apply (arc_rep_set _ _ _ _ S); [by eexists..|by eapply represents_taken|].
  intros sw' Hsw'. rewrite adj_flag_snoc. destruct (decide (sw' = sw)) as [->|Hne]; [by rewrite decide_True, fn_lookup_insert|].
  rewrite decide_False, fn_lookup_insert_ne by congruence. by apply Hadj.
Qed.

Lemma i16_small z : - 2 ^ 15 ≤ z < 2 ^ 15 → i16 z = z.
Proof. intros Hz. unfold i16. rewrite Z.mod_small; lia. Qed.

Lemma run_op_ok a n fm g S o fc :
  arc_rep a n fm g S → a ≠ NO_ARC → vget (feature_config_mains fm) a = Some fc → room n0 (config_main fc) n → op_ok (config_main fc) S o →
  ∃ fm' g', run_op a fm g o = Some (fm', g', 0) ∧ arc_rep a (n + 1) fm' g' (spec_step S o) ∧ elsewhere a fm fm' ∧
    ∃ fc', vget (feature_config_mains fm') a = Some fc' ∧ same_arc (config_main fc) (config_main fc').
Proof.
  intros (fc0 & has & counts & Hfc & Hhas & Hcounts & Hr & Hadj) Ha Hfc' Hroom Hop. rewrite Hfc' in Hfc. injection Hfc as <-.
  pose proof (vget_Some_range _ _ _ Hfc') as Hrange.
  destruct o as [sw fi data|sw fi data]; cbn [run_op]; unfold vnet_feature_enable_disable_with_index; replace (a =? NO_ARC) with false by lia;
    rewrite Hfc', Hhas, Hcounts; cbn [mbind option_bind]; rewrite !velt_validate.
  - destruct Hop as (Hsw & Hcount & Hfi & x & Hx & Hne & Hlen & Hfit). replace (fi =? NO_INDEX) with false by lia.
    destruct (rp_count _ _ _ _ _ _ _ Hr sw Hsw) as [Hc Hcr]. destruct (user_of _ _ _ _ _ _ _ _ Hr Hsw) as (fs & Hu & Hinv & Hv).
    assert (features_ok node_words (config_main fc) fs) as Hfs.
    { destruct Hu as [(_ & -> & _)|(Hci & Hu & Hh)]; [apply features_ok_nil|]. rewrite Hh in Hinv. by destruct (user_config_held _ _ _ _ _ _ _ _ Hinv Hu) as (? & ? & ? & ? & ? & ? & ? & ?). }
    destruct (add_feature_ok node_words n0 n (config_main fc) g (others (config_index_by_sw_if_index fc) sw) _ _ fi x data fs Hinv Hu Hroom Hx Hne Hlen) as
      (cm' & g' & ci' & Hadd & Htaken).
    { rewrite (features_words_view _ _ (rp_end _ _ _ _ _ _ _ Hr) Hfs), Hv. lia. }
    cbn [Z.eqb negb andb]. rewrite Hadd. cbn [mbind option_bind]. change (0 <? 1) with true. cbn iota. rewrite Hc, i16_small by lia.
    replace (0 <=? count (S sw) + 1) with true by lia. cbn [negb]. eexists _, _. split; [reflexivity|]. split_and!.
    + eapply (arc_rep_taken a n fm g S sw cm' g' ci' _ (Intf (count (S sw) + 1) ({[+ (fi, data) +]} ⊎ enabled (S sw)))); try done; [|cbn; lia].
      cbn [enabled]. unfold features_set. rewrite view_added. unfold added. rewrite decide_False.
      * cbn [app]. rewrite list_to_set_disj_cons. f_equal. exact Hv.
      * intros ->. pose proof (rp_end _ _ _ _ _ _ _ Hr). pose proof (zlen_nonneg data). lia.
    + apply set_arc_elsewhere; [|done]. by intros u ->%list_elem_of_singleton.
    + eexists. split; [cbn; by apply vget_vset_eq|apply Htaken].
  - destruct Hop as (Hsw & Hfi). replace (fi =? NO_INDEX) with false by lia. destruct (rp_count _ _ _ _ _ _ _ Hr sw Hsw) as [Hc Hcr].
    cbn [Z.eqb negb andb spec_step]. rewrite Hc. destruct (Z.ltb_spec (count (S sw)) 1) as [Hlow|Hhigh].
    + eexists _, _. split; [reflexivity|]. split_and!.
      * apply (arc_rep_set _ _ _ _ S); [by eexists..|by apply represents_later|]. by rewrite app_nil_r.
      * apply set_arc_elsewhere; [by intros u ?%not_elem_of_nil|cbn; lia].
      * eexists. split; [cbn; by apply vget_vset_eq|done].
    + destruct (user_of _ _ _ _ _ _ _ _ Hr Hsw) as (fs & [(Hno & _)|(Hci & Hu & Hh)] & Hinv & Hv).
      { destruct (rp_index _ _ _ _ _ _ _ Hr sw Hsw) as [[_ Hs]|[? _] ]; [rewrite Hs in Hhigh; cbn in Hhigh; lia|done]. }
      rewrite Hh in Hinv. destruct (user_config_held _ _ _ _ _ _ _ _ Hinv Hu) as (_ & _ & _ & _ & _ & _ & Hfs & _).
      destruct (del_feature_ok node_words n0 n (config_main fc) g _ _ fi data fs Hinv Hu Hroom) as (cm' & g' & ci' & Hdel & Htaken).
      rewrite Hdel. cbn [mbind option_bind]. change (0 <? 0) with false. cbn iota. rewrite i16_small by lia.
      replace (0 <=? count (S sw) + -1) with true by lia. cbn [negb]. eexists _, _. split; [reflexivity|]. split_and!.
      * eapply (arc_rep_taken a n fm g S sw cm' g' ci' _ (Intf (count (S sw) - 1) (enabled (S sw) ∖ {[+ (fi, data) +]}))); try done; [|cbn; lia].
        cbn [enabled]. rewrite (view_deleted node_words) by done. by rewrite Hv.
      * apply set_arc_elsewhere; [|done]. by intros u ->%list_elem_of_singleton.
      * eexists. split; [cbn; by apply vget_vset_eq|apply Htaken].
Qed.
(** ** Packets *)

Lemma walk_path a fm g fc fuel x k ci l :
  vget (feature_config_mains fm) a = Some fc → walk node_words fuel (config_main fc) g x k ci = Some l →
  ∃ data slot ci' y rest, vnet_get_config_data (config_main fc) ci k = Some (data, slot, ci') ∧ next_node g x slot = Some y ∧
    l = (x, data) :: rest ∧ feature_path (length rest) fm g node_words (end_node_index (config_main fc)) y (Buffer a ci') = Some rest.
Proof.
  intros Hfc. revert x k ci l. induction fuel as [|fuel IH]; intros x k ci l Hw; [done|]. cbn [walk] in Hw.
  destruct (vnet_get_config_data _ ci k) as [ [ [data slot] ci']|] eqn:Hget; [|done]. cbn [mbind option_bind] in Hw.
  destruct (next_node g x slot) as [y|] eqn:Hy; [|done]. cbn [mbind option_bind] in Hw. exists data, slot, ci', y.
  destruct (Z.eqb_spec y (end_node_index (config_main fc))) as [->|Hne].
  - injection Hw as <-. exists []. split_and!; try done. cbn. by rewrite Z.eqb_refl.
  - destruct (walk node_words fuel _ g y (node_words y) ci') as [rest|] eqn:Hrest; [|done]. injection Hw as <-. exists rest. split_and!; try done.
    destruct (IH _ _ _ _ Hrest) as (data' & slot' & ci2 & y' & rest' & Hget' & Hy' & -> & Hpath). cbn [length feature_path].
    replace (y =? end_node_index (config_main fc)) with false by lia. unfold vnet_feature_next_with_data. cbn [feature_arc_index current_config_index].
    rewrite Hfc. cbn [mbind option_bind]. rewrite Hget'. cbn [mbind option_bind]. rewrite Hy'. cbn [mbind option_bind]. by rewrite Hpath.
Qed.

(** The nodes of features, with their data. *)
Definition at_nodes cm (l : list (Z * list Z)) : list (Z * list Z) := map (λ d, (velt 0 (node_index_by_feature_index cm) d.1, d.2)) l.

(** What a packet of an interface meets: the features of a multiset, in the order of their indices. *)
Definition visits (M : gmultiset (Z * list Z)) (l : list (Z * list Z)) : Prop := features_set l = M ∧ Sorted (λ d d', d.1 ≤ d'.1) l.

Lemma view_nodes cm fs : node_words (end_node_index cm) < 0 → features_ok node_words cm fs →
  map (λ f, (node_index f, feature_config f)) (on_path cm fs) = at_nodes cm (view cm fs) ∧ Sorted (λ d d', d.1 ≤ d'.1) (view cm fs).
Proof.
  intros Hend Hfs. unfold at_nodes, view. rewrite !on_path_all by done. destruct Hfs as [Hf Hs]. split.
  - clear Hs. induction fs as [|f fs IH]; [done|]. cbn [map fst snd]. rewrite IH by (intros; apply Hf; by right). destruct (Hf f ltac:(by left)) as (Hx & _). unfold velt. by rewrite Hx.
  - clear Hf. induction Hs as [|f fs Hs IH Hhd]; cbn; constructor; [done|]. by destruct Hhd; constructor.
Qed.

Lemma packets_ok a n fm g S fc sw x next b :
  arc_rep a n fm g S → vget (feature_config_mains fm) a = Some fc → n * heap_max_size ≤ heap_limit → 0 ≤ sw → x ∈ start_node_indices (config_main fc) →
  if 0 <? count (S sw)
  then ∃ l, visits (enabled (S sw)) l ∧
         packet_path (length l) fm g node_words a sw x next b = Some (Some (at_nodes (config_main fc) l))
  else ∀ fuel, packet_path fuel fm g node_words a sw x next b = Some None.
Proof.
  intros (fc0 & has & counts & Hfc0 & Hhas & Hcounts & Hr & Hadj) Hfc Hlim Hsw Hx. rewrite Hfc in Hfc0. injection Hfc0 as <-.
  unfold packet_path, vnet_feature_arc_start_with_data, vnet_have_features. rewrite Hfc, Hhas. cbn [mbind option_bind].
  rewrite (rp_has _ _ _ _ _ _ _ Hr sw Hsw). destruct (Z.ltb_spec 0 (count (S sw))) as [Hc|Hc]; [|done].
  destruct (rp_index _ _ _ _ _ _ _ Hr sw Hsw) as [[_ Hs]|(Hci & fs & Hu & Hv)]; [rewrite Hs in Hc; cbn in Hc; lia|].
  set (ci := velt NO_INDEX (config_index_by_sw_if_index fc) sw) in *.
  assert (vget (config_index_by_sw_if_index fc) sw = Some ci) as Hget.
  { apply vget_velt. destruct (decide (sw < zlen (config_index_by_sw_if_index fc))); [lia|]. exfalso. apply Hci. unfold ci. by rewrite velt_out by lia. }
  assert (ci ∈ held (config_index_by_sw_if_index fc)) as Hin by (unfold held; apply list_elem_of_filter; split; [done|by eapply vget_elem]).
  pose proof (rp_inv _ _ _ _ _ _ _ Hr) as Hinv. destruct (held_config _ _ _ _ _ _ _ Hinv ci Hin) as (i & c & Hcu & Hpool & _).
  assert (features_ok node_words (config_main fc) fs) as Hfs.
  { unfold user_features in Hu. rewrite Hcu in Hu. injection Hu as <-. apply (iv_at _ _ _ _ _ _ _ Hinv i c Hpool). }
  destruct (view_nodes _ _ (rp_end _ _ _ _ _ _ _ Hr) Hfs) as [Hnodes Hsorted].
  pose proof (packet_walk _ _ _ _ _ _ _ _ _ x Hinv Hin Hu Hlim Hx) as Hwalk. rewrite Hnodes in Hwalk.
  destruct (walk_path a fm g fc _ _ _ _ _ Hfc Hwalk) as (data & slot & ci' & y & rest & Hd & Hy & Heq & Hpath). injection Heq as <- <-.
  exists (view (config_main fc) fs). split; [done|]. rewrite Hget. cbn [mbind option_bind]. rewrite Hd. cbn [mbind option_bind]. rewrite Hy. cbn [mbind option_bind].
  unfold at_nodes in Hpath at 1. rewrite length_map in Hpath. by rewrite Hpath.
Qed.
End spec.
End FeatureSpec.
