(* ===== verification/FeatureSystem.v ===== *)
(** * The feature arcs: runs

    An arc is used together with the others and with whatever else adds arcs to the node graph: [reaches] is the states that
    it comes to.  They represent the specification, every operation on them succeeds, and so do their packets.  The number
    of features is that of those that are enabled when only those are disabled; else it is not. *)

From stdpp Require Import gmap gmultiset sorting functions.
From S2P Require Import Prelude Bitmap Pool Graph HeapAlloc Config ConfigHeap ConfigWire ConfigSpec ConfigOps Feature FeatureSpec.
Open Scope Z_scope.

Module FeatureSystem.
Import ClibBitmap ClibPool Config ConfigHeap ConfigWire ConfigSpec ConfigOps Feature FeatureSpec.

(** An arc whose number of features is that of those that are enabled. *)
Definition balanced (S : arc_spec) : Prop := ∀ sw, count (S sw) = Z.of_nat (size (enabled (S sw))).

(** A feature that is disabled is enabled, unless nothing is. *)
Definition matched (S : arc_spec) (o : op) : Prop :=
  match o with
  | Enable _ _ _ => True
  | Disable sw fi data => count (S sw) < 1 ∨ (fi, data) ∈ enabled (S sw)
  end.

Definition spec_0 : arc_spec := λ _, Intf 0 ∅.

Lemma balanced_0 : balanced spec_0.
Proof. done. Qed.

Lemma balanced_step S o : balanced S → matched S o → balanced (spec_step S o).
Proof.
  intros Hb Hm. destruct o as [sw fi data|sw fi data]; cbn [spec_step].
  - intros sw'. destruct (decide (sw' = sw)) as [->|Hne]; [|rewrite fn_lookup_insert_ne by done; apply Hb].
    rewrite fn_lookup_insert. cbn [count enabled]. rewrite gmultiset_size_disj_union, gmultiset_size_singleton, (Hb sw). lia.
  - destruct (Z.ltb_spec (count (S sw)) 1) as [Hlow|Hhigh]; [done|]. destruct Hm as [?|Hin]; [lia|].
    intros sw'. destruct (decide (sw' = sw)) as [->|Hne]; [|rewrite fn_lookup_insert_ne by done; apply Hb].
    rewrite fn_lookup_insert. cbn [count enabled]. rewrite gmultiset_size_difference, gmultiset_size_singleton, (Hb sw) by multiset_solver.
    rewrite (Hb sw) in Hhigh. lia.
Qed.

Lemma balanced_empty S sw : balanced S → (0 <? count (S sw)) = bool_decide (enabled (S sw) ≠ ∅).
Proof.
  intros Hb. rewrite (Hb sw). case_bool_decide as He.
  - apply gmultiset_size_non_empty_iff in He. lia.
  - by rewrite He.
Qed.

Section system.
Context {Heap : HeapAlloc} {HL : HeapAllocLaws Heap} {Net : NodeGraph} {NL : NodeGraphLaws Net} {Sort : Qsort} {SL : QsortLaws Sort}.
Context (node_words : Z → Z) (n0 a : Z) (Ha : a ≠ NO_ARC).
Implicit Types (cm : vnet_config_main) (g : graph) (fm : vnet_feature_main) (S : arc_spec) (fc : vnet_feature_config_main).

(** An arc without configurations, in a graph with all its nodes. *)
Record fresh_arc fm g : Prop := {
  fa_cm cm indices : vget (feature_config_mains fm) a = Some (FeatureConfigMain cm indices) →
    config_pool cm = pool_null ∧ config_string_hash cm = ∅ ∧ config_string_heap cm = heap_empty ∧ indices = [] ∧
    arc_ok cm ∧ net_ok cm g ∧ node_words (end_node_index cm) < 0;
  fa_arc : is_Some (vget (feature_config_mains fm) a);
  fa_has : vget (sw_if_index_has_features fm) a = Some [];
  fa_counts : vget (feature_count_by_sw_if_index fm) a = Some [];
  fa_updates : adj_feature_updates fm = [];
  fa_slots : slots_below g n0;
}.

(** The states of the arc after [n] operations on it, all of which are [allowed], and changes by other code: those keep the
    state of the arc, and the graph grows. *)
Inductive reaches (allowed : arc_spec → op → Prop) : Z → vnet_feature_main → graph → arc_spec → Prop :=
  | reaches_fresh fm g : fresh_arc fm g → reaches allowed 0 fm g spec_0
  | reaches_op n fm g S fc o fm' g' ret :
      reaches allowed n fm g S → allowed S o → vget (feature_config_mains fm) a = Some fc → room n0 (config_main fc) n → op_ok node_words (config_main fc) S o →
      run_op a fm g o = Some (fm', g', ret) → reaches allowed (n + 1) fm' g' (spec_step S o)
  | reaches_others n fm g S fc fm' g' :
      reaches allowed n fm g S → vget (feature_config_mains fm) a = Some fc → arc_kept a fm fm' → net_ok (config_main fc) g' → grows g g' →
      slots_below g' (n0 + (n + 1) * (step_slots (config_main fc) * heap_max_size)) → reaches allowed (n + 1) fm' g' S.

Lemma pool_elt_null i : pool_elt_at_index (pool_null : pool vnet_config) i = None.
Proof. unfold pool_elt_at_index. by destruct (pool_is_free_index _ _); [|unfold vget, pool_null; cbn; rewrite lookup_nil; case_cond]. Qed.

Lemma fresh_rep fm g : fresh_arc fm g → arc_rep node_words n0 a 0 fm g spec_0.
Proof.
  intros [Hcm [ [cm indices] Hfc] Hhas Hcounts Hupd Hslots]. destruct (Hcm _ _ Hfc) as (Hp & Hh & Hheap & -> & Hao & Hnet & Hend).
  destruct heap_empty_ok as (Hok & Hb & Hw).
  exists (FeatureConfigMain cm []), [], []. split_and!; try done; [|by rewrite Hupd]. constructor; cbn [config_main config_index_by_sw_if_index]; try done.
  - constructor; try done; rewrite ?Hp, ?Hh, ?Hheap, ?Hw; try done.
    + apply pool_null_ok.
    + intros x. pose proof (Hslots x). lia.
    + intros i c Hc. by rewrite pool_elt_null in Hc.
    + intros i c Hc. by rewrite pool_elt_null in Hc.
    + intros ci ?%not_elem_of_nil. done.
  - intros sw Hsw. left. split; [|done]. apply velt_out. right. done.
  - constructor.
  - intros sw Hsw. split; [|done]. apply velt_out. right. done.
  - intros sw Hsw. unfold clib_bitmap_get. pose proof (Z.div_pos sw BITS Hsw ltac:(done)). by destruct (Z.ltb_spec (sw / BITS) (zlen ([] : bitmap))); [change (zlen ([] : bitmap)) with 0 in *; lia|].
Qed.

Lemma reaches_rep allowed n fm g S : reaches allowed n fm g S → arc_rep node_words n0 a n fm g S.
Proof.
  induction 1 as [fm g Hf|n fm g S fc o fm' g' ret _ IH _ Hfc Hroom Hop Hrun|n fm g S fc fm' g' _ IH Hfc (H1 & H2 & H3 & H4) Hnet Hg Hslots].
  - by apply fresh_rep.
  - destruct (run_op_ok node_words n0 a n fm g S o fc IH Ha Hfc Hroom Hop) as (fm2 & g2 & Hrun2 & Hrep & _). rewrite Hrun in Hrun2. by injection Hrun2 as -> -> _.
  - destruct IH as (fc0 & has & counts & Hfc0 & Hhas & Hcounts & Hr & Hadj). rewrite Hfc in Hfc0. injection Hfc0 as <-.
    exists fc, has, counts. rewrite H1, H2, H3. split_and!; try done; [|intros sw Hsw; rewrite H4; by apply Hadj].
    destruct Hr as [Hr1 Hr2 Hr3 Hr4 Hr5 Hr6]. constructor; try done. eapply inv_graph; [exact Hr1|done..|apply heap_max_nonneg].
Qed.
Lemma reaches_balanced n fm g S : reaches matched n fm g S → balanced S.
Proof. induction 1; [apply balanced_0|by apply balanced_step|done]. Qed.

Lemma have_features_ok n fm g S sw : arc_rep node_words n0 a n fm g S → 0 ≤ sw → vnet_have_features fm a sw = Some (0 <? count (S sw)).
Proof.
  intros (fc & has & counts & _ & Hhas & _ & Hr & _) Hsw. unfold vnet_have_features. rewrite Hhas. cbn [mbind option_bind].
  by rewrite (rp_has _ _ _ _ _ _ _ _ _ Hr sw Hsw).
Qed.



(** C19: Disabling a feature that is not enabled, on an interface with one feature, is reported as done and takes
    the interface off the arc: its feature stays in the configuration, and packets no longer visit it. *)
Theorem disable_absent_stops_arc n fm g S fc sw fi data
    (Hrep : arc_rep node_words n0 a n fm g S) (Hfc : vget (feature_config_mains fm) a = Some fc) (Hroom : room n0 (config_main fc) n)
    (Hsw : 0 ≤ sw) (Hfi : fi ≠ NO_INDEX) (Hone : count (S sw) = 1) (Habsent : (fi, data) ∉ enabled (S sw)) :
  ∃ fm' g', vnet_feature_enable_disable_with_index fm g a fi sw 0 data = Some (fm', g', 0) ∧
    arc_rep node_words n0 a (n + 1) fm' g' (<[sw := Intf 0 (enabled (S sw))]> S) ∧
    vnet_have_features fm' a sw = Some false.
Proof using HL NL SL Ha.
  destruct (run_op_ok node_words n0 a n fm g S (Disable sw fi data) fc Hrep Ha Hfc Hroom (conj Hsw Hfi)) as (fm' & g' & Hrun & Hrep' & _).
  cbn [spec_step] in Hrep'. rewrite Hone in Hrep'. replace (enabled (S sw) ∖ {[+ (fi, data) +]}) with (enabled (S sw)) in Hrep' by multiset_solver.
  exists fm', g'. split_and!; [exact Hrun|exact Hrep'|]. rewrite (have_features_ok _ _ _ _ sw Hrep' Hsw). by rewrite fn_lookup_insert.
Qed.

(** Enabling a feature whose node was not found at the initialisation, on an interface that had none yet, is reported
    as done and sets the bit of the interface without a configuration: its next packet reads the string of the arc at [~0]. *)
Theorem enable_missing_node n fm g S fc sw fi data
    (Hrep : arc_rep node_words n0 a n fm g S) (Hfc : vget (feature_config_mains fm) a = Some fc) (Hlim : n * heap_max_size ≤ heap_limit)
    (Hsw : 0 ≤ sw) (Hfi : fi ≠ NO_INDEX) (Hnode : vget (node_index_by_feature_index (config_main fc)) fi = Some NO_INDEX)
    (Hnew : velt NO_INDEX (config_index_by_sw_if_index fc) sw = NO_INDEX) :
  ∃ fm', vnet_feature_enable_disable_with_index fm g a fi sw 1 data = Some (fm', g, 0) ∧ vnet_have_features fm' a sw = Some true ∧
    ∀ next b k, 0 ≤ k → vnet_feature_arc_start_with_data fm' a sw next b k = None.
Proof using HL NL SL Ha.
  destruct Hrep as (fc0 & has & counts & Hfc0 & Hhas & Hcounts & Hr & _). rewrite Hfc in Hfc0. injection Hfc0 as <-.
  destruct (rp_index _ _ _ _ _ _ _ _ _ Hr sw Hsw) as [[_ Hs]|[? _] ]; [|done]. destruct (rp_count _ _ _ _ _ _ _ _ _ Hr sw Hsw) as [Hc _].
  rewrite Hs in Hc. cbn [count] in Hc. pose proof (vget_Some_range _ _ _ Hfc). pose proof (vget_Some_range _ _ _ Hhas).
  unfold vnet_feature_enable_disable_with_index. replace (a =? NO_ARC) with false by lia. replace (fi =? NO_INDEX) with false by lia.
  rewrite Hfc, Hhas, Hcounts. cbn [mbind option_bind]. rewrite !velt_validate, Hc, Hnew. cbn [Z.eqb negb andb].
  unfold vnet_config_add_feature. rewrite Hnode. cbn [mbind option_bind]. rewrite Z.eqb_refl. cbn [mbind option_bind].
  change (i16 (0 + (if 0 <? 1 then 1 else -1))) with 1. cbn [Z.leb Z.compare negb Z.ltb]. eexists. split; [reflexivity|].
  match goal with |- vnet_have_features ?fm' _ _ = _ ∧ _ => set (fm1 := fm') end.
  assert (vnet_have_features fm1 a sw = Some true) as Hhave.
  { unfold vnet_have_features, fm1. cbn [set_arc sw_if_index_has_features]. rewrite vget_vset_eq by done. cbn [mbind option_bind].
    by rewrite get_bit, bit_set, Z.eqb_refl by (done || apply (rp_wf _ _ _ _ _ _ _ _ _ Hr)). }
  split; [done|]. intros next b k Hk. unfold vnet_feature_arc_start_with_data. rewrite Hhave. unfold fm1. cbn [set_arc feature_config_mains].
  rewrite vget_vset_eq by done. cbn [mbind option_bind config_index_by_sw_if_index config_main].
  rewrite vget_vset_eq by (by apply validated). cbn [mbind option_bind]. unfold vnet_get_config_data.
  pose proof (iv_words _ _ _ _ _ _ _ (rp_inv _ _ _ _ _ _ _ _ _ Hr)). pose proof heap_limit_small.
  rewrite vget_out; [done|]. right. unfold NO_INDEX, u32_max. lia.
Qed.
End system.
End FeatureSystem.
