(* ===== verification/FeatureInit.v ===== *)
(** * The feature arcs: their initialisation

    What [vnet_feature_init] makes of the registrations: for every arc the features in an order that keeps the constraints,
    the configurations with the nodes of the features, empty, and the table of the features by name. *)

From stdpp Require Import gmap strings.
From S2P Require Import Prelude Bitmap Pool Ptclosure Graph FeatureOrder HeapAlloc Config ConfigHeap ConfigWire Feature.
Open Scope Z_scope.

Module FeatureInit.
Import ClibPool Config ConfigWire Feature.
Import FeatureOrder(vnet_feature_registration, node_name, regs_ok, before, precedes, feature_arc, vnet_feature_arc_init).

Section init.
Context {Heap : HeapAlloc} {Net : NodeGraph} {Sort : Qsort}.
Context (by_name : string → option Z).

(** The registrations of an arc, the last one first. *)
Definition arc_features (name : string) (fregs : list (string * vnet_feature_registration)) : list vnet_feature_registration :=
  reverse (snd <$> filter (λ f, f.1 = name) fregs).

Lemma index_arcs_ok arcs : NoDup (arc_name <$> arcs) → zlen arcs ≤ 2 ^ 8 →
  ∀ name i, index_arcs arcs !! name = Some i ↔ ∃ k a, arcs !! k = Some a ∧ arc_name a = name ∧ i = Z.of_nat k.
Proof.
  unfold index_arcs. intros Hnd Hl.
  assert (let r : gmap string Z * Z := foldl (λ '(m, i) a, (<[arc_name a := u8 i]> m, i + 1)) (∅, 0) arcs in r.2 = zlen arcs ∧
    ∀ name i, r.1 !! name = Some i ↔ ∃ k a, arcs !! k = Some a ∧ arc_name a = name ∧ i = Z.of_nat k) as H; [|apply H].
  induction arcs as [|a arcs IH] using rev_ind.
  { split; [done|]. intros name i. cbn. rewrite lookup_empty. split; [done|]. intros (k & a & Hk & _). by rewrite lookup_nil in Hk. }
  rewrite foldl_snoc. rewrite fmap_app in Hnd. apply NoDup_app in Hnd as (Hnd & Hno & _). rewrite zlen_app, zlen_cons, zlen_nil in Hl.
  destruct (IH Hnd ltac:(lia)) as [H2 H1]. destruct (foldl _ _ arcs) as [m j]. cbn in H1, H2 |- *. subst j. split; [rewrite zlen_app; done|].
  pose proof (zlen_nonneg arcs). intros name i. destruct (decide (arc_name a = name)) as [<-|Hne].
  - rewrite lookup_insert_eq. split.
    + intros [= <-]. exists (length arcs), a. rewrite u8_small by (unfold in_u8; lia). split_and!; [|done|done]. by rewrite lookup_app_r, Nat.sub_diag.
    + intros (k & a' & Hk & Heq & ->). apply lookup_app_Some in Hk as [Hk|[Hlen Hk] ].
      * exfalso. apply (Hno (arc_name a)); [|by left]. rewrite <- Heq. apply list_elem_of_fmap. exists a'. split; [done|]. by eapply list_elem_of_lookup_2.
      * apply list_lookup_singleton_Some in Hk as [Hk _]. rewrite u8_small by (unfold in_u8; lia). f_equal. unfold zlen. lia.
  - rewrite lookup_insert_ne by done. rewrite H1. split; intros (k & a' & Hk & Heq & ->); exists k, a'; (split; [|done]).
    + by apply lookup_app_l_Some.
    + apply lookup_app_Some in Hk as [Hk|[_ Hk] ]; [done|]. by apply list_lookup_singleton_Some in Hk as [_ ->].
Qed.

Lemma features_by_arc_ok index fregs by_arc by_arc' :
  (∀ name name' i, index !! name = Some i → index !! name' = Some i → name = name') → (∀ name i, index !! name = Some i → 0 ≤ i < zlen by_arc) →
  features_by_arc index fregs by_arc = inr by_arc' →
  zlen by_arc' = zlen by_arc ∧ ∀ name i, index !! name = Some i → velt [] by_arc' i = arc_features name fregs ++ velt [] by_arc i.
Proof.
  intros Hinj. revert by_arc. induction fregs as [|[arc r] fregs IH]; intros by_arc Hr; cbn [features_by_arc].
  { intros [= <-]. done. }
  destruct (index !! arc) as [i|] eqn:Hi; [|done]. intros Hrest. destruct (IH (vset by_arc i (r :: velt [] by_arc i))) as [Hl Hv]; [by intros; rewrite zlen_vset; eapply Hr|done|].
  rewrite zlen_vset in Hl. split; [done|]. intros name j Hj. rewrite (Hv name j Hj). unfold arc_features. destruct (decide (arc = name)) as [->|Hne].
  - rewrite Hi in Hj. injection Hj as <-. rewrite velt_vset_eq by by eapply Hr. rewrite filter_cons_True by done. rewrite fmap_cons, reverse_cons, <- app_assoc. done.
  - rewrite velt_vset_ne by (intros ->; apply Hne; by eapply Hinj). by rewrite filter_cons_False.
Qed.

Lemma insert_names_ok (l : list (vnet_feature_registration * Z)) r i : NoDup (node_name <$> l.*1) → (r, i) ∈ l →
  foldl (λ (m : gmap string Z) ri, <[node_name ri.1 := ri.2]> m) ∅ l !! node_name r = Some i.
Proof.
  induction l as [|[r' i'] l IH] using rev_ind; [by intros _ ?%not_elem_of_nil|]. rewrite !fmap_app, foldl_snoc. intros (Hnd & Hno & _)%NoDup_app.
  intros [Hin|Heq%list_elem_of_singleton]%list.elem_of_app; cbn [fst snd].
  - rewrite lookup_insert_ne; [by apply IH|]. intros Heq. apply (Hno (node_name r)); [|rewrite <- Heq; by left].
    apply list_elem_of_fmap. exists r. split; [done|]. apply list_elem_of_fmap. by exists (r, i).
  - injection Heq as -> ->. by rewrite lookup_insert_eq.
Qed.

Lemma feature_table_ok regs indices k r i : NoDup (node_name <$> regs) → (length regs ≤ length indices)%nat →
  regs !! k = Some r → vget indices (Z.of_nat k) = Some i → feature_table regs indices !! node_name r = Some i.
Proof.
  intros Hnd Hl Hr Hi. apply insert_names_ok; [by rewrite fst_zip|]. rewrite vget_of_nat in Hi.
  apply list_elem_of_lookup. exists k. by rewrite lookup_zip_with, Hr, Hi.
Qed.

(** What the last loop makes of an arc. *)
Definition arc_made (by_arc : list (list vnet_feature_registration)) (index : gmap string Z) (mains : list vnet_feature_config_main)
    (tables : list (gmap string Z)) (a : vnet_feature_arc_registration) : Prop :=
  ∃ i regs arc cm, index !! arc_name a = Some i ∧ vget by_arc i = Some regs ∧ vnet_feature_arc_init regs = Some (inr arc) ∧
    vnet_config_init by_name (start_nodes a) (FeatureOrder.feature_nodes arc) = Some cm ∧
    vget mains i = Some (FeatureConfigMain cm []) ∧ vget tables i = Some (feature_table regs (FeatureOrder.feature_index arc)).

Lemma init_arcs_ok by_arc index arcs mains tables mains' tables' :
  (∀ name name' i, index !! name = Some i → index !! name' = Some i → name = name') → NoDup (arc_name <$> arcs) →
  (∀ name i, index !! name = Some i → 0 ≤ i < zlen mains ∧ 0 ≤ i < zlen tables) →
  init_arcs by_name by_arc index arcs (mains, tables) = Some (inr (mains', tables')) →
  zlen mains' = zlen mains ∧ zlen tables' = zlen tables ∧ (∀ a, a ∈ arcs → arc_made by_arc index mains' tables' a) ∧
  ∀ i, (∀ a, a ∈ arcs → index !! arc_name a ≠ Some i) → vget mains' i = vget mains i ∧ vget tables' i = vget tables i.
Proof.
  intros Hinj. revert mains tables. induction arcs as [|a arcs IH]; intros mains tables Hnd Hr; cbn [init_arcs].
  { intros [= <- <-]. split_and!; try done. by intros a ?%not_elem_of_nil. }
  cbn in Hnd. apply NoDup_cons in Hnd as [Hno Hnd]. unfold init_arc.
  destruct (index !! arc_name a) as [i|] eqn:Hi; [|done]. cbn [mbind option_bind].
  destruct (vget by_arc i) as [regs|] eqn:Hregs; [|done]. cbn [mbind option_bind].
  destruct (vnet_feature_arc_init regs) as [ [e|arc]|] eqn:Harc; [done| |done]. cbn [mbind option_bind].
  destruct (vnet_config_init by_name (start_nodes a) (FeatureOrder.feature_nodes arc)) as [cm|] eqn:Hcm; [|done]. cbn [mbind option_bind fst snd].
  intros Hrest. destruct (Hr _ _ Hi) as [Hr1 Hr2].
  assert (∀ name j, index !! name = Some j → 0 ≤ j < zlen (vset mains i (FeatureConfigMain cm [])) ∧
    0 ≤ j < zlen (vset tables i (feature_table regs (FeatureOrder.feature_index arc)))) as Hr' by (intros name j Hj; rewrite !zlen_vset; by apply (Hr name)).
  destruct (IH _ _ Hnd Hr' Hrest) as (Hl1 & Hl2 & Hmade & Hother). rewrite zlen_vset in Hl1; rewrite zlen_vset in Hl2.
  assert (∀ a', a' ∈ arcs → index !! arc_name a' ≠ Some i) as Hapart.
  { intros a' Ha' Hi'. apply Hno. rewrite (Hinj _ _ _ Hi Hi'). apply list_elem_of_fmap. by exists a'. }
  split_and!; [done|done| |].
  - intros a' [->|Ha']%list.elem_of_cons; [|by apply Hmade]. exists i, regs, arc, cm. destruct (Hother i Hapart) as [-> ->].
    by rewrite !vget_vset_eq.
  - intros j Hj. destruct (Hother j) as [-> ->]; [intros a' Ha'; apply Hj; by right|].
    rewrite !vget_vset_ne; [done|..]; intros ->; by apply (Hj a); [left|].
Qed.

(** ** The configurations *)

Lemma vnet_config_init_ok starts nodes cm :
  (∀ n n' x, by_name n = Some x → by_name n' = Some x → n = n') → (∀ n x, by_name n = Some x → x ≠ NO_INDEX) →
  NoDup nodes → starts ≠ [] → (∀ n, last nodes = Some n → is_Some (by_name n)) → vnet_config_init by_name starts nodes = Some cm →
  arc_ok cm ∧ config_pool cm = pool_null ∧ config_string_hash cm = ∅ ∧ config_string_heap cm = heap_empty ∧
  mapM by_name starts = Some (start_node_indices cm) ∧
  (∀ i n, vget nodes i = Some n → vget (node_index_by_feature_index cm) i = Some (default NO_INDEX (by_name n))) ∧
  ∃ n, last nodes = Some n ∧ by_name n = Some (end_node_index cm).
Proof.
  intros Hinj Hidx Hnd Hst Hlast. unfold vnet_config_init. destruct (Z.leb_spec 1 (zlen nodes)) as [Hl|]; [|done]. cbn [negb].
  destruct (mapM by_name starts) as [s|] eqn:Hs; [|done]. cbn [mbind option_bind]. intros [= <-]. cbn.
  destruct (last nodes) as [n|] eqn:Hn; [|by apply last_None in Hn; subst]. destruct (Hlast n eq_refl) as [e He]. cbn. rewrite He. cbn.
  set (f := λ name : string, default NO_INDEX (by_name name)).
  assert (∀ i x, vget (map f nodes) i = Some x → ∃ m, vget nodes i = Some m ∧ x = f m) as Hget.
  { intros i x. unfold vget. case_cond; [|done]. change (map f nodes) with (f <$> nodes). rewrite list_lookup_fmap. destruct (nodes !! _); [|done]. intros [= <-]. eauto. }
  assert (∀ i m x, vget nodes i = Some m → f m = x → x ≠ NO_INDEX → by_name m = Some x) as Hf.
  { intros i m x _ <-. unfold f. by destruct (by_name m). }
  split_and!; try done; [| |by exists n].
  - constructor; cbn.
    + intros ->. apply mapM_Some in Hs. by inv Hs.
    + intros i j x (m & Hm & ->)%Hget (m' & Hm' & Heq)%Hget Hne. pose proof (Hf i m _ Hm eq_refl Hne) as H1. pose proof (Hf j m' _ Hm' (eq_sym Heq) Hne) as H2.
      rewrite (Hinj _ _ _ H2 H1) in Hm'. pose proof (vget_Some_range _ _ _ Hm). pose proof (vget_Some_range _ _ _ Hm').
      unfold vget in Hm, Hm'. destruct (Z.leb_spec 0 i), (Z.leb_spec 0 j); try lia. pose proof (NoDup_lookup _ _ _ _ Hnd Hm Hm'). lia.
    + intros i (m & Hm & Heq)%Hget. pose proof (Hf i m _ Hm (eq_sym Heq) (Hidx _ _ He)) as H1. rewrite (Hinj _ _ _ H1 He) in Hm. clear H1.
      pose proof (vget_Some_range _ _ _ Hm). rewrite last_lookup in Hn. unfold vget in Hm. destruct (Z.leb_spec 0 i); [|lia].
      pose proof (NoDup_lookup _ _ _ _ Hnd Hm Hn). rewrite zlen_map. unfold zlen in *. lia.
    + by eapply Hidx.
  - intros i m Hm. unfold vget in *. case_cond; [|done]. change (map f nodes) with (f <$> nodes). by rewrite list_lookup_fmap, Hm.
Qed.
(** C18: What [vnet_feature_init] returns, when it returns no error, for an arc with a start node, whose features have a
    partial order and names of their own: the arc is found by its name; its configurations and counts are empty; its features are in
    an order that keeps every constraint, each is found by name under its place in the order, and the table of nodes has its
    node there, or [~0] if there is none; the arc ends at the node of the last feature. *)
Theorem vnet_feature_init_spec arcs fregs fm a
    (Hinit : vnet_feature_init by_name arcs fregs = Some (inr fm)) (Harcs : NoDup (arc_name <$> arcs)) (Hfew : zlen arcs ≤ NO_ARC)
    (Hinj : ∀ n n' x, by_name n = Some x → by_name n' = Some x → n = n') (Hidx : ∀ n x, by_name n = Some x → x ≠ NO_INDEX)
    (Ha : a ∈ arcs) (Hstart : start_nodes a ≠ []) (Hregs : regs_ok (arc_features (arc_name a) fregs))
    (Hend : ∀ arc n, vnet_feature_arc_init (arc_features (arc_name a) fregs) = Some (inr arc) → last (FeatureOrder.feature_nodes arc) = Some n →
       is_Some (by_name n)) :
  ∃ i cm names, vnet_get_feature_arc_index fm (arc_name a) = i ∧ i ≠ NO_ARC ∧
    vget (feature_config_mains fm) i = Some (FeatureConfigMain cm []) ∧
    vget (sw_if_index_has_features fm) i = Some [] ∧ vget (feature_count_by_sw_if_index fm) i = Some [] ∧ adj_feature_updates fm = [] ∧
    arc_ok cm ∧ config_pool cm = pool_null ∧ config_string_hash cm = ∅ ∧ config_string_heap cm = heap_empty ∧
    mapM by_name (start_nodes a) = Some (start_node_indices cm) ∧
    names ≡ₚ node_name <$> arc_features (arc_name a) fregs ∧ (∀ x y, before (arc_features (arc_name a) fregs) x y → precedes names x y) ∧
    (∀ j n, vget names j = Some n → vnet_get_feature_index fm i n = Some j ∧
       vget (node_index_by_feature_index cm) j = Some (default NO_INDEX (by_name n))) ∧
    ∃ n, last names = Some n ∧ by_name n = Some (end_node_index cm).
Proof.
  unfold vnet_feature_init in Hinit. destruct (Z.ltb_spec 0 (zlen arcs)) as [Hpos|]; [|done]. cbn [negb] in Hinit.
  pose proof (index_arcs_ok arcs Harcs ltac:(unfold NO_ARC in Hfew; lia)) as Hindex.
  assert (∀ name name' i, index_arcs arcs !! name = Some i → index_arcs arcs !! name' = Some i → name = name') as Hiinj.
  { intros name name' i (k & a1 & H1 & <- & ->)%Hindex (k' & a2 & H2 & <- & Heq)%Hindex. apply Nat2Z.inj in Heq. congruence. }
  assert (∀ name i, index_arcs arcs !! name = Some i → 0 ≤ i < zlen arcs) as Hir.
  { intros name i (k & a1 & H1%lookup_lt_Some & _ & ->)%Hindex. unfold zlen. lia. }
  destruct (features_by_arc _ fregs _) as [e|by_arc] eqn:Hby; [done|].
  destruct (init_arcs by_name by_arc _ arcs _) as [ [e|[mains tables] ]|] eqn:Hloop; [done| |done]. cbn [mbind option_bind] in Hinit. injection Hinit as <-.
  assert (∀ {A} (x : A), zlen (replicate (length arcs) x) = zlen arcs) as Hrep by (intros; unfold zlen; by rewrite length_replicate).
  destruct (features_by_arc_ok _ _ _ _ Hiinj ltac:(by rewrite Hrep) Hby) as [Hlby Hvby].
  destruct (init_arcs_ok by_arc _ arcs _ _ _ _ Hiinj Harcs ltac:(by rewrite !Hrep; eauto) Hloop) as (Hl1 & Hl2 & Hmade & _). rewrite Hrep in Hl1, Hl2.
  destruct (Hmade a Ha) as (i & regs & arc & cm & Hi & Hregs' & Harc & Hcm & Hmain & Htable). pose proof (Hir _ _ Hi) as Hrange.
  assert (regs = arc_features (arc_name a) fregs) as ->.
  { pose proof (Hvby _ _ Hi) as Hv. unfold velt in Hv at 1. rewrite Hregs' in Hv. cbn in Hv. rewrite Hv. unfold velt.
    destruct (vget (replicate _ _) i) as [l|] eqn:Hl; cbn; [|apply app_nil_r]. unfold vget in Hl. destruct (0 <=? i); [|done].
    apply lookup_replicate in Hl as [-> _]. apply app_nil_r. }
  pose proof (FeatureOrder.arc_init_ok _ Hregs) as Hspec. unfold FeatureOrder.arc_initialised in Hspec. rewrite Harc in Hspec. destruct Hspec as (Hperm & Horder & Hindices).
  assert (NoDup (FeatureOrder.feature_nodes arc)) as Hnd by (rewrite Hperm; apply Hregs).
  destruct (vnet_config_init_ok (start_nodes a) (FeatureOrder.feature_nodes arc) cm Hinj Hidx Hnd Hstart (λ n, Hend arc n Harc) Hcm) as
    (Hao & Hp & Hh & Hheap & Hstarts & Hnodes & Hlast).
  assert (∀ {A} (x : A), vget (replicate (length arcs) x) i = Some x) as Hfill.
  { intros A x. unfold vget. destruct (Z.leb_spec 0 i); [|lia]. apply lookup_replicate_2. unfold zlen in Hrange. lia. }
  exists i, cm, (FeatureOrder.feature_nodes arc). unfold vnet_get_feature_arc_index, vnet_get_feature_index. cbn. rewrite Hi. split_and!; try done.
  - unfold NO_ARC in *. lia.
  - intros j n Hj. split; [|by apply Hnodes]. rewrite Htable. cbn [mbind option_bind]. f_equal.
    assert (n ∈ node_name <$> arc_features (arc_name a) fregs) as Hn by (rewrite <- Hperm; by eapply vget_elem).
    apply list_elem_of_fmap in Hn as (r & -> & Hr). apply list_elem_of_lookup in Hr as [k Hk].
    destruct (Hindices k r Hk) as (j' & Hj1 & Hj2).
    assert (j' = j) as ->.
    { pose proof (vget_Some_range _ _ _ Hj). pose proof (vget_Some_range _ _ _ Hj2). unfold vget in Hj, Hj2.
      destruct (Z.leb_spec 0 j), (Z.leb_spec 0 j'); try lia. pose proof (NoDup_lookup _ _ _ _ Hnd Hj Hj2). lia. }
    assert (length (arc_features (arc_name a) fregs) ≤ length (FeatureOrder.feature_index arc))%nat as Hlong.
    { apply Nat.le_ngt. intros Hlt. destruct (lookup_lt_is_Some_2 _ _ Hlt) as [r' Hr']. destruct (Hindices _ r' Hr') as (j'' & Hj3 & _).
      apply vget_Some_range in Hj3. unfold zlen in Hj3. lia. }
    by rewrite (feature_table_ok _ _ k r j (proj1 (proj2 Hregs)) Hlong Hk Hj1).
Qed.
End init.
End FeatureInit.
