(* ===== verification/Heap.v ===== *)
(** * The heap of vppinfra (vppinfra/heap.c, vppinfra/heap.h)

    A heap is a vector whose elements are cut into used and free blocks.  The blocks are elements of a second vector, in
    a doubly linked list by relative indices in the order of their offsets.  Free blocks are in lists by bins of sizes, and the first
    word of a free block is its place in its list.

    The heap is one of 32-bit words ([elt_bytes] is 4) that is not static.  The element that [elt_new] takes for the first time is zero. *)

From stdpp Require Import gmap.
From S2P Require Import Prelude Bitmap.
Open Scope Z_scope.

Module Heap.
Import ClibBitmap.

Record heap_elt := Elt {
  offset : Z;
  next : Z;
  prev : Z;
}.

Record header := Header {
  vec : list Z;
  elts : list heap_elt;
  free_elts : list Z;
  free_lists : list (list Z);
  used_elt_bitmap : bitmap;
  head : Z;
  tail : Z;
  used_count : Z;
  max_len : Z;
}.

Definition elt_0 : heap_elt := Elt 0 0 0.
Definition heap_null : header := Header [] [] [] [] [] 0 0 0 0.

Definition set_offset (o : Z) (e : heap_elt) : heap_elt := Elt o (next e) (prev e).
Definition set_next (n : Z) (e : heap_elt) : heap_elt := Elt (offset e) n (prev e).
Definition set_prev (p : Z) (e : heap_elt) : heap_elt := Elt (offset e) (next e) p.

Definition set_vec (v : list Z) (h : header) : header :=
  Header v (elts h) (free_elts h) (free_lists h) (used_elt_bitmap h) (head h) (tail h) (used_count h) (max_len h).
Definition set_elts (l : list heap_elt) (h : header) : header :=
  Header (vec h) l (free_elts h) (free_lists h) (used_elt_bitmap h) (head h) (tail h) (used_count h) (max_len h).
Definition set_free_elts (l : list Z) (h : header) : header :=
  Header (vec h) (elts h) l (free_lists h) (used_elt_bitmap h) (head h) (tail h) (used_count h) (max_len h).
Definition set_free_lists (l : list (list Z)) (h : header) : header :=
  Header (vec h) (elts h) (free_elts h) l (used_elt_bitmap h) (head h) (tail h) (used_count h) (max_len h).
Definition set_ends (hd tl : Z) (h : header) : header :=
  Header (vec h) (elts h) (free_elts h) (free_lists h) (used_elt_bitmap h) hd tl (used_count h) (max_len h).
Definition set_used (b : bitmap) (n : Z) (h : header) : header :=
  Header (vec h) (elts h) (free_elts h) (free_lists h) b (head h) (tail h) n (max_len h).

(** ** Elements *)

Definition elt_at (h : header) (i : Z) : option heap_elt := vget (elts h) i.
Definition upd (i : Z) (f : heap_elt → heap_elt) (h : header) : option header :=
  e ← elt_at h i; Some (set_elts (vset (elts h) i (f e)) h).

Definition HEAP_ELT_FREE_BIT : Z := 2 ^ 31.
Definition heap_is_free (e : heap_elt) : bool := negb (Z.land (offset e) HEAP_ELT_FREE_BIT =? 0).
Definition heap_offset (e : heap_elt) : Z := Z.land (offset e) (u32_max - HEAP_ELT_FREE_BIT).

(** The indices of the next and the previous element. *)
Definition heap_next (h : header) (i : Z) : option Z := e ← elt_at h i; Some (i + next e).
Definition heap_prev (h : header) (i : Z) : option Z := e ← elt_at h i; Some (i + prev e).

Definition heap_elt_size (h : header) (i : Z) : option Z :=
  e ← elt_at h i;
  let n := i + next e in
  next_offset ← (if negb (n =? i) then en ← elt_at h n; Some (heap_offset en) else Some (zlen (vec h)));
  Some (next_offset - heap_offset e).

Definition HEAP_LOG2_SMALL_BINS : Z := 5.
Definition HEAP_SMALL_BINS : Z := 32.
Definition HEAP_N_BINS : Z := 64.

Definition size_to_bin (size : Z) : Z :=
  if size <=? HEAP_SMALL_BINS then size - 1
  else
    let bin := HEAP_SMALL_BINS + max_log2 size - (HEAP_LOG2_SMALL_BINS + 1) in
    if HEAP_N_BINS <=? bin then HEAP_N_BINS - 1 else bin.

Definition elt_delete (h : header) (e : Z) : option header :=
  x ← elt_at h e;
  let l := zlen (elts h) - 1 in
  let p := e + prev x in
  let n := e + next x in
  h ← (if p =? e then h ← upd n (set_prev 0) h; Some (set_ends n (tail h) h)
       else if n =? e then h ← upd p (set_next 0) h; Some (set_ends (head h) p h)
       else h ← upd p (set_next (n - p)) h; upd n (set_prev (p - n)) h);
  if e <? l then Some (set_free_elts (free_elts h ++ [e]) h)
  else Some (set_elts (take (Z.to_nat l) (elts h)) h).

Definition elt_insert_before (h : header) (e new : Z) : option header :=
  p ← heap_prev h e;
  if p =? e then
    h ← upd new (λ x, set_next (e - new) (set_prev 0 x)) h;
    h ← upd p (set_prev (new - p)) h;
    Some (set_ends new (tail h) h)
  else
    h ← upd new (λ x, set_next (e - new) (set_prev (p - new) x)) h;
    h ← upd e (set_prev (new - e)) h;
    upd p (set_next (new - p)) h.

Definition elt_insert_after (h : header) (e new : Z) : option header :=
  n ← heap_next h e;
  if n =? e then
    h ← upd new (λ x, set_prev (e - new) (set_next 0 x)) h;
    h ← upd e (set_next (new - e)) h;
    Some (set_ends (head h) new h)
  else
    h ← upd new (λ x, set_next (n - new) (set_prev (e - new) x)) h;
    h ← upd e (set_next (new - e)) h;
    upd n (set_prev (new - n)) h.

Definition elt_new (h : header) : option (header * Z) :=
  let l := zlen (free_elts h) in
  if 0 <? l then
    i ← vget (free_elts h) (l - 1);
    _ ← elt_at h i;
    Some (set_free_elts (take (Z.to_nat (l - 1)) (free_elts h)) h, i)
  else Some (set_elts (elts h ++ [elt_0]) h, zlen (elts h)).

(** ** Free blocks *)

(** A store to the first word of an element. *)
Definition store_data (h : header) (o x : Z) : option header :=
  _ ← vget (vec h) o; Some (set_vec (vset (vec h) o x) h).

Definition set_free_elt (h : header) (e fi : Z) : option header :=
  h ← upd e (λ x, set_offset (Z.lor (offset x) HEAP_ELT_FREE_BIT) x) h;
  x ← elt_at h e;
  store_data h (heap_offset x) fi.

(** The place in the list, and the bin. *)
Definition get_free_elt (h : header) (e : Z) : option (Z * Z) :=
  x ← elt_at h e;
  if negb (heap_is_free x) then None
  else
    size ← heap_elt_size h e;
    fi ← vget (vec h) (heap_offset x);
    Some (fi, size_to_bin size).

Definition remove_free_block (h : header) (b i : Z) : option header :=
  list ← vget (free_lists h) b;
  _ ← vget list i;
  let l := zlen list in
  h ← (if i <? l - 1 then
         t ← vget list (l - 1);
         let h := set_free_lists (vset (free_lists h) b (vset list i t)) h in
         set_free_elt h t i
       else Some h);
  Some (set_free_lists (vset (free_lists h) b (take (Z.to_nat (l - 1)) (velt [] (free_lists h) b))) h).

(** The list of bin [b] gets element [e]; its place there. *)
Definition add_free_block (h : header) (b e : Z) : header * Z :=
  let lists := vec_validate [] (free_lists h) b in
  let list := velt [] lists b in
  (set_free_lists (vset lists b (list ++ [e])) h, zlen list).

(** The loop over a list from its end: the place, the element and what is left over of its size.  If no block fits the loop goes
    on to place -1, which is out of range. *)
Fixpoint search_list (h : header) (size : Z) (list : list Z) (l : nat) : option (Z * Z * Z) :=
  match l with
  | O => None
  | S l =>
      f_index ← vget list (Z.of_nat l);
      f_size ← heap_elt_size h f_index;
      let s := f_size - size in
      if 0 <=? s then Some (Z.of_nat l, f_index, s) else search_list h size list l
  end.

(** The end of element [f], with [s] words before it that stay free; [f] is at place [l] of the list of bin [b]. *)
Definition take_from (h : header) (b l f s : Z) : option (header * Z) :=
  x ← elt_at h f;
  if negb (heap_is_free x) then None
  else
    out ← (if s =? 0 then Some (h, f, HEAP_N_BINS)
           else out ← elt_new h; h ← elt_insert_after out.1 f out.2; Some (h, out.2, size_to_bin s));
    let '(h, u, fb) := out in
    x ← elt_at h f;
    h ← upd u (set_offset (u32 (heap_offset x + s))) h;
    if negb (fb =? b) then
      h ← (if fb <? HEAP_N_BINS then let '(h, i) := add_free_block h fb f in set_free_elt h f i else Some h);
      h ← remove_free_block h b l;
      Some (h, u)
    else Some (h, u).

Fixpoint search_bins (h : header) (size : Z) (bins : list Z) : option (option (header * Z)) :=
  match bins with
  | [] => Some None
  | b :: bins =>
      let list := velt [] (free_lists h) b in
      if 0 <? zlen list then
        found ← search_list h size list (length list);
        let '(l, f, s) := found in
        out ← take_from h b l f s;
        Some (Some out)
      else search_bins h size bins
  end.

(** [Some None] if no free block is large enough. *)
Definition search_free_list (h : header) (size : Z) : option (option (header * Z)) :=
  search_bins h size (zrange (size_to_bin size) (zlen (free_lists h))).

(** ** Freeing *)

Record free_block := FreeBlock {
  index : Z;
  bin : Z;
  bin_index : Z;
}.

(** The loop from [e] to [e1], with at most three blocks: what they are, and their size. *)
Fixpoint gather (n : nat) (h : header) (e e1 : Z) : option (list free_block * Z) :=
  match n with
  | O => None
  | S n =>
      got ← get_free_elt h e;
      let '(ti, tb) := got in
      list ← vget (free_lists h) tb;
      i ← vget list ti;
      size ← heap_elt_size h i;
      if e =? e1 then Some ([FreeBlock i tb ti], size)
      else
        e ← heap_next h e;
        rest ← gather n h e e1;
        Some (FreeBlock i tb ti :: rest.1, size + rest.2)
  end.

(** The block that stays: one that is in the bin already, or a new one before the first. *)
Definition combined (h : header) (b : Z) (f : list free_block) : option (header * Z * Z) :=
  match List.find (λ x, b =? bin x) f with
  | Some g => Some (h, index g, bin_index g)
  | None =>
      f0 ← List.hd_error f;
      out ← elt_new h;
      let '(h, gi) := add_free_block out.1 b out.2 in
      h ← elt_insert_before h (index f0) out.2;
      Some (h, out.2, gi)
  end.

Definition delete_unused (g : Z) (h : header) (x : free_block) : option header :=
  if g =? index x then Some h
  else
    got ← get_free_elt h (index x);
    h ← remove_free_block h got.2 got.1;
    elt_delete h (index x).

Definition combine_free_blocks (h : header) (e0 e1 : Z) : option header :=
  out ← gather 3 h e0 e1;
  let '(f, total_size) := out in
  out ← combined h (size_to_bin total_size) f;
  let '(h, g, gi) := out in
  f0 ← List.hd_error f;
  x ← elt_at h (index f0);
  let g_offset := offset x in
  h ← mfoldl (delete_unused g) h f;
  h ← upd g (set_offset g_offset) h;
  set_free_elt h g gi.

Definition dealloc_elt (h : header) (e : Z) : option header :=
  size ← heap_elt_size h e;
  let b := size_to_bin size in
  let '(h, l) := add_free_block h b e in
  h ← set_free_elt h e l;
  p ← heap_prev h e;
  xp ← elt_at h p;
  let p := if negb (heap_is_free xp) then e else p in
  n ← heap_next h e;
  xn ← elt_at h n;
  let n := if negb (heap_is_free xn) then e else n in
  if negb (p =? n) then combine_free_blocks h p n else Some h.

(** ** The interface *)

(** The fragment of an aligned block from [o] on, with the element [e] after or before it. *)
Definition free_fragment (insert : header → Z → Z → option header) (h : header) (e o : Z) : option header :=
  out ← elt_new h;
  h ← upd out.2 (set_offset o) out.1;
  h ← insert h e out.2;
  dealloc_elt h out.2.

Definition HEAP_FAILED : Z := u64_max.

(** An element with a block of [align_size] words, from the free lists or the end of the vector; [Some None] is the error. *)
Definition alloc_elt (h : header) (align_size : Z) : option (option (header * Z)) :=
  found ← search_free_list h align_size;
  match found with
  | Some out => Some (Some out)
  | None =>
      let offset := zlen (vec h) in
      if negb (max_len h =? 0) && (max_len h <? offset + align_size) then Some None
      else
        let h := set_vec (vec h ++ replicate (Z.to_nat align_size) 0) h in
        out ← elt_new h;
        let '(h, e) := out in
        h ← upd e (set_offset (u32 offset)) h;
        h ← elt_insert_after h (tail h) e;
        Some (Some (h, e))
  end.

(** The block of element [e] moves to a multiple of [align] with [size] words; what is before and after it becomes free. *)
Definition align_elt (h : header) (e size align align_size : Z) : option header :=
  x ← elt_at h e;
  let old_offset := offset x in
  let new_offset := Z.land (old_offset + align - 1) (u64_max - (align - 1)) in
  h ← upd e (set_offset (u32 new_offset)) h;
  h ← (if old_offset <? new_offset then free_fragment elt_insert_before h e old_offset else Some h);
  if new_offset + size <? old_offset + align_size then free_fragment elt_insert_after h e (u32 (new_offset + size)) else Some h.

(** The heap, the offset and the handle. *)
Definition _heap_alloc (h : header) (size align : Z) : option (header * Z * Z) :=
  if size =? 0 then Some (h, HEAP_FAILED, HEAP_FAILED)
  else
    let align := if align <=? 1 then 0 else 2 ^ max_log2 align in
    let align_size := if align =? 0 then size else size + align - 1 in
    out ← alloc_elt h align_size;
    match out with
    | None => Some (h, HEAP_FAILED, HEAP_FAILED)
    | Some (h, e) =>
        h ← (if 0 <? align then align_elt h e size align align_size else Some h);
        if clib_bitmap_get (used_elt_bitmap h) e then None
        else
          let h := set_used (clib_bitmap_ori (used_elt_bitmap h) e) (u32 (used_count h + 1)) h in
          x ← elt_at h e;
          Some (h, offset x, e)
    end.

Definition heap_dealloc (h : header) (handle : Z) : option header :=
  if negb (handle <? zlen (elts h)) || negb (clib_bitmap_get (used_elt_bitmap h) handle) then None
  else
    let h := set_used (clib_bitmap_andnoti (used_elt_bitmap h) handle) (u32 (used_count h - 1)) h in
    x ← elt_at h handle;
    if heap_is_free x then None else dealloc_elt h handle.

Definition heap_set_max_len (n : Z) (h : header) : header :=
  Header (vec h) (elts h) (free_elts h) (free_lists h) (used_elt_bitmap h) (head h) (tail h) (used_count h) (u32 n).

Definition heap_len (h : header) (handle : Z) : option Z :=
  if negb (clib_bitmap_get (used_elt_bitmap h) handle) then None else heap_elt_size h handle.

(** [heap_foreach]: the used blocks from the first to the last element, with their handles.  A list visits an element once. *)
Fixpoint foreach_from (n : nat) (h : header) (e : Z) : option (list (Z * (Z * Z))) :=
  match n with
  | O => None
  | S n =>
      x ← elt_at h e;
      size ← heap_elt_size h e;
      rest ← (if e =? tail h then Some [] else e ← heap_next h e; foreach_from n h e);
      Some (if negb (heap_is_free x) then (e, (heap_offset x, size)) :: rest else rest)
  end.

Definition heap_foreach (h : header) : option (list (Z * (Z * Z))) :=
  if 0 <? zlen (vec h) then foreach_from (length (elts h)) h (head h) else Some [].

(** ** Validation

    Each function is [None] where an assertion of [heap_validate] fails. *)

(** The entries of list [b]: their number and their words are added to [acc]. *)
Definition validate_list (h : header) (acc : Z * Z) (bl : Z * list Z) : option (Z * Z) :=
  mfoldl (λ acc e,
    s ← heap_elt_size h e;
    x ← elt_at h e;
    if negb (size_to_bin s =? bl.1) || negb (heap_is_free x) then None else Some (acc.1, acc.2 + s)) (acc.1 + zlen bl.2, acc.2) bl.2.

Definition validate_lists (h : header) : option (Z * Z) :=
  mfoldl (validate_list h) (0, 0) (zip (zrange 0 (zlen (free_lists h))) (free_lists h)).

Record counts := Counts {
  used_count_of : Z;
  total_size : Z;
  elt_free_count : Z;
  elt_free_size : Z;
}.

(** The elements from [e] to the last one. *)
Fixpoint validate_chain (n : nat) (h : header) (e : Z) : option counts :=
  match n with
  | O => None
  | S n =>
      x ← elt_at h e;
      s ← heap_elt_size h e;
      if negb (Bool.eqb (heap_is_free x) (negb (clib_bitmap_get (used_elt_bitmap h) e))) then None
      else
        nx ← heap_next h e;
        c ← (if e =? nx then if tail h =? nx then Some (Counts 0 0 0 0) else None
             else xn ← elt_at h nx; if heap_is_free x && heap_is_free xn then None else validate_chain n h nx);
        Some (Counts (used_count_of c + 1) (total_size c + s) (if heap_is_free x then elt_free_count c + 1 else elt_free_count c)
          (if heap_is_free x then elt_free_size c + s else elt_free_size c))
  end.

(** Element [e] is the [i]th and at offset [o]; [free_map] has the free elements that were seen. *)
Definition validate_free (h : header) (e i : Z) (free_map : list Z) : option (list Z) :=
  got ← get_free_elt h e;
  list ← vget (free_lists h) got.2;
  j ← vget list got.1;
  if negb (j =? e) then None
  else b ← vget free_map i; if negb (b =? 0) then None else Some (vset free_map i 1).

Fixpoint validate_places (n : nat) (h : header) (e i o : Z) (free_map : list Z) : option unit :=
  match n with
  | O => None
  | S n =>
      x ← elt_at h e;
      if negb (heap_offset x =? o) then None
      else
        s ← heap_elt_size h e;
        free_map ← (if heap_is_free x then validate_free h e i free_map else Some free_map);
        nx ← heap_next h e;
        if e =? nx then Some ()
        else p ← heap_prev h nx; if negb (p =? e) then None else validate_places n h nx (i + 1) (o + s) free_map
  end.

Definition heap_validate (h : header) : option unit :=
  if negb (used_count h =? clib_bitmap_count_set_bits (used_elt_bitmap h)) then None
  else
    first ← elt_at h (head h);
    last ← elt_at h (tail h);
    if negb (prev first =? 0) || negb (next last =? 0) then None
    else
      free ← validate_lists h;
      c ← validate_chain (length (elts h)) h (head h);
      if negb (free.1 =? elt_free_count c) || negb (free.2 =? elt_free_size c) ||
         negb (used_count_of c =? used_count h + free.1) || negb (total_size c =? zlen (vec h)) then None
      else validate_places (length (elts h)) h (head h) 0 0 (replicate (Z.to_nat (used_count_of c)) 0).
End Heap.
