(* ===== verification/HeapChain.v ===== *)
(** * The heap of vppinfra: its linked list

    [chain] is a part of the list between two elements, or the ends of the list.  What insertion and deletion of an element do to it. *)

From stdpp Require Import gmap.
From S2P Require Import Prelude Bitmap Heap.
Open Scope Z_scope.

Module HeapChain.
Import Heap.

Implicit Types (es : list heap_elt) (l : list Z).

(** The pointers of an element as indices, and its offset with the free bit. *)
Definition nx es (i : Z) : Z := i + next (velt elt_0 es i).
Definition pv es (i : Z) : Z := i + prev (velt elt_0 es i).
Definition off es (i : Z) : Z := offset (velt elt_0 es i).

Definition or_else (o o' : option Z) : option Z := match o with Some _ => o | None => o' end.

(** The elements of [l] follow each other, after [p] and before [n]; at the ends the pointers are to the element itself. *)
Fixpoint chain es (p : option Z) l (n : option Z) : Prop :=
  match l with
  | [] => True
  | i :: l => 0 ≤ i < zlen es ∧ pv es i = default i p ∧ nx es i = default i (or_else (hd_error l) n) ∧ chain es (Some i) l n
  end.

Lemma chain_range es p l n i : chain es p l n → i ∈ l → 0 ≤ i < zlen es.
Proof.
  revert p. induction l as [|j l IH]; intros p; [by intros _ ?%not_elem_of_nil|]. intros (Hr & _ & _ & Hc) [->|Hin]%list.elem_of_cons; [done|by eapply IH].
Qed.

Lemma chain_same es es' p l n : (∀ i, i ∈ l → i < zlen es' ∧ nx es' i = nx es i ∧ pv es' i = pv es i) → chain es p l n → chain es' p l n.
Proof.
  revert p. induction l as [|i l IH]; intros p Hsame; [done|]. intros (Hr & Hp & Hn & Hc). destruct (Hsame i) as (Hr' & Hn' & Hp'); [by left|]. cbn [chain]. rewrite Hn', Hp'.
  split_and!; [lia|lia|done|done|]. apply IH; [|done]. intros j Hj. apply Hsame. by right.
Qed.

Lemma chain_ext es es' p l n : zlen es ≤ zlen es' → (∀ i, i ∈ l → nx es' i = nx es i ∧ pv es' i = pv es i) → chain es p l n → chain es' p l n.
Proof.
  intros Hl Hsame Hc. apply (chain_same es); [|done]. intros i Hi. pose proof (chain_range _ _ _ _ _ Hc Hi). split; [lia|by apply Hsame].
Qed.

Lemma chain_app es p l1 l2 n :
  chain es p (l1 ++ l2) n ↔ chain es p l1 (or_else (hd_error l2) n) ∧ chain es (or_else (last l1) p) l2 n.
Proof.
  revert p. induction l1 as [|i l1 IH]; intros p; [cbn; tauto|]. cbn [app chain]. rewrite IH.
  assert (or_else (hd_error (l1 ++ l2)) n = or_else (hd_error l1) (or_else (hd_error l2) n)) as -> by by destruct l1.
  assert (or_else (last (i :: l1)) p = or_else (last l1) (Some i)) as -> by (by rewrite last_cons; destruct (last l1)). tauto.
Qed.

(** An element in the middle. *)
Lemma chain_middle es l1 e l2 : chain es None (l1 ++ e :: l2) None ↔
  chain es None l1 (Some e) ∧ (0 ≤ e < zlen es ∧ pv es e = default e (last l1) ∧ nx es e = default e (hd_error l2)) ∧ chain es (Some e) l2 None.
Proof.
  rewrite chain_app. cbn [chain hd_error or_else]. assert (or_else (last l1) None = last l1) as -> by by destruct (last l1).
  assert (or_else (hd_error l2) None = hd_error l2) as -> by by destruct (hd_error l2). tauto.
Qed.

(** A change of the element before the list, or of the one after it. *)
Lemma chain_next es es' p l n n' : zlen es ≤ zlen es' → NoDup l → chain es p l (Some n) →
  (∀ i, i ∈ l → pv es' i = pv es i ∧ nx es' i = if decide (last l = Some i) then n' else nx es i) → chain es' p l (Some n').
Proof.
  intros Hl Hnd. revert p. induction l as [|i l IH]; intros p; [done|]. intros (Hr & Hp & Hn & Hc) Hsame. apply NoDup_cons in Hnd as [Hno Hnd].
  destruct (Hsame i ltac:(by left)) as [Hp' Hn']. cbn [chain]. split_and!; [lia|lia|by rewrite Hp'| |].
  - rewrite Hn'. destruct l as [|j l]; [by rewrite decide_True by done|]. rewrite decide_False; [done|]. rewrite last_cons. intros Heq.
    destruct (last (j :: l)) eqn:Hlast; [|by apply last_None in Hlast]. apply last_Some_elem_of in Hlast. congruence.
  - apply IH; [done|done|]. intros j Hj. destruct (Hsame j ltac:(by right)) as [-> ->]. split; [done|]. rewrite last_cons.
    destruct (last l) eqn:Hlast; [done|]. apply last_None in Hlast. subst. by apply not_elem_of_nil in Hj.
Qed.

Lemma chain_prev es es' p l n p' : zlen es ≤ zlen es' → NoDup l → chain es (Some p) l n →
  (∀ i, i ∈ l → nx es' i = nx es i ∧ pv es' i = if decide (hd_error l = Some i) then p' else pv es i) → chain es' (Some p') l n.
Proof.
  intros Hl Hnd. destruct l as [|i l]; [done|]. intros (Hr & Hp & Hn & Hc) Hsame. apply NoDup_cons in Hnd as [Hno Hnd].
  destruct (Hsame i ltac:(by left)) as [Hn' Hp']. rewrite decide_True in Hp' by done. cbn [chain]. split_and!; [lia|lia|done|by rewrite Hn'|].
  apply (chain_ext es); [done| |done]. intros j Hj. destruct (Hsame j ltac:(by right)) as [-> ->]. rewrite decide_False; [done|]. cbn. congruence.
Qed.

(** ** Updates of elements *)

Lemma elt_at_ok h i : 0 ≤ i < zlen (elts h) → elt_at h i = Some (velt elt_0 (elts h) i).
Proof. apply vget_velt. Qed.

Lemma upd_ok h i f : 0 ≤ i < zlen (elts h) → upd i f h = Some (set_elts (vset (elts h) i (f (velt elt_0 (elts h) i))) h).
Proof. intros Hi. unfold upd. by rewrite elt_at_ok. Qed.

Lemma nx_vset es i x j : 0 ≤ i < zlen es → nx (vset es i x) j = if decide (j = i) then j + next x else nx es j.
Proof. intros Hi. unfold nx. case_decide as Hj; [subst; by rewrite velt_vset_eq|by rewrite velt_vset_ne]. Qed.

Lemma pv_vset es i x j : 0 ≤ i < zlen es → pv (vset es i x) j = if decide (j = i) then j + prev x else pv es j.
Proof. intros Hi. unfold pv. case_decide as Hj; [subst; by rewrite velt_vset_eq|by rewrite velt_vset_ne]. Qed.

Lemma off_vset es i x j : 0 ≤ i < zlen es → off (vset es i x) j = if decide (j = i) then offset x else off es j.
Proof. intros Hi. unfold off. case_decide as Hj; [subst; by rewrite velt_vset_eq|by rewrite velt_vset_ne]. Qed.

(** The links after an update. *)
Definition links es es' (nx' pv' : Z → Z) : Prop :=
  zlen es' = zlen es ∧ (∀ j, nx es' j = nx' j) ∧ (∀ j, pv es' j = pv' j) ∧ ∀ j, off es' j = off es j.

Lemma links_intro es i x : 0 ≤ i < zlen es → offset x = off es i →
  links es (vset es i x) (λ j, if decide (j = i) then i + next x else nx es j) (λ j, if decide (j = i) then i + prev x else pv es j).
Proof.
  intros Hi Hx. split_and!; [by apply zlen_vset| | |]; intros j; rewrite ?nx_vset, ?pv_vset, ?off_vset by done; case_decide; congruence.
Qed.

Section updates.
Context (h : header) (i : Z) (Hi : 0 ≤ i < zlen (elts h)).

Lemma upd_next d : ∃ es, upd i (set_next d) h = Some (set_elts es h) ∧ links (elts h) es (λ j, if decide (j = i) then i + d else nx (elts h) j) (pv (elts h)).
Proof using Hi.
  eexists. split; [by apply upd_ok|]. destruct (links_intro (elts h) i (set_next d (velt elt_0 (elts h) i)) Hi eq_refl) as (Hl & Hn & Hp & Ho).
  split_and!; try done. intros j. rewrite Hp. case_decide; [by subst|done].
Qed.

Lemma upd_prev d : ∃ es, upd i (set_prev d) h = Some (set_elts es h) ∧ links (elts h) es (nx (elts h)) (λ j, if decide (j = i) then i + d else pv (elts h) j).
Proof using Hi.
  eexists. split; [by apply upd_ok|]. destruct (links_intro (elts h) i (set_prev d (velt elt_0 (elts h) i)) Hi eq_refl) as (Hl & Hn & Hp & Ho).
  split_and!; try done. intros j. rewrite Hn. case_decide; [by subst|done].
Qed.

Lemma upd_links a b : ∃ es, upd i (λ x, set_next a (set_prev b x)) h = Some (set_elts es h) ∧
  links (elts h) es (λ j, if decide (j = i) then i + a else nx (elts h) j) (λ j, if decide (j = i) then i + b else pv (elts h) j).
Proof using Hi. eexists. split; [by apply upd_ok|]. by apply (links_intro (elts h) i (set_next a (set_prev b _))). Qed.
End updates.

(** The rest of a state. *)
Definition same_but_elts (h h' : header) : Prop :=
  vec h' = vec h ∧ free_elts h' = free_elts h ∧ free_lists h' = free_lists h ∧ used_elt_bitmap h' = used_elt_bitmap h ∧
  used_count h' = used_count h ∧ max_len h' = max_len h ∧ zlen (elts h') = zlen (elts h) ∧ ∀ i, off (elts h') i = off (elts h) i.

(** ** Insertion *)

(** The links after an element is put between its neighbours. *)
Definition linked_in es es' (p n new : Z) : Prop :=
  zlen es' = zlen es ∧ (∀ j, nx es' j = if decide (j = p) then new else if decide (j = new) then n else nx es j) ∧
  ∀ j, pv es' j = if decide (j = n) then new else if decide (j = new) then p else pv es j.

Lemma chain_insert es es' l1 p n l2 new : NoDup (l1 ++ p :: n :: l2) → new ∉ l1 ++ p :: n :: l2 → 0 ≤ new < zlen es → linked_in es es' p n new →
  chain es None (l1 ++ p :: n :: l2) None → chain es' None (l1 ++ p :: new :: n :: l2) None.
Proof.
  intros Hnd Hnew Hr (Hl & Hnx & Hpv). rewrite !chain_middle. intros (H1 & (Hp1 & Hp2 & Hp3) & H2). cbn [chain] in H2 |- *.
  destruct H2 as (Hn1 & Hn2 & Hn3 & H2). cbn in Hp3, Hn2 |- *. apply NoDup_app in Hnd as (_ & Hd & Hnd). apply NoDup_cons in Hnd as [Hd1 Hnd]. apply NoDup_cons in Hnd as [Hd2 Hnd].
  rewrite !list.elem_of_app, !list.elem_of_cons in Hnew. rewrite list.elem_of_cons in Hd1.
  assert (p ≠ n ∧ new ≠ p ∧ new ≠ n) as (Hpn & Hnp & Hnn) by tauto.
  split_and!; rewrite ?Hl, ?Hnx, ?Hpv; try lia; try (repeat case_decide; congruence).
  - apply (chain_ext es); [by rewrite Hl| |done]. intros j Hj. rewrite Hnx, Hpv. specialize (Hd j Hj). rewrite !list.elem_of_cons in Hd.
    assert (j ≠ new) by (intros ->; tauto). rewrite !decide_False by tauto. done.
  - apply (chain_ext es); [by rewrite Hl| |done]. intros j Hj. rewrite Hnx, Hpv.
    assert (j ≠ p ∧ j ≠ n ∧ j ≠ new) as (? & ? & ?) by (split_and!; intros ->; tauto). by rewrite !decide_False.
Qed.

Lemma chain_insert_last es es' l p new : NoDup (l ++ [p]) → new ∉ l ++ [p] → 0 ≤ new < zlen es → zlen es' = zlen es →
  (∀ j, nx es' j = if decide (j = p) then new else if decide (j = new) then new else nx es j) →
  (∀ j, pv es' j = if decide (j = new) then p else pv es j) → chain es None (l ++ [p]) None → chain es' None (l ++ [p; new]) None.
Proof.
  intros Hnd Hnew Hr Hl Hnx Hpv. rewrite !chain_middle. intros (H1 & (Hp1 & Hp2 & Hp3) & _). cbn [chain hd_error default from_option or_else].
  apply NoDup_app in Hnd as (_ & Hd & _). rewrite list.elem_of_app, list_elem_of_singleton in Hnew. assert (new ≠ p) as Hnp by tauto.
  split_and!; rewrite ?Hl, ?Hnx, ?Hpv; try lia; try (repeat case_decide; congruence).
  - apply (chain_ext es); [by rewrite Hl| |done]. intros j Hj. rewrite Hnx, Hpv. specialize (Hd j Hj). rewrite list_elem_of_singleton in Hd.
    assert (j ≠ new) by (intros ->; tauto). by rewrite !decide_False.
  - by rewrite decide_True.
  - by rewrite decide_True.
Qed.

Lemma chain_insert_first es es' n l new : NoDup (n :: l) → new ∉ n :: l → 0 ≤ new < zlen es → zlen es' = zlen es →
  (∀ j, nx es' j = if decide (j = new) then n else nx es j) →
  (∀ j, pv es' j = if decide (j = n) then new else if decide (j = new) then new else pv es j) → chain es None (n :: l) None → chain es' None (new :: n :: l) None.
Proof.
  intros Hnd Hnew Hr Hl Hnx Hpv. cbn [chain hd_error default from_option or_else]. intros (Hn1 & Hn2 & Hn3 & H2).
  apply NoDup_cons in Hnd as [Hd _]. rewrite list.elem_of_cons in Hnew. assert (new ≠ n) as Hnn by tauto.
  split_and!; rewrite ?Hl, ?Hnx, ?Hpv; try lia; try (repeat case_decide; congruence); [by rewrite decide_True..|].
  apply (chain_ext es); [by rewrite Hl| |done]. intros j Hj. rewrite Hnx, Hpv. assert (j ≠ n ∧ j ≠ new) as [? ?] by (split; intros ->; tauto). by rewrite !decide_False.
Qed.

(** ** The list of a heap *)

Record list_rep (h : header) l : Prop := {
  lr_chain : chain (elts h) None l None;
  lr_nodup : NoDup l;
  lr_head : l ≠ [] → hd_error l = Some (head h);
  lr_tail : l ≠ [] → last l = Some (tail h);
}.

Lemma list_rep_middle h l1 e l2 : list_rep h (l1 ++ e :: l2) →
  0 ≤ e < zlen (elts h) ∧ heap_prev h e = Some (default e (last l1)) ∧ heap_next h e = Some (default e (hd_error l2)) ∧ e ∉ l1 ∧ e ∉ l2.
Proof.
  intros [Hc Hnd _ _]. apply chain_middle in Hc as (_ & (Hr & Hp & Hn) & _). unfold heap_prev, heap_next. rewrite elt_at_ok by done. cbn [mbind option_bind].
  apply NoDup_app in Hnd as (_ & Hd & Hnd). apply NoDup_cons in Hnd as [Hno _]. unfold pv, nx in Hp, Hn. rewrite Hp, Hn. split_and!; try done; [lia|lia|].
  intros Hin. apply (Hd e Hin). by left.
Qed.

Lemma NoDup_insert l1 l2 new : NoDup (l1 ++ l2) → new ∉ l1 ++ l2 → NoDup (l1 ++ new :: l2).
Proof. intros Hnd Hnew. rewrite <- Permutation_middle. by apply NoDup_cons. Qed.

(** The ends of a list with an element. *)
Lemma head_middle l1 e l2 : hd_error (l1 ++ e :: l2) = Some (default e (hd_error l1)).
Proof. by destruct l1. Qed.

Lemma last_middle l1 e l2 : last (l1 ++ e :: l2) = Some (default e (last l2)).
Proof. rewrite last_app, last_cons. by destruct (last l2). Qed.

Section insert.
Context (h : header) (l1 : list Z) (e : Z) (l2 : list Z) (new : Z).
Context (Hrep : list_rep h (l1 ++ e :: l2)) (Hnew : new ∉ l1 ++ e :: l2) (Hr : 0 ≤ new < zlen (elts h)).

Lemma elt_insert_after_ok : ∃ h', elt_insert_after h e new = Some h' ∧ same_but_elts h h' ∧ list_rep h' (l1 ++ e :: new :: l2).
Proof using All.
  destruct (list_rep_middle _ _ _ _ Hrep) as (He & _ & Hnext & Hno1 & Hno2). destruct Hrep as [Hc Hnd Hhd Htl].
  assert (NoDup (l1 ++ e :: new :: l2)) as Hnd'.
  { rewrite (cons_middle e), (app_assoc l1) in *. by apply NoDup_insert. }
  unfold elt_insert_after. rewrite Hnext. cbn [mbind option_bind]. destruct l2 as [|n l2']; cbn [default from_option hd_error id].
  - rewrite Z.eqb_refl. destruct (upd_links h new Hr 0 (e - new)) as (es1 & E1 & L1).
    change (λ x, set_prev (e - new) (set_next 0 x)) with (λ x, set_next 0 (set_prev (e - new) x)). rewrite E1. cbn [mbind option_bind].
    destruct (upd_next (set_elts es1 h) e ltac:(cbn; destruct L1; lia) (new - e)) as (es2 & E2 & L2). rewrite E2. cbn [mbind option_bind].
    destruct L1 as (Hl1 & Hn1 & Hp1 & Ho1), L2 as (Hl2 & Hn2 & Hp2 & Ho2). cbn [elts set_elts] in *.
    eexists. split; [reflexivity|]. split.
    + split_and!; try done; cbn [elts set_elts set_ends]; [congruence|]. intros i. by rewrite Ho2.
    + constructor; cbn [elts set_elts set_ends head tail].
      * apply (chain_insert_last (elts h)); try done; [congruence| |]; intros j; rewrite ?Hn2, ?Hn1, ?Hp2, ?Hp1; repeat case_decide; subst; lia || done.
      * done.
      * intros _. rewrite head_middle in Hhd |- *. apply Hhd. by destruct l1.
      * intros _. by rewrite last_middle.
  - destruct (list_rep_middle h (l1 ++ [e]) n l2') as (Hn & _); [by rewrite <- app_assoc|].
    assert (n ≠ e ∧ new ≠ e ∧ new ≠ n) as (Hne & Hnewe & Hnewn).
    { rewrite !list.elem_of_app, !list.elem_of_cons in Hnew. rewrite list.elem_of_cons in Hno2. split_and!; intros ->; tauto. }
    rewrite (proj2 (Z.eqb_neq n e) Hne).
    destruct (upd_links h new Hr (n - new) (e - new)) as (es1 & E1 & L1). rewrite E1. cbn [mbind option_bind].
    destruct (upd_next (set_elts es1 h) e ltac:(cbn; destruct L1; lia) (new - e)) as (es2 & E2 & L2). rewrite E2. cbn [mbind option_bind].
    destruct (upd_prev (set_elts es2 (set_elts es1 h)) n ltac:(cbn; destruct L1, L2; cbn in *; lia) (new - n)) as (es3 & E3 & L3). rewrite E3.
    destruct L1 as (Hl1 & Hn1 & Hp1 & Ho1), L2 as (Hl2 & Hn2 & Hp2 & Ho2), L3 as (Hl3 & Hn3 & Hp3 & Ho3). cbn [elts set_elts] in *.
    eexists. split; [reflexivity|]. split.
    + split_and!; try done; cbn [elts set_elts set_ends]; [congruence|]. intros i. by rewrite Ho3, Ho2.
    + constructor; cbn [elts set_elts set_ends head tail].
      * apply (chain_insert (elts h)); try done. split_and!; [congruence| |]; intros j; rewrite ?Hn3, ?Hp3, ?Hn2, ?Hn1, ?Hp2, ?Hp1; repeat case_decide; subst; lia || done.
      * done.
      * intros _. rewrite head_middle in Hhd |- *. apply Hhd. by destruct l1.
      * intros _. rewrite last_middle in Htl |- *. rewrite <- Htl by by destruct l1. by rewrite !last_cons; destruct (last l2').
Qed.

Lemma elt_insert_before_ok : ∃ h', elt_insert_before h e new = Some h' ∧ same_but_elts h h' ∧ list_rep h' (l1 ++ new :: e :: l2).
Proof using All.
  destruct (list_rep_middle _ _ _ _ Hrep) as (He & Hprev & _ & Hno1 & Hno2). destruct Hrep as [Hc Hnd Hhd Htl].
  assert (NoDup (l1 ++ new :: e :: l2)) as Hnd' by by apply NoDup_insert.
  unfold elt_insert_before. rewrite Hprev. cbn [mbind option_bind]. destruct (last l1) as [p|] eqn:Hlast; cbn [default from_option id].
  - apply last_Some in Hlast as [l1' ->]. rewrite <- !app_assoc in *. cbn [app] in *.
    destruct (list_rep_middle h l1' p (e :: l2)) as (Hn & _); [done|].
    assert (p ≠ e ∧ new ≠ e ∧ new ≠ p) as (Hne & Hnewe & Hnewn).
    { rewrite !list.elem_of_app, !list.elem_of_cons in Hnew. rewrite list.elem_of_app, list_elem_of_singleton in Hno1. split_and!; intros ->; tauto. }
    rewrite (proj2 (Z.eqb_neq p e) Hne).
    destruct (upd_links h new Hr (e - new) (p - new)) as (es1 & E1 & L1). rewrite E1. cbn [mbind option_bind].
    destruct (upd_prev (set_elts es1 h) e ltac:(cbn; destruct L1; lia) (new - e)) as (es2 & E2 & L2). rewrite E2. cbn [mbind option_bind].
    destruct (upd_next (set_elts es2 (set_elts es1 h)) p ltac:(cbn; destruct L1, L2; cbn in *; lia) (new - p)) as (es3 & E3 & L3). rewrite E3.
    destruct L1 as (Hl1 & Hn1 & Hp1 & Ho1), L2 as (Hl2 & Hn2 & Hp2 & Ho2), L3 as (Hl3 & Hn3 & Hp3 & Ho3). cbn [elts set_elts] in *.
    eexists. split; [reflexivity|]. split.
    + split_and!; try done; cbn [elts set_elts set_ends]; [congruence|]. intros i. by rewrite Ho3, Ho2.
    + constructor; cbn [elts set_elts set_ends head tail].
      * apply (chain_insert (elts h)); try done. split_and!; [congruence| |]; intros j; rewrite ?Hn3, ?Hp3, ?Hn2, ?Hn1, ?Hp2, ?Hp1; repeat case_decide; subst; lia || done.
      * done.
      * intros _. rewrite head_middle in Hhd |- *. apply Hhd. by destruct l1'.
      * intros _. rewrite last_middle in Htl |- *. rewrite <- Htl by by destruct l1'. by rewrite !last_cons; destruct (last l2).
  - apply last_None in Hlast as ->. cbn [app] in *. rewrite Z.eqb_refl.
    destruct (upd_links h new Hr (e - new) 0) as (es1 & E1 & L1). rewrite E1. cbn [mbind option_bind].
    destruct (upd_prev (set_elts es1 h) e ltac:(cbn; destruct L1; lia) (new - e)) as (es2 & E2 & L2). rewrite E2. cbn [mbind option_bind].
    destruct L1 as (Hl1 & Hn1 & Hp1 & Ho1), L2 as (Hl2 & Hn2 & Hp2 & Ho2). cbn [elts set_elts] in *.
    eexists. split; [reflexivity|]. split.
    + split_and!; try done; cbn [elts set_elts set_ends]; [congruence|]. intros i. by rewrite Ho2.
    + constructor; cbn [elts set_elts set_ends head tail].
      * apply (chain_insert_first (elts h)); try done; [congruence| |]; intros j; rewrite ?Hn2, ?Hn1, ?Hp2, ?Hp1; repeat case_decide; subst; lia || done.
      * done.
      * done.
      * intros _. rewrite !last_cons in *. rewrite <- Htl by done. by destruct (last l2).
Qed.
End insert.

(** ** Deletion *)

Lemma chain_delete es es' l1 p e n l2 : NoDup (l1 ++ p :: e :: n :: l2) → links es es' (λ j, if decide (j = p) then n else nx es j) (λ j, if decide (j = n) then p else pv es j) →
  chain es None (l1 ++ p :: e :: n :: l2) None → chain es' None (l1 ++ p :: n :: l2) None.
Proof.
  intros Hnd (Hl & Hnx & Hpv & _). rewrite !chain_middle. intros (H1 & (Hp1 & Hp2 & Hp3) & H2). cbn [chain hd_error or_else] in H2 |- *.
  destruct H2 as (_ & _ & _ & (Hn1 & Hn2 & Hn3 & H2)). apply NoDup_app in Hnd as (_ & Hd & Hnd). rewrite !NoDup_cons, !list.elem_of_cons in Hnd.
  assert (p ≠ n ∧ p ∉ l2 ∧ n ∉ l2) as (Hpn & Hp & Hn) by tauto.
  split_and!; rewrite ?Hl, ?Hnx, ?Hpv; try lia; try (repeat case_decide; congruence); [|by rewrite decide_True..|].
  - apply (chain_ext es); [by rewrite Hl| |done]. intros j Hj. rewrite Hnx, Hpv. specialize (Hd j Hj). rewrite !list.elem_of_cons in Hd. by rewrite !decide_False by tauto.
  - apply (chain_ext es); [by rewrite Hl| |done]. intros j Hj. rewrite Hnx, Hpv. by rewrite !decide_False by (intros ->; tauto).
Qed.

Lemma chain_delete_first es es' e n l : NoDup (e :: n :: l) → links es es' (nx es) (λ j, if decide (j = n) then n else pv es j) →
  chain es None (e :: n :: l) None → chain es' None (n :: l) None.
Proof.
  intros Hnd (Hl & Hnx & Hpv & _). cbn [chain hd_error or_else]. intros (_ & _ & _ & Hn1 & Hn2 & Hn3 & H2). rewrite !NoDup_cons in Hnd.
  split_and!; rewrite ?Hl, ?Hnx, ?Hpv; try lia; [by rewrite decide_True|].
  apply (chain_ext es); [by rewrite Hl| |done]. intros j Hj. rewrite Hnx, Hpv. by rewrite decide_False by (intros ->; tauto).
Qed.

Lemma chain_delete_last es es' l p e : NoDup (l ++ [p; e]) → links es es' (λ j, if decide (j = p) then p else nx es j) (pv es) →
  chain es None (l ++ [p; e]) None → chain es' None (l ++ [p]) None.
Proof.
  intros Hnd (Hl & Hnx & Hpv & _). rewrite !chain_middle. intros (H1 & (Hp1 & Hp2 & Hp3) & H2). apply NoDup_app in Hnd as (_ & Hd & Hnd).
  split_and!; rewrite ?Hl, ?Hnx, ?Hpv; try lia; [|by rewrite decide_True|done].
  apply (chain_ext es); [by rewrite Hl| |done]. intros j Hj. rewrite Hnx, Hpv. specialize (Hd j Hj). rewrite list.elem_of_cons in Hd. by rewrite decide_False by tauto.
Qed.

(** The elements of [l] keep their offsets, and the rest of the state but the vectors of elements and of free elements is the same. *)
Record frame (h h' : header) l : Prop := {
  fr_vec : vec h' = vec h;
  fr_lists : free_lists h' = free_lists h;
  fr_used : used_elt_bitmap h' = used_elt_bitmap h;
  fr_count : used_count h' = used_count h;
  fr_max : max_len h' = max_len h;
  fr_off i : i ∈ l → 0 ≤ i < zlen (elts h) → i < zlen (elts h') ∧ off (elts h') i = off (elts h) i;
}.

(** The elements that are not in the list, to be used again. *)
Definition fresh_rep (h : header) l : Prop := NoDup (free_elts h) ∧ ∀ i, i ∈ free_elts h → 0 ≤ i < zlen (elts h) ∧ i ∉ l.

Lemma elt_unlink_ok h l1 e l2 : list_rep h (l1 ++ e :: l2) → l1 ++ l2 ≠ [] →
  ∃ h1, (let p := e + prev (velt elt_0 (elts h) e) in let n := e + next (velt elt_0 (elts h) e) in
    if p =? e then h ← upd n (set_prev 0) h; Some (set_ends n (tail h) h)
    else if n =? e then h ← upd p (set_next 0) h; Some (set_ends (head h) p h)
    else h ← upd p (set_next (n - p)) h; upd n (set_prev (p - n)) h) = Some h1 ∧ same_but_elts h h1 ∧ list_rep h1 (l1 ++ l2).
Proof.
  intros Hrep Hne. destruct (list_rep_middle _ _ _ _ Hrep) as (He & Hprev & Hnext & Hno1 & Hno2). destruct Hrep as [Hc Hnd Hhd Htl].
  assert (NoDup (l1 ++ l2)) as Hnd' by (rewrite <- Permutation_middle, NoDup_cons in Hnd; tauto).
  unfold heap_prev, heap_next in Hprev, Hnext. rewrite elt_at_ok in Hprev, Hnext by done. cbn [mbind option_bind] in Hprev, Hnext. injection Hprev as ->. injection Hnext as ->. cbn zeta.
  destruct (last l1) as [p|] eqn:Hlast; cbn [default from_option id].
  - apply last_Some in Hlast as [l1' ->]. rewrite <- !app_assoc in *. cbn [app] in *.
    destruct (list_rep_middle h l1' p (e :: l2)) as (Hp & _); [done|].
    assert (p ≠ e) as Hpe by (rewrite list.elem_of_app, list_elem_of_singleton in Hno1; intros ->; tauto).
    rewrite (proj2 (Z.eqb_neq p e) Hpe). destruct l2 as [|n l2]; cbn [default from_option hd_error id].
    + rewrite Z.eqb_refl. destruct (upd_next h p Hp 0) as (es1 & E1 & L1). rewrite E1. cbn [mbind option_bind]. eexists. split; [reflexivity|].
      destruct L1 as (Hl1 & Hn1 & Hp1 & Ho1). split; [by split_and!|]. constructor; cbn [elts set_elts set_ends head tail].
      * apply (chain_delete_last (elts h) _ _ _ e); [done| |done]. split_and!; [done| |done..]. intros j. rewrite Hn1. case_decide; lia.
      * done.
      * intros _. rewrite head_middle in Hhd |- *. apply Hhd. by destruct l1'.
      * intros _. by rewrite last_middle.
    + destruct (list_rep_middle h (l1' ++ [p; e]) n l2) as (Hn & _); [by rewrite <- app_assoc|].
      assert (n ≠ e) as Hne' by (rewrite list.elem_of_cons in Hno2; intros ->; tauto). rewrite (proj2 (Z.eqb_neq n e) Hne').
      destruct (upd_next h p Hp (n - p)) as (es1 & E1 & L1). rewrite E1. cbn [mbind option_bind].
      destruct (upd_prev (set_elts es1 h) n ltac:(cbn; destruct L1; lia) (p - n)) as (es2 & E2 & L2). rewrite E2. eexists. split; [reflexivity|].
      destruct L1 as (Hl1 & Hn1 & Hp1 & Ho1), L2 as (Hl2 & Hn2 & Hp2 & Ho2). cbn [elts set_elts] in *.
      split; [split_and!; try done; cbn [elts set_elts]; [congruence|]; intros i; by rewrite Ho2|]. constructor; cbn [elts set_elts head tail].
      * apply (chain_delete (elts h) _ _ _ e); [done| |done]. split_and!; [congruence| | |]; intros j; rewrite ?Hn2, ?Hn1, ?Hp2, ?Hp1, ?Ho2; repeat case_decide; lia || done.
      * done.
      * intros _. rewrite head_middle in Hhd |- *. apply Hhd. by destruct l1'.
      * intros _. rewrite last_middle in Htl |- *. rewrite <- Htl by by destruct l1'. by rewrite !last_cons; destruct (last l2).
  - apply last_None in Hlast as ->. cbn [app] in *. rewrite Z.eqb_refl. destruct l2 as [|n l2]; [done|]. cbn [default from_option hd_error id].
    destruct (list_rep_middle h [e] n l2) as (Hn & _); [done|].
    destruct (upd_prev h n Hn 0) as (es1 & E1 & L1). rewrite E1. cbn [mbind option_bind]. eexists. split; [reflexivity|].
    destruct L1 as (Hl1 & Hn1 & Hp1 & Ho1). split; [by split_and!|]. constructor; cbn [elts set_elts set_ends head tail].
    + apply (chain_delete_first (elts h) _ e); [done| |done]. split_and!; [done|done| |done]. intros j. rewrite Hp1. case_decide; lia.
    + done.
    + done.
    + intros _. rewrite !last_cons in *. rewrite <- Htl by done. by destruct (last l2).
Qed.

Lemma frame_same h h' l : same_but_elts h h' → frame h h' l.
Proof. intros (Hv & _ & Hl & Hb & Hc & Hm & Hz & Ho). constructor; try done. intros i _ Hi. split; [lia|done]. Qed.

Lemma frame_refl h l : frame h h l.
Proof. constructor; try done. intros. split; [lia|done]. Qed.

Lemma frame_trans h1 h2 h3 l : frame h1 h2 l → frame h2 h3 l → frame h1 h3 l.
Proof.
  intros [? ? ? ? ? F1] [? ? ? ? ? F2]. constructor; try congruence. intros i Hi Hr. destruct (F1 i Hi Hr) as [? <-]. apply F2; [done|lia].
Qed.

Lemma frame_sub h h' l l' : (∀ i, i ∈ l' → i ∈ l) → frame h h' l → frame h h' l'.
Proof. intros Hsub [? ? ? ? ? F]. constructor; try done. intros i Hi. by apply F, Hsub. Qed.

Lemma fresh_same h h' l l' new : same_but_elts h h' → fresh_rep h l → new ∉ free_elts h → (∀ i, i ∈ l' → i = new ∨ i ∈ l) → fresh_rep h' l'.
Proof.
  intros (_ & Hf & _ & _ & _ & _ & Hz & _) [Hnd Hin] Hnew Hsub. split; [by rewrite Hf|]. intros i. rewrite Hf, Hz. intros Hi. destruct (Hin i Hi) as [? Hno]. split; [done|].
  intros Hl'. destruct (Hsub i Hl') as [->|?]; tauto.
Qed.

Lemma elt_take es k i : 0 ≤ i < k → velt elt_0 (take (Z.to_nat k) es) i = velt elt_0 es i.
Proof. intros Hi. unfold velt, vget. case_cond; [|done]. by rewrite lookup_take_lt by lia. Qed.

Lemma elt_delete_ok h l1 e l2 : list_rep h (l1 ++ e :: l2) → l1 ++ l2 ≠ [] → fresh_rep h (l1 ++ e :: l2) →
  ∃ h', elt_delete h e = Some h' ∧ frame h h' (l1 ++ l2) ∧ list_rep h' (l1 ++ l2) ∧ fresh_rep h' (l1 ++ l2).
Proof.
  intros Hrep Hne Hfresh. destruct (list_rep_middle _ _ _ _ Hrep) as (He & _ & _ & Hno1 & Hno2). destruct (elt_unlink_ok h l1 e l2 Hrep Hne) as (h1 & E1 & Hsame & Hrep1).
  assert (∀ i, i ∈ l1 ++ l2 → i ≠ e ∧ i ∈ l1 ++ e :: l2) as Hsub. { intros i. rewrite !list.elem_of_app, list.elem_of_cons. intros Hi. split; [intros ->; tauto|tauto]. }
  assert (e ∉ free_elts h) as Hfe. { intros Hin. apply (proj2 Hfresh) in Hin as [_ Hin]. apply Hin. rewrite list.elem_of_app. right. by left. }
  assert (fresh_rep h1 (l1 ++ l2)) as Hfresh1. { eapply fresh_same; [done|done|exact Hfe|]. intros i Hi. right. by apply Hsub. }
  pose proof Hsame as (_ & Hf & _ & _ & _ & _ & Hz & _).
  unfold elt_delete. rewrite elt_at_ok by done. cbn [mbind option_bind]. cbn zeta in E1 |- *. rewrite E1. cbn [mbind option_bind]. case_cond.
  - eexists. split; [reflexivity|]. split_and!.
    + by destruct (frame_same _ _ (l1 ++ l2) Hsame); constructor.
    + by destruct Hrep1; constructor.
    + destruct Hfresh1 as [Hnd Hin]. split; cbn [free_elts set_free_elts elts].
      * rewrite <- Permutation_cons_append. apply NoDup_cons. by rewrite Hf in *.
      * intros i. rewrite list.elem_of_app, list_elem_of_singleton. intros [Hi| ->]; [by apply Hin|]. split; [lia|]. intros Hi. by destruct (Hsub _ Hi).
  - assert (e = zlen (elts h) - 1) as Hlast by lia. eexists. split; [reflexivity|].
    assert (∀ i, 0 ≤ i < zlen (elts h) → i ≠ e → i < zlen (take (Z.to_nat (zlen (elts h) - 1)) (elts h1))) as Hlt by (intros i Hi Hie; unfold zlen in *; rewrite length_take; lia).
    assert (∀ i, 0 ≤ i < zlen (elts h) → i ≠ e → velt elt_0 (take (Z.to_nat (zlen (elts h) - 1)) (elts h1)) i = velt elt_0 (elts h1) i) as Hv by (intros i Hi Hie; apply elt_take; lia).
    split_and!.
    + destruct (frame_same _ _ (l1 ++ l2) Hsame) as [? ? ? ? ? Hoff]. constructor; try done. cbn [elts set_elts]. intros i Hi Hr. destruct (Hsub i Hi) as [Hie _].
      split; [by apply Hlt|]. unfold off. rewrite Hv by done. by apply Hoff.
    + destruct Hrep1 as [Hc1 Hnd1 Hh1 Ht1]. constructor; try done. cbn [elts set_elts]. apply (chain_same (elts h1)); [|done]. intros i Hi. destruct (Hsub i Hi) as [Hie _].
      pose proof (chain_range _ _ _ _ _ Hc1 Hi). split; [apply Hlt; [lia|done]|]. unfold nx, pv. rewrite Hv by (lia || done). done.
    + destruct Hfresh1 as [Hnd Hin]. split; [done|]. cbn [free_elts set_elts elts]. intros i Hi. destruct (Hin i Hi) as [Hr Hno]. assert (i ≠ e) by (rewrite Hf in Hi; congruence).
      split; [|done]. split; [lia|]. apply Hlt; [lia|done].
Qed.

(** ** A new element *)

Lemma vget_snoc (l : list Z) : 0 < zlen l → ∃ l' i, l = l' ++ [i] ∧ vget l (zlen l - 1) = Some i ∧ take (Z.to_nat (zlen l - 1)) l = l'.
Proof.
  induction l as [|i l _] using rev_ind; intros Hl; [done|]. exists l, i. rewrite zlen_app, zlen_cons, zlen_nil. split; [done|].
  replace (zlen l + (0 + 1) - 1) with (zlen l) by lia. split; [rewrite vget_app_r by lia; by rewrite Z.sub_diag|]. unfold zlen. by rewrite Nat2Z.id, take_app_length.
Qed.

Lemma elt_new_ok h l : list_rep h l → fresh_rep h l → ∃ h' new, elt_new h = Some (h', new) ∧ frame h h' l ∧ list_rep h' l ∧ fresh_rep h' l ∧
  new ∉ l ∧ 0 ≤ new < zlen (elts h') ∧ new ∉ free_elts h' ∧ (l = [] → elts h = [] → free_elts h = [] → new = 0) ∧ head h' = head h ∧ tail h' = tail h.
Proof.
  intros [Hc Hnd Hh Ht] [Hfnd Hfin]. unfold elt_new. case_cond.
  - destruct (vget_snoc (free_elts h) ltac:(lia)) as (l' & i & Hl & -> & ->). cbn [mbind option_bind]. destruct (Hfin i) as [Hi Hno]; [rewrite Hl, list.elem_of_app; right; by left|].
    rewrite Hl in Hfnd, Hfin. apply NoDup_app in Hfnd as (Hnd1 & Hd & _). rewrite elt_at_ok by done. cbn [mbind option_bind]. exists (set_free_elts l' h), i.
    split_and!; try done; [| |lia|cbn; lia| |].
    + by destruct (frame_refl h l); constructor.
    + split; [done|]. intros j Hj. apply Hfin. rewrite list.elem_of_app. by left.
    + intros Hin. apply (Hd i Hin). by left.
    + intros _ _ Hf. rewrite Hf in Hl. by destruct l'.
  - exists (set_elts (elts h ++ [elt_0]) h), (zlen (elts h)). assert (free_elts h = []) as Hnil by (apply length_zero_iff_nil; unfold zlen in *; lia).
    pose proof (zlen_nonneg (elts h)).
    assert (∀ i, 0 ≤ i < zlen (elts h) → velt elt_0 (elts h ++ [elt_0]) i = velt elt_0 (elts h) i) as Hv by (intros i Hi; unfold velt; by rewrite vget_app_l by lia).
    assert (∀ i, i ∈ l → 0 ≤ i < zlen (elts h)) as Hr by (intros i; by apply (chain_range _ None _ None)).
    split_and!; try done; cbn [elts set_elts free_elts]; rewrite ?zlen_app, ?zlen_cons, ?zlen_nil; try lia.
    + constructor; try done. cbn [elts set_elts]. intros i _ Hi. rewrite zlen_app, zlen_cons, zlen_nil. split; [lia|]. unfold off. by rewrite Hv.
    + constructor; try done. cbn [elts set_elts]. apply (chain_ext (elts h)); [rewrite zlen_app, zlen_cons, zlen_nil; lia| |done].
      intros i Hi%Hr. unfold nx, pv. by rewrite Hv.
    + split; cbn [free_elts set_elts]; rewrite Hnil; [apply NoDup_nil_2|]. intros i Hi. by apply not_elem_of_nil in Hi.
    + intros Hi%Hr. lia.
    + rewrite Hnil. apply not_elem_of_nil.
    + intros _ -> _. by rewrite zlen_nil.
Qed.

Lemma upd_offset_ok h i o : 0 ≤ i < zlen (elts h) → ∃ es, upd i (set_offset o) h = Some (set_elts es h) ∧ zlen es = zlen (elts h) ∧
  (∀ j, off es j = if decide (j = i) then o else off (elts h) j) ∧ ∀ l, list_rep h l → list_rep (set_elts es h) l.
Proof.
  intros Hi. eexists. split; [by apply upd_ok|]. rewrite zlen_vset. split_and!; [done| |].
  - intros j. by rewrite off_vset.
  - intros l [Hc Hnd Hh Ht]. constructor; try done. cbn [elts set_elts]. apply (chain_ext (elts h)); [by rewrite zlen_vset| |done].
    intros j _. rewrite nx_vset, pv_vset by done. case_decide; [by subst|done].
Qed.
End HeapChain.
