(* ===== verification/HeapBins.v ===== *)
(** * The heap of vppinfra: its lists of free blocks

    [entry] is an element of a list by its bin and its place, and [free_rep] says that the first word of each free block is its place.
    What adding and removing a block do to them. *)

From stdpp Require Import gmap.
From S2P Require Import Prelude Bitmap Heap HeapChain.
Open Scope Z_scope.

Module HeapBins.
Import Heap HeapChain.

Definition entry (h : header) (b i : Z) : option Z := vget (velt [] (free_lists h) b) i.
Definition in_bin (h : header) (e b : Z) : Prop := ∃ i, entry h b i = Some e.
Definition hoff (h : header) (e : Z) : Z := heap_offset (velt elt_0 (elts h) e).

(** An element with the free bit, and the first word of a block in the vector. *)
Definition free_elt (h : header) (e : Z) : Prop := 0 ≤ e < zlen (elts h) ∧ 2 ^ 31 ≤ off (elts h) e < 2 ^ 32 ∧ hoff h e < zlen (vec h).

(** ** The free bit *)

Lemma land_free_bit x : 0 ≤ x → (Z.land x (2 ^ 31) =? 0) = negb (Z.testbit x 31).
Proof.
  intros Hx. assert (∀ n, 0 ≤ n → Z.testbit (Z.land x (2 ^ 31)) n = (n =? 31) && Z.testbit x 31) as Hb.
  { intros n Hn. rewrite Z.land_spec, testbit_pow2 by lia. destruct (Z.eqb_spec n 31) as [->|]; [by rewrite andb_true_r|by rewrite andb_false_r]. }
  destruct (Z.testbit x 31) eqn:Hx31; cbn [negb].
  - apply Z.eqb_neq. intros E. specialize (Hb 31 ltac:(lia)). by rewrite E, Z.bits_0 in Hb.
  - apply Z.eqb_eq, Z.bits_inj'. intros n Hn. by rewrite Hb, Z.bits_0, andb_false_r.
Qed.

Lemma testbit_31 x : 0 ≤ x < 2 ^ 32 → Z.testbit x 31 = (2 ^ 31 <=? x).
Proof.
  intros Hx. apply eq_true_iff_eq. rewrite Z.testbit_true, Z.leb_le by lia. split.
  - intros E. destruct (Z_lt_le_dec x (2 ^ 31)) as [Hlt|]; [|done]. by rewrite Z.div_small in E by lia.
  - intros Hle. replace (x / 2 ^ 31) with 1; [done|]. apply Z.div_unique with (x - 2 ^ 31); lia.
Qed.

Lemma heap_is_free_range e : 0 ≤ offset e < 2 ^ 32 → heap_is_free e = (2 ^ 31 <=? offset e).
Proof. intros He. unfold heap_is_free, HEAP_ELT_FREE_BIT. by rewrite land_free_bit, negb_involutive, testbit_31 by lia. Qed.

Lemma heap_offset_mod e : heap_offset e = offset e mod 2 ^ 31.
Proof. unfold heap_offset, HEAP_ELT_FREE_BIT. by rewrite <- (Z.land_ones _ 31). Qed.

Lemma lor_free_bit x : 0 ≤ x < 2 ^ 31 → Z.lor x HEAP_ELT_FREE_BIT = x + 2 ^ 31.
Proof.
  intros Hx. unfold HEAP_ELT_FREE_BIT. pose proof (Z.add_lor_land x (2 ^ 31)) as E.
  pose proof (land_free_bit x ltac:(lia)) as E0. rewrite testbit_31 in E0 by lia. destruct (Z.leb_spec (2 ^ 31) x); [lia|]. apply Z.eqb_eq in E0. lia.
Qed.

Lemma lor_free_same e : 0 ≤ offset e → heap_is_free e = true → Z.lor (offset e) HEAP_ELT_FREE_BIT = offset e.
Proof.
  intros He. unfold heap_is_free, HEAP_ELT_FREE_BIT. rewrite land_free_bit, negb_involutive by done. intros Hb. apply Z.bits_inj'. intros n Hn.
  rewrite Z.lor_spec, testbit_pow2 by lia. destruct (Z.eqb_spec n 31) as [->|]; [by rewrite Hb|by rewrite orb_false_r].
Qed.
Lemma hoff_off h e : hoff h e = off (elts h) e mod 2 ^ 31.
Proof. apply heap_offset_mod. Qed.

Lemma free_elt_bits h e : free_elt h e → elt_at h e = Some (velt elt_0 (elts h) e) ∧ heap_is_free (velt elt_0 (elts h) e) = true ∧
  hoff h e = off (elts h) e - 2 ^ 31 ∧ 0 ≤ hoff h e.
Proof.
  intros (He & Ho & _). unfold off in *. split_and!; [by apply elt_at_ok| | |].
  - rewrite heap_is_free_range by lia. lia.
  - unfold hoff. rewrite heap_offset_mod. symmetry. apply Z.mod_unique with 1; lia.
  - unfold hoff. rewrite heap_offset_mod. apply Z.mod_pos_bound. lia.
Qed.

Lemma used_elt_bits h e : 0 ≤ e < zlen (elts h) → 0 ≤ off (elts h) e < 2 ^ 31 → elt_at h e = Some (velt elt_0 (elts h) e) ∧
  heap_is_free (velt elt_0 (elts h) e) = false ∧ hoff h e = off (elts h) e.
Proof.
  intros He Ho. unfold off in *. split_and!; [by apply elt_at_ok| |].
  - rewrite heap_is_free_range by lia. lia.
  - unfold hoff. rewrite heap_offset_mod. apply Z.mod_small. lia.
Qed.

(** ** The stores *)

(** Only the vector and the lists of free blocks differ. *)
Record same_elts (h h' : header) : Prop := {
  se_elts : elts h' = elts h;
  se_free : free_elts h' = free_elts h;
  se_used : used_elt_bitmap h' = used_elt_bitmap h;
  se_head : head h' = head h;
  se_tail : tail h' = tail h;
  se_count : used_count h' = used_count h;
  se_max : max_len h' = max_len h;
  se_len : zlen (vec h') = zlen (vec h);
}.

Lemma free_elt_same h h' e : same_elts h h' → free_elt h e → free_elt h' e.
Proof. intros [Ee _ _ _ _ _ _ El]. unfold free_elt, hoff. by rewrite Ee, El. Qed.

Lemma vset_same {A} (d : A) l i : 0 ≤ i < zlen l → vset l i (velt d l i) = l.
Proof.
  intros Hi. apply (vec_ext d); rewrite zlen_vset; [done|]. intros j Hj. destruct (decide (i = j)) as [->|]; [by apply velt_vset_eq|by apply velt_vset_ne].
Qed.

Lemma set_elts_same h : set_elts (elts h) h = h.
Proof. by destruct h. Qed.

Lemma set_free_elt_again h e i : free_elt h e → set_free_elt h e i = Some (set_vec (vset (vec h) (hoff h e) i) h).
Proof.
  intros Hf. pose proof Hf as (He & Ho & Hv). destruct (free_elt_bits h e Hf) as (He' & Hb & _ & Hnn). unfold set_free_elt. rewrite upd_ok by done.
  rewrite lor_free_same by (unfold off in *; lia || done). replace (set_offset _ _) with (velt elt_0 (elts h) e) by by destruct (velt elt_0 (elts h) e).
  rewrite vset_same, set_elts_same by done. cbn [mbind option_bind]. rewrite He'. cbn [mbind option_bind]. unfold store_data.
  by rewrite (vget_velt 0) by (unfold hoff in *; lia).
Qed.

(** ** The representation *)

(** The entries but those of [X] are free blocks whose first words are their places, each block once. *)
Record free_rep (h : header) (X : Z → Z → Prop) : Prop := {
  fr_words b i e : entry h b i = Some e → ¬ X b i → free_elt h e ∧ velt 0 (vec h) (hoff h e) = i;
  fr_distinct b i e b' i' e' : entry h b i = Some e → entry h b' i' = Some e' → ¬ X b i → ¬ X b' i' → hoff h e = hoff h e' → b = b' ∧ i = i';
}.

Lemma entry_range h b i e : entry h b i = Some e → 0 ≤ b < zlen (free_lists h) ∧ 0 ≤ i < zlen (velt [] (free_lists h) b).
Proof.
  unfold entry. intros E. pose proof (vget_Some_range _ _ _ E). split; [|done]. destruct (decide (0 ≤ b < zlen (free_lists h))); [done|].
  rewrite velt_out in H by lia. unfold zlen in H. cbn in H. lia.
Qed.

Section remove.
Context (h : header) (X : Z → Z → Prop) (b i e : Z).
Context (Hrep : free_rep h X) (He : entry h b i = Some e) (HX : ∀ i', X b i' → i' = i) (Hone : ∀ i', entry h b i' = Some e → i' = i).

Abbreviation l := (zlen (velt [] (free_lists h) b)).

(** The entries when the block is removed. *)
Definition removed (h' : header) : Prop := ∀ b' i', entry h' b' i' =
  if decide (b' = b) then if decide (i' < l - 1) then if decide (i' = i) then entry h b (l - 1) else entry h b i' else None else entry h b' i'.

Lemma removed_in_bin h' e' b' : removed h' → in_bin h' e' b' ↔ in_bin h e' b' ∧ ¬ (e' = e ∧ b' = b).
Proof using He Hone.
  intros Hrem. unfold removed in Hrem. destruct (entry_range _ _ _ _ He) as [_ Hi]. unfold in_bin. setoid_rewrite Hrem. case_decide as Hb; [subst b'|tauto]. split.
  - intros (i' & E). repeat case_decide; [|..|done].
    + split; [by eexists|]. intros [-> _]. apply Hone in E. lia.
    + split; [by eexists|]. intros [-> _]. by apply Hone in E.
  - intros [(i' & E) Hne]. pose proof (entry_range _ _ _ _ E) as [_ Hi']. destruct (decide (i' = l - 1)) as [->|].
    + exists i. assert (i ≠ l - 1) by (intros Heq; rewrite <- Heq in E; rewrite He in E; injection E as ->; tauto). by rewrite decide_True, decide_True by lia.
    + exists i'. rewrite decide_True by lia. rewrite decide_False; [done|]. intros ->. rewrite He in E. injection E as ->. tauto.
Qed.

(** The removal in the lists, when list [b] is [list'] then. *)
Lemma removed_lists h0 lists list' : zlen lists = zlen (free_lists h) → (∀ b', b' ≠ b → velt [] lists b' = velt [] (free_lists h) b') → velt [] lists b = list' →
  (∀ i', 0 ≤ i' < l - 1 → vget list' i' = if decide (i' = i) then entry h b (l - 1) else entry h b i') → zlen list' = l →
  removed (set_free_lists (vset lists b (take (Z.to_nat (l - 1)) list')) h0).
Proof using He.
  intros Hlen Hother Hb Hlist Hl b' i'. destruct (entry_range _ _ _ _ He) as [Hbr Hi]. unfold entry at 1. cbn [free_lists set_free_lists]. case_decide as Hb'.
  - subst b'. rewrite velt_vset_eq by lia. case_decide as Hi'.
    + destruct (decide (0 ≤ i')).
      * rewrite <- Hlist by lia. unfold vget. case_cond; [|lia]. by rewrite lookup_take_lt by lia.
      * rewrite vget_out by lia. case_decide; [lia|]. symmetry. unfold entry. by rewrite vget_out by lia.
    + apply vget_out. right. unfold zlen at 1. rewrite length_take. lia.
  - rewrite velt_vset_ne by done. unfold entry. by rewrite Hother.
Qed.

Lemma removed_free_rep h' : same_elts h h' → removed h' →
  (∀ b' i' e', entry h b' i' = Some e' → ¬ X b' i' → (b', i') ≠ (b, i) → velt 0 (vec h') (hoff h e') = if decide (b' = b ∧ i' = l - 1) then i else i') →
  free_rep h' (λ b' i', X b' i' ∧ b' ≠ b).
Proof using All.
  intros Hsame Hrem Hwords. destruct (entry_range _ _ _ _ He) as [_ Hi]. destruct Hsame as [Se _ _ _ _ _ _ Sl].
  assert (∀ e', hoff h' e' = hoff h e') as Hoff by (intros; unfold hoff; by rewrite Se).
  assert (∀ b' i' e', entry h' b' i' = Some e' → ¬ (X b' i' ∧ b' ≠ b) → ∃ i0, entry h b' i0 = Some e' ∧ ¬ X b' i0 ∧ (b', i0) ≠ (b, i) ∧
    i' = if decide (b' = b ∧ i0 = l - 1) then i else i0) as Hback.
  { intros b' i' e' E Hnx. rewrite Hrem in E. repeat case_decide; try done; subst.
    - exists (l - 1). rewrite decide_True by done. split_and!; [done| |intros [=]; lia|done]. intros Hx. apply HX in Hx. lia.
    - exists i'. rewrite decide_False by lia. split_and!; [done| |congruence|done]. intros Hx. by apply HX in Hx.
    - exists i'. rewrite decide_False by tauto. split_and!; [done|tauto|congruence|done]. }
  constructor.
  - intros b' i' e' E Hnx. destruct (Hback _ _ _ E Hnx) as (i0 & E0 & Hx0 & Hne & ->). destruct (fr_words _ _ Hrep _ _ _ E0 Hx0) as [(H1 & H2 & H3) _].
    rewrite Hoff. split; [|by apply Hwords]. unfold free_elt. by rewrite Hoff, Se, Sl.
  - intros b1 i1 e1 b2 i2 e2 E1 E2 Hx1 Hx2 Heq. rewrite !Hoff in Heq. destruct (Hback _ _ _ E1 Hx1) as (j1 & F1 & Hy1 & _ & ->). destruct (Hback _ _ _ E2 Hx2) as (j2 & F2 & Hy2 & _ & ->).
    by destruct (fr_distinct _ _ Hrep _ _ _ _ _ _ F1 F2 Hy1 Hy2 Heq) as [-> ->].
Qed.

Lemma remove_free_block_ok : ∃ h', remove_free_block h b i = Some h' ∧ same_elts h h' ∧ removed h' ∧ free_rep h' (λ b' i', X b' i' ∧ b' ≠ b) ∧
  ∀ o, (∀ e', in_bin h e' b → e' ≠ e → hoff h e' ≠ o) → velt 0 (vec h') o = velt 0 (vec h) o.
Proof using All.
  destruct (entry_range _ _ _ _ He) as [Hb Hi]. unfold remove_free_block. rewrite (vget_velt []) by done. cbn [mbind option_bind]. rewrite (vget_velt 0 _ i) by done. cbn [mbind option_bind].
  case_cond.
  - assert (entry h b (l - 1) = Some (velt 0 (velt [] (free_lists h) b) (l - 1))) as Ht by (apply vget_velt; lia). fold (entry h b (l - 1)). rewrite Ht. cbn [mbind option_bind].
    set (t := velt 0 _ (l - 1)) in *. set (h1 := set_free_lists (vset (free_lists h) b (vset (velt [] (free_lists h) b) i t)) h).
    assert (¬ X b (l - 1)) as Hxl by (intros Hx; apply HX in Hx; lia). destruct (fr_words _ _ Hrep _ _ _ Ht Hxl) as [Hft _].
    rewrite (set_free_elt_again h1 t i) by done. cbn [mbind option_bind]. eexists. split; [reflexivity|]. change (hoff h1 t) with (hoff h t).
    set (h' := set_free_lists _ _). assert (same_elts h h') as Hsame by (constructor; try done; apply zlen_vset).
    assert (removed h') as Hrem.
    { apply removed_lists; cbn [free_lists set_vec h1 set_free_lists].
      + by rewrite zlen_vset.
      + intros b' Hb'. by rewrite velt_vset_ne.
      + done.
      + intros i' Hi'. rewrite velt_vset_eq by done. rewrite vget_vset. rewrite Ht. destruct (decide (i' = i)) as [->|]; [by rewrite decide_True by lia|]. by rewrite decide_False by lia.
      + by rewrite velt_vset_eq, zlen_vset by done. }
    pose proof Hft as (_ & Hfo & Hfv). destruct (free_elt_bits h t Hft) as (_ & _ & _ & Hnn).
    split_and!; [done|done|apply removed_free_rep; [done|done|]|].
    + intros b' i' e' E Hx Hne. cbn [vec h' set_free_lists set_vec h1]. case_decide as Hd.
      * destruct Hd as [-> ->]. rewrite Ht in E. injection E as <-. apply velt_vset_eq. lia.
      * rewrite velt_vset_ne; [by apply (fr_words _ _ Hrep _ _ _ E Hx)|]. intros Heq. apply Hd. by destruct (fr_distinct _ _ Hrep _ _ _ _ _ _ Ht E Hxl Hx Heq) as [<- <-].
    + intros o Ho. cbn [vec h' set_free_lists set_vec h1]. apply velt_vset_ne. apply Ho; [by exists (l - 1)|]. intros Heq. rewrite Heq in Ht. apply Hone in Ht. lia.
  - cbn [mbind option_bind]. eexists. split; [reflexivity|]. set (h' := set_free_lists _ _). assert (same_elts h h') as Hsame by by constructor.
    assert (removed h') as Hrem.
    { apply removed_lists; try done. intros i' Hi'. rewrite decide_False by lia. done. }
    split_and!; [done|done|apply removed_free_rep; [done|done|]|done].
    intros b' i' e' E Hx Hne. change (vec h') with (vec h). rewrite decide_False; [by apply (fr_words _ _ Hrep _ _ _ E Hx)|]. intros [-> ->]. apply Hne. f_equal. lia.
Qed.
End remove.

Lemma add_free_block_ok h X b e : 0 ≤ b → free_rep h X →
  let n := zlen (velt [] (free_lists h) b) in
  ∃ h', add_free_block h b e = (h', n) ∧ same_elts h h' ∧ vec h' = vec h ∧
    (∀ b' i', entry h' b' i' = if decide (b' = b ∧ i' = n) then Some e else entry h b' i') ∧
    (∀ e' b', in_bin h' e' b' ↔ (e' = e ∧ b' = b) ∨ in_bin h e' b') ∧ free_rep h' (λ b' i', X b' i' ∨ (b' = b ∧ i' = n)).
Proof.
  intros Hb Hrep n. unfold add_free_block. rewrite velt_validate. fold n. eexists. split; [reflexivity|]. set (h' := set_free_lists _ _).
  assert (same_elts h h') as Hsame by by constructor.
  assert (∀ b' i', entry h' b' i' = if decide (b' = b ∧ i' = n) then Some e else entry h b' i') as Hent.
  { intros b' i'. unfold entry at 1. cbn [h' free_lists set_free_lists]. destruct (decide (b' = b)) as [->|Hne].
    - rewrite velt_vset_eq by (rewrite zlen_validate; lia). unfold entry. destruct (decide (i' < n)) as [Hlt|].
      + rewrite decide_False by lia. by apply vget_app_l.
      + rewrite vget_app_r by lia. fold n. case_decide as Hd; [destruct Hd as [_ ->]; by rewrite Z.sub_diag|]. rewrite !vget_out; [done|lia|]. right. unfold zlen at 1. cbn. lia.
    - rewrite velt_vset_ne by done. rewrite velt_validate. by rewrite decide_False by tauto. }
  assert (entry h b n = None) as Hnone by (apply vget_out; by right).
  split_and!; [done|done|done| |].
  - intros e' b'. unfold in_bin. split.
    + intros (i' & E). rewrite Hent in E. case_decide as Hd; [left; destruct Hd as [-> _]; by injection E as ->|right; by exists i'].
    + intros [[-> ->]|(i' & E)]; [exists n; rewrite Hent; by rewrite decide_True|]. exists i'. rewrite Hent. rewrite decide_False; [done|]. intros [-> ->]. congruence.
  - assert (∀ b' i' e', entry h' b' i' = Some e' → ¬ (X b' i' ∨ b' = b ∧ i' = n) → entry h b' i' = Some e' ∧ ¬ X b' i') as Hback.
    { intros b' i' e' E Hx. rewrite Hent in E. rewrite decide_False in E by tauto. tauto. }
    constructor.
    + intros b' i' e' E Hx. destruct (Hback _ _ _ E Hx) as [E' Hx']. by apply (fr_words _ _ Hrep _ _ _ E').
    + intros b1 i1 e1 b2 i2 e2 E1 E2 Hx1 Hx2 Heq. destruct (Hback _ _ _ E1 Hx1) as [F1 Hy1]. destruct (Hback _ _ _ E2 Hx2) as [F2 Hy2].
      by apply (fr_distinct _ _ Hrep _ _ _ _ _ _ F1 F2 Hy1 Hy2).
Qed.

(** The free bit is set for the first time. *)
Lemma set_free_elt_first h e i : 0 ≤ e < zlen (elts h) → 0 ≤ off (elts h) e < 2 ^ 31 → off (elts h) e < zlen (vec h) →
  ∃ es, set_free_elt h e i = Some (set_vec (vset (vec h) (off (elts h) e) i) (set_elts es h)) ∧ zlen es = zlen (elts h) ∧
    (∀ j, off es j = if decide (j = e) then off (elts h) e + 2 ^ 31 else off (elts h) j) ∧ ∀ l, list_rep h l → list_rep (set_elts es h) l.
Proof.
  intros He Ho Hv. destruct (upd_offset_ok h e (off (elts h) e + 2 ^ 31) He) as (es & E & Hl & Hoff & Hrep). exists es. split_and!; try done.
  unfold set_free_elt. assert (upd e (λ x, set_offset (Z.lor (offset x) HEAP_ELT_FREE_BIT) x) h = Some (set_elts es h)) as ->.
  { rewrite <- E. unfold upd. rewrite elt_at_ok by done. cbn [mbind option_bind]. by rewrite lor_free_bit. }
  cbn [mbind option_bind]. rewrite elt_at_ok by (cbn; lia). cbn [mbind option_bind elts set_elts]. unfold store_data. cbn [vec set_elts].
  rewrite heap_offset_mod. fold (off es e). rewrite Hoff, decide_True by done.
  replace ((off (elts h) e + 2 ^ 31) mod 2 ^ 31) with (off (elts h) e) by (apply Z.mod_unique with 1; lia). by rewrite (vget_velt 0) by lia.
Qed.

(** The lists do not depend on the elements that are not on them, and entries get their first words back. *)
Lemma free_rep_frame h h' X : free_rep h X → free_lists h' = free_lists h → zlen (vec h) ≤ zlen (vec h') →
  (∀ b i e, entry h b i = Some e → ¬ X b i → e < zlen (elts h') ∧ off (elts h') e = off (elts h) e ∧ velt 0 (vec h') (hoff h e) = velt 0 (vec h) (hoff h e)) → free_rep h' X.
Proof.
  intros Hrep Hl Hv Hsame. assert (∀ b i, entry h' b i = entry h b i) as Hent by (intros; unfold entry; by rewrite Hl).
  assert (∀ b i e, entry h b i = Some e → ¬ X b i → hoff h' e = hoff h e) as Hoff.
  { intros b i e E Hx. destruct (Hsame _ _ _ E Hx) as (_ & Ho & _). unfold hoff. rewrite !heap_offset_mod. unfold off in Ho. by rewrite Ho. }
  constructor.
  - intros b i e E Hx. rewrite Hent in E. destruct (Hsame _ _ _ E Hx) as (H1 & H2 & H3). destruct (fr_words _ _ Hrep _ _ _ E Hx) as [(F1 & F2 & F3) F4].
    rewrite (Hoff _ _ _ E Hx). split; [|by rewrite H3]. unfold free_elt. rewrite (Hoff _ _ _ E Hx), H2. split_and!; lia || done.
  - intros b1 i1 e1 b2 i2 e2 E1 E2 Hx1 Hx2 Heq. rewrite Hent in E1, E2. rewrite (Hoff _ _ _ E1 Hx1), (Hoff _ _ _ E2 Hx2) in Heq.
    by apply (fr_distinct _ _ Hrep _ _ _ _ _ _ E1 E2).
Qed.

Lemma free_rep_weaken h (X X' : Z → Z → Prop) : free_rep h X → (∀ b i, X b i → X' b i) → free_rep h X'.
Proof.
  intros [Hw Hd] Hsub. constructor; [intros b i e E Hx; apply Hw with b; [done|]; intros ?; by apply Hx, Hsub|]. intros b1 i1 e1 b2 i2 e2 E1 E2 Hx1 Hx2.
  apply (Hd _ _ _ _ _ _ E1 E2); intros ?; [by apply Hx1, Hsub|by apply Hx2, Hsub].
Qed.

(** An entry whose first word is its place now. *)
Lemma free_rep_settle h X b n e : free_rep h (λ b' i', X b' i' ∨ (b' = b ∧ i' = n)) → entry h b n = Some e → free_elt h e → velt 0 (vec h) (hoff h e) = n →
  (∀ b' i' e', entry h b' i' = Some e' → ¬ X b' i' → (b', i') ≠ (b, n) → hoff h e' ≠ hoff h e) → free_rep h X.
Proof.
  intros Hrep He Hf Hw Hd. assert (∀ b' i', (b', i') ≠ (b, n) → ¬ X b' i' → ¬ (X b' i' ∨ (b' = b ∧ i' = n))) as Hx by (intros b' i' Hne Hx [?|[-> ->]]; tauto).
  constructor.
  - intros b' i' e' E Hx'. destruct (decide ((b', i') = (b, n))) as [[= -> ->]|Hne]; [|by apply (fr_words _ _ Hrep _ _ _ E), Hx]. rewrite He in E. by injection E as <-.
  - intros b1 i1 e1 b2 i2 e2 E1 E2 Hx1 Hx2 Heq. destruct (decide ((b1, i1) = (b, n))) as [[= -> ->]|Hne1], (decide ((b2, i2) = (b, n))) as [[= -> ->]|Hne2]; [done|..].
    + rewrite He in E1. injection E1 as <-. by destruct (Hd _ _ _ E2 Hx2 Hne2).
    + rewrite He in E2. injection E2 as <-. by destruct (Hd _ _ _ E1 Hx1 Hne1).
    + apply (fr_distinct _ _ Hrep _ _ _ _ _ _ E1 E2); [by apply Hx..|done].
Qed.
End HeapBins.
