(* ===== verification/HeapSegs.v ===== *)
(** * The heap of vppinfra: its blocks in the order of their offsets

    A [seg] is a used or a free block.  [seg_inv] relates the blocks of a heap to its state; what each operation of heap.c but the
    combination of free blocks does to the blocks. *)

From stdpp Require Import gmap.
From S2P Require Import Prelude Bitmap Heap HeapChain HeapBins.
Open Scope Z_scope.

Module HeapSegs.
Import Heap HeapChain HeapBins.

Record seg := Seg {
  s_idx : Z;
  s_off : Z;
  s_len : Z;
  s_free : bool;
}.

Implicit Types (segs A B : list seg) (s : seg).

Definition idxs segs : list Z := s_idx <$> segs.

(** The blocks from offset [o] to [o'] without gaps. *)
Fixpoint laid (o : Z) segs (o' : Z) : Prop :=
  match segs with
  | [] => o = o'
  | s :: segs => s_off s = o ∧ 0 < s_len s ∧ laid (o + s_len s) segs o'
  end.

(** The offset of the element of a block. *)
Definition s_word s : Z := s_off s + (if s_free s then 2 ^ 31 else 0).

(** The blocks are those of the list of elements. *)
Record seg_core (h : header) segs : Prop := {
  sc_list : list_rep h (idxs segs);
  sc_fresh : fresh_rep h (idxs segs);
  sc_laid : laid 0 segs (zlen (vec h));
  sc_small : zlen (vec h) < 2 ^ 31;
  sc_off s : s ∈ segs → off (elts h) (s_idx s) = s_word s;
  sc_empty : segs = [] → elts h = [] ∧ free_elts h = [] ∧ head h = 0 ∧ tail h = 0;
}.

(** The free ones are in the lists by their sizes. *)
Definition free_in segs (e b : Z) : Prop := ∃ s, s ∈ segs ∧ s_free s = true ∧ s_idx s = e ∧ size_to_bin (s_len s) = b.
Definition binned (h : header) segs : Prop := ∀ e b, in_bin h e b ↔ free_in segs e b.

Record seg_inv (h : header) segs : Prop := {
  si_core : seg_core h segs;
  si_free : free_rep h (λ _ _, False);
  si_bins : binned h segs;
}.

(** ** Blocks *)

Lemma laid_app o A B o' : laid o (A ++ B) o' ↔ ∃ m, laid o A m ∧ laid m B o'.
Proof.
  revert o. induction A as [|s A IH]; intros o; cbn [app laid]; [split; [intros; by exists o|by intros (m & -> & ?)]|]. rewrite IH. naive_solver.
Qed.

Lemma laid_le o segs o' : laid o segs o' → o ≤ o'.
Proof. revert o. induction segs as [|s segs IH]; intros o; cbn [laid]; [lia|]. intros (_ & ? & ?%IH). lia. Qed.

Lemma laid_in o segs o' s : laid o segs o' → s ∈ segs → o ≤ s_off s ∧ 0 < s_len s ∧ s_off s + s_len s ≤ o'.
Proof.
  revert o. induction segs as [|x segs IH]; intros o; cbn [laid]; [by intros _ ?%not_elem_of_nil|]. intros (<- & Hl & Hlaid) [->|Hin]%list.elem_of_cons.
  - apply laid_le in Hlaid. lia.
  - destruct (IH _ Hlaid Hin). lia.
Qed.

(** Different blocks do not overlap. *)
Lemma laid_disjoint o segs o' s s' : laid o segs o' → s ∈ segs → s' ∈ segs → s ≠ s' → s_off s + s_len s ≤ s_off s' ∨ s_off s' + s_len s' ≤ s_off s.
Proof.
  revert o. induction segs as [|x segs IH]; intros o; cbn [laid]; [by intros _ ?%not_elem_of_nil|]. intros (<- & Hl & Hlaid).
  intros [->|Hin]%list.elem_of_cons [->|Hin']%list.elem_of_cons Hne; [done| | |by eapply IH].
  - left. by destruct (laid_in _ _ _ _ Hlaid Hin').
  - right. by destruct (laid_in _ _ _ _ Hlaid Hin).
Qed.

Lemma laid_middle o A s B o' : laid o (A ++ s :: B) o' ↔ laid o A (s_off s) ∧ 0 < s_len s ∧ laid (s_off s + s_len s) B o'.
Proof.
  rewrite laid_app. cbn [laid]. split; [by intros (m & H1 & <- & H2 & H3)|]. intros (H1 & H2 & H3). exists (s_off s). done.
Qed.

Lemma idxs_app A B : idxs (A ++ B) = idxs A ++ idxs B.
Proof. apply fmap_app. Qed.

Lemma idxs_middle A s B : idxs (A ++ s :: B) = idxs A ++ s_idx s :: idxs B.
Proof. by rewrite idxs_app. Qed.

Lemma idxs_in segs s : s ∈ segs → s_idx s ∈ idxs segs.
Proof. apply list_elem_of_fmap_2. Qed.

Lemma idx_inj segs s s' : NoDup (idxs segs) → s ∈ segs → s' ∈ segs → s_idx s = s_idx s' → s = s'.
Proof.
  induction segs as [|x segs IH]; intros Hnd; [by intros ?%not_elem_of_nil|]. cbn in Hnd. apply NoDup_cons in Hnd as [Hno Hnd].
  intros [->|Hin]%list.elem_of_cons [->|Hin']%list.elem_of_cons Heq; [done| | |by apply IH].
  - destruct Hno. rewrite Heq. by apply idxs_in.
  - destruct Hno. rewrite <- Heq. by apply idxs_in.
Qed.

(** The word is the first one of a free block. *)
Definition first_word segs (o : Z) : Prop := ∃ s, s ∈ segs ∧ s_free s = true ∧ s_off s = o.

Lemma used_not_first o0 segs o' s o : laid o0 segs o' → s ∈ segs → s_free s = false → s_off s ≤ o < s_off s + s_len s → ¬ first_word segs o.
Proof.
  intros Hl Hs Hu Ho (f & Hf & Hfree & Heq). destruct (laid_in _ _ _ _ Hl Hf). destruct (laid_disjoint _ _ _ s f Hl Hs Hf ltac:(congruence)); lia.
Qed.

(** ** The elements of the blocks *)

Section inv.
Context (h : header) (segs : list seg) (Hinv : seg_core h segs).

Lemma block_range s : s ∈ segs → 0 ≤ s_idx s < zlen (elts h) ∧ 0 ≤ s_off s ∧ 0 < s_len s ∧ s_off s + s_len s ≤ zlen (vec h) ∧ zlen (vec h) < 2 ^ 31.
Proof using Hinv.
  intros Hs. destruct (laid_in _ _ _ _ (sc_laid _ _ Hinv) Hs). pose proof (sc_small _ _ Hinv). split_and!; try lia;
    by apply (chain_range _ None _ None _ (lr_chain _ _ (sc_list _ _ Hinv)) (idxs_in _ _ Hs)).
Qed.

Lemma seg_elt s : s ∈ segs → elt_at h (s_idx s) = Some (velt elt_0 (elts h) (s_idx s)) ∧ heap_is_free (velt elt_0 (elts h) (s_idx s)) = s_free s ∧ hoff h (s_idx s) = s_off s.
Proof using Hinv.
  intros Hs. destruct (block_range _ Hs) as (Hi & Ho & Hl & Hv & Hsmall). pose proof (sc_off _ _ Hinv _ Hs) as Hoff. unfold s_word in Hoff. destruct (s_free s).
  - destruct (free_elt_bits h (s_idx s)) as (? & ? & E & _); [|split_and!; [done..|lia] ].
    assert (hoff h (s_idx s) = s_off s) as E. { unfold hoff. rewrite heap_offset_mod. unfold off in Hoff. rewrite Hoff. symmetry. apply Z.mod_unique with 1; lia. }
    unfold free_elt. rewrite Hoff, E. lia.
  - destruct (used_elt_bits h (s_idx s)) as (? & ? & E); [done|lia|]. split_and!; [done..|lia].
Qed.

Lemma seg_free_elt s : s ∈ segs → s_free s = true → free_elt h (s_idx s).
Proof using Hinv.
  intros Hs Hf. destruct (block_range _ Hs) as (Hi & Ho & Hl & Hv & Hsmall). destruct (seg_elt _ Hs) as (_ & _ & E). pose proof (sc_off _ _ Hinv _ Hs) as Hoff.
  unfold s_word in Hoff. rewrite Hf in Hoff. unfold free_elt. rewrite E, Hoff. lia.
Qed.
End inv.

(** ** Sizes *)

Lemma heap_elt_size_ok h l1 e l2 : list_rep h (l1 ++ e :: l2) →
  heap_elt_size h e = Some ((match l2 with [] => zlen (vec h) | n :: _ => hoff h n end) - hoff h e).
Proof.
  intros Hrep. destruct (list_rep_middle _ _ _ _ Hrep) as (He & _ & Hnext & _ & Hno). unfold heap_elt_size. rewrite elt_at_ok by done. unfold heap_next in Hnext.
  rewrite elt_at_ok in Hnext by done. cbn [mbind option_bind] in Hnext |- *. injection Hnext as ->. destruct l2 as [|n l2]; cbn [default from_option hd_error id].
  - by rewrite Z.eqb_refl.
  - destruct (list_rep_middle h (l1 ++ [e]) n l2) as (Hn & _); [by rewrite <- app_assoc|]. rewrite (proj2 (Z.eqb_neq n e)) by (intros ->; apply Hno; by left).
    cbn [negb]. by rewrite elt_at_ok.
Qed.

Lemma seg_size h A s B : seg_core h (A ++ s :: B) → heap_elt_size h (s_idx s) = Some (s_len s).
Proof.
  intros Hinv. pose proof (sc_list _ _ Hinv) as Hrep. rewrite idxs_middle in Hrep. rewrite (heap_elt_size_ok _ _ _ _ Hrep).
  assert (s ∈ A ++ s :: B) as Hs by (rewrite list.elem_of_app; right; by left). destruct (seg_elt _ _ Hinv _ Hs) as (_ & _ & ->).
  pose proof (sc_laid _ _ Hinv) as Hl. apply laid_middle in Hl as (_ & _ & Hl). f_equal. destruct B as [|n B]; cbn [idxs fmap list_fmap laid] in *; [lia|].
  assert (n ∈ A ++ s :: n :: B) as Hn by (rewrite list.elem_of_app; right; right; by left). destruct (seg_elt _ _ Hinv _ Hn) as (_ & _ & ->). lia.
Qed.

(** ** Bins *)

Lemma max_log2_up n : 0 < n < 2 ^ 31 → ClibBitmap.max_log2 n = Z.log2_up n.
Proof.
  intros Hn. unfold ClibBitmap.max_log2, ClibBitmap.min_log2, ClibBitmap.count_leading_zeros, ClibBitmap.BITS.
  replace (64 - (63 - Z.log2 n) - 1) with (Z.log2 n) by lia. pose proof (Z.log2_nonneg n). pose proof (Z.log2_spec n ltac:(lia)) as [Hlo Hhi].
  rewrite Z.shiftl_1_l, u64_small by (unfold_ranges; lia). case_cond.
  - symmetry. apply Z.log2_up_unique; [lia|]. rewrite Z.pred_succ || replace (Z.pred (Z.log2 n + 1)) with (Z.log2 n) by lia. unfold Z.succ in Hhi. lia.
  - apply Z.log2_log2_up_exact; [lia|]. exists (Z.log2 n). lia.
Qed.

(** The bin of a large block is the logarithm of its size, rounded up. *)
Lemma size_to_bin_large n : 32 < n < 2 ^ 31 → size_to_bin n = 26 + Z.log2_up n ∧ 6 ≤ Z.log2_up n ≤ 31.
Proof.
  intros Hn. assert (6 ≤ Z.log2_up n ≤ 31) as Hl. { split; [change 6 with (Z.log2_up 33)|change 31 with (Z.log2_up (2 ^ 31))]; apply Z.log2_up_le_mono; lia. }
  split; [|done]. unfold size_to_bin, HEAP_SMALL_BINS, HEAP_LOG2_SMALL_BINS, HEAP_N_BINS. rewrite max_log2_up by lia. cbn zeta. repeat case_cond; lia.
Qed.

Lemma size_to_bin_small n : 0 < n ≤ 32 → size_to_bin n = n - 1.
Proof. intros Hn. unfold size_to_bin, HEAP_SMALL_BINS. case_cond; lia. Qed.

Lemma size_to_bin_range n : 0 < n < 2 ^ 31 → 0 ≤ size_to_bin n < HEAP_N_BINS.
Proof.
  intros Hn. unfold HEAP_N_BINS. destruct (decide (n ≤ 32)); [rewrite size_to_bin_small; lia|]. pose proof (size_to_bin_large n). lia.
Qed.

Lemma size_to_bin_mono m n : 0 < m ≤ n → n < 2 ^ 31 → size_to_bin m ≤ size_to_bin n.
Proof.
  intros Hm Hn. destruct (decide (n ≤ 32)); [rewrite !size_to_bin_small by lia; lia|]. destruct (size_to_bin_large n) as [-> ?]; [lia|].
  destruct (decide (m ≤ 32)); [rewrite size_to_bin_small by lia; lia|]. destruct (size_to_bin_large m) as [-> ?]; [lia|]. pose proof (Z.log2_up_le_mono m n). lia.
Qed.

(** Every block in the bin of the size or in a later one is large enough. *)
Definition fits (n : Z) : Prop := ∀ m, 0 < m < 2 ^ 31 → size_to_bin n ≤ size_to_bin m → n ≤ m.

Lemma fits_small n : 0 < n ≤ 32 → fits n.
Proof. intros Hn m Hm. rewrite (size_to_bin_small n) by done. destruct (decide (m ≤ 32)); [rewrite size_to_bin_small; lia|lia]. Qed.

(** Two blocks are not both in the bin of their sum. *)
Lemma bin_of_sum a b t : 0 < a → 0 < b → a + b ≤ t → t < 2 ^ 31 → size_to_bin a = size_to_bin t → size_to_bin b ≠ size_to_bin t.
Proof.
  intros Ha Hb Hab Ht Ea Eb. destruct (decide (t ≤ 32)); [rewrite !size_to_bin_small in Ea by lia; lia|]. destruct (size_to_bin_large t) as [Et Hlt]; [lia|]. rewrite Et in Ea, Eb.
  assert (∀ x, 0 < x ≤ t → size_to_bin x = 26 + Z.log2_up t → 2 ^ Z.pred (Z.log2_up t) < x) as Hlow.
  { intros x Hx Ex. destruct (decide (x ≤ 32)); [rewrite size_to_bin_small in Ex by lia; lia|]. destruct (size_to_bin_large x) as [Ex' _]; [lia|].
    assert (Z.log2_up x = Z.log2_up t) as <- by lia. apply Z.log2_up_spec. lia. }
  pose proof (Hlow a ltac:(lia) Ea). pose proof (Hlow b ltac:(lia) Eb). pose proof (Z.log2_up_spec t ltac:(lia)) as [_ Hup].
  replace (Z.log2_up t) with (Z.succ (Z.pred (Z.log2_up t))) in Hup by lia. rewrite Z.pow_succ_r in Hup by lia. lia.
Qed.

(** ** Changes of the list *)

Definition same_misc (h h' : header) : Prop := used_elt_bitmap h' = used_elt_bitmap h ∧ used_count h' = used_count h ∧ max_len h' = max_len h.

Lemma same_misc_trans h1 h2 h3 : same_misc h1 h2 → same_misc h2 h3 → same_misc h1 h3.
Proof. unfold same_misc. intros (? & ? & ?) (? & ? & ?). split_and!; congruence. Qed.

Lemma core_same_list h h' l : list_rep h l → same_elts h h' → list_rep h' l.
Proof. intros [Hc Hnd Hh Ht] [Ee _ _ Eh Et _ _ _]. constructor; by rewrite ?Ee, ?Eh, ?Et. Qed.

Lemma fresh_same_elts h h' l : fresh_rep h l → same_elts h h' → fresh_rep h' l.
Proof. intros [Hf1 Hf2] [Ee Ef _ _ _ _ _ _]. split; by rewrite ?Ef, ?Ee. Qed.

Lemma core_same_elts h h' segs : seg_core h segs → same_elts h h' → seg_core h' segs.
Proof.
  intros [Hl Hf Hlaid Hs Ho He] Hsame. constructor; [by apply (core_same_list h)|by apply (fresh_same_elts h)| | | |];
    destruct Hsame as [Ee Ef _ Eh Et _ _ El]; by rewrite ?Ee, ?Ef, ?Eh, ?Et, ?El.
Qed.

Lemma core_replace h h' A C C' B : seg_core h (A ++ C ++ B) → list_rep h' (idxs (A ++ C' ++ B)) → fresh_rep h' (idxs (A ++ C' ++ B)) →
  laid 0 (A ++ C' ++ B) (zlen (vec h')) → zlen (vec h') < 2 ^ 31 → (∀ s, s ∈ A ∨ s ∈ B → off (elts h') (s_idx s) = off (elts h) (s_idx s)) →
  (∀ s, s ∈ C' → off (elts h') (s_idx s) = s_word s) → A ++ C' ++ B ≠ [] → seg_core h' (A ++ C' ++ B).
Proof.
  intros Hcore Hl Hf Hlaid Hs Ho Ho' Hne. constructor; try done. intros s. rewrite !list.elem_of_app. intros [Hin|[Hin|Hin] ]; [|by apply Ho'|].
  - rewrite Ho by tauto. apply (sc_off _ _ Hcore). rewrite !list.elem_of_app. tauto.
  - rewrite Ho by tauto. apply (sc_off _ _ Hcore). rewrite !list.elem_of_app. tauto.
Qed.

Lemma free_in_app A B e b : free_in (A ++ B) e b ↔ free_in A e b ∨ free_in B e b.
Proof. unfold free_in. setoid_rewrite list.elem_of_app. naive_solver. Qed.

Lemma free_in_cons s B e b : free_in (s :: B) e b ↔ (s_free s = true ∧ s_idx s = e ∧ size_to_bin (s_len s) = b) ∨ free_in B e b.
Proof. unfold free_in. setoid_rewrite list.elem_of_cons. naive_solver. Qed.

Lemma free_in_nil e b : free_in [] e b ↔ False.
Proof. split; [|done]. intros (x & Hx & _). by apply not_elem_of_nil in Hx. Qed.

Lemma free_in_one s e b : free_in [s] e b ↔ s_free s = true ∧ s_idx s = e ∧ size_to_bin (s_len s) = b.
Proof. rewrite free_in_cons, free_in_nil. tauto. Qed.

Lemma free_in_idx segs e b : free_in segs e b → e ∈ idxs segs.
Proof. intros (s & Hs & _ & <- & _). by apply idxs_in. Qed.

Lemma binned_replace h h' A C C' B : binned h (A ++ C ++ B) → NoDup (idxs (A ++ C ++ B)) →
  (∀ e b, in_bin h' e b ↔ (in_bin h e b ∧ ¬ free_in C e b) ∨ free_in C' e b) → binned h' (A ++ C' ++ B).
Proof.
  intros Hb Hnd Hin e b. rewrite Hin, (Hb e b), !free_in_app. rewrite !idxs_app, !NoDup_app in Hnd. destruct Hnd as (_ & Hd1 & _ & Hd2 & _).
  assert (free_in A e b → ¬ free_in C e b) as H1. { intros Ha%free_in_idx Hc%free_in_idx. apply (Hd1 _ Ha). rewrite list.elem_of_app. tauto. }
  assert (free_in B e b → ¬ free_in C e b) as H2. { intros Ha%free_in_idx Hc%free_in_idx. by apply (Hd2 _ Hc). }
  tauto.
Qed.

(** The bitmap and the number of used elements are not part of the blocks. *)
Lemma set_used_inv h b n segs : seg_inv h segs → seg_inv (set_used b n h) segs.
Proof.
  intros [ [ [Hc Hnd Hh Ht] Hf Hl Hs Ho He] [Hw Hd] Hb]. constructor; [constructor; try done; by constructor|by constructor|done].
Qed.

(** Used blocks for used ones. *)
Lemma seg_inv_used h h' A C C' B : seg_inv h (A ++ C ++ B) → (∀ s, s ∈ C → s_free s = false) → (∀ s, s ∈ C' → s_free s = false) → seg_core h' (A ++ C' ++ B) →
  free_lists h' = free_lists h → zlen (vec h) ≤ zlen (vec h') → (∀ s, s ∈ A ∨ s ∈ B → off (elts h') (s_idx s) = off (elts h) (s_idx s)) →
  (∀ o, 0 ≤ o < zlen (vec h) → velt 0 (vec h') o = velt 0 (vec h) o) → seg_inv h' (A ++ C' ++ B).
Proof.
  intros [Hcore Hfree Hbins] HC HC' Hcore' Hl Hv Hoff Hw. assert (∀ e b, ¬ free_in C e b ∧ ¬ free_in C' e b) as Hno.
  { intros e b. split; intros (s & Hs & Hf & _); [rewrite HC in Hf|rewrite HC' in Hf]; done. }
  assert (∀ e b, in_bin h' e b ↔ in_bin h e b) as Hin by (intros; unfold in_bin, entry; by rewrite Hl).
  constructor; [done| |].
  - apply (free_rep_frame h); [done..|]. intros b i e E _. destruct (proj1 (Hbins e b) (ex_intro _ i E)) as (s & Hs & Hf & <- & _).
    assert (s ∈ A ∨ s ∈ B) as HAB by (rewrite !list.elem_of_app in Hs; destruct Hs as [?|[Hs|?] ]; [tauto|by rewrite HC in Hf|tauto]).
    destruct (block_range _ _ Hcore _ Hs) as (_ & ? & ? & ? & _). destruct (seg_elt _ _ Hcore _ Hs) as (_ & _ & ->). split_and!; [|by apply Hoff|apply Hw; lia].
    apply (block_range _ _ Hcore'). rewrite !list.elem_of_app. tauto.
  - apply (binned_replace h h' A C C' B); [done|apply (lr_nodup _ _ (sc_list _ _ Hcore))|]. intros e b. rewrite Hin. destruct (Hno e b). tauto.
Qed.

(** ** A block becomes free *)

Definition to_free s : seg := Seg (s_idx s) (s_off s) (s_len s) true.

Lemma free_seg_ok h A s B : seg_inv h (A ++ s :: B) → s_free s = false →
  ∃ h1 l h2, add_free_block h (size_to_bin (s_len s)) (s_idx s) = (h1, l) ∧ set_free_elt h1 (s_idx s) l = Some h2 ∧ seg_inv h2 (A ++ to_free s :: B) ∧
    same_misc h h2 ∧ zlen (vec h2) = zlen (vec h) ∧ ∀ o, o ≠ s_off s → velt 0 (vec h2) o = velt 0 (vec h) o.
Proof.
  intros [Hcore Hfree Hbins] Hu. assert (s ∈ A ++ s :: B) as Hs by (rewrite list.elem_of_app; right; by left).
  destruct (block_range _ _ Hcore _ Hs) as (Hi & Ho & Hlen & Hv & Hsmall). pose proof (sc_off _ _ Hcore _ Hs) as Hoff. unfold s_word in Hoff. rewrite Hu, Z.add_0_r in Hoff.
  set (b := size_to_bin (s_len s)). pose proof (size_to_bin_range (s_len s) ltac:(lia)) as Hb. fold b in Hb.
  destruct (add_free_block_ok h _ b (s_idx s) ltac:(lia) Hfree) as (h1 & E1 & Hsame & Hv1 & Hent & Hbin1 & Hrep1). set (n := zlen (velt [] (free_lists h) b)) in *.
  pose proof (core_same_elts _ _ _ Hcore Hsame) as Hcore1. rewrite <- (se_elts _ _ Hsame) in Hoff. rewrite <- (se_elts _ _ Hsame) in Hi.
  destruct (set_free_elt_first h1 (s_idx s) n) as (es & E2 & Hl2 & Ho2 & Hrep2); [done|lia|rewrite Hv1; lia|]. rewrite Hoff in E2, Ho2.
  set (h2 := set_vec _ _) in E2. exists h1, n, h2.
  assert (same_misc h h2 ∧ zlen (vec h2) = zlen (vec h) ∧ ∀ o, o ≠ s_off s → velt 0 (vec h2) o = velt 0 (vec h) o) as (Hm & Hz & Hw).
  { cbn [h2 vec set_vec set_elts]. rewrite Hv1, zlen_vset. split_and!; [|done|intros; by apply velt_vset_ne]. destruct Hsame. by split_and!. }
  assert (∀ b' i' e', entry h b' i' = Some e' → free_elt h e' ∧ off es e' = off (elts h) e' ∧ hoff h e' ≠ s_off s) as Hother.
  { intros b' i' e' E. destruct (proj1 (Hbins e' b') (ex_intro _ i' E)) as (x & Hx & Hxf & <- & _). assert (x ≠ s) as Hxs by congruence. destruct (seg_elt _ _ Hcore _ Hx) as (_ & _ & ->).
    split; [by apply (seg_free_elt _ _ Hcore)|]. destruct (laid_disjoint _ _ _ x s (sc_laid _ _ Hcore) Hx Hs Hxs), (laid_in _ _ _ _ (sc_laid _ _ Hcore) Hx); (split; [|lia]);
      (rewrite Ho2, decide_False; [by rewrite (se_elts _ _ Hsame)|intros Heq; by apply Hxs, (idx_inj _ _ _ (lr_nodup _ _ (sc_list _ _ Hcore)))]). }
  assert (seg_core h2 (A ++ to_free s :: B)) as Hcore2.
  { pose proof (lr_nodup _ _ (sc_list _ _ Hcore)) as Hnd. rewrite idxs_middle in Hnd. apply NoDup_app in Hnd as (_ & Hd & Hnd). apply NoDup_cons in Hnd as [Hno _].
    apply (core_replace h1 h2 A [s] [to_free s] B); [done| | | |by rewrite Hz| | |by destruct A].
    - assert (idxs (A ++ [to_free s] ++ B) = idxs (A ++ s :: B)) as -> by (rewrite !idxs_app; done). destruct (Hrep2 _ (sc_list _ _ Hcore1)). by constructor.
    - assert (idxs (A ++ [to_free s] ++ B) = idxs (A ++ s :: B)) as -> by (rewrite !idxs_app; done). destruct (sc_fresh _ _ Hcore1) as [Hf1 Hf2]. split; [done|].
      intros i. cbn [h2 free_elts set_vec set_elts elts]. rewrite Hl2. apply Hf2.
    - rewrite Hz. pose proof (sc_laid _ _ Hcore) as Hl. apply laid_middle in Hl. by apply laid_middle.
    - intros x Hx. cbn [h2 elts set_vec set_elts]. rewrite Ho2, decide_False; [done|]. intros Heq. destruct Hx as [Hx|Hx].
      + apply (Hd _ (idxs_in _ _ Hx)). rewrite Heq. by left.
      + apply Hno. rewrite <- Heq. by apply idxs_in.
    - intros x ->%list_elem_of_singleton. cbn [h2 elts set_vec set_elts to_free s_idx]. by rewrite Ho2, decide_True. }
  split_and!; [done|done| |done..]. constructor; [done| |].
  - assert (free_elt h2 (s_idx s)) as Hf by (apply (seg_free_elt _ _ Hcore2 (to_free s)); [rewrite list.elem_of_app; right; by left|done]).
    assert (hoff h2 (s_idx s) = s_off s) as Hho by (apply (seg_elt _ _ Hcore2 (to_free s)); rewrite list.elem_of_app; right; by left).
    apply (free_rep_settle h2 _ b n (s_idx s)); [|change (entry h1 b n = Some (s_idx s)); by rewrite Hent, decide_True|done|rewrite Hho; apply velt_vset_eq; rewrite Hv1; lia|].
    + apply (free_rep_frame h1); [done|done|rewrite Hz, Hv1; lia|]. intros b' i' e' E Hx. rewrite Hent, decide_False in E by tauto. destruct (Hother _ _ _ E) as ([Hr _] & Hoe & Hne).
      cbn [h2 elts vec set_vec set_elts]. unfold hoff. rewrite (se_elts _ _ Hsame) in Hl2 |- *. split_and!; [lia|done|]. by apply velt_vset_ne.
    + intros b' i' e' E _ Hne. change (entry h1 b' i' = Some e') in E. rewrite Hent, decide_False in E by (intros [-> ->]; done). destruct (Hother _ _ _ E) as (_ & Hoe & Hne').
      rewrite Hho. rewrite hoff_off in Hne' |- *. cbn [h2 elts set_vec set_elts]. by rewrite Hoe.
  - intros e b'. change (in_bin h2 e b') with (in_bin h1 e b'). rewrite Hbin1, (Hbins e b'). split.
    + intros [[-> ->]|(x & Hx & Hxf & Hxe & Hxb)].
      * exists (to_free s). split_and!; [|done..]. rewrite list.elem_of_app. right. by left.
      * exists x. split_and!; [|done..]. rewrite list.elem_of_app, list.elem_of_cons in Hx |- *. destruct Hx as [?|[->|?] ]; [tauto|congruence|tauto].
    + intros (x & Hx & Hxf & Hxe). rewrite list.elem_of_app, list.elem_of_cons in Hx. destruct Hx as [Hx|[->|Hx] ].
      * right. exists x. rewrite list.elem_of_app. tauto.
      * left. destruct Hxe as [<- <-]. by split.
      * right. exists x. rewrite list.elem_of_app, list.elem_of_cons. tauto.
Qed.
End HeapSegs.
