(* ===== verification/HeapTake.v ===== *)
(** * The heap of vppinfra: blocks from the free lists *)

From stdpp Require Import gmap.
From S2P Require Import Prelude Bitmap Heap HeapChain HeapBins HeapSegs.
Open Scope Z_scope.

Module HeapTake.
Import Heap HeapChain HeapBins HeapSegs.

(** ** New elements *)

(** The list [l'] has the new element [u] with offset [o] besides the elements of [l]. *)
Record placed (h h' : header) (l l' : list Z) (u o : Z) : Prop := {
  pl_frame : frame h h' l;
  pl_list : list_rep h' l';
  pl_fresh : fresh_rep h' l';
  pl_new : u ∉ l;
  pl_off : off (elts h') u = o;
}.

Lemma placed_off h h' l l' u o i : placed h h' l l' u o → list_rep h l → i ∈ l → off (elts h') i = off (elts h) i ∧ i ≠ u.
Proof.
  intros [[_ _ _ _ _ Ho] _ _ Hu _] Hl Hi. split; [|by intros ->]. apply Ho; [done|]. by apply (chain_range _ None _ None _ (lr_chain _ _ Hl)).
Qed.

(** The offset of the new element, before or after it is inserted. *)
Lemma placed_upd h h1 h2 l l' u o : frame h h1 l → u ∉ l → 0 ≤ u < zlen (elts h1) → list_rep h l → list_rep h1 l' → fresh_rep h1 l' → upd u (set_offset o) h1 = Some h2 →
  frame h h2 l ∧ list_rep h2 l' ∧ fresh_rep h2 l' ∧ off (elts h2) u = o ∧ free_elts h2 = free_elts h1 ∧ zlen (elts h2) = zlen (elts h1) ∧ head h2 = head h1 ∧ tail h2 = tail h1.
Proof.
  intros [? ? ? ? ? Hfo] Hu Hr Hl Hl' [Hf1 Hf2] E. destruct (upd_offset_ok h1 u o Hr) as (es & E' & Hes & Hoff & Hrep). rewrite E in E'. injection E' as ->.
  split_and!; try done.
  - constructor; try done. cbn [elts set_elts]. intros i Hi Hir. destruct (Hfo i Hi Hir) as [H1 H2]. rewrite Hoff, decide_False by (intros ->; done). split; [lia|done].
  - by apply Hrep.
  - split; [done|]. intros i Hi. cbn [elts set_elts]. rewrite Hes. by apply Hf2.
  - cbn [elts set_elts]. by rewrite Hoff, decide_True.
Qed.

Section place.
Context (h : header) (l1 : list Z) (e : Z) (l2 : list Z) (o : Z).
Context (Hl : list_rep h (l1 ++ e :: l2)) (Hf : fresh_rep h (l1 ++ e :: l2)).

Lemma fresh_insert h1 h2 l' u : same_but_elts h1 h2 → fresh_rep h1 (l1 ++ e :: l2) → u ∉ free_elts h1 → l' ≡ₚ u :: l1 ++ e :: l2 → fresh_rep h2 l'.
Proof using. intros Hsame Hfr Hu Hp. apply (fresh_same _ _ _ _ u Hsame Hfr Hu). intros i. rewrite Hp. apply list.elem_of_cons. Qed.

Lemma new_after_ok : ∃ h1 u h2 h3, elt_new h = Some (h1, u) ∧ elt_insert_after h1 e u = Some h2 ∧ upd u (set_offset o) h2 = Some h3 ∧
  placed h h3 (l1 ++ e :: l2) (l1 ++ e :: u :: l2) u o ∧ elt_at h2 e = Some (velt elt_0 (elts h2) e) ∧ off (elts h2) e = off (elts h) e.
Proof using All.
  destruct (elt_new_ok h _ Hl Hf) as (h1 & u & E1 & Hfr & Hl1 & Hf1 & Hu & Hr & Huf & _). destruct (elt_insert_after_ok h1 l1 e l2 u Hl1 Hu Hr) as (h2 & E2 & Hsame & Hl2).
  assert (0 ≤ u < zlen (elts h2)) as Hr2 by (by destruct Hsame as (_ & _ & _ & _ & _ & _ & -> & _)). destruct (upd_offset_ok h2 u o Hr2) as (es & E3 & _).
  assert (fresh_rep h2 (l1 ++ e :: u :: l2)) as Hf2. { apply (fresh_insert h1 h2 _ u); try done. change (e :: u :: l2) with ([e] ++ u :: l2). by rewrite app_assoc, <- Permutation_middle, <- app_assoc. }
  destruct (placed_upd h h2 _ (l1 ++ e :: l2) (l1 ++ e :: u :: l2) u o (frame_trans _ _ _ _ Hfr (frame_same _ _ _ Hsame)) Hu Hr2 Hl Hl2 Hf2 E3) as (? & ? & ? & ? & _).
  assert (e < zlen (elts h2) ∧ off (elts h2) e = off (elts h) e) as [He Ho].
  { apply (fr_off _ _ _ (frame_trans _ _ _ _ Hfr (frame_same _ _ _ Hsame))); [rewrite list.elem_of_app; right; by left|]. by destruct (list_rep_middle _ _ _ _ Hl). }
  exists h1, u, h2. eexists. split_and!; [done..|by constructor| |done]. apply elt_at_ok. destruct (list_rep_middle _ _ _ _ Hl2). lia.
Qed.

Lemma place_after_ok : ∃ h1 u h2 h3, elt_new h = Some (h1, u) ∧ upd u (set_offset o) h1 = Some h2 ∧ elt_insert_after h2 e u = Some h3 ∧
  placed h h3 (l1 ++ e :: l2) (l1 ++ e :: u :: l2) u o ∧ tail h2 = tail h.
Proof using All.
  destruct (elt_new_ok h _ Hl Hf) as (h1 & u & E1 & Hfr & Hl1 & Hf1 & Hu & Hr & Huf & _ & _ & Htl1). destruct (upd_offset_ok h1 u o Hr) as (es & E2 & _).
  destruct (placed_upd h h1 _ (l1 ++ e :: l2) (l1 ++ e :: l2) u o Hfr Hu Hr Hl Hl1 Hf1 E2) as (Hfr2 & Hl2 & Hf2 & Ho2 & Hfe & Hz & _ & Htl2).
  rewrite <- Hz in Hr. rewrite <- Hfe in Huf. destruct (elt_insert_after_ok _ l1 e l2 u Hl2 Hu Hr) as (h3 & E3 & Hsame & Hl3).
  exists h1, u. do 2 eexists. split_and!; [done..| |by rewrite Htl2]. constructor; [by eapply frame_trans, frame_same| | |done|].
  - done.
  - apply (fresh_insert _ h3 _ u Hsame); try done. change (e :: u :: l2) with ([e] ++ u :: l2). by rewrite app_assoc, <- Permutation_middle, <- app_assoc.
  - destruct Hsame as (_ & _ & _ & _ & _ & _ & _ & ->). done.
Qed.

Lemma place_before_ok : ∃ h1 u h2 h3, elt_new h = Some (h1, u) ∧ upd u (set_offset o) h1 = Some h2 ∧ elt_insert_before h2 e u = Some h3 ∧
  placed h h3 (l1 ++ e :: l2) (l1 ++ u :: e :: l2) u o.
Proof using All.
  destruct (elt_new_ok h _ Hl Hf) as (h1 & u & E1 & Hfr & Hl1 & Hf1 & Hu & Hr & Huf & _). destruct (upd_offset_ok h1 u o Hr) as (es & E2 & _).
  destruct (placed_upd h h1 _ (l1 ++ e :: l2) (l1 ++ e :: l2) u o Hfr Hu Hr Hl Hl1 Hf1 E2) as (Hfr2 & Hl2 & Hf2 & Ho2 & Hfe & Hz & _).
  rewrite <- Hz in Hr. rewrite <- Hfe in Huf. destruct (elt_insert_before_ok _ l1 e l2 u Hl2 Hu Hr) as (h3 & E3 & Hsame & Hl3).
  exists h1, u. do 2 eexists. split_and!; [done..|]. constructor; [by eapply frame_trans, frame_same|done| |done|].
  - apply (fresh_insert _ h3 _ u Hsame); try done. by rewrite <- Permutation_middle.
  - destruct Hsame as (_ & _ & _ & _ & _ & _ & _ & ->). done.
Qed.
End place.

(** ** A block of a free one *)

Section take.
Context (h : header) (A : list seg) (f : seg) (B : list seg) (l n : Z).
Context (Hinv : seg_inv h (A ++ f :: B)) (Hf : s_free f = true) (Hl : entry h (size_to_bin (s_len f)) l = Some (s_idx f)) (Hn : 0 < n ≤ s_len f).

Abbreviation b := (size_to_bin (s_len f)).
Abbreviation s := (s_len f - n).

(** The blocks for the free one. *)
Definition taken (u : Z) : list seg := (if s =? 0 then [] else [Seg (s_idx f) (s_off f) s true]) ++ [Seg u (s_off f + s) n false].

Lemma f_in : f ∈ A ++ f :: B.
Proof. rewrite list.elem_of_app. right. by left. Qed.

Lemma f_one b' i' : entry h b' i' = Some (s_idx f) → b' = b ∧ i' = l.
Proof using All. intros E. apply (fr_distinct _ _ (si_free _ _ Hinv) _ _ _ _ _ _ E Hl); tauto. Qed.

Lemma other_entry b' i' e' : entry h b' i' = Some e' → (b', i') ≠ (b, l) → ∃ x, x ∈ A ++ f :: B ∧ x ≠ f ∧ s_free x = true ∧ s_idx x = e' ∧ e' ≠ s_idx f ∧ hoff h e' = s_off x ∧ s_off x ≠ s_off f.
Proof using All.
  intros E Hne. destruct (proj1 (si_bins _ _ Hinv e' b') (ex_intro _ i' E)) as (x & Hx & Hxf & <- & _).
  assert (s_idx x ≠ s_idx f) as Hi. { intros Heq. rewrite Heq in E. apply f_one in E as [-> ->]. done. }
  assert (x ≠ f) as Hxne by congruence. exists x. split_and!; try done; [by apply (seg_elt _ _ (si_core _ _ Hinv))|].
  pose proof (sc_laid _ _ (si_core _ _ Hinv)) as Hlaid. destruct (laid_disjoint _ _ _ x f Hlaid Hx f_in Hxne), (laid_in _ _ _ _ Hlaid Hx), (laid_in _ _ _ _ Hlaid f_in); lia.
Qed.

Lemma take_whole : s = 0 → ∃ h', take_from h b l (s_idx f) s = Some (h', s_idx f) ∧ seg_inv h' (A ++ taken (s_idx f) ++ B) ∧
  same_misc h h' ∧ zlen (vec h') = zlen (vec h) ∧ ∀ o, ¬ first_word (A ++ f :: B) o → velt 0 (vec h') o = velt 0 (vec h) o.
Proof using All.
  intros Hs. destruct Hinv as [Hcore Hfree Hbins]. destruct (block_range _ _ Hcore _ f_in) as (Hi & Ho & Hlen & Hv & Hsmall). destruct (seg_elt _ _ Hcore _ f_in) as (He & Hef & Heo).
  unfold take_from. rewrite He. cbn [mbind option_bind]. rewrite Hef, Hf. cbn [negb]. rewrite (proj2 (Z.eqb_eq s 0) Hs). cbn [mbind option_bind]. rewrite He. cbn [mbind option_bind].
  unfold hoff in Heo. rewrite Heo, u32_small by (unfold_ranges; lia).
  destruct (upd_offset_ok h (s_idx f) (s_off f + s) Hi) as (es & -> & Hel & Heoff & Herep). cbn [mbind option_bind].
  pose proof (size_to_bin_range (s_len f) ltac:(lia)) as Hb. rewrite (proj2 (Z.eqb_neq HEAP_N_BINS b)) by lia. cbn [negb].
  rewrite Z.ltb_irrefl. cbn [mbind option_bind]. set (h1 := set_elts es h).
  assert (free_rep h1 (λ b' i', b' = b ∧ i' = l)) as Hrep1.
  { apply (free_rep_frame h); [by eapply free_rep_weaken|done|done|]. intros b' i' e' E Hx. destruct (other_entry _ _ _ E) as (x & Hx' & _ & _ & <- & Hne & _); [intros [=]; tauto|].
    cbn [h1 elts set_elts vec]. rewrite Heoff, decide_False by done. destruct (block_range _ _ Hcore _ Hx'). split_and!; [lia|done|done]. }
  destruct (remove_free_block_ok h1 _ b l (s_idx f) Hrep1 Hl) as (h2 & -> & Hsame & Hrem & Hrep2 & Hw); [tauto|by intros i' [_ ->]%f_one|].
  cbn [mbind option_bind]. exists h2. split; [done|].
  assert (taken (s_idx f) = [Seg (s_idx f) (s_off f + s) n false]) as Et by (unfold taken; by rewrite (proj2 (Z.eqb_eq s 0) Hs)). rewrite Et.
  assert (idxs (A ++ [Seg (s_idx f) (s_off f + s) n false] ++ B) = idxs (A ++ f :: B)) as Ei by (by rewrite !idxs_app).
  assert (seg_core h1 (A ++ [Seg (s_idx f) (s_off f + s) n false] ++ B)) as Hcore1.
  { pose proof (lr_nodup _ _ (sc_list _ _ Hcore)) as Hnd. rewrite idxs_middle in Hnd. apply NoDup_app in Hnd as (_ & Hd & Hnd). apply NoDup_cons in Hnd as [Hno _].
    apply (core_replace h h1 A [f] _ B); [done|by rewrite Ei; apply Herep, Hcore| | |done| | |by destruct A].
    - rewrite Ei. destruct (sc_fresh _ _ Hcore) as [Hf1 Hf2]. split; [done|]. intros i. cbn [h1 free_elts elts set_elts]. rewrite Hel. apply Hf2.
    - pose proof (sc_laid _ _ Hcore) as Hlaid. apply laid_middle in Hlaid. apply laid_middle. cbn [s_off s_len]. by replace (s_off f + s) with (s_off f) by lia; replace n with (s_len f) by lia.
    - intros x Hx. cbn [h1 elts set_elts]. rewrite Heoff, decide_False; [done|]. intros Heq. destruct Hx as [Hx|Hx].
      + apply (Hd _ (idxs_in _ _ Hx)). rewrite Heq. by left.
      + apply Hno. rewrite <- Heq. by apply idxs_in.
    - intros x ->%list_elem_of_singleton. cbn [h1 elts set_elts s_idx]. rewrite Heoff, decide_True by done. unfold s_word. cbn. lia. }
  split_and!.
  - constructor; [by apply (core_same_elts h1)|by eapply free_rep_weaken; [done|]; cbn; tauto|].
    apply (binned_replace h h2 A [f] _ B); [done|apply (lr_nodup _ _ (sc_list _ _ Hcore))|]. intros e' b'.
    rewrite (removed_in_bin h1 b l (s_idx f) Hl ltac:(by intros i' [_ ->]%f_one) h2 e' b' Hrem). change (in_bin h1 e' b') with (in_bin h e' b').
    rewrite !free_in_one. cbn [s_free]. split; [intros [? ?]; left; split; [done|]; intros (_ & <- & <-); tauto|]. intros [ [? Hno]|(? & _)]; [|done]. split; [done|].
    intros [-> ->]. by apply Hno.
  - by destruct Hsame.
  - by rewrite (se_len _ _ Hsame).
  - intros o Ho'. change (vec h) with (vec h1). apply Hw. intros e' [i' E] Hne Heq. destruct (other_entry b i' e' E) as (x & Hx & _ & Hxf & <- & Hne' & Hxo & _); [intros [= Hil]; apply Hne; change (entry h b i' = Some e') in E; rewrite Hil, Hl in E; congruence|].
    apply Ho'. exists x. split_and!; [done..|]. rewrite <- Heq. rewrite <- Hxo. rewrite !hoff_off. cbn [h1 elts set_elts]. by rewrite Heoff, decide_False.
Qed.

Lemma take_part : 0 < s → ∃ h' u, take_from h b l (s_idx f) s = Some (h', u) ∧ seg_inv h' (A ++ taken u ++ B) ∧
  same_misc h h' ∧ zlen (vec h') = zlen (vec h) ∧ ∀ o, ¬ first_word (A ++ f :: B) o → velt 0 (vec h') o = velt 0 (vec h) o.
Proof using All.
  intros Hs. destruct Hinv as [Hcore Hfree Hbins]. destruct (block_range _ _ Hcore _ f_in) as (Hi & Ho & Hlen & Hv & Hsmall). destruct (seg_elt _ _ Hcore _ f_in) as (He & Hef & Heo).
  pose proof (sc_list _ _ Hcore) as Hlist. rewrite idxs_middle in Hlist. pose proof (sc_fresh _ _ Hcore) as Hfresh. rewrite idxs_middle in Hfresh.
  destruct (new_after_ok h _ _ _ (s_off f + s) Hlist Hfresh) as (h1 & u & h2 & h3 & E1 & E2 & E3 & Hpl & E4 & Hof).
  unfold take_from. rewrite He. cbn [mbind option_bind]. rewrite Hef, Hf. cbn [negb]. rewrite (proj2 (Z.eqb_neq s 0)) by lia.
  rewrite E1. cbn [mbind option_bind fst snd]. rewrite E2. cbn [mbind option_bind]. rewrite E4. cbn [mbind option_bind].
  assert (heap_offset (velt elt_0 (elts h2) (s_idx f)) = s_off f) as ->. { fold (hoff h2 (s_idx f)). rewrite hoff_off, Hof, <- hoff_off. done. }
  rewrite u32_small by (unfold_ranges; lia). rewrite E3. cbn [mbind option_bind].
  set (C := [Seg (s_idx f) (s_off f) s true; Seg u (s_off f + s) n false]).
  assert (taken u = C) as Et by (unfold taken; by rewrite (proj2 (Z.eqb_neq s 0)) by lia).
  destruct Hpl as [Hfr3 Hl3 Hf3 Hu3 Ho3]. pose proof Hfr3 as [Hv3 Hli3 Hus3 Hco3 Hma3 Hoff3].
  assert (∀ x, x ∈ A ++ f :: B → s_idx x < zlen (elts h3) ∧ off (elts h3) (s_idx x) = off (elts h) (s_idx x)) as Hkeep.
  { intros x Hx. destruct (block_range _ _ Hcore _ Hx). apply Hoff3; [|done]. rewrite <- idxs_middle. by apply idxs_in. }
  assert (seg_core h3 (A ++ C ++ B)) as Hcore3.
  { apply (core_replace h h3 A [f] C B); [done|by rewrite !idxs_app in *|by rewrite !idxs_app in *| |by rewrite Hv3| | |by destruct A].
    - rewrite Hv3. pose proof (sc_laid _ _ Hcore) as Hlaid. apply laid_middle in Hlaid as (? & ? & Hlaid). unfold C. apply (laid_middle _ _ (Seg (s_idx f) (s_off f) s true)). cbn [s_off s_len app laid].
      split_and!; try done; try lia. by replace (s_off f + s + n) with (s_off f + s_len f) by lia.
    - intros x Hx. apply Hkeep. rewrite list.elem_of_app, list.elem_of_cons. tauto.
    - intros x [->| ->%list_elem_of_singleton]%list.elem_of_cons; cbn [s_idx]; unfold s_word; cbn [s_off s_free].
      + destruct (Hkeep f f_in) as [_ ->]. rewrite (sc_off _ _ Hcore _ f_in). unfold s_word. by rewrite Hf.
      + by rewrite Ho3, Z.add_0_r. }
  assert (∀ x, hoff h3 (s_idx x) = hoff h (s_idx x) ∨ x ∉ A ++ f :: B) as Hhoff.
  { intros x. destruct (decide (s_idx x ∈ idxs (A ++ f :: B))) as [Hx|Hx]; [|right; intros Hx'; by apply Hx, idxs_in]. left. rewrite !hoff_off. f_equal. apply Hoff3; [by rewrite <- idxs_middle|]. by apply (chain_range _ None _ None _ (lr_chain _ _ (sc_list _ _ Hcore))). }
  assert (free_rep h3 (λ _ _, False)) as Hfree3.
  { apply (free_rep_frame h); [done|done|by rewrite Hv3|]. intros b' i' e' E _. destruct (proj1 (Hbins e' b') (ex_intro _ i' E)) as (x & Hx & _ & <- & _). rewrite Hv3. destruct (Hkeep x Hx). done. }
  assert (∀ b' i', entry h3 b' i' = entry h b' i') as Hent3 by (intros; unfold entry; by rewrite Hli3).
  assert (∀ e' b', in_bin h3 e' b' ↔ in_bin h e' b') as Hin3 by (intros; unfold in_bin; by setoid_rewrite Hent3).
  assert (in_bin h (s_idx f) b) as Hfb by by exists l.
  set (fb := size_to_bin s). destruct (Z.eqb_spec fb b) as [Hfbb|Hfbb]; cbn [negb].
  - exists h3, u. rewrite Et. split_and!; [done| |done|by rewrite Hv3|by rewrite Hv3]. constructor; [done..|].
    apply (binned_replace h h3 A [f] C B); [done|apply (lr_nodup _ _ (sc_list _ _ Hcore))|]. intros e' b'. unfold C. rewrite Hin3, !free_in_cons, !free_in_nil. cbn [s_free s_idx s_len]. fold fb.
    rewrite Hfbb. split.
    + intros Hin. destruct (decide (s_idx f = e' ∧ b = b')); tauto.
    + intros [[? _]|[(_ & <- & <-)|[(? & _)|?] ] ]; done.
  - pose proof (size_to_bin_range s ltac:(lia)) as Hfbr. fold fb in Hfbr. rewrite (proj2 (Z.ltb_lt fb _)) by lia.
    destruct (add_free_block_ok h3 _ fb (s_idx f) ltac:(lia) Hfree3) as (h4 & E4' & Hsame4 & Hv4 & Hent4 & Hin4 & Hrep4). set (m := zlen (velt [] (free_lists h3) fb)) in *. rewrite E4'.
    assert (free_elt h4 (s_idx f)) as Hff4.
    { pose proof (core_same_elts _ _ _ Hcore3 Hsame4) as Hcore4. apply (seg_free_elt _ _ Hcore4 (Seg (s_idx f) (s_off f) s true)); [|done]. unfold C. rewrite !list.elem_of_app. right. left. by left. }
    assert (∀ j, hoff h4 j = hoff h3 j) as Hho4 by (intros; unfold hoff; by rewrite (se_elts _ _ Hsame4)).
    assert (hoff h3 (s_idx f) = s_off f) as Hof3. { destruct (Hhoff f) as [->|Hno]; [done|]. by destruct (Hno f_in). }
    rewrite (set_free_elt_again h4 _ m Hff4). rewrite Hho4, Hof3. cbn [mbind option_bind]. set (h5 := set_vec _ h4).
    assert (same_elts h4 h5) as Hsame5 by (constructor; try done; apply zlen_vset).
    assert (∀ b' i', entry h5 b' i' = if decide (b' = fb ∧ i' = m) then Some (s_idx f) else entry h b' i') as Hent5 by (intros; change (entry h5 b' i') with (entry h4 b' i'); by rewrite Hent4, Hent3).
    assert (free_rep h5 (λ b' i', b' = b ∧ i' = l)) as Hrep5.
    { apply (free_rep_settle h5 _ fb m (s_idx f)).
      + apply (free_rep_frame h4); [eapply free_rep_weaken; [done|]; cbn; tauto|done|by rewrite (se_len _ _ Hsame5)|]. intros b' i' e' E Hx. rewrite Hent4, Hent3 in E. rewrite decide_False in E by tauto.
        destruct (other_entry _ _ _ E) as (x & Hx' & _ & _ & <- & _ & Hxo & Hxne); [intros [=]; tauto|]. destruct (Hkeep x Hx') as [? _]. rewrite Hho4. destruct (Hhoff x) as [->|Hno]; [|done]. rewrite Hxo.
        cbn [h5 set_vec vec elts]. rewrite (se_elts _ _ Hsame4). split_and!; [done|done|]. by apply velt_vset_ne.
      + by rewrite Hent5, decide_True.
      + by apply (free_elt_same h4).
      + change (hoff h5) with (hoff h4). rewrite Hho4, Hof3. cbn [h5 vec set_vec]. apply velt_vset_eq. rewrite Hv4, Hv3. lia.
      + intros b' i' e' E Hx Hne. rewrite Hent5 in E. rewrite decide_False in E by (intros [-> ->]; done). change (hoff h5) with (hoff h4). rewrite !Hho4, Hof3.
        destruct (other_entry _ _ _ E) as (x & Hx' & _ & _ & <- & _ & Hxo & Hxne); [intros [=]; tauto|]. destruct (Hhoff x) as [->|]; [by rewrite Hxo|done]. }
    assert (entry h5 b l = Some (s_idx f)) as E5 by (rewrite Hent5, decide_False by (intros [? _]; congruence); done).
    assert (∀ i', entry h5 b i' = Some (s_idx f) → i' = l) as Hone5. { intros i' E. rewrite Hent5 in E. rewrite decide_False in E by (intros [? _]; congruence). by apply f_one in E as [_ ->]. }
    destruct (remove_free_block_ok h5 _ b l (s_idx f) Hrep5 E5) as (h6 & -> & Hsame6 & Hrem & Hrep6 & Hw6); [tauto|done|]. cbn [mbind option_bind]. exists h6, u. rewrite Et.
    assert (zlen (vec h6) = zlen (vec h)) as Hz by (by rewrite (se_len _ _ Hsame6), (se_len _ _ Hsame5), Hv4, Hv3).
    split_and!; [done| | |done|].
    + constructor; [|eapply free_rep_weaken; [done|]; cbn; tauto|].
      * apply (core_same_elts h5); [|done]. apply (core_same_elts h4); [|done]. by apply (core_same_elts h3).
      * apply (binned_replace h h6 A [f] C B); [done|apply (lr_nodup _ _ (sc_list _ _ Hcore))|]. intros e' b'. rewrite (removed_in_bin h5 b l _ E5 Hone5 h6 _ _ Hrem).
        change (in_bin h5 e' b') with (in_bin h4 e' b'). rewrite Hin4, Hin3. unfold C. rewrite !free_in_cons, !free_in_nil. cbn [s_free s_idx s_len]. fold fb. split.
        -- intros [ [[-> ->]|Hin] Hno]; [right; by left|]. left. split; [done|]. intros [(_ & <- & <-)|?]; [|done]. by apply Hno.
        -- intros [[Hin Hno]|[(_ & <- & <-)|[(? & _)|?] ] ]; try done; [split; [by right|]; intros [-> ->]; apply Hno; by left|]. split; [by left|]. intros [_ ?]. congruence.
    + destruct Hsame4, Hsame5, Hsame6. split_and!; congruence.
    + intros o Hno. assert (o ≠ s_off f) as Hof' by (intros ->; apply Hno; exists f; split_and!; [apply f_in|done..]). rewrite Hw6.
      * cbn [h5 vec set_vec]. rewrite velt_vset_ne by done. by rewrite Hv4, Hv3.
      * intros e' [i' E] Hne Heq. rewrite Hent5 in E. rewrite decide_False in E by (intros [? _]; congruence). destruct (other_entry _ _ _ E) as (x & Hx' & _ & Hxf & <- & _ & Hxo & _); [intros [= ->]; congruence|].
        apply Hno. exists x. split_and!; [done..|]. rewrite <- Hxo, <- Heq. change (hoff h5) with (hoff h4). rewrite Hho4. by destruct (Hhoff x).
Qed.

(** An element with all of the block or its end. *)
Lemma take_from_ok : ∃ h' u, take_from h b l (s_idx f) s = Some (h', u) ∧ seg_inv h' (A ++ taken u ++ B) ∧
  same_misc h h' ∧ zlen (vec h') = zlen (vec h) ∧ ∀ o, ¬ first_word (A ++ f :: B) o → velt 0 (vec h') o = velt 0 (vec h) o.
Proof using All. destruct (decide (s = 0)) as [Hs|Hs]; [destruct (take_whole Hs) as (h' & ?); by exists h', (s_idx f)|apply take_part; lia]. Qed.
End take.

(** ** The search *)

Section search.
Context (h : header) (segs : list seg) (n : Z) (Hinv : seg_inv h segs) (Hfits : fits n) (Hn : 0 < n < 2 ^ 31).

Lemma entry_seg b i e : entry h b i = Some e → ∃ A f B, segs = A ++ f :: B ∧ s_free f = true ∧ s_idx f = e ∧ size_to_bin (s_len f) = b ∧ 0 < s_len f < 2 ^ 31.
Proof using Hinv.
  intros E. destruct (proj1 (si_bins _ _ Hinv e b) (ex_intro _ i E)) as (f & Hin & Hf & He & Hb). destruct (block_range _ _ (si_core _ _ Hinv) _ Hin).
  apply list_elem_of_split in Hin as (A & B & ->). exists A, f, B. split_and!; try done; lia.
Qed.

(** The last block of a list that is not empty is large enough. *)
Lemma search_list_ok b : size_to_bin n ≤ b → 0 < zlen (velt [] (free_lists h) b) → ∃ A f B l, segs = A ++ f :: B ∧ s_free f = true ∧ n ≤ s_len f ∧
  size_to_bin (s_len f) = b ∧ entry h b l = Some (s_idx f) ∧ search_list h n (velt [] (free_lists h) b) (length (velt [] (free_lists h) b)) = Some (l, s_idx f, s_len f - n).
Proof using All.
  intros Hb Hlen. set (list := velt [] (free_lists h) b) in *. destruct (length list) as [|k] eqn:Hk; [unfold zlen in Hlen; lia|].
  assert (entry h b (Z.of_nat k) = Some (velt 0 list (Z.of_nat k))) as E by (apply vget_velt; fold list; unfold zlen; lia).
  destruct (entry_seg _ _ _ E) as (A & f & B & Heq & Hf & He & Hbf & Hr). exists A, f, B, (Z.of_nat k).
  assert (n ≤ s_len f) as Hle by (apply Hfits; [done|by rewrite Hbf]). split_and!; try done; [by rewrite He|]. cbn [search_list]. change (vget list (Z.of_nat k)) with (entry h b (Z.of_nat k)). rewrite E.
  cbn [mbind option_bind]. rewrite <- He. rewrite (seg_size h A f B) by (rewrite <- Heq; apply Hinv). cbn [mbind option_bind]. rewrite (proj2 (Z.leb_le 0 _)) by lia. done.
Qed.

Lemma search_bins_ok bins : (∀ b, b ∈ bins → size_to_bin n ≤ b) →
  (∃ A f B l, segs = A ++ f :: B ∧ s_free f = true ∧ n ≤ s_len f ∧ entry h (size_to_bin (s_len f)) l = Some (s_idx f) ∧
    search_bins h n bins = out ← take_from h (size_to_bin (s_len f)) l (s_idx f) (s_len f - n); Some (Some out)) ∨
  (search_bins h n bins = Some None ∧ ∀ s, s ∈ segs → s_free s = true → size_to_bin (s_len s) ∉ bins).
Proof using All.
  induction bins as [|b bins IH]; intros Hb; [right; split; [done|intros; apply not_elem_of_nil]|]. cbn [search_bins]. case_cond.
  - left. destruct (search_list_ok b) as (A & f & B & l & Heq & Hf & Hle & <- & E & Es); [apply Hb; by left|done|]. exists A, f, B, l. rewrite Es. done.
  - destruct IH as [?|[IH Hno] ]; [intros; apply Hb; by right|by left|]. right. split; [done|]. intros s Hs Hf. apply not_elem_of_cons. split; [|by apply Hno]. intros <-.
    destruct (proj2 (si_bins _ _ Hinv (s_idx s) (size_to_bin (s_len s)))) as (i & Hi%entry_range); [by exists s|lia].
Qed.

(** A block of [n] words, or no free block is so large. *)
Lemma search_free_list_ok :
  (∃ A f B h' u, segs = A ++ f :: B ∧ s_free f = true ∧ n ≤ s_len f ∧ search_free_list h n = Some (Some (h', u)) ∧ seg_inv h' (A ++ taken f n u ++ B) ∧
    same_misc h h' ∧ zlen (vec h') = zlen (vec h) ∧ ∀ o, ¬ first_word segs o → velt 0 (vec h') o = velt 0 (vec h) o) ∨
  (search_free_list h n = Some None ∧ ∀ s, s ∈ segs → s_free s = true → s_len s < n).
Proof using All.
  unfold search_free_list. destruct (search_bins_ok (zrange (size_to_bin n) (zlen (free_lists h)))) as [(A & f & B & l & Heq & Hf & Hle & E & ->)|[-> Hno] ].
  - intros b Hb. apply elem_of_zrange in Hb. lia.
  - left. destruct (take_from_ok h A f B l n) as (h' & u & -> & ?); [by rewrite <- Heq|done|done|lia|]. exists A, f, B, h', u. by rewrite Heq.
  - right. split; [done|]. intros s Hs Hf. destruct (block_range _ _ (si_core _ _ Hinv) _ Hs) as (_ & ? & ? & ? & ?). apply Z.lt_nge. intros Hle. apply (Hno s Hs Hf). apply elem_of_zrange.
    pose proof (size_to_bin_mono n (s_len s) ltac:(lia) ltac:(lia)).
    destruct (proj2 (si_bins _ _ Hinv (s_idx s) (size_to_bin (s_len s)))) as (i & Hi%entry_range); [by exists s|]. lia.
Qed.
End search.
End HeapTake.
