(* ===== verification/HeapCombine.v ===== *)
(** * The heap of vppinfra: free blocks next to each other become one *)

From stdpp Require Import gmap.
From S2P Require Import Prelude Bitmap Heap HeapChain HeapBins HeapSegs.
Open Scope Z_scope.

Module HeapCombine.
Import Heap HeapChain HeapBins HeapSegs.

(** ** The blocks *)

(** The place of a free block. *)
Definition place (h : header) (s : seg) : Z := velt 0 (vec h) (s_off s).
Definition total (fs : list seg) : Z := foldr (λ s n, s_len s + n) 0 fs.

Lemma seg_entry h segs s : seg_inv h segs → s ∈ segs → s_free s = true → entry h (size_to_bin (s_len s)) (place h s) = Some (s_idx s).
Proof.
  intros [Hcore Hfree Hbins] Hs Hf. destruct (proj2 (Hbins (s_idx s) (size_to_bin (s_len s)))) as (i & E); [by exists s|].
  destruct (fr_words _ _ Hfree _ _ _ E) as [_ Hw]; [tauto|]. destruct (seg_elt _ _ Hcore _ Hs) as (_ & _ & Ho). unfold place. by rewrite <- Ho, Hw.
Qed.

Lemma get_free_elt_ok h e n i : free_elt h e → heap_elt_size h e = Some n → velt 0 (vec h) (hoff h e) = i → get_free_elt h e = Some (i, size_to_bin n).
Proof.
  intros Hf Hs Hi. destruct (free_elt_bits h e Hf) as (He & Hb & _ & Hnn). unfold get_free_elt. rewrite He. cbn [mbind option_bind]. rewrite Hb, Hs. cbn [negb mbind option_bind].
  fold (hoff h e). rewrite (vget_velt 0) by (destruct Hf as (_ & _ & ?); lia). by rewrite Hi.
Qed.

Definition blocks (h : header) (fs : list seg) : list free_block := (λ s, FreeBlock (s_idx s) (size_to_bin (s_len s)) (place h s)) <$> fs.

Lemma get_free_seg h A f B : seg_inv h (A ++ f :: B) → s_free f = true → get_free_elt h (s_idx f) = Some (place h f, size_to_bin (s_len f)) ∧
  (list ← vget (free_lists h) (size_to_bin (s_len f)); vget list (place h f)) = Some (s_idx f) ∧ heap_elt_size h (s_idx f) = Some (s_len f).
Proof.
  intros Hinv Hf. pose proof (si_core _ _ Hinv) as Hcore. assert (f ∈ A ++ f :: B) as Hin by (rewrite list.elem_of_app; right; by left).
  assert (heap_elt_size h (s_idx f) = Some (s_len f)) as Hs by by eapply seg_size. split_and!; [| |done].
  - apply get_free_elt_ok; [by apply (seg_free_elt _ _ Hcore)|done|]. by destruct (seg_elt _ _ Hcore _ Hin) as (_ & _ & ->).
  - pose proof (seg_entry _ _ _ Hinv Hin Hf) as E. destruct (entry_range _ _ _ _ E) as [Hb _]. by rewrite (vget_velt []) by done.
Qed.

Lemma gather_ok h B : ∀ fs n A f fl, seg_inv h (A ++ f :: fs ++ B) → (∀ s, s ∈ f :: fs → s_free s = true) → (length fs < n)%nat → last (f :: fs) = Some fl →
  gather n h (s_idx f) (s_idx fl) = Some (blocks h (f :: fs), total (f :: fs)).
Proof.
  induction fs as [|f' fs IH]; intros n A f fl Hinv Hfree Hn Hlast; (destruct n as [|n]; [cbn in Hn; lia|]); cbn [gather];
    (destruct (get_free_seg h A f _ Hinv) as (-> & E2 & E3); [apply Hfree; by left|]); cbn [mbind option_bind];
    (destruct (vget (free_lists h) (size_to_bin (s_len f))) as [list|]; [|done]); cbn [mbind option_bind] in E2 |- *; rewrite E2; cbn [mbind option_bind]; rewrite E3; cbn [mbind option_bind].
  - injection Hlast as <-. rewrite Z.eqb_refl. cbn. by rewrite Z.add_0_r.
  - pose proof (sc_list _ _ (si_core _ _ Hinv)) as Hlist. rewrite idxs_middle in Hlist. destruct (list_rep_middle _ _ _ _ Hlist) as (_ & _ & Hnext & _ & Hno).
    rewrite (proj2 (Z.eqb_neq (s_idx f) (s_idx fl))).
    + rewrite Hnext. cbn [idxs app fmap list_fmap hd_error default from_option mbind option_bind id]. rewrite (IH n (A ++ [f]) f' fl); [done|by rewrite <- app_assoc| |cbn in Hn; lia|done].
      intros s Hs. apply Hfree. by right.
    + intros Heq. apply Hno. rewrite Heq. apply idxs_in. change (fl ∈ (f' :: fs) ++ B). rewrite list.elem_of_app. left. by apply last_Some_elem_of.
Qed.

(** ** The blocks that go *)

(** The state while blocks are deleted: [l] are the elements that are left, and [W] has the first words of free blocks. *)
Record comb (h : header) (X : Z → Z → Prop) (l : list Z) (W : Z → Prop) : Prop := {
  cb_list : list_rep h l;
  cb_fresh : fresh_rep h l;
  cb_free : free_rep h X;
  cb_in b i e : entry h b i = Some e → ¬ X b i → e ∈ l ∧ W (hoff h e);
}.

Section delete.
Context (g bt : Z) (X : Z → Z → Prop) (W : Z → Prop) (HX : ∀ b i, X b i → b = bt).

Lemma delete_unused_ok h l1 e l2 n x : comb h X (l1 ++ e :: l2) W → index x = e → e ≠ g → l1 ++ l2 ≠ [] → heap_elt_size h e = Some n → size_to_bin n ≠ bt → in_bin h e (size_to_bin n) →
  ∃ h', delete_unused g h x = Some h' ∧ comb h' X (l1 ++ l2) W ∧ same_misc h h' ∧ zlen (vec h') = zlen (vec h) ∧ (∀ j, j ∈ l1 ++ l2 → off (elts h') j = off (elts h) j) ∧
    (∀ i, entry h' bt i = entry h bt i) ∧ (∀ e' b', in_bin h' e' b' ↔ in_bin h e' b' ∧ ¬ (e' = e ∧ b' = size_to_bin n)) ∧ ∀ o, ¬ W o → velt 0 (vec h') o = velt 0 (vec h) o.
Proof using HX.
  intros [Hl Hf Hrep Hin] Hx Hg Hne Hs Hb [i E]. assert (¬ X (size_to_bin n) i) as Hxi by (intros ?%HX; done). destruct (fr_words _ _ Hrep _ _ _ E Hxi) as [Hfe Hw].
  unfold delete_unused. rewrite Hx, (proj2 (Z.eqb_neq g e)) by done. rewrite (get_free_elt_ok h e n i) by done. cbn [mbind option_bind fst snd].
  assert (∀ i', entry h (size_to_bin n) i' = Some e → i' = i) as Hone. { intros i' E'. apply (fr_distinct _ _ Hrep _ _ _ _ _ _ E' E); [|done..]. by intros ?%HX. }
  destruct (remove_free_block_ok h X _ i e Hrep E) as (h1 & -> & Hsame & Hrem & Hrep1 & Hw1); [by intros i' ?%HX|done|]. cbn [mbind option_bind].
  assert (∀ e' b', in_bin h1 e' b' ↔ in_bin h e' b' ∧ ¬ (e' = e ∧ b' = size_to_bin n)) as Hin1 by (intros e' b'; by apply (removed_in_bin h _ i)).
  pose proof (core_same_list h h1 _ Hl Hsame) as Hl1. pose proof (fresh_same_elts h h1 _ Hf Hsame) as Hf1. destruct Hsame as [Se Sf Su Sh St Sc Sm Sl].
  destruct (elt_delete_ok h1 l1 e l2 Hl1 Hne Hf1) as (h2 & -> & [Fv Fl Fu Fc Fm Fo] & Hl2 & Hf2).
  assert (∀ j, j ∈ l1 ++ l2 → j < zlen (elts h2) ∧ off (elts h2) j = off (elts h) j) as Hoff.
  { intros j Hj. rewrite <- Se. apply Fo; [done|]. apply (chain_range _ None _ None _ (lr_chain _ _ Hl1)). rewrite list.elem_of_app, list.elem_of_cons in *. tauto. }
  assert (∀ b' i', entry h2 b' i' = entry h1 b' i') as Hent by (intros; unfold entry; by rewrite Fl).
  assert (∀ e' b', in_bin h2 e' b' ↔ in_bin h e' b' ∧ ¬ (e' = e ∧ b' = size_to_bin n)) as Hin2. { intros. unfold in_bin at 1. setoid_rewrite Hent. by apply Hin1. }
  assert (∀ b' i' e', entry h1 b' i' = Some e' → ¬ X b' i' → e' ∈ l1 ++ l2 ∧ W (hoff h e')) as Hin'.
  { intros b' i' e' E' Hx'. assert (∃ i0, entry h b' i0 = Some e' ∧ ¬ X b' i0 ∧ ¬ (e' = e ∧ b' = size_to_bin n)) as (i0 & E0 & Hx0 & Hno).
    { destruct (decide (b' = bt)) as [->|Hbt].
      - exists i'. rewrite Hrem, decide_False in E' by congruence. split_and!; [done..|]. intros [_ ?]. congruence.
      - assert (in_bin h1 e' b') as [ [i0 E0] Hno]%Hin1 by by exists i'. exists i0. split_and!; [done| |done]. by intros ?%HX. }
    destruct (Hin _ _ _ E0 Hx0) as [He' ?]. split; [|done]. rewrite !list.elem_of_app, list.elem_of_cons in *. assert (e' ≠ e); [|tauto]. intros ->.
    destruct (fr_distinct _ _ Hrep _ _ _ _ _ _ E E0 Hxi Hx0 eq_refl) as [<- _]. tauto. }
  assert (∀ j, j ∈ l1 ++ l2 → hoff h2 j = hoff h j) as Hho by (intros j Hj; rewrite !hoff_off; f_equal; by apply Hoff).
  exists h2. split_and!; [done| | |by rewrite Fv|by apply Hoff| | |].
  - constructor; [done|done| |].
    + apply (free_rep_frame h1); [eapply free_rep_weaken; [done|]; cbn; tauto|done|by rewrite Fv|]. intros b' i' e' E' Hx'. rewrite Fv, Se. split_and!; [by apply Hoff, (Hin' b' i')..|done].
    + intros b' i' e' E' Hx'. rewrite Hent in E'. destruct (Hin' _ _ _ E' Hx') as [? ?]. split; [done|]. by rewrite Hho.
  - split_and!; congruence.
  - intros i'. rewrite Hent, Hrem. by rewrite decide_False by congruence.
  - done.
  - intros o Ho. rewrite Fv. apply Hw1. intros e' [i' E'] _ <-. apply Ho. apply (Hin _ _ _ E'). by intros ?%HX.
Qed.

(** The free ones of [fs] that go. *)
Definition gone (fs : list seg) (e b : Z) : Prop := ∃ s, s ∈ fs ∧ s_idx s ≠ g ∧ s_idx s = e ∧ size_to_bin (s_len s) = b.

Lemma gone_cons s fs e b : gone (s :: fs) e b ↔ (s_idx s ≠ g ∧ s_idx s = e ∧ size_to_bin (s_len s) = b) ∨ gone fs e b.
Proof using.
  clear. split.
  - intros (y & [->|Hy]%list.elem_of_cons & Hye); [by left|right; by exists y].
  - intros [?|(y & Hy & Hye)]; [exists s|exists y]; (split; [|done]); [by left|by right].
Qed.

Lemma next_hoff h fs B o x s : laid o (s :: fs ++ B) x → (∀ s, s ∈ fs ++ B → hoff h (s_idx s) = s_off s) → zlen (vec h) = x →
  (match idxs fs ++ idxs B with [] => zlen (vec h) | n :: _ => hoff h n end) = s_off s + s_len s.
Proof using.
  rewrite <- idxs_app. intros (<- & _ & Hl) Ho Hz. destruct (fs ++ B) as [|n L]; cbn [idxs fmap list_fmap laid] in *; [lia|]. rewrite Ho by by left. lia.
Qed.

Lemma delete_loop B : ∀ fs xs h l1 o, index <$> xs = idxs fs → comb h X (l1 ++ idxs fs ++ idxs B) W → laid o (fs ++ B) (zlen (vec h)) →
  (∀ s, s ∈ fs ++ B → hoff h (s_idx s) = s_off s) → (∀ s, s ∈ fs → s_idx s ≠ g → size_to_bin (s_len s) ≠ bt ∧ in_bin h (s_idx s) (size_to_bin (s_len s))) → g ∈ l1 ++ idxs fs →
  ∃ h', mfoldl (delete_unused g) h xs = Some h' ∧ comb h' X (l1 ++ filter (λ i, i = g) (idxs fs) ++ idxs B) W ∧ same_misc h h' ∧ zlen (vec h') = zlen (vec h) ∧
    (∀ j, j ∈ l1 ++ idxs B → off (elts h') j = off (elts h) j) ∧ (∀ i, entry h' bt i = entry h bt i) ∧
    (∀ e b, in_bin h' e b ↔ in_bin h e b ∧ ¬ gone fs e b) ∧ ∀ o, ¬ W o → velt 0 (vec h') o = velt 0 (vec h) o.
Proof using HX.
  induction fs as [|s fs IH]; intros [|x xs] h l1 o Hxs Hc Hlaid Hoff Hbin Hg; try done; cbn [mfoldl].
  - exists h. split_and!; try done. intros e b. split; [|tauto]. intros ?. split; [done|]. intros (s & Hs & _). by apply not_elem_of_nil in Hs.
  - injection Hxs as Hx Hxs. cbn [idxs fmap list_fmap app] in *. destruct (decide (s_idx s = g)) as [Heq|Hne].
    + assert (delete_unused g h x = Some h) as -> by (unfold delete_unused; by rewrite Hx, Heq, Z.eqb_refl). cbn [mbind option_bind]. rewrite filter_cons_True by done.
      destruct (IH xs h (l1 ++ [g]) (o + s_len s) Hxs) as (h' & -> & ? & ? & ? & Ho' & ? & Hb' & ?).
      * by rewrite <- app_assoc, <- Heq.
      * apply Hlaid.
      * intros y Hy. apply Hoff. by right.
      * intros y Hy. apply Hbin. by right.
      * rewrite !list.elem_of_app. left. right. by left.
      * exists h'. rewrite Heq, <- app_assoc in *. split_and!; try done.
        -- intros j Hj. apply Ho'. rewrite !list.elem_of_app in *. tauto.
        -- intros e b. rewrite Hb', gone_cons. tauto.
    + destruct (Hbin s) as [Hsb Hsin]; [by left|done|]. pose proof (next_hoff h fs B o _ s Hlaid ltac:(intros y Hy; apply Hoff; by right) eq_refl) as Hnext.
      assert (heap_elt_size h (s_idx s) = Some (s_len s)) as Hsz.
      { rewrite (heap_elt_size_ok h l1 (s_idx s) (idxs fs ++ idxs B)) by apply (cb_list _ _ _ _ Hc). rewrite Hnext, Hoff by by left. f_equal. lia. }
      assert (g ∈ l1 ++ idxs fs) as Hg' by (rewrite list.elem_of_app, list.elem_of_cons in *; naive_solver).
      destruct (delete_unused_ok h l1 (s_idx s) (idxs fs ++ idxs B) (s_len s) x Hc Hx Hne) as (h1 & -> & Hc1 & Hm1 & Hz1 & Ho1 & Hbt1 & Hin1 & Hw1); [|done..|].
      { rewrite app_assoc. intros Hnil. apply app_nil in Hnil as [Hnil _]. rewrite Hnil in Hg'. by apply not_elem_of_nil in Hg'. }
      cbn [mbind option_bind]. rewrite filter_cons_False by done.
      assert (∀ y, y ∈ fs ++ B → hoff h1 (s_idx y) = hoff h (s_idx y)) as Hho1. { intros y Hy%idxs_in. rewrite !hoff_off, Ho1; [done|]. rewrite idxs_app in Hy. rewrite list.elem_of_app. tauto. }
      destruct (IH xs h1 l1 (o + s_len s) Hxs Hc1) as (h' & -> & Hc' & Hm' & Hz' & Ho' & Hbt' & Hb' & Hw').
      * rewrite Hz1. apply Hlaid.
      * intros y Hy. rewrite Hho1 by done. apply Hoff. by right.
      * intros y Hy Hyg. destruct (Hbin y) as [? Hyin]; [by right|done|]. split; [done|]. apply Hin1. split; [done|]. intros [Heq _].
        pose proof (lr_nodup _ _ (cb_list _ _ _ _ Hc)) as (_ & _ & Hnd)%NoDup_app. apply NoDup_cons in Hnd as [Hno _]. apply Hno. rewrite <- Heq, list.elem_of_app. left. by apply idxs_in.
      * done.
      * exists h'. split_and!; try done; [by eapply same_misc_trans|congruence| |by intros; rewrite Hbt', Hbt1| |by intros; rewrite Hw', Hw1].
        -- intros j Hj. rewrite Ho' by done. apply Ho1. rewrite !list.elem_of_app in *. tauto.
        -- intros e b. rewrite Hb', Hin1, gone_cons. assert (s_idx s = e ∧ size_to_bin (s_len s) = b ↔ e = s_idx s ∧ b = size_to_bin (s_len s)) by (split; intros [-> ->]; done). tauto.
Qed.
End delete.

(** ** The block that stays *)

Lemma filter_eq_one (l : list Z) g : NoDup l → filter (λ i, i = g) l = if decide (g ∈ l) then [g] else [].
Proof.
  induction l as [|x l IH]; intros Hnd; [done|]. apply NoDup_cons in Hnd as [Hno Hnd]. specialize (IH Hnd). destruct (decide (x = g)) as [->|Hne].
  - rewrite filter_cons_True by done. rewrite IH, decide_False by done. rewrite decide_True; [done|by left].
  - rewrite filter_cons_False by done. rewrite IH. apply decide_ext. rewrite list.elem_of_cons. intuition congruence.
Qed.

Lemma total_le fs s : (∀ x, x ∈ fs → 0 < s_len x) → s ∈ fs → s_len s ≤ total fs.
Proof.
  induction fs as [|x fs IH]; intros Hpos; [by intros ?%not_elem_of_nil|]. assert (0 ≤ total fs) as Hnn.
  { clear IH. induction fs as [|y fs IH]; cbn; [done|]. pose proof (Hpos y ltac:(right; by left)). assert (0 ≤ total fs); [|unfold total in *; lia].
    apply IH. intros z [->|Hz]%list.elem_of_cons; apply Hpos; [by left|right; by right]. }
  cbn [total foldr]. fold (total fs). intros [->|Hin]%list.elem_of_cons; [lia|]. pose proof (Hpos x ltac:(by left)). pose proof (IH ltac:(intros y Hy; apply Hpos; by right) Hin). lia.
Qed.

Lemma total_two fs s s' : (∀ x, x ∈ fs → 0 < s_len x) → s ∈ fs → s' ∈ fs → s ≠ s' → s_len s + s_len s' ≤ total fs.
Proof.
  induction fs as [|x fs IH]; intros Hpos; [by intros ?%not_elem_of_nil|]. assert (∀ y, y ∈ fs → 0 < s_len y) as Hpos' by (intros y Hy; apply Hpos; by right).
  cbn [total foldr]. fold (total fs). pose proof (Hpos x ltac:(by left)).
  intros [->|Hin]%list.elem_of_cons [->|Hin']%list.elem_of_cons Hne; [done| | |].
  - pose proof (total_le fs s' Hpos' Hin'). lia.
  - pose proof (total_le fs s Hpos' Hin). lia.
  - pose proof (IH Hpos' Hin Hin' Hne). lia.
Qed.

Lemma laid_total o fs o' : laid o fs o' → o' = o + total fs.
Proof. revert o. induction fs as [|s fs IH]; intros o; cbn [laid total foldr]; [lia|]. fold (total fs). intros (_ & _ & ->%IH). lia. Qed.

Section combine.
Context (h : header) (A fs B : list seg) (f0 : seg).
Context (Hinv : seg_inv h (A ++ fs ++ B)) (Hfree : ∀ s, s ∈ fs → s_free s = true) (Hf0 : hd_error fs = Some f0).

Abbreviation segs := (A ++ fs ++ B).
Abbreviation t := (total fs).
Abbreviation bt := (size_to_bin (total fs)).

Lemma combined_laid g : laid 0 (A ++ Seg g (s_off f0) t true :: B) (zlen (vec h)) ∧ 0 < t < 2 ^ 31 ∧ f0 ∈ fs.
Proof using All.
  pose proof (sc_laid _ _ (si_core _ _ Hinv)) as Hl. pose proof (sc_small _ _ (si_core _ _ Hinv)) as Hsmall. apply laid_app in Hl as (m & HA & Hl). apply laid_app in Hl as (m' & Hfs & HB).
  pose proof (laid_total _ _ _ Hfs). destruct fs as [|f fs']; [done|]. injection Hf0 as ->. pose proof (laid_le _ _ _ HA). pose proof (laid_le _ _ _ HB).
  destruct (laid_in _ _ _ f0 Hfs) as (_ & ? & ?); [by left|]. destruct Hfs as (Ho & _ & _). split_and!; [|lia|lia|by left]. apply laid_middle. cbn [s_off s_len]. rewrite Ho. split_and!; [done|lia|]. by replace (m + total (f0 :: fs')) with m' by lia.
Qed.

(** The last steps: the offset of the block and its place. *)
Lemma combine_finish h3 g gi : comb h3 (λ b i, b = bt ∧ i = gi) (idxs A ++ g :: idxs B) (first_word segs) → entry h3 bt gi = Some g → (∀ i, entry h3 bt i = Some g → i = gi) → same_misc h h3 → zlen (vec h3) = zlen (vec h) →
  (∀ s, s ∈ A ∨ s ∈ B → off (elts h3) (s_idx s) = off (elts h) (s_idx s)) → (∀ e b, in_bin h3 e b ↔ (in_bin h e b ∧ ¬ free_in fs e b) ∨ (g = e ∧ bt = b)) →
  (∀ o, ¬ first_word segs o → velt 0 (vec h3) o = velt 0 (vec h) o) →
  ∃ h5, (h4 ← upd g (set_offset (s_off f0 + 2 ^ 31)) h3; set_free_elt h4 g gi) = Some h5 ∧ seg_inv h5 (A ++ Seg g (s_off f0) t true :: B) ∧ same_misc h h5 ∧
    zlen (vec h5) = zlen (vec h) ∧ ∀ o, ¬ first_word segs o → velt 0 (vec h5) o = velt 0 (vec h) o.
Proof using All.
  intros [Hl3 Hf3 Hrep3 Hin3] Hg Hone Hm Hz Hoff Hbins Hw. destruct (combined_laid g) as (Hlaid & Ht & Hf0in). pose proof (si_core _ _ Hinv) as Hcore.
  destruct (list_rep_middle _ _ _ _ Hl3) as (Hgr & _ & _ & HgA & HgB).
  destruct (upd_offset_ok h3 g (s_off f0 + 2 ^ 31) Hgr) as (es & -> & Hes & Heoff & Herep). cbn [mbind option_bind]. set (h4 := set_elts es h3).
  set (new := Seg g (s_off f0) t true) in *.
  assert (seg_core h4 (A ++ [new] ++ B)) as Hcore4.
  { apply (core_replace h h4 A fs [new] B); [done| | |change (vec h4) with (vec h3); by rewrite Hz|change (vec h4) with (vec h3); rewrite Hz; apply (sc_small _ _ Hcore)| | |by destruct A].
    - rewrite idxs_app. apply Herep, Hl3.
    - rewrite idxs_app. destruct Hf3 as [? Hfi]. split; [done|]. intros i. cbn [h4 free_elts elts set_elts]. rewrite Hes. apply Hfi.
    - intros s Hs. cbn [h4 elts set_elts]. rewrite Heoff, decide_False; [by apply Hoff|]. intros <-. destruct Hs as [Hs%idxs_in|Hs%idxs_in]; done.
    - intros s ->%list_elem_of_singleton. cbn [h4 elts set_elts new s_idx]. by rewrite Heoff, decide_True. }
  assert (new ∈ A ++ [new] ++ B) as Hnew by (rewrite list.elem_of_app; right; by left).
  pose proof (seg_free_elt _ _ Hcore4 new Hnew eq_refl) as Hfe. destruct (seg_elt _ _ Hcore4 new Hnew) as (_ & _ & Hho). cbn [new s_idx s_off] in Hfe, Hho.
  rewrite (set_free_elt_again h4 g gi Hfe), Hho. set (h5 := set_vec _ h4). assert (same_elts h4 h5) as Hsame by (constructor; try done; apply zlen_vset). exists h5.
  assert (0 ≤ s_off f0 < zlen (vec h4)) as Hr by (destruct (block_range _ _ Hcore4 new Hnew) as (_ & ? & ? & ? & _); cbn [new s_off s_len] in *; lia).
  assert (∀ b i e, entry h3 b i = Some e → ¬ (b = bt ∧ i = gi) → hoff h4 e = hoff h3 e ∧ hoff h3 e ≠ s_off f0 ∧ e < zlen es ∧ off es e = off (elts h3) e) as Hother.
  { intros b i e E Hx. assert (in_bin h e b ∧ ¬ free_in fs e b) as [Hinb Hno].
    { destruct (proj1 (Hbins e b) (ex_intro _ i E)) as [?|[<- <-] ]; [done|]. destruct Hx. split; [done|by apply Hone]. }
    apply (si_bins _ _ Hinv) in Hinb as (x & Hx' & Hxf & <- & Hxb). assert (x ∉ fs) as Hxfs by (intros Hxfs; apply Hno; by exists x).
    assert (x ∈ A ∨ x ∈ B) as HAB by (rewrite !list.elem_of_app in Hx'; tauto). assert (s_idx x ≠ g) as Hxg by (intros <-; destruct HAB as [Hs%idxs_in|Hs%idxs_in]; done).
    assert (f0 ∈ segs) as Hf0s by (rewrite !list.elem_of_app; tauto). assert (s_off x ≠ s_off f0) as Hxo.
    { assert (x ≠ f0) as Hne by congruence. destruct (laid_disjoint _ _ _ x f0 (sc_laid _ _ Hcore) Hx' Hf0s Hne), (laid_in _ _ _ _ (sc_laid _ _ Hcore) Hx'), (laid_in _ _ _ _ (sc_laid _ _ Hcore) Hf0s); lia. }
    assert (hoff h3 (s_idx x) = s_off x) as Hh3. { rewrite hoff_off, Hoff, <- hoff_off by done. by apply (seg_elt _ _ Hcore). }
    assert (off es (s_idx x) = off (elts h3) (s_idx x)) as Hes' by (by rewrite Heoff, decide_False).
    split_and!; [|by rewrite Hh3| |done].
    - rewrite !hoff_off. cbn [h4 elts set_elts]. by rewrite Hes'.
    - rewrite Hes. apply (chain_range _ None _ None _ (lr_chain _ _ Hl3)). rewrite list.elem_of_app, list.elem_of_cons. destruct HAB as [Hs%idxs_in|Hs%idxs_in]; tauto. }
  split_and!; [done| |done|by rewrite (se_len _ _ Hsame)|].
  - constructor; [by apply (core_same_elts h4)| |].
    + apply (free_rep_settle h5 _ bt gi g); [|done|by apply (free_elt_same h4)|change (hoff h5 g) with (hoff h4 g); rewrite Hho; by apply velt_vset_eq|].
      * apply (free_rep_frame h3); [by eapply free_rep_weaken; [done|]; cbn; tauto|done|rewrite (se_len _ _ Hsame); done|]. intros b i e E Hx.
        destruct (Hother b i e E) as (H1 & H2 & H3 & H4); [tauto|]. cbn [h5 h4 elts vec set_vec set_elts]. split_and!; [done..|]. by apply velt_vset_ne.
      * intros b i e E _ Hne. destruct (Hother b i e E) as (H1 & H2 & _); [by intros [-> ->]|]. change (hoff h5) with (hoff h4). by rewrite H1, Hho.
    + apply (binned_replace h h5 A fs [new] B); [apply Hinv|apply (lr_nodup _ _ (sc_list _ _ Hcore))|]. intros e b. change (in_bin h5 e b) with (in_bin h3 e b).
      rewrite Hbins, free_in_one. cbn [new s_free s_idx s_len]. tauto.
  - intros o Ho. cbn [h5 vec set_vec h4 set_elts]. rewrite velt_vset_ne; [by apply Hw|]. intros <-. apply Ho. exists f0. rewrite !list.elem_of_app. split_and!; [tauto|by apply Hfree|done].
Qed.

(** What the choice of the block gives: [l1] are the elements before the blocks. *)
Record chosen (h2 : header) (g gi : Z) (l1 : list Z) : Prop := {
  ch_comb : comb h2 (λ b i, b = bt ∧ i = gi) (l1 ++ idxs fs ++ idxs B) (first_word segs);
  ch_place : (l1 = idxs A ∧ g ∈ idxs fs) ∨ (l1 = idxs A ++ [g] ∧ g ∉ idxs fs);
  ch_entry : entry h2 bt gi = Some g;
  ch_one i : entry h2 bt i = Some g → i = gi;
  ch_misc : same_misc h h2;
  ch_vec : vec h2 = vec h;
  ch_off s : s ∈ segs → off (elts h2) (s_idx s) = off (elts h) (s_idx s);
  ch_bins e b : in_bin h2 e b ↔ in_bin h e b ∨ (g = e ∧ bt = b);
  ch_others s : s ∈ fs → (s_idx s = g ↔ size_to_bin (s_len s) = bt);
}.

Lemma comb_start X : comb h X (idxs A ++ idxs fs ++ idxs B) (first_word segs).
Proof using Hinv.
  pose proof (si_core _ _ Hinv) as Hcore. pose proof (sc_list _ _ Hcore) as Hl. pose proof (sc_fresh _ _ Hcore) as Hfr. rewrite !idxs_app in Hl, Hfr.
  constructor; [done|done|by eapply free_rep_weaken; [apply Hinv|]|]. intros b i e E _. destruct (proj1 (si_bins _ _ Hinv e b) (ex_intro _ i E)) as (s & Hs & Hf & <- & _).
  split; [rewrite <- !idxs_app; by apply idxs_in|]. exists s. split_and!; [done..|]. symmetry. by apply (seg_elt _ _ Hcore).
Qed.

Lemma chosen_old gs : gs ∈ fs → bt = size_to_bin (s_len gs) → chosen h (s_idx gs) (place h gs) (idxs A).
Proof using All.
  intros Hgs Hb. assert (gs ∈ segs) as Hgs' by (rewrite !list.elem_of_app; tauto). pose proof (si_core _ _ Hinv) as Hcore. pose proof (seg_entry _ _ _ Hinv Hgs' (Hfree _ Hgs)) as E. rewrite <- Hb in E.
  destruct (combined_laid 0) as (_ & Ht & _). constructor; try done.
  - apply comb_start.
  - left. split; [done|by apply idxs_in].
  - intros i E'. apply (fr_distinct _ _ (si_free _ _ Hinv) _ _ _ _ _ _ E' E); tauto.
  - intros e b. split; [tauto|]. intros [?|[<- <-] ]; [done|]. by exists (place h gs).
  - intros s Hs. assert (s ∈ segs) as Hs' by (rewrite !list.elem_of_app; tauto). split; [intros Heq; by rewrite (idx_inj _ _ _ (lr_nodup _ _ (sc_list _ _ Hcore)) Hs' Hgs' Heq)|].
    intros Hsb. destruct (decide (s_idx s = s_idx gs)) as [|Hne]; [done|]. assert (∀ x, x ∈ fs → 0 < s_len x) as Hpos. { intros x Hx. apply (block_range _ _ Hcore x). rewrite !list.elem_of_app. tauto. }
    pose proof (total_two fs s gs Hpos Hs Hgs ltac:(congruence)). pose proof (Hpos _ Hs). pose proof (Hpos _ Hgs). exfalso. apply (bin_of_sum (s_len s) (s_len gs) t); lia || congruence.
Qed.

Lemma chosen_new : (∀ s, s ∈ fs → size_to_bin (s_len s) ≠ bt) →
  ∃ h2 g gi, (out ← elt_new h; let '(h, gi) := add_free_block out.1 bt out.2 in h ← elt_insert_before h (s_idx f0) out.2; Some (h, out.2, gi)) = Some (h2, g, gi) ∧ chosen h2 g gi (idxs A ++ [g]).
Proof using All.
  intros Hno. pose proof (si_core _ _ Hinv) as Hcore. destruct (elt_new_ok h _ (sc_list _ _ Hcore) (sc_fresh _ _ Hcore)) as (h1 & g & E1 & Hfr1 & Hl1 & Hf1 & Hg & Hgr & Hgf & _).
  destruct (combined_laid g) as (_ & Ht & Hf0in). pose proof (size_to_bin_range t Ht) as Hbt.
  assert (∀ s, s ∈ segs → s_idx s < zlen (elts h1) ∧ off (elts h1) (s_idx s) = off (elts h) (s_idx s)) as Hoff1.
  { intros s Hs. apply (fr_off _ _ _ Hfr1); [by apply idxs_in|]. by apply (block_range _ _ Hcore). }
  assert (free_rep h1 (λ _ _, False)) as Hrep1.
  { apply (free_rep_frame h); [apply Hinv|apply Hfr1|by rewrite (fr_vec _ _ _ Hfr1)|]. intros b i e E _. destruct (proj1 (si_bins _ _ Hinv e b) (ex_intro _ i E)) as (s & Hs & _ & <- & _).
    rewrite (fr_vec _ _ _ Hfr1). by destruct (Hoff1 s Hs). }
  assert (∀ b i, entry h1 b i = entry h b i) as Hent1 by (intros; unfold entry; by rewrite (fr_lists _ _ _ Hfr1)).
  destruct (add_free_block_ok h1 _ bt g ltac:(lia) Hrep1) as (h2 & E2 & Hsame & Hv2 & Hent2 & Hin2 & Hrep2). set (n := zlen (velt [] (free_lists h1) bt)) in *.
  pose proof (core_same_list h1 h2 _ Hl1 Hsame) as Hl2. pose proof (fresh_same_elts h1 h2 _ Hf1 Hsame) as Hf2.
  assert (∃ fs', idxs fs = s_idx f0 :: idxs fs') as [fs' Efs] by (destruct fs as [|f fs']; [done|injection Hf0 as ->; by exists fs']).
  rewrite !idxs_app, Efs in Hl2. cbn [app] in Hl2.
  destruct (elt_insert_before_ok h2 (idxs A) (s_idx f0) (idxs fs' ++ idxs B) g Hl2) as (h3 & E3 & Hsame3 & Hl3).
  { by rewrite !idxs_app, Efs in Hg. }
  { by rewrite (se_elts _ _ Hsame). }
  exists h3, g, n. rewrite E1. cbn [mbind option_bind fst snd]. rewrite E2, E3. cbn [mbind option_bind]. split; [done|].
  pose proof Hsame3 as (S1 & S2 & S3 & S4 & S5 & S6 & S7 & S8). destruct Hsame as [Se Sf Su Sh St Sc Sm Sl].
  assert (∀ b i, entry h3 b i = if decide (b = bt ∧ i = n) then Some g else entry h b i) as Hent3 by (intros; unfold entry at 1; rewrite S3; fold (entry h2 b i); by rewrite Hent2, Hent1).
  assert (∀ s, s ∈ segs → hoff h3 (s_idx s) = hoff h (s_idx s)) as Hho by (intros s Hs; rewrite !hoff_off, S8, Se; by destruct (Hoff1 s Hs) as [_ ->]).
  assert (∀ b i e, entry h b i = Some e → ∃ s, s ∈ segs ∧ s_free s = true ∧ s_idx s = e ∧ e ≠ g) as Hseg.
  { intros b i e E. destruct (proj1 (si_bins _ _ Hinv e b) (ex_intro _ i E)) as (s & Hs & Hf & <- & _). exists s. split_and!; try done. intros <-. by apply Hg, idxs_in. }
  constructor.
  - constructor.
    + by rewrite <- app_assoc, Efs.
    + apply (fresh_same h2 h3 _ _ g Hsame3 Hf2); [by rewrite Sf|]. intros i. rewrite !idxs_app, !list.elem_of_app, list_elem_of_singleton. tauto.
    + apply (free_rep_frame h2); [by eapply free_rep_weaken; [done|]; cbn; tauto|done|by rewrite S1|]. intros b i e E Hx. rewrite S1, S7, S8. split_and!; [|done..].
      rewrite Hent2, decide_False, Hent1 in E by tauto. destruct (Hseg _ _ _ E) as (s & Hs & _ & <- & _). rewrite Se. by apply Hoff1.
    + intros b i e E Hx. rewrite Hent3, decide_False in E by tauto. destruct (Hseg _ _ _ E) as (s & Hs & Hf & <- & _). split.
      * apply idxs_in in Hs. rewrite !idxs_app in Hs. rewrite !list.elem_of_app in *. tauto.
      * exists s. split_and!; [done..|]. rewrite Hho by done. symmetry. by apply (seg_elt _ _ Hcore).
  - right. split; [done|]. intros Hin. apply Hg. rewrite !idxs_app, !list.elem_of_app. tauto.
  - by rewrite Hent3, decide_True.
  - intros i E. rewrite Hent3 in E. case_decide as Hd; [tauto|]. destruct (Hseg _ _ _ E) as (s & _ & _ & _ & ?). done.
  - destruct Hfr1. split_and!; congruence.
  - by rewrite S1, Hv2, (fr_vec _ _ _ Hfr1).
  - intros s Hs. rewrite S8, Se. by apply Hoff1.
  - intros e b. assert (in_bin h3 e b ↔ in_bin h2 e b) as -> by (unfold in_bin, entry; by rewrite S3). rewrite Hin2. assert (in_bin h1 e b ↔ in_bin h e b) as -> by (unfold in_bin; by setoid_rewrite Hent1). intuition congruence.
  - intros s Hs. split; [intros Heq|by intros ?%Hno]. destruct Hg. rewrite <- Heq. apply idxs_in. rewrite !list.elem_of_app. tauto.
Qed.

Lemma combined_ok : ∃ h2 g gi l1, combined h bt (blocks h fs) = Some (h2, g, gi) ∧ chosen h2 g gi l1.
Proof using All.
  unfold combined. destruct (List.find (λ x, bt =? bin x) (blocks h fs)) as [x|] eqn:Hfind.
  - apply find_some in Hfind as [Hx Hb]. apply list_elem_of_In, list_elem_of_fmap in Hx as (gs & -> & Hgs). cbn [bin] in Hb. exists h, (s_idx gs), (place h gs), (idxs A). split; [done|]. apply chosen_old; [done|lia].
  - assert (List.hd_error (blocks h fs) = Some (FreeBlock (s_idx f0) (size_to_bin (s_len f0)) (place h f0))) as -> by (destruct fs as [|f fs']; [done|by injection Hf0 as ->]).
    cbn [mbind option_bind index]. destruct chosen_new as (h2 & g & gi & E & Hch).
    + intros s Hs Heq. assert (In (FreeBlock (s_idx s) (size_to_bin (s_len s)) (place h s)) (blocks h fs)) as Hin by (apply list_elem_of_In, list_elem_of_fmap; by exists s).
      pose proof (find_none _ _ Hfind _ Hin) as Hn. cbn [bin] in Hn. by rewrite Heq, Z.eqb_refl in Hn.
    + exists h2, g, gi, (idxs A ++ [g]). split; [|done]. exact E.
Qed.

(** Free blocks next to each other become one. *)
Lemma combine_free_blocks_ok fl : last fs = Some fl → (length fs ≤ 3)%nat →
  ∃ h' g, combine_free_blocks h (s_idx f0) (s_idx fl) = Some h' ∧ seg_inv h' (A ++ Seg g (s_off f0) t true :: B) ∧ same_misc h h' ∧
    zlen (vec h') = zlen (vec h) ∧ ∀ o, ¬ first_word segs o → velt 0 (vec h') o = velt 0 (vec h) o.
Proof using All.
  intros Hlast Hlen. pose proof (si_core _ _ Hinv) as Hcore. destruct (combined_laid 0) as (_ & Ht & Hf0in). assert (∃ fs', fs = f0 :: fs') as [fs' Efs] by (destruct fs as [|f fs']; [done|injection Hf0 as ->; by exists fs']).
  unfold combine_free_blocks. assert (gather 3 h (s_idx f0) (s_idx fl) = Some (blocks h fs, t)) as ->.
  { rewrite Efs in *. apply (gather_ok h B fs' 3 A); [done|done|cbn in Hlen; lia|done]. }
  cbn [mbind option_bind]. destruct combined_ok as (h2 & g & gi & l1 & -> & Hch). cbn [mbind option_bind].
  assert (List.hd_error (blocks h fs) = Some (FreeBlock (s_idx f0) (size_to_bin (s_len f0)) (place h f0))) as -> by by rewrite Efs.
  cbn [mbind option_bind index]. assert (f0 ∈ segs) as Hf0s by (rewrite !list.elem_of_app; tauto).
  destruct Hch as [Hc Hpl He Hone Hm Hv Ho Hb Hoth]. pose proof (cb_list _ _ _ _ Hc) as Hl2.
  assert (elt_at h2 (s_idx f0) = Some (velt elt_0 (elts h2) (s_idx f0))) as ->.
  { apply elt_at_ok. apply (chain_range _ None _ None _ (lr_chain _ _ Hl2)). rewrite !list.elem_of_app. right. left. by apply idxs_in. }
  cbn [mbind option_bind]. assert (offset (velt elt_0 (elts h2) (s_idx f0)) = s_off f0 + 2 ^ 31) as ->.
  { fold (off (elts h2) (s_idx f0)). rewrite Ho, (sc_off _ _ Hcore) by done. unfold s_word. by rewrite Hfree. }
  pose proof (sc_laid _ _ Hcore) as Hlaid. apply laid_app in Hlaid as (m & _ & Hlaid).
  destruct (delete_loop g bt (λ b i, b = bt ∧ i = gi) (first_word segs) ltac:(by intros b i [-> _]) B fs (blocks h fs) h2 l1 m) as (h3 & -> & Hc3 & Hm3 & Hz3 & Ho3 & Hbt3 & Hin3 & Hw3); [|done|by rewrite Hv|..].
  { unfold blocks, idxs. by rewrite <- list_fmap_compose. }
  { intros s Hs. assert (s ∈ segs) as Hs' by (rewrite list.elem_of_app; tauto). rewrite hoff_off, Ho, <- hoff_off by done. by apply (seg_elt _ _ Hcore). }
  { intros s Hs Hsg. split; [by intros ?%Hoth|]. apply Hb. left. apply (si_bins _ _ Hinv). exists s. rewrite !list.elem_of_app. split_and!; [tauto|by apply Hfree|done..]. }
  { rewrite list.elem_of_app. destruct Hpl as [ [-> ?]|[-> _] ]; [tauto|]. rewrite list.elem_of_app. left. right. by left. }
  cbn [mbind option_bind].
  assert (l1 ++ filter (λ i, i = g) (idxs fs) ++ idxs B = idxs A ++ g :: idxs B) as El.
  { pose proof (lr_nodup _ _ (sc_list _ _ Hcore)) as Hnd. rewrite !idxs_app, !NoDup_app in Hnd. rewrite filter_eq_one by apply Hnd.
    destruct Hpl as [ [-> Hg]|[-> Hg] ]; case_decide; try done. by rewrite <- app_assoc. }
  rewrite El in Hc3. destruct (combine_finish h3 g gi) as (h5 & E5 & H5); [done|by rewrite Hbt3|by intros i; rewrite Hbt3; apply Hone|by eapply same_misc_trans|by rewrite Hz3, Hv| | | |].
  - intros s Hs. rewrite Ho3; [apply Ho; rewrite !list.elem_of_app; tauto|]. rewrite list.elem_of_app. destruct Hs as [Hs%idxs_in|Hs%idxs_in]; [left|by right].
    destruct Hpl as [ [-> _]|[-> _] ]; [done|]. rewrite list.elem_of_app. by left.
  - intros e b. rewrite Hin3, Hb. split.
    + intros [Hin Hno]. destruct (decide (g = e ∧ bt = b)) as [|Hne]; [by right|]. destruct Hin as [Hin|]; [|done]. left. split; [done|]. intros (s & Hs & _ & <- & <-).
      destruct (decide (s_idx s = g)) as [Heq|Hsg]; [apply Hne; split; [done|symmetry; by apply Hoth]|]. apply Hno. by exists s.
    + intros [[Hin Hno]|[<- <-] ]; (split; [tauto|]); [|by intros (s & _ & ? & ? & _)]. intros (s & Hs & _ & <- & <-). apply Hno. exists s. split_and!; [done|by apply Hfree|done..].
  - intros o Hno. by rewrite Hw3, Hv.
  - by exists h5, g.
Qed.
End combine.
End HeapCombine.
