(* ===== verification/HeapDealloc.v ===== *)
(** * The heap of vppinfra: freeing a block

    [well_merged]: no two free blocks are next to each other.  [dealloc_elt] keeps it. *)

From stdpp Require Import gmap.
From S2P Require Import Prelude Bitmap Heap HeapChain HeapBins HeapSegs HeapCombine.
Open Scope Z_scope.

Module HeapDealloc.
Import Heap HeapChain HeapBins HeapSegs HeapCombine.

Implicit Types (segs A B : list seg) (s : seg).

Fixpoint well_merged segs : Prop :=
  match segs with
  | [] => True
  | s :: segs => (∀ s', hd_error segs = Some s' → ¬ (s_free s = true ∧ s_free s' = true)) ∧ well_merged segs
  end.

Lemma well_merged_app A B : well_merged (A ++ B) ↔ well_merged A ∧ well_merged B ∧ ∀ a b, last A = Some a → hd_error B = Some b → ¬ (s_free a = true ∧ s_free b = true).
Proof.
  induction A as [|a A IH]; cbn [app well_merged]; [split; [done|tauto]|]. rewrite IH. destruct A as [|a' A].
  - cbn [app hd_error last]. split; [intros (H1 & _ & H2 & _); split_and!; try done; intros ? b [= <-]; apply H1|]. intros ((_ & _) & H2 & H3). split_and!; try done. intros b. by apply H3.
  - change (last (a :: a' :: A)) with (last (a' :: A)). cbn [app hd_error]. tauto.
Qed.

Lemma well_merged_used A s B : s_free s = false → well_merged A → well_merged B → well_merged (A ++ s :: B).
Proof.
  intros Hs HA HB. apply well_merged_app. split_and!; [done| |intros a b _ [= <-]; intuition congruence]. cbn. split; [intuition congruence|done].
Qed.

Section neighbours.
Context (h : header) (A : list seg) (s : seg) (B : list seg) (Hcore : seg_core h (A ++ s :: B)) (Hs : s_free s = true).

(** The free block before it, if there is one. *)
Lemma free_before : ∃ A' L f0 p x, A = A' ++ L ∧ (L = [] ∨ ∃ a, L = [a]) ∧ (∀ y, y ∈ L → s_free y = true) ∧ (∀ a, L = [] → last A = Some a → s_free a = false) ∧
  hd_error (L ++ [s]) = Some f0 ∧ heap_prev h (s_idx s) = Some p ∧ elt_at h p = Some x ∧ (if negb (heap_is_free x) then s_idx s else p) = s_idx f0.
Proof using All.
  pose proof (sc_list _ _ Hcore) as Hl. rewrite idxs_middle in Hl. destruct (list_rep_middle _ _ _ _ Hl) as (_ & Hp & _). unfold idxs in Hp. rewrite fmap_last in Hp.
  assert (s ∈ A ++ s :: B) as Hin by (rewrite list.elem_of_app; right; by left).
  destruct (last A) as [a|] eqn:Hlast; cbn in Hp.
  - apply last_Some in Hlast as [A' ->]. assert (a ∈ (A' ++ [a]) ++ s :: B) as Ha by (rewrite !list.elem_of_app; left; right; by left). destruct (seg_elt _ _ Hcore _ Ha) as (Hx & Hxf & _).
    destruct (s_free a) eqn:Hf.
    + exists A', [a], a, (s_idx a). eexists. split_and!; [done|right; by exists a|by intros y ->%list_elem_of_singleton|done|done|done|exact Hx|]. by rewrite Hxf.
    + exists (A' ++ [a]), [], s, (s_idx a). eexists. split_and!; [by rewrite app_nil_r|by left|by intros y ?%not_elem_of_nil|by intros a' _ [= <-]|done|done|exact Hx|]. by rewrite Hxf.
  - apply last_None in Hlast as ->. destruct (seg_elt _ _ Hcore _ Hin) as (Hx & Hxf & _). exists [], [], s, (s_idx s). eexists.
    split_and!; [done|by left|by intros y ?%not_elem_of_nil|done|done|done|exact Hx|]. by destruct (negb _).
Qed.

(** The free block after it. *)
Lemma free_after : ∃ R B' fl n x, B = R ++ B' ∧ (R = [] ∨ ∃ b, R = [b]) ∧ (∀ y, y ∈ R → s_free y = true) ∧ (∀ b, R = [] → hd_error B = Some b → s_free b = false) ∧
  last (s :: R) = Some fl ∧ heap_next h (s_idx s) = Some n ∧ elt_at h n = Some x ∧ (if negb (heap_is_free x) then s_idx s else n) = s_idx fl.
Proof using All.
  pose proof (sc_list _ _ Hcore) as Hl. rewrite idxs_middle in Hl. destruct (list_rep_middle _ _ _ _ Hl) as (_ & _ & Hn & _).
  assert (s ∈ A ++ s :: B) as Hin by (rewrite list.elem_of_app; right; by left).
  destruct B as [|b B']; cbn in Hn.
  - destruct (seg_elt _ _ Hcore _ Hin) as (Hx & Hxf & _). exists [], [], s, (s_idx s). eexists.
    split_and!; [done|by left|by intros y ?%not_elem_of_nil|done|done|done|exact Hx|]. by destruct (negb _).
  - assert (b ∈ A ++ s :: b :: B') as Hb by (rewrite list.elem_of_app; right; right; by left). destruct (seg_elt _ _ Hcore _ Hb) as (Hx & Hxf & _).
    destruct (s_free b) eqn:Hf.
    + exists [b], B', b, (s_idx b). eexists. split_and!; [done|right; by exists b|by intros y ->%list_elem_of_singleton|done|done|done|exact Hx|]. by rewrite Hxf.
    + exists [], (b :: B'), s, (s_idx b). eexists. split_and!; [done|by left|by intros y ?%not_elem_of_nil|by intros b' _ [= <-]|done|done|exact Hx|]. by rewrite Hxf.
Qed.
End neighbours.

(** A used block becomes free, with the free ones next to it. *)
Lemma dealloc_elt_ok h A s B : seg_inv h (A ++ s :: B) → s_free s = false → well_merged (A ++ s :: B) →
  ∃ h' A' L f R B', dealloc_elt h (s_idx s) = Some h' ∧ A = A' ++ L ∧ B = R ++ B' ∧ (∀ x, x ∈ L ∨ x ∈ R → s_free x = true) ∧ s_free f = true ∧ (∀ b, hd_error B = Some b → s_free b = false → R = []) ∧
    (∀ a, last A = Some a → s_free a = false → L = []) ∧
    seg_inv h' (A' ++ f :: B') ∧ well_merged (A' ++ f :: B') ∧ same_misc h h' ∧ zlen (vec h') = zlen (vec h) ∧
    ∀ o, ¬ first_word (A ++ s :: B) o → o ≠ s_off s → velt 0 (vec h') o = velt 0 (vec h) o.
Proof.
  intros Hinv Hu Hwm. unfold dealloc_elt. rewrite (seg_size h A s B) by apply Hinv. cbn [mbind option_bind].
  destruct (free_seg_ok h A s B Hinv Hu) as (h1 & l & h2 & -> & -> & Hinv2 & Hm2 & Hz2 & Hw2). cbn [mbind option_bind].
  destruct (free_before h2 A (to_free s) B (si_core _ _ Hinv2) eq_refl) as (A' & L & f0 & p & x & -> & HL & HLf & HLn & Hf0 & Hp & Hx & Hpe). cbn [to_free s_idx] in Hp, Hpe. rewrite Hp. cbn [mbind option_bind]. rewrite Hx. cbn [mbind option_bind].
  destruct (free_after h2 (A' ++ L) (to_free s) B (si_core _ _ Hinv2) eq_refl) as (R & B' & fl & n & y & -> & HR & HRf & HRn & Hfl & Hn & Hy & Hne). cbn [to_free s_idx] in Hn, Hne. rewrite Hn. cbn [mbind option_bind]. rewrite Hy. cbn [mbind option_bind].
  rewrite Hpe, Hne.
  apply well_merged_app in Hwm as (HwA & HwB & _). cbn [well_merged] in HwB. destruct HwB as [_ HwB]. apply well_merged_app in HwA as (HwA & _ & HwL). apply well_merged_app in HwB as (_ & HwB & HwR).
  assert (∀ f, s_free f = true → well_merged (A' ++ f :: B')) as Hwm'.
  { intros f Hf. apply well_merged_app. split_and!; [done| |].
    - split; [|done]. intros b Hb [_ Hbf]. destruct HR as [->|[r ->] ]; [by rewrite (HRn b eq_refl Hb) in Hbf|]. apply (HwR r b eq_refl Hb). split; [apply HRf; by left|done].
    - intros a f' Ha [= <-] [Haf _]. destruct HL as [->|[l' ->] ]; [rewrite app_nil_r in HLn; by rewrite (HLn a eq_refl Ha) in Haf|]. apply (HwL a l' Ha eq_refl). split; [done|apply HLf; by left]. }
  set (fs := L ++ to_free s :: R). assert ((A' ++ L) ++ to_free s :: R ++ B' = A' ++ fs ++ B') as Efs by (unfold fs; by rewrite <- !app_assoc). rewrite Efs in Hinv2.
  assert (hd_error fs = Some f0 ∧ last fs = Some fl ∧ (length fs ≤ 3)%nat ∧ ∀ x, x ∈ fs → s_free x = true) as (Hh & Ht & Hlen & Hff).
  { unfold fs. split_and!.
    - by destruct L.
    - by rewrite last_app, Hfl.
    - rewrite length_app. destruct HL as [->|[? ->] ], HR as [->|[? ->] ]; cbn; lia.
    - intros z. rewrite list.elem_of_app, list.elem_of_cons. intros [?|[->|?] ]; auto. }
  assert (∀ b, hd_error (R ++ B') = Some b → s_free b = false → R = []) as HR0. { intros b Hb Hbf. destruct R as [|r R]; [done|]. injection Hb as ->. rewrite HRf in Hbf; [done|by left]. }
  assert (∀ a, last (A' ++ L) = Some a → s_free a = false → L = []) as HL0.
  { intros a Ha Haf. destruct HL as [->|[l' ->] ]; [done|]. rewrite last_snoc in Ha. injection Ha as ->. rewrite HLf in Haf; [done|by left]. }
  destruct (Z.eqb_spec (s_idx f0) (s_idx fl)) as [Heq|Hneq]; cbn [negb].
  - assert (L = [] ∧ R = []) as [-> ->].
    { pose proof (lr_nodup _ _ (sc_list _ _ (si_core _ _ Hinv2))) as Hnd. rewrite !idxs_app, !NoDup_app in Hnd. destruct Hnd as (_ & _ & Hnd & _). destruct fs as [|f' [|f'' fs'] ] eqn:E; [done|unfold fs in E; destruct L as [|? [|] ], R; done|].
      injection Hh as ->. apply NoDup_cons in Hnd as [Hno _]. destruct Hno. rewrite Heq. apply (idxs_in (f'' :: fs')), last_Some_elem_of. exact Ht. }
    exists h2, A', [], (to_free s), [], B'. split_and!; try done; [by intros x' [?%not_elem_of_nil|?%not_elem_of_nil]|by apply Hwm'|]. intros o _ Ho. by apply Hw2.
  - destruct (combine_free_blocks_ok h2 A' fs B' f0 Hinv2 Hff Hh fl Ht Hlen) as (h' & g & -> & Hinv' & Hm' & Hz' & Hw').
    exists h', A', L. eexists. exists R, B'. split_and!; [done..|by intros x' [?|?]; auto| |done|done|exact Hinv'|by apply Hwm'|by eapply same_misc_trans|by rewrite Hz'|]; [done|].
    intros o Ho1 Ho2. rewrite Hw'; [by apply Hw2|]. intros (z & Hz & Hzf & <-). rewrite <- Efs, !list.elem_of_app, !list.elem_of_cons in Hz. rewrite <- !list.elem_of_app in Hz.
    destruct Hz as [Hz|[->|Hz] ]; [|done|]; apply Ho1; exists z; rewrite !list.elem_of_app, list.elem_of_cons in *; rewrite ?list.elem_of_app in *; tauto.
Qed.
End HeapDealloc.
