(* ===== verification/HeapAllocElt.v ===== *)
(** * The heap of vppinfra: a block for an allocation

    [alloc_elt] gets a used block from the free lists or from the end of the vector; [align_elt] cuts an aligned block out of it. *)

From stdpp Require Import gmap.
From S2P Require Import Prelude Bitmap Heap HeapChain HeapBins HeapSegs HeapTake HeapCombine HeapDealloc.
Open Scope Z_scope.

Module HeapAllocElt.
Import Heap HeapChain HeapBins HeapSegs HeapTake HeapCombine HeapDealloc.

Implicit Types (segs A B : list seg) (s : seg).

(** The used blocks, and that their words are the same. *)
Definition used segs : list seg := filter (λ s, s_free s = false) segs.
Definition kept (h h' : header) (l : list seg) : Prop := ∀ s o, s ∈ l → s_off s ≤ o < s_off s + s_len s → velt 0 (vec h') o = velt 0 (vec h) o.

Lemma used_app A B : used (A ++ B) = used A ++ used B.
Proof. apply filter_app. Qed.

Lemma used_free L : (∀ x, x ∈ L → s_free x = true) → used L = [].
Proof.
  induction L as [|x L IH]; intros Hf; [done|]. unfold used. rewrite filter_cons_False by (rewrite Hf; [done|by left]). apply IH. intros y Hy. apply Hf. by right.
Qed.

Lemma used_cons s B : used (s :: B) = if s_free s then used B else s :: used B.
Proof. unfold used. destruct (s_free s) eqn:E; [by rewrite filter_cons_False by (by rewrite E)|by rewrite filter_cons_True]. Qed.

Lemma used_in segs s : s ∈ used segs ↔ s ∈ segs ∧ s_free s = false.
Proof. unfold used. rewrite list_elem_of_filter. tauto. Qed.

Lemma kept_trans h1 h2 h3 l : kept h1 h2 l → kept h2 h3 l → kept h1 h3 l.
Proof. intros H1 H2 s o Hs Ho. rewrite (H2 s o Hs Ho). by apply (H1 s). Qed.

Lemma kept_sub h h' l l' : (∀ s, s ∈ l' → s ∈ l) → kept h h' l → kept h h' l'.
Proof. intros Hsub Hk s o Hs. by apply Hk, Hsub. Qed.

(** The words that are not the first ones of free blocks. *)
Lemma kept_used h h' segs o' : laid 0 segs o' → (∀ o, ¬ first_word segs o → velt 0 (vec h') o = velt 0 (vec h) o) → kept h h' (used segs).
Proof. intros Hl Hw s o [Hs Hf]%used_in Ho. apply Hw. by apply (used_not_first 0 segs o' s). Qed.

(** ** The end of the vector *)

(** The element after the last one; the first one of an empty heap is its own neighbour. *)
Lemma append_elt h segs v : seg_core h segs → ∃ h2 e h3 h4, elt_new (set_vec v h) = Some (h2, e) ∧ upd e (set_offset (zlen (vec h))) h2 = Some h3 ∧
  elt_insert_after h3 (tail h3) e = Some h4 ∧ list_rep h4 (idxs segs ++ [e]) ∧ fresh_rep h4 (idxs segs ++ [e]) ∧ frame (set_vec v h) h4 (idxs segs) ∧ off (elts h4) e = zlen (vec h).
Proof.
  intros Hcore. destruct segs as [|s segs _] using rev_ind.
  - destruct (sc_empty _ _ Hcore eq_refl) as (He & Hf & Hh & Ht). destruct h as [w es fe fl bm hd tl uc ml]. cbn [elts free_elts head tail] in *. subst. cbn [vec].
    eexists _, 0, _, _. split; [reflexivity|]. split; [reflexivity|]. split; [reflexivity|]. split_and!; cbn.
    + constructor; cbn; try done. apply NoDup_singleton.
    + split; cbn; [apply NoDup_nil_2|by intros i ?%not_elem_of_nil].
    + constructor; try done. by intros i ?%not_elem_of_nil.
    + done.
  - pose proof (sc_list _ _ Hcore) as Hl. pose proof (sc_fresh _ _ Hcore) as Hf. rewrite idxs_app in Hl, Hf. change (idxs [s]) with [s_idx s] in Hl, Hf.
    assert (list_rep (set_vec v h) (idxs segs ++ [s_idx s])) as Hl' by (by destruct Hl).
    destruct (place_after_ok (set_vec v h) (idxs segs) (s_idx s) [] (zlen (vec h)) Hl') as (h2 & e & h3 & h4 & E1 & E2 & E3 & [Hfr Hl4 Hf4 _ Ho] & Ht); [by destruct Hf|].
    exists h2, e, h3, h4. assert (tail h3 = s_idx s) as ->. { rewrite Ht. cbn [tail set_vec]. pose proof (lr_tail _ _ Hl) as Htl. rewrite last_snoc in Htl. specialize (Htl ltac:(by destruct (idxs segs))). congruence. }
    rewrite idxs_app, <- app_assoc. by split_and!.
Qed.

Lemma append_block_ok h segs n : seg_inv h segs → 0 < n → zlen (vec h) + n < 2 ^ 31 →
  ∃ h2 e h3 h4, elt_new (set_vec (vec h ++ replicate (Z.to_nat n) 0) h) = Some (h2, e) ∧ upd e (set_offset (zlen (vec h))) h2 = Some h3 ∧ elt_insert_after h3 (tail h3) e = Some h4 ∧
    seg_inv h4 (segs ++ [Seg e (zlen (vec h)) n false]) ∧ same_misc h h4 ∧ vec h4 = vec h ++ replicate (Z.to_nat n) 0.
Proof.
  intros Hinv Hn Hsmall. pose proof (si_core _ _ Hinv) as Hcore. set (h1 := set_vec _ h). set (new := λ e, Seg e (zlen (vec h)) n false).
  assert (zlen (vec h1) = zlen (vec h) + n) as Hz1 by (cbn [h1 vec set_vec]; rewrite zlen_app, zlen_replicate; lia).
  assert (∃ h2 e h3 h4, elt_new h1 = Some (h2, e) ∧ upd e (set_offset (zlen (vec h))) h2 = Some h3 ∧ elt_insert_after h3 (tail h3) e = Some h4 ∧
    list_rep h4 (idxs segs ++ [e]) ∧ fresh_rep h4 (idxs segs ++ [e]) ∧ frame h1 h4 (idxs segs) ∧ off (elts h4) e = zlen (vec h)) as (h2 & e & h3 & h4 & E1 & E2 & E3 & Hl4 & Hf4 & Hfr4 & Ho4).
  { by apply append_elt. }
  exists h2, e, h3, h4. split_and!; [done..| | |by rewrite (fr_vec _ _ _ Hfr4)]; [|by destruct Hfr4; split_and!].
  assert (∀ s, s ∈ segs → off (elts h4) (s_idx s) = off (elts h) (s_idx s)) as Hoff.
  { intros s Hs. destruct (block_range _ _ Hcore _ Hs). apply (fr_off _ _ _ Hfr4); [by apply idxs_in|done]. }
  pose proof (seg_inv_used h h4 segs [] [new e] []) as Hu. rewrite !app_nil_r in Hu. apply Hu; [done|by intros s ?%not_elem_of_nil|by intros s ->%list_elem_of_singleton| |apply Hfr4| | |].
  - pose proof (core_replace h h4 segs [] [new e] []) as Hr. rewrite !app_nil_r in Hr. apply Hr; [done|by rewrite idxs_app|by rewrite idxs_app| | | | |by destruct segs].
    + rewrite (fr_vec _ _ _ Hfr4), Hz1. apply laid_app. exists (zlen (vec h)). split; [apply Hcore|]. cbn. done.
    + rewrite (fr_vec _ _ _ Hfr4), Hz1. lia.
    + intros s [Hs|Hs%not_elem_of_nil]; [by apply Hoff|done].
    + intros s ->%list_elem_of_singleton. unfold s_word. cbn. by rewrite Ho4, Z.add_0_r.
  - rewrite (fr_vec _ _ _ Hfr4), Hz1. lia.
  - intros s [Hs|Hs%not_elem_of_nil]; [by apply Hoff|done].
  - intros o Ho. rewrite (fr_vec _ _ _ Hfr4). cbn [h1 vec set_vec]. unfold velt. by rewrite vget_app_l by lia.
Qed.

(** ** A used block of a given size *)

Lemma taken_merged A f B n u : s_free f = true → well_merged (A ++ f :: B) →
  ∃ A', A ++ taken f n u ++ B = A' ++ Seg u (s_off f + (s_len f - n)) n false :: B ∧ well_merged (A' ++ Seg u (s_off f + (s_len f - n)) n false :: B) ∧ used A' = used A.
Proof.
  intros Hf Hwm. apply well_merged_app in Hwm as (HA & HB & Hadj). unfold taken. destruct (s_len f - n =? 0).
  - exists A. split_and!; [done| |done]. apply well_merged_used; [done..|apply HB].
  - set (f' := Seg _ _ _ true). exists (A ++ [f']). rewrite <- !app_assoc. split_and!; [done| |rewrite used_app; cbn; by rewrite app_nil_r].
    change (well_merged (A ++ [f'] ++ Seg u (s_off f + (s_len f - n)) n false :: B)). rewrite app_assoc. apply well_merged_used; [done| |apply HB].
    apply well_merged_app. split_and!; [done|done|]. intros a b Ha [= <-]. cbn. intros [Haf _]. by apply (Hadj a f Ha).
Qed.

Lemma alloc_elt_ok h segs n : seg_inv h segs → well_merged segs → fits n → 0 < n → zlen (vec h) + n < 2 ^ 31 →
  (∃ h' A e o B, alloc_elt h n = Some (Some (h', e)) ∧ seg_inv h' (A ++ Seg e o n false :: B) ∧ well_merged (A ++ Seg e o n false :: B) ∧ used A ++ used B = used segs ∧
    same_misc h h' ∧ zlen (vec h) ≤ zlen (vec h') ≤ zlen (vec h) + n ∧ kept h h' (used segs)) ∨
  (alloc_elt h n = Some None ∧ max_len h ≠ 0 ∧ max_len h < zlen (vec h) + n ∧ ∀ s, s ∈ segs → s_free s = true → s_len s < n).
Proof.
  intros Hinv Hwm Hfits Hn Hsmall. pose proof (zlen_nonneg (vec h)) as Hnn. pose proof (sc_laid _ _ (si_core _ _ Hinv)) as Hlaid. unfold alloc_elt.
  destruct (search_free_list_ok h segs n Hinv Hfits ltac:(lia)) as [(A & f & B & h' & u & -> & Hf & Hle & -> & Hinv' & Hm & Hz & Hw)|[-> Hno] ]; cbn [mbind option_bind].
  - left. destruct (taken_merged A f B n u Hf Hwm) as (A' & Et & Hwm' & Hu). rewrite Et in Hinv'. exists h', A', u. do 2 eexists. split_and!; [done|exact Hinv'|done| |done|lia|lia|].
    + rewrite used_app, used_cons, Hf, Hu. done.
    + by apply (kept_used _ _ _ _ Hlaid).
  - destruct (negb (max_len h =? 0) && (max_len h <? zlen (vec h) + n)) eqn:Hmax; [right; split_and!; [done|lia|lia|done]|]. left.
    destruct (append_block_ok h segs n Hinv Hn Hsmall) as (h2 & e & h3 & h4 & -> & E2 & E3 & Hinv4 & Hm & Hv). cbn [mbind option_bind]. rewrite u32_small by (unfold_ranges; lia).
    rewrite E2. cbn [mbind option_bind]. rewrite E3. cbn [mbind option_bind]. exists h4, segs, e, (zlen (vec h)), [].
    rewrite Hv, zlen_app, zlen_replicate. split_and!; [done|done| |by rewrite app_nil_r|done|lia|lia|].
    + by apply well_merged_used.
    + intros s o [Hs _]%used_in Ho. destruct (block_range _ _ (si_core _ _ Hinv) _ Hs). rewrite Hv. unfold velt. by rewrite vget_app_l by lia.
Qed.

(** ** Fragments *)

(** The used blocks keep their words when a block is freed. *)
Lemma kept_dealloc h h' A s B : seg_core h (A ++ s :: B) → s_free s = false →
  (∀ o, ¬ first_word (A ++ s :: B) o → o ≠ s_off s → velt 0 (vec h') o = velt 0 (vec h) o) → kept h h' (used A ++ used B).
Proof.
  intros Hcore Hs Hw x o Hx Ho. assert (x ∈ A ++ s :: B ∧ s_free x = false ∧ x ≠ s) as (Hin & Hu & Hne).
  { rewrite list.elem_of_app, !used_in in Hx. rewrite list.elem_of_app, list.elem_of_cons. split_and!; [tauto|tauto|]. intros ->.
    pose proof (lr_nodup _ _ (sc_list _ _ Hcore)) as Hnd. rewrite idxs_middle, NoDup_app in Hnd. destruct Hnd as (_ & Hd & Hnd). apply NoDup_cons in Hnd as [Hno _].
    destruct Hx as [ [Hx _]|[Hx _] ]; apply idxs_in in Hx; [apply (Hd _ Hx); by left|done]. }
  apply Hw; [by apply (used_not_first 0 _ _ x o (sc_laid _ _ Hcore))|]. assert (s ∈ A ++ s :: B) as Hsin by (rewrite list.elem_of_app; right; by left).
  destruct (laid_disjoint _ _ _ x s (sc_laid _ _ Hcore) Hin Hsin Hne), (laid_in _ _ _ _ (sc_laid _ _ Hcore) Hsin); lia.
Qed.

Section fragments.
Context (h : header) (A : list seg) (e o n : Z) (B : list seg).
Context (Hinv : seg_inv h (A ++ Seg e o n false :: B)) (Hwm : well_merged (A ++ Seg e o n false :: B)).

Abbreviation old := (Seg e o n false).

Lemma old_in : old ∈ A ++ old :: B.
Proof. rewrite list.elem_of_app. right. by left. Qed.

(** The state with a new offset of the block. *)
Lemma old_offset x : ∃ es, upd e (set_offset x) h = Some (set_elts es h) ∧ list_rep (set_elts es h) (idxs A ++ e :: idxs B) ∧ fresh_rep (set_elts es h) (idxs A ++ e :: idxs B) ∧ off es e = x ∧
  ∀ s, s ∈ A ∨ s ∈ B → off es (s_idx s) = off (elts h) (s_idx s) ∧ 0 ≤ s_idx s < zlen es.
Proof using All.
  pose proof (si_core _ _ Hinv) as Hcore. destruct (block_range _ _ Hcore _ old_in) as (He & _). destruct (upd_offset_ok h e x He) as (es & E & Hes & Hoff & Hrep).
  pose proof (sc_list _ _ Hcore) as Hl. pose proof (sc_fresh _ _ Hcore) as Hf. rewrite idxs_middle in Hl, Hf. cbn [s_idx] in Hl, Hf. destruct (list_rep_middle _ _ _ _ Hl) as (_ & _ & _ & HnA & HnB).
  exists es. split_and!; [done|by apply Hrep| |by rewrite Hoff, decide_True|].
  - destruct Hf as [Hf1 Hf2]. split; [done|]. intros i Hi. cbn [elts set_elts]. rewrite Hes. by apply Hf2.
  - intros s Hs. rewrite Hes. rewrite Hoff, decide_False by (intros <-; destruct Hs as [?%idxs_in|?%idxs_in]; done). split; [done|]. apply (block_range _ _ Hcore). rewrite list.elem_of_app, list.elem_of_cons. tauto.
Qed.

Lemma before_ok k : 0 ≤ k < n → ∃ h1 h2 A', upd e (set_offset (o + k)) h = Some h1 ∧ (if o <? o + k then free_fragment elt_insert_before h1 e o else Some h1) = Some h2 ∧
  seg_inv h2 (A' ++ Seg e (o + k) (n - k) false :: B) ∧ well_merged (A' ++ Seg e (o + k) (n - k) false :: B) ∧ used A' = used A ∧ same_misc h h2 ∧ zlen (vec h2) = zlen (vec h) ∧ kept h h2 (used A ++ used B).
Proof using All.
  intros Hk. pose proof (si_core _ _ Hinv) as Hcore. destruct (old_offset (o + k)) as (es & E1 & Hl1 & Hf1 & Ho1 & Hoff1). exists (set_elts es h). rewrite E1.
  pose proof (sc_laid _ _ Hcore) as Hlaid. apply laid_middle in Hlaid as (HlA & _ & HlB). cbn [s_off s_len] in HlA, HlB. pose proof (sc_small _ _ Hcore) as Hsmall.
  pose proof Hwm as Hwm'. apply well_merged_app in Hwm' as (HA & HB & _). destruct (Z.ltb_spec o (o + k)) as [Hlt|Hge].
  - destruct (place_before_ok _ _ _ _ o Hl1 Hf1) as (h2 & u & h3 & h4 & E2 & E3 & E4 & [Hfr Hl4 Hf4 Hu Ho4]). set (C := [Seg u o k false; Seg e (o + k) (n - k) false]).
    assert (∀ s, s ∈ A ∨ s ∈ B → off (elts h4) (s_idx s) = off (elts h) (s_idx s)) as Hoff4.
    { intros s Hs. destruct (Hoff1 s Hs) as [Hos Hsr]. rewrite <- Hos. apply (fr_off _ _ _ Hfr); [|done]. rewrite list.elem_of_app, list.elem_of_cons. destruct Hs as [?%idxs_in|?%idxs_in]; tauto. }
    assert (vec h4 = vec h) as Hv by apply (fr_vec _ _ _ Hfr).
    assert (seg_core h4 (A ++ C ++ B)) as Hcore4.
    { apply (core_replace h h4 A [old] C B); [done|by rewrite !idxs_app|by rewrite !idxs_app| |by rewrite Hv|done| |by destruct A].
      - rewrite Hv. apply laid_app. exists o. split; [done|]. unfold C. cbn [app laid s_off s_len]. split_and!; try done; try lia. by replace (o + k + (n - k)) with (o + n) by lia.
      - intros s [->| ->%list_elem_of_singleton]%list.elem_of_cons; unfold s_word; cbn [s_idx s_off s_free]; rewrite Z.add_0_r; [done|].
        rewrite <- Ho1. apply (fr_off _ _ _ Hfr); [rewrite list.elem_of_app; right; by left|]. by destruct (list_rep_middle _ _ _ _ Hl1). }
    assert (seg_inv h4 (A ++ C ++ B)) as Hinv4.
    { apply (seg_inv_used h h4 A [old] C B); [done|by intros s ->%list_elem_of_singleton| |done|apply Hfr|by rewrite Hv|done|by rewrite Hv]. intros s [->| ->%list_elem_of_singleton]%list.elem_of_cons; done. }
    destruct (dealloc_elt_ok h4 A (Seg u o k false) (Seg e (o + k) (n - k) false :: B) Hinv4 eq_refl) as (h' & A' & L & f & R & B' & E5 & HAe & HBe & HLR & Hf & HR & _ & Hinv' & Hwm' & Hm' & Hz' & Hw').
    { apply well_merged_used; [done..|]. by apply (well_merged_used [] (Seg e (o + k) (n - k) false) B); [| |apply HB]. }
    pose proof (HR _ eq_refl eq_refl) as ->. cbn [app] in HBe. subst B'. exists h', (A' ++ [f]). rewrite <- !app_assoc.
    unfold free_fragment. rewrite E2. cbn [mbind option_bind fst snd]. rewrite E3. cbn [mbind option_bind]. rewrite E4. cbn [mbind option_bind]. cbn [s_idx] in E5.
    split_and!; [done|done|exact Hinv'|exact Hwm'| | |by rewrite Hz', Hv|].
    + rewrite HAe, !used_app, (used_free L) by (intros; apply HLR; tauto). rewrite (used_free [f]) by (by intros x ->%list_elem_of_singleton). done.
    + eapply same_misc_trans; [|done]. by destruct Hfr; split_and!.
    + apply (kept_trans _ h4); [intros s x _ _; by rewrite Hv|]. apply (kept_sub _ _ (used A ++ used (Seg e (o + k) (n - k) false :: B))); [|apply (kept_dealloc _ _ _ _ _ Hcore4 eq_refl Hw')].
      intros s. rewrite used_cons. cbn [s_free]. rewrite !list.elem_of_app, list.elem_of_cons. tauto.
  - assert (k = 0) as -> by lia. exists (set_elts es h), A. rewrite Z.add_0_r in *. rewrite Z.sub_0_r.
    assert (∀ s, s ∈ A ∨ s ∈ B → off es (s_idx s) = off (elts h) (s_idx s)) as Hoff by (intros s Hs; by apply Hoff1).
    split_and!; try done. apply (seg_inv_used h _ A [old] [old] B); try done; [by intros s ->%list_elem_of_singleton..|].
    apply (core_replace h _ A [old] [old] B); try done; [by rewrite !idxs_app|by rewrite !idxs_app|apply Hcore| |by destruct A].
    intros s ->%list_elem_of_singleton. unfold s_word. cbn. by rewrite Z.add_0_r.
Qed.

Lemma after_ok size : 0 < size ≤ n → ∃ h2 B', (if o + size <? o + n then free_fragment elt_insert_after h e (u32 (o + size)) else Some h) = Some h2 ∧
  seg_inv h2 (A ++ Seg e o size false :: B') ∧ well_merged (A ++ Seg e o size false :: B') ∧ used B' = used B ∧ same_misc h h2 ∧ zlen (vec h2) = zlen (vec h) ∧ kept h h2 (used A ++ used B).
Proof using All.
  intros Hsize. pose proof (si_core _ _ Hinv) as Hcore. destruct (Z.ltb_spec (o + size) (o + n)) as [Hlt|Hge].
  - destruct (block_range _ _ Hcore _ old_in) as (He & Ho & _ & Hv & Hsmall). cbn [s_idx s_off s_len] in He, Ho, Hv. rewrite u32_small by (unfold_ranges; lia).
    pose proof (sc_laid _ _ Hcore) as Hlaid. apply laid_middle in Hlaid as (HlA & _ & HlB). cbn [s_off s_len] in HlA, HlB.
    pose proof Hwm as Hwm'. apply well_merged_app in Hwm' as (HA & HB & _). pose proof (sc_list _ _ Hcore) as Hl. pose proof (sc_fresh _ _ Hcore) as Hf. rewrite idxs_middle in Hl, Hf.
    destruct (place_after_ok _ _ _ _ (o + size) Hl Hf) as (h2 & u & h3 & h4 & E2 & E3 & E4 & [Hfr Hl4 Hf4 Hu Ho4] & _). cbn [s_idx] in E4, Hl4, Hf4, Hfr. set (C := [Seg e o size false; Seg u (o + size) (n - size) false]).
    assert (∀ s, s ∈ A ++ old :: B → off (elts h4) (s_idx s) = off (elts h) (s_idx s)) as Hoff4.
    { intros s Hs. apply (fr_off _ _ _ Hfr); [|by apply (block_range _ _ Hcore)]. apply idxs_in in Hs. by rewrite idxs_middle in Hs. }
    assert (∀ s, s ∈ A ∨ s ∈ B → off (elts h4) (s_idx s) = off (elts h) (s_idx s)) as HoffAB by (intros s Hs; apply Hoff4; rewrite list.elem_of_app, list.elem_of_cons; tauto).
    assert (vec h4 = vec h) as Hv4 by apply (fr_vec _ _ _ Hfr).
    assert (seg_core h4 (A ++ C ++ B)) as Hcore4.
    { apply (core_replace h h4 A [old] C B); [done|by rewrite !idxs_app|by rewrite !idxs_app| |by rewrite Hv4|done| |by destruct A].
      - rewrite Hv4. apply laid_app. exists o. split; [done|]. unfold C. cbn [app laid s_off s_len]. split_and!; try done; try lia. by replace (o + size + (n - size)) with (o + n) by lia.
      - intros s [->| ->%list_elem_of_singleton]%list.elem_of_cons; unfold s_word; cbn [s_idx s_off s_free]; rewrite Z.add_0_r; [|done].
        pose proof (Hoff4 old old_in) as E. cbn [s_idx] in E. rewrite E. pose proof (sc_off _ _ Hcore old old_in) as E'. unfold s_word in E'. cbn in E'. lia. }
    assert (seg_inv h4 (A ++ C ++ B)) as Hinv4.
    { apply (seg_inv_used h h4 A [old] C B); [done|by intros s ->%list_elem_of_singleton| |done|apply Hfr|by rewrite Hv4|done|by rewrite Hv4]. intros s [->| ->%list_elem_of_singleton]%list.elem_of_cons; done. }
    assert (A ++ C ++ B = (A ++ [Seg e o size false]) ++ Seg u (o + size) (n - size) false :: B) as EC by (unfold C; by rewrite <- app_assoc). rewrite EC in Hcore4, Hinv4.
    destruct (dealloc_elt_ok h4 (A ++ [Seg e o size false]) (Seg u (o + size) (n - size) false) B Hinv4 eq_refl) as (h' & A' & L & f & R & B' & E5 & HAe & HBe & HLR & Hff & _ & HLn & Hinv' & Hwm' & Hm' & Hz' & Hw').
    { apply well_merged_used; [done| |apply HB]. apply (well_merged_used A (Seg e o size false) []); done. }
    rewrite last_snoc in HLn. pose proof (HLn _ eq_refl eq_refl) as ->. rewrite app_nil_r in HAe. subst A'. rewrite <- app_assoc in Hinv', Hwm'. exists h', (f :: B').
    unfold free_fragment. rewrite E2. cbn [mbind option_bind fst snd]. rewrite E3. cbn [mbind option_bind]. rewrite E4. cbn [mbind option_bind]. cbn [s_idx] in E5.
    split_and!; [done|exact Hinv'|exact Hwm'| | |by rewrite Hz', Hv4|].
    + rewrite HBe, used_app, used_cons, Hff, (used_free R) by (intros; apply HLR; tauto). done.
    + eapply same_misc_trans; [|done]. by destruct Hfr; split_and!.
    + apply (kept_trans _ h4); [intros s x _ _; by rewrite Hv4|]. apply (kept_sub _ _ (used (A ++ [Seg e o size false]) ++ used B)); [|apply (kept_dealloc _ _ _ _ _ Hcore4 eq_refl Hw')].
      intros s. rewrite used_app, !list.elem_of_app. tauto.
  - assert (size = n) as -> by lia. by exists h, B.
Qed.
End fragments.

(** The offset rounded up. *)
Lemma align_up o j : 0 ≤ j < 31 → 0 ≤ o < 2 ^ 31 → ∃ k, Z.land (o + 2 ^ j - 1) (u64_max - (2 ^ j - 1)) = o + k ∧ 0 ≤ k < 2 ^ j ∧ (o + k) mod 2 ^ j = 0.
Proof.
  intros Hj Ho. pose proof (Z.pow_pos_nonneg 2 j ltac:(lia) ltac:(lia)) as Hp. pose proof (Z.pow_lt_mono_r 2 j 31 ltac:(lia) ltac:(lia) ltac:(lia)) as Hp31.
  set (x := o + 2 ^ j - 1). pose proof (Z.mod_pos_bound x (2 ^ j) Hp) as Hm. pose proof (Z.div_mod x (2 ^ j) ltac:(lia)) as Hd.
  assert (Z.land x (u64_max - (2 ^ j - 1)) = x - x mod 2 ^ j) as ->.
  { replace (u64_max - (2 ^ j - 1)) with (Z.shiftl (Z.ones (64 - j)) j) by (rewrite Z.shiftl_mul_pow2, Z.ones_equiv by lia; unfold Z.pred; rewrite Z.mul_add_distr_r, <- Z.pow_add_r by lia; replace (64 - j + j) with 64 by lia; unfold u64_max; lia).
    replace (x - x mod 2 ^ j) with (Z.shiftl (Z.shiftr x j) j) by (rewrite Z.shiftl_mul_pow2, Z.shiftr_div_pow2 by lia; lia). apply Z.bits_inj'. intros m Hmm.
    rewrite Z.land_spec, !Z.shiftl_spec by lia. destruct (Z.ltb_spec m j); [by rewrite !(Z.testbit_neg_r _ (m - j)), andb_false_r by lia|]. rewrite Z.shiftr_spec by lia. replace (m - j + j) with m by lia.
    destruct (Z.ltb_spec m 64); [by rewrite Z.ones_spec_low, andb_true_r by lia|]. rewrite Z.ones_spec_high, andb_false_r by lia. symmetry. apply (testbit_high x 64); lia. }
  exists (2 ^ j - 1 - x mod 2 ^ j). split_and!; [lia|lia|lia|]. replace (o + (2 ^ j - 1 - x mod 2 ^ j)) with (2 ^ j * (x / 2 ^ j)) by lia. by rewrite Z.mul_comm, Z.mod_mul by lia.
Qed.

Lemma align_elt_ok h A e o B size j : 0 ≤ j < 31 → 0 < size → seg_inv h (A ++ Seg e o (size + 2 ^ j - 1) false :: B) → well_merged (A ++ Seg e o (size + 2 ^ j - 1) false :: B) →
  ∃ h' A' o' B', align_elt h e size (2 ^ j) (size + 2 ^ j - 1) = Some h' ∧ seg_inv h' (A' ++ Seg e o' size false :: B') ∧ well_merged (A' ++ Seg e o' size false :: B') ∧ o' mod 2 ^ j = 0 ∧
    used A' = used A ∧ used B' = used B ∧ same_misc h h' ∧ zlen (vec h') = zlen (vec h) ∧ kept h h' (used A ++ used B).
Proof.
  intros Hj Hs Hinv Hwm. set (n := size + 2 ^ j - 1) in *. pose proof (si_core _ _ Hinv) as Hcore. destruct (block_range _ _ Hcore (Seg e o n false)) as (He & Ho & Hn & Hv & Hsmall); [apply old_in|].
  cbn [s_idx s_off s_len] in He, Ho, Hn, Hv. destruct (align_up o j Hj ltac:(lia)) as (k & Hk & Hkr & Hmod). unfold align_elt. rewrite elt_at_ok by done. cbn [mbind option_bind].
  assert (offset (velt elt_0 (elts h) e) = o) as ->. { pose proof (sc_off _ _ Hcore (Seg e o n false) (old_in _ _ _ _ _)) as E. unfold s_word in E. cbn in E. unfold off in E. lia. }
  rewrite Hk, (u32_small (o + k)) by (unfold_ranges; lia). destruct (before_ok h A e o n B Hinv Hwm k ltac:(lia)) as (h1 & h2 & A' & -> & E2 & Hinv2 & Hwm2 & HuA & Hm2 & Hz2 & Hk2). cbn [mbind option_bind].
  rewrite E2. cbn [mbind option_bind]. destruct (after_ok h2 A' e (o + k) (n - k) B Hinv2 Hwm2 size ltac:(lia)) as (h3 & B' & E3 & Hinv3 & Hwm3 & HuB & Hm3 & Hz3 & Hk3).
  replace (o + k + (n - k)) with (o + n) in E3 by lia. exists h3, A', (o + k), B'. split_and!; [exact E3|done..|by eapply same_misc_trans|by rewrite Hz3|]. eapply kept_trans; [done|]. by rewrite <- HuA.
Qed.
End HeapAllocElt.
