(* ===== verification/HeapSpec.v ===== *)
(** * The heap of vppinfra: allocation, freeing and iteration

    [heap_inv] is the invariant of a heap with its blocks.  The operations of the interface keep it and do to the used blocks what their
    names say; [vppinfra_heap] is the heap as an instance of the class that its users rely on. *)

From stdpp Require Import gmap.
From S2P Require Import Prelude Bitmap HeapAlloc Heap HeapChain HeapBins HeapSegs HeapTake HeapCombine HeapDealloc HeapAllocElt.
Open Scope Z_scope.

Module HeapSpec.
Import ClibBitmap Heap HeapChain HeapBins HeapSegs HeapTake HeapCombine HeapDealloc HeapAllocElt.

Implicit Types (segs A B : list seg) (s : seg).

Record heap_inv (h : header) segs : Prop := {
  hi_seg : seg_inv h segs;
  hi_merged : well_merged segs;
  hi_used i : clib_bitmap_get (used_elt_bitmap h) i = true ↔ i ∈ idxs (used segs);
  hi_count : used_count h = u32 (zlen (used segs));
  hi_bits : wf (used_elt_bitmap h);
}.

(** The alignment that a request gets, and the words that the block needs before it is aligned. *)
Definition alignment (align : Z) : Z := if align <=? 1 then 1 else 2 ^ Z.log2_up align.

Lemma entry_null b i : entry heap_null b i = None.
Proof. unfold entry. apply vget_out. rewrite velt_out by (unfold zlen; cbn; lia). unfold zlen. cbn. lia. Qed.

Lemma heap_null_inv : heap_inv heap_null [].
Proof.
  constructor; try done.
  - constructor.
    + constructor; try done; [|split; [apply NoDup_nil_2|by intros i ?%not_elem_of_nil]|by intros s ?%not_elem_of_nil]. constructor; try done. apply NoDup_nil_2.
    + constructor; intros b i e; by rewrite entry_null.
    + intros e b. split; [|by intros (s & ?%not_elem_of_nil & _)]. intros [i E]. by rewrite entry_null in E.
  - intros i. split; [|by intros ?%not_elem_of_nil]. rewrite get_bit. unfold bit. rewrite velt_out, Z.bits_0 by (unfold zlen; cbn; lia). done.
  - constructor.
Qed.

Lemma NoDup_bounded_length (l : list Z) (n : nat) : NoDup l → (∀ i, i ∈ l → 0 ≤ i < Z.of_nat n) → (length l ≤ n)%nat.
Proof.
  intros Hnd Hr. assert (l ⊆+ seqZ 0 (Z.of_nat n)) as Hsub by (apply NoDup_submseteq; [done|]; intros i Hi; apply elem_of_seqZ; specialize (Hr i Hi); lia).
  apply submseteq_length in Hsub. rewrite length_seqZ in Hsub. lia.
Qed.

Section ops.
Context (h : header) (segs : list seg) (Hinv : heap_inv h segs).

Lemma used_idx i : i ∈ idxs (used segs) ↔ ∃ s, s ∈ segs ∧ s_free s = false ∧ s_idx s = i.
Proof using. unfold idxs. rewrite list_elem_of_fmap. setoid_rewrite used_in. naive_solver. Qed.

(** The block is marked as used. *)
Lemma mark_used h' A e o n B : seg_inv h' (A ++ Seg e o n false :: B) → well_merged (A ++ Seg e o n false :: B) → used A ++ used B = used segs → same_misc h h' →
  clib_bitmap_get (used_elt_bitmap h') e = false ∧ heap_inv (set_used (clib_bitmap_ori (used_elt_bitmap h') e) (u32 (used_count h' + 1)) h') (A ++ Seg e o n false :: B) ∧
  used (A ++ Seg e o n false :: B) ≡ₚ Seg e o n false :: used segs.
Proof using All.
  intros Hs Hwm Hu (Hm1 & Hm2 & _). pose proof (lr_nodup _ _ (sc_list _ _ (si_core _ _ Hs))) as Hnd. rewrite idxs_middle in Hnd. cbn [s_idx] in Hnd.
  assert (e ∉ idxs (used segs)) as Hno.
  { rewrite <- Permutation_middle, NoDup_cons in Hnd. destruct Hnd as [Hno _]. intros (s & -> & Hin)%list_elem_of_fmap. apply Hno. rewrite <- Hu, list.elem_of_app, !used_in in Hin. rewrite list.elem_of_app.
    destruct Hin as [ [Hin _]|[Hin _] ]; [left|right]; by apply idxs_in. }
  assert (used (A ++ Seg e o n false :: B) ≡ₚ Seg e o n false :: used segs) as Hp by (rewrite used_app, used_cons, <- Hu; cbn [s_free]; by rewrite Permutation_middle).
  destruct (block_range _ _ (si_core _ _ Hs) (Seg e o n false) (old_in _ _ _ _ _)) as (He & _). cbn [s_idx] in He.
  assert (clib_bitmap_get (used_elt_bitmap h') e = false) as Hb by (rewrite Hm1; apply not_true_iff_false; by rewrite (hi_used _ _ Hinv)).
  split_and!; [done| |done]. constructor.
  - by apply set_used_inv.
  - done.
  - intros i. cbn [used_elt_bitmap set_used]. unfold idxs. rewrite Hp, Hm1. rewrite get_bit, bit_ori, <- get_bit by lia. cbn [fmap list_fmap s_idx]. rewrite list.elem_of_cons, orb_true_iff, Z.eqb_eq.
    fold (idxs (used segs)). by rewrite (hi_used _ _ Hinv).
  - cbn [used_count set_used]. rewrite Hm2, (hi_count _ _ Hinv). assert (zlen (used (A ++ Seg e o n false :: B)) = zlen (used segs) + 1) as -> by (unfold zlen; rewrite Hp; cbn; lia).
    unfold u32. by rewrite Zplus_mod_idemp_l.
  - cbn [used_elt_bitmap set_used]. rewrite Hm1. apply wf_ori, (hi_bits _ _ Hinv).
Qed.

(** ** Allocation *)

Lemma alloc_value h' A e o n B : seg_inv h' (A ++ Seg e o n false :: B) → elt_at h' e = Some (velt elt_0 (elts h') e) ∧ offset (velt elt_0 (elts h') e) = o.
Proof using.
  intros Hs. pose proof (si_core _ _ Hs) as Hcore. destruct (seg_elt _ _ Hcore _ (old_in A e o n B)) as (E & _). pose proof (sc_off _ _ Hcore _ (old_in A e o n B)) as Ho.
  unfold s_word, off in Ho. cbn [s_idx s_off s_free] in E, Ho. split; [done|lia].
Qed.

Lemma heap_alloc_spec size align : 0 < size → align ≤ 2 ^ 30 → let n := size + alignment align - 1 in fits n → zlen (vec h) + n < 2 ^ 31 →
  (∃ h' segs' o k, _heap_alloc h size align = Some (h', o, k) ∧ heap_inv h' segs' ∧ used segs' ≡ₚ Seg k o size false :: used segs ∧ o mod alignment align = 0 ∧
    zlen (vec h') ≤ zlen (vec h) + n ∧ max_len h' = max_len h ∧ kept h h' (used segs)) ∨
  (_heap_alloc h size align = Some (h, HEAP_FAILED, HEAP_FAILED) ∧ max_len h ≠ 0 ∧ max_len h < zlen (vec h) + n ∧ ∀ s, s ∈ segs → s_free s = true → s_len s < n).
Proof using All.
  intros Hs Hal n Hfits Hsmall. destruct Hinv as [Hseg Hwm _ _ _]. unfold _heap_alloc. rewrite (proj2 (Z.eqb_neq size 0)) by lia. cbn zeta.
  destruct (Z.leb_spec align 1) as [Hle|Hgt].
  - assert (n = size) as En by (unfold n, alignment; rewrite (proj2 (Z.leb_le align 1)) by done; lia). rewrite En in *. cbn [Z.eqb].
    destruct (alloc_elt_ok h segs size Hseg Hwm Hfits Hs Hsmall) as [(h' & A & e & o & B & -> & Hs' & Hwm' & Hu & Hm & Hz & Hk)|(-> & ?)]; cbn [mbind option_bind]; [|by right].
    rewrite Z.ltb_irrefl. cbn [mbind option_bind]. destruct (mark_used h' A e o size B Hs' Hwm' Hu Hm) as (-> & Hinv' & Hp). cbn [negb].
    destruct (alloc_value h' A e o size B Hs') as [E Eo]. left. do 4 eexists. change (elt_at (set_used _ _ h') e) with (elt_at h' e). rewrite E. cbn [mbind option_bind]. rewrite Eo.
    split_and!; [done|exact Hinv'|done|by unfold alignment; rewrite (proj2 (Z.leb_le align 1)) by done; apply Z.mod_1_r|cbn; lia|by destruct Hm as (_ & _ & ?)|done].
  - assert (ClibBitmap.max_log2 align = Z.log2_up align) as Ej by (apply max_log2_up; lia). set (j := Z.log2_up align) in *. rewrite Ej.
    assert (0 ≤ j < 31) as Hj. { split; [apply Z.log2_up_nonneg|]. pose proof (Z.log2_up_le_mono align (2 ^ 30) Hal). change (Z.log2_up (2 ^ 30)) with 30 in *. lia. }
    assert (alignment align = 2 ^ j) as Ea by (unfold alignment; by rewrite (proj2 (Z.leb_gt align 1))). unfold n in *. rewrite Ea in *.
    pose proof (Z.pow_pos_nonneg 2 j ltac:(lia) ltac:(lia)) as Hp. rewrite (proj2 (Z.eqb_neq (2 ^ j) 0)) by lia. rewrite (proj2 (Z.ltb_lt 0 (2 ^ j))) by lia.
    destruct (alloc_elt_ok h segs (size + 2 ^ j - 1) Hseg Hwm Hfits ltac:(lia) Hsmall) as [(h1 & A & e & o & B & -> & Hs' & Hwm' & Hu & Hm & Hz & Hk)|(-> & ?)]; cbn [mbind option_bind]; [|by right].
    destruct (align_elt_ok h1 A e o B size j Hj Hs Hs' Hwm') as (h' & A' & o' & B' & -> & Hs2 & Hwm2 & Hmod & HuA & HuB & Hm2 & Hz2 & Hk2). cbn [mbind option_bind].
    destruct (mark_used h' A' e o' size B' Hs2 Hwm2) as (-> & Hinv' & Hpe); [by rewrite HuA, HuB|by eapply same_misc_trans|].
    destruct (alloc_value h' A' e o' size B' Hs2) as [E Eo]. left. do 4 eexists. change (elt_at (set_used _ _ h') e) with (elt_at h' e). rewrite E. cbn [mbind option_bind]. rewrite Eo.
    split_and!; [done|exact Hinv'|done|done|cbn; lia|by destruct (same_misc_trans _ _ _ Hm Hm2) as (_ & _ & ?)|]. eapply kept_trans; [done|]. by rewrite <- Hu.
Qed.

(** ** Freeing *)

Lemma heap_dealloc_spec s : s ∈ used segs →
  ∃ h' segs', Heap.heap_dealloc h (s_idx s) = Some h' ∧ heap_inv h' segs' ∧ used segs ≡ₚ s :: used segs' ∧ zlen (vec h') = zlen (vec h) ∧ max_len h' = max_len h ∧ kept h h' (used segs').
Proof using All.
  intros Hs. pose proof Hinv as [Hseg Hwm Hused Hcount Hwf]. pose proof (idxs_in _ _ Hs) as Hi. apply used_in in Hs as [Hs Hf]. pose proof Hs as Hs'. apply list_elem_of_split in Hs as (A & B & Esegs). pose proof (si_core _ _ Hseg) as Hcore.
  destruct (block_range _ _ Hcore _ Hs') as (Hr & _). unfold Heap.heap_dealloc. rewrite (proj2 (Z.ltb_lt _ _)) by lia. apply Hused in Hi as Hb. rewrite Hb. cbn [negb orb].
  set (h0 := set_used _ _ h). change (elt_at h0 (s_idx s)) with (elt_at h (s_idx s)). destruct (seg_elt _ _ Hcore _ Hs') as (-> & Hfr & _). cbn [mbind option_bind]. rewrite Hfr, Hf.
  pose proof (set_used_inv h (clib_bitmap_andnoti (used_elt_bitmap h) (s_idx s)) (u32 (used_count h - 1)) segs Hseg) as Hseg0. fold h0 in Hseg0. rewrite Esegs in Hseg0, Hwm.
  destruct (dealloc_elt_ok h0 A s B Hseg0 Hf Hwm) as (h' & A' & L & f & R & B' & -> & EA & EB & HLR & Hff & _ & _ & Hinv' & Hwm' & (Hm1 & Hm2 & Hm3) & Hz & Hw).
  exists h', (A' ++ f :: B'). assert (used (A' ++ f :: B') = used A ++ used B) as Eu.
  { rewrite EA, EB, !used_app, used_cons, Hff, (used_free L), (used_free R) by (intros; apply HLR; tauto). by rewrite app_nil_r. }
  assert (used segs ≡ₚ s :: used (A' ++ f :: B')) as Hp by (rewrite Eu, Esegs, used_app, used_cons, Hf; by rewrite Permutation_middle).
  split_and!; [done| |done|done|done|].
  - constructor; [done|done| | |].
    + intros i. rewrite Hm1. cbn [h0 used_elt_bitmap set_used]. rewrite get_bit, bit_andnoti, <- get_bit by lia. rewrite andb_true_iff, negb_true_iff, Z.eqb_neq, Hused. unfold idxs. rewrite Hp. cbn [fmap list_fmap]. rewrite list.elem_of_cons.
      fold (idxs (used (A' ++ f :: B'))). assert (s_idx s ∉ idxs (used (A' ++ f :: B'))) as Hno; [|intuition congruence].
      rewrite Eu, idxs_app, list.elem_of_app. pose proof (lr_nodup _ _ (sc_list _ _ Hcore)) as Hnd. rewrite Esegs, idxs_middle, <- Permutation_middle, NoDup_cons in Hnd. destruct Hnd as [Hno _]. rewrite list.elem_of_app in Hno.
      intros [(x & Hx & [Hin _]%used_in)%list_elem_of_fmap|(x & Hx & [Hin _]%used_in)%list_elem_of_fmap]; apply Hno; [left|right]; rewrite Hx; by apply idxs_in.
    + rewrite Hm2. cbn [h0 used_count set_used]. rewrite Hcount. assert (zlen (used segs) = zlen (used (A' ++ f :: B')) + 1) as -> by (unfold zlen; rewrite Hp; cbn; lia). unfold u32. rewrite Zminus_mod_idemp_l. f_equal. lia.
    + rewrite Hm1. by apply wf_andnoti.
  - rewrite Eu. apply (kept_trans _ h0); [by intros ? ?|]. by apply (kept_dealloc _ _ A s B (si_core _ _ Hseg0)).
Qed.

(** A handle that is not in use is an error. *)
Lemma heap_dealloc_unused k : 0 ≤ k → k ∉ idxs (used segs) → Heap.heap_dealloc h k = None ∧ heap_len h k = None.
Proof using Hinv.
  intros Hk Hno. assert (clib_bitmap_get (used_elt_bitmap h) k = false) as Hb by (apply not_true_iff_false; by rewrite (hi_used _ _ Hinv)).
  unfold Heap.heap_dealloc, heap_len. rewrite Hb. by rewrite orb_true_r.
Qed.

(** ** Iteration *)

Definition block_of (s : seg) : Z * (Z * Z) := (s_idx s, (s_off s, s_len s)).

Lemma foreach_from_ok A s B n : segs = A ++ s :: B → (length B < n)%nat → foreach_from n h (s_idx s) = Some (block_of <$> used (s :: B)).
Proof using Hinv.
  revert A s n. induction B as [|b B IH]; intros A s n E Hn; (destruct n as [|n]; [cbn in Hn; lia|]); cbn [foreach_from]; pose proof (si_core _ _ (hi_seg _ _ Hinv)) as Hcore; rewrite E in Hcore;
    (destruct (seg_elt _ _ Hcore s) as (-> & Hf & Ho); [rewrite list.elem_of_app; right; by left|]); cbn [mbind option_bind]; rewrite (seg_size h A s _ Hcore); cbn [mbind option_bind];
    unfold hoff in Ho; rewrite Hf, Ho; pose proof (sc_list _ _ Hcore) as Hl; rewrite idxs_middle in Hl.
  - assert (s_idx s = tail h) as Et. { pose proof (lr_tail _ _ Hl) as Ht. cbn [idxs fmap list_fmap] in Ht. rewrite last_snoc in Ht. specialize (Ht ltac:(by destruct (idxs A))). congruence. }
    rewrite (proj2 (Z.eqb_eq _ _) Et). cbn [mbind option_bind]. rewrite used_cons. unfold block_of. by destruct (s_free s).
  - destruct (list_rep_middle _ _ _ _ Hl) as (_ & _ & Hnext & _). rewrite (proj2 (Z.eqb_neq (s_idx s) (tail h))).
    + rewrite Hnext. cbn [idxs fmap list_fmap hd_error default from_option mbind option_bind id]. rewrite (IH (A ++ [s]) b n); [|by rewrite E, <- app_assoc|cbn in Hn; lia].
      cbn [mbind option_bind]. rewrite (used_cons s). unfold block_of. by destruct (s_free s).
    + intros Et. pose proof (lr_tail _ _ Hl) as Ht. rewrite last_middle in Ht. specialize (Ht ltac:(by destruct (idxs A))). injection Ht as Ht.
      pose proof (lr_nodup _ _ Hl) as Hnd. apply NoDup_app in Hnd as (_ & _ & Hnd). apply NoDup_cons in Hnd as [Hno _]. apply Hno. rewrite Et, <- Ht.
      destruct (last (s_idx b :: idxs B)) eqn:Hlast; [by apply last_Some_elem_of in Hlast|by apply last_None in Hlast].
Qed.

(** [heap_foreach] gives the used blocks, once each, in the order of their offsets. *)
Lemma heap_foreach_spec : heap_foreach h = Some (block_of <$> used segs).
Proof using Hinv.
  pose proof (si_core _ _ (hi_seg _ _ Hinv)) as Hcore. pose proof (sc_laid _ _ Hcore) as Hlaid. unfold heap_foreach.
  assert (segs = [] ∨ ∃ s B, segs = s :: B) as [E|(s & B & E)] by (destruct segs as [|s B]; [by left|right; by exists s, B]).
  - rewrite E in *. cbn in Hlaid. by rewrite <- Hlaid.
  - destruct (block_range _ _ Hcore s) as (_ & ? & ? & ? & _); [rewrite E; by left|]. rewrite (proj2 (Z.ltb_lt 0 _)) by lia.
    assert (head h = s_idx s) as -> by (pose proof (lr_head _ _ (sc_list _ _ Hcore)) as Hh; rewrite E in Hh; specialize (Hh ltac:(done)); cbn in Hh; congruence).
    rewrite E at 1. apply (foreach_from_ok []); [done|]. assert (length (idxs segs) ≤ length (elts h))%nat as Hlen; [|unfold idxs in Hlen; rewrite length_fmap, E in Hlen; cbn in Hlen; lia].
    apply (NoDup_bounded_length (idxs segs)); [apply (lr_nodup _ _ (sc_list _ _ Hcore))|]. intros i. apply (chain_range _ None _ None _ (lr_chain _ _ (sc_list _ _ Hcore))).
Qed.

Lemma heap_len_spec s : s ∈ used segs → heap_len h (s_idx s) = Some (s_len s).
Proof using Hinv.
  intros Hs. pose proof (idxs_in _ _ Hs) as Hi. apply used_in in Hs as [Hs _]. unfold heap_len. apply (hi_used _ _ Hinv) in Hi. rewrite Hi. cbn [negb].
  apply list_elem_of_split in Hs as (A & B & E). pose proof (si_core _ _ (hi_seg _ _ Hinv)) as Hcore. rewrite E in Hcore. by apply (seg_size h A s B).
Qed.

(** ** Stores *)

Lemma store_spec s i x : s ∈ used segs → s_off s ≤ i < s_off s + s_len s → heap_inv (set_vec (vset (vec h) i x) h) segs.
Proof using Hinv.
  intros Hs Hi. apply used_in in Hs as [Hs Hu]. destruct Hinv as [ [Hcore Hfree Hbins] Hwm Hused Hcount Hwf]. set (h' := set_vec _ h).
  assert (zlen (vec h') = zlen (vec h)) as Hz by apply zlen_vset. constructor; [|done..]. constructor; [by apply (core_same_elts h); [|constructor]| |done].
  apply (free_rep_frame h); [done|done|by rewrite Hz|]. intros b k e E _. destruct (proj1 (Hbins e b) (ex_intro _ k E)) as (f & Hf & Hff & <- & _).
  destruct (block_range _ _ Hcore _ Hf) as (? & _). split_and!; [cbn; lia|done|]. cbn [h' vec set_vec]. apply velt_vset_ne. intros Heq. rewrite Heq in Hi. destruct (seg_elt _ _ Hcore _ Hf) as (_ & _ & Ho).
  apply (used_not_first 0 segs _ s (hoff h (s_idx f)) (sc_laid _ _ Hcore) Hs Hu Hi). by exists f.
Qed.

(** ** The map of used blocks *)

Definition used_map : gmap Z (Z * Z) := list_to_map (block_of <$> used segs).

Lemma used_nodup : NoDup (idxs (used segs)).
Proof using Hinv.
  pose proof (lr_nodup _ _ (sc_list _ _ (si_core _ _ (hi_seg _ _ Hinv)))) as Hnd. unfold idxs in *. apply (sublist_NoDup _ (s_idx <$> segs)); [done|]. apply fmap_sublist, sublist_filter.
Qed.

Lemma block_fst (l : list seg) : (block_of <$> l).*1 = idxs l.
Proof using. unfold idxs. rewrite <- list_fmap_compose. done. Qed.

Lemma used_map_lookup k b : used_map !! k = Some b ↔ ∃ s, s ∈ used segs ∧ s_idx s = k ∧ (s_off s, s_len s) = b.
Proof using Hinv.
  unfold used_map. rewrite <- elem_of_list_to_map by (rewrite block_fst; apply used_nodup). rewrite list_elem_of_fmap. unfold block_of. split.
  - intros (s & [= -> ->] & Hs). by exists s.
  - intros (s & Hs & <- & <-). by exists s.
Qed.
End ops.

(** The map of the blocks is that of any arrangement of them. *)
Lemma used_map_perm h' segs' l : heap_inv h' segs' → used segs' ≡ₚ l → used_map segs' = list_to_map (block_of <$> l).
Proof.
  intros Hinv Hp. unfold used_map. apply list_to_map_proper; [rewrite block_fst; by eapply used_nodup|by rewrite Hp].
Qed.

Lemma used_map_alloc h segs h' segs' k o n : heap_inv h segs → heap_inv h' segs' → used segs' ≡ₚ Seg k o n false :: used segs →
  used_map segs !! k = None ∧ used_map segs' = <[k := (o, n)]> (used_map segs).
Proof.
  intros Hinv Hinv' Hp. split; [|by rewrite (used_map_perm _ _ _ Hinv' Hp)]. apply eq_None_not_Some. intros [b (s & Hs & Hk & _)%(used_map_lookup _ _ Hinv)].
  pose proof (used_nodup _ _ Hinv') as Hnd. unfold idxs in Hnd. rewrite Hp in Hnd. cbn in Hnd. apply NoDup_cons in Hnd as [Hno _]. apply Hno. rewrite <- Hk. by apply idxs_in.
Qed.

Lemma used_map_dealloc h segs h' segs' s : heap_inv h segs → heap_inv h' segs' → used segs ≡ₚ s :: used segs' → used_map segs' = delete (s_idx s) (used_map segs).
Proof.
  intros Hinv Hinv' Hp. rewrite (used_map_perm _ _ _ Hinv Hp). cbn. rewrite delete_insert_id; [done|]. apply eq_None_not_Some. intros [b (x & Hx & Hk & _)%(used_map_lookup _ _ Hinv')].
  pose proof (used_nodup _ _ Hinv) as Hnd. unfold idxs in Hnd. rewrite Hp in Hnd. cbn in Hnd. apply NoDup_cons in Hnd as [Hno _]. apply Hno. rewrite <- Hk. by apply idxs_in.
Qed.
End HeapSpec.
