(* ===== verification/HeapValidate.v ===== *)
(** * The heap of vppinfra: validation

    [heap_validate] accepts every heap with the invariant: its counts and sums are those of the blocks, and each free block is found at its place. *)

From stdpp Require Import gmap.
From S2P Require Import Prelude Bitmap Popcount Heap HeapChain HeapBins HeapSegs HeapCombine HeapDealloc HeapAllocElt HeapSpec.
Open Scope Z_scope.

Module HeapValidate.
Import ClibBitmap Heap HeapChain HeapBins HeapSegs HeapCombine HeapDealloc HeapAllocElt HeapSpec.

Implicit Types (segs A B : list seg) (s : seg).

Definition frees segs : list seg := filter (λ s, s_free s = true) segs.

Lemma frees_cons s B : frees (s :: B) = if s_free s then s :: frees B else frees B.
Proof. unfold frees. destruct (s_free s) eqn:E; [by rewrite filter_cons_True|by rewrite filter_cons_False by (by rewrite E)]. Qed.

Lemma frees_in segs s : s ∈ frees segs ↔ s ∈ segs ∧ s_free s = true.
Proof. unfold frees. rewrite list_elem_of_filter. tauto. Qed.

Lemma used_frees_length segs : zlen (used segs) + zlen (frees segs) = zlen segs.
Proof. induction segs as [|s segs IH]; [done|]. rewrite used_cons, frees_cons. destruct (s_free s); rewrite !zlen_cons; lia. Qed.

(** ** The lists *)

Lemma NoDup_concat (ls : list (list Z)) : (∀ a b i j e, ls !! a ≫= (.!! i) = Some e → ls !! b ≫= (.!! j) = Some e → a = b ∧ i = j) → NoDup (concat ls).
Proof.
  induction ls as [|l ls IH]; intros Hinj; [apply NoDup_nil_2|]. cbn. apply NoDup_app. split_and!.
  - apply NoDup_alt. intros i j e Hi Hj. by destruct (Hinj 0%nat 0%nat i j e Hi Hj).
  - intros e [i Hi]%list_elem_of_lookup_1 He. apply list_elem_of_In, in_concat in He as (l' & Hl' & He). apply list_elem_of_In, list_elem_of_lookup_1 in Hl' as [b Hb]. apply list_elem_of_In, list_elem_of_lookup_1 in He as [j Hj].
    destruct (Hinj 0%nat (S b) i j e) as [? _]; [done|change (ls !! b ≫= (.!! j) = Some e); by rewrite Hb|done].
  - apply IH. intros a b i j e Ha Hb. destruct (Hinj (S a) (S b) i j e Ha Hb) as [? ?]. split; [lia|done].
Qed.

Lemma entry_nat h a i : entry h (Z.of_nat a) (Z.of_nat i) = free_lists h !! a ≫= (.!! i).
Proof. unfold entry, velt. rewrite (vget_of_nat (free_lists h)). destruct (free_lists h !! a) as [l|]; cbn [default mbind option_bind from_option id]; [apply vget_of_nat|]. apply vget_out. unfold zlen. cbn. lia. Qed.

Definition zsum (l : list Z) : Z := foldr Z.add 0 l.

Lemma zsum_app l l' : zsum (l ++ l') = zsum l + zsum l'.
Proof. unfold zsum. induction l as [|x l IH]; cbn; [done|]. rewrite IH. lia. Qed.

Lemma zsum_perm l l' : l ≡ₚ l' → zsum l = zsum l'.
Proof. unfold zsum. induction 1; cbn; lia. Qed.

Section validate.
Context (h : header) (segs : list seg) (Hinv : heap_inv h segs).

Let Hcore : seg_core h segs := si_core _ _ (hi_seg _ _ Hinv).

Lemma list_entries : concat (free_lists h) ≡ₚ idxs (frees segs).
Proof using All.
  apply NoDup_Permutation.
  - apply NoDup_concat. intros a b i j e Ha Hb. rewrite <- entry_nat in Ha, Hb. destruct (fr_distinct _ _ (si_free _ _ (hi_seg _ _ Hinv)) _ _ _ _ _ _ Ha Hb); [tauto|tauto|done|lia].
  - apply (sublist_NoDup _ (idxs segs)); [apply (lr_nodup _ _ (sc_list _ _ Hcore))|]. apply fmap_sublist, sublist_filter.
  - intros e. unfold idxs. rewrite list_elem_of_fmap. split.
    + intros He. apply list_elem_of_In, in_concat in He as (l & Hl & He). apply list_elem_of_In, list_elem_of_lookup_1 in Hl as [b Hb]. apply list_elem_of_In, list_elem_of_lookup_1 in He as [j Hj].
      assert (in_bin h e (Z.of_nat b)) as Hin by (exists (Z.of_nat j); rewrite entry_nat, Hb; done). apply (si_bins _ _ (hi_seg _ _ Hinv)) in Hin as (s & Hs & Hf & <- & _). exists s. rewrite frees_in. done.
    + intros (s & -> & [Hs Hf]%frees_in). pose proof (seg_entry _ _ _ (hi_seg _ _ Hinv) Hs Hf) as E. destruct (entry_range _ _ _ _ E) as [Hb Hi].
      rewrite <- (Z2Nat.id (size_to_bin (s_len s))), <- (Z2Nat.id (place h s)), entry_nat in E by lia. destruct (free_lists h !! _) as [l|] eqn:El; [|done]. cbn in E.
      apply list_elem_of_In, in_concat. exists l. split; apply list_elem_of_In; by eapply list_elem_of_lookup_2.
Qed.

(** An entry that the validation accepts, and its size. *)
Definition good (e b : Z) : Prop := ∃ s, s ∈ segs ∧ s_free s = true ∧ s_idx s = e ∧ size_to_bin (s_len s) = b.
Definition size_of (e : Z) : Z := default 0 (heap_elt_size h e).

Lemma size_of_seg s : s ∈ segs → heap_elt_size h (s_idx s) = Some (s_len s) ∧ size_of (s_idx s) = s_len s.
Proof using Hinv.
  intros (A & B & E)%list_elem_of_split. assert (heap_elt_size h (s_idx s) = Some (s_len s)) as Hs by (apply (seg_size h A s B); rewrite <- E; apply Hcore). split; [done|]. unfold size_of. by rewrite Hs.
Qed.

Lemma validate_list_ok b l : (∀ e, e ∈ l → good e b) → ∀ acc, validate_list h acc (b, l) = Some (acc.1 + zlen l, acc.2 + zsum (size_of <$> l)).
Proof using Hinv.
  intros Hgood acc. unfold validate_list. cbn [fst snd].
  assert (∀ l', (∀ e, e ∈ l' → good e b) → ∀ x y, mfoldl (λ (acc : Z * Z) e, s ← heap_elt_size h e; x ← elt_at h e; if negb (size_to_bin s =? b) || negb (heap_is_free x) then None else Some (acc.1, acc.2 + s)) (x, y) l' =
    Some (x, y + zsum (size_of <$> l'))) as Hgen.
  { induction l' as [|e l' IH]; intros Hg x y; cbn [mfoldl]; [cbn; by rewrite Z.add_0_r|]. destruct (Hg e) as (s & Hs & Hf & <- & Hb); [by left|]. destruct (size_of_seg s Hs) as [-> Es].
    destruct (seg_elt _ _ Hcore _ Hs) as (-> & Hxf & _). cbn [mbind option_bind]. rewrite Hb, Z.eqb_refl, Hxf, Hf. cbn [negb orb fst snd mbind option_bind]. rewrite IH by (intros e He; apply Hg; by right).
    cbn. rewrite Es. fold (zsum (size_of <$> l')). f_equal. f_equal. unfold zsum. cbn. lia. }
  by rewrite Hgen.
Qed.

Lemma validate_lists_gen : ∀ ls b0 acc, (∀ k l, ls !! k = Some l → ∀ e, e ∈ l → good e (b0 + Z.of_nat k)) →
  mfoldl (validate_list h) acc (zip (zrange b0 (b0 + zlen ls)) ls) = Some (acc.1 + zlen (concat ls), acc.2 + zsum (size_of <$> concat ls)).
Proof using Hinv.
  induction ls as [|l ls IH]; intros b0 acc Hg; [cbn; rewrite zrange_nil by (unfold zlen; cbn; lia); cbn; rewrite !Z.add_0_r; by destruct acc|].
  rewrite zrange_cons by (rewrite zlen_cons; pose proof (zlen_nonneg ls); lia). cbn [zip zip_with mfoldl]. rewrite validate_list_ok by (intros e He; rewrite <- (Z.add_0_r b0); by apply (Hg 0%nat l)).
  cbn [mbind option_bind]. rewrite zlen_cons. replace (b0 + (zlen ls + 1)) with (b0 + 1 + zlen ls) by lia. rewrite IH.
  - cbn [concat fst snd]. rewrite zlen_app, fmap_app, zsum_app. by rewrite !Z.add_assoc.
  - intros k l' Hk e He. replace (b0 + 1 + Z.of_nat k) with (b0 + Z.of_nat (S k)) by lia. by apply (Hg (S k) l').
Qed.

Lemma total_sizes l : (∀ s, s ∈ l → s ∈ segs) → zsum (size_of <$> idxs l) = total l.
Proof using Hinv.
  induction l as [|s l IH]; intros Hl; [done|]. cbn. fold (idxs l) (zsum (size_of <$> idxs l)) (total l). rewrite (proj2 (size_of_seg s ltac:(apply Hl; by left))).
  unfold zsum in IH. rewrite <- IH; [done|]. intros x Hx. apply Hl. by right.
Qed.

Lemma validate_lists_ok : validate_lists h = Some (zlen (frees segs), total (frees segs)).
Proof using All.
  unfold validate_lists. pose proof (validate_lists_gen (free_lists h) 0 (0, 0)) as E. cbn [fst snd] in E. rewrite !Z.add_0_l in E. rewrite E.
  - f_equal. f_equal; [unfold zlen; by rewrite list_entries; unfold idxs; rewrite length_fmap|]. rewrite (zsum_perm _ (size_of <$> idxs (frees segs))) by (by rewrite list_entries).
    apply total_sizes. intros s [Hs _]%frees_in. done.
  - intros k l Hk e [i Hi]%list_elem_of_lookup_1. rewrite Z.add_0_l. apply (si_bins _ _ (hi_seg _ _ Hinv)). exists (Z.of_nat i). by rewrite entry_nat, Hk.
Qed.

(** ** The elements *)

Lemma used_bit s : s ∈ segs → clib_bitmap_get (used_elt_bitmap h) (s_idx s) = negb (s_free s).
Proof using Hinv.
  intros Hs. apply eq_true_iff_eq. rewrite (hi_used _ _ Hinv), negb_true_iff. unfold idxs. rewrite list_elem_of_fmap. split.
  - intros (x & Hx & [Hin Hf]%used_in). by rewrite (idx_inj segs s x (lr_nodup _ _ (sc_list _ _ Hcore)) Hs Hin Hx).
  - intros Hf. exists s. by rewrite used_in.
Qed.

(** The next element, or the element itself at the end. *)
Lemma next_seg A s B : segs = A ++ s :: B → heap_next h (s_idx s) = Some (default (s_idx s) (hd_error (idxs B))) ∧ s_idx s ∉ idxs B ∧ (B = [] → tail h = s_idx s).
Proof using Hinv.
  intros E. pose proof (sc_list _ _ Hcore) as Hl. rewrite E, idxs_middle in Hl. destruct (list_rep_middle _ _ _ _ Hl) as (_ & _ & Hn & _ & Hno). split_and!; [done..|].
  intros ->. pose proof (lr_tail _ _ Hl) as Ht. rewrite last_middle in Ht. specialize (Ht ltac:(by destruct (idxs A))). cbn in Ht. congruence.
Qed.

Lemma validate_chain_ok n : ∀ B A s, segs = A ++ s :: B → (length B < n)%nat →
  validate_chain n h (s_idx s) = Some (Counts (zlen (s :: B)) (total (s :: B)) (zlen (frees (s :: B))) (total (frees (s :: B)))).
Proof using Hinv.
  induction n as [|n IH]; intros B A s E Hn; [lia|]. cbn [validate_chain]. assert (s ∈ segs) as Hs by (rewrite E, list.elem_of_app; right; by left).
  destruct (seg_elt _ _ Hcore _ Hs) as (-> & Hf & _). destruct (size_of_seg s Hs) as [-> _]. cbn [mbind option_bind]. rewrite Hf, used_bit, negb_involutive, eqb_reflx by done. cbn [negb].
  destruct (next_seg A s B E) as (-> & Hno & Ht). cbn [mbind option_bind]. destruct B as [|b B]; cbn [idxs fmap list_fmap hd_error default from_option id].
  - rewrite Z.eqb_refl, (proj2 (Z.eqb_eq (tail h) _)) by by apply Ht. cbn [mbind option_bind used_count_of total_size elt_free_count elt_free_size]. rewrite frees_cons. destruct (s_free s); cbn; do 2 f_equal; lia.
  - rewrite (proj2 (Z.eqb_neq _ _)) by (intros Heq; apply Hno; rewrite Heq; by left). assert (b ∈ segs) as Hb by (rewrite E, list.elem_of_app; right; right; by left).
    destruct (seg_elt _ _ Hcore _ Hb) as (-> & Hfb & _). cbn [mbind option_bind]. rewrite Hfb.
    assert (s_free s && s_free b = false) as ->. { pose proof (hi_merged _ _ Hinv) as Hwm. rewrite E in Hwm. apply well_merged_app in Hwm as (_ & [Hadj _] & _). specialize (Hadj b eq_refl). destruct (s_free s), (s_free b); tauto. }
    rewrite (IH B (A ++ [s]) b); [|by rewrite E, <- app_assoc|cbn in Hn; lia]. cbn [mbind option_bind used_count_of total_size elt_free_count elt_free_size]. rewrite (frees_cons s). f_equal.
    rewrite (zlen_cons s). assert (∀ l, total (s :: l) = total l + s_len s) as Et by (intros l; cbn; unfold total; lia). rewrite Et. destruct (s_free s); [by rewrite (zlen_cons s), Et|done].
Qed.

Lemma validate_free_ok s i fm : s ∈ segs → s_free s = true → vget fm i = Some 0 → validate_free h (s_idx s) i fm = Some (vset fm i 1).
Proof using Hinv.
  intros Hs Hf Hi. unfold validate_free. pose proof Hs as (A & B & E)%list_elem_of_split. destruct (get_free_seg h A s B) as (-> & Ej & _); [rewrite <- E; apply Hinv|done|]. cbn [mbind option_bind fst snd].
  destruct (vget (free_lists h) _) as [l|]; [|done]. cbn [mbind option_bind] in Ej |- *. rewrite Ej. cbn [mbind option_bind]. rewrite Z.eqb_refl. cbn [negb]. rewrite Hi. done.
Qed.

Lemma validate_places_ok n : ∀ B A s fm, segs = A ++ s :: B → (length B < n)%nat → (∀ j, zlen A ≤ j < zlen segs → vget fm j = Some 0) →
  validate_places n h (s_idx s) (zlen A) (s_off s) fm = Some ().
Proof using Hinv.
  induction n as [|n IH]; intros B A s fm E Hn Hfm; [lia|]. cbn [validate_places]. assert (s ∈ segs) as Hs by (rewrite E, list.elem_of_app; right; by left).
  destruct (seg_elt _ _ Hcore _ Hs) as (-> & Hf & Ho). destruct (size_of_seg s Hs) as [-> _]. cbn [mbind option_bind]. unfold hoff in Ho. rewrite Ho, Z.eqb_refl, Hf. cbn [negb].
  assert (zlen segs = zlen A + (zlen B + 1)) as Hz by (rewrite E, zlen_app, zlen_cons; done). pose proof (zlen_nonneg B). pose proof (zlen_nonneg A).
  assert (∃ fm', (if s_free s then validate_free h (s_idx s) (zlen A) fm else Some fm) = Some fm' ∧ ∀ j, zlen A + 1 ≤ j < zlen segs → vget fm' j = Some 0) as (fm' & -> & Hfm').
  { destruct (s_free s) eqn:Hsf; [|exists fm; split; [done|]; intros; apply Hfm; lia]. exists (vset fm (zlen A) 1). split; [apply validate_free_ok; [done|done|apply Hfm; lia]|]. intros j Hj. rewrite vget_vset_ne by lia. apply Hfm. lia. }
  cbn [mbind option_bind]. destruct (next_seg A s B E) as (-> & Hno & _). cbn [mbind option_bind]. destruct B as [|b B]; cbn [idxs fmap list_fmap hd_error default from_option id]; [by rewrite Z.eqb_refl|].
  rewrite (proj2 (Z.eqb_neq _ _)) by (intros Heq; apply Hno; rewrite Heq; by left).
  assert (segs = (A ++ [s]) ++ b :: B) as E' by by rewrite E, <- app_assoc. pose proof (sc_list _ _ Hcore) as Hl. rewrite E', idxs_middle in Hl. destruct (list_rep_middle _ _ _ _ Hl) as (_ & -> & _).
  rewrite idxs_app. cbn [idxs fmap list_fmap]. rewrite last_snoc. cbn [mbind option_bind default from_option id]. rewrite Z.eqb_refl. cbn [negb].
  assert (s_off b = s_off s + s_len s) as <-. { pose proof (sc_laid _ _ Hcore) as Hlaid. rewrite E in Hlaid. apply laid_middle in Hlaid as (_ & _ & Hlaid). by destruct Hlaid as (-> & _). }
  rewrite <- (IH B (A ++ [s]) b fm' E'); [|cbn in Hn; lia|rewrite zlen_app; exact Hfm']. f_equal. by rewrite zlen_app.
Qed.

(** ** All the assertions *)

Lemma count_bits : zlen (used_elt_bitmap h) < 2 ^ 57 → clib_bitmap_count_set_bits (used_elt_bitmap h) = zlen (used segs).
Proof using Hinv.
  intros Hb. rewrite Popcount.count_set_bits_sum, clib_bitmap_foreach_set_bits by (done || apply (hi_bits _ _ Hinv)). assert (zlen (used segs) = zlen (idxs (used segs))) as -> by (unfold zlen, idxs; by rewrite length_fmap).
  unfold zlen at 2. f_equal. apply Permutation_length, NoDup_Permutation.
  - apply list.NoDup_filter, NoDup_seqZ.
  - by apply (used_nodup h).
  - intros i. rewrite list_elem_of_filter, elem_of_zrange, (hi_used _ _ Hinv). split; [tauto|]. intros Hi. split; [done|]. apply (hi_used _ _ Hinv) in Hi as Hg. split.
    + apply used_idx in Hi as (s & Hs & _ & <-). by apply (block_range _ _ Hcore).
    + unfold clib_bitmap_get in Hg. apply andb_true_iff in Hg as [Hg _]. apply Z.ltb_lt in Hg. unfold BITS in *. pose proof (Z.div_mod i 64 ltac:(lia)). pose proof (Z.mod_pos_bound i 64 ltac:(lia)). lia.
Qed.

Lemma segs_length : zlen segs ≤ zlen (vec h).
Proof using Hinv.
  assert (∀ l o o', laid o l o' → zlen l ≤ o' - o) as Hgen; [|pose proof (Hgen _ _ _ (sc_laid _ _ Hcore)); lia].
  induction l as [|s l IH]; intros o o'; cbn [laid]; [unfold zlen; cbn; lia|]. intros (_ & Hp & Hl). rewrite zlen_cons. specialize (IH _ _ Hl). lia.
Qed.

Lemma heap_validate_ok : 0 < zlen (vec h) → zlen (used_elt_bitmap h) < 2 ^ 57 → heap_validate h = Some ().
Proof using All.
  intros Hv Hb. pose proof (used_frees_length segs) as Huf. pose proof segs_length as Hlen. pose proof (sc_small _ _ Hcore) as Hsmall. pose proof (zlen_nonneg (used segs)). pose proof (zlen_nonneg (frees segs)).
  assert (segs = [] ∨ ∃ s B, segs = s :: B) as [E|(s & B & E)] by (clear; destruct segs as [|s B]; [by left|right; by exists s, B]).
  { pose proof (sc_laid _ _ Hcore) as Hl. rewrite E in Hl. cbn in Hl. lia. }
  unfold heap_validate. rewrite (hi_count _ _ Hinv), u32_small, count_bits, Z.eqb_refl by (done || unfold_ranges; lia). cbn [negb].
  pose proof (sc_list _ _ Hcore) as [Hc Hnd Hh Ht]. assert (idxs segs ≠ []) as Hne by by rewrite E. specialize (Hh Hne). specialize (Ht Hne).
  assert (head h = s_idx s) as Ehd by (rewrite E in Hh; cbn in Hh; congruence).
  assert (head h = s_idx s ∧ 0 ≤ head h < zlen (elts h) ∧ prev (velt elt_0 (elts h) (head h)) = 0) as (_ & Hhr & Hp).
  { rewrite Ehd. rewrite E in Hc. destruct Hc as (Hr & Hpv & _). unfold pv in Hpv. cbn in Hpv. split_and!; [done|apply Hr..|lia]. }
  apply last_Some in Ht as [l' El]. assert (0 ≤ tail h < zlen (elts h) ∧ next (velt elt_0 (elts h) (tail h)) = 0) as [Htr Hn].
  { rewrite El in Hc. apply chain_middle in Hc as (_ & (Hr & _ & Hnx) & _). unfold nx in Hnx. cbn in Hnx. split; [done|lia]. }
  rewrite !elt_at_ok by done. cbn [mbind option_bind]. rewrite Hp, Hn. cbn [Z.eqb negb orb]. rewrite validate_lists_ok. cbn [mbind option_bind fst snd].
  assert (length B < length (elts h))%nat as HB.
  { pose proof (NoDup_bounded_length (idxs segs) (length (elts h)) Hnd ltac:(intros i; apply (chain_range _ None _ None _ Hc))) as Hbl. unfold idxs in Hbl. rewrite length_fmap, E in Hbl. cbn in Hbl. lia. }
  rewrite Ehd, (validate_chain_ok _ B [] s E HB), <- E. cbn [mbind option_bind used_count_of total_size elt_free_count elt_free_size].
  assert (total segs = zlen (vec h)) as -> by (pose proof (laid_total _ _ _ (sc_laid _ _ Hcore)); lia). rewrite !Z.eqb_refl, (proj2 (Z.eqb_eq (zlen segs) _)) by lia. cbn [negb orb].
  assert (s_off s = 0) as Eo by (pose proof (sc_laid _ _ Hcore) as Hl; rewrite E in Hl; apply Hl). change 0 with (zlen (@nil seg)) at 1. rewrite <- Eo at 1.
  apply (validate_places_ok _ B [] s); [done|done|]. intros j Hj. unfold vget. case_cond; [|unfold zlen in Hj; cbn in Hj; lia]. apply lookup_replicate_2. lia.
Qed.
End validate.
End HeapValidate.
