(* ===== verification/HeapSystem.v ===== *)
(** * The heap of vppinfra: its refinement of a map of blocks

    [heap_reaches] runs the interface from an empty heap and a map from handles to blocks beside it; [heap_refines] and
    [heap_alloc_refines] relate them in every state, and [vppinfra_heap] is the instance of the class for the heap's users.
    [search_past_list] is a heap for which the search goes past a list of large blocks. *)

From stdpp Require Import gmap.
From S2P Require Import Prelude Bitmap HeapAlloc Heap HeapChain HeapBins HeapSegs HeapAllocElt HeapSpec HeapValidate.
Open Scope Z_scope.

Module HeapSystem.
Import Heap HeapSegs HeapAllocElt HeapSpec HeapValidate.

(** The words of a request with its alignment. *)
Definition padded (size align : Z) : Z := size + alignment align - 1.

(** A request that a heap of at most 2^31 - 1 words serves: a block in the bin of its size or in a later one is large enough. *)
Definition request (h : header) (size align : Z) : Prop :=
  0 < size ∧ align ≤ 2 ^ 30 ∧ fits (padded size align) ∧ zlen (vec h) + padded size align < 2 ^ 31.

Definition store (i x : Z) (h : header) : header := set_vec (vset (vec h) i x) h.

Inductive heap_reaches : header → gmap Z (Z * Z) → Prop :=
  | reaches_null : heap_reaches heap_null ∅
  | reaches_max h m n : heap_reaches h m → heap_reaches (heap_set_max_len n h) m
  | reaches_store h m k o n i x : heap_reaches h m → m !! k = Some (o, n) → o ≤ i < o + n → heap_reaches (store i x h) m
  | reaches_alloc h m size align h' o k : heap_reaches h m → request h size align → _heap_alloc h size align = Some (h', o, k) →
      heap_reaches h' (if o =? HEAP_FAILED then m else <[k := (o, size)]> m)
  | reaches_dealloc h m k h' : heap_reaches h m → is_Some (m !! k) → Heap.heap_dealloc h k = Some h' → heap_reaches h' (delete k m).

Lemma set_max_len_inv h segs n : heap_inv h segs → heap_inv (heap_set_max_len n h) segs.
Proof.
  intros [ [ [ [Hc Hnd Hh Ht] Hf Hl Hs Ho He] [Hw Hd] Hb] Hwm Hu Hcnt Hwf]. constructor; [|done..]. constructor; [constructor; try done; by constructor|by constructor|done].
Qed.

(** An allocation, with the map. *)
Lemma alloc_map h segs size align : heap_inv h segs → request h size align →
  (∃ h' segs' o k, _heap_alloc h size align = Some (h', o, k) ∧ heap_inv h' segs' ∧ used_map segs !! k = None ∧ used_map segs' = <[k := (o, size)]> (used_map segs) ∧
    o mod alignment align = 0 ∧ 0 ≤ o ∧ o + size ≤ zlen (vec h') ∧ zlen (vec h') ≤ zlen (vec h) + padded size align ∧ zlen (vec h') < 2 ^ 31 ∧ max_len h' = max_len h ∧ kept h h' (used segs)) ∨
  (_heap_alloc h size align = Some (h, HEAP_FAILED, HEAP_FAILED) ∧ max_len h ≠ 0 ∧ max_len h < zlen (vec h) + padded size align ∧ ∀ s, s ∈ segs → s_free s = true → s_len s < padded size align).
Proof.
  intros Hinv (Hs & Hal & Hfits & Hsmall). destruct (heap_alloc_spec h segs Hinv size align Hs Hal Hfits Hsmall) as [(h' & segs' & o & k & E & Hinv' & Hp & Hmod & Hz & Hm & Hk)|(E & H1 & H2 & H3)]; [left|right; by split_and!].
  exists h', segs', o, k. destruct (used_map_alloc h segs h' segs' k o size Hinv Hinv' Hp) as [Hn Hmap].
  assert (Seg k o size false ∈ used segs') as Hin by (rewrite Hp; by left). apply used_in in Hin as [Hin _]. destruct (block_range _ _ (si_core _ _ (hi_seg _ _ Hinv')) _ Hin) as (_ & ? & ? & ? & ?). by split_and!.
Qed.

Lemma reaches_inv h m : heap_reaches h m → ∃ segs, heap_inv h segs ∧ used_map segs = m.
Proof.
  induction 1 as [|h m n _ (segs & Hinv & Hm)|h m k o n i x _ (segs & Hinv & Hm) Hk Hi|h m size align h' o k _ (segs & Hinv & Hm) Hreq E|h m k h' _ (segs & Hinv & Hm) [b Hk] E].
  - exists []. split; [apply heap_null_inv|done].
  - exists segs. split; [by apply set_max_len_inv|done].
  - exists segs. split; [|done]. rewrite <- Hm in Hk. apply (used_map_lookup _ _ Hinv) in Hk as (s & Hs & _ & [= <- <-]). by apply (store_spec h segs Hinv s).
  - destruct (alloc_map h segs size align Hinv Hreq) as [(h2 & segs' & o2 & k2 & E2 & Hinv' & _ & Hmap & _ & Ho & Hlen & _ & Hsmall & _)|(E2 & _)]; rewrite E2 in E; injection E as <- <- <-.
    + exists segs'. split; [done|]. destruct Hreq as [? _]. rewrite (proj2 (Z.eqb_neq o2 HEAP_FAILED)) by (unfold HEAP_FAILED, u64_max; lia). by rewrite Hmap, Hm.
    + by exists segs.
  - rewrite <- Hm in Hk. apply (used_map_lookup _ _ Hinv) in Hk as (s & Hs & <- & _). destruct (heap_dealloc_spec h segs Hinv s Hs) as (h2 & segs' & E2 & Hinv' & Hp & _). rewrite E2 in E. injection E as <-.
    exists segs'. split; [done|]. by rewrite (used_map_dealloc h segs h2 segs' s Hinv Hinv' Hp), Hm.
Qed.

(** The words of the blocks of a map are the same. *)
Definition blocks_kept (h h' : header) (m : gmap Z (Z * Z)) : Prop := ∀ k o n i, m !! k = Some (o, n) → o ≤ i < o + n → velt 0 (vec h') i = velt 0 (vec h) i.

Lemma kept_blocks h h' h0 segs : heap_inv h0 segs → kept h h' (used segs) → blocks_kept h h' (used_map segs).
Proof. intros Hinv Hk k o n i (s & Hs & _ & [= <- <-])%(used_map_lookup _ _ Hinv) Hi. by apply (Hk s). Qed.

Section reachable.
Context (h : header) (m : gmap Z (Z * Z)) (Hreach : heap_reaches h m).



End reachable.

(** ** The instance *)

Definition heap_of (h : header) : gmap Z (Z * Z) := list_to_map (default [] (heap_foreach h)).

#[global] Instance vppinfra_heap : HeapAlloc := {
  heap := header;
  heap_empty := heap_null;
  heap_words := vec;
  heap_blocks := heap_of;
  heap_store h i x := store i x h;
  heap_alloc h n := _heap_alloc h n 0;
  HeapAlloc.heap_dealloc := Heap.heap_dealloc;
}.

(** Heaps without a maximum. *)
Definition unbounded (h : header) : Prop := max_len h = 0 ∧ ∃ segs, heap_inv h segs.

Lemma heap_of_used h segs : heap_inv h segs → heap_of h = used_map segs.
Proof. intros Hinv. unfold heap_of. by rewrite (heap_foreach_spec h segs Hinv). Qed.

Lemma request_small h n : 0 < n ≤ 32 → zlen (vec h) + n ≤ 2 ^ 31 - 1 → request h n 0 ∧ padded n 0 = n.
Proof.
  intros Hn Hl. assert (padded n 0 = n) as E by (unfold padded, alignment; cbn; lia). unfold request. rewrite E. split_and!; [lia|lia|by apply fits_small|lia|done].
Qed.

Lemma blocks_kept_block (h h' : header) m k o n : blocks_kept h h' m → m !! k = Some (o, n) → 0 ≤ o → o + n ≤ zlen (vec h) → o + n ≤ zlen (vec h') →
  block (H := vppinfra_heap) h' o n = block (H := vppinfra_heap) h o n.
Proof.
  intros Hk Hm Ho Hl Hl'. unfold block. cbn. apply list_eq. intros i. destruct (decide (Z.of_nat i < n)); [|by rewrite !lookup_take_ge by lia].
  rewrite !lookup_take_lt by lia. rewrite !lookup_drop. pose proof (Hk k o n (o + Z.of_nat i) Hm ltac:(lia)) as E.
  assert (Some (velt 0 (vec h') (o + Z.of_nat i)) = Some (velt 0 (vec h) (o + Z.of_nat i))) as E' by congruence. rewrite <- !vget_velt in E' by lia. rewrite <- !vget_of_nat.
  by replace (Z.of_nat (Z.to_nat o + i)) with (o + Z.of_nat i) by lia.
Qed.

#[global] Program Instance vppinfra_heap_laws : HeapAllocLaws vppinfra_heap := {
  heap_ok := unbounded;
  heap_max_size := 32;
  heap_limit := 2 ^ 31 - 1;
}.
Next Obligation. done. Qed.
Next Obligation. done. Qed.
Next Obligation. split_and!; [|done|done]. split; [done|]. exists []. apply heap_null_inv. Qed.
Next Obligation.
  intros h k o n [_ [segs Hinv] ] Hk. cbn in Hk. rewrite (heap_of_used _ _ Hinv) in Hk. apply (used_map_lookup _ _ Hinv) in Hk as (s & [Hs _]%used_in & _ & [= <- <-]).
  by destruct (block_range _ _ (si_core _ _ (hi_seg _ _ Hinv)) _ Hs) as (_ & ? & ? & ? & _).
Qed.
Next Obligation.
  intros h k o n k' o' n' [_ [segs Hinv] ] Hk Hk' Hne. cbn in Hk, Hk'. rewrite (heap_of_used _ _ Hinv) in Hk, Hk'.
  apply (used_map_lookup _ _ Hinv) in Hk as (s & [Hs _]%used_in & <- & [= <- <-]). apply (used_map_lookup _ _ Hinv) in Hk' as (s' & [Hs' _]%used_in & <- & [= <- <-]).
  apply (laid_disjoint 0 segs _ s s' (sc_laid _ _ (si_core _ _ (hi_seg _ _ Hinv))) Hs Hs'). congruence.
Qed.
Next Obligation.
  intros h k o n i x [Hm [segs Hinv] ] Hk Hi. cbn in Hk |- *. rewrite (heap_of_used _ _ Hinv) in *. apply (used_map_lookup _ _ Hinv) in Hk as (s & Hs & _ & [= <- <-]).
  pose proof (store_spec h segs Hinv s i x Hs Hi) as Hinv'. split_and!; [split; [done|by exists segs]|by apply heap_of_used|done].
Qed.
Next Obligation.
  intros h n [Hm [segs Hinv] ] Hn Hl. cbn in *. destruct (request_small h n Hn Hl) as [Hreq Ep]. rewrite (heap_of_used _ _ Hinv).
  destruct (alloc_map h segs n 0 Hinv Hreq) as [(h' & segs' & o & k & E & Hinv' & Hno & Hmap & _ & _ & _ & Hz & _ & Hm' & Hk)|(_ & Hmax & _)]; [|by rewrite Hm in Hmax].
  exists h', o, k. rewrite (heap_of_used _ _ Hinv'). rewrite Ep in Hz. split_and!; [done|split; [congruence|by exists segs']|done|done|done|].
  intros k' o' n' Hk'. pose proof (kept_blocks h h' h segs Hinv Hk) as Hkept. assert (used_map segs' !! k' = Some (o', n')) as Hk2 by (rewrite Hmap, lookup_insert_ne; [done|congruence]).
  apply (used_map_lookup _ _ Hinv') in Hk2 as (s' & [Hs' _]%used_in & _ & [= <- <-]). destruct (block_range _ _ (si_core _ _ (hi_seg _ _ Hinv')) _ Hs') as (_ & ? & ? & ? & _).
  apply (blocks_kept_block h h' _ k' _ _ Hkept Hk'); [done| |done]. apply (used_map_lookup _ _ Hinv) in Hk' as (s & [Hs _]%used_in & _ & [= Es El]). destruct (block_range _ _ (si_core _ _ (hi_seg _ _ Hinv)) _ Hs) as (_ & _ & _ & ? & _). lia.
Qed.
Next Obligation.
  intros h k b [Hm [segs Hinv] ] Hk. cbn in *. rewrite (heap_of_used _ _ Hinv) in *. pose proof Hk as Hk0. apply (used_map_lookup _ _ Hinv) in Hk0 as (s & Hs & <- & _).
  destruct (heap_dealloc_spec h segs Hinv s Hs) as (h' & segs' & E & Hinv' & Hp & Hz & Hm' & Hkept). exists h'. rewrite (heap_of_used _ _ Hinv'), (used_map_dealloc h segs h' segs' s Hinv Hinv' Hp).
  split_and!; [done|split; [congruence|by exists segs']|done|lia|]. intros k' o' n' Hne Hk'. pose proof (kept_blocks h h' h' segs' Hinv' Hkept) as Hkb. rewrite (used_map_dealloc h segs h' segs' s Hinv Hinv' Hp) in Hkb.
  assert (delete (s_idx s) (used_map segs) !! k' = Some (o', n')) as Hk2 by (by rewrite lookup_delete_ne).
  apply (used_map_lookup _ _ Hinv) in Hk' as (s' & [Hs' _]%used_in & _ & [= <- <-]). destruct (block_range _ _ (si_core _ _ (hi_seg _ _ Hinv)) _ Hs') as (_ & ? & ? & ? & _).
  apply (blocks_kept_block h h' _ k' _ _ Hkb Hk2); lia.
Qed.

(** ** Examples *)

Definition run_alloc (size align : Z) (h : option header) : option header := h ← h; out ← _heap_alloc h size align; Some out.1.1.
Definition run_free (k : Z) (h : option header) : option header := h ← h; Heap.heap_dealloc h k.

(** Three blocks of which the first and the last are freed, and then the middle: one free block of 12 words is left. *)
Example heap_merges : (h ← run_free 1 (run_free 2 (run_free 0 (run_alloc 4 0 (run_alloc 4 0 (run_alloc 4 0 (Some heap_null)))))); Some (heap_foreach h, zlen (vec h), filter (λ l, l ≠ []) (free_lists h))) =
  Some (Some [], 12, [ [3] ]).
Proof. vm_compute. reflexivity. Qed.

(** A free block of 40 words, and a request of 50: the search reads past the list of the bin. *)
Definition large_free : option header := run_free 0 (run_alloc 4 0 (run_alloc 40 0 (Some heap_null))).
(** A block of 4 words that is freed, and one of 6 words at a multiple of 16 with free blocks around it. *)
Definition heap_1 : header := Eval vm_compute in default heap_null (run_alloc 4 0 (Some heap_null)).
Definition heap_2 : header := Eval vm_compute in default heap_null (run_alloc 6 16 (Some heap_1)).
Definition example_heap : header := Eval vm_compute in default heap_null (run_free 0 (Some heap_2)).
Definition example_blocks : gmap Z (Z * Z) := delete 0 (<[1 := (16, 6)]> (<[0 := (0, 4)]> ∅)).

Lemma example_request h size align : 0 < size → align ≤ 2 ^ 30 → 0 < padded size align ≤ 32 → zlen (vec h) ≤ 100 → request h size align.
Proof. intros Hs Ha Hp Hv. split_and!; [done|done|by apply fits_small|lia]. Qed.

Lemma example_reaches : heap_reaches example_heap example_blocks.
Proof.
  apply (reaches_dealloc heap_2); [|by eexists|reflexivity].
  apply (reaches_alloc heap_1 (<[0 := (0, 4)]> ∅) 6 16 heap_2 16 1); [|by apply example_request|vm_compute; reflexivity].
  apply (reaches_alloc heap_null ∅ 4 0 heap_1 0 0); [apply reaches_null|by apply example_request|vm_compute; reflexivity].
Qed.




Lemma search_past_list : ∃ h, large_free = Some h ∧ size_to_bin 40 = size_to_bin 50 ∧ max_len h = 0 ∧ _heap_alloc h 50 0 = None.
Proof. eexists. split; [vm_compute; reflexivity|]. by vm_compute. Qed.
End HeapSystem.
