(* ===== verification/FeatureToy.v ===== *)
(** * The feature arcs: an example

    The heap of vppinfra, a sort of lists and the nodes of a small router, on which the definitions run and the properties hold. *)

From stdpp Require Import gmap gmultiset strings sorting functions.
From S2P Require Import Prelude Bitmap Pool Graph FeatureOrder HeapAlloc Config ConfigHeap ConfigWire ConfigSpec ConfigOps Feature FeatureSpec FeatureSystem FeatureInit HeapSystem.
Open Scope Z_scope.

Module FeatureToy.
Import ClibBitmap ClibPool Graph Config ConfigHeap ConfigWire ConfigSpec ConfigOps Feature FeatureSpec FeatureSystem FeatureInit.
Import FeatureOrder(vnet_feature_registration, node_name, regs_ok, before, precedes, feature_arc, vnet_feature_arc_init).

(** ** A sort *)

Definition key_le {A} (f : A → Z) (a b : A) : Prop := f a ≤ f b.
#[local] Instance key_le_dec {A} (f : A → Z) : RelDecision (key_le f) := λ a b, Z.le_dec (f a) (f b).

#[local] Instance merge_qsort : Qsort := { qsort A f := merge_sort (key_le f) }.
#[local] Instance merge_qsort_laws : QsortLaws merge_qsort.
Proof.
  split; intros A f l; cbn.
  - apply merge_sort_Permutation.
  - assert (Total (key_le f)) by (intros a b; unfold key_le; lia). apply (Sorted_merge_sort (key_le f)).
Qed.

(** ** A router

    Packets come in at node 0; nodes 1 and 2 are features, and node 3 is the end of the arc.  There is no node "dhcp". *)

Definition toy_by_name (name : string) : option Z :=
  (list_to_map [("ip4-input", 0); ("acl", 1); ("nat", 2); ("ip4-lookup", 3)]%string : gmap string Z) !! name.

Definition toy_arcs : list vnet_feature_arc_registration := [ArcRegistration "ip4-unicast" ["ip4-input"]]%string.
Definition toy_fregs : list (string * vnet_feature_registration) :=
  [("ip4-unicast", FeatureOrder.Registration "ip4-lookup" [] []); ("ip4-unicast", FeatureOrder.Registration "nat" ["ip4-lookup"] ["acl"]);
   ("ip4-unicast", FeatureOrder.Registration "acl" ["ip4-lookup"] []); ("ip4-unicast", FeatureOrder.Registration "dhcp" ["acl"] [])]%string.

Definition toy_node : vlib_node := Node [] ∅ [] [].
Definition toy_graph : list vlib_node := replicate 5 toy_node.
Definition toy_net : graph := toy_graph.

Definition toy_cm : vnet_config_main :=
  ConfigMain pool_null ∅ heap_empty [0] 3 [NO_INDEX; 1; 2; 3] [].

Definition toy_main : vnet_feature_main :=
  FeatureMain {["ip4-unicast"%string := 0]}
    [list_to_map [("dhcp", 0); ("acl", 1); ("nat", 2); ("ip4-lookup", 3)]%string] [FeatureConfigMain toy_cm []] [ [] ] [ [] ] [].

Lemma toy_init : vnet_feature_init toy_by_name toy_arcs toy_fregs = Some (inr toy_main).
Proof. vm_cast_no_check (eq_refl (vnet_feature_init toy_by_name toy_arcs toy_fregs)). Qed.

(** The words of the nodes: an access list has one, a translation none. *)
Definition toy_words (x : Z) : Z := if x =? 1 then 1 else if x =? 2 then 0 else -1.

Definition enabled_acl : option (vnet_feature_main * graph * Z) := run_op 0 toy_main toy_net (Enable 7 1 [42]).

Example acl_path : (r ← enabled_acl; packet_path 9 r.1.1 r.1.2 toy_words 0 7 0 0 (Buffer 0 0)) = Some (Some [(1, [42])]).
Proof. vm_compute. reflexivity. Qed.

Example both_path :
  (r ← run_op 0 toy_main toy_net (Enable 7 2 []); r ← run_op 0 r.1.1 r.1.2 (Enable 7 1 [42]); packet_path 9 r.1.1 r.1.2 toy_words 0 7 0 0 (Buffer 0 0))
  = Some (Some [(1, [42]); (2, [])]).
Proof. vm_compute. reflexivity. Qed.

Example after_disable :
  (r ← run_op 0 toy_main toy_net (Enable 7 2 []); r ← run_op 0 r.1.1 r.1.2 (Enable 7 1 [42]);
   r ← run_op 0 r.1.1 r.1.2 (Disable 7 1 [42]); packet_path 9 r.1.1 r.1.2 toy_words 0 7 0 0 (Buffer 0 0)) = Some (Some [(2, [])]).
Proof. vm_compute. reflexivity. Qed.

(** The access list stays, but packets go by. *)
Example disabled_other :
  (r ← enabled_acl; r ← run_op 0 r.1.1 r.1.2 (Disable 7 2 []); packet_path 9 r.1.1 r.1.2 toy_words 0 7 0 0 (Buffer 0 0)) = Some None.
Proof. vm_compute. reflexivity. Qed.

(** ** The properties hold there *)

Lemma toy_nodes x : 0 ≤ x < 5 → vget toy_graph x = Some toy_node.
Proof. intros Hx. unfold vget. destruct (Z.leb_spec 0 x); [|lia]. apply lookup_replicate_2. lia. Qed.

Lemma toy_velt x : velt node_0 toy_graph x = toy_node.
Proof.
  destruct (decide (0 ≤ x < 5)) as [Hx|Hx]; [unfold velt; by rewrite toy_nodes|]. apply velt_out. change (zlen toy_graph) with 5. lia.
Qed.

Lemma velt_null (i : Z) : velt 0 [] i = 0.
Proof. unfold velt, vget. by case_cond; [rewrite lookup_nil|]. Qed.

Lemma toy_siblings x y : siblings toy_graph x y → False.
Proof. unfold siblings. rewrite toy_velt. unfold bit. cbn. by rewrite velt_null, Z.bits_0. Qed.

Lemma toy_graph_ok : nodes_ok toy_graph.
Proof.
  constructor.
  - done.
  - intros x n Hn. assert (n = toy_node) as ->.
    { rewrite <- (toy_velt x). unfold velt. by rewrite Hn. }
    constructor; cbn; [constructor| |intros y Hy|done].
    + intros y s. rewrite lookup_empty. split; [done|]. intros [Hs _]. unfold vget in Hs. case_match; [|done]. by rewrite lookup_nil in Hs.
    + unfold bit in Hy. by rewrite velt_null, Z.bits_0 in Hy.
  - intros x y _ []%toy_siblings.
  - intros x y _ []%toy_siblings.
Qed.

Lemma toy_arc_ok : arc_ok toy_cm.
Proof.
  assert (∀ i x, vget (node_index_by_feature_index toy_cm) i = Some x → i = 0 ∧ x = NO_INDEX ∨ 1 ≤ i ≤ 3 ∧ x = i) as Hget.
  { intros i x Hi. pose proof (vget_Some_range _ _ _ Hi) as Hr. change (zlen _) with 4 in Hr.
    assert (i = 0 ∨ i = 1 ∨ i = 2 ∨ i = 3) as [-> | [-> | [-> | ->] ] ] by lia; vm_compute in Hi; injection Hi as <-; [left|right..]; split; (done || lia). }
  constructor; cbn; [done| |intros i [ [_ ?]|[_ ?] ]%Hget; [done|unfold zlen; cbn; lia]|done].
  intros i j x [ [-> ->]|[_ ->] ]%Hget Hj Hne; [done|]. by apply Hget in Hj as [ [_ ?]|[_ ?] ].
Qed.

Lemma toy_net_ok : net_ok toy_cm toy_net.
Proof.
  assert (∀ y, inner toy_cm y → 1 ≤ y < 5) as Hinner.
  { intros y [->|[Hne [i Hi] ] ]; [cbn; lia|]. pose proof (vget_Some_range _ _ _ Hi) as Hr. change (zlen _) with 4 in Hr.
    assert (i = 0 ∨ i = 1 ∨ i = 2 ∨ i = 3) as [-> | [-> | [-> | ->] ] ] by lia; vm_compute in Hi; injection Hi as <-; (done || lia). }
  constructor.
  - apply toy_graph_ok.
  - intros x ->%list_elem_of_singleton. done.
  - intros y Hy%Hinner. change (0 ≤ y < 5). lia.
  - intros x x' ->%list_elem_of_singleton ->%list_elem_of_singleton. done.
  - intros x y ->%list_elem_of_singleton Hy%Hinner Hs. inv Hs as [|? ? ? Hs']; [lia|]. by apply toy_siblings in Hs'.
Qed.

Lemma toy_fresh : fresh_arc toy_words 0 0 toy_main toy_net.
Proof.
  constructor; try done.
  - intros cm indices [= <- <-]. split_and!; try done; [apply toy_arc_ok|apply toy_net_ok].
  - intros x. change (match vget toy_graph x with Some n => zlen (next_nodes n) | None => 0 end ≤ 0). destruct (vget toy_graph x) as [n|] eqn:Hn; [|done]. assert (n = toy_node) as ->; [|done].
    rewrite <- (toy_velt x). unfold velt. by rewrite Hn.
Qed.

Lemma toy_room cm : same_arc toy_cm cm → ∀ n, 0 ≤ n < 100 → room 0 cm n.
Proof. intros (Hs & _) n Hn. unfold room, step_slots. rewrite Hs. cbn. change (zlen [0]) with 1. unfold u32_max. lia. Qed.

Lemma toy_enable : op_ok toy_words toy_cm spec_0 (Enable 7 1 [42]).
Proof. split_and!; [done..|]. exists 1. split_and!; done. Qed.


(** The state with the access list enabled. *)
Lemma toy_enabled : ∃ fm' g' fc', run_op 0 toy_main toy_net (Enable 7 1 [42]) = Some (fm', g', 0) ∧
  reaches toy_words 0 0 matched 1 fm' g' (spec_step spec_0 (Enable 7 1 [42])) ∧
  vget (feature_config_mains fm') 0 = Some fc' ∧ same_arc toy_cm (config_main fc').
Proof.
  pose proof (reaches_fresh toy_words 0 0 matched _ _ toy_fresh) as Hfresh.
  destruct (run_op_ok toy_words 0 0 0 toy_main toy_net spec_0 (Enable 7 1 [42]) (FeatureConfigMain toy_cm [])) as
    (fm' & g' & Hrun & _ & _ & fc' & Hfc' & Hsame); [by eapply reaches_rep|done|done|by apply toy_room|apply toy_enable|].
  exists fm', g', fc'. split_and!; try done. apply (reaches_op toy_words 0 0 matched 0 _ _ _ (FeatureConfigMain toy_cm []) _ _ _ 0 Hfresh); try done. apply toy_enable.
Qed.


Lemma disable_absent_stops_arc_witness :
  ∃ fm1 g1 fm2 g2, run_op 0 toy_main toy_net (Enable 7 1 [42]) = Some (fm1, g1, 0) ∧
    run_op 0 fm1 g1 (Disable 7 2 []) = Some (fm2, g2, 0) ∧ vnet_have_features fm2 0 7 = Some false.
Proof.
  destruct toy_enabled as (fm' & g' & fc' & Hrun & Hreach & Hfc' & Hsame).
  destruct (disable_absent_stops_arc toy_words 0 0 ltac:(done) 1 fm' g' _ fc' 7 2 [] (reaches_rep toy_words 0 0 ltac:(done) _ _ _ _ _ Hreach) Hfc') as (fm2 & g2 & H1 & _ & H2).
  - by apply toy_room.
  - done.
  - done.
  - cbn [spec_step]. by rewrite fn_lookup_insert.
  - cbn [spec_step]. rewrite fn_lookup_insert. cbn [enabled spec_0]. multiset_solver.
  - by exists fm', g', fm2, g2.
Defined.

Lemma enable_missing_node_witness :
  ∃ fm', vnet_feature_enable_disable fm' toy_net "ip4-unicast" "none" 7 1 [] = Some (fm', toy_net, VNET_API_ERROR_INVALID_VALUE_2) ∧
    vnet_feature_enable_disable toy_main toy_net "ip4-unicast" "dhcp" 7 1 [] = Some (fm', toy_net, 0) ∧
    vnet_feature_arc_start_with_data fm' 0 7 0 (Buffer 0 0) 0 = None.
Proof.
  destruct (enable_missing_node toy_words 0 0 ltac:(done) 0 toy_main toy_net spec_0 (FeatureConfigMain toy_cm []) 7 0 []) as (fm' & Hrun & _ & Hstart);
    [apply (reaches_rep toy_words 0 0 ltac:(done) (λ _ _, True)), reaches_fresh, toy_fresh|done..|]. exists fm'. split_and!; [|done|by apply Hstart].
  injection Hrun as <-. reflexivity.
Defined.

Lemma toy_names n x : toy_by_name n = Some x → (n, x) ∈ [("ip4-input", 0); ("acl", 1); ("nat", 2); ("ip4-lookup", 3)]%string.
Proof. apply elem_of_list_to_map_2. Qed.

Lemma toy_arc_regs_ok : regs_ok (arc_features "ip4-unicast" toy_fregs).
Proof.
  set (regs := arc_features _ _). vm_compute in regs. split; [done|]. split; [by apply (bool_decide_unpack _); vm_compute|]. intros a b (r & Hr & Hab).
  unfold regs in Hr. rewrite !list.elem_of_cons in Hr.
  destruct Hr as [-> | [-> | [-> | [-> | ?%not_elem_of_nil] ] ] ]; [..|done]; cbn in Hab; destruct Hab as [[<- Hb]|[<- Hb] ];
    repeat (apply list.elem_of_cons in Hb as [-> | Hb]; [split; reflexivity|]); by apply not_elem_of_nil in Hb.
Qed.

Lemma toy_order : vnet_feature_arc_init (arc_features "ip4-unicast" toy_fregs) =
  Some (inr (FeatureOrder.FeatureArc [0; 1; 2; 3] ["dhcp"; "acl"; "nat"; "ip4-lookup"]%string)).
Proof. vm_compute. reflexivity. Qed.

Lemma vnet_feature_init_spec_witness :
  ∃ i names, vnet_get_feature_arc_index toy_main "ip4-unicast" = i ∧ i ≠ NO_ARC ∧ precedes names "acl"%string "nat"%string ∧
    ∀ j, vget names j = Some "nat"%string → vnet_get_feature_index toy_main i "nat" = Some j.
Proof.
  destruct (vnet_feature_init_spec toy_by_name toy_arcs toy_fregs toy_main (ArcRegistration "ip4-unicast" ["ip4-input"]%string) toy_init) as
    (i & cm & names & Hi & Hne & _ & _ & _ & _ & _ & _ & _ & _ & _ & _ & Horder & Hfind & _).
  - repeat constructor. apply not_elem_of_nil.
  - done.
  - intros n n' x H1%toy_names H2%toy_names. set_solver.
  - intros n x H1%toy_names. set_solver.
  - by left.
  - done.
  - apply toy_arc_regs_ok.
  - intros arc n Harc Hn. cbn [arc_name] in Harc. rewrite toy_order in Harc. injection Harc as <-. injection Hn as <-. by exists 3.
  - exists i, names. split_and!; [done|done| |intros j Hj; by apply Hfind]. apply Horder. exists (FeatureOrder.Registration "nat" ["ip4-lookup"] ["acl"])%string.
    split; [|right; split; [done|by left] ]. unfold arc_features. apply elem_of_reverse, list_elem_of_fmap. eexists (_, _). split; [reflexivity|].
    apply list_elem_of_filter. split; [done|]. right. by left.
Defined.
End FeatureToy.
