(* ===== verification/Bihash.v ===== *)
(** * Bounded-index hash tables (vppinfra/bihash_template.c, for 8-byte keys and values)

    A table of buckets; a bucket in use holds the offset in the heap of a vector of
    [2 ^ log2_pages] pages of four pairs.  A key lives on its home page, or anywhere in a
    bucket marked for linear search.  The single writer (it holds [writer_lock]) lets the
    readers see a private copy of the bucket while it changes the original, and an update is
    here the list of the states between its stores, with the last one its result.

    The heap maps the offsets of the value vectors to their pairs.  Its allocator (mheap.c) is
    a parameter with its contract, and so is the hash function, which the template takes from
    the instantiation: [clib_xxhash] is one.  The vectors [buckets], [freelists] and
    [working_copies] themselves are lists. *)

From stdpp Require Import gmap.
From S2P Require Import Prelude Bitmap.

Module Bh.

(** ** Outcomes

    [OutOfMemory] is the abort of an allocation that the heap refuses, [Blocked] a lock that
    another writer holds, [Fault] a failed assertion or an access outside of a vector. *)

Inductive res (A : Type) := Ok (a : A) | OutOfMemory | Blocked | Fault.
Arguments Ok {A} a.
Arguments OutOfMemory {A}.
Arguments Blocked {A}.
Arguments Fault {A}.

#[export] Instance res_bind : MBind res := λ A B f x,
  match x with Ok a => f a | OutOfMemory => OutOfMemory | Blocked => Blocked | Fault => Fault end.

Definition of_option {A} (x : option A) : res A := match x with Some a => Ok a | None => Fault end.
Definition assert (b : bool) : res () := if b then Ok () else Fault.

(** ** Data *)

Definition BIHASH_KVP_PER_PAGE : Z := 4.

Record clib_bihash_kv := Kv { key : Z; value : Z }.

#[export] Instance clib_bihash_kv_eq_dec : EqDecision clib_bihash_kv.
Proof. solve_decision. Defined.

(** A pair all of whose bytes are [0xff]. *)
Definition free_kv : clib_bihash_kv := Kv u64_max u64_max.
Definition zero_kv : clib_bihash_kv := Kv 0 0.

Definition clib_bihash_is_free (v : clib_bihash_kv) : bool := (key v =? u64_max) && (value v =? u64_max).
Definition clib_bihash_key_compare (a b : Z) : bool := a =? b.

Record clib_bihash_bucket := Bucket { offset : Z; linear_search : Z; log2_pages : Z }.

Notation heap := (gmap Z (list clib_bihash_kv)).

Record clib_bihash := BihashTable {
  buckets : list clib_bihash_bucket;
  writer_lock : Z;
  working_copies : list Z;
  saved_bucket : clib_bihash_bucket;
  nbuckets : Z;
  log2_nbuckets : Z;
  linear_buckets : Z;
  freelists : list Z;
  mheap : heap;
}.

Definition set_buckets (b : list clib_bihash_bucket) (h : clib_bihash) :=
  BihashTable b (writer_lock h) (working_copies h) (saved_bucket h) (nbuckets h) (log2_nbuckets h)
    (linear_buckets h) (freelists h) (mheap h).
Definition set_lock (l : Z) (h : clib_bihash) :=
  BihashTable (buckets h) l (working_copies h) (saved_bucket h) (nbuckets h) (log2_nbuckets h)
    (linear_buckets h) (freelists h) (mheap h).
Definition set_working_copies (w : list Z) (h : clib_bihash) :=
  BihashTable (buckets h) (writer_lock h) w (saved_bucket h) (nbuckets h) (log2_nbuckets h)
    (linear_buckets h) (freelists h) (mheap h).
Definition set_saved (b : clib_bihash_bucket) (h : clib_bihash) :=
  BihashTable (buckets h) (writer_lock h) (working_copies h) b (nbuckets h) (log2_nbuckets h)
    (linear_buckets h) (freelists h) (mheap h).
Definition set_linear_buckets (n : Z) (h : clib_bihash) :=
  BihashTable (buckets h) (writer_lock h) (working_copies h) (saved_bucket h) (nbuckets h) (log2_nbuckets h)
    n (freelists h) (mheap h).
Definition set_freelists (f : list Z) (h : clib_bihash) :=
  BihashTable (buckets h) (writer_lock h) (working_copies h) (saved_bucket h) (nbuckets h) (log2_nbuckets h)
    (linear_buckets h) f (mheap h).
Definition set_mheap (m : heap) (h : clib_bihash) :=
  BihashTable (buckets h) (writer_lock h) (working_copies h) (saved_bucket h) (nbuckets h) (log2_nbuckets h)
    (linear_buckets h) (freelists h) m.

Definition set_bucket (i : Z) (b : clib_bihash_bucket) (h : clib_bihash) : clib_bihash :=
  set_buckets (vset (buckets h) i b) h.
Definition bucket_at (h : clib_bihash) (i : Z) : res clib_bihash_bucket := of_option (vget (buckets h) i).

(** ** The environment

    [clib_bihash_hash] is the hash of a key.  [mheap_resize m old n] is the offset that
    [mheap] gives to a vector of [n] pages, 64 bytes each, when the vector at [old] grows ([0]
    for a new one), or [None] when the memory is exhausted. *)

Class BihashEnv := {
  clib_bihash_hash : Z → Z;
  mheap_resize : heap → Z → Z → option Z;
}.

Class BihashEnvOk (E : BihashEnv) : Prop := {
  hash_range k : in_u64 (clib_bihash_hash k);
  resize_range m old n o : mheap_resize m old n = Some o → 0 < o < 2 ^ 32 ∧ n ≤ 2 ^ 26;
  resize_fresh m old n o : mheap_resize m old n = Some o → m !! o = None ∨ (o = old ∧ old ≠ 0);
}.

Definition PRIME64_1 : Z := 11400714785074694791.
Definition PRIME64_2 : Z := 14029467366897019727.
Definition PRIME64_3 : Z := 1609587929392839161.
Definition PRIME64_4 : Z := 9650029242287828579.
Definition PRIME64_5 : Z := 2870177450012600261.

Definition XXH_rotl64 (x r : Z) : Z := Z.lor (u64 (Z.shiftl x r)) (Z.shiftr x (64 - r)).

Definition clib_xxhash (k : Z) : Z :=
  let k1 := k in
  let h64 := u64 (11400714819323198483 + PRIME64_5 + 8) in
  let k1 := u64 (k1 * PRIME64_2) in
  let k1 := XXH_rotl64 k1 31 in
  let k1 := u64 (k1 * PRIME64_1) in
  let h64 := Z.lxor h64 k1 in
  let h64 := u64 (XXH_rotl64 h64 27 * PRIME64_1 + PRIME64_4) in
  let h64 := Z.lxor h64 (Z.shiftr h64 33) in
  let h64 := u64 (h64 * PRIME64_2) in
  let h64 := Z.lxor h64 (Z.shiftr h64 29) in
  let h64 := u64 (h64 * PRIME64_3) in
  Z.lxor h64 (Z.shiftr h64 32).

(** ** Memory *)

Definition vec_len (v : list clib_bihash_kv) : Z := zlen v / BIHASH_KVP_PER_PAGE.

(** [_vec_len (v) = n] *)
Definition set_vec_len (n : Z) (v : list clib_bihash_kv) : list clib_bihash_kv :=
  take (Z.to_nat (n * BIHASH_KVP_PER_PAGE)) v.

Definition clib_bihash_get_value (h : clib_bihash) (off : Z) : res (list clib_bihash_kv) :=
  of_option (mheap h !! off).

Definition clib_bihash_get_offset (h : clib_bihash) (v : Z) : res Z :=
  _ ← assert (v <? 4294967296); Ok v.

Definition store (off : Z) (v : list clib_bihash_kv) (h : clib_bihash) : clib_bihash :=
  set_mheap (<[off := v]> (mheap h)) h.

(** The store of a pair into a value vector. *)
Definition store_kv (h : clib_bihash) (off i : Z) (e : clib_bihash_kv) : res clib_bihash :=
  v ← clib_bihash_get_value h off;
  _ ← of_option (vget v i);
  Ok (store off (vset v i e) h).

(** [memcpy] of [n] pages. *)
Definition copy_pages (dst src : list clib_bihash_kv) (n : Z) : res (list clib_bihash_kv) :=
  _ ← assert ((n <=? vec_len dst) && (n <=? vec_len src));
  Ok (take (Z.to_nat (n * BIHASH_KVP_PER_PAGE)) src ++ drop (Z.to_nat (n * BIHASH_KVP_PER_PAGE)) dst).

(** [next_free] is the first word of the first pair. *)
Definition next_free (v : list clib_bihash_kv) : res Z := e ← of_option (vget v 0); Ok (key e).
Definition set_next_free (n : Z) (v : list clib_bihash_kv) : res (list clib_bihash_kv) :=
  e ← of_option (vget v 0); Ok (vset v 0 (Kv n (value e))).

(** The first index of [i, i + n) whose pair satisfies [p]. *)
Fixpoint find_slot (p : clib_bihash_kv → bool) (v : list clib_bihash_kv) (i : Z) (n : nat) : res (option Z) :=
  match n with
  | O => Ok None
  | S n => e ← of_option (vget v i); if p e then Ok (Some i) else find_slot p v (i + 1) n
  end.

Section env.
Context `{E : BihashEnv}.

Definition value_alloc (h : clib_bihash) (log2_pages : Z) : res (clib_bihash * Z) :=
  _ ← assert (negb (writer_lock h =? 0));
  '(h, rv) ←
    (if (zlen (freelists h) <=? log2_pages) || (velt 0 (freelists h) log2_pages =? 0) then
       let h := set_freelists (vec_validate 0 (freelists h) log2_pages) h in
       match mheap_resize (mheap h) 0 (Z.shiftl 1 log2_pages) with
       | Some rv =>
           Ok (store rv (replicate (Z.to_nat (Z.shiftl 1 log2_pages * BIHASH_KVP_PER_PAGE)) zero_kv) h, rv)
       | None => OutOfMemory
       end
     else
       let rv := velt 0 (freelists h) log2_pages in
       v ← clib_bihash_get_value h rv;
       n ← next_free v;
       Ok (set_freelists (vset (freelists h) log2_pages n) h, rv));
  _ ← assert (negb (rv =? 0));
  v ← clib_bihash_get_value h rv;
  _ ← assert (vec_len v =? Z.shiftl 1 log2_pages);
  Ok (store rv (replicate (Z.to_nat (Z.shiftl 1 log2_pages * BIHASH_KVP_PER_PAGE)) free_kv) h, rv).

Definition value_free (h : clib_bihash) (v : Z) : res clib_bihash :=
  _ ← assert (negb (writer_lock h =? 0));
  kvs ← clib_bihash_get_value h v;
  let log2_pages := ClibBitmap.min_log2 (vec_len kvs) in
  _ ← assert (log2_pages <? zlen (freelists h));
  kvs ← set_next_free (velt 0 (freelists h) log2_pages) kvs;
  Ok (set_freelists (vset (freelists h) log2_pages v) (store v kvs h)).

(** [bi] is the index of the bucket [b] points to. *)
Definition make_working_copy (h : clib_bihash) (bi cpu_number : Z) : res clib_bihash :=
  let h := if zlen (working_copies h) <=? cpu_number
           then set_working_copies (vec_validate 0 (working_copies h) cpu_number) h else h in
  working_copy ← of_option (vget (working_copies h) cpu_number);
  b ← bucket_at h bi;
  let h := set_saved b h in
  let n := Z.shiftl 1 (log2_pages b) in
  let old := if working_copy =? 0 then [] else default [] (mheap h !! working_copy) in
  '(h, working_copy) ←
    (if vec_len old <? n then
       match mheap_resize (mheap h) working_copy n with
       | Some o =>
           let kvs := vec_validate zero_kv old (n * BIHASH_KVP_PER_PAGE - 1) in
           let h := store o kvs (set_mheap (delete working_copy (mheap h)) h) in
           Ok (set_working_copies (vset (working_copies h) cpu_number o) h, o)
       | None => OutOfMemory
       end
     else Ok (h, working_copy));
  kvs ← clib_bihash_get_value h working_copy;
  let h := store working_copy (set_vec_len n kvs) h in
  v ← clib_bihash_get_value h (offset b);
  kvs ← clib_bihash_get_value h working_copy;
  kvs ← copy_pages kvs v n;
  let h := store working_copy kvs h in
  off ← clib_bihash_get_offset h working_copy;
  Ok (set_bucket bi (Bucket off (linear_search b) (log2_pages b)) h).

(** ** Rehashing *)

(** The page of a key in a bucket of [2 ^ log2_pages] pages. *)
Definition home_page (h : clib_bihash) (k log2_pages : Z) : Z :=
  Z.land (Z.shiftr (clib_bihash_hash k) (log2_nbuckets h)) (Z.shiftl 1 log2_pages - 1).

(** The outer loop of [split_and_rehash], from the new contents so far; the flag is false when
    an entry finds no place. *)
Fixpoint rehash_loop (h : clib_bihash) (new_log2_pages : Z) (new_values old_values : list clib_bihash_kv)
    : res (list clib_bihash_kv * bool) :=
  match old_values with
  | [] => Ok (new_values, true)
  | e :: old_values =>
      if clib_bihash_is_free e then rehash_loop h new_log2_pages new_values old_values
      else
        let new_v := home_page h (key e) new_log2_pages * BIHASH_KVP_PER_PAGE in
        r ← find_slot clib_bihash_is_free new_values new_v (Z.to_nat BIHASH_KVP_PER_PAGE);
        match r with
        | Some j => rehash_loop h new_log2_pages (vset new_values j e) old_values
        | None => Ok (new_values, false)
        end
  end.

Definition split_and_rehash (h : clib_bihash) (old_values new_log2_pages : Z)
    : res (clib_bihash * option Z) :=
  '(h, new_values) ← value_alloc h new_log2_pages;
  old ← clib_bihash_get_value h old_values;
  kvs ← clib_bihash_get_value h new_values;
  '(kvs, done) ← rehash_loop h new_log2_pages kvs old;
  let h := store new_values kvs h in
  if (done : bool) then Ok (h, Some new_values)
  else h ← value_free h new_values; Ok (h, None).

(** The inner loop of [split_and_rehash_linear], [n] turns from [j]: the new contents, the
    next [j], and false when it runs off the end. *)
Fixpoint linear_place (n : nat) (new_values : list clib_bihash_kv) (e : clib_bihash_kv) (j : Z)
    : res (list clib_bihash_kv * Z * bool) :=
  match n with
  | O => Ok (new_values, j, false)
  | S n =>
      if clib_bihash_is_free e then Ok (new_values, j, true)
      else
        x ← of_option (vget new_values j);
        if clib_bihash_is_free x then Ok (vset new_values j e, j + 1, true)
        else linear_place n new_values e (j + 1)
  end.

Fixpoint linear_loop (new_values old_values : list clib_bihash_kv) (j new_length : Z)
    : res (list clib_bihash_kv * bool) :=
  match old_values with
  | [] => Ok (new_values, true)
  | e :: old_values =>
      '(new_values, j, done) ← linear_place (Z.to_nat (new_length - j)) new_values e j;
      if (done : bool) then linear_loop new_values old_values j new_length else Ok (new_values, false)
  end.

Definition split_and_rehash_linear (h : clib_bihash) (old_values new_log2_pages : Z)
    : res (clib_bihash * option Z) :=
  '(h, new_values) ← value_alloc h new_log2_pages;
  let new_length := Z.shiftl 1 new_log2_pages * BIHASH_KVP_PER_PAGE in
  old ← clib_bihash_get_value h old_values;
  kvs ← clib_bihash_get_value h new_values;
  '(kvs, done) ← linear_loop kvs old 0 new_length;
  let h := store new_values kvs h in
  if (done : bool) then Ok (h, Some new_values)
  else h ← value_free h new_values; Ok (h, None).

(** ** Update *)

(** The first pair and the number of pairs to look at for a key. *)
Definition search_range (h : clib_bihash) (k : Z) (b : clib_bihash_bucket) : Z * Z :=
  (if linear_search b =? 0 then home_page h k (log2_pages b) * BIHASH_KVP_PER_PAGE else 0,
   if linear_search b =? 0 then BIHASH_KVP_PER_PAGE else Z.shiftl BIHASH_KVP_PER_PAGE (log2_pages b)).

(** Try to add the new entry to the rehashed values; on failure they are freed. *)
Definition try_add (h : clib_bihash) (add_v : clib_bihash_kv) (save_new_v new_log2_pages mark_bucket_linear : Z)
    : res (clib_bihash * bool) :=
  let '(start, limit) := search_range h (key add_v) (Bucket save_new_v mark_bucket_linear new_log2_pages) in
  kvs ← clib_bihash_get_value h save_new_v;
  r ← find_slot clib_bihash_is_free kvs start (Z.to_nat limit);
  match r with
  | Some i => h ← store_kv h save_new_v i add_v; Ok (h, true)
  | None => h ← value_free h save_new_v; Ok (h, false)
  end.

(** From the label [mark_linear]: the state, the new values and their size. *)
Fixpoint mark_linear (fuel : nat) (h : clib_bihash) (add_v : clib_bihash_kv) (working_copy new_log2_pages : Z)
    : res (clib_bihash * Z * Z) :=
  match fuel with
  | O => Fault
  | S fuel =>
      let new_log2_pages := new_log2_pages - 1 in
      '(h, new_v) ← split_and_rehash_linear h working_copy new_log2_pages;
      new_v ← of_option new_v;
      '(h, added) ← try_add h add_v new_v new_log2_pages 1;
      if (added : bool) then Ok (h, new_v, new_log2_pages)
      else mark_linear fuel h add_v working_copy new_log2_pages
  end.

(** From the label [try_resplit]; the last result is [mark_bucket_linear]. *)
Definition try_resplit (h : clib_bihash) (add_v : clib_bihash_kv) (working_copy new_log2_pages : Z)
    : res (clib_bihash * Z * Z * Z) :=
  let new_log2_pages := new_log2_pages + 1 in
  '(h, new_v) ← split_and_rehash h working_copy new_log2_pages;
  match new_v with
  | Some new_v =>
      '(h, added) ← try_add h add_v new_v new_log2_pages 0;
      if (added : bool) then Ok (h, new_v, new_log2_pages, 0)
      else
        '(h, new_v, n) ← mark_linear 2 h add_v working_copy new_log2_pages;
        Ok (h, new_v, n, 1)
  | None =>
      '(h, new_v, n) ← mark_linear 2 h add_v working_copy new_log2_pages;
      Ok (h, new_v, n, 1)
  end.

(** The bucket is full: values with room for the new entry. *)
Definition expand (h : clib_bihash) (add_v : clib_bihash_kv) (cpu_number : Z)
    : res (clib_bihash * Z * Z * Z) :=
  let new_log2_pages := log2_pages (saved_bucket h) + 1 in
  working_copy ← of_option (vget (working_copies h) cpu_number);
  '(h, new_v) ← split_and_rehash h working_copy new_log2_pages;
  match new_v with
  | Some new_v =>
      '(h, added) ← try_add h add_v new_v new_log2_pages 0;
      if (added : bool) then Ok (h, new_v, new_log2_pages, 0)
      else try_resplit h add_v working_copy new_log2_pages
  | None => try_resplit h add_v working_copy new_log2_pages
  end.

(** [expand_ok].  [tmp_linear] is the field [linear_search] of [tmp_b], which this path leaves
    uninitialised. *)
Definition expand_ok (h : clib_bihash) (tmp_linear bi save_new_v new_log2_pages mark_bucket_linear : Z)
    : res (list clib_bihash) :=
  let h0 := if negb (Z.lxor tmp_linear mark_bucket_linear =? 0)
            then set_linear_buckets (u32 (linear_buckets h + (if mark_bucket_linear =? 1 then 1 else -1))) h
            else h in
  off ← clib_bihash_get_offset h0 save_new_v;
  let h1 := set_bucket bi (Bucket off mark_bucket_linear (u8 new_log2_pages)) h0 in
  h2 ← value_free h1 (offset (saved_bucket h1));
  Ok [h0; h1; h2].

(** The states of an update between its stores visible to readers, the last one first in [tr],
    and the return value. *)
Definition update : Type := list clib_bihash * Z.

Definition unlock (h : clib_bihash) (tr : list clib_bihash) (rv : Z) : res update :=
  Ok (tr ++ [set_lock 0 h], rv).

(** Store into the original of the bucket while the readers look at the copy, and restore the
    bucket. *)
Definition store_and_restore (h : clib_bihash) (tr : list clib_bihash) (bi i : Z) (e : clib_bihash_kv)
    : res update :=
  h1 ← store_kv h (offset (saved_bucket h)) i e;
  let h2 := set_bucket bi (saved_bucket h1) h1 in
  unlock h2 (tr ++ [h1; h2]) 0.

Definition clib_bihash_add_del (tmp_linear cpu_number : Z) (h : clib_bihash) (add_v : clib_bihash_kv)
    (is_add : bool) : res update :=
  let hash := clib_bihash_hash (key add_v) in
  let bi := Z.land hash (u32 (nbuckets h - 1)) in
  if negb (writer_lock h =? 0) then Blocked
  else
    let h := set_lock 1 h in
    b ← bucket_at h bi;
    if offset b =? 0 then
      if negb is_add then unlock h [h] (-1)
      else
        '(h1, v) ← value_alloc h 0;
        h2 ← store_kv h1 v 0 add_v;
        off ← clib_bihash_get_offset h2 v;
        let h3 := set_bucket bi (Bucket off 0 0) h2 in
        unlock h3 [h; h1; h2; h3] 0
    else
      h1 ← make_working_copy h bi cpu_number;
      v ← clib_bihash_get_value h1 (offset (saved_bucket h1));
      b ← bucket_at h1 bi;
      let '(start, limit) := search_range h1 (key add_v) b in
      r ← find_slot (λ e, key e =? key add_v) v start (Z.to_nat limit);
      match r with
      | Some i => store_and_restore h1 [h; h1] bi i (if is_add then add_v else free_kv)
      | None =>
          if negb is_add then
            let h2 := set_bucket bi (saved_bucket h1) h1 in
            unlock h2 [h; h1; h2] (-3)
          else
            r ← find_slot clib_bihash_is_free v start (Z.to_nat limit);
            match r with
            | Some i => store_and_restore h1 [h; h1] bi i add_v
            | None =>
                '(h2, save_new_v, new_log2_pages, mark_bucket_linear) ← expand h1 add_v cpu_number;
                tr ← expand_ok h2 tmp_linear bi save_new_v new_log2_pages mark_bucket_linear;
                h3 ← of_option (last tr);
                unlock h3 ([h; h1; h2] ++ tr) 0
            end
      end.

(** ** Search and iteration *)

(** The scan of a bucket that has been read; the results are [*valuep] and the return value. *)
Definition search_bucket (h : clib_bihash) (b : clib_bihash_bucket) (k : Z) (valuep : clib_bihash_kv)
    : res (clib_bihash_kv * Z) :=
  if offset b =? 0 then Ok (valuep, -1)
  else
    v ← clib_bihash_get_value h (offset b);
    let '(start, limit) := search_range h k b in
    r ← find_slot (λ e, clib_bihash_key_compare (key e) k) v start (Z.to_nat limit);
    match r with
    | Some i => e ← of_option (vget v i); Ok (e, 0)
    | None => Ok (valuep, -1)
    end.

Definition read_bucket (h : clib_bihash) (k : Z) : res clib_bihash_bucket :=
  bucket_at h (Z.land (clib_bihash_hash k) (u32 (nbuckets h - 1))).

Definition clib_bihash_search (h : clib_bihash) (search_key valuep : clib_bihash_kv)
    : res (clib_bihash_kv * Z) :=
  b ← read_bucket h (key search_key); search_bucket h b (key search_key) valuep.

Definition clib_bihash_search_inline (h : clib_bihash) (kvp : clib_bihash_kv) : res (clib_bihash_kv * Z) :=
  b ← read_bucket h (key kvp); search_bucket h b (key kvp) kvp.

Definition clib_bihash_search_inline_2 (h : clib_bihash) (search_key valuep : clib_bihash_kv)
    : res (clib_bihash_kv * Z) :=
  b ← read_bucket h (key search_key); search_bucket h b (key search_key) valuep.

(** The three loops; [fp] is the callback on its argument. *)
Fixpoint foreach_slot {A} (fp : A → clib_bihash_kv → A) (v : list clib_bihash_kv) (i : Z) (n : nat) (arg : A)
    : res A :=
  match n with
  | O => Ok arg
  | S n =>
      e ← of_option (vget v i);
      foreach_slot fp v (i + 1) n (if clib_bihash_is_free e then arg else fp arg e)
  end.

Fixpoint foreach_page {A} (fp : A → clib_bihash_kv → A) (v : list clib_bihash_kv) (j : Z) (n : nat) (arg : A)
    : res A :=
  match n with
  | O => Ok arg
  | S n =>
      arg ← foreach_slot fp v (j * BIHASH_KVP_PER_PAGE) (Z.to_nat BIHASH_KVP_PER_PAGE) arg;
      foreach_page fp v (j + 1) n arg
  end.

Fixpoint foreach_bucket {A} (fp : A → clib_bihash_kv → A) (h : clib_bihash) (i : Z) (n : nat) (arg : A) : res A :=
  match n with
  | O => Ok arg
  | S n =>
      b ← bucket_at h i;
      arg ← (if offset b =? 0 then Ok arg
             else
               v ← clib_bihash_get_value h (offset b);
               foreach_page fp v 0 (Z.to_nat (Z.shiftl 1 (log2_pages b))) arg);
      foreach_bucket fp h (i + 1) n arg
  end.

Definition clib_bihash_foreach_key_value_pair {A} (fp : A → clib_bihash_kv → A) (h : clib_bihash) (arg : A)
    : res A :=
  foreach_bucket fp h 0 (Z.to_nat (nbuckets h)) arg.
End env.

(** ** Creation *)

Definition zero_bucket : clib_bihash_bucket := Bucket 0 0 0.
Definition zero_bihash : clib_bihash := BihashTable [] 0 [] zero_bucket 0 0 0 [] ∅.

Definition clib_bihash_init (h : clib_bihash) (n : Z) : clib_bihash :=
  let n := u32 (Z.shiftl 1 (ClibBitmap.max_log2 n)) in
  BihashTable (vec_validate zero_bucket [] (n - 1)) 0 (working_copies h) (saved_bucket h)
    n (ClibBitmap.max_log2 n) (linear_buckets h) (freelists h) ∅.

Definition clib_bihash_free (h : clib_bihash) : clib_bihash := zero_bihash.

End Bh.
