(* ===== verification/BihashSlots.v ===== *)
(** * The pairs of a bihash bucket

    The scan of a value vector, the invariant of its pairs, and the two ways of rehashing them,
    as facts about lists of pairs. *)

From stdpp Require Import gmap.
From S2P Require Import Prelude Bitmap Bihash.

Module BihashSlots.
Import Bh.

(** ** Scanning *)

Lemma vget_of_option {A} (l : list A) i : 0 ≤ i < zlen l → ∃ x, vget l i = Some x ∧ of_option (vget l i) = Ok x.
Proof. intros [x Hx]%vget_in_range. exists x. by rewrite Hx. Qed.

Lemma find_slot_spec p v n : ∀ i, 0 ≤ i → i + Z.of_nat n ≤ zlen v →
  ∃ r, find_slot p v i n = Ok r ∧
    match r with
    | Some j => i ≤ j < i + Z.of_nat n ∧ ∃ e, vget v j = Some e ∧ p e = true
    | None => ∀ j e, i ≤ j < i + Z.of_nat n → vget v j = Some e → p e = false
    end.
Proof.
  induction n as [|n IH]; intros i Hi Hn; cbn [find_slot].
  { exists None. split; [done|]. intros j e ?. lia. }
  destruct (vget_of_option v i) as (x & Hx & ->); [lia|]. cbn [mbind res_bind].
  destruct (p x) eqn:Hp.
  { exists (Some i). split; [done|]. split; [lia|eauto]. }
  destruct (IH (i + 1)) as (r & -> & Hr); [lia..|]. exists r. split; [done|].
  destruct r as [j|].
  - destruct Hr as [? Hr]. split; [lia|done].
  - intros j e Hj He. destruct (decide (j = i)) as [->|]; [congruence|]. apply (Hr j); [lia|done].
Qed.

(** ** The pairs of a bucket *)

Definition key_ok (k : Z) : Prop := 0 ≤ k < u64_max.

Record kv_ok (e : clib_bihash_kv) : Prop := { kvo_key : key_ok (key e); kvo_value : in_u64 (value e) }.

Lemma not_free e : key_ok (key e) → clib_bihash_is_free e = false.
Proof. unfold key_ok, clib_bihash_is_free. intros H. by rewrite (proj2 (Z.eqb_neq _ _)) by lia. Qed.

Lemma free_is_free : clib_bihash_is_free free_kv = true.
Proof. done. Qed.

Lemma is_free_inv e : clib_bihash_is_free e = true → e = free_kv.
Proof. unfold clib_bihash_is_free. intros. bool_to_prop. destruct e; cbn in *. by subst. Qed.

(** The values [v] of a bucket hold free pairs and pairs of [P], each on its home page, and
    no key twice. *)
Record slots_ok (P : Z → Prop) (home : Z → Z → Prop) (v : list clib_bihash_kv) : Prop := {
  sl_elem i e : vget v i = Some e → e = free_kv ∨ (kv_ok e ∧ P (key e) ∧ home (key e) i);
  sl_unique i j e e' : vget v i = Some e → vget v j = Some e' → key e = key e' → e ≠ free_kv → i = j;
}.

(** The pair of a key, when there is one. *)
Definition holds (v : list clib_bihash_kv) (k x : Z) : Prop := Kv k x ∈ v.

Lemma key_max_free P home v i e : slots_ok P home v → vget v i = Some e → key e = u64_max → e = free_kv.
Proof.
  intros Hs He Hk. destruct (sl_elem _ _ _ Hs i e He) as [->|[[Hok _] _]]; [done|].
  unfold key_ok in Hok. lia.
Qed.

Lemma holds_unique P home v k x y : slots_ok P home v → key_ok k → holds v k x → holds v k y → x = y.
Proof.
  intros Hs Hk [i Hi]%elem_vget [j Hj]%elem_vget.
  assert (i = j) as ->; [|congruence].
  apply (sl_unique _ _ _ Hs i j _ _ Hi Hj); [done|]. intros [= -> ->]. unfold key_ok in Hk. lia.
Qed.

Lemma slots_free P home n : slots_ok P home (replicate n free_kv).
Proof.
  assert (∀ i e, vget (replicate n free_kv) i = Some e → e = free_kv) as H.
  { intros i e He%vget_elem. by apply elem_of_replicate in He as [-> _]. }
  split; [intros i e He; left; eauto|]. intros i j e e' He _ _ Hne. by apply H in He.
Qed.

Lemma holds_free n k x : key_ok k → ¬ holds (replicate n free_kv) k x.
Proof. intros Hk [[= -> ->] _]%elem_of_replicate. unfold key_ok in Hk. lia. Qed.

(** Store a pair where its key or nothing was. *)
Lemma slots_set P home v i e0 k x :
  slots_ok P home v → vget v i = Some e0 → key_ok k → in_u64 x → P k → home k i →
  (key e0 = k ∨ (e0 = free_kv ∧ ∀ y, ¬ holds v k y)) →
  slots_ok P home (vset v i (Kv k x)) ∧
  ∀ k' x', key_ok k' → holds (vset v i (Kv k x)) k' x' ↔ if decide (k' = k) then x' = x else holds v k' x'.
Proof.
  intros Hs Hi Hk Hx HP Hh Hold. pose proof (vget_Some_range _ _ _ Hi) as Hr.
  assert (∀ j e, j ≠ i → vget v j = Some e → e ≠ free_kv → key e ≠ k) as Hother.
  { intros j e Hj He Hne Hke. destruct Hold as [H0|[-> Hno]].
    - apply Hj, (sl_unique _ _ _ Hs j i e e0 He Hi); congruence.
    - apply (Hno (value e)). unfold holds. rewrite <-Hke. apply (vget_elem _ j). by destruct e. }
  split; [split|].
  - intros j e. rewrite vget_vset. case_decide as Hd; [|apply (sl_elem _ _ _ Hs)].
    intros [= <-]. right. destruct Hd as [-> _]. done.
  - intros j j' e e'. rewrite !vget_vset. do 2 case_decide; intros H1 H2 Hke Hne.
    + lia.
    + simplify_eq. exfalso. destruct (decide (e' = free_kv)) as [->|Hne'].
      * cbn in Hke. unfold key_ok in Hk. lia.
      * by apply (Hother j' e'); [lia|..].
    + simplify_eq. exfalso. by apply (Hother j e); [lia|..].
    + by apply (sl_unique _ _ _ Hs j j' e e').
  - intros k' x' Hk'. unfold holds. split.
    + intros [j Hj]%elem_vget. rewrite vget_vset in Hj. case_decide as Hd.
      * injection Hj as <- <-. by rewrite decide_True.
      * case_decide as Hkk; [|by apply vget_elem in Hj]. subst k'. exfalso.
        apply (Hother j (Kv k x')); [lia|done| |done]. intros [= -> ->]. unfold key_ok in Hk. lia.
    + case_decide as Hkk.
      * intros ->. subst k'. apply (vget_elem _ i). by rewrite vget_vset_eq.
      * intros [j Hj]%elem_vget. apply (vget_elem _ j). rewrite vget_vset_ne; [done|].
        intros ->. rewrite Hi in Hj. injection Hj as ->. destruct Hold as [H0|[H0 _]]; [cbn in H0; lia|].
        injection H0 as -> ->. unfold key_ok in Hk'. lia.
Qed.

(** Free the pair of a key. *)
Lemma slots_clear P home v i e0 k :
  slots_ok P home v → vget v i = Some e0 → key_ok k → key e0 = k →
  slots_ok P home (vset v i free_kv) ∧
  ∀ k' x', key_ok k' → holds (vset v i free_kv) k' x' ↔ k' ≠ k ∧ holds v k' x'.
Proof.
  intros Hs Hi Hk <-. pose proof (vget_Some_range _ _ _ Hi) as Hr.
  assert (e0 ≠ free_kv) as Hne0 by (intros ->; unfold key_ok in Hk; cbn in Hk; lia).
  split; [split|].
  - intros j e. rewrite vget_vset. case_decide; [|apply (sl_elem _ _ _ Hs)]. intros [= <-]. by left.
  - intros j j' e e'. rewrite !vget_vset. do 2 case_decide; intros H1 H2 Hke Hne; [lia| | |].
    + simplify_eq.
    + simplify_eq. exfalso. apply Hne. apply (key_max_free P home v j e Hs H1 Hke).
    + by apply (sl_unique _ _ _ Hs j j' e e').
  - intros k' x' Hk'. unfold holds. split.
    + intros [j Hj]%elem_vget. rewrite vget_vset in Hj. case_decide as Hd.
      * injection Hj as <- <-. unfold key_ok in Hk'. lia.
      * split; [|by apply vget_elem in Hj]. intros ->. destruct Hd. split; [|done].
        by apply (sl_unique _ _ _ Hs i j e0 (Kv (key e0) x')).
    + intros [Hkk [j Hj]%elem_vget]. apply (vget_elem _ j). rewrite vget_vset_ne; [done|].
      intros ->. rewrite Hi in Hj. injection Hj as ->. done.
Qed.

(** ** Rehashing *)

Lemma slots_weaken P home v : slots_ok P home v → slots_ok P (λ _ _, True) v.
Proof.
  intros Hs. split; [|apply (sl_unique _ _ _ Hs)].
  intros i e He. destruct (sl_elem _ _ _ Hs i e He) as [?|(?&?&_)]; auto.
Qed.

Lemma vget_cons {A} (x : A) l i : 0 ≤ i → vget (x :: l) (i + 1) = vget l i.
Proof.
  intros Hi. unfold vget. rewrite (proj2 (Z.leb_le 0 (i + 1))), (proj2 (Z.leb_le 0 i)) by lia.
  by replace (Z.to_nat (i + 1)) with (S (Z.to_nat i)) by lia.
Qed.

Lemma slots_cons_inv P e v : slots_ok P (λ _ _, True) (e :: v) →
  (e = free_kv ∨ (kv_ok e ∧ P (key e) ∧ ∀ y, ¬ holds v (key e) y)) ∧ slots_ok P (λ _ _, True) v.
Proof.
  intros Hs. split; [|split].
  - destruct (sl_elem _ _ _ Hs 0 e eq_refl) as [?|(Hok & HP & _)]; [by left|right].
    split; [done|]. split; [done|]. intros y [i Hi]%elem_vget.
    pose proof (vget_Some_range _ _ _ Hi) as Hr.
    assert (0 = i + 1); [|lia]. apply (sl_unique _ _ _ Hs 0 (i + 1) e (Kv (key e) y) eq_refl); [|done|].
    + by rewrite vget_cons by lia.
    + intros ->. destruct Hok as [Hk _]. unfold key_ok in Hk. cbn [key free_kv] in Hk. lia.
  - intros i e' He. apply (sl_elem _ _ _ Hs (i + 1)). pose proof (vget_Some_range _ _ _ He).
    by rewrite vget_cons by lia.
  - intros i j x y Hx Hy Hk Hne. pose proof (vget_Some_range _ _ _ Hx). pose proof (vget_Some_range _ _ _ Hy).
    assert (i + 1 = j + 1); [|lia].
    apply (sl_unique _ _ _ Hs (i + 1) (j + 1) x y); rewrite ?vget_cons by lia; auto.
Qed.

Lemma holds_cons e v k x : key_ok k → holds (e :: v) k x ↔ e = Kv k x ∨ holds v k x.
Proof. intros _. unfold holds. rewrite elem_of_cons. split; (intros [?|?]; [by left|by right]). Qed.

Section rehash.
Context `{HE : BihashEnvOk}.

Definition paged (h : clib_bihash) (lp k i : Z) : Prop := i / 4 = home_page h k lp.

Lemma home_page_range h k lp : 0 ≤ lp → 0 ≤ home_page h k lp < 2 ^ lp.
Proof.
  intros Hlp. unfold home_page. rewrite Z.shiftl_1_l, Z.sub_1_r, <-Z.ones_equiv, Z.land_ones by lia.
  apply Z.mod_pos_bound. lia.
Qed.

(** What a rehash that succeeds makes of the old values. *)
Definition rehashed (P : Z → Prop) (home : Z → Z → Prop) (old new new' : list clib_bihash_kv) : Prop :=
  slots_ok P home new' ∧ ∀ k x, key_ok k → holds new' k x ↔ holds new k x ∨ holds old k x.

Lemma rehash_add P home e v new i :
  kv_ok e → P (key e) → home (key e) i → slots_ok P home new → vget new i = Some free_kv →
  (∀ y, ¬ holds v (key e) y) → (∀ k x y, key_ok k → holds (e :: v) k x → ¬ holds new k y) →
  slots_ok P home (vset new i e) ∧
  (∀ k x y, key_ok k → holds v k x → ¬ holds (vset new i e) k y) ∧
  ∀ new', rehashed P home v (vset new i e) new' → rehashed P home (e :: v) new new'.
Proof.
  intros [Hk Hx] HP Hh Hs Hi Hv Hd.
  destruct (slots_set P home new i free_kv (key e) (value e)) as [Hs' Hh']; [done..| |].
  { right. split; [done|]. intros y. apply (Hd (key e) (value e)); [done|]. apply holds_cons; [done|]. left. by destruct e. }
  replace (Kv (key e) (value e)) with e in Hs', Hh' by (by destruct e).
  split; [done|]. split.
  - intros k x y Hk' Hkx. rewrite Hh' by done. case_decide as Hkk; [subst k; by destruct (Hv x)|].
    apply (Hd k x); [done|]. by apply holds_cons; [|right].
  - intros new' [Hs2 Hh2]. split; [done|]. intros k x Hk'. rewrite Hh2, Hh', holds_cons by done.
    case_decide as Hkk.
    + subst k. split; [intros [->|?]; [right; left; by destruct e|by right; right]|].
      intros [Hn|[->|?]]; [|by left|by right]. exfalso. apply (Hd (key e) (value e) x); [done| |done].
      apply holds_cons; [done|]. left. by destruct e.
    + split; [intros [?|?]; [by left|by right; right]|]. intros [?|[->|?]]; [by left|by cbn in Hkk|by right].
Qed.

Lemma rehash_skip P home v new new' :
  rehashed P home v new new' → rehashed P home (free_kv :: v) new new'.
Proof.
  intros [Hs Hh]. split; [done|]. intros k x Hk. rewrite Hh, holds_cons by done.
  split; [tauto|]. intros [?|[[= <- <-]|?]]; [by left| |by right]. unfold key_ok in Hk. lia.
Qed.

Lemma rehash_loop_spec P h lp old : 0 ≤ lp → ∀ new,
  slots_ok P (λ _ _, True) old → slots_ok P (paged h lp) new → zlen new = 4 * 2 ^ lp →
  (∀ k x y, key_ok k → holds old k x → ¬ holds new k y) →
  ∃ new' ok, rehash_loop h lp new old = Ok (new', ok) ∧ zlen new' = 4 * 2 ^ lp ∧
    (ok = true → rehashed P (paged h lp) old new new').
Proof.
  intros Hlp. induction old as [|e old IH]; intros new Ho Hn Hlen Hd; cbn [rehash_loop].
  { exists new, true. split_and!; [done..|]. intros _. split; [done|]. intros k x Hk. unfold holds.
    rewrite elem_of_nil. tauto. }
  apply slots_cons_inv in Ho as [He Ho].
  assert (∀ k x y, key_ok k → holds old k x → ¬ holds new k y) as Hd'.
  { intros k x y Hk Hx. apply (Hd k x); [done|]. by apply holds_cons; [|right]. }
  destruct He as [->|(Hok & HP & Hnew)].
  { rewrite free_is_free. destruct (IH new Ho Hn Hlen Hd') as (new' & ok & -> & Hl & Hr).
    exists new', ok. split_and!; [done..|]. intros Hok. by apply rehash_skip, Hr. }
  rewrite not_free by apply Hok.
  pose proof (home_page_range h (key e) lp Hlp) as Hhome. unfold BIHASH_KVP_PER_PAGE.
  destruct (find_slot_spec clib_bihash_is_free new (Z.to_nat 4) (home_page h (key e) lp * 4)) as (r & -> & Hr); [lia..|].
  cbn [mbind res_bind]. destruct r as [j|]; [|by exists new, false].
  destruct Hr as (Hj & e' & Hje & ->%is_free_inv).
  destruct (rehash_add P (paged h lp) e old new j) as (Hs' & Hd2 & Hre); [done..| | | | | |].
  { unfold paged. Z.div_mod_to_equations. lia. }
  all: try done.
  destruct (IH (vset new j e)) as (new' & ok & -> & Hl & Hr'); [done..|by rewrite zlen_vset|done|].
  exists new', ok. split_and!; [done..|]. intros Hok'. by apply Hre, Hr'.
Qed.

Lemma linear_loop_spec P old : ∀ new j, 0 ≤ j → j + zlen old < zlen new →
  slots_ok P (λ _ _, True) old → slots_ok P (λ _ _, True) new →
  (∀ i, j ≤ i < zlen new → vget new i = Some free_kv) →
  (∀ k x y, key_ok k → holds old k x → ¬ holds new k y) →
  ∃ new', linear_loop new old j (zlen new) = Ok (new', true) ∧ zlen new' = zlen new ∧
    rehashed P (λ _ _, True) old new new' ∧ vget new' (zlen new - 1) = Some free_kv.
Proof.
  induction old as [|e old IH]; intros new j Hj Hlt Ho Hn Hfree Hd; cbn [linear_loop].
  { exists new. rewrite zlen_nil in Hlt. split_and!; [done..| |apply Hfree; lia]. split; [done|].
    intros k x Hk. unfold holds. rewrite elem_of_nil. tauto. }
  rewrite zlen_cons in Hlt. pose proof (zlen_nonneg old).
  apply slots_cons_inv in Ho as [He Ho].
  assert (∀ k x y, key_ok k → holds old k x → ¬ holds new k y) as Hd'.
  { intros k x y Hk Hx. apply (Hd k x); [done|]. by apply holds_cons; [|right]. }
  destruct (Z.to_nat (zlen new - j)) as [|n] eqn:Hfuel; [lia|]. cbn [linear_place].
  destruct He as [->|(Hok & HP & Hnew)].
  { rewrite free_is_free. cbn [mbind res_bind].
    destruct (IH new j) as (new' & -> & Hl & Hr & Hlast); try done.
    { lia. }
    exists new'. split_and!; [done..| |done]. by apply rehash_skip. }
  rewrite not_free by apply Hok. rewrite Hfree by lia. cbn [of_option mbind res_bind]. rewrite free_is_free.
  destruct (rehash_add P (λ _ _, True) e old new j) as (Hs' & Hd2 & Hre); try done.
  { apply Hfree. lia. }
  destruct (IH (vset new j e) (j + 1)) as (new' & Heq & Hl & Hr & Hlast);
    rewrite ?zlen_vset in *; try done; [lia|lia|..].
  { intros i Hi. rewrite vget_vset_ne by lia. apply Hfree. lia. }
  cbn [mbind res_bind]. rewrite Heq. exists new'. split_and!; [done..| |done]. by apply Hre.
Qed.
End rehash.

End BihashSlots.
