(* ===== verification/BihashBlocks.v ===== *)
(** * The memory of a bihash

    Who owns each block of the heap (a bucket, a free list, a working copy or the writer), and
    the effect of [value_alloc], [value_free] and [make_working_copy] on it. *)

From stdpp Require Import gmap.
From S2P Require Import Prelude Bitmap Bihash BihashSlots.

Module BihashBlocks.
Import Bh BihashSlots.

(** ** The blocks of the heap

    Every block in use has one owner: a bucket, the free list of its size, the working copy of
    a thread, or the writer that has just taken it. *)

Inductive owner := OBucket (i : Z) | OFree (l : Z) | OWorking (c : Z) | OHand.

Definition owned (x : owner) : bool := match x with OFree _ => false | _ => true end.

Fixpoint chain (own : gmap Z owner) (hp : heap) (l r : Z) (c : list Z) : Prop :=
  match c with
  | [] => r = 0
  | x :: c =>
      r = x ∧ own !! x = Some (OFree l) ∧ x ∉ c ∧ l ≤ 26 ∧
      ∃ v n, hp !! x = Some v ∧ zlen v = 4 * 2 ^ l ∧ next_free v = Ok n ∧ chain own hp l n c
  end.

Record heap_ok (bs : list clib_bihash_bucket) (own : gmap Z owner) (fl wcs : list Z) (hp : heap) : Prop := {
  ho_dom o x : own !! o = Some x → o ≠ 0 ∧ is_Some (hp !! o);
  ho_bucket i b : vget bs i = Some b → offset b ≠ 0 → own !! offset b = Some (OBucket i);
  ho_working c o : vget wcs c = Some o → o ≠ 0 → own !! o = Some (OWorking c);
  ho_free l r : vget fl l = Some r → ∃ c, chain own hp l r c;
}.

Lemma chain_frame own own' hp hp' l c : ∀ r,
  (∀ x, x ∈ c → own' !! x = own !! x ∧ hp' !! x = hp !! x) → chain own hp l r c → chain own' hp' l r c.
Proof.
  induction c as [|x c IH]; intros r Hf; cbn [chain]; [done|].
  intros (-> & Hx & Hn & Hl & v & n & Hv & Hlen & Hnext & Hc).
  destruct (Hf x ltac:(by left)) as [-> ->]. split_and!; [done..|]. exists v, n. split_and!; [done..|].
  apply IH; [|done]. intros y Hy. apply Hf. by right.
Qed.

Lemma chain_owner own hp l c : ∀ r x, chain own hp l r c → x ∈ c → own !! x = Some (OFree l).
Proof.
  induction c as [|y c IH]; intros r x; cbn [chain]; [by intros _ ?%elem_of_nil|].
  intros (_ & Hy & _ & _ & v & n & _ & _ & _ & Hc) [->|Hx]%elem_of_cons; [done|]. by eapply IH.
Qed.

(** A store to a block that is not free. *)
Lemma heap_store bs own fl wcs hp o x v :
  heap_ok bs own fl wcs hp → own !! o = Some x → owned x = true →
  heap_ok bs own fl wcs (<[o := v]> hp).
Proof.
  intros [Hd Hb Hw Hf] Ho Hx. split; [|done..|].
  - intros o' x' H'. split; [by eapply Hd|]. rewrite lookup_insert_is_Some'. right. by eapply Hd.
  - intros l r Hl. destruct (Hf l r Hl) as [c Hc]. exists c. eapply chain_frame; [|done].
    intros y Hy. split; [done|]. apply lookup_insert_ne. intros ->.
    rewrite (chain_owner _ _ _ _ _ _ Hc Hy) in Ho. by simplify_eq.
Qed.

(** A new block, or the first of a free list, passes to the writer. *)
Lemma heap_take_fresh bs own fl wcs hp o v :
  heap_ok bs own fl wcs hp → hp !! o = None → o ≠ 0 →
  own !! o = None ∧ heap_ok bs (<[o := OHand]> own) fl wcs (<[o := v]> hp).
Proof.
  intros [Hd Hb Hw Hf] Ho Ho0.
  assert (own !! o = None) as Hown.
  { destruct (own !! o) as [x|] eqn:E; [|done]. apply Hd in E as [_ [? ?]]. congruence. }
  assert (∀ o' x, own !! o' = Some x → (<[o := OHand]> own) !! o' = Some x) as Hmono.
  { intros o' x H'. rewrite lookup_insert_ne; [done|]. intros ->. congruence. }
  split; [done|]. split.
  - intros o' x. intros [[<- _]|[_ H']]%lookup_insert_Some; (split; [|apply lookup_insert_is_Some']).
    + done.
    + by left.
    + by eapply Hd.
    + right. by eapply Hd.
  - intros i b Hi Hi0. by apply Hmono, Hb.
  - intros c o' Hc Hc0. by apply Hmono, Hw.
  - intros l r Hl. destruct (Hf l r Hl) as [c Hc]. exists c. eapply chain_frame; [|done].
    intros y Hy. assert (y ≠ o). { intros ->. by rewrite (chain_owner _ _ _ _ _ _ Hc Hy) in Hown. }
    by rewrite !lookup_insert_ne.
Qed.

Lemma heap_take_free bs own fl wcs hp l o :
  heap_ok bs own fl wcs hp → vget fl l = Some o → o ≠ 0 →
  ∃ v n, hp !! o = Some v ∧ zlen v = 4 * 2 ^ l ∧ next_free v = Ok n ∧ own !! o = Some (OFree l) ∧ l ≤ 26 ∧
    heap_ok bs (<[o := OHand]> own) (vset fl l n) wcs hp.
Proof.
  intros [Hd Hb Hw Hf] Hl Ho. destruct (Hf l o Hl) as [[|x c] Hc]; [done|].
  destruct Hc as (<- & Hx & Hxc & Hl26 & v & n & Hv & Hlen & Hnext & Hc).
  exists v, n. split_and!; [done..|]. split.
  - intros o' y. rewrite lookup_insert_Some. intros [[<- _]|[_ H']]; by eapply Hd.
  - intros i b Hi Hi0. rewrite lookup_insert_ne; [by apply Hb|]. intros Heq. specialize (Hb i b Hi Hi0). congruence.
  - intros c' o' Hc' Hc0. rewrite lookup_insert_ne; [by apply Hw|]. intros Heq.
    specialize (Hw c' o' Hc' Hc0). congruence.
  - intros l' r. rewrite vget_vset. case_decide as Hll.
    + intros [= <-]. destruct Hll as [-> _]. exists c. eapply chain_frame; [|done].
      intros y Hy. rewrite lookup_insert_ne; [done|]. by intros <-.
    + intros Hl'. destruct (Hf l' r Hl') as [c' Hc']. exists c'. eapply chain_frame; [|done].
      intros y Hy. rewrite lookup_insert_ne; [done|]. intros <-.
      pose proof (chain_owner _ _ _ _ _ _ Hc' Hy) as Hy'. rewrite Hx in Hy'. injection Hy' as <-.
      apply Hll. split; [done|]. by apply vget_Some_range in Hl.
Qed.

(** The writer puts its block at the head of a free list. *)
Lemma heap_give bs own fl wcs hp l o v r :
  heap_ok bs own fl wcs hp → own !! o = Some OHand → l ≤ 26 → vget fl l = Some r →
  zlen v = 4 * 2 ^ l → next_free v = Ok r →
  heap_ok bs (<[o := OFree l]> own) (vset fl l o) wcs (<[o := v]> hp).
Proof.
  intros [Hd Hb Hw Hf] Ho Hl26 Hl Hlen Hnext.
  assert (∀ l' r' c, chain own hp l' r' c → (o ∉ c) ∧ chain (<[o := OFree l]> own) (<[o := v]> hp) l' r' c) as Hframe.
  { intros l' r' c Hc. assert (o ∉ c) as Hoc.
    { intros Hin. by rewrite (chain_owner _ _ _ _ _ _ Hc Hin) in Ho. }
    split; [done|]. eapply chain_frame; [|done]. intros y Hy. assert (y ≠ o) by (by intros ->).
    by rewrite !lookup_insert_ne. }
  split.
  - intros o' x. intros [[<- _]|[_ H']]%lookup_insert_Some; (split; [by eapply Hd|apply lookup_insert_is_Some']).
    + by left.
    + right. by eapply Hd.
  - intros i b Hi Hi0. rewrite lookup_insert_ne; [by apply Hb|]. intros Heq. specialize (Hb i b Hi Hi0). congruence.
  - intros c' o' Hc' Hc0. rewrite lookup_insert_ne; [by apply Hw|]. intros Heq.
    specialize (Hw c' o' Hc' Hc0). congruence.
  - intros l' r'. rewrite vget_vset. case_decide as Hll.
    + intros [= <-]. destruct Hll as [<- _]. destruct (Hf l r Hl) as [c Hc].
      destruct (Hframe _ _ _ Hc) as [Hoc Hc']. exists (o :: c). cbn [chain]. rewrite !lookup_insert_eq.
      split_and!; [done..|]. by exists v, r.
    + intros Hl'. destruct (Hf l' r' Hl') as [c Hc]. exists c. by apply Hframe.
Qed.

(** ** Outcomes of the operations

    An operation with outcome [runs x Q] faults in no case, and stops for want of memory only
    when the allocator has refused a request. *)

Section ops.
Context `{HE : BihashEnvOk}.

Definition refused : Prop := ∃ m old n, mheap_resize m old n = None.

Definition runs {A} (x : res A) (Q : A → Prop) : Prop :=
  match x with Ok a => Q a | OutOfMemory => refused | Blocked | Fault => False end.

Lemma runs_bind {A B} (x : res A) (f : A → res B) (Q : A → Prop) (R : B → Prop) :
  runs x Q → (∀ a, Q a → runs (f a) R) → runs (x ≫= f) R.
Proof. destruct x; cbn; auto. Qed.

Lemma runs_mono {A} (x : res A) (Q R : A → Prop) : runs x Q → (∀ a, Q a → R a) → runs x R.
Proof. destruct x; cbn; auto. Qed.

Definition arena (fl : list Z) (hp : heap) (h : clib_bihash) : clib_bihash := set_freelists fl (set_mheap hp h).

Lemma pages_length n : 0 ≤ n → zlen (replicate (Z.to_nat (Z.shiftl 1 n * BIHASH_KVP_PER_PAGE)) free_kv) = 4 * 2 ^ n.
Proof.
  intros Hn. unfold BIHASH_KVP_PER_PAGE. rewrite zlen_replicate, Z.shiftl_1_l. pose proof (Z.pow_pos_nonneg 2 n). lia.
Qed.

Lemma vec_len_pages v lp : zlen v = 4 * 2 ^ lp → vec_len v = 2 ^ lp.
Proof. intros Hv. unfold vec_len, BIHASH_KVP_PER_PAGE. rewrite Hv, Z.mul_comm. apply Z.div_mul. lia. Qed.

(** The effect of [value_alloc]. *)
Record allocated (bs : list clib_bihash_bucket) (own : gmap Z owner) (h : clib_bihash) (lp : Z)
    (fl : list Z) (hp : heap) (o : Z) : Prop := {
  al_ok : heap_ok bs (<[o := OHand]> own) fl (working_copies h) hp;
  al_value : hp !! o = Some (replicate (Z.to_nat (Z.shiftl 1 lp * BIHASH_KVP_PER_PAGE)) free_kv);
  al_frame o' : o' ≠ o → hp !! o' = mheap h !! o';
  al_own x : own !! o = Some x → owned x = false;
  al_fl : zlen fl = Z.max (zlen (freelists h)) (lp + 1);
  al_lp : lp ≤ 26;
  al_range : o < 4294967296;
}.

(** Offsets fit 32 bits. *)
Definition small_offsets (hp : heap) : Prop := ∀ o v, hp !! o = Some v → o < 4294967296.

Lemma small_insert hp o v : small_offsets hp → o < 4294967296 → small_offsets (<[o := v]> hp).
Proof. intros Hs Ho o' v'. rewrite lookup_insert_Some. intros [[<- _]|[_ ?]]; [done|by eapply Hs]. Qed.

Lemma chain_validate bs own fl wcs hp lp :
  0 ≤ lp → heap_ok bs own fl wcs hp → heap_ok bs own (vec_validate 0 fl lp) wcs hp.
Proof.
  intros Hlp [Hd Hb Hw Hf]. split; [done..|]. intros l r Hl.
  destruct (decide (l < zlen fl)) as [Hlt|Hge].
  - unfold vec_validate in Hl. rewrite vget_app_l in Hl by done. by apply Hf.
  - exists []. unfold vec_validate in Hl. rewrite vget_app_r in Hl by lia.
    apply vget_elem, elem_of_replicate in Hl as [-> _]. done.
Qed.

Lemma value_alloc_spec bs own h lp :
  heap_ok bs own (freelists h) (working_copies h) (mheap h) → small_offsets (mheap h) →
  writer_lock h = 1 → 0 ≤ lp →
  runs (value_alloc h lp) (λ r, ∃ fl hp, r.1 = arena fl hp h ∧ small_offsets hp ∧
    allocated bs own h lp fl hp r.2).
Proof.
  intros Hok Hsmall Hlock Hlp. unfold value_alloc. rewrite Hlock. cbn [Z.eqb negb assert mbind res_bind].
  pose proof (Z.pow_pos_nonneg 2 lp) as Hpos.
  destruct ((zlen (freelists h) <=? lp) || (velt 0 (freelists h) lp =? 0)) eqn:Hempty.
  - cbn [mheap set_freelists].
    destruct (mheap_resize (mheap h) 0 (Z.shiftl 1 lp)) as [o|] eqn:Ho; [|by eexists _, _, _].
    cbn [mbind res_bind].
    apply resize_range in Ho as Hrange. apply resize_fresh in Ho as [Hfresh|[_ ?]]; [|done].
    destruct Hrange as [Hrange Hn]. rewrite (proj2 (Z.eqb_neq o 0)) by lia. cbn [negb assert mbind res_bind].
    unfold clib_bihash_get_value, store. cbn [mheap set_mheap set_freelists]. rewrite lookup_insert_eq.
    cbn [of_option mbind res_bind]. rewrite (vec_len_pages _ lp), Z.shiftl_1_l, Z.eqb_refl.
    2:{ rewrite zlen_replicate, Z.shiftl_1_l. unfold BIHASH_KVP_PER_PAGE. lia. }
    cbn [assert mbind res_bind runs fst snd]. rewrite insert_insert_eq.
    exists (vec_validate 0 (freelists h) lp), (<[o := replicate (Z.to_nat (2 ^ lp * BIHASH_KVP_PER_PAGE)) free_kv]> (mheap h)).
    split; [reflexivity|]. split; [apply small_insert; [done|lia]|].
    destruct (heap_take_fresh bs own (vec_validate 0 (freelists h) lp) (working_copies h) (mheap h) o
      (replicate (Z.to_nat (2 ^ lp * BIHASH_KVP_PER_PAGE)) free_kv)) as [Hown Hok']; [by apply chain_validate|done|lia|].
    split; [done|by rewrite lookup_insert_eq, Z.shiftl_1_l|intros; by rewrite lookup_insert_ne|intros x; congruence
           |by rewrite zlen_validate|rewrite Z.shiftl_1_l in Hn|lia].
    apply Z.pow_le_mono_r_iff with 2; lia.
  - bool_to_prop. set (o := velt 0 (freelists h) lp) in *.
    assert (vget (freelists h) lp = Some o) as Ho by (apply vget_velt; lia).
    destruct (heap_take_free _ _ _ _ _ _ _ Hok Ho) as (v & n & Hv & Hlen & Hnext & Hown & Hl26 & Hok'); [done|].
    unfold clib_bihash_get_value. rewrite Hv. cbn [of_option mbind res_bind]. rewrite Hnext. cbn [mbind res_bind].
    rewrite (proj2 (Z.eqb_neq o 0)) by lia. cbn [negb assert mbind res_bind set_freelists mheap].
    rewrite Hv. cbn [of_option mbind res_bind]. rewrite (vec_len_pages _ lp), Z.shiftl_1_l, Z.eqb_refl by done.
    cbn [assert mbind res_bind runs fst snd].
    exists (vset (freelists h) lp n), (<[o := replicate (Z.to_nat (2 ^ lp * BIHASH_KVP_PER_PAGE)) free_kv]> (mheap h)).
    split; [reflexivity|]. split; [by apply small_insert; [|by apply (Hsmall o v)]|].
    split; [|by rewrite lookup_insert_eq, Z.shiftl_1_l|intros; by rewrite lookup_insert_ne
           |intros x Hx; by simplify_eq|rewrite zlen_vset; lia|done|by apply (Hsmall o v)].
    eapply heap_store; [done|by rewrite lookup_insert_eq|done].
Qed.

(** The effect of [value_free]. *)
Lemma value_free_spec bs own h o v lp :
  heap_ok bs own (freelists h) (working_copies h) (mheap h) → small_offsets (mheap h) → writer_lock h = 1 →
  own !! o = Some OHand → mheap h !! o = Some v → zlen v = 4 * 2 ^ lp → 0 ≤ lp < zlen (freelists h) → lp ≤ 26 →
  ∃ fl hp, value_free h o = Ok (arena fl hp h) ∧ small_offsets hp ∧
    heap_ok bs (<[o := OFree lp]> own) fl (working_copies h) hp ∧
    (∀ o', o' ≠ o → hp !! o' = mheap h !! o') ∧ zlen fl = zlen (freelists h).
Proof.
  intros Hok Hsmall Hlock Hown Hv Hlen Hlp Hl26. unfold value_free, clib_bihash_get_value.
  rewrite Hlock, Hv. cbn [Z.eqb negb assert mbind res_bind of_option].
  rewrite (vec_len_pages v lp), ClibBitmap.min_log2_pow2, (proj2 (Z.ltb_lt _ _)) by (done || lia).
  cbn [assert mbind res_bind]. pose proof (Z.pow_pos_nonneg 2 lp).
  destruct (vget_of_option v 0) as (e & He & Heq); [lia|]. unfold set_next_free. rewrite Heq. cbn [mbind res_bind].
  set (r := velt 0 (freelists h) lp).
  exists (vset (freelists h) lp o), (<[o := vset v 0 (Kv r (value e))]> (mheap h)).
  split; [reflexivity|]. split; [by apply small_insert; [|by apply (Hsmall o v)]|].
  split; [|split; [intros; by rewrite lookup_insert_ne|by rewrite zlen_vset]].
  eapply heap_give; [done|done|done|by apply vget_velt|by rewrite zlen_vset|].
  unfold next_free. by rewrite vget_vset_eq by lia.
Qed.

(** The effect of [make_working_copy]. *)
Record copied (bs : list clib_bihash_bucket) (own own' : gmap Z owner) (h : clib_bihash) (cpu : Z)
    (wcs : list Z) (hp : heap) (o : Z) (v : list clib_bihash_kv) : Prop := {
  cp_ok : heap_ok bs own' (freelists h) wcs hp;
  cp_small : small_offsets hp;
  cp_working : vget wcs cpu = Some o;
  cp_own : own' !! o = Some (OWorking cpu);
  cp_value : hp !! o = Some v;
  cp_frame o' i : own !! o' = Some (OBucket i) → own' !! o' = Some (OBucket i) ∧ hp !! o' = mheap h !! o';
}.

(** The vector of a working copy changes its place. *)
Lemma heap_move bs own fl wcs hp cpu w o v :
  heap_ok bs own fl wcs hp → vget wcs cpu = Some w → o ≠ 0 → (hp !! o = None ∨ (o = w ∧ w ≠ 0)) →
  heap_ok bs (<[o := OWorking cpu]> (delete w own)) fl (vset wcs cpu o) (<[o := v]> (delete w hp)) ∧
  ∀ o' x, own !! o' = Some x → x ≠ OWorking cpu →
    (<[o := OWorking cpu]> (delete w own)) !! o' = Some x ∧ (<[o := v]> (delete w hp)) !! o' = hp !! o'.
Proof.
  intros [Hd Hb Hw Hf] Hcpu Ho0 Ho.
  assert (∀ o' x, own !! o' = Some x → x ≠ OWorking cpu → o' ≠ o ∧ o' ≠ w) as Hother.
  { intros o' x Ho' Hx. assert (o' ≠ w) as Hne.
    { intros ->. assert (w ≠ 0) as Hw0 by (by eapply Hd). specialize (Hw cpu w Hcpu Hw0). congruence. }
    split; [|done]. intros ->. destruct Ho as [Ho|[-> _]]; [|done]. apply Hd in Ho' as [_ [? ?]]. congruence. }
  assert (∀ o' x, own !! o' = Some x → x ≠ OWorking cpu →
    (<[o := OWorking cpu]> (delete w own)) !! o' = Some x ∧ (<[o := v]> (delete w hp)) !! o' = hp !! o') as Hkeep.
  { intros o' x Ho' Hx. destruct (Hother o' x Ho' Hx) as [Hne1 Hne2].
    by rewrite !lookup_insert_ne, !lookup_delete_ne by done. }
  split; [|done]. split.
  - intros o' x. intros [[<- _]|[Hne H']]%lookup_insert_Some.
    + split; [done|]. apply lookup_insert_is_Some'. by left.
    + apply lookup_delete_Some in H' as [Hne' H']. split; [by eapply Hd|].
      apply lookup_insert_is_Some'. right. rewrite lookup_delete_ne by done. by eapply Hd.
  - intros i b Hi Hi0. by apply Hkeep; [apply Hb|].
  - intros c o' Hc Hc0. rewrite vget_vset in Hc. case_decide as Hcc.
    + injection Hc as <-. destruct Hcc as [<- _]. by rewrite lookup_insert_eq.
    + apply Hkeep; [by apply Hw|]. intros [= ->]. apply Hcc. split; [done|]. by apply vget_Some_range in Hcpu.
  - intros l r Hl. destruct (Hf l r Hl) as [c Hc]. exists c. eapply chain_frame; [|done].
    intros y Hy. pose proof (chain_owner _ _ _ _ _ _ Hc Hy) as Hy'. rewrite Hy'. by apply Hkeep.
Qed.
End ops.

Section working_copy.
Context `{HE : BihashEnvOk}.

Lemma take_all (v : list clib_bihash_kv) n : zlen v = n * BIHASH_KVP_PER_PAGE → take (Z.to_nat (n * BIHASH_KVP_PER_PAGE)) v = v.
Proof. unfold zlen. intros Hv. rewrite take_ge; [done|lia]. Qed.

Lemma drop_all (v : list clib_bihash_kv) n : zlen v = n * BIHASH_KVP_PER_PAGE → drop (Z.to_nat (n * BIHASH_KVP_PER_PAGE)) v = [].
Proof. unfold zlen. intros Hv. rewrite drop_ge; [done|lia]. Qed.

Lemma copy_pages_ok dst src n : 0 ≤ n →
  zlen dst = n * BIHASH_KVP_PER_PAGE → zlen src = n * BIHASH_KVP_PER_PAGE → copy_pages dst src n = Ok src.
Proof.
  intros Hn Hd Hs. unfold copy_pages, vec_len. rewrite Hd, Hs, Z.div_mul, Z.leb_refl by done.
  cbn [andb assert mbind res_bind]. rewrite take_all, drop_all by done. by rewrite app_nil_r.
Qed.

(** Both branches of the growth of the working copy leave a vector of the right length at [o]. *)
Lemma copy_into bs own own' h0 h cpu wcs hp o b v n kvs bi :
  heap_ok bs own' (freelists h0) wcs hp → small_offsets hp → vget wcs cpu = Some o →
  own' !! o = Some (OWorking cpu) → hp !! o = Some kvs → n * BIHASH_KVP_PER_PAGE ≤ zlen kvs → 0 ≤ n →
  zlen v = n * BIHASH_KVP_PER_PAGE → vget bs bi = Some b → offset b ≠ 0 → hp !! offset b = Some v →
  (∀ o' i, own !! o' = Some (OBucket i) → own' !! o' = Some (OBucket i) ∧ hp !! o' = mheap h0 !! o') →
  mheap h = hp →
  ∃ hp', (kvs ← clib_bihash_get_value h o;
    let h := store o (set_vec_len n kvs) h in
    v ← clib_bihash_get_value h (offset b);
    kvs ← clib_bihash_get_value h o;
    kvs ← copy_pages kvs v n;
    let h := store o kvs h in
    off ← clib_bihash_get_offset h o;
    Ok (set_bucket bi (Bucket off (linear_search b) (log2_pages b)) h)) =
      Ok (set_bucket bi (Bucket o (linear_search b) (log2_pages b)) (set_mheap hp' h)) ∧
    copied bs own own' h0 cpu wcs hp' o v.
Proof.
  intros Hok Hsmall Hcpu Hown Hkvs Hlen Hn Hv Hb Hb0 Hbv Hframe Hh.
  pose proof (ho_bucket _ _ _ _ _ Hok bi b Hb Hb0) as Hbo.
  assert (o ≠ offset b) as Hne by congruence.
  unfold clib_bihash_get_value, store. cbn [mheap set_mheap]. rewrite Hh, Hkvs. cbn [of_option mbind res_bind].
  rewrite (lookup_insert_ne hp o (offset b)), Hbv by exact Hne. cbn [of_option mbind res_bind].
  rewrite lookup_insert_eq. cbn [of_option mbind res_bind].
  rewrite copy_pages_ok; [|done| |done].
  2:{ unfold set_vec_len, zlen. rewrite length_take. unfold zlen in Hlen. unfold BIHASH_KVP_PER_PAGE in *. lia. }
  cbn [mbind res_bind]. unfold clib_bihash_get_offset.
  assert (o < 4294967296) as Hosm by (by eapply Hsmall).
  rewrite (proj2 (Z.ltb_lt _ _)) by done. cbn [assert mbind res_bind]. rewrite insert_insert_eq.
  exists (<[o := v]> hp). split; [reflexivity|]. split; [by eapply heap_store|by apply small_insert|done|done
    |by rewrite lookup_insert_eq|].
  intros o' i Ho'. destruct (Hframe o' i Ho') as [Ho2 Hhp]. split; [done|]. rewrite lookup_insert_ne; [done|].
  intros ->. congruence.
Qed.

Lemma make_working_copy_spec bs own h bi cpu b v :
  heap_ok bs own (freelists h) (working_copies h) (mheap h) → small_offsets (mheap h) → bs = buckets h →
  vget bs bi = Some b → offset b ≠ 0 → mheap h !! offset b = Some v → zlen v = 4 * 2 ^ log2_pages b →
  0 ≤ log2_pages b → 0 ≤ cpu →
  runs (make_working_copy h bi cpu) (λ h', ∃ own' wcs hp o,
    h' = set_bucket bi (Bucket o (linear_search b) (log2_pages b))
           (set_saved b (set_working_copies wcs (set_mheap hp h))) ∧
    copied bs own own' h cpu wcs hp o v).
Proof.
  intros Hok Hsmall Hbs Hb Hb0 Hv Hlen Hlp Hcpu. unfold make_working_copy.
  set (wcs := if zlen (working_copies h) <=? cpu then vec_validate 0 (working_copies h) cpu else working_copies h).
  replace (if zlen (working_copies h) <=? cpu then _ else h) with (set_working_copies wcs h)
    by (unfold wcs; by destruct (zlen (working_copies h) <=? cpu), h).
  assert (heap_ok bs own (freelists h) wcs (mheap h) ∧ cpu < zlen wcs) as [Hok' Hwl].
  { unfold wcs. destruct (zlen (working_copies h) <=? cpu) eqn:Hc; bool_to_prop; [|done].
    rewrite zlen_validate by lia. split; [|lia]. destruct Hok as [Hd Hbk Hw Hf]. split; [done..| |done].
    intros c o Hc' Ho. destruct (decide (c < zlen (working_copies h))) as [Hlt|Hge]; unfold vec_validate in Hc'.
    - rewrite vget_app_l in Hc' by done. by apply Hw.
    - rewrite vget_app_r in Hc' by lia. by apply vget_elem, elem_of_replicate in Hc' as [-> _]. }
  clearbody wcs. cbn [working_copies set_working_copies mheap set_saved].
  destruct (vget_of_option wcs cpu) as (w & Hw & ->); [lia|]. cbn [mbind res_bind].
  unfold bucket_at. cbn [buckets set_working_copies]. rewrite <-Hbs, Hb. cbn [of_option mbind res_bind].
  rewrite Z.shiftl_1_l. set (n := 2 ^ log2_pages b).
  assert (0 < n) as Hn by (apply Z.pow_pos_nonneg; lia).
  assert (zlen v = n * BIHASH_KVP_PER_PAGE) as Hvn by (unfold BIHASH_KVP_PER_PAGE, n; lia).
  set (old := if w =? 0 then [] else default [] (mheap h !! w)).
  pose proof (zlen_nonneg old) as Hold0.
  destruct (vec_len old <? n) eqn:Hgrow; bool_to_prop.
  - destruct (mheap_resize (mheap h) w n) as [o|] eqn:Ho; [|by eexists _, _, _].
    cbn [mbind res_bind]. apply resize_range in Ho as Hrange. apply resize_fresh in Ho as Hfresh.
    set (kvs := vec_validate zero_kv old (n * BIHASH_KVP_PER_PAGE - 1)).
    assert (zlen kvs = n * BIHASH_KVP_PER_PAGE) as Hkvs.
    { unfold kvs. unfold vec_len, BIHASH_KVP_PER_PAGE in *. rewrite zlen_validate by lia.
      Z.div_mod_to_equations. lia. }
    clearbody kvs.
    destruct (heap_move bs own (freelists h) wcs (mheap h) cpu w o kvs) as [Hok2 Hkeep]; [done|done|lia|tauto|].
    set (own' := <[o := OWorking cpu]> (delete w own)) in *.
    set (hp := <[o := kvs]> (delete w (mheap h))) in *.
    assert (∀ o' i, own !! o' = Some (OBucket i) → own' !! o' = Some (OBucket i) ∧ hp !! o' = mheap h !! o') as Hframe.
    { intros o' i Ho'. by apply Hkeep. }
    edestruct (copy_into bs own own' h (set_working_copies (vset wcs cpu o) (set_saved b (set_working_copies wcs (set_mheap hp h))))
      cpu (vset wcs cpu o) hp o b v n kvs bi) as (hp' & Heq & Hcp).
    all: try done.
    + apply small_insert; [|lia]. intros o' x [_ ?]%lookup_delete_Some. by eapply Hsmall.
    + apply vget_vset_eq. lia.
    + unfold own'. by rewrite lookup_insert_eq.
    + unfold hp. by rewrite lookup_insert_eq.
    + lia.
    + lia.
    + destruct (Hframe (offset b) bi) as [_ ->]; [|done]. by eapply ho_bucket.
    + match goal with |- runs ?x _ => replace x with (Ok (A := clib_bihash) (set_bucket bi (Bucket o (linear_search b) (log2_pages b))
          (set_mheap hp' (set_working_copies (vset wcs cpu o) (set_saved b (set_working_copies wcs (set_mheap hp h))))))) end.
      cbn [runs]. exists own', (vset wcs cpu o), hp', o. split; [reflexivity|done].
  - assert (w ≠ 0) as Hw0. { intros Hw0. unfold old in Hgrow. rewrite Hw0 in Hgrow. change (vec_len (if 0 =? 0 then _ else _)) with 0 in Hgrow. lia. }
    pose proof (ho_working _ _ _ _ _ Hok' cpu w Hw Hw0) as Hown.
    destruct (ho_dom _ _ _ _ _ Hok' w _ Hown) as [_ [kvs Hkvs]].
    assert (old = kvs) as Hold by (unfold old; by rewrite (proj2 (Z.eqb_neq _ _)), Hkvs by done).
    clearbody old. subst old.
    cbn [mbind res_bind].
    edestruct (copy_into bs own own h (set_saved b (set_working_copies wcs h)) cpu wcs (mheap h) w b v n kvs bi)
      as (hp' & Heq & Hcp).
    all: try done.
    + unfold vec_len, BIHASH_KVP_PER_PAGE in *. Z.div_mod_to_equations. lia.
    + lia.
    + match goal with |- runs ?x _ => replace x with (Ok (A := clib_bihash) (set_bucket bi (Bucket w (linear_search b) (log2_pages b))
          (set_mheap hp' (set_saved b (set_working_copies wcs h))))) end.
      cbn [runs]. exists own, wcs, hp', w. split; [reflexivity|done].
Qed.
End working_copy.

End BihashBlocks.
