(* ===== verification/BihashSpec.v ===== *)
(** * A bihash implements a finite map

    The representation relation [repr] between a table and a map from keys to values, and the
    theorems on search, update with every state the readers can see, and iteration. *)

From stdpp Require Import gmap.
From S2P Require Import Prelude Bitmap Bihash BihashSlots BihashBlocks.

Module BihashSpec.
Import Bh BihashSlots BihashBlocks.

(** ** The representation relation *)

Section repr.
Context `{HE : BihashEnvOk}.

Definition bucket_of (h : clib_bihash) (k : Z) : Z := Z.land (clib_bihash_hash k) (u32 (nbuckets h - 1)).

Definition home_of (h : clib_bihash) (b : clib_bihash_bucket) : Z → Z → Prop :=
  if linear_search b =? 0 then paged h (log2_pages b) else λ _ _, True.

Record values_ok (h : clib_bihash) (i : Z) (b : clib_bihash_bucket) (v : list clib_bihash_kv) : Prop := {
  vo_pages : 0 ≤ log2_pages b ≤ 26;
  vo_len : zlen v = 4 * 2 ^ log2_pages b;
  vo_slots : slots_ok (λ k, bucket_of h k = i) (home_of h b) v;
}.

Definition block_ok (h : clib_bihash) (i : Z) (b : clib_bihash_bucket) (nfl : Z) (hp : heap) : Prop :=
  offset b ≠ 0 → log2_pages b < nfl ∧ ∃ v, hp !! offset b = Some v ∧ values_ok h i b v.

Definition block (hp : heap) (b : clib_bihash_bucket) : list clib_bihash_kv :=
  if offset b =? 0 then [] else default [] (hp !! offset b).

(** The buckets [bs], in a heap [hp] with [nfl] free lists, hold the map [m]. *)
Record repr (h : clib_bihash) (bs : list clib_bihash_bucket) (nfl : Z) (hp : heap) (m : gmap Z Z) : Prop := {
  rp_size : 0 ≤ log2_nbuckets h ≤ 31 ∧ nbuckets h = 2 ^ log2_nbuckets h;
  rp_len : zlen bs = nbuckets h;
  rp_block i b : vget bs i = Some b → block_ok h i b nfl hp;
  rp_holds k x : key_ok k → m !! k = Some x ↔ holds (block hp (velt zero_bucket bs (bucket_of h k))) k x;
  rp_keys k x : m !! k = Some x → key_ok k ∧ in_u64 x;
}.

Lemma bucket_of_range h bs nfl hp m k : repr h bs nfl hp m → 0 ≤ bucket_of h k < zlen bs.
Proof.
  intros Hr. rewrite (rp_len _ _ _ _ _ Hr). destruct (rp_size _ _ _ _ _ Hr) as [Hl Hn]. unfold bucket_of. rewrite Hn.
  pose proof (Z.pow_le_mono_r 2 (log2_nbuckets h) 31 ltac:(lia) ltac:(lia)).
  pose proof (Z.pow_pos_nonneg 2 (log2_nbuckets h)).
  rewrite u32_small by (unfold_ranges; lia). rewrite Z.sub_1_r, <-Z.ones_equiv, Z.land_ones by lia.
  apply Z.mod_pos_bound. lia.
Qed.

Lemma block_some hp b v : offset b ≠ 0 → hp !! offset b = Some v → block hp b = v.
Proof. intros Hb Hv. unfold block. by rewrite (proj2 (Z.eqb_neq _ _)), Hv by done. Qed.

Lemma block_none hp b : offset b = 0 → block hp b = [].
Proof. intros Hb. unfold block. by rewrite Hb. Qed.

(** Where a key is looked for. *)
Lemma search_range_ok h i b v k : values_ok h i b v → bucket_of h k = i →
  ∃ s n, search_range h k b = (s, n) ∧ 0 ≤ s ∧ 0 ≤ n ∧ s + n ≤ zlen v ∧
    (∀ j, s ≤ j < s + n → home_of h b k j) ∧
    (∀ j e, vget v j = Some e → key_ok k → key e = k → s ≤ j < s + n).
Proof.
  intros [Hlp Hlen [Helem _]] Hk. unfold search_range, home_of, BIHASH_KVP_PER_PAGE in *.
  destruct (linear_search b =? 0).
  - pose proof (home_page_range h k (log2_pages b) ltac:(lia)).
    eexists _, _. split; [done|]. split; [lia|]. split; [lia|]. split; [lia|]. split.
    + intros j Hj. unfold paged. Z.div_mod_to_equations. lia.
    + intros j e He Hkok <-. destruct (Helem j e He) as [->|(_ & _ & Hp)].
      * unfold key_ok in Hkok. cbn [key free_kv] in Hkok. lia.
      * unfold paged in Hp. rewrite <-Hp. Z.div_mod_to_equations. lia.
  - eexists _, _. split; [done|]. rewrite Z.shiftl_mul_pow2 by lia. pose proof (Z.pow_pos_nonneg 2 (log2_pages b)).
    split; [lia|]. split; [lia|]. split; [lia|]. split; [done|].
    intros j e He _ _. apply vget_Some_range in He. lia.
Qed.

(** Scanning for a key. *)
Lemma find_key h i b v k p : values_ok h i b v → bucket_of h k = i → key_ok k → (∀ e, p e = (key e =? k)) →
  ∃ s n r, search_range h k b = (s, n) ∧ find_slot p v s (Z.to_nat n) = Ok r ∧
    match r with
    | Some j => ∃ e, vget v j = Some e ∧ key e = k ∧ home_of h b k j
    | None => ∀ x, ¬ holds v k x
    end.
Proof.
  intros Hv Hk Hkok Hp. destruct (search_range_ok h i b v k Hv Hk) as (s & n & Hr & Hs & Hn & Hlen & Hhome & Hin).
  destruct (find_slot_spec p v (Z.to_nat n) s) as (r & Heq & Hres); [lia|lia|].
  exists s, n, r. split; [done|]. split; [done|]. destruct r as [j|].
  - destruct Hres as (Hj & e & He & Hpe). rewrite Hp in Hpe. apply Z.eqb_eq in Hpe.
    exists e. split; [done|]. split; [done|]. apply Hhome. lia.
  - intros x [j Hj]%elem_vget. specialize (Hin j _ Hj Hkok eq_refl).
    assert (p (Kv k x) = false) as Hf by (apply (Hres j); [lia|done]).
    rewrite Hp in Hf. cbn [key] in Hf. by rewrite Z.eqb_refl in Hf.
Qed.

Lemma search_bucket_ok h i b nfl k vp : block_ok h i b nfl (mheap h) → bucket_of h k = i → key_ok k →
  ∃ r, search_bucket h b k vp = Ok r ∧
    ((r = (vp, -1) ∧ ∀ x, ¬ holds (block (mheap h) b) k x) ∨
     ∃ x, r = (Kv k x, 0) ∧ holds (block (mheap h) b) k x).
Proof.
  intros Hb Hk Hkok. unfold search_bucket. destruct (Z.eqb_spec (offset b) 0) as [Eb|Eb].
  { eexists. split; [done|]. left. split; [done|]. intros x. rewrite block_none by done. by intros ?%elem_of_nil. }
  destruct (Hb Eb) as (_ & v & Hv & Hok). rewrite (block_some _ _ v) by done.
  unfold clib_bihash_get_value. rewrite Hv. cbn [of_option mbind res_bind].
  destruct (find_key h i b v k (λ e, clib_bihash_key_compare (key e) k) Hok Hk Hkok) as (s & n & r & -> & -> & Hr); [done|].
  cbn [mbind res_bind]. destruct r as [j|].
  - destruct Hr as (e & He & Hke & _). rewrite He. cbn [of_option mbind res_bind].
    exists (e, 0). split; [done|]. right. exists (value e). rewrite <-Hke. split; [by destruct e|].
    apply (vget_elem _ j). by destruct e.
  - exists (vp, -1). auto.
Qed.

(** ** Search *)

Definition found (m : gmap Z Z) (k : Z) (vp : clib_bihash_kv) : clib_bihash_kv * Z :=
  match m !! k with Some x => (Kv k x, 0) | None => (vp, -1) end.

Lemma search_ok h nfl m sk vp :
  repr h (buckets h) nfl (mheap h) m → key_ok (key sk) →
  clib_bihash_search h sk vp = Ok (found m (key sk) vp).
Proof.
  intros Hr Hk. unfold clib_bihash_search, read_bucket, bucket_at.
  pose proof (bucket_of_range h _ _ _ _ (key sk) Hr) as Hrange. unfold bucket_of in Hrange.
  rewrite (vget_velt zero_bucket) by done. cbn [of_option mbind res_bind].
  fold (bucket_of h (key sk)) in Hrange |- *. set (b := velt zero_bucket (buckets h) (bucket_of h (key sk))).
  assert (vget (buckets h) (bucket_of h (key sk)) = Some b) as Hb by by apply vget_velt.
  destruct (search_bucket_ok h _ b nfl (key sk) vp (rp_block _ _ _ _ _ Hr _ _ Hb) eq_refl Hk) as (r & -> & Hres).
  f_equal. unfold found.
  destruct Hres as [[-> Hno]|(x & -> & Hx)].
  - destruct (m !! key sk) as [x|] eqn:Em; [|done]. by apply (rp_holds _ _ _ _ _ Hr), Hno in Em.
  - by apply (rp_holds _ _ _ _ _ Hr) in Hx as ->.
Qed.

(** A change of one bucket. *)
Lemma repr_set h bs nfl nfl' hp hp' m m' bi b' :
  repr h bs nfl hp m → nfl ≤ nfl' → 0 ≤ bi < zlen bs → block_ok h bi b' nfl' hp' →
  (∀ i b, vget bs i = Some b → i ≠ bi → offset b ≠ 0 → hp' !! offset b = hp !! offset b) →
  (∀ k x, key_ok k → bucket_of h k = bi → m' !! k = Some x ↔ holds (block hp' b') k x) →
  (∀ k, bucket_of h k ≠ bi → m' !! k = m !! k) →
  (∀ k x, m' !! k = Some x → key_ok k ∧ in_u64 x) →
  repr h (vset bs bi b') nfl' hp' m'.
Proof.
  intros Hr Hnfl Hbi Hb' Hframe Hin Hout Hkeys. split; [by apply Hr|rewrite zlen_vset; by apply Hr| | |done].
  - intros i b. rewrite vget_vset. case_decide as Hd; [intros [= <-]; by destruct Hd as [<- _]|].
    intros Hi Hb0. destruct (rp_block _ _ _ _ _ Hr i b Hi Hb0) as (Hlt & v & Hv & Hok).
    split; [lia|]. exists v. split; [|done]. rewrite <-Hv. apply (Hframe i); [done| |done]. intros ->. by apply Hd.
  - intros k x Hk. destruct (decide (bucket_of h k = bi)) as [Eb|Eb].
    + rewrite Eb, velt_vset_eq by done. by apply Hin.
    + rewrite Hout, velt_vset_ne, (rp_holds _ _ _ _ _ Hr) by done.
      pose proof (bucket_of_range h _ _ _ _ k Hr) as Hrange.
      set (b := velt zero_bucket bs (bucket_of h k)).
      assert (vget bs (bucket_of h k) = Some b) as Hb by by apply vget_velt.
      unfold block. destruct (Z.eqb_spec (offset b) 0); [done|]. by rewrite (Hframe _ _ Hb Eb).
Qed.
End repr.

(** ** Building the new values of a full bucket *)

Section building.
Context `{HE : BihashEnvOk}.

(** The relation depends on the table through its size only. *)
Definition same_size (h h' : clib_bihash) : Prop := nbuckets h' = nbuckets h ∧ log2_nbuckets h' = log2_nbuckets h.

Lemma values_meta h h' i b v : same_size h h' → values_ok h i b v → values_ok h' i b v.
Proof.
  destruct h, h'. intros [Hn Hl]. cbn in Hn, Hl. subst. intros [H1 H2 H3]. split; [done|done|exact H3].
Qed.

Lemma repr_meta h h' bs nfl hp m : same_size h h' → repr h bs nfl hp m → repr h' bs nfl hp m.
Proof.
  intros Hs [H1 H2 H3 H4 H5]. pose proof Hs as [Hn Hl].
  split; [by rewrite Hn, Hl|by rewrite Hn| | |done].
  - intros i b Hi Hb. destruct (H3 i b Hi Hb) as (Hlt & v & Hv & Hok). split; [done|].
    exists v. split; [done|]. by apply (values_meta h).
  - intros k x Hk. rewrite H4 by done. unfold bucket_of. by rewrite Hn.
Qed.

(** A step of the writer that touches no block of a bucket or of a working copy. *)
Record evolves (bs : list clib_bihash_bucket) (own : gmap Z owner) (h : clib_bihash)
    (own' : gmap Z owner) (h' : clib_bihash) : Prop := {
  ev_arena : ∃ fl hp, h' = arena fl hp h;
  ev_ok : heap_ok bs own' (freelists h') (working_copies h') (mheap h');
  ev_small : small_offsets (mheap h');
  ev_lock : writer_lock h' = 1;
  ev_frame o x : own !! o = Some x → owned x = true → x ≠ OHand →
    own' !! o = Some x ∧ mheap h' !! o = mheap h !! o;
  ev_fl : zlen (freelists h) ≤ zlen (freelists h');
}.

Record writing (bs : list clib_bihash_bucket) (own : gmap Z owner) (h : clib_bihash) : Prop := {
  wr_ok : heap_ok bs own (freelists h) (working_copies h) (mheap h);
  wr_small : small_offsets (mheap h);
  wr_lock : writer_lock h = 1;
}.

Lemma evolves_writing bs own h own' h' : evolves bs own h own' h' → writing bs own' h'.
Proof. intros []. by split. Qed.

Lemma evolves_refl bs own h : writing bs own h → evolves bs own h own h.
Proof. intros []. split; try done. exists (freelists h), (mheap h). by destruct h. Qed.

Lemma evolves_trans bs own h own' h' own'' h'' :
  evolves bs own h own' h' → evolves bs own' h' own'' h'' → evolves bs own h own'' h''.
Proof.
  intros [(fl & hp & ->) _ _ _ Hf Hl] [(fl' & hp' & ->) Hok Hsm Hlk Hf' Hl']. split; [|done..| |].
  - by exists fl', hp'.
  - intros o x Ho Hx Hh. destruct (Hf o x Ho Hx Hh) as [Ho' Heq].
    destruct (Hf' o x Ho' Hx Hh) as [Ho'' Heq']. split; [done|]. by rewrite Heq'.
  - lia.
Qed.

Lemma evolves_size bs own h own' h' : evolves bs own h own' h' → same_size h h'.
Proof. intros [(fl & hp & ->) _ _ _ _ _]. done. Qed.

Lemma alloc_evolves bs own h lp : writing bs own h → 0 ≤ lp →
  runs (value_alloc h lp) (λ r, evolves bs own h (<[r.2 := OHand]> own) r.1 ∧
    mheap r.1 !! r.2 = Some (replicate (Z.to_nat (Z.shiftl 1 lp * BIHASH_KVP_PER_PAGE)) free_kv) ∧
    lp ≤ 26 ∧ lp < zlen (freelists r.1)).
Proof.
  intros [Hok Hsm Hlk] Hlp. eapply runs_mono; [by apply (value_alloc_spec bs own)|].
  intros [h' o] (fl & hp & Heq & Hsm' & Hal). cbn [fst snd] in *. subst h'.
  cbn [freelists mheap arena set_freelists set_mheap]. pose proof (al_fl _ _ _ _ _ _ _ Hal).
  split; [|split; [by apply Hal|split; [by apply Hal|lia]]].
  split; [by exists fl, hp|by apply Hal|done|done| |cbn; lia].
  intros o' x Ho' Hx Hh. assert (o' ≠ o). { intros ->. apply (al_own _ _ _ _ _ _ _ Hal) in Ho'. congruence. }
  rewrite lookup_insert_ne by done. split; [done|]. by apply (al_frame _ _ _ _ _ _ _ Hal).
Qed.

Lemma free_evolves bs own h o v lp : writing bs own h → own !! o = Some OHand → mheap h !! o = Some v →
  zlen v = 4 * 2 ^ lp → 0 ≤ lp < zlen (freelists h) → lp ≤ 26 →
  ∃ h', value_free h o = Ok h' ∧ evolves bs own h (<[o := OFree lp]> own) h'.
Proof.
  intros [Hok Hsm Hlk] Ho Hv Hlen Hlp Hl26.
  destruct (value_free_spec bs own h o v lp) as (fl & hp & -> & Hsm' & Hok' & Hfr & Hfl); [done..|].
  eexists. split; [done|]. split; [by exists fl, hp|done|done|done| |cbn; lia].
  intros o' x Ho' Hx Hh. assert (o' ≠ o) by congruence. rewrite lookup_insert_ne by done.
  split; [done|]. by apply Hfr.
Qed.

Lemma store_evolves bs own h o v : writing bs own h → own !! o = Some OHand → is_Some (mheap h !! o) →
  evolves bs own h own (store o v h).
Proof.
  intros [Hok Hsm Hlk] Ho [v0 Hv0]. split; [|by eapply heap_store|by apply small_insert; [|eapply Hsm]|done| |done].
  - exists (freelists h), (<[o := v]> (mheap h)). by destruct h.
  - intros o' x Ho' Hx Hh. split; [done|]. cbn. rewrite lookup_insert_ne; [done|]. congruence.
Qed.

(** The block [nv] in the writer's hand holds the pairs of [v] in pages for [mark]. *)
Record rehash_result (h : clib_bihash) (own : gmap Z owner) (bi nv lp mark : Z) (v v' : list clib_bihash_kv) : Prop := {
  rr_own : own !! nv = Some OHand;
  rr_fl : lp < zlen (freelists h);
  rr_value : mheap h !! nv = Some v';
  rr_ok : values_ok h bi (Bucket nv mark lp) v';
  rr_holds k x : key_ok k → holds v' k x ↔ holds v k x;
}.

Definition split_post (bs : list clib_bihash_bucket) (own : gmap Z owner) (h : clib_bihash) (bi lp mark : Z)
    (v : list clib_bihash_kv) (r : clib_bihash * option Z) : Prop :=
  ∃ own', evolves bs own h own' r.1 ∧
    match r.2 with Some nv => ∃ v', rehash_result r.1 own' bi nv lp mark v v' | None => True end.

Lemma split_post_none bs own h own' h' bi nv lp mark v kvs :
  evolves bs own h own' h' → own' !! nv = Some OHand → mheap h' !! nv = Some kvs → zlen kvs = 4 * 2 ^ lp →
  0 ≤ lp ≤ 26 → lp < zlen (freelists h') →
  runs (h ← value_free h' nv; Ok (h, None)) (split_post bs own h bi lp mark v).
Proof.
  intros Hev Hown Hkvs Hlen Hlp Hfl.
  destruct (free_evolves bs own' h' nv kvs lp) as (h'' & -> & Hev'); [by eapply evolves_writing|done..|lia|lia|].
  cbn [mbind res_bind runs]. eexists. split; [by eapply evolves_trans|done].
Qed.

Lemma split_and_rehash_spec bs own h bi wo c v lp : writing bs own h → 0 ≤ lp →
  own !! wo = Some (OWorking c) → mheap h !! wo = Some v → slots_ok (λ k, bucket_of h k = bi) (λ _ _, True) v →
  runs (split_and_rehash h wo lp) (split_post bs own h bi lp 0 v).
Proof.
  intros Hw Hlp Hwo Hv Hs. unfold split_and_rehash. eapply runs_bind; [by apply (alloc_evolves bs own)|].
  intros [h1 nv] (Hev & Hnv & Hl26 & Hlfl). cbn [fst snd] in *.
  destruct (ev_frame _ _ _ _ _ Hev wo _ Hwo) as [_ Hwv]; [done..|].
  unfold clib_bihash_get_value. rewrite Hwv, Hv, Hnv. cbn [of_option mbind res_bind].
  set (new := replicate _ free_kv) in *. assert (zlen new = 4 * 2 ^ lp) as Hnew by by apply pages_length.
  destruct (rehash_loop_spec (λ k, bucket_of h k = bi) h1 lp v Hlp new) as (kvs & ok & -> & Hlen & Hok);
    [done|by apply slots_free|done|intros; by apply holds_free|].
  cbn [mbind res_bind].
  assert (evolves bs own h (<[nv := OHand]> own) (store nv kvs h1)) as Hev'.
  { eapply evolves_trans; [done|]. apply store_evolves; [by eapply evolves_writing|by rewrite lookup_insert_eq|by eexists]. }
  destruct ok.
  - cbn [runs]. exists (<[nv := OHand]> own). cbn [fst snd]. split; [done|]. exists kvs.
    destruct (Hok eq_refl) as [Hsl Hh].
    split; [by rewrite lookup_insert_eq|done|cbn; by rewrite lookup_insert_eq| |].
    + split; [cbn; lia|done|]. unfold home_of. cbn [linear_search log2_pages Z.eqb].
      destruct (ev_arena _ _ _ _ _ Hev) as (fl & hp & ->). exact Hsl.
    + intros k x Hk. rewrite Hh by done. split; [|by right]. intros [?|?]; [|done]. exfalso. by eapply holds_free.
  - apply (split_post_none _ _ _ _ _ bi nv lp 0 v kvs Hev'); [by rewrite lookup_insert_eq|cbn; by rewrite lookup_insert_eq|done|lia|done].
Qed.

Lemma split_linear_spec bs own h bi wo c v lp : writing bs own h → 0 ≤ lp →
  own !! wo = Some (OWorking c) → mheap h !! wo = Some v → slots_ok (λ k, bucket_of h k = bi) (λ _ _, True) v →
  zlen v < 4 * 2 ^ lp →
  runs (split_and_rehash_linear h wo lp) (λ r, split_post bs own h bi lp 1 v r ∧
    ∃ nv v', r.2 = Some nv ∧ mheap r.1 !! nv = Some v' ∧ vget v' (4 * 2 ^ lp - 1) = Some free_kv).
Proof.
  intros Hw Hlp Hwo Hv Hs Hlt. unfold split_and_rehash_linear. eapply runs_bind; [by apply (alloc_evolves bs own)|].
  intros [h1 nv] (Hev & Hnv & Hl26 & Hlfl). cbn [fst snd] in *.
  destruct (ev_frame _ _ _ _ _ Hev wo _ Hwo) as [_ Hwv]; [done..|].
  unfold clib_bihash_get_value. rewrite Hwv, Hv, Hnv. cbn [of_option mbind res_bind].
  set (new := replicate _ free_kv) in *. assert (zlen new = 4 * 2 ^ lp) as Hnew by by apply pages_length.
  assert (Z.shiftl 1 lp * BIHASH_KVP_PER_PAGE = zlen new) as -> by (rewrite Hnew, Z.shiftl_1_l; unfold BIHASH_KVP_PER_PAGE; lia).
  destruct (linear_loop_spec (λ k, bucket_of h k = bi) v new 0) as (kvs & -> & Hlen & [Hsl Hh] & Hlast);
    [lia|lia|done|by apply slots_free| |intros; by apply holds_free|].
  { intros i [x Hx]%vget_in_range. rewrite Hx. apply vget_elem, elem_of_replicate in Hx as [-> _]. done. }
  cbn [mbind res_bind runs].
  assert (evolves bs own h (<[nv := OHand]> own) (store nv kvs h1)) as Hev'.
  { eapply evolves_trans; [done|]. apply store_evolves; [by eapply evolves_writing|by rewrite lookup_insert_eq|by eexists]. }
  split.
  - exists (<[nv := OHand]> own). cbn [fst snd]. split; [done|]. exists kvs.
    split; [by rewrite lookup_insert_eq|done|cbn; by rewrite lookup_insert_eq| |].
    + split; [cbn; lia|by rewrite Hlen|]. unfold home_of. cbn [linear_search log2_pages Z.eqb].
      destruct (ev_arena _ _ _ _ _ Hev) as (fl & hp & ->). exact Hsl.
    + intros k x Hk. rewrite Hh by done. split; [|by right]. intros [?|?]; [|done]. exfalso. by eapply holds_free.
  - exists nv, kvs. split; [done|]. split; [cbn; by rewrite lookup_insert_eq|]. by rewrite <-Hnew.
Qed.
End building.

Section expanding.
Context `{HE : BihashEnvOk}.
Context (bs : list clib_bihash_bucket) (bi : Z) (v : list clib_bihash_kv) (wo c : Z) (add_v : clib_bihash_kv).

(** The block [nv] holds the pairs of [v] and the new one. *)
Record built (h : clib_bihash) (own : gmap Z owner) (nv lp mark : Z) : Prop := {
  bu_own : own !! nv = Some OHand;
  bu_fl : lp < zlen (freelists h);
  bu_value : ∃ v', mheap h !! nv = Some v' ∧ values_ok h bi (Bucket nv mark lp) v' ∧
    ∀ k x, key_ok k → holds v' k x ↔ if decide (k = key add_v) then x = value add_v else holds v k x;
}.

(** The writer looks at the copy [wo] of the values [v] of bucket [bi], which do not hold the key. *)
Record adding (own : gmap Z owner) (h : clib_bihash) : Prop := {
  ad_writing : writing bs own h;
  ad_copy : own !! wo = Some (OWorking c);
  ad_value : mheap h !! wo = Some v;
  ad_slots : slots_ok (λ k, bucket_of h k = bi) (λ _ _, True) v;
  ad_kv : kv_ok add_v;
  ad_bucket : bucket_of h (key add_v) = bi;
  ad_absent x : ¬ holds v (key add_v) x;
}.

Lemma adding_evolves own h own' h' : adding own h → evolves bs own h own' h' → adding own' h'.
Proof.
  intros [Hw Hc Hv Hs Hk Hb Ha] Hev. destruct (ev_frame _ _ _ _ _ Hev wo _ Hc) as [Hc' Hv']; [done..|].
  destruct (evolves_size _ _ _ _ _ Hev) as [Hn Hl]. split; [by eapply evolves_writing|done|congruence| |done| |done].
  - unfold bucket_of. rewrite Hn. exact Hs.
  - unfold bucket_of. rewrite Hn. exact Hb.
Qed.

(** [try_add] adds the pair or frees the block, and adds it when the block, marked for linear
    search, has room. *)
Lemma try_add_spec own h nv lp mark v' : adding own h → 0 ≤ lp →
  rehash_result h own bi nv lp mark v v' →
  ∃ h' b own', try_add h add_v nv lp mark = Ok (h', b) ∧ evolves bs own h own' h' ∧
    (b = true → built h' own' nv lp mark) ∧
    (mark = 1 → vget v' (4 * 2 ^ lp - 1) = Some free_kv → b = true).
Proof.
  intros Had Hlp [Hown Hfl Hv' Hok Hh]. unfold try_add.
  destruct (search_range_ok h bi (Bucket nv mark lp) v' (key add_v) Hok (ad_bucket _ _ Had))
    as (s & n & Hsr & Hs & Hn & Hle & Hhome & _). rewrite Hsr.
  unfold clib_bihash_get_value at 1. rewrite Hv'. cbn [of_option mbind res_bind].
  destruct (find_slot_spec clib_bihash_is_free v' (Z.to_nat n) s) as (r & -> & Hr); [lia|lia|]. cbn [mbind res_bind].
  pose proof (ad_writing _ _ Had) as Hw.
  destruct r as [i|].
  - destruct Hr as (Hi & e & Hie & ->%is_free_inv). unfold store_kv, clib_bihash_get_value. rewrite Hv'.
    cbn [of_option mbind res_bind]. rewrite Hie. cbn [of_option mbind res_bind].
    destruct (ad_kv _ _ Had) as [Hk Hx].
    destruct (slots_set _ _ _ i free_kv (key add_v) (value add_v) (vo_slots _ _ _ _ Hok)) as [Hs2 Hh2];
      [done|done|done|by apply Had|by apply Hhome; lia| |].
    { right. split; [done|]. intros y. rewrite Hh by done. by apply (ad_absent _ _ Had). }
    replace (Kv (key add_v) (value add_v)) with add_v in Hs2, Hh2 by (by destruct add_v).
    exists (store nv (vset v' i add_v) h), true, own. split; [done|]. split.
    { apply store_evolves; [done|done|by eexists]. }
    split; [|done]. intros _. split; [done|done|]. exists (vset v' i add_v).
    split; [cbn; by rewrite lookup_insert_eq|]. split.
    + destruct Hok as [H1 H2 _]. split; [done|by rewrite zlen_vset|exact Hs2].
    + intros k x Hkk. rewrite Hh2 by done. case_decide; [done|]. by apply Hh.
  - destruct Hok as [Hp Hlen _]. cbn [log2_pages] in Hp, Hlen.
    destruct (free_evolves bs own h nv v' lp) as (h' & -> & Hev); [done..|lia|lia|].
    cbn [mbind res_bind]. exists h', false, (<[nv := OFree lp]> own). split; [done|]. split; [done|]. split; [done|].
    intros -> Hlast. unfold search_range in Hsr. cbn [linear_search log2_pages Z.eqb] in Hsr.
    injection Hsr as <- <-. unfold BIHASH_KVP_PER_PAGE in Hr. rewrite Z.shiftl_mul_pow2 in Hr by lia.
    pose proof (Z.pow_pos_nonneg 2 lp).
    specialize (Hr (4 * 2 ^ lp - 1) free_kv ltac:(lia) Hlast). by rewrite free_is_free in Hr.
Qed.

Definition expand_post (own : gmap Z owner) (h : clib_bihash) (r : clib_bihash * Z * Z * Z) : Prop :=
  let '(h', nv, n, mark) := r in
  ∃ own', evolves bs own h own' h' ∧ built h' own' nv n mark ∧ 0 ≤ n.

Lemma mark_linear_spec fuel own h n : adding own h → 0 ≤ n - 1 → zlen v < 4 * 2 ^ (n - 1) →
  runs (mark_linear (S fuel) h add_v wo n) (λ r, expand_post own h (r, 1)).
Proof.
  intros Had Hn Hlt. cbn [mark_linear]. pose proof Had as [Hw Hc Hv Hs _ _ _].
  eapply runs_bind; [by apply (split_linear_spec bs own h bi wo c v)|].
  intros [h1 r] ((own1 & Hev & Hr) & nv & v' & Hnv & Hv' & Hlast). cbn [fst snd] in *. subst r.
  cbn [of_option mbind res_bind]. destruct Hr as [v2 Hrr].
  assert (v2 = v') as -> by (pose proof (rr_value _ _ _ _ _ _ _ _ Hrr); congruence).
  destruct (try_add_spec own1 h1 nv (n - 1) 1 v') as (h2 & b & own2 & -> & Hev2 & Hb & Htrue);
    [by eapply adding_evolves|done..|]. cbn [mbind res_bind].
  rewrite (Htrue eq_refl Hlast) in *. cbn [runs]. exists own2. split; [by eapply evolves_trans|]. split; [by apply Hb|done].
Qed.

(** The two ways into [mark_linear] from a split. *)
Lemma fall_back own h own1 h1 n : evolves bs own h own1 h1 → adding own1 h1 → 0 ≤ n - 1 → zlen v < 4 * 2 ^ (n - 1) →
  runs ('(h, new_v, n) ← mark_linear 2 h1 add_v wo n; Ok (h, new_v, n, 1)) (expand_post own h).
Proof.
  intros Hev Had Hn Hlt. eapply runs_bind; [by apply (mark_linear_spec 1 own1 h1 n)|].
  intros [[h2 nv] n'] (own2 & Hev2 & Hb & Hn'). exists own2. split; [by eapply evolves_trans|done].
Qed.

(** One split, followed by the attempt to add; [retry] goes on when either fails. *)
Lemma split_and_add own h n (retry : clib_bihash → res (clib_bihash * Z * Z * Z)) : adding own h → 0 ≤ n →
  (∀ own1 h1, evolves bs own h own1 h1 → adding own1 h1 → runs (retry h1) (expand_post own h)) →
  runs ('(h, new_v) ← split_and_rehash h wo n;
        match new_v with
        | Some new_v =>
            '(h, added) ← try_add h add_v new_v n 0;
            if (added : bool) then Ok (h, new_v, n, 0) else retry h
        | None => retry h
        end) (expand_post own h).
Proof.
  intros Had Hn Hretry. pose proof Had as [Hw Hc Hv Hs _ _ _].
  eapply runs_bind; [by apply (split_and_rehash_spec bs own h bi wo c v)|].
  intros [h1 r] (own1 & Hev & Hr). cbn [fst snd] in *.
  assert (adding own1 h1) as Had1 by by eapply adding_evolves.
  destruct r as [nv|]; [|by eapply Hretry]. destruct Hr as [v' Hrr].
  destruct (try_add_spec own1 h1 nv n 0 v') as (h2 & b & own2 & -> & Hev2 & Hb & _); [done..|].
  cbn [mbind res_bind]. assert (evolves bs own h own2 h2) as Hev' by by eapply evolves_trans.
  destruct b; [|eapply Hretry; [done|by eapply adding_evolves]].
  cbn [runs]. exists own2. split; [done|]. split; [by apply Hb|done].
Qed.

Lemma expand_spec own h cpu : adding own h → vget (working_copies h) cpu = Some wo →
  0 ≤ log2_pages (saved_bucket h) → zlen v = 4 * 2 ^ log2_pages (saved_bucket h) →
  runs (expand h add_v cpu) (expand_post own h).
Proof.
  intros Had Hcpu Hlp Hlen. unfold expand. rewrite Hcpu. cbn [of_option mbind res_bind].
  set (lp := log2_pages (saved_bucket h)) in *.
  assert (zlen v < 4 * 2 ^ (lp + 1 + 1 - 1)) as Hlt.
  { replace (lp + 1 + 1 - 1) with (Z.succ lp) by lia. rewrite Z.pow_succ_r by done. pose proof (Z.pow_pos_nonneg 2 lp). lia. }
  apply split_and_add; [done|lia|]. intros own1 h1 Hev1 Had1. unfold try_resplit.
  eapply runs_mono.
  - apply (split_and_add own1 h1); [done|lia|]. intros own2 h2 Hev2 Had2. apply (fall_back own1 h1 own2 h2); [done|done|lia|done].
  - intros [[[h3 nv] n] mark] (own3 & Hev3 & Hb). exists own3. split; [by eapply evolves_trans|done].
Qed.
End expanding.

(** ** Update *)

Section update.
Context `{HE : BihashEnvOk}.

(** What the readers can find in a state. *)
Definition sees (m : gmap Z Z) (h : clib_bihash) : Prop := ∃ nfl, repr h (buckets h) nfl (mheap h) m.

Record table_ok (h : clib_bihash) (m : gmap Z Z) : Prop := {
  tb_lock : writer_lock h = 0;
  tb_small : small_offsets (mheap h);
  tb_heap : ∃ own, heap_ok (buckets h) own (freelists h) (working_copies h) (mheap h);
  tb_repr : repr h (buckets h) (zlen (freelists h)) (mheap h) m;
}.

Definition apply_update (e : clib_bihash_kv) (is_add : bool) (m : gmap Z Z) : gmap Z Z :=
  if is_add then <[key e := value e]> m else delete (key e) m.

(** Up to some store every state is seen as [m], and from then on as [m']. *)
Definition switches (m m' : gmap Z Z) (tr : list clib_bihash) : Prop :=
  ∃ t1 t2 h', tr = t1 ++ t2 ∧ Forall (sees m) t1 ∧ Forall (sees m') t2 ∧ last tr = Some h' ∧ table_ok h' m'.

Lemma repr_copy h bs nfl hp hp' m bi b wo v :
  repr h bs nfl hp m → vget bs bi = Some b → offset b ≠ 0 → hp !! offset b = Some v → wo ≠ 0 → hp' !! wo = Some v →
  (∀ i b, vget bs i = Some b → i ≠ bi → offset b ≠ 0 → hp' !! offset b = hp !! offset b) →
  repr h (vset bs bi (Bucket wo (linear_search b) (log2_pages b))) nfl hp' m.
Proof.
  intros Hr Hb Hb0 Hv Hwo Hv' Hf. pose proof (vget_Some_range _ _ _ Hb) as Hbi.
  destruct (rp_block _ _ _ _ _ Hr bi b Hb Hb0) as (Hlt & v2 & Hv2 & Hok). rewrite Hv in Hv2. injection Hv2 as <-.
  apply (repr_set h bs nfl nfl hp hp' m); [done|lia|done| |done| |done|by apply (rp_keys _ _ _ _ _ Hr)].
  - intros _. split; [done|]. exists v. split; [done|]. destruct Hok as [H1 H2 H3]. by split.
  - intros k x Hk Hbk. rewrite (rp_holds _ _ _ _ _ Hr), Hbk by done.
    unfold velt. rewrite Hb. cbn [default]. rewrite !(block_some _ _ v) by done. done.
Qed.

Lemma repr_same_heap h bs nfl hp hp' m : repr h bs nfl hp m →
  (∀ i b, vget bs i = Some b → offset b ≠ 0 → hp' !! offset b = hp !! offset b) → repr h bs nfl hp' m.
Proof.
  intros Hr Hf. split; [apply Hr|apply Hr| | |apply Hr].
  - intros i b Hi Hb. destruct (rp_block _ _ _ _ _ Hr i b Hi Hb) as (Hlt & v & Hv & Hok).
    split; [done|]. exists v. split; [|done]. by rewrite (Hf i b Hi Hb).
  - intros k x Hk. rewrite (rp_holds _ _ _ _ _ Hr) by done.
    pose proof (bucket_of_range h _ _ _ _ k Hr) as Hrange. set (b := velt zero_bucket bs (bucket_of h k)).
    assert (vget bs (bucket_of h k) = Some b) as Hb by by apply vget_velt.
    unfold block. destruct (Z.eqb_spec (offset b) 0) as [|Hb0]; [done|]. by rewrite (Hf _ b Hb Hb0).
Qed.

Lemma vset_vset {A} (l : list A) i x y : vset (vset l i x) i y = vset l i y.
Proof. unfold vset. case_cond; [|done]. apply list_insert_insert_eq. Qed.

Lemma vset_id {A} (l : list A) i x : vget l i = Some x → vset l i x = l.
Proof. unfold vget, vset. case_cond; [|done]. apply list_insert_id. Qed.

(** A bucket takes the block in the writer's hand, and gives its own. *)
Lemma heap_install bs own fl wcs hp bi b nv lin lp :
  heap_ok bs own fl wcs hp → vget bs bi = Some b → offset b ≠ 0 → own !! nv = Some OHand →
  heap_ok (vset bs bi (Bucket nv lin lp)) (<[nv := OBucket bi]> (<[offset b := OHand]> own)) fl wcs hp.
Proof.
  intros Hok Hb Hb0 Hnv. pose proof Hok as [Hd Hbk Hw Hf]. pose proof (Hbk bi b Hb Hb0) as Ho.
  assert (nv ≠ offset b) by congruence.
  assert (∀ o x, own !! o = Some x → x ≠ OHand → x ≠ OBucket bi →
    (<[nv := OBucket bi]> (<[offset b := OHand]> own)) !! o = Some x) as Hkeep.
  { intros o x Hox Hx1 Hx2. by rewrite !lookup_insert_ne by congruence. }
  split.
  - intros o x [[<- _]|[_ [[<- _]|[_ Hox]]%lookup_insert_Some]]%lookup_insert_Some; by eapply Hd.
  - intros i b'. rewrite vget_vset. case_decide as Hcase.
    + intros [= <-] _. destruct Hcase as [<- _]. by rewrite lookup_insert_eq.
    + intros Hi Hi0. apply Hkeep; [by apply Hbk|done|]. intros [= ->]. apply Hcase.
      split; [done|]. by apply vget_Some_range in Hi.
  - intros c o Hc Hc0. by apply Hkeep; [apply Hw|..].
  - intros l r Hl. destruct (Hf l r Hl) as [c Hc]. exists c. eapply chain_frame; [|done].
    intros y Hy. pose proof (chain_owner _ _ _ _ _ _ Hc Hy) as Hy'. rewrite Hy'. split; [by apply Hkeep|done].
Qed.

Lemma heap_install_empty bs own fl wcs hp bi b nv lin lp :
  heap_ok bs own fl wcs hp → vget bs bi = Some b → offset b = 0 → own !! nv = Some OHand →
  heap_ok (vset bs bi (Bucket nv lin lp)) (<[nv := OBucket bi]> own) fl wcs hp.
Proof.
  intros Hok Hb Hb0 Hnv. pose proof Hok as [Hd Hbk Hw Hf].
  assert (∀ o x, own !! o = Some x → x ≠ OHand → (<[nv := OBucket bi]> own) !! o = Some x) as Hkeep.
  { intros o x Hox Hx1. by rewrite lookup_insert_ne by congruence. }
  split.
  - intros o x [[<- _]|[_ Hox]]%lookup_insert_Some; by eapply Hd.
  - intros i b'. rewrite vget_vset. case_decide as Hcase.
    + intros [= <-] _. destruct Hcase as [<- _]. by rewrite lookup_insert_eq.
    + intros Hi Hi0. by apply Hkeep; [apply Hbk|].
  - intros c o Hc Hc0. by apply Hkeep; [apply Hw|..].
  - intros l r Hl. destruct (Hf l r Hl) as [c Hc]. exists c. eapply chain_frame; [|done].
    intros y Hy. pose proof (chain_owner _ _ _ _ _ _ Hc Hy) as Hy'. rewrite Hy'. split; [by apply Hkeep|done].
Qed.

(** The map after the update agrees with the new values of the bucket. *)
Lemma apply_update_other h e is_add m k : bucket_of h k ≠ bucket_of h (key e) → apply_update e is_add m !! k = m !! k.
Proof.
  intros Hne. unfold apply_update. assert (k ≠ key e) by congruence.
  destruct is_add; [by rewrite lookup_insert_ne|by rewrite lookup_delete_ne].
Qed.

Lemma apply_update_keys h bs nfl hp m e is_add : repr h bs nfl hp m → kv_ok e →
  ∀ k x, apply_update e is_add m !! k = Some x → key_ok k ∧ in_u64 x.
Proof.
  intros Hr [Hk Hx] k x. unfold apply_update. destruct is_add.
  - intros [[<- <-]|[_ ?]]%lookup_insert_Some; [done|]. by eapply rp_keys.
  - intros [_ ?]%lookup_delete_Some. by eapply rp_keys.
Qed.

Lemma apply_update_value e is_add m k x :
  apply_update e is_add m !! k = Some x ↔
  if decide (k = key e) then is_add = true ∧ x = value e else m !! k = Some x.
Proof.
  unfold apply_update. destruct is_add.
  - rewrite lookup_insert_Some. case_decide as Hd.
    + split; [intros [[_ <-]|[? _]]; [done|by subst]|]. intros [_ ->]. by left.
    + split; [by intros [[? _]|[_ ?]]|]. intros ?. by right.
  - rewrite lookup_delete_Some. case_decide as Hd; [split; [intros [? _]; by subst|by intros [? _]]|].
    split; [by intros [_ ?]|by intros ?].
Qed.
End update.

Lemma forall_two {A} (P : A → Prop) x y : P x → P y → Forall P [x; y].
Proof. by repeat constructor. Qed.
Lemma forall_three {A} (P : A → Prop) x y z : P x → P y → P z → Forall P [x; y; z].
Proof. by repeat constructor. Qed.

(** The writer has made its copy of a bucket in use. *)

Section mid.
Context `{HE : BihashEnvOk}.
Context (h : clib_bihash) (m : gmap Z Z) (own own' : gmap Z owner) (bi cpu : Z) (b : clib_bihash_bucket)
  (v : list clib_bihash_kv) (e : clib_bihash_kv) (is_add : bool) (wcs : list Z) (hp : heap) (wo : Z).
Context (Hw : writing (buckets h) own h) (Hr : repr h (buckets h) (zlen (freelists h)) (mheap h) m)
  (Hb : vget (buckets h) bi = Some b) (Hb0 : offset b ≠ 0) (Hv : mheap h !! offset b = Some v)
  (Hok : values_ok h bi b v) (Hlt : log2_pages b < zlen (freelists h)) (Hkv : kv_ok e)
  (Hbi : bucket_of h (key e) = bi) (Hcp : copied (buckets h) own own' h cpu wcs hp wo v).

Definition copy_bucket : clib_bihash_bucket := Bucket wo (linear_search b) (log2_pages b).
Definition h1 : clib_bihash := set_bucket bi copy_bucket (set_saved b (set_working_copies wcs (set_mheap hp h))).

Lemma mid_range : 0 ≤ bi < zlen (buckets h).
Proof. by eapply vget_Some_range. Qed.

Lemma mid_own i b0 : vget (buckets h) i = Some b0 → offset b0 ≠ 0 →
  own' !! offset b0 = Some (OBucket i) ∧ hp !! offset b0 = mheap h !! offset b0.
Proof.
  intros Hi Hi0. apply (cp_frame _ _ _ _ _ _ _ _ _ Hcp). by apply (ho_bucket _ _ _ _ _ (wr_ok _ _ _ Hw)).
Qed.

Lemma mid_value : hp !! offset b = Some v.
Proof. destruct (mid_own bi b Hb Hb0) as [_ ->]. done. Qed.

Lemma mid_copy_ne : wo ≠ offset b ∧ wo ≠ 0.
Proof.
  pose proof (cp_own _ _ _ _ _ _ _ _ _ Hcp) as Ho. destruct (mid_own bi b Hb Hb0) as [Hob _].
  split; [congruence|]. by destruct (ho_dom _ _ _ _ _ (cp_ok _ _ _ _ _ _ _ _ _ Hcp) _ _ Ho).
Qed.

(** As long as the blocks of the other buckets and the copy stay, the readers see [m]. *)
Lemma mid_sees s : same_size h s → buckets s = vset (buckets h) bi copy_bucket → mheap s !! wo = Some v →
  (∀ o i, own' !! o = Some (OBucket i) → i ≠ bi → mheap s !! o = hp !! o) → sees m s.
Proof.
  intros Hs Hbs Hwo Hf. exists (zlen (freelists h)). rewrite Hbs. apply (repr_meta h); [done|].
  apply (repr_copy h (buckets h) _ (mheap h) _ m bi b wo v); [done..|by apply mid_copy_ne|done|].
  intros i b0 Hi Hne Hi0. destruct (mid_own i b0 Hi Hi0) as [Ho Heq]. rewrite <-Heq. by apply (Hf _ i).
Qed.

Lemma sees_start : sees m h.
Proof. by eexists. Qed.

Lemma sees_h1 : sees m h1.
Proof. apply mid_sees; [done|done|by apply Hcp|done]. Qed.

(** New values [v'] of the bucket, at the offset of [b']. *)
Definition updates (v' : list clib_bihash_kv) : Prop :=
  ∀ k x, key_ok k → holds v' k x ↔ if decide (k = key e) then is_add = true ∧ x = value e else holds v k x.

Lemma updates_map v' : updates v' →
  ∀ k x, key_ok k → bucket_of h k = bi → apply_update e is_add m !! k = Some x ↔ holds v' k x.
Proof.
  intros Hu k x Hk Hkb. unfold updates in Hu. rewrite apply_update_value, Hu by done. case_decide; [done|].
  rewrite (rp_holds _ _ _ _ _ Hr), Hkb by done. unfold velt. rewrite Hb. cbn [default]. by rewrite (block_some _ _ v).
Qed.

Lemma repr_updated s nfl b' v' : same_size h s → buckets s = vset (buckets h) bi b' →
  zlen (freelists h) ≤ nfl → offset b' ≠ 0 → mheap s !! offset b' = Some v' → log2_pages b' < nfl →
  values_ok h bi b' v' → updates v' →
  (∀ o i, own' !! o = Some (OBucket i) → i ≠ bi → mheap s !! o = hp !! o) →
  repr s (buckets s) nfl (mheap s) (apply_update e is_add m).
Proof.
  intros Hs Hbs Hnfl Hb0' Hv' Hlp Hok' Hu Hf. rewrite Hbs. apply (repr_meta h); [done|].
  apply (repr_set h (buckets h) (zlen (freelists h)) nfl (mheap h) (mheap s) m).
  - done.
  - lia.
  - apply mid_range.
  - intros _. split; [done|]. by exists v'.
  - intros i b0 Hi Hne Hi0. destruct (mid_own i b0 Hi Hi0) as [Ho Heq]. rewrite <-Heq. by apply (Hf _ i).
  - intros k x Hk Hkb. rewrite (block_some _ _ v') by done. by apply updates_map.
  - intros k Hk. apply (apply_update_other h). congruence.
  - by eapply apply_update_keys.
Qed.

Definition update_done (rv : Z) (r : update) : Prop := r.2 = rv ∧ switches m (apply_update e is_add m) r.1.

(** A store into the original of the bucket. *)
Lemma store_and_restore_ok i e0 e1 : vget v i = Some e0 →
  slots_ok (λ k, bucket_of h k = bi) (home_of h b) (vset v i e1) → updates (vset v i e1) →
  runs (store_and_restore h1 [h; h1] bi i e1) (update_done 0).
Proof.
  intros Hi Hs Hu. unfold store_and_restore, store_kv, clib_bihash_get_value.
  change (mheap h1 !! offset (saved_bucket h1)) with (hp !! offset b). rewrite mid_value. cbn [of_option mbind res_bind].
  rewrite Hi. cbn [of_option mbind res_bind]. unfold unlock. cbn [runs].
  change (saved_bucket (store (offset (saved_bucket h1)) (vset v i e1) h1)) with b.
  change (saved_bucket h1) with b.
  set (s1 := store (offset b) (vset v i e1) h1). set (s2 := set_bucket bi b s1). set (s3 := set_lock 0 s2).
  assert (buckets s2 = buckets h) as Hbs.
  { change (buckets s2) with (vset (vset (buckets h) bi copy_bucket) bi b). by rewrite vset_vset, vset_id. }
  destruct mid_copy_ne as [Hne Hwo0]. destruct (mid_own bi b Hb Hb0) as [Hown _].
  assert (∀ o j, own' !! o = Some (OBucket j) → j ≠ bi → mheap s1 !! o = hp !! o) as Hf.
  { intros o j Ho Hj. cbn. rewrite lookup_insert_ne; [done|]. congruence. }
  assert (repr s3 (buckets s3) (zlen (freelists h)) (mheap s3) (apply_update e is_add m)) as Hr3.
  { apply (repr_updated s3 _ b (vset v i e1)); [done| |lia|done| |done| |done|done].
    - change (buckets s3) with (buckets s2). rewrite Hbs. by rewrite vset_id.
    - cbn. by rewrite lookup_insert_eq.
    - destruct Hok as [H1 H2 _]. split; [done|by rewrite zlen_vset|done]. }
  split; [done|]. exists [h; h1; s1], [s2; s3], s3. split; [done|]. split; [|split; [|split; [done|split]]].
  - apply forall_three; [apply sees_start|apply sees_h1|]. apply mid_sees; [done|done| |done].
    cbn. rewrite lookup_insert_ne by done. by apply Hcp.
  - apply forall_two; exists (zlen (freelists h)); [|done]. by apply (repr_meta s3).
  - done.
  - cbn. apply small_insert; [by apply Hcp|]. by apply (cp_small _ _ _ _ _ _ _ _ _ Hcp _ v), mid_value.
  - exists own'. change (buckets s3) with (buckets s2). rewrite Hbs. cbn.
    eapply heap_store; [by apply Hcp|done|done].
  - done.
Qed.

(** Nothing to delete. *)
Lemma restore_ok : is_add = false → (∀ x, ¬ holds v (key e) x) →
  runs (unlock (set_bucket bi (saved_bucket h1) h1) [h; h1; set_bucket bi (saved_bucket h1) h1] (-3)) (update_done (-3)).
Proof.
  intros Hadd Hno. unfold unlock, update_done. rewrite Hadd. cbn [runs]. change (saved_bucket h1) with b.
  set (s2 := set_bucket bi b h1). set (s3 := set_lock 0 s2).
  assert (buckets s2 = buckets h) as Hbs.
  { change (buckets s2) with (vset (vset (buckets h) bi copy_bucket) bi b). by rewrite vset_vset, vset_id. }
  assert (repr s3 (buckets s3) (zlen (freelists h)) (mheap s3) (apply_update e false m)) as Hr3.
  { change (buckets s3) with (buckets s2). rewrite Hbs. apply (repr_meta h); [done|].
    assert (apply_update e false m = m) as ->.
    { unfold apply_update. apply delete_id. destruct (m !! key e) as [x|] eqn:Em; [|done]. exfalso.
      apply (rp_holds _ _ _ _ _ Hr) in Em; [|by apply Hkv]. rewrite Hbi in Em. unfold velt in Em. rewrite Hb in Em.
      cbn [default] in Em. rewrite (block_some _ _ v) in Em by done. by apply (Hno x). }
    apply (repr_same_heap h _ _ (mheap h)); [done|]. intros i b0 Hi Hi0. by apply (mid_own i b0). }
  split; [done|]. exists [h; h1], [s2; s3], s3. split; [done|]. split; [|split; [|split; [done|split]]].
  - apply forall_two; [apply sees_start|apply sees_h1].
  - apply forall_two; exists (zlen (freelists h)); [|done]. by apply (repr_meta s3).
  - done.
  - by apply Hcp.
  - exists own'. change (buckets s3) with (buckets s2). rewrite Hbs. by apply Hcp.
  - done.
Qed.
End mid.

Section grow.
Context `{HE : BihashEnvOk}.
Context (h : clib_bihash) (m : gmap Z Z) (own own' : gmap Z owner) (bi cpu : Z) (b : clib_bihash_bucket)
  (v : list clib_bihash_kv) (e : clib_bihash_kv) (wcs : list Z) (hp : heap) (wo : Z).
Context (Hw : writing (buckets h) own h) (Hr : repr h (buckets h) (zlen (freelists h)) (mheap h) m)
  (Hb : vget (buckets h) bi = Some b) (Hb0 : offset b ≠ 0) (Hv : mheap h !! offset b = Some v)
  (Hok : values_ok h bi b v) (Hlt : log2_pages b < zlen (freelists h)) (Hkv : kv_ok e)
  (Hbi : bucket_of h (key e) = bi) (Hcp : copied (buckets h) own own' h cpu wcs hp wo v)
  (Habs : ∀ x, ¬ holds v (key e) x).

Let h1 := h1 h bi b wcs hp wo.

Lemma adding_h1 : adding (buckets h) bi v wo cpu e own' h1.
Proof.
  destruct Hok as [H1 H2 H3].
  destruct Hcp as [C1 C2 C3 C4 C5 C6].
  split; [split; [exact C1|exact C2|exact (wr_lock _ _ _ Hw)]|exact C4|exact C5| |done|done|done].
  eapply slots_weaken, H3.
Qed.

Lemma grow_states s2 own2 nv n mark s2' : evolves (buckets h) own' h1 own2 s2 →
  built bi v e s2 own2 nv n mark → 0 ≤ n → same_size s2 s2' →
  buckets s2' = buckets s2 → freelists s2' = freelists s2 → working_copies s2' = working_copies s2 →
  mheap s2' = mheap s2 → writer_lock s2' = 1 → saved_bucket s2' = b →
  ∃ s4, value_free (set_bucket bi (Bucket nv mark (u8 n)) s2') (offset b) = Ok s4 ∧
    switches m (apply_update e true m) ([h; h1; s2] ++ [s2'; set_bucket bi (Bucket nv mark (u8 n)) s2'; s4] ++ [set_lock 0 s4]).
Proof.
  intros Hev Hbu Hn Hsize Hsb Hsf Hsw Hsm Hsl Hss.
  destruct Hbu as [Hnv Hnfl (v' & Hv' & Hok' & Hh')]. pose proof Hok' as [Hn26 _ _]. cbn [log2_pages] in Hn26.
  rewrite u8_small by (unfold in_u8; lia). set (b' := Bucket nv mark n). set (s3 := set_bucket bi b' s2').
  destruct (mid_own h own own' cpu v wcs hp wo Hw Hcp bi b Hb Hb0) as [Hob Hhpb].
  destruct (mid_copy_ne h own own' bi cpu b v wcs hp wo Hw Hb Hb0 Hcp) as [Hwne Hwo0].
  destruct (ev_frame _ _ _ _ _ Hev (offset b) _ Hob) as [Hob2 Hvb2]; [done..|].
  destruct (ev_frame _ _ _ _ _ Hev wo _ (cp_own _ _ _ _ _ _ _ _ _ Hcp)) as [Hwo2 Hvw2]; [done..|].
  assert (mheap s2 !! offset b = Some v) as Hvb by (rewrite Hvb2; change (mheap h1) with hp; by rewrite Hhpb).
  assert (mheap s2 !! wo = Some v) as Hvw by (rewrite Hvw2; apply Hcp).
  assert (buckets s2 = buckets h1 ∧ same_size h s2 ∧ working_copies s2 = wcs) as (Hb2 & Hsz2 & Hw2).
  { destruct (ev_arena _ _ _ _ _ Hev) as (fl & hp2 & ->). done. }
  assert (buckets s3 = vset (buckets h) bi b') as Hb3.
  { change (buckets s3) with (vset (buckets s2') bi b'). rewrite Hsb, Hb2. apply vset_vset. }
  assert (same_size h s3) as Hsz3. { destruct Hsz2, Hsize. split; change (nbuckets s3) with (nbuckets s2');
    change (log2_nbuckets s3) with (log2_nbuckets s2'); congruence. }
  assert (writing (vset (buckets h) bi b') (<[nv := OBucket bi]> (<[offset b := OHand]> own2)) s3) as Hw3.
  { split; [|change (mheap s3) with (mheap s2'); rewrite Hsm; apply Hev|done].
    change (mheap s3) with (mheap s2'). change (freelists s3) with (freelists s2').
    change (working_copies s3) with (working_copies s2'). rewrite Hsm, Hsf, Hsw.
    apply heap_install; [apply Hev|done..]. }
  assert (nv ≠ offset b) as Hnvb by congruence.
  assert (nv ≠ 0) as Hnv0 by (by destruct (ho_dom _ _ _ _ _ (ev_ok _ _ _ _ _ Hev) _ _ Hnv)).
  destruct Hok as [Hlp Hlen Hslots]. pose proof (ev_fl _ _ _ _ _ Hev) as Hflm. change (freelists h1) with (freelists h) in Hflm.
  destruct (free_evolves _ _ s3 (offset b) v (log2_pages b) Hw3) as (s4 & Heq & Hev4).
  { by rewrite lookup_insert_ne, lookup_insert_eq. }
  { change (mheap s3) with (mheap s2'). by rewrite Hsm. }
  { done. }
  { change (freelists s3) with (freelists s2'). rewrite Hsf. lia. }
  { lia. }
  exists s4. split; [done|].
  assert (updates v e true v') as Hu.
  { intros k x Hk. rewrite Hh' by done. case_decide; [|done]. split; [done|by intros [_ ?]]. }
  assert (∀ o j, own' !! o = Some (OBucket j) → j ≠ bi → mheap s2 !! o = hp !! o) as Hf2.
  { intros o j Ho Hj. by apply (ev_frame _ _ _ _ _ Hev o _ Ho). }
  assert (∀ o j, own' !! o = Some (OBucket j) → j ≠ bi → mheap s4 !! o = hp !! o) as Hf4.
  { intros o j Ho Hj. destruct (ev_frame _ _ _ _ _ Hev o _ Ho) as [Ho2 _]; [done..|].
    rewrite <-(Hf2 o j Ho Hj), <-Hsm. apply (ev_frame _ _ _ _ _ Hev4 o (OBucket j)); [|done..].
    by rewrite !lookup_insert_ne by congruence. }
  assert (mheap s4 !! nv = Some v') as Hv4.
  { rewrite <-Hv', <-Hsm. apply (ev_frame _ _ _ _ _ Hev4 nv (OBucket bi)); [|done..]. by rewrite lookup_insert_eq. }
  assert (buckets s4 = buckets s3 ∧ same_size s3 s4) as [Hb4 Hsz4].
  { destruct (ev_arena _ _ _ _ _ Hev4) as (fl & hp4 & ->). done. }
  pose proof (ev_fl _ _ _ _ _ Hev4) as Hfl4. change (freelists s3) with (freelists s2') in Hfl4. rewrite Hsf in Hfl4.
  assert (values_ok h bi b' v') as Hokb. { apply (values_meta s2); [|done]. destruct Hsz2. split; congruence. }
  assert (∀ s, buckets s = buckets s3 → same_size s3 s → mheap s !! nv = Some v' →
    (∀ o j, own' !! o = Some (OBucket j) → j ≠ bi → mheap s !! o = hp !! o) →
    ∀ nfl, zlen (freelists s2) ≤ nfl → repr s (buckets s) nfl (mheap s) (apply_update e true m)) as Hafter.
  { intros s Hsb' Hs' Hsv Hsf' nfl Hge.
    apply (repr_updated h m own own' bi cpu b v e true wcs hp wo Hw Hr Hb Hb0 Hv Hkv Hbi Hcp s nfl b' v'); try done.
    - destruct Hsz3, Hs'. split; congruence.
    - by rewrite Hsb', Hb3.
    - lia.
    - cbn. lia. }
  assert (∀ s, buckets s = buckets s2 → same_size s2 s → mheap s = mheap s2 → sees m s) as Hbefore.
  { intros s Hsb' Hs' Hsh. apply (mid_sees h m own own' bi cpu b v wcs hp wo Hw Hr Hb Hb0 Hv Hcp).
    - destruct Hsz2, Hs'. split; congruence.
    - by rewrite Hsb', Hb2.
    - by rewrite Hsh.
    - intros o j Ho Hj. rewrite Hsh. by apply (Hf2 o j). }
  exists [h; h1; s2; s2'], [s3; s4; set_lock 0 s4], (set_lock 0 s4). split; [done|].
  split; [|split; [|split; [done|split; [done|apply Hev4| |]]]].
  - constructor; [by eexists|]. constructor; [by eapply sees_h1|].
    apply forall_two; [by apply Hbefore|by apply Hbefore].
  - apply forall_three; [exists (zlen (freelists s2))..].
    + apply Hafter; [done|done|change (mheap s3) with (mheap s2'); by rewrite Hsm| |done].
      change (mheap s3) with (mheap s2'). by rewrite Hsm.
    + by apply Hafter.
    + by apply Hafter.
  - exists (<[offset b := OFree (log2_pages b)]> (<[nv := OBucket bi]> (<[offset b := OHand]> own2))).
    change (buckets (set_lock 0 s4)) with (buckets s4). rewrite Hb4, Hb3. apply Hev4.
  - apply Hafter; [done|done|done|done|]. change (freelists (set_lock 0 s4)) with (freelists s4). lia.
Qed.

Lemma grow_ok tmp : runs
  ('(h2, save_new_v, new_log2_pages, mark_bucket_linear) ← expand h1 e cpu;
   tr ← expand_ok h2 tmp bi save_new_v new_log2_pages mark_bucket_linear;
   h3 ← of_option (last tr);
   unlock h3 ([h; h1; h2] ++ tr) 0) (update_done m e true 0).
Proof.
  eapply runs_bind.
  { apply (expand_spec (buckets h) bi v wo cpu e own' h1); [apply adding_h1|by apply Hcp|by apply Hok|by apply Hok]. }
  intros [[[s2 nv] n] mark] (own2 & Hev & Hbu & Hn). unfold expand_ok.
  set (s2' := if negb (Z.lxor tmp mark =? 0) then _ else s2).
  assert (same_size s2 s2' ∧ buckets s2' = buckets s2 ∧ freelists s2' = freelists s2 ∧
    working_copies s2' = working_copies s2 ∧ mheap s2' = mheap s2 ∧ writer_lock s2' = 1 ∧ saved_bucket s2' = b)
    as (H1 & H2 & H3 & H4 & H5 & H6 & H7).
  { pose proof (ev_lock _ _ _ _ _ Hev) as Hlk.
    destruct (ev_arena _ _ _ _ _ Hev) as (fl & hp2 & Heq).
    unfold s2'. destruct (negb _); rewrite Heq in *; done. }
  clearbody s2'. unfold clib_bihash_get_offset.
  destruct (bu_value _ _ _ _ _ _ _ _ Hbu) as (v' & Hv' & _).
  rewrite (proj2 (Z.ltb_lt nv _)) by (by apply (ev_small _ _ _ _ _ Hev nv v')).
  cbn [assert mbind res_bind].
  destruct (grow_states s2 own2 nv n mark s2') as (s4 & Heq & Hsw); [done..|].
  change (saved_bucket (set_bucket bi _ s2')) with (saved_bucket s2'). rewrite H7, Heq. cbn [mbind res_bind last of_option].
  unfold unlock. cbn [runs]. split; [done|]. cbn [fst]. by rewrite <-app_assoc.
Qed.
End grow.

Section add_del.
Context `{HE : BihashEnvOk}.

(** The first pair of a bucket. *)
Lemma first_ok h m own bi b e : writing (buckets h) own h →
  repr h (buckets h) (zlen (freelists h)) (mheap h) m → vget (buckets h) bi = Some b → offset b = 0 →
  kv_ok e → bucket_of h (key e) = bi →
  runs ('(h1, v) ← value_alloc h 0;
        h2 ← store_kv h1 v 0 e;
        off ← clib_bihash_get_offset h2 v;
        let h3 := set_bucket bi (Bucket off 0 0) h2 in
        unlock h3 [h; h1; h2; h3] 0) (update_done m e true 0).
Proof.
  intros Hw Hr Hb Hb0 Hkv Hbi. pose proof (vget_Some_range _ _ _ Hb) as Hrange.
  eapply runs_bind; [by apply (value_alloc_spec (buckets h) own); [apply Hw|apply Hw|apply Hw|]|].
  intros [s0 nv] (fl & hp & Heq & Hsm & Hal). cbn [fst snd] in *. subst s0. set (s1 := arena fl hp h).
  destruct Hal as [Hok Hv Hfr Hown Hfl _ Hsmall].
  unfold store_kv, clib_bihash_get_value. change (mheap s1) with hp. rewrite Hv.
  change (replicate _ free_kv) with [free_kv; free_kv; free_kv; free_kv].
  cbn [of_option mbind res_bind]. change (vget [free_kv; free_kv; free_kv; free_kv] 0) with (Some free_kv).
  cbn [of_option mbind res_bind]. unfold clib_bihash_get_offset. rewrite (proj2 (Z.ltb_lt _ _)) by done.
  cbn [assert mbind res_bind]. unfold unlock. cbn [runs].
  set (v := vset _ 0 e). set (s2 := store nv v s1). set (s3 := set_bucket bi (Bucket nv 0 0) s2).
  assert (nv ≠ 0) as Hnv0 by (by destruct (ho_dom _ _ _ _ _ Hok nv OHand ltac:(by rewrite lookup_insert_eq))).
  assert (∀ i b0, vget (buckets h) i = Some b0 → offset b0 ≠ 0 → offset b0 ≠ nv) as Hne.
  { intros i b0 Hi Hi0 Heq. pose proof (ho_bucket _ _ _ _ _ (wr_ok _ _ _ Hw) i b0 Hi Hi0) as Ho.
    rewrite Heq in Ho. by apply Hown in Ho. }
  assert (∀ i b0, vget (buckets h) i = Some b0 → offset b0 ≠ 0 → mheap s2 !! offset b0 = mheap h !! offset b0) as Hf2.
  { intros i b0 Hi Hi0. specialize (Hne i b0 Hi Hi0). cbn. rewrite lookup_insert_ne by done. by apply Hfr. }
  destruct (slots_set (λ k, bucket_of h k = bi) (paged h 0) (replicate 4 free_kv) 0 free_kv (key e) (value e))
    as [Hs Hh]; [apply slots_free|done|apply Hkv|apply Hkv|done| | |].
  { unfold paged. pose proof (home_page_range h (key e) 0 ltac:(lia)). change (2 ^ 0) with 1 in *.
    change (0 / 4) with 0. lia. }
  { right. split; [done|]. intros y. by apply holds_free, Hkv. }
  replace (Kv (key e) (value e)) with e in Hs, Hh by (by destruct e). change (vset (replicate 4 free_kv) 0 e) with v in Hs, Hh.
  assert (repr s3 (buckets s3) (zlen fl) (mheap s3) (apply_update e true m)) as Hr3.
  { apply (repr_meta h); [done|]. change (buckets s3) with (vset (buckets h) bi (Bucket nv 0 0)).
    change (mheap s3) with (mheap s2).
    apply (repr_set h (buckets h) (zlen (freelists h)) (zlen fl) (mheap h) (mheap s2) m); [done|lia|done| | | | |].
    - intros _. split; [cbn [log2_pages]; pose proof (zlen_nonneg (freelists h)); lia|]. exists v. split.
      + cbn. by rewrite lookup_insert_eq.
      + split; [cbn [log2_pages]; lia|done|exact Hs].
    - intros i b0 Hi _ Hi0. by apply (Hf2 i).
    - intros k x Hk Hkb. rewrite apply_update_value, (block_some _ _ v) by (done || (cbn; by rewrite lookup_insert_eq)).
      rewrite Hh by done. case_decide; [by split; [intros [_ ?]|intros ?]|].
      rewrite (rp_holds _ _ _ _ _ Hr), Hkb by done. unfold velt. rewrite Hb. cbn [default].
      rewrite block_none by done. split; [by intros ?%elem_of_nil|intros Hx; by apply holds_free in Hx].
    - intros k Hk. apply (apply_update_other h). congruence.
    - by eapply apply_update_keys. }
  split; [done|]. exists [h; s1; s2], [s3; set_lock 0 s3], (set_lock 0 s3). split; [done|].
  split; [|split; [|split; [done|split; [done| | |]]]].
  - assert (∀ hp', (∀ i b0, vget (buckets h) i = Some b0 → offset b0 ≠ 0 → hp' !! offset b0 = mheap h !! offset b0) →
      repr h (buckets h) (zlen (freelists h)) hp' m) as Hsame by (intros; by eapply repr_same_heap).
    apply forall_three; exists (zlen (freelists h)); [done|apply (repr_meta h); [done|]; apply Hsame|apply (repr_meta h); [done|]; by apply Hsame].
    intros i b0 Hi Hi0. specialize (Hne i b0 Hi Hi0). by apply Hfr.
  - apply forall_two; exists (zlen fl); [done|]. by apply (repr_meta s3).
  - cbn. by apply small_insert.
  - exists (<[nv := OBucket bi]> (<[nv := OHand]> own)).
    apply (heap_install_empty (buckets h) _ fl (working_copies h) (<[nv := v]> hp) bi b); [|done|done|by rewrite lookup_insert_eq].
    eapply heap_store; [done|by rewrite lookup_insert_eq|done].
  - by apply (repr_meta s3).
Qed.

(** The return value of an update: 0, or for the deletion of an absent key -1 when its bucket
    was never used and -3 otherwise. *)
Definition update_rv (h : clib_bihash) (m : gmap Z Z) (k : Z) (is_add : bool) : Z :=
  if is_add || bool_decide (is_Some (m !! k)) then 0
  else if offset (velt zero_bucket (buckets h) (bucket_of h k)) =? 0 then -1 else -3.

Lemma add_del_ok h m tmp cpu e is_add : table_ok h m → kv_ok e → 0 ≤ cpu →
  runs (clib_bihash_add_del tmp cpu h e is_add)
    (update_done m e is_add (update_rv h m (key e) is_add)).
Proof.
  intros [Hlk Hsm [own Hho] Hr0] Hkv Hcpu. unfold clib_bihash_add_del. rewrite Hlk. cbn [Z.eqb negb].
  set (hl := set_lock 1 h).
  assert (repr hl (buckets hl) (zlen (freelists hl)) (mheap hl) m) as Hr by (by apply (repr_meta h)).
  assert (writing (buckets hl) own hl) as Hw by (by split).
  pose proof (bucket_of_range hl _ _ _ _ (key e) Hr) as Hrange.
  change (Z.land (clib_bihash_hash (key e)) (u32 (nbuckets h - 1))) with (bucket_of hl (key e)).
  unfold update_rv. change (bucket_of h (key e)) with (bucket_of hl (key e)). change (buckets h) with (buckets hl).
  set (bi := bucket_of hl (key e)) in *.
  pose proof (vget_velt zero_bucket (buckets hl) bi Hrange) as Hb. set (b := velt zero_bucket (buckets hl) bi) in *.
  assert (bucket_at hl bi = Ok b) as -> by (unfold bucket_at; by rewrite Hb). cbn [mbind res_bind].
  assert (∀ x, m !! key e = Some x → holds (block (mheap hl) b) (key e) x) as Hm.
  { intros x Hx. by apply (rp_holds _ _ _ _ _ Hr) in Hx; [|apply Hkv]. }
  assert (∀ x, holds (block (mheap hl) b) (key e) x → m !! key e = Some x) as Hm2.
  { intros x Hx. by apply (rp_holds _ _ _ _ _ Hr); [apply Hkv|]. }
  destruct (Z.eqb_spec (offset b) 0) as [Hb0|Hb0].
  - assert (m !! key e = None) as Hnone.
    { apply eq_None_not_Some. intros [x Em%Hm].
      rewrite block_none in Em by done. by apply elem_of_nil in Em. }
    rewrite Hnone, bool_decide_eq_false_2 by (by intros [? ?]). rewrite orb_false_r. destruct is_add; cbn [negb].
    + by apply (first_ok hl m own bi b).
    + unfold unlock. cbn [runs]. split; [done|]. exists [hl], [set_lock 0 hl], (set_lock 0 hl).
      assert (apply_update e false m = m) as -> by (by apply delete_id).
      split; [done|]. split; [constructor; [by eexists|done]|].
      split; [constructor; [eexists; by apply (repr_meta hl)|done]|]. split; [done|].
      split; [done|done|by exists own|by apply (repr_meta hl)].
  - destruct (rp_block _ _ _ _ _ Hr bi b Hb Hb0) as (Hlt & v & Hv & Hok).
    eapply runs_bind.
    { by apply (make_working_copy_spec (buckets hl) own hl bi cpu b v); [apply Hw|..|apply Hok|apply Hok|]. }
    intros s0 (own' & wcs & hp & wo & Heq & Hcp).
    change (s0 = h1 hl bi b wcs hp wo) in Heq. subst s0. set (s1 := h1 hl bi b wcs hp wo).
    unfold clib_bihash_get_value at 1. change (mheap s1 !! offset (saved_bucket s1)) with (hp !! offset b).
    rewrite (mid_value hl own own' bi cpu b v wcs hp wo Hw Hb Hb0 Hv Hcp). cbn [of_option mbind res_bind].
    unfold bucket_at. change (buckets s1) with (vset (buckets hl) bi (copy_bucket b wo)).
    rewrite vget_vset_eq by done. cbn [of_option mbind res_bind].
    change (search_range s1 (key e) (copy_bucket b wo)) with (search_range hl (key e) b).
    destruct (find_key hl bi b v (key e) (λ x, key x =? key e) Hok eq_refl) as (st & n & r & Hsr & Hfind & Hres);
      [by apply Hkv|done|].
    rewrite Hsr, Hfind. cbn [mbind res_bind]. rewrite (block_some _ _ v) in Hm, Hm2 by done.
    destruct r as [i|].
    + destruct Hres as (e0 & Hi & Hke & Hhome).
      assert (is_Some (m !! key e)) as Hsome.
      { exists (value e0). apply Hm2. rewrite <-Hke. apply (vget_elem _ i). by destruct e0. }
      rewrite bool_decide_eq_true_2, orb_true_r by done. destruct Hkv as [Hk Hx]. destruct is_add.
      * destruct (slots_set _ _ v i e0 (key e) (value e) (vo_slots _ _ _ _ Hok)) as [Hs Hh]; try done; [by left|].
        replace (Kv (key e) (value e)) with e in Hs, Hh by (by destruct e).
        eapply (store_and_restore_ok hl m own own'); try done; intros k x Hkk.
        rewrite Hh by done. case_decide; [|done]. split; [done|by intros [_ ?]].
      * destruct (slots_clear _ _ v i e0 (key e) (vo_slots _ _ _ _ Hok)) as [Hs Hh]; [done..|].
        eapply (store_and_restore_ok hl m own own'); try done; intros k x Hkk.
        rewrite Hh by done. case_decide as Hkke; [by split; [intros [? _]|intros [? _]]|]. tauto.
    + assert (m !! key e = None) as Hnone.
      { apply eq_None_not_Some. intros [x Em%Hm]. by apply Hres in Em. }
      rewrite Hnone, bool_decide_eq_false_2 by (by intros [? ?]). rewrite orb_false_r. destruct is_add; cbn [negb].
      * destruct (search_range_ok hl bi b v (key e) Hok eq_refl) as (st' & n' & Hsr' & Hs1 & Hs2 & Hs3 & Hhome & _).
        rewrite Hsr in Hsr'. injection Hsr' as <- <-.
        destruct (find_slot_spec clib_bihash_is_free v (Z.to_nat n) st) as (r & -> & Hr'); [lia|lia|].
        cbn [mbind res_bind]. destruct r as [i|].
        -- destruct Hr' as (Hi & e0 & Hie & ->%is_free_inv). destruct Hkv as [Hk Hx].
           destruct (slots_set _ _ v i free_kv (key e) (value e) (vo_slots _ _ _ _ Hok)) as [Hs Hh]; try done.
           { apply Hhome. lia. }
           { by right. }
           replace (Kv (key e) (value e)) with e in Hs, Hh by (by destruct e).
           eapply (store_and_restore_ok hl m own own'); try done; intros k x Hkk.
           rewrite Hh by done. case_decide; [|done]. split; [done|by intros [_ ?]].
        -- by apply (grow_ok hl m own own' bi cpu b v).
      * by apply (restore_ok hl m own own' bi cpu b v).
Qed.
End add_del.

(** ** An environment

    The hash of the source for processors without CRC instructions, and an allocator that
    takes the offset after the highest in use. *)

Definition highest (m : heap) : Z := foldr Z.max 0 (fst <$> map_to_list m).

Definition bump_resize (m : heap) (old n : Z) : option Z :=
  if (n <=? 2 ^ 26) && (highest m + 1 <? 2 ^ 32) then Some (highest m + 1) else None.

Definition xxhash_env : BihashEnv := {| clib_bihash_hash := clib_xxhash; mheap_resize := bump_resize |}.

Lemma foldr_max l : 0 ≤ foldr Z.max 0 l ∧ ∀ x, x ∈ l → x ≤ foldr Z.max 0 l.
Proof.
  induction l as [|y l [IH1 IH2]]; cbn [foldr]; [split; [lia|by intros x ?%elem_of_nil]|].
  split; [lia|]. intros x [->|Hx]%elem_of_cons; [lia|]. specialize (IH2 x Hx). lia.
Qed.

Lemma bump_fresh m old n o : bump_resize m old n = Some o → 0 < o < 2 ^ 32 ∧ n ≤ 2 ^ 26 ∧ m !! o = None.
Proof.
  unfold bump_resize. destruct ((n <=? 2 ^ 26) && (highest m + 1 <? 2 ^ 32)) eqn:Hc; [|done].
  intros [= <-]. bool_to_prop. unfold highest in *.
  destruct (foldr_max (fst <$> map_to_list m)) as [Hge Hmax]. split; [lia|]. split; [done|].
  apply eq_None_not_Some. intros [v Hv%elem_of_map_to_list].
  assert (foldr Z.max 0 (fst <$> map_to_list m) + 1 ∈ fst <$> map_to_list m) as Hin.
  { apply list_elem_of_fmap. by exists (foldr Z.max 0 (fst <$> map_to_list m) + 1, v). }
  apply Hmax in Hin. lia.
Qed.

Lemma xxhash_range k : in_u64 (clib_xxhash k).
Proof.
  unfold clib_xxhash. cbv zeta. set (x := u64 (_ * PRIME64_3)).
  assert (in_u64 x) as Hx by apply u64_range. clearbody x.
  unfold in_u64. apply lxor_range; [lia|done|]. apply shiftr_range; [lia|exact Hx].
Qed.

#[export] Instance xxhash_env_ok : BihashEnvOk xxhash_env.
Proof.
  split.
  - apply xxhash_range.
  - intros m old n o Ho%bump_fresh. tauto.
  - intros m old n o Ho%bump_fresh. left. tauto.
Qed.

(** ** The theorems *)

(** An operation: the uninitialised word, the processor, the pair and whether it is added. *)
Record bihash_op := Op { op_tmp : Z; op_cpu : Z; op_kv : clib_bihash_kv; op_add : bool }.
Definition op_ok (o : bihash_op) : Prop := kv_ok (op_kv o) ∧ 0 ≤ op_cpu o.

(** The table and the return values after a sequence of operations. *)
Fixpoint bihash_run `{E : BihashEnv} (ops : list bihash_op) (h : clib_bihash) : res (clib_bihash * list Z) :=
  match ops with
  | [] => Ok (h, [])
  | o :: ops =>
      '(tr, rv) ← clib_bihash_add_del (op_tmp o) (op_cpu o) h (op_kv o) (op_add o);
      h ← of_option (last tr);
      '(h, rvs) ← bihash_run ops h;
      Ok (h, rv :: rvs)
  end.

(** The same on a finite map: the map, and which operations succeed. *)
Fixpoint map_run (ops : list bihash_op) (m : gmap Z Z) : gmap Z Z * list bool :=
  match ops with
  | [] => (m, [])
  | o :: ops =>
      let '(m', oks) := map_run ops (apply_update (op_kv o) (op_add o) m) in
      (m', (op_add o || bool_decide (is_Some (m !! key (op_kv o)))) :: oks)
  end.

Section theorems.
Context `{HE : BihashEnvOk}.

Lemma bihash_init_ok n : 1 ≤ n ≤ 2 ^ 30 → table_ok (clib_bihash_init zero_bihash n) ∅.
Proof.
  intros Hn. unfold clib_bihash_init.
  assert (∃ l, 0 ≤ l ≤ 30 ∧ ClibBitmap.max_log2 n = l) as (l & Hl & ->).
  { eexists. split; [|done]. unfold ClibBitmap.max_log2, ClibBitmap.min_log2, ClibBitmap.count_leading_zeros, ClibBitmap.BITS.
    replace (64 - (63 - Z.log2 n) - 1) with (Z.log2 n) by lia.
    pose proof (Z.log2_nonneg n). pose proof (Z.log2_spec n ltac:(lia)) as [Hlo Hhi].
    assert (Z.log2 n ≤ 30) as H30.
    { pose proof (Z.log2_le_mono n (2 ^ 30) ltac:(lia)) as Hm. by rewrite Z.log2_pow2 in Hm. }
    rewrite u64_small by (unfold_ranges; rewrite Z.shiftl_1_l; pose proof (Z.pow_le_mono_r 2 (Z.log2 n) 30 ltac:(lia) ltac:(lia));
      pose proof (Z.pow_pos_nonneg 2 (Z.log2 n)); lia).
    rewrite Z.shiftl_1_l. destruct (Z.ltb_spec (2 ^ Z.log2 n) n); [|lia].
    assert (Z.log2 n ≠ 30); [|lia]. intros Heq. rewrite Heq in *. lia. }
  pose proof (Z.pow_le_mono_r 2 l 30 ltac:(lia) ltac:(lia)). pose proof (Z.pow_pos_nonneg 2 l).
  rewrite Z.shiftl_1_l, u32_small by (unfold_ranges; lia).
  assert (ClibBitmap.max_log2 (2 ^ l) = l) as Hmax.
  { unfold ClibBitmap.max_log2. rewrite ClibBitmap.min_log2_pow2, Z.shiftl_1_l, u64_small, Z.ltb_irrefl by (unfold_ranges; lia). done. }
  rewrite Hmax. set (bs := vec_validate zero_bucket [] (2 ^ l - 1)).
  assert (∀ i b, vget bs i = Some b → b = zero_bucket) as Hz.
  { intros i b Hb%vget_elem. by apply elem_of_replicate in Hb as [-> _]. }
  assert (∀ j, velt zero_bucket bs j = zero_bucket) as Hvz.
  { intros j. unfold velt. destruct (vget bs j) as [b|] eqn:Em; [by apply Hz in Em|done]. }
  split; [done|by intros o v|exists ∅; split|split]; cbn [mheap buckets freelists working_copies zero_bihash].
  - intros o x Hx. by rewrite lookup_empty in Hx.
  - intros i b Hi. apply Hz in Hi as ->. done.
  - intros c o Hc%vget_elem. by apply elem_of_nil in Hc.
  - intros c o Hc%vget_elem. by apply elem_of_nil in Hc.
  - cbn [log2_nbuckets nbuckets]. lia.
  - unfold bs. rewrite zlen_validate by lia. change (zlen []) with 0. cbn [nbuckets]. lia.
  - intros i b Hi. apply Hz in Hi as ->. done.
  - intros k x Hk. rewrite lookup_empty. rewrite Hvz. split; [done|]. by intros ?%elem_of_nil.
  - intros k x Hx. by rewrite lookup_empty in Hx.
Qed.

Lemma bihash_run_ok ops : ∀ h m, table_ok h m → Forall op_ok ops →
  runs (bihash_run ops h) (λ r, table_ok r.1 (map_run ops m).1 ∧ (λ rv, rv =? 0) <$> r.2 = (map_run ops m).2).
Proof.
  induction ops as [|o ops IH]; intros h m Hok Hops; cbn [bihash_run map_run]; [by split|].
  apply list.Forall_cons in Hops as [[Hkv Hcpu] Hops].
  eapply runs_bind; [by apply (add_del_ok h m)|]. intros [tr rv] [Hrv (t1 & t2 & h' & Htr & _ & _ & Hlast & Hok')].
  cbn [fst snd] in *. rewrite Hlast. cbn [of_option mbind res_bind].
  eapply runs_bind; [by apply IH|]. intros [h2 rvs] [Hok2 Hrvs]. cbn [fst snd runs] in *.
  destruct (map_run ops _) as [m' oks]. cbn [fst snd] in *. split; [done|]. rewrite fmap_cons, Hrvs. f_equal.
  rewrite Hrv. unfold update_rv. destruct (op_add o || _); [done|]. by destruct (offset _ =? 0).
Qed.
End theorems.

(** ** Iteration *)

Section iteration.
Context `{HE : BihashEnvOk}.

Definition in_use (e : clib_bihash_kv) : Prop := clib_bihash_is_free e = false.
Definition pairs (v : list clib_bihash_kv) : list clib_bihash_kv := filter in_use v.

Lemma drop_vget {A} (l : list A) i x : vget l i = Some x → drop (Z.to_nat i) l = x :: drop (S (Z.to_nat i)) l.
Proof. unfold vget. case_cond; [|done]. intros Hx. by rewrite <-(drop_S l x _ Hx). Qed.

Lemma foreach_slot_ok {A} (fp : A → clib_bihash_kv → A) v n : ∀ i arg, 0 ≤ i → i + Z.of_nat n ≤ zlen v →
  foreach_slot fp v i n arg = Ok (foldl fp arg (pairs (take n (drop (Z.to_nat i) v)))).
Proof.
  induction n as [|n IH]; intros i arg Hi Hn; cbn [foreach_slot]; [done|].
  destruct (vget_of_option v i) as (e & He & ->); [lia|]. cbn [mbind res_bind]. rewrite IH by lia.
  rewrite (drop_vget v i e He). cbn [take]. unfold pairs at 2. rewrite filter_cons.
  replace (Z.to_nat (i + 1)) with (S (Z.to_nat i)) by lia. case_decide as Hu; unfold in_use in Hu.
  - by rewrite Hu.
  - apply not_false_is_true in Hu. by rewrite Hu.
Qed.

Lemma foreach_page_ok {A} (fp : A → clib_bihash_kv → A) v n : ∀ j arg, 0 ≤ j → 4 * (j + Z.of_nat n) ≤ zlen v →
  foreach_page fp v j n arg = Ok (foldl fp arg (pairs (take (4 * n) (drop (Z.to_nat (4 * j)) v)))).
Proof.
  induction n as [|n IH]; intros j arg Hj Hn; cbn [foreach_page]; [done|]. unfold BIHASH_KVP_PER_PAGE.
  rewrite foreach_slot_ok by lia. cbn [mbind res_bind]. rewrite IH by lia.
  replace (4 * S n)%nat with (4 + 4 * n)%nat by lia. rewrite <-take_take_drop, drop_drop.
  replace (Z.to_nat (j * 4)) with (Z.to_nat (4 * j)) by lia.
  replace (Z.to_nat (4 * j) + 4)%nat with (Z.to_nat (4 * (j + 1))) by lia.
  unfold pairs. by rewrite list.filter_app, foldl_app.
Qed.

Definition table_pairs (hp : heap) (bs : list clib_bihash_bucket) : list clib_bihash_kv :=
  concat ((λ b, pairs (block hp b)) <$> bs).

Lemma foreach_bucket_ok {A} (fp : A → clib_bihash_kv → A) h nfl m n : repr h (buckets h) nfl (mheap h) m →
  ∀ i arg, 0 ≤ i → i + Z.of_nat n = zlen (buckets h) →
  foreach_bucket fp h i n arg = Ok (foldl fp arg (table_pairs (mheap h) (drop (Z.to_nat i) (buckets h)))).
Proof.
  intros Hr. induction n as [|n IH]; intros i arg Hi Hn; cbn [foreach_bucket].
  { rewrite drop_ge; [done|]. unfold zlen in Hn. lia. }
  destruct (vget_in_range (buckets h) i) as [b Hb]; [lia|]. unfold bucket_at. rewrite Hb. cbn [of_option mbind res_bind].
  rewrite (drop_vget _ _ _ Hb). unfold table_pairs. rewrite fmap_cons. cbn [concat]. rewrite foldl_app.
  replace (S (Z.to_nat i)) with (Z.to_nat (i + 1)) by lia.
  destruct (Z.eqb_spec (offset b) 0) as [Hb0|Hb0].
  { cbn [mbind res_bind]. rewrite block_none by done. by apply IH; lia. }
  destruct (rp_block _ _ _ _ _ Hr i b Hb Hb0) as (_ & v & Hv & [Hlp Hlen _]).
  unfold clib_bihash_get_value. rewrite Hv, (block_some _ _ v) by done. cbn [of_option mbind res_bind].
  rewrite Z.shiftl_1_l. pose proof (Z.pow_pos_nonneg 2 (log2_pages b)).
  rewrite foreach_page_ok by lia. cbn [mbind res_bind].
  replace (take _ (drop (Z.to_nat (4 * 0)) v)) with v by (rewrite drop_0, take_ge; [done|unfold zlen in Hlen; lia]).
  by apply IH; lia.
Qed.

(** Elements with the tag of their list. *)
Lemma nodup_tagged {A} (tag : A → Z) (ls : list (list A)) : ∀ i,
  (∀ j l, vget ls j = Some l → NoDup l ∧ ∀ x, x ∈ l → tag x = i + j) → NoDup (concat ls).
Proof.
  induction ls as [|l ls IH]; intros i Hls; cbn [concat]; [constructor|].
  destruct (Hls 0 l eq_refl) as [Hl Htag]. apply list.NoDup_app. split; [done|]. split.
  - intros x Hx Hin. apply elem_of_concat in Hin as (l' & Hx' & [j Hj]%elem_vget).
    pose proof (vget_Some_range _ _ _ Hj). destruct (Hls (j + 1) l') as [_ Htag']; [by rewrite vget_cons by lia|].
    specialize (Htag x Hx). specialize (Htag' x Hx'). lia.
  - apply (IH (i + 1)). intros j l' Hj. pose proof (vget_Some_range _ _ _ Hj).
    destruct (Hls (j + 1) l') as [Hn Ht]; [by rewrite vget_cons by lia|]. split; [done|].
    intros x Hx. rewrite (Ht x Hx). lia.
Qed.

Lemma pairs_nodup P home v : slots_ok P home v → NoDup (pairs v).
Proof.
  intros Hs. assert (slots_ok P (λ _ _, True) v) as Hs' by by eapply slots_weaken. clear Hs.
  induction v as [|e v IH]; [constructor|]. apply slots_cons_inv in Hs' as [He Hs].
  unfold pairs. rewrite filter_cons. case_decide as Hu; [|by apply IH].
  apply list.NoDup_cons. split; [|by apply IH]. intros [_ Hin]%list_elem_of_filter.
  destruct He as [->|(_ & _ & Hno)]; [done|]. apply (Hno (value e)). unfold holds. by destruct e.
Qed.

Lemma table_pairs_map h nfl m : repr h (buckets h) nfl (mheap h) m →
  (λ e, (key e, value e)) <$> table_pairs (mheap h) (buckets h) ≡ₚ map_to_list m.
Proof.
  intros Hr. set (f := λ e, (key e, value e)).
  assert (∀ i b, vget (buckets h) i = Some b → offset b = 0 ∧ pairs (block (mheap h) b) = [] ∨
    ∃ v, block (mheap h) b = v ∧ values_ok h i b v) as Hcase.
  { intros i b Hi. destruct (decide (offset b = 0)) as [Hb0|Hb0]; [left; by rewrite block_none|right].
    destruct (rp_block _ _ _ _ _ Hr i b Hi Hb0) as (_ & v & Hv & Hok). exists v. by rewrite (block_some _ _ v). }
  apply NoDup_Permutation.
  - apply list.NoDup_fmap_2; [by intros [] [] [= -> ->]|].
    apply (nodup_tagged (λ e, bucket_of h (key e)) _ 0). intros j l Hj.
    pose proof (vget_Some_range _ _ _ Hj) as Hjr. unfold zlen in Hjr. rewrite length_fmap in Hjr. fold (zlen (buckets h)) in Hjr.
    destruct (vget_in_range (buckets h) j Hjr) as [b Hb].
    assert (l = pairs (block (mheap h) b)) as ->.
    { unfold vget in Hj, Hb. destruct (0 <=? j); [|done]. rewrite list_lookup_fmap, Hb in Hj. by injection Hj as <-. }
    destruct (Hcase j b Hb) as [[_ ->]|(v & -> & [_ _ Hs])]; [split; [constructor|by intros x ?%elem_of_nil]|].
    split; [by eapply pairs_nodup|]. intros x [Hu [i Hi]%elem_vget]%list_elem_of_filter.
    destruct (sl_elem _ _ _ Hs i x Hi) as [->|(_ & Hb' & _)]; [done|]. lia.
  - apply NoDup_map_to_list.
  - intros [k x]. rewrite elem_of_map_to_list, list_elem_of_fmap. unfold table_pairs. setoid_rewrite elem_of_concat. split.
    + intros (e & [= -> ->] & l & He & (b & -> & [i Hi]%elem_vget)%list_elem_of_fmap).
      destruct (Hcase i b Hi) as [[_ Hnil]|(v & Hbv & [_ _ Hs])]; [rewrite Hnil in He; by apply elem_of_nil in He|].
      rewrite Hbv in He. apply list_elem_of_filter in He as [Hu Hev].
      destruct (elem_vget _ _ Hev) as [n Hn].
      destruct (sl_elem _ _ _ Hs n e Hn) as [->|(Hok & Hbe & _)]; [done|].
      apply (rp_holds _ _ _ _ _ Hr); [apply Hok|]. rewrite Hbe. unfold velt. rewrite Hi. cbn [default id].
      rewrite Hbv. unfold holds. by destruct e.
    + intros Hm. destruct (rp_keys _ _ _ _ _ Hr k x Hm) as [Hk Hx]. apply (rp_holds _ _ _ _ _ Hr) in Hm; [|done].
      pose proof (bucket_of_range h _ _ _ _ k Hr) as Hrange.
      set (b := velt zero_bucket (buckets h) (bucket_of h k)) in *.
      exists (Kv k x). split; [done|]. exists (pairs (block (mheap h) b)). split.
      * apply list_elem_of_filter. split; [by apply not_free|done].
      * apply list_elem_of_fmap. exists b. split; [done|]. eapply vget_elem. by apply vget_velt.
Qed.
End iteration.

(** ** The properties *)

Section properties.
Context `{HE : BihashEnvOk}.

(** C27: A bihash is a finite map.  From an empty table of [n] buckets, every sequence of
    additions and deletions of keys other than all ones runs without a failed assertion or an
    access out of bounds, and to its end unless the allocator refuses memory; an operation
    returns 0 exactly when it adds or its key is in the map; and at the end a search finds
    exactly the map. *)
Theorem bihash_refines_map (n : Z) (ops : list bihash_op) (Hn : 1 ≤ n ≤ 2 ^ 30) (Hops : Forall op_ok ops) :
  runs (bihash_run ops (clib_bihash_init zero_bihash n)) (λ '(h, rvs),
    (λ rv, rv =? 0) <$> rvs = (map_run ops ∅).2 ∧
    ∀ sk vp, key_ok (key sk) → clib_bihash_search h sk vp = Ok (found (map_run ops ∅).1 (key sk) vp)).
Proof.
  eapply runs_mono; [by apply (bihash_run_ok ops _ ∅); [apply bihash_init_ok|]|].
  intros [h rvs] [[_ _ _ Hr] Hrvs]. split; [done|]. intros sk vp Hk. by eapply search_ok.
Qed.

(** What every search of a valid key answers. *)
Definition answers (m : gmap Z Z) (h : clib_bihash) : Prop :=
  ∀ sk vp, key_ok (key sk) → clib_bihash_search h sk vp = Ok (found m (key sk) vp).


(** The iteration visits the pairs of the map, each once: with every callback it folds the
    callback over one listing of the map. *)
Theorem bihash_foreach_visits (h : clib_bihash) (m : gmap Z Z) (Hok : table_ok h m) :
  ∃ l, (λ e, (key e, value e)) <$> l ≡ₚ map_to_list m ∧
    ∀ (A : Type) (fp : A → clib_bihash_kv → A) (arg : A),
      clib_bihash_foreach_key_value_pair fp h arg = Ok (foldl fp arg l).
Proof.
  destruct Hok as [_ _ _ Hr]. exists (table_pairs (mheap h) (buckets h)). split; [by eapply table_pairs_map|].
  intros A fp arg. unfold clib_bihash_foreach_key_value_pair. rewrite <-(rp_len _ _ _ _ _ Hr).
  pose proof (zlen_nonneg (buckets h)). by erewrite foreach_bucket_ok by (done || lia).
Qed.

(** The key of all ones is taken for a free pair: in every table where its place has a
    free pair, a search finds it, with the value of all ones, although it was never added. *)
Theorem bihash_all_ones_found (h : clib_bihash) (m : gmap Z Z) (x i : Z) (vp : clib_bihash_kv)
    (b : clib_bihash_bucket) (v : list clib_bihash_kv) (Hok : table_ok h m)
    (Hb : read_bucket h u64_max = Ok b) (Hb0 : offset b ≠ 0) (Hv : mheap h !! offset b = Some v)
    (Hi : let '(s, n) := search_range h u64_max b in s ≤ i < s + n) (Hfree : vget v i = Some free_kv) :
  clib_bihash_search h (Kv u64_max x) vp = Ok (free_kv, 0).
Proof.
  destruct Hok as [_ _ _ Hr]. unfold clib_bihash_search. cbn [key]. rewrite Hb. cbn [mbind res_bind].
  unfold read_bucket, bucket_at in Hb. fold (bucket_of h u64_max) in Hb.
  assert (vget (buckets h) (bucket_of h u64_max) = Some b) as Hb' by (destruct (vget _ _); by simplify_eq/=).
  destruct (rp_block _ _ _ _ _ Hr _ b Hb' Hb0) as (_ & v' & Hv' & Hvok). rewrite Hv in Hv'. injection Hv' as <-.
  unfold search_bucket. rewrite (proj2 (Z.eqb_neq _ _)) by done. unfold clib_bihash_get_value. rewrite Hv.
  cbn [of_option mbind res_bind].
  destruct (search_range_ok h _ b v u64_max Hvok eq_refl) as (s & n & Hsr & Hs & Hn & Hle & _). rewrite Hsr in *.
  destruct (find_slot_spec (λ e, clib_bihash_key_compare (key e) u64_max) v (Z.to_nat n) s) as (r & -> & Hres); [lia|lia|].
  cbn [mbind res_bind]. destruct r as [j|].
  - destruct Hres as (_ & e & He & Hke%Z.eqb_eq). rewrite He. cbn [of_option mbind res_bind].
    by rewrite (key_max_free _ _ _ _ _ (vo_slots _ _ _ _ Hvok) He Hke).
  - by specialize (Hres i free_kv ltac:(lia) Hfree).
Qed.
End properties.

Definition example_ops : list bihash_op :=
  ((λ k, Op 0 0 (Kv k (k * 10)) true) <$> zrange 0 30) ++ [Op 0 0 (Kv 7 0) false; Op 0 1 (Kv 99 0) false; Op 0 1 (Kv 8 1) true].

Lemma example_ops_ok : Forall op_ok example_ops.
Proof.
  unfold example_ops. apply list.Forall_app. split.
  - apply list.Forall_forall. intros o (k & -> & Hk%elem_of_zrange)%list_elem_of_fmap.
    split; [split|cbn; lia]; cbn [key value op_kv]; unfold key_ok, u64_max; unfold_ranges; lia.
  - repeat constructor; cbn; unfold key_ok, u64_max; unfold_ranges; lia.
Qed.

(** 33 operations on two buckets, which grow to eight pages. *)
Definition example_table : res (clib_bihash * list Z) :=
  bihash_run (E := xxhash_env) example_ops (clib_bihash_init zero_bihash 2).

Lemma bihash_refines_map_witness :
  runs (E := xxhash_env) example_table (λ '(h, rvs),
    clib_bihash_search (E := xxhash_env) h (Kv 8 0) zero_kv = Ok (Kv 8 1, 0) ∧
    clib_bihash_search (E := xxhash_env) h (Kv 7 0) zero_kv = Ok (zero_kv, -1)) ∧
  match example_table with Ok _ => true | _ => false end = true.
Proof.
  split; [|vm_compute; reflexivity].
  refine (runs_mono _ _ _ (bihash_refines_map (E := xxhash_env) 2 example_ops _ example_ops_ok) _); [lia|].
  intros [h rvs] [_ Hs]. split; rewrite Hs by (unfold key_ok, u64_max; cbn [key]; lia); vm_compute; reflexivity.
Defined.

Lemma example_run_ok : runs (E := xxhash_env) example_table (λ r, table_ok (E := xxhash_env) r.1 (map_run example_ops ∅).1).
Proof.
  refine (runs_mono _ _ _ (bihash_run_ok (E := xxhash_env) example_ops _ ∅ (bihash_init_ok 2 _) example_ops_ok) _); [lia|].
  by intros r [Hok _].
Qed.

Definition new_pair : clib_bihash_kv := Kv 31 5.

Lemma new_pair_ok : kv_ok new_pair.
Proof. split; cbn; unfold key_ok, u64_max; unfold_ranges; lia. Qed.

Definition is_ok {A} (x : res A) : bool := match x with Ok _ => true | _ => false end.


Lemma bihash_foreach_visits_witness :
  runs (E := xxhash_env) example_table (λ r,
    clib_bihash_foreach_key_value_pair (λ n _, n + 1) r.1 0 = Ok 29) ∧ is_ok example_table = true.
Proof.
  split; [|vm_compute; reflexivity].
  refine (runs_mono _ _ _ example_run_ok _). intros r Hok.
  destruct (bihash_foreach_visits (E := xxhash_env) r.1 _ Hok) as (l & Hl & Hfold). rewrite Hfold. f_equal.
  apply Permutation_length in Hl. rewrite length_fmap in Hl.
  assert (length (map_to_list (map_run example_ops ∅).1) = 29%nat) as H29 by (vm_compute; reflexivity).
  assert (∀ l n, foldl (λ (n : Z) (_ : clib_bihash_kv), n + 1) n l = n + Z.of_nat (length l)) as Hcount.
  { intros l0. induction l0 as [|x l0 IH]; intros n; cbn [foldl length]; [lia|]. rewrite IH. lia. }
  rewrite Hcount, Hl, H29. done.
Defined.

(** One bucket with one pair. *)
Definition one_pair_run : res (clib_bihash * list Z) :=
  bihash_run (E := xxhash_env) [Op 0 0 new_pair true] (clib_bihash_init zero_bihash 1).
Definition one_pair : clib_bihash := match one_pair_run with Ok (h, _) => h | _ => zero_bihash end.

Lemma one_pair_ok : ∃ m, table_ok (E := xxhash_env) one_pair m.
Proof.
  assert (Forall op_ok [Op 0 0 new_pair true]) as Hops.
  { constructor; [|constructor]. split; [apply new_pair_ok|cbn; lia]. }
  pose proof (bihash_run_ok (E := xxhash_env) _ _ ∅ (bihash_init_ok 1 ltac:(lia)) Hops) as H. fold one_pair_run in H.
  assert (is_ok one_pair_run = true) as Hb by (vm_compute; reflexivity).
  unfold one_pair. destruct one_pair_run as [[h rvs]| | |]; [|discriminate Hb..].
  cbn [runs fst] in H. eexists. exact (proj1 H).
Qed.

Lemma bihash_all_ones_found_witness :
  clib_bihash_search (E := xxhash_env) one_pair (Kv u64_max 0) zero_kv = Ok (free_kv, 0).
Proof.
  destruct one_pair_ok as [m Hok].
  apply (bihash_all_ones_found (E := xxhash_env) one_pair m 0 1 zero_kv (Bucket 1 0 0) [new_pair; free_kv; free_kv; free_kv] Hok).
  - vm_compute. reflexivity.
  - cbn. lia.
  - vm_compute. reflexivity.
  - vm_compute. by split.
  - reflexivity.
Defined.

(** ** A reader that is overtaken *)

(** A table with a pair in each of two buckets; the states of two updates of those pairs. *)
Definition two_pairs : res (list clib_bihash * list clib_bihash) :=
  '(h, _) ← bihash_run (E := xxhash_env) [Op 0 0 (Kv 0 10) true; Op 0 0 (Kv 3 13) true] (clib_bihash_init zero_bihash 2);
  '(tr1, _) ← clib_bihash_add_del (E := xxhash_env) 0 0 h (Kv 0 20) true;
  h1 ← of_option (last tr1);
  '(tr2, _) ← clib_bihash_add_del (E := xxhash_env) 0 0 h1 (Kv 3 23) true;
  Ok (tr1, tr2).

(** The return values of searches in several states. *)
Fixpoint search_all (states : list clib_bihash) (k : Z) : res (list Z) :=
  match states with
  | [] => Ok []
  | s :: states =>
      '(_, rv) ← clib_bihash_search (E := xxhash_env) s (Kv k 0) zero_kv;
      rvs ← search_all states k;
      Ok (rv :: rvs)
  end.

(** The bucket of key 0 is loaded in the second state of the first update and scanned in the
    last state of the second; with it, searches in every state, and one in the last. *)
Definition overtaken : res ((clib_bihash_kv * Z) * list Z * (clib_bihash_kv * Z)) :=
  '(tr1, tr2) ← two_pairs;
  s ← of_option (tr1 !! 1%nat);
  h ← of_option (last tr2);
  b ← read_bucket (E := xxhash_env) s 0;
  stale ← search_bucket (E := xxhash_env) h b 0 zero_kv;
  rvs ← search_all (tr1 ++ tr2) 0;
  now ← clib_bihash_search (E := xxhash_env) h (Kv 0 0) zero_kv;
  Ok (stale, rvs, now).

(** A search is not safe against two updates.  A reader loads a bucket while the writer
    shows its copy, and scans the pairs after the next update, of another bucket, has taken the same
    memory for its copy: the key is not found, although a search finds it in every state of
    both updates. *)
Theorem bihash_overtaken_reader_misses :
  overtaken = Ok ((zero_kv, -1), replicate 10 0, (Kv 0 20, 0)).
Proof. vm_compute. reflexivity. Qed.

End BihashSpec.
